(* ===== verification/_CoqProject ===== *)
-Q . S2P
Prelude.v
Bytes.v
Provider.v
Validation.v
Paths.v
Outputs.v
Cas.v
Control.v
ControlInv.v
ControlThms.v
ControlGc.v
Pins.v
Worker.v
GcSystem.v
GcSafety.v
Pack.v
Tags.v
TagPack.v
Refs.v
RefsPublish.v
LsRemote.v
Manifest.v
Wire.v
Artifacts.v
S3Upload.v
Api.v
ApiThms.v
ApiBuild.v
Routes.v
Webhooks.v
Client.v
Download.v
DownloadThms.v
ClientThms.v
ClientServer.v
Metrics.v
Server.v
Refresh.v
Poller.v
FullClone.v
Staging.v
Archive.v
ArchivePlan.v
ArchiveBundle.v
ArchiveBuild.v
ArchiveExact.v
ArchiveTail.v
WorktreeWriter.v
Extract.v
ExtractInv.v
ExtractThms.v
ExtractChunks.v
Roundtrip.v
ArchiveHistory.v
