(* ===== verification/Prelude.v ===== *)
(** * ripclone: a model of its server, its formats and its clones

    ripclone serves git clones from prebuilt artifacts. A server keeps a bare
    mirror of every repository, builds three outputs of each admitted commit (Head:
    packs of the commit's objects; Files: an archive of the working tree; Full:
    Head and the history), publishes the repository's branches and tags beside
    them, stores all artifacts by content hash, and records them in a control store.
    A client asks for a commit, downloads the artifacts a manifest names, and writes
    the working tree and the [.git] from them. This development is a Rocq
    translation of that program, from the Rust sources under [src/rust/src], with
    the theorems that make it correct. Names follow the source; a definition that is
    one part of a function (a loop body, a closure, a statement's condition) says so
    in its comment, and each file's own header says what it leaves out.

    ** Parts and files

    - Foundations. [Prelude]: results ([Ok]/[Err] and the notations [let?],
      [ensure!], [bail_if!]), fallible code over a state ([let!]) with its
      specifications [spec], machine integers ([N] for unsigned ones, [Z] for [i64],
      with checked and saturating operations), slices by [usize], stable sorting,
      string functions, and the lemmas and tactics ([breflect], [inv_ok], the hint
      databases [rust] and [nlen]) all files share. [Bytes]: big-endian integers,
      hex, decimal text, UTF-8. [Provider] (provider.rs): providers, repository
      identities, clone URLs. [Validation], [Paths] (validation.rs, fsutil.rs):
      outside input, relative paths, and directory creation over a file system tree
      [FsTree]. [Outputs] (lib.rs): the stored results of a build and the artifacts
      each names.
    - Storage. [Cas] (cas.rs): the content-addressed store as programs of operating
      system calls that interleave, on a disk that may crash. [Artifacts]
      (server/artifacts.rs, storage/mod.rs): the artifact route over the class
      [StorageBackend]. [S3Upload] (storage/): the limit on PUTs, their tries,
      multipart uploads, and the bucket as a [StorageBackend].
    - The control store. [Control] (control/mod.rs, control/sqlite.rs, its schema):
      every [ControlStore] operation as a function from the tables to the tables it
      commits and its result. [ControlInv]: its invariant [store_ok] and the step
      relation [step]. [ControlThms], [ControlGc]: what its callers rely on.
    - Builds. [Pins] (pins.rs), [Worker] (server/worker.rs): pins, error classes,
      retry delays, how a build ends. [GcSystem], [GcSafety]: the server's slots,
      refs publishers and sweeps as a step relation [sys_step], and its invariant.
      [Pack] (pack.rs, server/builder.rs): Head packs, and history levels with their
      compaction.
    - Refs. [Tags], [TagPack] (tags.rs): the tags artifact and what a clone writes
      of it. [Refs], [RefsPublish] (ls_refs.rs, branches.rs, server/refs.rs): the
      upstream listing, the branches artifact, side packs and their publication.
      [Refresh]: how requests to refresh are folded. [LsRemote] (git.rs): what is
      asked of upstream, and how a name resolves. [Poller] (server/poller.rs),
      [Webhooks] (server/webhooks.rs, webhook/): what starts builds and refreshes.
    - The server's routes. [Wire]: the JSON both sides speak. [Api], [ApiThms],
      [ApiBuild], [Routes] (server/api.rs): the [/v1/repos] routes. [Metrics]
      (metrics.rs): the counters. [Server] (server/mod.rs, server/auth.rs): gates,
      routing and the public routes.
    - The client. [Client], [ClientThms] (client.rs, client/install.rs): requests,
      answers' checks, and the plan of what to install. [ClientServer]: the client
      over the server. [Download], [DownloadThms] (client/download.rs): one
      artifact's download. [FullClone] (client/install.rs): packs, refs and config of
      a clone. [Staging] (client/staging.rs): the staging directory and its reaper.
    - Working trees. [Manifest] (manifest.rs, clonepack.rs): files tables, their
      geometry check and their deltas. [Archive], [ArchivePlan], [ArchiveBundle],
      [ArchiveBuild], [ArchiveExact], [ArchiveTail] (archive.rs): a tree's stream,
      incremental plans, frames and bundles, and the three builds.
      [WorktreeWriter] (worktree_writer.rs), [Extract], [ExtractInv], [ExtractThms],
      [ExtractChunks] (extract.rs): range requests, decompression, and writing files
      as they complete. [Roundtrip], [ArchiveHistory]: build, fetch, extract.

    ** How the parts meet

    [Worker.settle] ends a build with [Control.publish], [fail] and
    [queue_deletions]; [GcSystem] runs these beside [Pins.pin] and [begin_delete].
    [Api] calls [Control] with what others did to it in between
    ([env_others]), and resolves names by [LsRemote]; [Routes.handle] reaches [Api],
    [Server.serve] reaches [Routes], [Artifacts], [Webhooks] and [Metrics].
    [ClientServer] makes the server the [World] of [Client]; [Download] acts on a
    [Net], of which [DownloadThms] makes an instance from [Artifacts]' route.
    [RefsPublish] stores what [FullClone] installs, through [TagPack]. [Archive]
    builds the tables [Manifest] checks and [Extract] reads; [Extract] writes
    through [WorktreeWriter]. The classes [Serde], [StorageBackend], [Bucket],
    [World], [Net] and [Env] are the interfaces, with what is promised of them in
    [SerdeOk], [StorageHolds], [BucketOk] and [EnvOk].

    ** What the theorems show

    - The control store: reachable stores are well formed and decode
      ([store_invariant], [reads_decode]); a ready output never changes
      ([ready_output_immutable]); claims are exclusive, fair and bounded
      ([claim_spec], [one_lease_per_repo], [claim_rotates_owners],
      [claims_bounded]); publishes and failures do what they say ([publish_spec],
      [fail_spec]).
    - Nothing needed is lost: no artifact a repository names is deleted
      ([named_artifacts_stored]); a build's end leaks none ([settle_no_leak]); an
      object reported stored survives a crash but for two races that are stated
      ([store_survives_crash]); an upload's object is the file
      ([multipart_puts_file]).
    - Refs: a published side pack completes every ref ([side_packs_complete]);
      refresh requests are folded and none is lost ([refreshes_folded]); upstream is
      read the same by both transports ([upstream_listing_agrees]); tags round-trip
      ([tags_roundtrip]) into packs git reads ([pack_readable]); history levels are
      complete and bounded ([seal_and_compact_spec]).
    - The server: [GET] and [POST] answer the state at some time of the request, of
      the selector's commit ([get_commit_answers], [post_build_answers]); the gates
      hold ([server_gated], [client_served]); webhooks and the poller start what
      they may ([webhook_safe], [poll_catches_up]).
    - The client: a plan installs only the pinned commit's outputs, within bounds
      ([plan_pinned], [plan_bounded]), and fails only as the server did
      ([clone_agrees]); downloads are verified and delivered ([download_verified],
      [download_delivers]); a full clone has every ref ([full_clone_complete]); its
      staging directory outlives its guarded writers and is removed
      ([staging_outlives_writers], [staging_removed]).
    - Working trees: the geometry check is exact
      ([validate_geometry_sound_complete]); deltas round-trip ([delta_roundtrip]);
      a plan keeps only frames of the new bytes ([plan_incremental_sound]); range
      requests cover the frames ([range_requests_spec]); what is extracted has its
      ids ([extract_integrity]), in any order ([extract_any_order]); and every
      archive built extracts into its tree ([built_archive_extracts]).

    ** Bounds and fuel

    Recursion is structural except where a loop runs until a condition holds. There
    the fuel is a bound the theorems show to be enough: the number of levels for
    [compact_loop], whose every turn removes one; [SEND_TRIES] (ten) for [send_put],
    whose two counters stop it; [FETCH_MAX_ATTEMPTS] (three) and [MAX_POLLS] (fifty)
    are the code's own; [RECURSION_LIMIT] (128) is serde_json's; [cut_batches] and
    the other stream loops take the length they consume; [steps_left] bounds the
    reaper. Integers are unbounded with their checks, saturation and wrap-around
    written out. [usize] is 64 bits. Archives have fewer than 2^32 - 1 frames.

    ** Assumptions

    serde_json reads back what it wrote ([SerdeOk], [SerdeBounds]); decompression
    undoes compression and the cutter tiles its input ([tools_ok]); protobuf and
    zstd decode what they encoded; git packs and walks what it is asked to
    ([GitOk], [ObjectsOk], [IndexOk]); SHA-256 gives 64 hex digits, and where two
    things are told apart by their hash it is injective on them. SQLite does not
    fail inside an operation, a transaction is atomic, one server process owns its
    storage, and the clock does not go back. Upstream answers a question with those
    of its refs that were asked for ([upstream_has]); a bucket puts together the
    parts it answered etags for ([BucketOk]). A crash keeps what was synced, and of
    the rest what [Cas] says. [GcSystem] adds that a storage request that was dropped
    has taken effect or never will, that a refs publish writes within a signed URL's
    lifetime of its start and a purge commits within one of reading the clock, and
    that a build publishes only artifacts it uploaded or read from a ready output of
    its repository. [poll_catches_up] is about an idle store and an unchanged
    upstream. [built_archive_extracts] and [plan_incremental_sound] are about bases
    whose tables are in stream order: one read back from a delta may not be.

    ** Not modelled

    - The command line (bin/), configuration and credential files (auth/, config.rs,
      secure_file.rs, env.rs), timing (perf.rs, bench.rs, clone_metrics.rs), logs
      and progress lines.
    - Git processes and object reading (most of git.rs and pack.rs, gix_util.rs), the
      order of a build's steps and the stored files table (server/builder.rs apart
      from its levels, server/uploads.rs), mirror locks and compaction, local cache
      retention (retention.rs), reading blobs straight from packs (the pack half of
      extract.rs), and a builder's thread pipeline.
    - Tests, fixtures and the conformance suite. *)

From Stdlib Require Export Ascii.
From stdpp Require Export prelude gmap strings list fin_maps pretty sorting.

Declare Scope rust_scope.
Delimit Scope rust_scope with rust.
Open Scope rust_scope.

(** ** Results

    [anyhow::Result<T>]. An error is the text of its outermost message with
    the interpolated values left out. *)
Inductive Result (T : Type) : Type :=
  | Ok (v : T)
  | Err (e : string).
Arguments Ok {T} _.
Arguments Err {T} _.

Definition rbind {A B} (r : Result A) (k : A -> Result B) : Result B :=
  match r with Ok v => k v | Err e => Err e end.
Definition rmap {A B} (f : A -> B) (r : Result A) : Result B :=
  match r with Ok v => Ok (f v) | Err e => Err e end.
Definition is_ok {A} (r : Result A) : bool :=
  match r with Ok _ => true | Err _ => false end.
(** [Option::context]. *)
Definition context {A} (o : option A) (m : string) : Result A :=
  match o with Some v => Ok v | None => Err m end.
(** [Result::ok]. *)
Definition ok {A} (r : Result A) : option A :=
  match r with Ok v => Some v | Err _ => None end.

Notation "'let?' x := e 'in' k" := (rbind e (fun x => k))
  (at level 10, x pattern, e at level 200, k at level 200) : rust_scope.
Notation "'ensure!' b 'else' m ; k" := (if b then k else Err m%string)
  (at level 10, b at level 200, m at level 9, k at level 200) : rust_scope.
Notation "'bail_if!' b 'with' m ; k" := (if b then Err m%string else k)
  (at level 10, b at level 200, m at level 9, k at level 200) : rust_scope.

(** [iter.map(f).collect::<Result<Vec<_>>>()]: the first error, or every value. *)
Fixpoint collect {A B} (f : A -> Result B) (l : list A) : Result (list B) :=
  match l with
  | [] => Ok []
  | x :: l => let? y := f x in let? ys := collect f l in Ok (y :: ys)
  end.

(** [iter.try_fold(init, f)]. *)
Fixpoint try_fold {A B} (f : B -> A -> Result B) (acc : B) (l : list A) : Result B :=
  match l with
  | [] => Ok acc
  | x :: l => let? acc' := f acc x in try_fold f acc' l
  end.

(** ** Fallible code over a state

    What code that changes a shared state [S] and may fail does: on an error the
    changes made so far stay. *)
Definition Stateful (S A : Type) : Type := S -> S * Result A.
Definition sret {S A} (x : A) : Stateful S A := fun s => (s, Ok x).
Definition sfail {S A} (m : string) : Stateful S A := fun s => (s, Err m).
Definition lift {S A} (r : Result A) : Stateful S A := fun s => (s, r).
Definition sbind {S A B} (m : Stateful S A) (k : A -> Stateful S B) : Stateful S B := fun s =>
  match m s with
  | (s, Ok x) => k x s
  | (s, Err e) => (s, Err e)
  end.
(** The step on a part of the state. *)
Definition zoom {S T A} (get : S -> T) (set : T -> S -> S) (m : Stateful T A) : Stateful S A := fun s =>
  let '(t, r) := m (get s) in (set t s, r).

Notation "'let!' x := e 'in' k" := (sbind e (fun x => k))
  (at level 10, x pattern, e at level 200, k at level 200) : rust_scope.

(** A loop with [?] in its body. *)
Fixpoint sfold {S A B} (f : B -> A -> Stateful S B) (acc : B) (l : list A) : Stateful S B :=
  match l with
  | [] => sret acc
  | x :: l => let! acc := f acc x in sfold f acc l
  end.
(** A [collect] of steps. *)
Fixpoint scollect {S A B} (f : A -> Stateful S B) (l : list A) : Stateful S (list B) :=
  match l with
  | [] => sret []
  | x :: l => let! y := f x in let! ys := scollect f l in sret (y :: ys)
  end.
(** The result of a step, whatever it is: for code that looks at an error. *)
Definition stry {S A} (m : Stateful S A) : Stateful S (Result A) := fun s => let '(s, r) := m s in (s, Ok r).

(** ** Machine integers

    Unsigned integers are [N], signed ones [Z]. [usize] is 64 bits. *)
Definition u32_max : N := 4294967295.
Definition u64_max : N := 18446744073709551615.
Definition usize_max : N := u64_max.
Definition i64_max : Z := 9223372036854775807.
Definition i64_min : Z := (-9223372036854775808)%Z.

Definition checked_add (max a b : N) : option N :=
  if (a + b <=? max)%N then Some (a + b)%N else None.
Definition checked_sub (a b : N) : option N :=
  if (b <=? a)%N then Some (a - b)%N else None.
Definition saturating_add (max a b : N) : N := N.min max (a + b).
Definition saturating_mul (max a b : N) : N := N.min max (a * b).
Definition div_ceil (a b : N) : N := ((a + b - 1) / b)%N.
(** [u32::try_from] and the like: the value when it fits. *)
Definition try_from (max a : N) : option N := if (a <=? max)%N then Some a else None.
Definition i64_saturating_add (a b : Z) : Z := Z.max i64_min (Z.min i64_max (a + b)).
Definition i64_saturating_sub (a b : Z) : Z := Z.max i64_min (Z.min i64_max (a - b)).
(** [i64::try_from(u64).unwrap_or(i64::MAX)]. *)
Definition i64_of_u64 (a : N) : Z := Z.min i64_max (Z.of_N a).

(** [Vec<u8>] where the content matters byte by byte. *)
Abbreviation bytes := (list Byte.byte).
#[export] Instance byte_eq_dec : EqDecision Byte.byte := Byte.byte_eq_dec.

(** ** Slices and indexing by [usize] *)
Definition nlen {A} (l : list A) : N := N.of_nat (length l).
(** [l.get(i)]. *)
Definition nget {A} (l : list A) (i : N) : option A := l !! N.to_nat i.
(** [l[lo..hi]]; [lo <= hi <= len] is the caller's to check. *)
Definition slice {A} (l : list A) (lo hi : N) : list A :=
  take (N.to_nat (hi - lo)) (drop (N.to_nat lo) l).
(** [l.get(lo..hi)]. *)
Definition get_range {A} (l : list A) (lo hi : N) : option (list A) :=
  if (lo <=? hi)%N && (hi <=? nlen l)%N then Some (slice l lo hi) else None.
Definition nsum (l : list N) : N := foldr N.add 0%N l.

(** [enumerate]. *)
Fixpoint enumerate_from {A} (i : N) (l : list A) : list (N * A) :=
  match l with
  | [] => []
  | x :: l => (i, x) :: enumerate_from (i + 1) l
  end.
Definition enumerate {A} (l : list A) : list (N * A) := enumerate_from 0 l.

(** [windows(2)] with [all]. *)
Fixpoint all_pairs {A} (p : A -> A -> bool) (l : list A) : bool :=
  match l with
  | x :: (y :: _) as t => p x y && all_pairs p t
  | _ => true
  end.

(** ** Sorting

    [sort_by_key]: a stable insertion sort. *)
Fixpoint insert_by {A} (le : A -> A -> bool) (x : A) (l : list A) : list A :=
  match l with
  | [] => [x]
  | y :: t => if le x y then x :: y :: t else y :: insert_by le x t
  end.
Definition sort_by {A} (le : A -> A -> bool) (l : list A) : list A :=
  foldr (insert_by le) [] l.

(** The first least element, [ORDER BY ... LIMIT 1]. *)
Fixpoint min_by {A} (le : A -> A -> bool) (l : list A) : option A :=
  match l with
  | [] => None
  | x :: l =>
      match min_by le l with
      | Some y => Some (if le x y then x else y)
      | None => Some x
      end
  end.

(** ** Lemmas on results *)
Create HintDb rust.
Create Rewrite HintDb nlen.

Lemma rbind_ok {A B} (r : Result A) (k : A -> Result B) v :
  rbind r k = Ok v <-> exists x, r = Ok x /\ k x = Ok v.
Proof. destruct r; cbn; naive_solver. Qed.

Lemma sbind_ok {S A B} (m : Stateful S A) (k : A -> Stateful S B) s s' v :
  sbind m k s = (s', Ok v) <-> exists s1 x, m s = (s1, Ok x) /\ k x s1 = (s', Ok v).
Proof.
  unfold sbind. destruct (m s) as [s1 [x|e]]; split.
  - intros H. by exists s1, x.
  - intros (? & ? & [= <- <-] & H). done.
  - done.
  - intros (? & ? & [=] & _).
Qed.
Lemma lift_ok {S A} (r : Result A) (s s' : S) v : lift r s = (s', Ok v) <-> s' = s /\ r = Ok v.
Proof. unfold lift. split; [by intros [= <- ->]|by intros [-> ->]]. Qed.
Lemma zoom_ok {S T A} (get : S -> T) (set : T -> S -> S) (m : Stateful T A) s s' v :
  zoom get set m s = (s', Ok v) <-> exists t, m (get s) = (t, Ok v) /\ s' = set t s.
Proof.
  unfold zoom. destruct (m (get s)) as [t r]. split; [intros [= <- ->]; eauto|].
  by intros (? & [= -> ->] & ->).
Qed.

(** *** Reasoning about steps

    [spec m w Q E]: from [w], [m] ends in a state and value of [Q], or fails in a
    state of [E]. *)
Definition spec {W A} (m : Stateful W A) (w : W) (Q : W -> A -> Prop) (E : W -> Prop) : Prop :=
  match m w with (w', Ok x) => Q w' x | (w', Err _) => E w' end.
Lemma spec_bind {W A B} (m : Stateful W A) (k : A -> Stateful W B) w Q Q' E :
  spec m w Q E -> (forall w' x, Q w' x -> spec (k x) w' Q' E) -> spec (sbind m k) w Q' E.
Proof. unfold spec, sbind. destruct (m w) as [w' [x|e]]; [|done]. intros H Hk. by apply Hk. Qed.
Lemma spec_ret {W A} (x : A) (w : W) (Q : W -> A -> Prop) E : Q w x -> spec (sret x) w Q E.
Proof. done. Qed.
Lemma spec_lift {W A} (r : Result A) (w : W) (Q : W -> A -> Prop) (E : W -> Prop) :
  (forall x, r = Ok x -> Q w x) -> E w -> spec (lift r) w Q E.
Proof. unfold spec, lift. destruct r; auto. Qed.
Lemma spec_weaken {W A} (m : Stateful W A) w (Q Q' : W -> A -> Prop) (E E' : W -> Prop) :
  spec m w Q E -> (forall w' x, Q w' x -> Q' w' x) -> (forall w', E w' -> E' w') -> spec m w Q' E'.
Proof. unfold spec. destruct (m w) as [w' [x|e]]; auto. Qed.
Lemma spec_try {W A} (m : Stateful W A) w (Q : W -> Result A -> Prop) E :
  spec m w (fun w' x => Q w' (Ok x)) (fun w' => forall e, Q w' (Err e)) -> spec (stry m) w Q E.
Proof. unfold spec, stry. destruct (m w) as [w' [x|e]]; auto. Qed.

Lemma spec_collect {W A B} (f : A -> Stateful W B) (P : W -> list B -> Prop) (E : W -> Prop) l w :
  P w [] -> (forall w' ys x, x ∈ l -> P w' ys -> spec (f x) w' (fun w2 y => P w2 (ys ++ [y])) E) ->
  spec (scollect f l) w P E.
Proof.
  intros H0 Hs.
  assert (G : forall k, (forall x, x ∈ k -> x ∈ l) -> forall w' ys, P w' ys ->
    spec (scollect f k) w' (fun w2 zs => P w2 (ys ++ zs)) E).
  { intros k. induction k as [|x k IH]; intros Hin w' ys Hp; cbn [scollect].
    - apply spec_ret. by rewrite app_nil_r.
    - eapply spec_bind; [apply Hs; [apply Hin; by left|exact Hp]|]. intros w2 y Hy.
      eapply spec_bind; [apply IH; [intros z Hz; apply Hin; by right|exact Hy]|]. intros w3 zs Hz.
      apply spec_ret. cbv beta in Hz. by rewrite <- app_assoc in Hz. }
  exact (G l (fun _ H => H) w [] H0).
Qed.
Lemma spec_ok {W A} (m : Stateful W A) w (Q : W -> A -> Prop) E w' x : spec m w Q E -> m w = (w', Ok x) -> Q w' x.
Proof. unfold spec. intros H Hm. by rewrite Hm in H. Qed.

Lemma context_ok {A} (o : option A) m v : context o m = Ok v <-> o = Some v.
Proof. destruct o; cbn; naive_solver. Qed.

Lemma is_ok_true {A} (r : Result A) : is_ok r = true <-> exists v, r = Ok v.
Proof. destruct r; cbn; naive_solver. Qed.

Lemma collect_ok {A B} (f : A -> Result B) l l' :
  collect f l = Ok l' <-> Forall2 (fun x y => f x = Ok y) l l'.
Proof.
  revert l'; induction l as [|x l IH]; intros l'; cbn.
  - split; [intros [= <-]; constructor | inversion 1; done].
  - rewrite rbind_ok. setoid_rewrite rbind_ok. split.
    + intros (y & Hy & ys & Hys & [= <-]). constructor; [done | by apply IH].
    + inversion 1; subst. eexists; split; [done|]. eexists; split; [by apply IH|done].
Qed.

Lemma elem_of_lmap {A B} (f : A -> B) l y : y ∈ map f l <-> exists x, y = f x /\ x ∈ l.
Proof. apply list_elem_of_fmap. Qed.
Lemma elem_of_lfilter {A} (p : A -> bool) l x : x ∈ List.filter p l <-> x ∈ l /\ p x = true.
Proof. rewrite !list_elem_of_In. apply List.filter_In. Qed.
Lemma NoDup_map_inj {A B} (f : A -> B) l x y : NoDup (map f l) -> x ∈ l -> y ∈ l -> f x = f y -> x = y.
Proof.
  induction l as [|z l IH]; cbn; [set_solver|]. intros [Hz Hl]%NoDup_cons.
  intros [->|Hx]%elem_of_cons [->|Hy]%elem_of_cons Hf; [done|..|by apply IH];
    exfalso; apply Hz, elem_of_lmap; eauto.
Qed.
Lemma NoDup_map_filter {A B} (f : A -> B) p l : NoDup (map f l) -> NoDup (map f (List.filter p l)).
Proof.
  induction l as [|z l IH]; cbn; [done|]. intros [Hz Hl]%NoDup_cons. destruct (p z); [|by apply IH].
  cbn. constructor; [|by apply IH]. intros (x & Hx & [Hx' _]%elem_of_lfilter)%elem_of_lmap.
  apply Hz, elem_of_lmap. eauto.
Qed.
Lemma Forall2_in_l {A B} (P : A -> B -> Prop) l k x : Forall2 P l k -> x ∈ l -> exists y, y ∈ k /\ P x y.
Proof. induction 1; [set_solver|]. intros [->|Hx]%elem_of_cons; set_solver. Qed.
Lemma Forall2_in_r {A B} (P : A -> B -> Prop) l k y : Forall2 P l k -> y ∈ k -> exists x, x ∈ l /\ P x y.
Proof. induction 1; [set_solver|]. intros [->|Hy]%elem_of_cons; set_solver. Qed.

Lemma collect_length {A B} (f : A -> Result B) l l' :
  collect f l = Ok l' -> length l' = length l.
Proof. intros H%collect_ok. symmetry. by eapply Forall2_length. Qed.

Lemma collect_total {A B} (f : A -> Result B) (g : A -> B) l :
  Forall (fun x => f x = Ok (g x)) l -> collect f l = Ok (g <$> l).
Proof. induction 1 as [|x l Hx Hl IH]; cbn; [done|]. by rewrite Hx, IH. Qed.

(** [inv_ok H] takes apart [H : <rust code> = Ok v]: each bind gives the
    equation of the step that succeeded, each [ensure!] its condition. *)
Ltac inv_ok_step H :=
  lazymatch type of H with
  | rbind ?r _ = Ok _ =>
      let E := fresh "E" in let v := fresh "v" in
      destruct r as [v|] eqn:E; cbn [rbind] in H; [|discriminate H]
  | (if ?b then Err _ else _) = Ok _ =>
      let E := fresh "E" in destruct b eqn:E; [discriminate H|]
  | (if ?b then _ else Err _) = Ok _ =>
      let E := fresh "E" in destruct b eqn:E; [|discriminate H]
  | match ?x with _ => _ end = Ok _ =>
      let E := fresh "E" in destruct x eqn:E; try discriminate H
  | Err _ = Ok _ => discriminate H
  | Ok _ = Ok _ => injection H as H; try subst
  end.
Ltac inv_ok H := repeat inv_ok_step H.

(** Boolean tests of the code as propositions. *)
Ltac breflect :=
  repeat match goal with
  | H : andb _ _ = true |- _ => apply andb_true_iff in H as [? ?]
  | H : andb _ _ = false |- _ => apply andb_false_iff in H
  | H : orb _ _ = true |- _ => apply orb_true_iff in H
  | H : orb _ _ = false |- _ => apply orb_false_iff in H as [? ?]
  | H : negb _ = true |- _ => apply negb_true_iff in H
  | H : negb _ = false |- _ => apply negb_false_iff in H
  | H : (_ =? _)%N = true |- _ => apply N.eqb_eq in H
  | H : (_ =? _)%N = false |- _ => apply N.eqb_neq in H
  | H : (_ <=? _)%N = true |- _ => apply N.leb_le in H
  | H : (_ <=? _)%N = false |- _ => apply N.leb_gt in H
  | H : (_ <? _)%N = true |- _ => apply N.ltb_lt in H
  | H : (_ <? _)%N = false |- _ => apply N.ltb_ge in H
  | H : (_ =? _)%Z = true |- _ => apply Z.eqb_eq in H
  | H : (_ =? _)%Z = false |- _ => apply Z.eqb_neq in H
  | H : (_ <=? _)%Z = true |- _ => apply Z.leb_le in H
  | H : (_ <=? _)%Z = false |- _ => apply Z.leb_gt in H
  | H : (_ <? _)%Z = true |- _ => apply Z.ltb_lt in H
  | H : (_ <? _)%Z = false |- _ => apply Z.ltb_ge in H
  | H : bool_decide _ = true |- _ => apply bool_decide_eq_true in H
  | H : bool_decide _ = false |- _ => apply bool_decide_eq_false in H
  end.

Lemma checked_add_Some max a b c :
  checked_add max a b = Some c <-> c = (a + b)%N /\ (a + b <= max)%N.
Proof. unfold checked_add. destruct (N.leb_spec (a + b) max); split; intros; destruct_and?; simplify_eq; try done; lia. Qed.
Lemma checked_sub_Some a b c :
  checked_sub a b = Some c <-> c = (a - b)%N /\ (b <= a)%N.
Proof. unfold checked_sub. destruct (N.leb_spec b a); split; intros; destruct_and?; simplify_eq; try done; lia. Qed.
Lemma try_from_Some max a c : try_from max a = Some c <-> c = a /\ (a <= max)%N.
Proof. unfold try_from. destruct (N.leb_spec a max); split; intros; destruct_and?; simplify_eq; try done; lia. Qed.

Lemma div_ceil_spec a b : (0 < b)%N -> (a <= div_ceil a b * b)%N /\ forall i, (i < div_ceil a b)%N -> (i * b < a)%N.
Proof.
  intros Hb. unfold div_ceil. pose proof (N.div_mod (a + b - 1) b ltac:(lia)) as Hd. pose proof (N.mod_lt (a + b - 1) b ltac:(lia)) as Hr.
  revert Hd Hr. generalize ((a + b - 1) mod b)%N, ((a + b - 1) / b)%N. intros r q Hd Hr.
  rewrite (N.mul_comm b q) in Hd. split; [lia|]. intros i Hi. pose proof (N.mul_le_mono_r (i + 1) q b ltac:(lia)) as Hm.
  rewrite N.mul_add_distr_r in Hm. lia.
Qed.

(** ** Lemmas on slices *)
Lemma nlen_app {A} (l k : list A) : nlen (l ++ k) = (nlen l + nlen k)%N.
Proof. unfold nlen. rewrite length_app. lia. Qed.
Lemma nlen_cons {A} (x : A) l : nlen (x :: l) = (1 + nlen l)%N.
Proof. unfold nlen. cbn. lia. Qed.
Lemma nlen_nil {A} : nlen ([] : list A) = 0%N.
Proof. done. Qed.
Lemma nlen_fmap {A B} (f : A -> B) l : nlen (f <$> l) = nlen l.
Proof. unfold nlen. by rewrite length_fmap. Qed.
#[export] Hint Rewrite @nlen_app @nlen_cons @nlen_nil @nlen_fmap : nlen.

Lemma slice_length {A} (l : list A) lo hi :
  (lo <= hi)%N -> (hi <= nlen l)%N -> nlen (slice l lo hi) = (hi - lo)%N.
Proof. unfold slice, nlen. rewrite length_take, length_drop. lia. Qed.
Lemma nlen_map {A B} (f : A -> B) l : nlen (map f l) = nlen l.
Proof. unfold nlen. by rewrite length_map. Qed.
Lemma slice_empty {A} (l : list A) lo : slice l lo lo = [].
Proof. unfold slice. by rewrite N.sub_diag. Qed.
Lemma slice_all {A} (l : list A) : slice l 0 (nlen l) = l.
Proof. unfold slice, nlen. rewrite N.sub_0_r, Nat2N.id. cbn. apply take_ge. lia. Qed.
Lemma slice_app {A} (l : list A) a b c :
  (a <= b)%N -> (b <= c)%N -> slice l a b ++ slice l b c = slice l a c.
Proof.
  intros. unfold slice.
  replace (N.to_nat (c - a)) with (N.to_nat (b - a) + N.to_nat (c - b)) by lia.
  rewrite <- take_take_drop, drop_drop. do 3 f_equal. lia.
Qed.
Lemma slice_app_l {A} (l k : list A) lo hi :
  (hi <= nlen l)%N -> slice (l ++ k) lo hi = slice l lo hi.
Proof.
  unfold slice, nlen. intros. destruct (decide (lo <= hi)%N).
  - rewrite drop_app_le by lia. apply take_app_le. rewrite length_drop. lia.
  - replace (hi - lo)%N with 0%N by lia. done.
Qed.
Lemma slice_app_r {A} (l k : list A) lo hi :
  (nlen l <= lo)%N -> slice (l ++ k) lo hi = slice k (lo - nlen l) (hi - nlen l).
Proof.
  unfold slice, nlen. intros. rewrite drop_app_ge by lia.
  f_equal; [lia|]. f_equal. lia.
Qed.
Lemma slice_slice {A} (l : list A) a b c d :
  (c <= d)%N -> (d <= b - a)%N -> slice (slice l a b) c d = slice l (a + c) (a + d).
Proof.
  intros. unfold slice. rewrite take_drop_commute, take_take.
  rewrite Nat.min_l by lia. rewrite <- take_drop_commute, drop_drop.
  f_equal; [lia|]. f_equal. lia.
Qed.
Lemma get_range_Some {A} (l : list A) lo hi s :
  get_range l lo hi = Some s <-> (lo <= hi)%N /\ (hi <= nlen l)%N /\ s = slice l lo hi.
Proof.
  unfold get_range. destruct (N.leb_spec lo hi), (N.leb_spec hi (nlen l)); cbn;
    (split; [intros ?; simplify_eq; split_and?; done || lia | intros (? & ? & ->); done || lia]).
Qed.

Lemma nsum_app l k : nsum (l ++ k) = (nsum l + nsum k)%N.
Proof. unfold nsum. induction l; cbn in *; lia. Qed.

(** ** Lemmas on sorting *)
Section sort.
Context {A : Type} (le : A -> A -> bool).

Lemma insert_by_perm x l : insert_by le x l ≡ₚ x :: l.
Proof.
  induction l as [|y l IH]; cbn; [done|]. destruct (le x y); [done|].
  rewrite IH. apply Permutation_swap.
Qed.
Lemma sort_by_perm l : sort_by le l ≡ₚ l.
Proof. induction l as [|x l IH]; cbn; [done|]. by rewrite insert_by_perm, IH. Qed.
Lemma elem_of_sort_by l x : x ∈ sort_by le l <-> x ∈ l.
Proof. by rewrite sort_by_perm. Qed.
Lemma sort_by_length l : length (sort_by le l) = length l.
Proof. by rewrite sort_by_perm. Qed.

Context (Htotal : forall x y, le x y = true \/ le y x = true).
Context (Htrans : forall x y z, le x y = true -> le y z = true -> le x z = true).

Lemma insert_by_sorted x l :
  StronglySorted (fun x y => le x y = true) l ->
  StronglySorted (fun x y => le x y = true) (insert_by le x l).
Proof.
  induction 1 as [|y l Hl IH Hy]; cbn; [by repeat constructor|].
  destruct (le x y) eqn:E.
  - constructor; [by constructor|]. constructor; [done|].
    eapply Forall_impl; [done|]. eauto.
  - constructor; [done|]. rewrite insert_by_perm. constructor; [|done].
    destruct (Htotal x y); congruence.
Qed.
Lemma sort_by_sorted l : StronglySorted (fun x y => le x y = true) (sort_by le l).
Proof. induction l; cbn; [constructor|]. by apply insert_by_sorted. Qed.

Lemma min_by_spec l x :
  min_by le l = Some x -> x ∈ l /\ forall y, y ∈ l -> le x y = true.
Proof.
  revert x; induction l as [|z l IH]; cbn; [done|]. intros x.
  destruct (min_by le l) as [m|] eqn:E.
  - destruct (IH m eq_refl) as [Hin Hle]. intros [= <-].
    destruct (le z m) eqn:Ez; (split; [set_solver|]).
    + intros y [->|Hy]%elem_of_cons; [destruct (Htotal z z); done | eauto].
    + intros y [->|Hy]%elem_of_cons; [destruct (Htotal z m); congruence | eauto].
  - intros [= <-]. destruct l as [|a l]; [|cbn in E; by destruct (min_by le l)].
    split; [set_solver|]. intros y Hy. apply list_elem_of_singleton in Hy as ->.
    destruct (Htotal z z); done.
Qed.
End sort.

Lemma min_by_None {A} (le : A -> A -> bool) l : min_by le l = None <-> l = [].
Proof. destruct l as [|x l]; cbn; [done|]. destruct (min_by le l); done. Qed.

(** ** Lemmas on [enumerate] *)
Lemma enumerate_from_lookup {A} i (l : list A) k :
  enumerate_from i l !! k = (fun x => ((i + N.of_nat k)%N, x)) <$> l !! k.
Proof.
  revert i k; induction l as [|x l IH]; intros i [|k]; cbn; try done.
  - by rewrite N.add_0_r.
  - rewrite IH. destruct (l !! k); cbn; [|done]. do 2 f_equal. lia.
Qed.
Lemma enumerate_from_fmap_snd {A} i (l : list A) : (enumerate_from i l).*2 = l.
Proof. revert i; induction l; intros; cbn; f_equal; auto. Qed.
Lemma elem_of_enumerate {A} (l : list A) i x :
  (i, x) ∈ enumerate l <-> nget l i = Some x.
Proof.
  unfold nget, enumerate. rewrite list_elem_of_lookup. setoid_rewrite enumerate_from_lookup.
  split.
  - intros [k Hk]. destruct (l !! k) eqn:E; cbn in Hk; simplify_eq.
    replace (N.to_nat (0 + N.of_nat k)) with k by lia. done.
  - intros H. exists (N.to_nat i). rewrite H. cbn. do 2 f_equal. lia.
Qed.

(** ** Strings

    A Rust [String], [&str], [Vec<u8>] path or hash is a [string]: its bytes.
    [str_len] is Rust's [len()]. *)
#[global] Arguments String.append !_ _ : simpl nomatch.
Definition str_len (s : string) : N := N.of_nat (String.length s).

Fixpoint str_any (p : ascii -> bool) (s : string) : bool :=
  match s with
  | EmptyString => false
  | String c s => p c || str_any p s
  end.
Definition str_all (p : ascii -> bool) (s : string) : bool := negb (str_any (fun c => negb (p c)) s).
(** [s.strip_prefix(pre)] and [s.starts_with(pre)]. *)
Fixpoint strip_prefix (pre s : string) : option string :=
  match pre, s with
  | EmptyString, _ => Some s
  | String a pre, String b s => if Ascii.eqb a b then strip_prefix pre s else None
  | String _ _, EmptyString => None
  end.
Definition starts_with (pre s : string) : bool :=
  match strip_prefix pre s with Some _ => true | None => false end.
Fixpoint contains (sub s : string) : bool :=
  starts_with sub s || match s with EmptyString => false | String _ s => contains sub s end.
Fixpoint ends_with (suf s : string) : bool :=
  bool_decide (s = suf) || match s with EmptyString => false | String _ s => ends_with suf s end.
Definition contains_char (c : ascii) (s : string) : bool := str_any (Ascii.eqb c) s.
(** [s.split(c)]. *)
Fixpoint split_on (c : ascii) (s : string) : list string :=
  match s with
  | EmptyString => [""%string]
  | String a s =>
      if Ascii.eqb a c then ""%string :: split_on c s
      else match split_on c s with
           | h :: t => String a h :: t
           | [] => [String a ""]
           end
  end.
(** [s.trim_start_matches(c)] and [s.trim_end_matches(c)]. *)
Fixpoint trim_start_matches (c : ascii) (s : string) : string :=
  match s with
  | String a t => if Ascii.eqb a c then trim_start_matches c t else s
  | EmptyString => ""
  end.
Fixpoint trim_end_matches (c : ascii) (s : string) : string :=
  match s with
  | EmptyString => ""
  | String a t =>
      match trim_end_matches c t with
      | EmptyString => if Ascii.eqb a c then "" else String a ""
      | t' => String a t'
      end
  end.
(** [s.replace(c, by)] for one byte [c]. *)
Fixpoint replace_char (c : ascii) (by_ s : string) : string :=
  match s with
  | EmptyString => ""
  | String a s => if Ascii.eqb a c then by_ +:+ replace_char c by_ s else String a (replace_char c by_ s)
  end.
(** [s.rsplit_once(c)]. *)
Fixpoint rsplit_once (c : ascii) (s : string) : option (string * string) :=
  match s with
  | EmptyString => None
  | String a t =>
      match rsplit_once c t with
      | Some (l, r) => Some (String a l, r)
      | None => if Ascii.eqb a c then Some (""%string, t) else None
      end
  end.
(** [s.split_once(c)]. *)
Fixpoint split_once (c : ascii) (s : string) : option (string * string) :=
  match s with
  | EmptyString => None
  | String a t =>
      if Ascii.eqb a c then Some (""%string, t)
      else '(l, r) ← split_once c t; Some (String a l, r)
  end.

Definition byte_in (lo hi : N) (c : ascii) : bool :=
  (lo <=? N_of_ascii c)%N && (N_of_ascii c <=? hi)%N.
Definition is_ascii_digit : ascii -> bool := byte_in 48 57.
Definition is_ascii_alphabetic (c : ascii) : bool := byte_in 65 90 c || byte_in 97 122 c.
Definition is_ascii_alphanumeric (c : ascii) : bool := is_ascii_digit c || is_ascii_alphabetic c.
Definition is_ascii_control (c : ascii) : bool := byte_in 0 31 c || byte_in 127 127 c.
Definition to_ascii_lowercase (c : ascii) : ascii :=
  if byte_in 65 90 c then ascii_of_N (N_of_ascii c + 32) else c.
Fixpoint str_to_ascii_lowercase (s : string) : string :=
  match s with
  | EmptyString => ""
  | String c s => String (to_ascii_lowercase c) (str_to_ascii_lowercase s)
  end.
Definition eq_ignore_ascii_case (s t : string) : bool :=
  bool_decide (str_to_ascii_lowercase s = str_to_ascii_lowercase t).

(** [s.chars().any(char::is_control)] of UTF-8 text: U+0000..U+001F, U+007F,
    and U+0080..U+009F, whose encoding is 0xC2 then 0x80..0x9F (0xC2 is
    never a continuation byte). *)
Fixpoint chars_any_control (s : string) : bool :=
  match s with
  | EmptyString => false
  | String a t =>
      is_ascii_control a
      || (byte_in 194 194 a && match t with String b _ => byte_in 128 159 b | EmptyString => false end)
      || chars_any_control t
  end.

Lemma str_any_true p s :
  str_any p s = true <-> exists c, c ∈ String.list_ascii_of_string s /\ p c = true.
Proof.
  induction s as [|a s IH]; cbn; [set_solver|].
  rewrite orb_true_iff, IH. set_solver.
Qed.
Lemma str_any_false p s :
  str_any p s = false <-> forall c, c ∈ String.list_ascii_of_string s -> p c = false.
Proof.
  rewrite <- not_true_iff_false, str_any_true. split.
  - intros H c Hc. destruct (p c) eqn:E; [|done]. exfalso. eauto.
  - intros H (c & Hc & E). rewrite H in E; done.
Qed.
Lemma str_all_true p s :
  str_all p s = true <-> forall c, c ∈ String.list_ascii_of_string s -> p c = true.
Proof.
  unfold str_all. rewrite negb_true_iff, str_any_false.
  setoid_rewrite negb_false_iff. done.
Qed.
Lemma list_ascii_of_string_app s t :
  String.list_ascii_of_string (s +:+ t)
  = String.list_ascii_of_string s ++ String.list_ascii_of_string t.
Proof. induction s; cbn; congruence. Qed.
Lemma str_any_app p s t : str_any p (s +:+ t) = str_any p s || str_any p t.
Proof. induction s as [|a s IH]; cbn; [done|]. by rewrite IH, orb_assoc. Qed.
Lemma str_all_app p s t : str_all p (s +:+ t) = str_all p s && str_all p t.
Proof. unfold str_all. by rewrite str_any_app, negb_orb. Qed.
Lemma string_app_assoc (s t u : string) : (s +:+ t) +:+ u = s +:+ (t +:+ u).
Proof. induction s; cbn; [done|]. by f_equal. Qed.
Lemma string_app_nil (s : string) : s +:+ "" = s.
Proof. induction s; cbn; [done|]. by f_equal. Qed.
Lemma str_length_app (s t : string) :
  String.length (s +:+ t) = String.length s + String.length t.
Proof. induction s; cbn; lia. Qed.
Lemma split_on_nonempty c s : split_on c s <> [].
Proof. destruct s as [|a s]; cbn; [done|]. destruct (Ascii.eqb a c); [done|]. by destruct (split_on c s). Qed.
Lemma strip_prefix_Some pre s t : strip_prefix pre s = Some t <-> s = pre +:+ t.
Proof.
  revert s; induction pre as [|a pre IH]; intros [|b s]; cbn; split; intros; simplify_eq; try done.
  - destruct (Ascii.eqb_spec a b); [subst; f_equal; by apply IH | done].
  - rewrite Ascii.eqb_refl. by apply IH.
Qed.

Lemma starts_with_true pre s : starts_with pre s = true <-> exists t, s = pre +:+ t.
Proof.
  unfold starts_with. destruct (strip_prefix pre s) as [t|] eqn:E.
  - apply strip_prefix_Some in E. naive_solver.
  - split; [done|]. intros [t Ht%strip_prefix_Some]. congruence.
Qed.
Lemma contains_true sub s : contains sub s = true <-> exists l r, s = l +:+ sub +:+ r.
Proof.
  induction s as [|a s IH]; cbn [contains]; rewrite orb_true_iff, starts_with_true.
  - split.
    + intros [[t ->]|]; [|done]. by exists "", t.
    + intros (l & r & H). destruct l; [|done]. left. by exists r.
  - rewrite IH. split.
    + intros [[t ->]|(l & r & ->)]; [by exists "", t|by exists (String a l), r].
    + intros ([|b l] & r & H); [left; by exists r|]. cbn in H. simplify_eq. right. by exists l, r.
Qed.
Lemma starts_with_in c s : starts_with (String c "") s = true -> c ∈ String.list_ascii_of_string s.
Proof. rewrite starts_with_true. intros [t ->]. cbn. set_solver. Qed.
Lemma contains_in c sub s : contains (String c sub) s = true -> c ∈ String.list_ascii_of_string s.
Proof.
  rewrite contains_true. intros (l & r & ->). rewrite !list_ascii_of_string_app. cbn. set_solver.
Qed.

(** Segments never hold the separator, and joining them gives the text back. *)
Fixpoint join_with (c : ascii) (l : list string) : string :=
  match l with
  | [] => ""
  | [s] => s
  | s :: l => s +:+ String c (join_with c l)
  end.
Lemma join_split c s : join_with c (split_on c s) = s.
Proof.
  induction s as [|a s IH]; cbn; [done|].
  destruct (Ascii.eqb_spec a c) as [->|].
  - destruct (split_on c s) as [|h t] eqn:E; [by apply split_on_nonempty in E|].
    cbn [join_with] in *. by rewrite IH.
  - destruct (split_on c s) as [|h t] eqn:E; [by apply split_on_nonempty in E|].
    rewrite <- IH. by destruct t.
Qed.

(** Sums and searches over lists. *)
Lemma sum_list_insert_lt {A} (g h : A -> nat) l i x y : (forall z, g z <= h z) -> l !! i = Some x -> g y < h x ->
  sum_list_with g (<[i := y]> l) < sum_list_with h l.
Proof.
  intros Hle. revert i. induction l as [|z l IH]; intros [|i] Hx Hlt; cbn in *; try done.
  - injection Hx as ->. assert (sum_list_with g l <= sum_list_with h l); [|lia].
    clear -Hle. induction l as [|z l IH]; cbn; [done|]. specialize (Hle z). lia.
  - specialize (IH i Hx Hlt). specialize (Hle z). change (g z + sum_list_with g (<[i := y]> l) < h z + sum_list_with h l). lia.
Qed.
Lemma sum_list_insert {A} (g : A -> nat) l i x y : l !! i = Some x -> sum_list_with g (<[i := y]> l) + g x = sum_list_with g l + g y.
Proof.
  revert i. induction l as [|z l IH]; intros [|i] H; try done.
  - injection H as ->. change (g y + sum_list_with g l + g x = g x + sum_list_with g l + g y). lia.
  - change (g z + sum_list_with g (<[i := y]> l) + g x = g z + sum_list_with g l + g y). specialize (IH i H). lia.
Qed.
Lemma sum_list_replicate {A} (g : A -> nat) n x : sum_list_with g (replicate n x) = n * g x.
Proof. induction n as [|n IH]; [done|]. cbn [replicate]. change (g x + sum_list_with g (replicate n x) = S n * g x). rewrite IH. lia. Qed.
Lemma existsb_elem {A} (p : A -> bool) l : existsb p l = true <-> exists x, x ∈ l /\ p x = true.
Proof. rewrite List.existsb_exists. by setoid_rewrite list_elem_of_In. Qed.
Lemma existsb_not_elem {A} (p : A -> bool) l : existsb p l = false <-> forall x, x ∈ l -> p x = false.
Proof.
  rewrite <- not_true_iff_false, existsb_elem. split.
  - intros H x Hx. destruct (p x) eqn:E; [|done]. exfalso. eauto.
  - intros H (x & Hx & E). rewrite H in E; done.
Qed.
