(* ===== verification/Bytes.v ===== *)
(** Bytes of machine integers and of hex text: what the Rust standard library's
    [to_be_bytes], [from_be_bytes] and the [hex] crate's [encode] give, decimal text, UTF-8
    validity, and SHA-1 object ids from hex ([parse_id] of
    [rust/src/tags.rs]). *)

From S2P Require Import Prelude.

(** ** Bytes and numbers *)

(** [n as u8]. *)
Definition byte_of (n : N) : Byte.byte := default Byte.x00 (Byte.of_N (n mod 256)).

(** [to_be_bytes] of a [k]-byte integer, and [to_le_bytes]. *)
Fixpoint to_be_bytes (k : nat) (n : N) : bytes :=
  match k with
  | O => []
  | S k => to_be_bytes k (n / 256) ++ [byte_of n]
  end.
Fixpoint to_le_bytes (k : nat) (n : N) : bytes :=
  match k with
  | O => []
  | S k => byte_of n :: to_le_bytes k (n / 256)
  end.

(** [u32::from_be_bytes] and [u64::from_be_bytes]; [from_le_bytes]. *)
Definition from_be_bytes (b : bytes) : N := foldl (fun acc x => (acc * 256 + Byte.to_N x)%N) 0%N b.
Fixpoint from_le_bytes (b : bytes) : N :=
  match b with
  | [] => 0
  | x :: b => (Byte.to_N x + 256 * from_le_bytes b)%N
  end.

(** ** Hex *)
Definition hex_digit (n : N) : ascii :=
  Ascii.ascii_of_N (if (n <? 10)%N then 48 + n else 87 + n)%N.
(** [hex::encode]. *)
Fixpoint hex_encode (b : bytes) : string :=
  match b with
  | [] => ""
  | x :: b => String (hex_digit (Byte.to_N x / 16)) (String (hex_digit (Byte.to_N x mod 16)) (hex_encode b))
  end.

Definition nibble (c : ascii) : option N :=
  let byte := N_of_ascii c in
  if byte_in 48 57 c then Some (byte - 48)%N
  else if byte_in 97 102 c then Some (byte - 97 + 10)%N
  else None.

(** [hex::decode], which takes digits of either case. *)
Definition hex_value (c : ascii) : option N :=
  if byte_in 65 70 c then Some (N_of_ascii c - 65 + 10)%N else nibble c.
Fixpoint hex_decode (s : string) : option bytes :=
  match s with
  | EmptyString => Some []
  | String a (String b s) =>
      hi ← hex_value a; lo ← hex_value b; rest ← hex_decode s;
      Some (byte_of (hi * 16 + lo) :: rest)
  | String _ EmptyString => None
  end.

(** The pairs of [chunks_exact(2)], each the two halves of a byte. *)
Fixpoint parse_pairs (s : string) : option bytes :=
  match s with
  | String a (String b s) =>
      hi ← nibble a;
      lo ← nibble b;
      id ← parse_pairs s;
      Some (byte_of (N.lor (N.shiftl hi 4) lo) :: id)
  | _ => Some []
  end.
Definition parse_id (hex : string) : Result bytes :=
  ensure! (str_len hex =? 40)%N else "not a SHA-1 object id";
  context (parse_pairs hex) "not a SHA-1 object id".

(** ** Decimal numbers *)
Definition digit_of (c : ascii) : option N := if is_ascii_digit c then Some (N_of_ascii c - 48)%N else None.
(** [str::parse::<u64>]. *)
Fixpoint parse_digits (acc : N) (s : string) : option N :=
  match s with
  | EmptyString => Some acc
  | String a s => d ← digit_of a; let acc := (acc * 10 + d)%N in if (u64_max <? acc)%N then None else parse_digits acc s
  end.
Definition parse_u64 (s : string) : option N :=
  let s := match s with String "+" (String _ _ as s) => s | _ => s end in
  if bool_decide (s = "") then None else parse_digits 0 s.

(** ** UTF-8

    [std::str::from_utf8]: whether bytes are well-formed UTF-8 (no overlong form,
    no surrogate, nothing above U+10FFFF). *)
Definition continuation (b : Byte.byte) : bool := (128 <=? Byte.to_N b)%N && (Byte.to_N b <=? 191)%N.
Definition byte_between (lo hi : N) (b : Byte.byte) : bool := (lo <=? Byte.to_N b)%N && (Byte.to_N b <=? hi)%N.
Fixpoint utf8_valid (b : bytes) : bool :=
  match b with
  | [] => true
  | x :: b =>
      let n := Byte.to_N x in
      if (n <? 128)%N then utf8_valid b
      else if byte_between 194 223 x then
        match b with y :: b => continuation y && utf8_valid b | _ => false end
      else if byte_between 224 239 x then
        match b with
        | y :: z :: b =>
            byte_between (if (n =? 224)%N then 160 else 128) (if (n =? 237)%N then 159 else 191) y
            && continuation z && utf8_valid b
        | _ => false
        end
      else if byte_between 240 244 x then
        match b with
        | y :: z :: w :: b =>
            byte_between (if (n =? 240)%N then 144 else 128) (if (n =? 244)%N then 143 else 191) y
            && continuation z && continuation w && utf8_valid b
        | _ => false
        end
      else false
  end.

(** ** Lemmas on bytes *)
Lemma to_N_bound b : (Byte.to_N b < 256)%N.
Proof. destruct b; by vm_compute. Qed.
Lemma to_N_byte_of n : Byte.to_N (byte_of n) = (n mod 256)%N.
Proof.
  unfold byte_of. pose proof (N.mod_lt n 256 ltac:(done)) as H.
  destruct (Byte.of_N (n mod 256)) as [b|] eqn:E; cbn; [by apply Byte.to_of_N|].
  apply Byte.of_N_None_iff in E. lia.
Qed.
Lemma byte_of_to_N b : byte_of (Byte.to_N b) = b.
Proof.
  unfold byte_of. rewrite N.mod_small by apply to_N_bound. by rewrite Byte.of_to_N.
Qed.
Lemma to_N_inj a b : Byte.to_N a = Byte.to_N b -> a = b.
Proof. intros H. by rewrite <- (byte_of_to_N a), H, byte_of_to_N. Qed.
#[export] Instance byte_countable : Countable Byte.byte := inj_countable' Byte.to_N byte_of byte_of_to_N.

Lemma to_be_bytes_length k n : length (to_be_bytes k n) = k.
Proof. revert n; induction k as [|k IH]; intros n; cbn; [done|]. rewrite length_app, IH. cbn. lia. Qed.
Lemma to_le_bytes_length k n : length (to_le_bytes k n) = k.
Proof. revert n; induction k as [|k IH]; intros n; cbn; [done|]. by rewrite IH. Qed.
Lemma nlen_to_be_bytes k n : nlen (to_be_bytes k n) = N.of_nat k.
Proof. unfold nlen. by rewrite to_be_bytes_length. Qed.

Lemma mod_pow_succ n k : (n mod 256 + 256 * (n / 256 mod 256 ^ N.of_nat k) = n mod 256 ^ N.of_nat (S k))%N.
Proof.
  rewrite Nat2N.inj_succ, N.pow_succ_r', N.Div0.mod_mul_r. done.
Qed.
Lemma from_to_be_bytes k n : from_be_bytes (to_be_bytes k n) = (n mod 256 ^ N.of_nat k)%N.
Proof.
  revert n; induction k as [|k IH]; intros n; [by rewrite N.mod_1_r|].
  cbn [to_be_bytes]. unfold from_be_bytes in *. rewrite foldl_app. cbn [foldl].
  rewrite IH, to_N_byte_of, <- mod_pow_succ. lia.
Qed.
Lemma from_to_le_bytes k n : from_le_bytes (to_le_bytes k n) = (n mod 256 ^ N.of_nat k)%N.
Proof.
  revert n; induction k as [|k IH]; intros n; [by rewrite N.mod_1_r|].
  cbn [to_le_bytes from_le_bytes]. by rewrite IH, to_N_byte_of, mod_pow_succ.
Qed.

(** ** Lemmas on hex *)

(** Facts about the numbers below a bound, by looking at each. *)
Lemma below_forallb (p : N -> bool) (k : nat) n :
  forallb (fun i => p (N.of_nat i)) (seq 0 k) = true -> (n < N.of_nat k)%N -> p n = true.
Proof.
  rewrite forallb_forall. intros Hall Hn. specialize (Hall (N.to_nat n)). rewrite in_seq, N2Nat.id in Hall.
  apply Hall. lia.
Qed.

Lemma nibble_hex_digit n : (n < 16)%N -> nibble (hex_digit n) = Some n.
Proof.
  intros H. eapply bool_decide_eq_true_1. refine (below_forallb (fun n => bool_decide (nibble (hex_digit n) = Some n)) 16 _ _ H).
  by vm_compute.
Qed.
Lemma hex_digit_nibble c n : nibble c = Some n -> (n < 16)%N /\ hex_digit n = c.
Proof. by destruct c as [[] [] [] [] [] [] [] []]; intros [= <-]. Qed.

Lemma lor_disjoint_add k hi lo : (lo < 2 ^ k)%N -> N.lor (hi * 2 ^ k) lo = (hi * 2 ^ k + lo)%N.
Proof.
  intros Hl. assert (H : N.land (hi * 2 ^ k) lo = 0%N).
  { apply N.bits_inj_0. intros i. rewrite N.land_spec. destruct (N.lt_ge_cases i k) as [Hi|Hi].
    - by rewrite N.mul_pow2_bits_low.
    - rewrite <- (N.mod_small lo (2 ^ k)) by done. rewrite N.mod_pow2_bits_high by done. apply andb_false_r. }
  rewrite N.add_nocarry_lxor by done. symmetry. by apply N.lxor_lor.
Qed.
Lemma lor_nibbles hi lo : (lo < 16)%N -> N.lor (N.shiftl hi 4) lo = (hi * 16 + lo)%N.
Proof. intros Hl. rewrite N.shiftl_mul_pow2. by apply (lor_disjoint_add 4). Qed.

Lemma str_len_hex b : str_len (hex_encode b) = (2 * nlen b)%N.
Proof. unfold str_len, nlen. induction b as [|x b IH]; cbn; [done|]. cbn in IH. lia. Qed.

Lemma parse_pairs_hex b : parse_pairs (hex_encode b) = Some b.
Proof.
  induction b as [|x b IH]; cbn; [done|]. pose proof (to_N_bound x).
  rewrite !nibble_hex_digit by (apply N.Div0.div_lt_upper_bound || apply N.mod_lt; lia). cbn. rewrite IH. cbn.
  rewrite lor_nibbles by (apply N.Div0.div_lt_upper_bound || apply N.mod_lt; lia).
  replace (Byte.to_N x / 16 * 16 + Byte.to_N x mod 16)%N with (Byte.to_N x)
    by (pose proof (N.div_mod (Byte.to_N x) 16 ltac:(done)); lia).
  by rewrite byte_of_to_N.
Qed.

Lemma string_pair_ind (P : string -> Prop) :
  P "" -> (forall a, P (String a "")) -> (forall a b s, P s -> P (String a (String b s))) -> forall s, P s.
Proof.
  intros H0 H1 H2 s. enough (P s /\ forall a, P (String a s)) by tauto.
  induction s as [|b s [IH IH']]; split; auto.
Qed.
Lemma parse_pairs_ok s b :
  parse_pairs s = Some b -> Nat.Even (String.length s) -> hex_encode b = s.
Proof.
  revert b; induction s as [|a|a c s IH] using string_pair_ind; intros b.
  - by intros [= <-].
  - intros _ [k Hk]. cbn in Hk. lia.
  - cbn [parse_pairs]. destruct (nibble a) as [hi|] eqn:Eh; [|done]. destruct (nibble c) as [lo|] eqn:El; [|done].
    cbn. destruct (parse_pairs s) as [id|]; [|done]. cbn. intros [= <-] [k Hk]. cbn in Hk |- *.
    apply hex_digit_nibble in Eh as [Hh <-], El as [Hl <-].
    rewrite to_N_byte_of, lor_nibbles, (N.mod_small _ 256) by lia.
    rewrite N.div_add_l, (N.div_small lo), N.add_0_r by done.
    rewrite N.add_comm, N.Div0.mod_add, (N.mod_small lo) by done.
    rewrite IH; [done..|]. exists (k - 1). lia.
Qed.

Lemma parse_id_hex id : length id = 20 -> parse_id (hex_encode id) = Ok id.
Proof.
  intros H. unfold parse_id. rewrite str_len_hex. unfold nlen. rewrite H. cbn. by rewrite parse_pairs_hex.
Qed.
Lemma parse_id_ok s id : parse_id s = Ok id -> length id = 20 /\ hex_encode id = s.
Proof.
  unfold parse_id. intros H. inv_ok H. breflect. apply context_ok in H.
  apply parse_pairs_ok in H; [|exists 20; unfold str_len in *; lia]. split; [|done]. subst s.
  rewrite str_len_hex in *. unfold nlen in *. lia.
Qed.
Lemma parse_id_inj s t id : parse_id s = Ok id -> parse_id t = Ok id -> s = t.
Proof. by intros [_ <-]%parse_id_ok [_ <-]%parse_id_ok. Qed.

Lemma hex_encode_inj a b : hex_encode a = hex_encode b -> a = b.
Proof. intros H. apply (f_equal parse_pairs) in H. rewrite !parse_pairs_hex in H. by injection H. Qed.

Lemma ascii_utf8 b : Forall (fun x => (Byte.to_N x < 128)%N) b -> utf8_valid b = true.
Proof. induction 1 as [|x b Hx Hb IH]; cbn [utf8_valid]; [done|]. apply N.ltb_lt in Hx. by rewrite Hx. Qed.
Lemma hex_digit_ascii n : (n < 16)%N -> (N_of_ascii (hex_digit n) < 128)%N.
Proof. intros H%nibble_hex_digit. by destruct (hex_digit n) as [[] [] [] [] [] [] [] []]; vm_compute in H |- *. Qed.

(** ** Orders

    [String]'s order, by bytes, and that of byte arrays. *)
Fixpoint bytes_leb (a b : bytes) : bool :=
  match a, b with
  | [], _ => true
  | _ :: _, [] => false
  | x :: a, y :: b => (Byte.to_N x <? Byte.to_N y)%N || (bool_decide (x = y) && bytes_leb a b)
  end.

Lemma str_leb_cons a s b t :
  String.leb (String a s) (String b t) = true <->
  (N_of_ascii a < N_of_ascii b)%N \/ (a = b /\ String.leb s t = true).
Proof.
  unfold String.leb. cbn [String.compare]. unfold Ascii.compare.
  destruct (N.compare_spec (N_of_ascii a) (N_of_ascii b)) as [E|E|E].
  - apply (f_equal ascii_of_N) in E as E'. rewrite !ascii_N_embedding in E'. subst b.
    destruct (String.compare s t); naive_solver lia.
  - naive_solver.
  - split; [done|]. intros [H|[-> _]]; lia.
Qed.
Lemma str_leb_total s t : String.leb s t = true \/ String.leb t s = true.
Proof. apply String.leb_total. Qed.
Lemma str_leb_antisym s t : String.leb s t = true -> String.leb t s = true -> s = t.
Proof. apply String.leb_antisym. Qed.
Lemma str_leb_refl s : String.leb s s = true.
Proof. destruct (str_leb_total s s); done. Qed.
Lemma str_leb_trans s t u : String.leb s t = true -> String.leb t u = true -> String.leb s u = true.
Proof.
  revert t u; induction s as [|a s IH]; intros [|b t] [|c u]; try done.
  rewrite !str_leb_cons. intros [H1|[-> H1]] [H2|[-> H2]]; try (left; lia). right. eauto.
Qed.
Lemma str_ltb_leb s t : String.ltb s t = true <-> String.leb s t = true /\ s <> t.
Proof.
  unfold String.ltb, String.leb. destruct (String.compare s t) eqn:E; split; intros H; try done.
  - apply String.compare_eq_iff in E. naive_solver.
  - split; [done|]. intros ->. pose proof (String.compare_antisym t t) as E'. rewrite E in E'. done.
  - naive_solver.
Qed.
#[export] Hint Resolve str_leb_total str_leb_refl str_leb_trans : rust.

Lemma bytes_leb_total a b : bytes_leb a b = true \/ bytes_leb b a = true.
Proof.
  revert b; induction a as [|x a IH]; intros [|y b]; cbn; auto.
  rewrite !orb_true_iff, !andb_true_iff, !N.ltb_lt, !bool_decide_eq_true.
  destruct (N.lt_total (Byte.to_N x) (Byte.to_N y)) as [?|[E%to_N_inj|?]]; [auto| |auto]. subst. naive_solver.
Qed.
Lemma bytes_leb_trans a b c : bytes_leb a b = true -> bytes_leb b c = true -> bytes_leb a c = true.
Proof.
  revert b c; induction a as [|x a IH]; intros [|y b] [|z c]; cbn; try done.
  rewrite !orb_true_iff, !andb_true_iff, !N.ltb_lt, !bool_decide_eq_true.
  intros [H1|[-> H1]] [H2|[-> H2]]; try (left; lia). right. eauto.
Qed.
Lemma bytes_leb_antisym a b : bytes_leb a b = true -> bytes_leb b a = true -> a = b.
Proof.
  revert b; induction a as [|x a IH]; intros [|y b]; cbn; try done.
  rewrite !orb_true_iff, !andb_true_iff, !N.ltb_lt, !bool_decide_eq_true.
  intros [H1|[-> H1]] [H2|[? H2]]; try lia; subst; try lia. f_equal. auto.
Qed.

(** ** Lemmas on sorted lists *)

(** [Vec::dedup_by] with equal keys: the first of each run stays. *)
Fixpoint dedup_by {A} (same : A -> A -> bool) (l : list A) : list A :=
  match l with
  | [] => []
  | x :: l' =>
      match dedup_by same l' with
      | y :: l'' => if same x y then x :: l'' else x :: y :: l''
      | [] => [x]
      end
  end.

Lemma dedup_by_ext {A} (f g : A -> A -> bool) l : (forall x y, f x y = g x y) -> dedup_by f l = dedup_by g l.
Proof.
  intros H. induction l as [|x l IH]; [done|]. cbn. rewrite IH. destruct (dedup_by g l) as [|y d]; [done|]. by rewrite H.
Qed.
Lemma sort_by_sorted_id {A} (le : A -> A -> bool) l :
  StronglySorted (fun x y => le x y = true) l -> sort_by le l = l.
Proof.
  induction 1 as [|x l Hl IH Hx]; cbn; [done|]. fold (sort_by le l). rewrite IH.
  destruct l as [|y l]; cbn; [done|]. apply Forall_cons in Hx as [-> _]. done.
Qed.
Lemma StronglySorted_map {A B} (f : A -> B) (R : B -> B -> Prop) l :
  StronglySorted (fun x y => R (f x) (f y)) l <-> StronglySorted R (map f l).
Proof.
  induction l as [|x l IH]; cbn; [split; constructor|]. split; intros [Hl Hx]%StronglySorted_inv; constructor.
  - by apply IH.
  - by apply List.Forall_map.
  - by apply IH.
  - by apply (List.Forall_map f).
Qed.
Lemma StronglySorted_impl_in {A} (R R' : A -> A -> Prop) l :
  (forall x y, x ∈ l -> y ∈ l -> R x y -> R' x y) -> StronglySorted R l -> StronglySorted R' l.
Proof.
  intros H. induction 1 as [|x l Hl IH Hx]; constructor; [apply IH; set_solver|].
  rewrite Forall_forall in *. intros y Hy. apply H; [set_solver..|auto].
Qed.

(** A sorted list is the only sorted one of its elements. *)
Lemma sorted_unique {A} (le : A -> A -> bool) l k :
  (forall x y, le x y = true -> le y x = true -> x = y) ->
  StronglySorted (fun x y => le x y = true) l -> StronglySorted (fun x y => le x y = true) k -> l ≡ₚ k -> l = k.
Proof.
  intros Hanti Hl. revert k. induction Hl as [|x l Hl IH Hx]; intros k Hk Hp.
  - by apply Permutation_nil_l in Hp as ->.
  - destruct Hk as [|y k Hk Hy]; [by apply Permutation_nil_r in Hp|].
    assert (x = y) as ->.
    { assert (x ∈ y :: k) as [->|Hxk]%elem_of_cons by (rewrite <- Hp; set_solver); [done|].
      assert (y ∈ x :: l) as [->|Hyl]%elem_of_cons by (rewrite Hp; set_solver); [done|].
      rewrite Forall_forall in Hx, Hy. auto. }
    f_equal. apply IH; [done|]. by apply Permutation_cons_inv in Hp.
Qed.
Lemma sort_by_unique {A} (le : A -> A -> bool) l k :
  (forall x y, le x y = true \/ le y x = true) -> (forall x y z, le x y = true -> le y z = true -> le x z = true) ->
  (forall x y, le x y = true -> le y x = true -> x = y) -> l ≡ₚ k -> sort_by le l = sort_by le k.
Proof.
  intros Ht Htr Ha Hp. apply (sorted_unique le); [done|by apply sort_by_sorted..|]. by rewrite !sort_by_perm.
Qed.

Section by_key.
Context {A K : Type} `{EqDecision K} (leK : K -> K -> bool) (key : A -> K).
Context (Htotal : forall x y, leK x y = true \/ leK y x = true).
Context (Htrans : forall x y z, leK x y = true -> leK y z = true -> leK x z = true).
Context (Hanti : forall x y, leK x y = true -> leK y x = true -> x = y).
Let le (x y : A) : bool := leK (key x) (key y).
Let same (x y : A) : bool := bool_decide (key x = key y).

Lemma sort_by_key_sorted l : StronglySorted (fun x y => le x y = true) (sort_by le l).
Proof. apply sort_by_sorted; unfold le; eauto. Qed.

(** Distinct neighbours in a sorted list are distinct everywhere. *)
Lemma all_pairs_NoDup l :
  StronglySorted (fun x y => le x y = true) l ->
  all_pairs (fun x y => negb (same x y)) l = true <-> NoDup (map key l).
Proof.
  induction 1 as [|x l Hl IH Hx]; [split; [constructor|done]|].
  destruct l as [|y l]; [split; [by repeat constructor; set_solver|done]|].
  cbn [all_pairs map] in *. unfold same at 1. rewrite andb_true_iff, negb_true_iff, bool_decide_eq_false, NoDup_cons, IH.
  split; [|intros [H1 H2]; split; [set_solver|done]]. intros [Hne Hnd]. split; [|done].
  intros [?|(z & Hxz & Hz)%elem_of_lmap]%elem_of_cons; [done|]. apply Hne.
  apply Forall_cons in Hx as [Hxy _]. apply Hanti; [done|]. rewrite Hxz.
  inversion_clear Hl as [|? ? _ Hy]. rewrite Forall_forall in Hy. by apply Hy.
Qed.

(** Sorting and then dropping repeated keys. *)
Lemma dedup_by_spec l :
  StronglySorted (fun x y => le x y = true) l ->
  StronglySorted (fun x y => le x y = true) (dedup_by same l) /\ NoDup (map key (dedup_by same l)) /\
  (forall x, x ∈ dedup_by same l -> x ∈ l) /\ (forall x, x ∈ l -> exists y, y ∈ dedup_by same l /\ key y = key x).
Proof.
  induction 1 as [|x l Hl (Hs & Hnd & Hin & Hall) Hx]; cbn [dedup_by].
  { split_and!; [constructor..|done|set_solver]. }
  assert (Hx' : Forall (fun y => le x y = true) (dedup_by same l)).
  { rewrite Forall_forall in *. auto. }
  destruct (dedup_by same l) as [|y d] eqn:E.
  - destruct l as [|z l]; [|destruct (Hall z) as (? & ? & _); set_solver].
    split_and!; [by repeat constructor|repeat constructor; set_solver|set_solver|]. intros z Hz. exists z. set_solver.
  - unfold same. case_bool_decide as Hk.
    + inversion_clear Hs as [|? ? Hs' Hy]. cbn in Hnd. apply NoDup_cons in Hnd as [Hn Hnd].
      apply Forall_cons in Hx' as [_ Hx']. split_and!.
      * by constructor.
      * cbn. rewrite Hk. by constructor.
      * set_solver.
      * intros z [->|Hz]%elem_of_cons; [exists x; set_solver|].
        destruct (Hall z Hz) as (w & [->|Hw]%elem_of_cons & Hkw); [exists x; split; [set_solver|congruence]|].
        exists w. set_solver.
    + split_and!.
      * by constructor.
      * change (NoDup (key x :: map key (y :: d))). constructor; [|done]. intros (z & Hz & Hzin)%elem_of_lmap.
        apply Hk, Hanti; [by apply Forall_cons in Hx' as [? _]|].
        rewrite Hz. inversion_clear Hs as [|? ? _ Hy]. apply elem_of_cons in Hzin as [->|Hzin].
        { destruct (Htotal (key y) (key y)); done. }
        rewrite Forall_forall in Hy. by apply Hy.
      * set_solver.
      * intros z [->|Hz]%elem_of_cons; [exists x; set_solver|].
        destruct (Hall z Hz) as (w & Hw & Hkw). exists w. set_solver.
Qed.
End by_key.

(** ** Lemmas on maps filled from a list *)
Lemma enumerate_from_app {A} i (l k : list A) :
  enumerate_from i (l ++ k) = enumerate_from i l ++ enumerate_from (i + nlen l) k.
Proof.
  revert i; induction l as [|x l IH]; intros i; cbn.
  - by rewrite N.add_0_r.
  - rewrite IH, nlen_cons. do 3 f_equal. lia.
Qed.
Lemma nget_snoc {A} (l : list A) x i y :
  nget (l ++ [x]) i = Some y <-> nget l i = Some y \/ (i = nlen l /\ y = x).
Proof.
  unfold nget, nlen. rewrite lookup_snoc_Some. split.
  - intros [[_ H]|[H ->]]; [by left|right; split; [lia|done]].
  - intros [H|[-> ->]]; [left; split; [by eapply lookup_lt_Some|done]|right; split; [lia|done]].
Qed.

(** ** Lines of text *)
Definition newline_char : ascii := "010".

Lemma split_on_line c s t : contains_char c s = false -> split_on c (s +:+ String c t) = s :: split_on c t.
Proof.
  induction s as [|a s IH]; cbn; [by rewrite Ascii.eqb_refl|].
  unfold contains_char in *. cbn. intros [Ha Hs]%orb_false_iff. rewrite Ascii.eqb_sym in Ha. rewrite Ha, IH; done.
Qed.
Lemma split_once_app c s t : contains_char c s = false -> split_once c (s +:+ String c t) = Some (s, t).
Proof.
  induction s as [|a s IH]; cbn; [by rewrite Ascii.eqb_refl|].
  unfold contains_char in *. cbn. intros [Ha Hs]%orb_false_iff. rewrite Ascii.eqb_sym in Ha. rewrite Ha, IH; done.
Qed.
Lemma contains_char_app c s t : contains_char c (s +:+ t) = contains_char c s || contains_char c t.
Proof. apply str_any_app. Qed.

Lemma trim_end_one c s : contains_char c s = false -> trim_end_matches c (s +:+ String c "") = s.
Proof.
  induction s as [|a s IH]; cbn; [by rewrite Ascii.eqb_refl|].
  unfold contains_char in *. cbn. intros [Ha Hs]%orb_false_iff. rewrite (IH Hs). rewrite Ascii.eqb_sym in Ha.
  destruct s; [by rewrite Ha|done].
Qed.

(** *** UTF-8 of a concatenation *)
Definition str_utf8 (s : string) : bool := utf8_valid (String.list_byte_of_string s).
Lemma utf8_app a b : utf8_valid a = true -> utf8_valid (a ++ b) = utf8_valid b.
Proof.
  remember (length a) as n eqn:Hn. assert (Hle : length a <= n) by lia. clear Hn. revert a Hle.
  induction n as [|n IH]; intros [|x a] Hle; cbn [length] in Hle; try done; try lia.
  cbn [app utf8_valid]. destruct (Byte.to_N x <? 128)%N; [intros; apply IH; [lia|done]|].
  destruct (byte_between 194 223 x); [|destruct (byte_between 224 239 x); [|destruct (byte_between 240 244 x); [|done]]].
  - destruct a as [|y a]; [done|]. cbn [app length] in *. intros [-> H]%andb_true_iff. apply IH; [lia|done].
  - destruct a as [|y [|z a]]; [done..|]. cbn [app length] in *. intros [[-> ->]%andb_true_iff H]%andb_true_iff. apply IH; [lia|done].
  - destruct a as [|y [|z [|w a]]]; [done..|]. cbn [app length] in *.
    intros [[[-> ->]%andb_true_iff ->]%andb_true_iff H]%andb_true_iff. apply IH; [lia|done].
Qed.
Lemma list_byte_of_string_app s t :
  String.list_byte_of_string (s +:+ t) = String.list_byte_of_string s ++ String.list_byte_of_string t.
Proof. unfold String.list_byte_of_string. by rewrite list_ascii_of_string_app, map_app. Qed.
Lemma str_utf8_app s t : str_utf8 s = true -> str_utf8 (s +:+ t) = str_utf8 t.
Proof. unfold str_utf8. rewrite list_byte_of_string_app. apply utf8_app. Qed.

(** ** A concrete encoding

    An injective encoding into bytes of any countable type, for witnesses that need
    an encoder and its decoder. *)
Definition to_wire {A} `{Countable A} (x : A) : bytes :=
  let n := Npos (encode x) in to_le_bytes (N.to_nat (N.size n / 8 + 1)) n.
Definition of_wire {A} `{Countable A} (b : bytes) : Result A :=
  context (match from_le_bytes b with N0 => None | Npos p => countable.decode p end) "malformed".

Lemma of_to_wire {A} `{Countable A} (x : A) : of_wire (to_wire x) = Ok x.
Proof.
  unfold of_wire, to_wire. rewrite from_to_le_bytes, N2Nat.id, N.mod_small; [by rewrite decode_encode|].
  set (n := Npos _). apply N.lt_le_trans with (2 ^ N.size n)%N; [apply N.size_gt|].
  change 256%N with (2 ^ 8)%N. rewrite <- N.pow_mul_r. apply N.pow_le_mono_r; [done|].
  pose proof (N.div_mod (N.size n) 8 ltac:(done)). pose proof (N.mod_lt (N.size n) 8 ltac:(done)). lia.
Qed.

(** ** Lemmas on decimal numbers *)
Lemma digit_of_char n : (n < 10)%N -> digit_of (pretty_N_char n) = Some n.
Proof.
  intros H. assert (n ∈ [0; 1; 2; 3; 4; 5; 6; 7; 8; 9]%N) as Hin by (rewrite !elem_of_cons; lia).
  repeat (apply elem_of_cons in Hin as [->|Hin]; [done|]). by apply not_elem_of_nil in Hin.
Qed.
Definition all_digits (s : string) : Prop := str_all is_ascii_digit s = true.
Lemma all_digits_cons a s : all_digits (String a s) <-> is_ascii_digit a = true /\ all_digits s.
Proof. unfold all_digits, str_all. cbn. by destruct (is_ascii_digit a), (str_any _ s); cbn; naive_solver. Qed.
Lemma digits_go x s : all_digits s -> all_digits (pretty_N_go x s).
Proof.
  revert s. induction (N.lt_wf_0 x) as [x _ IH]. intros s Hs. destruct (decide (0 < x)%N) as [Hx|Hx].
  - rewrite pretty_N_go_step by done. apply IH; [apply N.div_lt; lia|]. apply all_digits_cons. split; [|done].
    unfold pretty_N_char. repeat case_match; done.
  - assert (x = 0%N) as -> by lia. by rewrite pretty_N_go_0.
Qed.
Lemma digits_pretty (n : N) : all_digits (pretty n).
Proof. unfold pretty, pretty_N. case_decide; [done|]. by apply digits_go. Qed.
Lemma parse_digits_go x s : (x <= u64_max)%N -> parse_digits 0 (pretty_N_go x s) = parse_digits x s.
Proof.
  revert s. induction (N.lt_wf_0 x) as [x _ IH]. intros s Hx. destruct (decide (0 < x)%N) as [H|H].
  - rewrite pretty_N_go_step by done. pose proof (N.div_lt x 10 ltac:(lia) ltac:(lia)). rewrite IH by lia.
    cbn [parse_digits]. rewrite digit_of_char by (apply N.mod_lt; lia). cbn [mbind option_bind].
    replace (x / 10 * 10 + x mod 10)%N with x by (rewrite (N.div_mod x 10) at 1 by done; lia).
    by rewrite (proj2 (N.ltb_ge _ _) Hx).
  - assert (x = 0%N) as -> by lia. by rewrite pretty_N_go_0.
Qed.
Lemma pretty_cons (n : N) : exists a s, pretty n = String a s /\ is_ascii_digit a = true.
Proof.
  pose proof (digits_pretty n) as H. destruct (pretty n) as [|a s] eqn:E.
  - exfalso. unfold pretty, pretty_N in E. case_decide; [done|]. rewrite pretty_N_go_step in E by lia.
    assert (Hne : forall x s, s <> "" -> pretty_N_go x s <> "").
    { intros x. induction (N.lt_wf_0 x) as [x _ IH]. intros s Hs. destruct (decide (0 < x)%N).
      - rewrite pretty_N_go_step by done. apply IH; [apply N.div_lt; lia|done].
      - assert (x = 0%N) as -> by lia. by rewrite pretty_N_go_0. }
    by apply Hne in E.
  - apply all_digits_cons in H as [H _]. by exists a, s.
Qed.
Lemma parse_u64_pretty n : (n <= u64_max)%N -> parse_u64 (pretty n) = Some n.
Proof.
  intros H. destruct (pretty_cons n) as (a & s & E & Ha). unfold parse_u64.
  assert (match pretty n with String "+" (String _ _ as s) => s | _ => pretty n end = pretty n) as ->.
  { rewrite E. destruct a as [[] [] [] [] [] [] [] []]; try done; vm_compute in Ha; done. }
  rewrite bool_decide_eq_false_2 by (by rewrite E). unfold pretty, pretty_N. case_decide; [by subst|].
  by rewrite parse_digits_go.
Qed.
(** Digits end where the next character begins. *)
Lemma split_once_digits c (n : N) s : is_ascii_digit c = false -> split_once c (pretty n +:+ String c s) = Some (pretty n, s).
Proof.
  intros Hc. generalize (digits_pretty n). induction (pretty n) as [|a t IH]; cbn [split_once String.append].
  - intros _. by rewrite Ascii.eqb_refl.
  - intros [Ha Ht]%all_digits_cons. destruct (Ascii.eqb_spec a c) as [->|]; [congruence|]. by rewrite IH.
Qed.
