(* ===== verification/Provider.v ===== *)
(** Provider identity ([rust/src/provider.rs]): configured provider
    instances, repository identities, their storage keys and mirror
    directory names, credential headers and clone URLs. *)

From S2P Require Import Prelude.

Definition DEFAULT_PROVIDER_ID : string := "github".

Inductive ProviderKind := GitHub | GitLab | Gitea | Generic.
#[export] Instance ProviderKind_eq_dec : EqDecision ProviderKind.
Proof. solve_decision. Defined.

Definition ProviderKind_as_str (k : ProviderKind) : string :=
  match k with
  | GitHub => "github" | GitLab => "gitlab" | Gitea => "gitea" | Generic => "generic"
  end.

(** [FromStr for ProviderKind]. *)
Definition ProviderKind_from_str (s : string) : Result ProviderKind :=
  let s := str_to_ascii_lowercase s in
  if bool_decide (s = "github") then Ok GitHub
  else if bool_decide (s = "gitlab") then Ok GitLab
  else if bool_decide (s ∈ ["gitea"; "forgejo"; "codeberg"]) then Ok Gitea
  else if bool_decide (s = "generic") then Ok Generic
  else Err "unknown provider kind".

Record ProviderInstance := {
  pi_id : string;
  pi_kind : ProviderKind;
  pi_host : string;
  pi_auth_template : option string;
  pi_auth_header_name : option string;
}.

(** A byte of an HTTP header field name. *)
Definition is_header_name_byte (b : ascii) : bool :=
  is_ascii_alphanumeric b || contains_char b "!#$%&'*+-.^_`|~".

Definition clone_url (p : ProviderInstance) (path : string) : string :=
  let host := trim_end_matches "/" (pi_host p) in
  let path := trim_start_matches "/" path in
  if starts_with "http://" host || starts_with "https://" host
  then host +:+ "/" +:+ path +:+ ".git"
  else "https://" +:+ host +:+ "/" +:+ path +:+ ".git".

(** [template.replace("{token}", token)]. *)
Fixpoint replace_str_fuel (fuel : nat) (pat by_ s : string) : string :=
  match fuel with
  | O => s
  | S fuel =>
      match strip_prefix pat s with
      | Some rest => by_ +:+ replace_str_fuel fuel pat by_ rest
      | None =>
          match s with
          | EmptyString => ""
          | String a s => String a (replace_str_fuel fuel pat by_ s)
          end
      end
  end.
(** Each round drops at least one byte of [s], as [pat] is not empty. *)
Definition replace_str (pat by_ s : string) : string :=
  replace_str_fuel (S (String.length s)) pat by_ s.

Section auth.
(** [base64::STANDARD.encode]. *)
Context (base64_encode : string -> string).

Definition auth_header (p : ProviderInstance) (token : string) : option (string * string) :=
  let name := default "Authorization"%string (pi_auth_header_name p) in
  if bool_decide (name = "") || negb (str_all is_header_name_byte name) then None
  else
    value ← match pi_auth_template p with
            | Some template => Some (replace_str "{token}" token template)
            | None =>
                match pi_kind p with
                | GitHub => Some ("Basic " +:+ base64_encode ("x-access-token:" +:+ token))
                | GitLab => Some ("Basic " +:+ base64_encode ("oauth2:" +:+ token))
                | Gitea => Some ("token " +:+ token)
                | Generic => None
                end
            end;
    if str_any (fun b => Ascii.eqb b "013" || Ascii.eqb b "010" || Ascii.eqb b "000") value
    then None
    else Some (name, value).
End auth.

Definition is_github_default (p : ProviderInstance) : bool :=
  bool_decide (pi_id p = DEFAULT_PROVIDER_ID).

(** ** Repository identities *)
Record RepoId := { provider : string; path : string }.
#[export] Instance RepoId_eq_dec : EqDecision RepoId.
Proof. solve_decision. Defined.

Definition RepoId_github (path : string) : RepoId :=
  {| provider := DEFAULT_PROVIDER_ID; path := path |}.

Definition RepoId_is_github_default (r : RepoId) : bool :=
  bool_decide (provider r = DEFAULT_PROVIDER_ID).

Definition escape_path (path : string) : string :=
  replace_char "\" "%5C" (replace_char "/" "%2F" (replace_char "%" "%25" path)).

Definition storage_key (r : RepoId) : string :=
  provider r +:+ "/" +:+ escape_path (path r).

Definition mirror_dir_name (r : RepoId) : string :=
  provider r +:+ "_" +:+ escape_path (path r) +:+ ".git".

(** The loop of [from_storage_key] over the escaped path. *)
Fixpoint unescape (s : string) : Result string :=
  match s with
  | EmptyString => Ok ""
  | String "%" rest =>
      match rest with
      | String a (String b rest) =>
          let? c :=
            (if bool_decide (String a (String b "") = "25") then Ok "%"%char
             else if bool_decide (String a (String b "") = "2F") then Ok "/"%char
             else if bool_decide (String a (String b "") = "5C") then Ok "\"%char
             else Err "invalid repository storage key") in
          let? path := unescape rest in
          Ok (String c path)
      | _ => Err "invalid repository storage key"
      end
  | String c rest => let? path := unescape rest in Ok (String c path)
  end.

Definition from_storage_key (key : string) : Result RepoId :=
  let? (provider, escaped) :=
    context (rsplit_once "/" key) "invalid repository storage key" in
  let? path := unescape escaped in
  if bool_decide (provider = "") || bool_decide (path = "")
  then Err "invalid repository storage key"
  else Ok {| provider := provider; path := path |}.

Definition cli_name (r : RepoId) (default_provider : string) : string :=
  if bool_decide (provider r = default_provider) then path r
  else provider r +:+ ":" +:+ path r.

Definition github_owner_repo (r : RepoId) : option (string * string) :=
  if negb (RepoId_is_github_default r) then None else split_once "/" (path r).

(** ** Lemmas *)

(** The one-pass form of [escape_path]. *)
Fixpoint escape1 (s : string) : string :=
  match s with
  | EmptyString => ""
  | String c s =>
      (if Ascii.eqb c "%" then "%25"
       else if Ascii.eqb c "/" then "%2F"
       else if Ascii.eqb c "\" then "%5C"
       else String c "") +:+ escape1 s
  end.

Lemma replace_char_app c by_ s t :
  replace_char c by_ (s +:+ t) = replace_char c by_ s +:+ replace_char c by_ t.
Proof.
  induction s as [|a s IH]; cbn; [done|]. destruct (Ascii.eqb a c); rewrite IH; [|done].
  by rewrite string_app_assoc.
Qed.

Lemma escape_path_one_pass s : escape_path s = escape1 s.
Proof.
  unfold escape_path. induction s as [|a s IH]; cbn; [done|].
  destruct (Ascii.eqb_spec a "%") as [->|H1].
  { cbn. by rewrite IH. }
  cbn. destruct (Ascii.eqb_spec a "/") as [->|H2].
  { cbn. by rewrite IH. }
  cbn. destruct (Ascii.eqb_spec a "\") as [->|H3]; cbn; by rewrite IH.
Qed.

Lemma escape1_no_slash s : contains_char "/" (escape1 s) = false.
Proof.
  unfold contains_char. induction s as [|a s IH]; cbn; [done|].
  rewrite str_any_app, IH, orb_false_r.
  destruct (Ascii.eqb_spec a "%"); [done|]. destruct (Ascii.eqb_spec a "/"); [done|].
  destruct (Ascii.eqb_spec a "\"); [done|]. cbn [str_any].
  rewrite orb_false_r. apply Ascii.eqb_neq. congruence.
Qed.

Lemma unescape_plain c s :
  c <> "%"%char -> unescape (String c s) = (let? path := unescape s in Ok (String c path)).
Proof. intros H. destruct c as [[] [] [] [] [] [] [] []]; try done. Qed.

Lemma unescape_escape1 s : unescape (escape1 s) = Ok s.
Proof.
  induction s as [|a s IH]; [done|]. cbn [escape1].
  destruct (Ascii.eqb_spec a "%") as [->|H1]; [cbn; by rewrite IH|].
  destruct (Ascii.eqb_spec a "/") as [->|H2]; [cbn; by rewrite IH|].
  destruct (Ascii.eqb_spec a "\") as [->|H3]; [cbn; by rewrite IH|].
  cbn [String.append]. rewrite unescape_plain by done. by rewrite IH.
Qed.

Lemma rsplit_once_none c s : contains_char c s = false -> rsplit_once c s = None.
Proof.
  unfold contains_char. induction s as [|a s IH]; cbn; [done|].
  intros [Ha Hs]%orb_false_iff. rewrite IH by done.
  rewrite Ascii.eqb_sym, Ha. done.
Qed.
Lemma rsplit_once_app c l r :
  contains_char c r = false -> rsplit_once c (l +:+ String c r) = Some (l, r).
Proof.
  intros H. induction l as [|a l IH]; cbn.
  - rewrite rsplit_once_none by done. by rewrite Ascii.eqb_refl.
  - by rewrite IH.
Qed.

(** A repository identity the configuration can name. *)
Definition repo_ok (r : RepoId) : Prop := provider r <> "" /\ path r <> "".
#[export] Instance repo_ok_dec r : Decision (repo_ok r).
Proof. unfold repo_ok. apply _. Defined.

Lemma storage_key_decodes r : repo_ok r -> from_storage_key (storage_key r) = Ok r.
Proof.
  intros [Hp Hq]. unfold from_storage_key, storage_key. cbn.
  rewrite escape_path_one_pass, rsplit_once_app by apply escape1_no_slash. cbn.
  rewrite unescape_escape1. cbn.
  rewrite !bool_decide_eq_false_2 by done. by destruct r.
Qed.

Lemma storage_key_inj r1 r2 :
  repo_ok r1 -> repo_ok r2 -> storage_key r1 = storage_key r2 -> r1 = r2.
Proof.
  intros H1 H2 E. assert (Ok r1 = Ok r2) as [= ->]; [|done].
  by rewrite <- (storage_key_decodes r1), <- (storage_key_decodes r2), E.
Qed.

Lemma str_app_cancel_r (s t u : string) : s +:+ u = t +:+ u -> s = t.
Proof.
  revert t; induction s as [|a s IH]; intros [|b t] H; cbn in H; try done;
    pose proof (f_equal String.length H) as Hl; cbn in Hl; rewrite ?str_length_app in Hl;
    [lia..|].
  injection H as -> H. f_equal. eauto.
Qed.

Lemma split_at_char_inj c (p1 p2 q1 q2 : string) :
  contains_char c p1 = false -> contains_char c p2 = false ->
  p1 +:+ String c q1 = p2 +:+ String c q2 -> p1 = p2 /\ q1 = q2.
Proof.
  unfold contains_char. revert p2. induction p1 as [|a p1 IH]; intros [|b p2]; cbn; intros H1 H2 E; simplify_eq; try done.
  - by rewrite Ascii.eqb_refl in H2.
  - by rewrite Ascii.eqb_refl in H1.
  - apply orb_false_iff in H1 as [? ?], H2 as [? ?].
    destruct (IH p2) as [-> ->]; done.
Qed.

(** ** Properties *)

(** A repository's storage key names it and no other: for every identity
    with a provider and a path, [from_storage_key] of [storage_key] is that
    identity (whatever bytes, slashes, percents or backslashes the path has),
    so two identities never share a key; and whatever [from_storage_key]
    accepts is an identity with a provider and a path, whose own key decodes
    to it again. *)
Lemma storage_key_roundtrip :
  (forall r, repo_ok r -> from_storage_key (storage_key r) = Ok r) /\
  (forall r1 r2, repo_ok r1 -> repo_ok r2 -> storage_key r1 = storage_key r2 -> r1 = r2) /\
  (forall k r, from_storage_key k = Ok r -> repo_ok r /\ from_storage_key (storage_key r) = Ok r).
Proof.
  split; [exact storage_key_decodes|]. split; [exact storage_key_inj|].
  intros k r H. assert (repo_ok r) as Hok.
  { unfold from_storage_key in H. inv_ok H. by apply orb_false_iff in E2 as [?%bool_decide_eq_false ?%bool_decide_eq_false]. }
  split; [done|]. by apply storage_key_decodes.
Qed.

(** Two repositories of providers whose ids hold no underscore never share
    a mirror directory, so neither build reads or deletes the other's mirror. *)
Lemma mirror_dir_name_injective r1 r2 :
  contains_char "_" (provider r1) = false -> contains_char "_" (provider r2) = false ->
  mirror_dir_name r1 = mirror_dir_name r2 -> r1 = r2.
Proof.
  unfold mirror_dir_name. intros H1 H2 E.
  destruct (split_at_char_inj "_" _ _ _ _ H1 H2 E) as [Hp Hq%str_app_cancel_r].
  rewrite !escape_path_one_pass in Hq.
  assert (path r1 = path r2) as Hpath.
  { assert (Ok (path r1) = Ok (path r2)) as [= ->]; [|done].
    by rewrite <- !unescape_escape1, Hq. }
  destruct r1, r2; cbn in *; congruence.
Qed.

Lemma mirror_dir_name_injective_witness :
  exists r1 r2, mirror_dir_name r1 = mirror_dir_name r2 /\ r1 = r2.
Proof.
  exists (RepoId_github "a/b_c%"), (RepoId_github "a/b_c%").
  split; [reflexivity|].
  apply mirror_dir_name_injective; reflexivity.
Defined.

(** Without that condition two repositories can share a mirror directory:
    provider [gitea] with path [corp_x/y] and provider [gitea_corp] with path
    [x/y]. *)
Lemma mirror_dir_name_collides :
  exists r1 r2, repo_ok r1 /\ repo_ok r2 /\ r1 <> r2 /\ mirror_dir_name r1 = mirror_dir_name r2.
Proof.
  exists {| provider := "gitea"; path := "corp_x/y" |}, {| provider := "gitea_corp"; path := "x/y" |}.
  split_and!; [by apply (bool_decide_unpack _)..|done|vm_compute; reflexivity].
Qed.

(** A credential header the server hands git never smuggles another
    header: its name is a nonempty HTTP token and its value holds no CR, LF
    or NUL byte, whatever the token, template and configured name are. *)
Lemma auth_header_no_injection (b64 : string -> string) p token name value :
  auth_header b64 p token = Some (name, value) ->
  name <> "" /\ (forall c, c ∈ String.list_ascii_of_string name -> is_header_name_byte c = true) /\
  forall c, c ∈ String.list_ascii_of_string value -> c <> "013"%char /\ c <> "010"%char /\ c <> "000"%char.
Proof.
  unfold auth_header. intros H.
  destruct (_ || _) eqn:En in H; [done|]. breflect.
  destruct (match pi_auth_template p with Some _ => _ | None => _ end) as [v|] eqn:Ev; [cbn in H|done].
  destruct (str_any _ v) eqn:Es; [done|]. simplify_eq.
  split; [done|]. split; [by apply str_all_true|].
  intros c Hc. rewrite str_any_false in Es. specialize (Es c Hc). breflect.
  split_and!; intros ->; done.
Qed.

Definition auth_example : ProviderInstance :=
  {| pi_id := "gitea"; pi_kind := Gitea; pi_host := "h";
     pi_auth_template := Some "Bearer {token}"%string; pi_auth_header_name := None |}.
Lemma auth_header_no_injection_witness :
  auth_header (fun s => s) auth_example "abc" = Some ("Authorization", "Bearer abc")%string
  /\ "Authorization"%string <> ""%string.
Proof.
  split; [reflexivity|].
  exact (proj1 (auth_header_no_injection (fun s => s) auth_example "abc"
    "Authorization" "Bearer abc" eq_refl)).
Defined.
