(* ===== verification/Validation.v ===== *)
(** Validation of outside input ([rust/src/validation.rs]) and of manifest
    paths ([rust/src/fsutil.rs]): repository paths, git revisions, branch and
    tag names, object ids, build selectors, relative paths, and the directory
    creation that refuses symlinks. *)

From S2P Require Import Prelude Provider.

Definition MAX_REF_LEN : N := 256.

Definition validate_repo_id_inner (id : string) : Result unit :=
  bail_if! bool_decide (id = "") with "repo identifier must not be empty";
  bail_if! (128 <? str_len id)%N with "repo identifier too long";
  bail_if! contains_char "/" id || contains_char "\" id || contains_char "000" id
    with "repo identifier contains path separator";
  bail_if! bool_decide (id = ".") || bool_decide (id = "..")
    with "repo identifier cannot be '.' or '..'";
  bail_if! negb (str_all (fun c => is_ascii_alphanumeric c || Ascii.eqb c "."
                                   || Ascii.eqb c "-" || Ascii.eqb c "_") id)
    with "repo identifier contains invalid characters";
  Ok tt.

Definition validate_opaque_path (p : string) : Result unit :=
  bail_if! bool_decide (p = "") with "repo path must not be empty";
  bail_if! (512 <? str_len p)%N with "repo path too long";
  bail_if! contains_char "000" p || contains_char "\" p
    with "repo path contains unsafe characters";
  bail_if! chars_any_control p with "repo path contains control characters";
  bail_if! starts_with "/" p with "repo path must not start with '/'";
  bail_if! existsb (fun seg => bool_decide (seg = "..")) (split_on "/" p)
    with "repo path must not contain a '..' segment";
  Ok tt.

Definition validate_repo_path (prov : ProviderInstance) (repo_id : RepoId) : Result unit :=
  match
    (if bool_decide (pi_kind prov = GitHub) && is_github_default prov
     then github_owner_repo repo_id else None)
  with
  | Some (owner, repo) =>
      let? _ := validate_repo_id_inner owner in
      let? _ := validate_repo_id_inner repo in
      Ok tt
  | None => validate_opaque_path (path repo_id)
  end.

Definition validate_git_rev (rev : string) : Result unit :=
  bail_if! bool_decide (rev = "") with "git rev must not be empty";
  bail_if! (MAX_REF_LEN <? str_len rev)%N with "git rev too long";
  bail_if! starts_with "-" rev with "git rev must not start with '-'";
  bail_if! contains ".." rev || contains_char "000" rev || contains_char "\" rev
    with "git rev contains unsafe characters";
  Ok tt.

Definition ref_char_forbidden (c : ascii) : bool :=
  Ascii.eqb c " " || contains_char c "~^:?*[\".

Definition validate_ref_name (name : string) : Result unit :=
  bail_if! bool_decide (name = "") with "must not be empty";
  bail_if! (MAX_REF_LEN <? str_len name)%N with "too long";
  bail_if! bool_decide (name = "HEAD") || bool_decide (name = "@")
           || starts_with "-" name || starts_with "/" name
    with "invalid";
  bail_if! ends_with "/" name || ends_with "." name || contains "//" name
           || contains ".." name || contains "@{" name
           || (chars_any_control name || str_any ref_char_forbidden name)
           || existsb (fun part => bool_decide (part = "") || starts_with "." part
                                   || ends_with ".lock" part) (split_on "/" name)
    with "invalid";
  Ok tt.

Definition validate_checkout_name (name : string) : Result unit := validate_ref_name name.
Definition validate_tag_name (name : string) : Result unit := validate_ref_name name.

Definition is_lower_hex (c : ascii) : bool := is_ascii_digit c || byte_in 97 102 c.

Definition validate_object_id (id : string) : Result unit :=
  bail_if! negb (str_len id =? 40)%N && negb (str_len id =? 64)%N
    with "object id must be 40 or 64 hex characters";
  bail_if! negb (str_all is_lower_hex id) with "object id must be lowercase hex";
  Ok tt.

Inductive Selector :=
  | SHead
  | SCommit (sha : string)
  | SName (name : string).

Definition Selector_parse (selector : string) : Result Selector :=
  if bool_decide (selector = "HEAD") then Ok SHead
  else if is_ok (validate_object_id selector) then Ok (SCommit selector)
  else if is_ok (validate_checkout_name selector) then Ok (SName selector)
  else Err "invalid selector".

(** ** Relative paths *)

(** [std::path::Component] on Unix. *)
Inductive Component := RootDir | CurDir | ParentDir | Normal (name : string).

Definition body_component (seg : string) : option Component :=
  if bool_decide (seg = "") || bool_decide (seg = ".") then None
  else if bool_decide (seg = "..") then Some ParentDir
  else Some (Normal seg).

(** [Path::components]: repeated and trailing slashes and inner [.] segments
    are dropped, a leading [.] is kept. *)
Definition components (p : string) : list Component :=
  match split_on "/" p with
  | [] => []
  | first :: rest =>
      (if starts_with "/" p then [RootDir]
       else if bool_decide (first = ".") then [CurDir]
       else option_list (body_component first)) ++ omap body_component rest
  end.

Definition component_allowed (c : Component) : Result unit :=
  match c with
  | ParentDir => Err "path contains parent-dir component"
  | Normal name =>
      if eq_ignore_ascii_case name ".git" then Err "path contains a .git component" else Ok tt
  | _ => Err "path contains invalid component"
  end.

Definition validate_relative_path (p : string) : Result unit :=
  bail_if! bool_decide (p = "") with "path is empty";
  bail_if! starts_with "/" p with "path is absolute";
  let? _ := collect component_allowed (components p) in
  bail_if! contains_char "000" p with "path contains NUL byte";
  Ok tt.

(** ** Creating directories

    The tree under the clone's root: each existing path, as its components,
    with what it is; a file has its permission bits and content, a symbolic link
    its target. *)
Inductive Node := Dir | File (perm : N) (content : bytes) | Symlink (target : bytes).
#[export] Instance Node_eq_dec : EqDecision Node.
Proof. solve_decision. Defined.
Abbreviation FsTree := (gmap (list string) Node).

(** [std::fs::create_dir]; [false] is the error [AlreadyExists]. *)
Definition create_dir (dir : list string) : Stateful FsTree bool := fun fs =>
  match fs !! dir with
  | Some _ => (fs, Ok false)
  | None =>
      match fs !! removelast dir with
      | Some Dir => (<[dir := Dir]> fs, Ok true)
      | _ => (fs, Err "create dir")
      end
  end.

Definition get_fs : Stateful FsTree FsTree := fun fs => (fs, Ok fs).
Definition is_symlink (fs : FsTree) (p : list string) : bool :=
  match fs !! p with Some (Symlink _) => true | _ => false end.

(** One component's turn of the loop: [current] is a real directory afterwards. *)
Definition create_component (current : list string) : Stateful FsTree unit :=
  let! fs := get_fs in
  if is_symlink fs current then sfail "refusing to follow symlinked directory"
  else
    let! created := create_dir current in
    if created then sret tt
    else
      let! fs := get_fs in
      if is_symlink fs current then sfail "refusing to follow symlinked directory"
      else if bool_decide (fs !! current = Some Dir) then sret tt
      else sfail "path is not a directory".

Fixpoint create_components (current : list string) (comps : list Component) : Stateful FsTree unit :=
  match comps with
  | [] => sret tt
  | Normal name :: comps =>
      let current := current ++ [name] in
      let! _ := create_component current in
      create_components current comps
  | _ :: comps => create_components current comps
  end.

Definition safe_create_dir_all (root : list string) (rel : string) : Stateful FsTree unit :=
  let! _ := lift (validate_relative_path rel) in
  create_components root (components rel).

(** ** Lemmas *)

(** The walk a file system makes from [root] along the segments of a path. *)
Fixpoint resolve (root segs : list string) : list string :=
  match segs with
  | [] => root
  | seg :: segs =>
      if bool_decide (seg = "") || bool_decide (seg = ".") then resolve root segs
      else if bool_decide (seg = "..") then resolve (removelast root) segs
      else resolve (root ++ [seg]) segs
  end.

Definition normal_name (c : Component) : option string :=
  match c with Normal n => Some n | _ => None end.

Lemma resolve_body root segs :
  Forall (fun seg => seg <> "..") segs ->
  resolve root segs = root ++ omap normal_name (omap body_component segs).
Proof.
  intros H. revert root. induction H as [|seg segs Hseg _ IH]; intros root; cbn.
  - by rewrite app_nil_r.
  - unfold body_component at 1. destruct (_ || _); [done|].
    rewrite bool_decide_eq_false_2 by done. cbn. by rewrite IH, <- app_assoc.
Qed.

Lemma resolve_plain root segs :
  Forall (fun seg => seg <> "" /\ seg <> "." /\ seg <> "..") segs ->
  resolve root segs = root ++ segs.
Proof.
  intros H. revert root. induction H as [|seg segs (H1 & H2 & H3) _ IH]; intros root; cbn.
  - by rewrite app_nil_r.
  - rewrite !bool_decide_eq_false_2 by done. cbn. by rewrite IH, <- app_assoc.
Qed.

Lemma contains_char_false c s :
  contains_char c s = false <-> c ∉ String.list_ascii_of_string s.
Proof.
  unfold contains_char. rewrite str_any_false. split.
  - intros H Hin%H. by rewrite Ascii.eqb_refl in Hin.
  - intros H d Hd. apply Ascii.eqb_neq. intros <-. done.
Qed.

Lemma split_on_chars c s seg :
  seg ∈ split_on c s ->
  forall a, a ∈ String.list_ascii_of_string seg -> a ∈ String.list_ascii_of_string s.
Proof.
  revert seg. induction s as [|b s IH]; intros seg; cbn.
  - intros ->%list_elem_of_singleton. done.
  - destruct (Ascii.eqb b c).
    + intros [->|H]%elem_of_cons a Ha; [set_solver|]. set_unfold. right. eauto.
    + destruct (split_on c s) as [|h t] eqn:E; [by apply split_on_nonempty in E|].
      intros [->|H]%elem_of_cons a Ha; cbn in *.
      * set_unfold. destruct Ha as [->|Ha]; [by left|]. right.
        eapply IH; [|done]. set_solver.
      * set_unfold. right. eapply IH; [|done]. set_solver.
Qed.

Lemma existsb_false {A} (p : A -> bool) l : existsb p l = false <-> Forall (fun x => p x = false) l.
Proof.
  induction l as [|x l IH]; cbn; [by split; [constructor|]|].
  rewrite orb_false_iff, Forall_cons, IH. done.
Qed.

Lemma chars_any_control_false s :
  chars_any_control s = false -> str_any is_ascii_control s = false.
Proof.
  induction s as [|a s IH]; cbn; [done|].
  intros [[H1 _]%orb_false_iff H2]%orb_false_iff. by rewrite H1, IH.
Qed.

Lemma str_any_impl p q s :
  (forall c, q c = true -> p c = true) -> str_any p s = false -> str_any q s = false.
Proof.
  rewrite !str_any_false. intros H Hp c Hc. specialize (Hp c Hc).
  destruct (q c) eqn:E; [|done]. rewrite H in Hp; done.
Qed.

(** What [validate_ref_name] established about a name it accepted. *)
Lemma validate_ref_name_ok name :
  validate_ref_name name = Ok tt ->
  name <> "" /\ (str_len name <= MAX_REF_LEN)%N /\ name <> "HEAD" /\
  starts_with "-" name = false /\ contains ".." name = false /\
  str_any is_ascii_control name = false /\ str_any ref_char_forbidden name = false /\
  Forall (fun part => part <> "" /\ starts_with "." part = false /\ ends_with ".lock" part = false)
    (split_on "/" name).
Proof.
  unfold validate_ref_name. intros H. inv_ok H. breflect.
  split_and!; try done; [by apply chars_any_control_false|].
  match goal with Hx : existsb _ _ = false |- _ => apply existsb_false in Hx; eapply Forall_impl; [exact Hx|] end.
  cbn beta. intros part Hp. breflect. done.
Qed.

Lemma validate_ref_name_git_rev name :
  validate_ref_name name = Ok tt -> validate_git_rev name = Ok tt.
Proof.
  intros (H1 & H2 & _ & H4 & H5 & H6 & H7 & _)%validate_ref_name_ok.
  unfold validate_git_rev. rewrite bool_decide_eq_false_2 by done.
  replace (MAX_REF_LEN <? str_len name)%N with false by (symmetry; by apply N.ltb_ge).
  rewrite H4, H5. cbn.
  assert (contains_char "000" name = false) as ->.
  { revert H6. apply str_any_impl. intros c <-%Ascii.eqb_eq. done. }
  assert (contains_char "\" name = false) as ->.
  { revert H7. apply str_any_impl. intros c <-%Ascii.eqb_eq. done. }
  done.
Qed.

Lemma validate_object_id_git_rev id :
  validate_object_id id = Ok tt -> validate_git_rev id = Ok tt.
Proof.
  unfold validate_object_id. intros H. inv_ok H. breflect.
  assert (forall c, c ∈ String.list_ascii_of_string id -> is_lower_hex c = true) as Hhex.
  { by apply str_all_true. }
  assert (str_len id = 40 \/ str_len id = 64)%N as Hlen by (destruct E; breflect; auto).
  assert (forall c, is_lower_hex c = false -> contains_char c id = false) as Hno.
  { intros c Hc. apply contains_char_false. intros Hin%Hhex. congruence. }
  unfold validate_git_rev. rewrite bool_decide_eq_false_2 by (intros ->; destruct Hlen; done).
  replace (MAX_REF_LEN <? str_len id)%N with false
    by (symmetry; apply N.ltb_ge; destruct Hlen as [-> | ->]; done).
  assert (starts_with "-" id = false) as ->.
  { apply not_true_iff_false. intros H0%starts_with_in%Hhex. done. }
  assert (contains ".." id = false) as ->.
  { apply not_true_iff_false. intros H0%contains_in%Hhex. done. }
  by rewrite !Hno by done.
Qed.

Lemma dot_names_start_with_dot part :
  starts_with "." part = false -> part <> "." /\ part <> "..".
Proof. intros H. split; intros ->; done. Qed.

Lemma starts_with_slash p first rest :
  split_on "/" p = first :: rest -> p <> "" -> starts_with "/" p = false -> first <> "".
Proof.
  destruct p as [|a p]; cbn [split_on]; [done|]. intros Hs _ Hp.
  destruct (Ascii.eqb_spec a "/") as [->|].
  - exfalso. cut (starts_with "/" (String "/" p) = true); [congruence|].
    apply starts_with_true. by exists p.
  - destruct (split_on "/" p); simplify_eq; done.
Qed.

(** A path that [validate_relative_path] accepts has only plain components. *)
Lemma validate_relative_path_components p :
  validate_relative_path p = Ok tt ->
  components p = omap body_component (split_on "/" p) /\
  components p <> [] /\
  Forall (fun c => exists n, c = Normal n /\ n <> "" /\ eq_ignore_ascii_case n ".git" = false)
    (components p) /\
  Forall (fun seg => seg <> "..") (split_on "/" p) /\
  contains_char "000" p = false.
Proof.
  unfold validate_relative_path. intros H. inv_ok H. breflect.
  apply collect_ok in E1. unfold components in *.
  destruct (split_on "/" p) as [|first rest] eqn:Es; [by apply split_on_nonempty in Es|].
  pose proof (starts_with_slash _ _ _ Es E E0) as Hfirst. rewrite E0 in *.
  destruct (decide (first = ".")) as [->|Hdot].
  { rewrite bool_decide_eq_true_2 in E1 by done. cbn in E1. by inversion E1. }
  rewrite bool_decide_eq_false_2 in * by done.
  assert (body_component first <> None) as Hbody.
  { unfold body_component. rewrite !bool_decide_eq_false_2 by done. cbn. by case_bool_decide. }
  assert (option_list (body_component first) ++ omap body_component rest
          = omap body_component (first :: rest)) as Heq.
  { cbn. by destruct (body_component first). }
  rewrite Heq in *.
  assert (Forall (fun c => exists n, c = Normal n /\ n <> "" /\ eq_ignore_ascii_case n ".git" = false)
            (omap body_component (first :: rest))) as Hall.
  { apply Forall_forall. intros c Hc. pose proof Hc as Hc'.
    apply list_elem_of_omap in Hc' as (seg & _ & Hseg).
    apply list_elem_of_lookup in Hc as [i Hi].
    destruct (Forall2_lookup_l _ _ _ _ _ E1 Hi) as (u & _ & Hu).
    unfold body_component in Hseg. destruct (_ || _) eqn:Eo; [done|]. breflect.
    case_bool_decide; simplify_eq. cbn in Hu.
    exists seg. destruct (eq_ignore_ascii_case seg ".git"); done. }
  split_and!; try done.
  - cbn. by destruct (body_component first).
  - apply Forall_forall. intros seg Hseg ->.
    rewrite Forall_forall in Hall. destruct (Hall ParentDir) as (n & ? & _); [|done].
    apply list_elem_of_omap. exists "..". split; [done|]. reflexivity.
Qed.

Lemma validate_relative_path_resolve p root :
  validate_relative_path p = Ok tt ->
  resolve root (split_on "/" p) = root ++ omap normal_name (components p).
Proof.
  intros (-> & _ & _ & H & _)%validate_relative_path_components. by apply resolve_body.
Qed.

(** ** Properties *)

(** A branch or tag name the server or the CLI accepts names a file below
    [refs/heads] or [refs/tags] and nothing else: walking its segments from any
    directory descends one plain segment at a time (none empty, starting with a
    dot or ending in [.lock]), it holds no control byte or forbidden character,
    it is not the pseudo-ref [HEAD], and git reads it neither as an option nor
    as a range ([validate_git_rev] accepts it). *)
Lemma ref_name_safe name :
  validate_checkout_name name = Ok tt ->
  (forall root, resolve root (split_on "/" name) = root ++ split_on "/" name) /\
  (forall part, part ∈ split_on "/" name ->
     part <> "" /\ starts_with "." part = false /\ ends_with ".lock" part = false) /\
  (forall c, c ∈ String.list_ascii_of_string name ->
     is_ascii_control c = false /\ ref_char_forbidden c = false) /\
  name <> "HEAD" /\ validate_git_rev name = Ok tt.
Proof.
  intros H. pose proof (validate_ref_name_git_rev _ H) as Hrev.
  apply validate_ref_name_ok in H as (H1 & H2 & H3 & H4 & H5 & H6 & H7 & H8).
  rewrite Forall_forall in H8. split_and!; try done.
  - intros root. apply resolve_plain, Forall_forall. intros seg Hseg.
    destruct (H8 _ Hseg) as (? & [??]%dot_names_start_with_dot & ?). done.
  - intros c Hc. rewrite str_any_false in H6, H7. auto.
Qed.

Lemma ref_name_safe_witness :
  validate_checkout_name "feature/exact-results" = Ok tt /\ "feature/exact-results" <> "HEAD".
Proof.
  split; [reflexivity|].
  exact (proj1 (proj2 (proj2 (proj2 (ref_name_safe "feature/exact-results" eq_refl))))).
Defined.

(** A build selector parses to exactly one thing. [HEAD] is the default
    branch, a full lowercase object id is that commit, anything else a checked
    ref name with that text; a name is never [HEAD] and never an object id;
    and no accepted selector reaches git as an option, a range or an unsafe
    revision. *)
Lemma selector_parse_classifies s sel :
  Selector_parse s = Ok sel ->
  validate_git_rev s = Ok tt /\
  match sel with
  | SHead => s = "HEAD"
  | SCommit sha => sha = s /\ validate_object_id s = Ok tt /\ s <> "HEAD"
  | SName name => name = s /\ validate_checkout_name s = Ok tt /\ s <> "HEAD" /\
                  is_ok (validate_object_id s) = false
  end.
Proof.
  unfold Selector_parse. intros H. case_bool_decide as Eh; [by simplify_eq|].
  destruct (is_ok (validate_object_id s)) eqn:Eo.
  { simplify_eq. apply is_ok_true in Eo as [[] Eo].
    split; [by apply validate_object_id_git_rev|done]. }
  destruct (is_ok (validate_checkout_name s)) eqn:En; simplify_eq.
  apply is_ok_true in En as [[] En]. split; [by apply validate_ref_name_git_rev|done].
Qed.

Lemma selector_parse_classifies_witness :
  Selector_parse "v1.2" = Ok (SName "v1.2") /\ validate_git_rev "v1.2" = Ok tt.
Proof.
  split; [reflexivity|].
  exact (proj1 (selector_parse_classifies "v1.2" (SName "v1.2") eq_refl)).
Defined.

(** A manifest path that passes [validate_relative_path] stays inside the
    clone and out of its repository: from any root the walk along it ends
    strictly below the root, through plain names only, none of them [..], empty,
    or [.git] in any letter case, and the path holds no NUL byte. *)
Lemma relative_path_contained p :
  validate_relative_path p = Ok tt ->
  contains_char "000" p = false /\
  forall root, exists names,
    resolve root (split_on "/" p) = root ++ names /\ names <> [] /\
    forall n, n ∈ names -> n <> "" /\ n <> ".." /\ eq_ignore_ascii_case n ".git" = false.
Proof.
  intros H. pose proof (validate_relative_path_components _ H) as (Hc & Hne & Hall & Hdd & Hnul).
  split; [done|]. intros root. exists (omap normal_name (components p)).
  split; [by apply validate_relative_path_resolve|].
  rewrite Forall_forall in Hall. split.
  - destruct (components p) as [|c cs]; [done|].
    destruct (Hall c) as (n & -> & _); [set_solver|]. done.
  - intros n (c & Hc' & Hn)%list_elem_of_omap.
    destruct (Hall _ Hc') as (m & -> & Hm & Hg). cbn in Hn. simplify_eq.
    split_and!; try done. intros ->.
    rewrite Hc in Hc'. apply list_elem_of_omap in Hc' as (seg & Hs & Hb).
    unfold body_component in Hb. destruct (_ || _); [done|].
    case_bool_decide; simplify_eq.
Qed.

Lemma relative_path_contained_witness :
  validate_relative_path "src//foo/./bar.txt" = Ok tt /\ contains_char "000" "src//foo/./bar.txt" = false.
Proof.
  split; [reflexivity|]. exact (proj1 (relative_path_contained "src//foo/./bar.txt" eq_refl)).
Defined.

(** What a step may do to the tree: entries that were there stay as they are, and
    what is new is a directory strictly below [root]. *)
Definition only_dirs_below (root : list string) (fs fs' : FsTree) : Prop :=
  fs ⊆ fs' /\ forall p, fs !! p <> fs' !! p -> fs' !! p = Some Dir /\ exists names, names <> [] /\ p = root ++ names.

Lemma only_dirs_refl root fs : only_dirs_below root fs fs.
Proof. split; [done|]. intros p []. done. Qed.
Lemma only_dirs_trans root fs1 fs2 fs3 :
  only_dirs_below root fs1 fs2 -> only_dirs_below root fs2 fs3 -> only_dirs_below root fs1 fs3.
Proof.
  intros [Hs1 Hn1] [Hs2 Hn2]. split; [by etrans|]. intros p Hp.
  destruct (decide (fs2 !! p = fs3 !! p)) as [Heq|Hne]; [|by apply Hn2].
  rewrite <- Heq in *. by apply Hn1.
Qed.
Lemma only_dirs_deeper root names fs fs' : only_dirs_below (root ++ names) fs fs' -> only_dirs_below root fs fs'.
Proof.
  intros [Hs Hn]. split; [done|]. intros p Hp. destruct (Hn p Hp) as (Hd & more & Hmore & ->).
  split; [done|]. exists (names ++ more). split; [by destruct names|by rewrite app_assoc].
Qed.

Lemma create_component_spec root name fs fs' r :
  create_component (root ++ [name]) fs = (fs', r) ->
  only_dirs_below root fs fs' /\ (is_ok r = true -> fs' !! (root ++ [name]) = Some Dir).
Proof.
  intros H. unfold create_component, sbind, get_fs, create_dir in H.
  destruct (is_symlink fs _) eqn:Esym; [injection H as <- <-; split; [apply only_dirs_refl|done]|].
  destruct (fs !! (root ++ [name])) as [n|] eqn:En.
  - rewrite Esym in H. case_bool_decide; injection H as <- <-; (split; [apply only_dirs_refl|done]).
  - destruct (fs !! removelast _) as [[]|]; injection H as <- <-; try (split; [apply only_dirs_refl|done]).
    split; [|by rewrite lookup_insert_eq]. split; [by apply insert_subseteq|]. intros p Hp.
    destruct (decide (p = root ++ [name])) as [->|Hne]; [|by rewrite lookup_insert_ne in Hp].
    rewrite lookup_insert_eq. split; [done|]. by exists [name].
Qed.

Lemma create_components_spec comps fs cur fs' r :
  Forall (fun c => exists n, c = Normal n) comps ->
  create_components cur comps fs = (fs', r) ->
  only_dirs_below cur fs fs' /\
  (is_ok r = true -> forall k, 0 < k <= length comps ->
     fs' !! (cur ++ take k (omap normal_name comps)) = Some Dir).
Proof.
  intros Hn. revert fs cur fs'. induction Hn as [|c comps [n ->] _ IH]; intros fs cur fs' H; cbn in H.
  { injection H as <- <-. split; [apply only_dirs_refl|]. intros _ k Hk. cbn in Hk. lia. }
  unfold sbind in H. destruct (create_component (cur ++ [n]) fs) as [fs1 r1] eqn:E1.
  apply create_component_spec in E1 as [Hd1 Hok1]. destruct r1 as [[]|e]; [|injection H as <- <-; by split].
  destruct (IH _ _ _ H) as (Hd2 & Hok2). specialize (Hok1 eq_refl). split.
  { eapply only_dirs_trans; [exact Hd1|]. by eapply only_dirs_deeper. }
  intros Hr [|[|k]] Hlt; [lia| |]; cbn in Hlt |- *.
  - rewrite take_0. eapply lookup_weaken; [exact Hok1|apply Hd2].
  - specialize (Hok2 Hr (S k)). rewrite <- app_assoc in Hok2. apply Hok2. lia.
Qed.

(** [safe_create_dir_all] only adds directories strictly below the root,
    even when it fails: every entry that existed stays as it was. When it succeeds,
    every prefix of the path below the root is a real directory, so no symbolic
    link is ever stepped through. *)
Lemma safe_create_dir_all_contained fs root rel fs' r :
  safe_create_dir_all root rel fs = (fs', r) ->
  (fs ⊆ fs' /\ forall p, fs !! p <> fs' !! p -> fs' !! p = Some Dir /\ exists ns, ns <> [] /\ p = root ++ ns) /\
  (is_ok r = true ->
   let names := omap normal_name (components rel) in
   resolve root (split_on "/" rel) = root ++ names /\ names <> [] /\
   forall k, 0 < k <= length names -> fs' !! (root ++ take k names) = Some Dir).
Proof.
  unfold safe_create_dir_all, sbind, lift. intros H.
  destruct (validate_relative_path rel) as [[]|e] eqn:E; [|injection H as <- <-; split; [apply (only_dirs_refl root)|done]].
  pose proof (validate_relative_path_components _ E) as (_ & Hne & Hall & _).
  assert (Forall (fun c => exists n, c = Normal n) (components rel)) as Hn.
  { eapply Forall_impl; [exact Hall|]. naive_solver. }
  destruct (create_components_spec _ _ _ _ _ Hn H) as (Hd & Hk). split; [done|]. intros Hr.
  assert (length (omap normal_name (components rel)) = length (components rel)) as Hlen.
  { clear - Hn. induction Hn as [|c l [n ->] _ IH]; cbn; [done|]. by f_equal. }
  split_and!.
  - by apply validate_relative_path_resolve.
  - intros E0. rewrite E0 in Hlen. by destruct (components rel).
  - cbn zeta. rewrite Hlen. by apply Hk.
Qed.

Lemma safe_create_dir_all_contained_witness :
  exists fs', safe_create_dir_all [] "a/b" {[ [] := Dir ]} = (fs', Ok tt) /\ fs' !! ["a"; "b"]%string = Some Dir.
Proof.
  exists (safe_create_dir_all [] "a/b" {[ [] := Dir ]}).1. split; [by vm_compute|].
  assert (H : safe_create_dir_all [] "a/b" {[ [] := Dir ]}
            = ((safe_create_dir_all [] "a/b" {[ [] := Dir ]}).1, Ok tt)) by by vm_compute.
  refine (proj2 (proj2 (proj2 (safe_create_dir_all_contained _ [] "a/b" _ _ H) eq_refl)) 2 _).
  vm_compute. lia.
Defined.
