(* ===== verification/Paths.v ===== *)
(** Relative paths as names, and making directories in a tree that holds nothing
    but directories: lemmas on [rust/src/fsutil.rs] that extraction relies on. *)

From S2P Require Import Prelude Validation.

(** ** Names *)

(** A checked path's component. *)
Record good_name (n : string) : Prop := {
  gn_nonempty : n <> "";
  gn_dot : n <> ".";
  gn_dotdot : n <> "..";
  gn_git : eq_ignore_ascii_case n ".git" = false;
  gn_slash : contains_char "/" n = false;
  gn_nul : contains_char "000" n = false;
}.
Definition path_names (p : string) : list string := omap normal_name (components p).

Lemma split_on_free c s : Forall (fun seg => contains_char c seg = false) (split_on c s).
Proof.
  induction s as [|a s IH]; cbn [split_on]; [by repeat constructor|].
  destruct (Ascii.eqb_spec a c) as [->|Hne]; [by constructor|].
  destruct (split_on c s) as [|h t]; inversion IH; subst; constructor; try done; unfold contains_char; cbn;
    rewrite (proj2 (Ascii.eqb_neq c a)) by congruence; done.
Qed.
Lemma split_on_sub c d s : contains_char d s = false -> Forall (fun seg => contains_char d seg = false) (split_on c s).
Proof.
  induction s as [|a s IH]; cbn [split_on]; [by repeat constructor|]. unfold contains_char at 1. cbn [str_any].
  intros [Ha Hs]%orb_false_iff. specialize (IH Hs). destruct (Ascii.eqb a c); [by constructor|].
  destruct (split_on c s) as [|h t]; inversion IH; subst; constructor; try done; unfold contains_char; cbn; by rewrite Ha.
Qed.
Lemma split_on_plain c s : contains_char c s = false -> split_on c s = [s].
Proof.
  induction s as [|a s IH]; cbn [split_on]; [done|]. unfold contains_char at 1. cbn [str_any].
  intros [Ha Hs]%orb_false_iff. rewrite (proj2 (Ascii.eqb_neq a c)); [by rewrite IH|].
  apply Ascii.eqb_neq in Ha. congruence.
Qed.
Lemma split_on_app c s t : contains_char c s = false -> split_on c (s +:+ String c t) = s :: split_on c t.
Proof.
  induction s as [|a s IH]; [cbn; by rewrite Ascii.eqb_refl|]. unfold contains_char at 1. cbn [str_any String.append split_on].
  intros [Ha Hs]%orb_false_iff. rewrite (proj2 (Ascii.eqb_neq a c)); [by rewrite IH|].
  apply Ascii.eqb_neq in Ha. congruence.
Qed.
Lemma split_join c l :
  l <> [] -> Forall (fun s => contains_char c s = false) l -> split_on c (join_with c l) = l.
Proof.
  intros Hne Hl. induction Hl as [|s l Hs Hl IH]; [done|]. cbn [join_with]. destruct l as [|s' l].
  - by apply split_on_plain.
  - rewrite split_on_app by done. by rewrite IH.
Qed.

Lemma names_good p : validate_relative_path p = Ok tt -> path_names p <> [] /\ Forall good_name (path_names p) /\
  components p = map Normal (path_names p).
Proof.
  intros H. pose proof (validate_relative_path_components _ H) as (Hc & Hne & Hall & _ & Hnul). unfold path_names.
  assert (Hmap : components p = map Normal (omap normal_name (components p))).
  { clear -Hall. induction Hall as [|c l (n & -> & _) _ IH]; cbn; [done|]. by f_equal. }
  split_and!; [by intros E; rewrite E in Hmap| |done].
  apply Forall_forall. intros n (c & Hin & Hn)%list_elem_of_omap. rewrite Forall_forall in Hall.
  destruct (Hall c Hin) as (n' & -> & Hn1 & Hn2). cbn in Hn. injection Hn as ->.
  rewrite Hc in Hin. apply list_elem_of_omap in Hin as (seg & Hseg & Hb). unfold body_component in Hb.
  destruct (_ || _) eqn:E; [done|]. breflect. case_bool_decide; [done|]. injection Hb as ->.
  pose proof (split_on_free "/" p) as Hf. pose proof (split_on_sub "/" "000" p Hnul) as Hf'.
  rewrite Forall_forall in Hf, Hf'. constructor; auto.
Qed.

Lemma str_any_join p c l : p c = false -> Forall (fun s => str_any p s = false) l -> str_any p (join_with c l) = false.
Proof.
  intros Hc. induction 1 as [|s l Hs Hl IH]; [done|]. destruct l as [|s' l]; [done|].
  cbn [join_with] in *. rewrite str_any_app, Hs. cbn [str_any orb]. by rewrite Hc.
Qed.

(** Names joined by slashes are a path with these components. *)
Lemma join_names ns : ns <> [] -> Forall good_name ns ->
  validate_relative_path (join_with "/" ns) = Ok tt /\ path_names (join_with "/" ns) = ns.
Proof.
  intros Hne Hg.
  assert (Hsplit : split_on "/" (join_with "/" ns) = ns).
  { apply split_join; [done|]. eapply Forall_impl; [exact Hg|]. by intros n []. }
  destruct ns as [|n ns]; [done|]. apply Forall_cons in Hg as [Hn Hg]. pose proof Hn as [Hn1 Hn2 Hn3 Hn4 Hn5 Hn6].
  assert (Hbody : forall k, good_name k -> body_component k = Some (Normal k)).
  { intros k [H1 H2 H3 _ _ _]. unfold body_component. by rewrite !bool_decide_eq_false_2 by done. }
  assert (Hslash : starts_with "/" (join_with "/" (n :: ns)) = false).
  { destruct n as [|a n]; [done|]. unfold contains_char in Hn5. cbn [str_any] in Hn5. apply orb_false_iff in Hn5 as [Ha _].
    destruct ns; cbn [join_with String.append]; unfold starts_with; cbn [strip_prefix]; by rewrite Ha. }
  assert (Hc : components (join_with "/" (n :: ns)) = map Normal (n :: ns)).
  { unfold components. rewrite Hsplit, Hslash, bool_decide_eq_false_2 by done. rewrite Hbody by done. cbn. f_equal.
    clear -Hg Hbody. induction Hg as [|k l Hk _ IH]; cbn; [done|]. by rewrite Hbody, IH. }
  split.
  - unfold validate_relative_path. rewrite Hslash, Hc, bool_decide_eq_false_2.
    2:{ intros E. rewrite E in Hsplit. injection Hsplit as Hx _. congruence. }
    rewrite (collect_total _ (fun _ => tt)).
    2:{ change (map Normal (n :: ns)) with (Normal <$> (n :: ns)). apply Forall_fmap, Forall_forall.
        intros k Hk. assert (Hgk : good_name k) by (apply elem_of_cons in Hk as [->|Hk]; [done|by rewrite Forall_forall in Hg; apply Hg]).
        cbn. by rewrite (gn_git _ Hgk). }
    cbn [rbind]. assert (Hnul : contains_char "000" (join_with "/" (n :: ns)) = false); [|by rewrite Hnul].
    apply str_any_join; [done|]. constructor; [done|]. eapply Forall_impl; [exact Hg|]. by intros k [].
  - unfold path_names. rewrite Hc. clear. induction (n :: ns) as [|k l IH]; cbn; [done|]. by rewrite IH.
Qed.

(** ** Making directories where there are only directories *)

(** [root] is a directory and everything below it is one too. *)
Definition dirs_only (root : list string) (fs : FsTree) : Prop :=
  fs !! root = Some Dir /\ forall ns n, fs !! (root ++ ns) = Some n -> n = Dir.

(** What making the directories along [ns] below [root] does. *)
Definition made (root ns : list string) (fs fs' : FsTree) : Prop :=
  (forall k, k <= length ns -> fs' !! (root ++ take k ns) = Some Dir) /\
  (forall p, fs' !! p <> fs !! p -> fs !! p = None /\ fs' !! p = Some Dir /\
     exists k, 0 < k <= length ns /\ p = root ++ take k ns).

Lemma create_component_total root n fs :
  dirs_only root fs ->
  create_component (root ++ [n]) fs = (<[root ++ [n] := Dir]> fs, Ok tt).
Proof.
  intros [Hr Hd]. unfold create_component, sbind, get_fs, create_dir, is_symlink.
  destruct (fs !! (root ++ [n])) as [x|] eqn:E.
  - pose proof (Hd _ _ E) as ->. rewrite E. cbv beta iota. rewrite E, bool_decide_eq_true_2 by done. cbn. by rewrite insert_id.
  - rewrite E, removelast_last, Hr. done.
Qed.

Lemma create_components_total ns root fs :
  dirs_only root fs ->
  exists fs', create_components root (map Normal ns) fs = (fs', Ok tt) /\ made root ns fs fs'.
Proof.
  revert root fs. induction ns as [|n ns IH]; intros root fs Hd; cbn [map create_components].
  { exists fs. split; [done|]. split; [|done]. intros k Hk. cbn in *. destruct Hd as [Hr _]. by rewrite take_nil, app_nil_r. }
  unfold sbind. rewrite create_component_total by done. set (fs1 := <[root ++ [n] := Dir]> fs).
  assert (Hd1 : dirs_only (root ++ [n]) fs1).
  { split; [apply lookup_insert_eq|]. intros ns' x. rewrite <- app_assoc. unfold fs1. destruct Hd as [Hr Hd].
    destruct (decide (ns' = [])) as [->|Hne]; [cbn; rewrite lookup_insert_eq; by intros [= <-]|].
    rewrite lookup_insert_ne; [apply Hd|]. intros E%app_inv_head. destruct ns'; [done|]. by injection E. }
  destruct (IH _ _ Hd1) as (fs' & H & Hk & Hn). exists fs'. split; [done|].
  assert (Hsub : forall p x, fs1 !! p = Some x -> fs' !! p = Some x).
  { intros p x Hp. destruct (decide (fs' !! p = fs1 !! p)) as [->|Hne]; [done|]. destruct (Hn p Hne) as [Hno _]. congruence. }
  split.
  - intros [|k] Hle; [|cbn; specialize (Hk k); rewrite <- app_assoc in Hk; apply Hk; cbn in Hle; lia].
    rewrite take_0, app_nil_r. apply Hsub. unfold fs1. rewrite lookup_insert_ne; [apply Hd|].
    intros E. apply (f_equal length) in E. rewrite length_app in E. cbn in E. lia.
  - intros p Hp. destruct (decide (fs' !! p = fs1 !! p)) as [Heq|Hne].
    + rewrite Heq in *. unfold fs1 in *. destruct (decide (p = root ++ [n])) as [->|Hpn]; [|by rewrite lookup_insert_ne in Hp].
      rewrite lookup_insert_eq in *. split_and!; [|done|exists 1; cbn; rewrite take_0; split; [lia|done]].
      destruct (fs !! (root ++ [n])) as [x|] eqn:E; [|done]. by rewrite (proj2 Hd _ _ E) in Hp.
    + destruct (Hn p Hne) as (Hno & Hdir & k & Hle & ->). split_and!; [|done|].
      * unfold fs1 in Hno. by apply lookup_insert_None in Hno as [Hno _].
      * exists (S k). cbn. rewrite <- app_assoc. split; [lia|done].
Qed.

Lemma made_dirs_only root ns fs fs' : dirs_only root fs -> made root ns fs fs' -> dirs_only root fs'.
Proof.
  intros [Hr Hd] [Hk Hn]. split; [specialize (Hk 0); rewrite take_0, app_nil_r in Hk; apply Hk; lia|].
  intros ms n Hms. destruct (decide (fs' !! (root ++ ms) = fs !! (root ++ ms))) as [Heq|Hne].
  - rewrite Heq in Hms. eauto.
  - destruct (Hn _ Hne) as (_ & Hx & _). congruence.
Qed.
Lemma made_keeps root ns fs fs' p x : made root ns fs fs' -> fs !! p = Some x -> fs' !! p = Some x.
Proof.
  intros [_ Hn] Hp. destruct (decide (fs' !! p = fs !! p)) as [->|Hne]; [done|]. destruct (Hn p Hne) as [Hno _]. congruence.
Qed.

(** Every directory of a list, in any order. *)
Lemma create_all_total root dirs fs :
  dirs_only root fs -> Forall (fun d => validate_relative_path d = Ok tt) dirs ->
  exists fs', sfold (fun _ dir => safe_create_dir_all root dir) tt dirs fs = (fs', Ok tt) /\ dirs_only root fs' /\
    (forall d k, d ∈ dirs -> k <= length (path_names d) -> fs' !! (root ++ take k (path_names d)) = Some Dir) /\
    (forall p x, fs !! p = Some x -> fs' !! p = Some x) /\
    (forall p, fs' !! p <> fs !! p -> exists d k, d ∈ dirs /\ 0 < k <= length (path_names d) /\ p = root ++ take k (path_names d)).
Proof.
  intros Hd Hv. revert fs Hd. induction Hv as [|d dirs Hvd _ IH]; intros fs Hd; cbn [sfold].
  { exists fs. split_and!; try done. set_solver. }
  destruct (names_good d Hvd) as (_ & _ & Hc). destruct (create_components_total (path_names d) root fs Hd) as (fs1 & H1 & Hm1).
  unfold sbind, safe_create_dir_all, sbind, lift. rewrite Hvd, Hc, H1.
  destruct (IH fs1 (made_dirs_only _ _ _ _ Hd Hm1)) as (fs2 & H2 & Hd2 & Hk2 & Hs2 & Hn2). exists fs2.
  split_and!; [done|done| | |].
  - intros d' k [->|Hin]%elem_of_cons Hle; [apply Hs2; by apply (proj1 Hm1)|by apply Hk2].
  - intros p x Hp. apply Hs2. by eapply made_keeps.
  - intros p Hp. destruct (decide (fs2 !! p = fs1 !! p)) as [Heq|Hne].
    + rewrite Heq in Hp. destruct Hm1 as [_ Hn1]. destruct (Hn1 p Hp) as (_ & _ & k & Hle & ->). exists d, k. set_solver.
    + destruct (Hn2 p Hne) as (d' & k & Hin & Hle & ->). exists d', k. set_solver.
Qed.
