(* ===== verification/Outputs.v ===== *)
(** The stored results of a build ([rust/src/lib.rs]): their artifacts, and
    when one is structurally usable. Also the artifact id check of
    [rust/src/cas.rs]. *)

From S2P Require Import Prelude Validation.

(** [parse_repo]: [splitn(2, '/')] into two nonempty parts. *)
Definition parse_repo (repo : string) : Result (string * string) :=
  match split_once "/" repo with
  | Some (owner, name) =>
      if bool_decide (owner = "") || bool_decide (name = "")
      then Err "repo must be owner/name" else Ok (owner, name)
  | None => Err "repo must be owner/name"
  end.

Record PackArtifact := { pa_pack : string; pa_idx : string }.
Record SizedPack := { sp_pack : string; sp_pack_len : N; sp_idx : string; sp_idx_len : N }.
Record HistoryLevel := { hl_tip_commit : string; hl_packs : list SizedPack }.
Record ArchiveFrame := {
  af_raw_hash : string; af_chunk_hash : string; af_compressed_len : N; af_raw_len : N }.
Record ClonepackArtifacts := {
  ca_manifest : string;
  ca_metadata_chunk : string;
  ca_metadata_delta : string;
  ca_midx : string;
  ca_idx_bundle : string;
  ca_commit : string;
}.
Record HeadResult := {
  hr_clonepack : ClonepackArtifacts;
  hr_parent_commit : option string;
  hr_packs : list PackArtifact;
  hr_base_commit : string;
  hr_base_packs : list SizedPack;
  hr_levels : list SizedPack;
}.
Record OwnHistory := { oh_base : string; oh_packs : list SizedPack; oh_head_packs : list N }.
Record HeadBase := { hb_commit : string; hb_packs : list SizedPack; hb_levels : list SizedPack }.
Record FullResult := {
  fr_clonepack : ClonepackArtifacts;
  fr_packs : list PackArtifact;
  fr_history_levels : list HistoryLevel;
  fr_head_base : option HeadBase;
  fr_own_history : option OwnHistory;
}.
(** [compact] is boxed: the packed archive a tail builds on. *)
Inductive FilesResult := mkFilesResult {
  fs_clonepack : ClonepackArtifacts;
  fs_archive_chunks : list string;
  fs_archive_frames : list ArchiveFrame;
  fs_compact : option FilesResult;
}.

#[export] Instance PackArtifact_eq_dec : EqDecision PackArtifact.
Proof. solve_decision. Defined.
#[export] Instance SizedPack_eq_dec : EqDecision SizedPack.
Proof. solve_decision. Defined.
#[export] Instance ClonepackArtifacts_eq_dec : EqDecision ClonepackArtifacts.
Proof. solve_decision. Defined.
#[export] Instance HeadResult_eq_dec : EqDecision HeadResult.
Proof. solve_decision. Defined.

(** ** Artifacts *)
Abbreviation Hashes := (gset string).

Definition ClonepackArtifacts_artifacts (a : ClonepackArtifacts) : list string :=
  [ca_manifest a; ca_metadata_chunk a; ca_metadata_delta a; ca_midx a; ca_idx_bundle a].

Definition sized_artifacts (packs : list SizedPack) : list string :=
  flat_map (fun p => [sp_pack p; sp_idx p]) packs.
Definition pack_artifacts (packs : list PackArtifact) : list string :=
  flat_map (fun p => [pa_pack p; pa_idx p]) packs.

(** The hashes, each once, no empty ones. *)
Definition named (hashes : list string) : Hashes :=
  list_to_set (filter (fun h => h <> "") hashes).

Definition HeadResult_artifacts (r : HeadResult) : Hashes :=
  named (ClonepackArtifacts_artifacts (hr_clonepack r) ++ pack_artifacts (hr_packs r)
         ++ sized_artifacts (hr_base_packs r) ++ sized_artifacts (hr_levels r)).

Definition FullResult_artifacts (r : FullResult) : Hashes :=
  let head_base :=
    match fr_head_base r with
    | Some base => sized_artifacts (hb_packs base) ++ sized_artifacts (hb_levels base)
    | None => []
    end in
  named (ClonepackArtifacts_artifacts (fr_clonepack r) ++ pack_artifacts (fr_packs r)
         ++ flat_map (fun level => sized_artifacts (hl_packs level)) (fr_history_levels r)
         ++ head_base
         ++ match fr_own_history r with Some own => sized_artifacts (oh_packs own) | None => [] end).

Fixpoint FilesResult_artifacts (r : FilesResult) : Hashes :=
  named (ClonepackArtifacts_artifacts (fs_clonepack r) ++ fs_archive_chunks r
         ++ map af_chunk_hash (fs_archive_frames r))
  ∪ match fs_compact r with Some compact => FilesResult_artifacts compact | None => ∅ end.

#[global] Arguments HeadResult_artifacts : simpl never.
#[global] Arguments FullResult_artifacts : simpl never.
#[global] Arguments FilesResult_artifacts : simpl never.

(** ** Readiness *)
Inductive ExactResultKind := Head | Full | Files.
#[export] Instance ExactResultKind_eq_dec : EqDecision ExactResultKind.
Proof. solve_decision. Defined.
Definition kind_eqb (a b : ExactResultKind) : bool :=
  match a, b with
  | Head, Head | Full, Full | Files, Files => true
  | _, _ => false
  end.
Lemma kind_eqb_spec a b : reflect (a = b) (kind_eqb a b).
Proof. destruct a, b; constructor; done. Qed.
#[export] Instance ExactResultKind_countable : Countable ExactResultKind.
Proof.
  refine (inj_countable' (fun k => match k with Head => 0 | Full => 1 | Files => 2 end)
    (fun n => match n with 0 => Head | 1 => Full | _ => Files end) _).
  by intros [].
Defined.

Definition ExactResultKind_fmt (k : ExactResultKind) : string :=
  match k with Head => "head" | Full => "full" | Files => "files" end.

Definition validate_lowercase_hex (hash : string) : Result unit :=
  bail_if! negb (str_all is_lower_hex hash) with "string must be lowercase hex"; Ok tt.

Definition validate_artifact_id (hash : string) : Result unit :=
  bail_if! negb (str_len hash =? 64)%N with "artifact id must be 64 hex characters";
  validate_lowercase_hex hash.

Definition exact_output_artifacts_ready (commit : string) (result : ExactResultKind)
    (artifacts : ClonepackArtifacts) : bool :=
  let valid_hash hash := is_ok (validate_artifact_id hash) in
  if negb (bool_decide (ca_commit artifacts = commit))
     || negb (valid_hash (ca_manifest artifacts))
     || negb (valid_hash (ca_metadata_chunk artifacts))
     || negb (bool_decide (ca_metadata_delta artifacts = "") || valid_hash (ca_metadata_delta artifacts))
  then false
  else negb (kind_eqb result Head) || valid_hash (ca_idx_bundle artifacts).

Record RefInfo := {
  ri_commit : string;
  ri_head : option HeadResult;
  ri_full : option FullResult;
  ri_files : option FilesResult;
}.

Definition exact_output_ready (info : RefInfo) (result : ExactResultKind) (commit : string) : bool :=
  if negb (bool_decide (ri_commit info = commit)) then false
  else
    let artifacts :=
      match result with
      | Head => hr_clonepack <$> ri_head info
      | Full => fr_clonepack <$> ri_full info
      | Files => fs_clonepack <$> ri_files info
      end in
    match artifacts with
    | Some artifacts => exact_output_artifacts_ready commit result artifacts
    | None => false
    end.

(** ** Lemmas *)
Lemma elem_of_named h l : h ∈ named l <-> h ∈ l /\ h <> "".
Proof. unfold named. rewrite elem_of_list_to_set, list_elem_of_filter. tauto. Qed.

Lemma artifact_id_nonempty h : validate_artifact_id h = Ok tt -> h <> "".
Proof. intros H ->. done. Qed.

(** A ready output's manifest and files table are artifacts storage can hold. *)
Lemma ready_hashes commit k a :
  exact_output_artifacts_ready commit k a = true ->
  ca_commit a = commit /\
  validate_artifact_id (ca_manifest a) = Ok tt /\ validate_artifact_id (ca_metadata_chunk a) = Ok tt /\
  (ca_metadata_delta a = "" \/ validate_artifact_id (ca_metadata_delta a) = Ok tt) /\
  (k = Head -> validate_artifact_id (ca_idx_bundle a) = Ok tt).
Proof.
  assert (forall h, is_ok (validate_artifact_id h) = true -> validate_artifact_id h = Ok tt) as Hv.
  { intros h ([] & ->)%is_ok_true. done. }
  unfold exact_output_artifacts_ready. destruct (_ || _) eqn:E; [done|]. intros H. breflect.
  split_and!; auto.
  - repeat match goal with H : _ \/ _ |- _ => destruct H end; breflect; auto.
  - intros ->. cbn in *. repeat match goal with H : _ \/ _ |- _ => destruct H end; breflect; auto; done.
Qed.
