(* ===== verification/Cas.v ===== *)
(** The content-addressed store ([rust/src/cas.rs]): its objects' files, what a
    crash leaves of them, and its writers at work at once.

    An object lives at a path its id gives, so a disk is the objects by id and the
    fan-out directories. Every operation is a program of the calls it makes of the
    operating system, one after the other. Alone it is a function on the store
    ([run_alone]); together with others their calls interleave ([machine_step]), and a
    crash may come after any of them. What a crash keeps is what was synced: of a
    path it keeps one of the entries the path had since its directory was last
    synced, of a file that was not synced any bytes, and a directory whose own entry
    was not synced may go with all it holds. Temporary files are outside the
    store. *)

From S2P Require Import Prelude Bytes Validation Outputs.

(** ** Disks *)
Record File := { f_bytes : bytes; f_synced : bool }.
#[export] Instance File_eq_dec : EqDecision File.
Proof. solve_decision. Defined.
(** A path's entries, the newest first, down to the one its directory's last sync
    found; [None] is no entry. *)
Definition Entry : Type := list (option File).
Record Disk := {
  d_dirs : gmap string bool;  (* whether the directory's own entry was synced *)
  d_objects : gmap string Entry;
}.
Definition entry (d : Disk) (hash : string) : Entry := default [None] (d_objects d !! hash).
Definition at_path (d : Disk) (hash : string) : option File := match entry d hash with v :: _ => v | [] => None end.
Definition parent (hash : string) : string := String.substring 0 2 hash.

(** [create_dir_all]: a directory already there stays as it is. *)
Definition mkdir (dir : string) (d : Disk) : Disk :=
  {| d_dirs := match d_dirs d !! dir with Some _ => d_dirs d | None => <[dir := false]> (d_dirs d) end; d_objects := d_objects d |}.
Definition sync_root (d : Disk) : Disk := {| d_dirs := (fun _ => true) <$> d_dirs d; d_objects := d_objects d |}.
Definition set_entry (hash : string) (v : option File) (d : Disk) : Disk :=
  {| d_dirs := d_dirs d; d_objects := <[hash := v :: entry d hash]> (d_objects d) |}.
Definition sync_entries (dir : string) (d : Disk) : Disk :=
  {| d_dirs := d_dirs d;
     d_objects := map_imap (fun hash e => Some (if bool_decide (parent hash = dir) then take 1 e else e)) (d_objects d) |}.

(** What a crash may leave. *)
Definition kept_file (f : File) (v : option File) : Prop :=
  exists f', v = Some f' /\ f_synced f' = true /\ (f_synced f = true -> f_bytes f' = f_bytes f).
Definition kept (e : Entry) (v : option File) : Prop := (None ∈ e /\ v = None) \/ exists f, Some f ∈ e /\ kept_file f v.
Definition crash (d d' : Disk) : Prop :=
  (forall dir, d_dirs d !! dir = Some true -> d_dirs d' !! dir = Some true) /\
  (forall dir s, d_dirs d' !! dir = Some s -> s = true /\ is_Some (d_dirs d !! dir)) /\
  (forall hash, exists v, entry d' hash = [v] /\
     (kept (entry d hash) v /\ d_dirs d' !! parent hash = Some true \/ v = None /\ d_dirs d' !! parent hash = None)).

(** ** Programs

    The calls that change the disk, and a program of calls: a look at the disk, a
    change of it, an artifact pinned, and [on_store] called. *)
Inductive OsCall := Mkdir (dir : string) | SyncRoot | SetEntry (hash : string) (v : option File) | SyncEntries (dir : string).
Definition effect (c : OsCall) (d : Disk) : Disk :=
  match c with
  | Mkdir dir => mkdir dir d
  | SyncRoot => sync_root d
  | SetEntry hash v => set_entry hash v d
  | SyncEntries dir => sync_entries dir d
  end.
Inductive Prog (A : Type) : Type :=
  | PDone (r : Result A)
  | PLook (k : Disk -> Prog A)
  | PChange (c : OsCall) (k : Prog A)
  | PPin (hash : string) (k : Prog A)
  | PStored (hash : string) (k : Prog A).
#[global] Arguments PDone {A} _.
#[global] Arguments PLook {A} _.
#[global] Arguments PChange {A} _ _.
#[global] Arguments PPin {A} _ _.
#[global] Arguments PStored {A} _ _.
Fixpoint pbind {A B} (m : Prog A) (k : A -> Prog B) : Prog B :=
  match m with
  | PDone (Ok x) => k x
  | PDone (Err e) => PDone (Err e)
  | PLook m => PLook (fun d => pbind (m d) k)
  | PChange c m => PChange c (pbind m k)
  | PPin hash m => PPin hash (pbind m k)
  | PStored hash m => PStored hash (pbind m k)
  end.
Notation "'let%' x := e 'in' k" := (pbind e (fun x => k))
  (at level 10, x pattern, e at level 200, k at level 200) : rust_scope.
Definition pret {A} (x : A) : Prog A := PDone (Ok x).
Definition os (c : OsCall) : Prog unit := PChange c (pret tt).
Definition look {A} (f : Disk -> Result A) : Prog A := PLook (fun d => PDone (f d)).

(** A store at work alone: its disk, what was pinned, and what [on_store] was
    called with. *)
Record Run := { ru_disk : Disk; ru_pinned : gset string; ru_stored : list string }.
Fixpoint run_alone {A} (m : Prog A) : Stateful Run A := fun w =>
  match m with
  | PDone r => (w, r)
  | PLook k => run_alone (k (ru_disk w)) w
  | PChange c k => run_alone k {| ru_disk := effect c (ru_disk w); ru_pinned := ru_pinned w; ru_stored := ru_stored w |}
  | PPin hash k => run_alone k {| ru_disk := ru_disk w; ru_pinned := {[hash]} ∪ ru_pinned w; ru_stored := ru_stored w |}
  | PStored hash k => run_alone k {| ru_disk := ru_disk w; ru_pinned := ru_pinned w; ru_stored := ru_stored w ++ [hash] |}
  end.

Record Cas := { durable : bool; has_pins : bool; has_on_store : bool }.
(** What the operating system answers a rename over an object's path. *)
Inductive Renamed := RenameOk | CrossesDevices | RenameRefused.

Section cas.
(** The digests in hex; the rename of a run. *)
Context (sha1 sha256 : bytes -> string) (rename_ : Disk -> string -> Renamed).

(** ** Ids *)
Definition validate_cas_id (hash : string) : Result unit :=
  bail_if! negb (str_len hash =? 40)%N && negb (str_len hash =? 64)%N with "object id must be 40 or 64 hex characters";
  validate_lowercase_hex hash.
(** [ObjectHasher::for_object_id], fed [data], and [finalize_hex]. *)
Definition hash_bytes_for_object_id (hash : string) (data : bytes) : Result string :=
  let? _ := validate_cas_id hash in
  Ok (if (str_len hash =? 40)%N then sha1 data else sha256 data).
(** [object_path]: the id stands for its path. *)
Definition object_path (hash : string) : Result string :=
  match validate_cas_id hash with Ok _ => Ok hash | Err e => Err ("invalid object id: " +:+ e) end.

(** ** Reading *)
Definition read_file (hash : string) (d : Disk) : Result bytes :=
  context (f_bytes <$> at_path d hash) "read CAS object".
Definition Cas_has (hash : string) (d : Disk) : bool := is_ok (object_path hash) && bool_decide (is_Some (at_path d hash)).
(** [read_fresh]. *)
Definition read_fresh (hash : string) (d : Disk) : Result bytes := let? path := object_path hash in read_file path d.
Definition Cas_get (hash : string) (d : Disk) : Result bytes :=
  let? path := object_path hash in
  let? data := read_file path d in
  let? actual := hash_bytes_for_object_id hash data in
  ensure! bool_decide (actual = hash) else "CAS object is corrupt: hash mismatch";
  Ok data.
Definition verify_object (hash : string) (d : Disk) : Result N :=
  let? path := object_path hash in
  let? data := read_file path d in
  let? actual := hash_bytes_for_object_id hash data in
  ensure! bool_decide (actual = hash) else "CAS object is corrupt: hash mismatch";
  Ok (nlen data).
Definition Cas_get_range (hash : string) (start len : N) (d : Disk) : Result bytes :=
  let? path := object_path hash in
  let? data := read_file path d in
  let file_len := nlen data in
  let? end_ := context (checked_add u64_max start len) "CAS range end overflow" in
  bail_if! (file_len <? start)%N || (file_len <? end_)%N with "range exceeds CAS object length";
  Ok (slice data start end_).
(** [copy_to_writer]: what the writer was given, and how the copy ended. *)
Definition copy_to_writer (hash : string) (verify : bool) (d : Disk) : bytes * Result N :=
  match (let? path := object_path hash in read_file path d) with
  | Err e => ([], Err e)
  | Ok data =>
      (data, if verify then
               let? actual := hash_bytes_for_object_id hash data in
               ensure! bool_decide (actual = hash) else "CAS object is corrupt: hash mismatch";
               Ok (nlen data)
             else Ok (nlen data))
  end.

(** ** Writing *)
Variable cas : Cas.
(** [Cas::pin], and the callback. *)
Definition Cas_pin (hash : string) : Prog unit := if has_pins cas then PPin hash (pret tt) else pret tt.
Definition on_store (hash : string) : Prog unit := if has_on_store cas then PStored hash (pret tt) else pret tt.
(** [sync_file]. *)
Definition sync_file (f : File) : File := {| f_bytes := f_bytes f; f_synced := f_synced f || durable cas |}.
Definition create_object_dir (hash : string) : Prog unit :=
  let% exists_ := look (fun d => Ok (bool_decide (is_Some (d_dirs d !! parent hash)))) in
  if exists_ then pret tt
  else
    let% _ := os (Mkdir (parent hash)) in
    if durable cas then os SyncRoot else pret tt.
(** [source], whose bytes are [hash], becomes the object. *)
Definition install (hash : string) (source : File) : Prog unit :=
  let% path := PDone (object_path hash) in
  let% _ := Cas_pin hash in
  let% _ := create_object_dir path in
  let% renamed := look (fun d => Ok (rename_ d path)) in
  let% _ :=
    match renamed with
    | RenameOk => os (SetEntry path (Some source))
    | CrossesDevices => os (SetEntry path (Some (sync_file {| f_bytes := f_bytes source; f_synced := false |})))
    | RenameRefused => let% _ := look (verify_object hash) in pret tt
    end in
  let% _ := if durable cas then os (SyncEntries (parent path)) else pret tt in
  on_store hash.

(** A temporary file of [data]. *)
Definition scratch (data : bytes) : File := {| f_bytes := data; f_synced := false |}.
(** [CasWriter]: its file, the bytes hashed, and their count. *)
Record CasWriter := { cw_tmp : bytes; cw_hashed : bytes; cw_len : N }.
Definition CasWriter_new : CasWriter := {| cw_tmp := []; cw_hashed := []; cw_len := 0 |}.
(** [write], when the file takes [n] bytes of [buf]. *)
Definition CasWriter_write (n : nat) (buf : bytes) (w : CasWriter) : CasWriter :=
  {| cw_tmp := cw_tmp w ++ take n buf; cw_hashed := cw_hashed w ++ take n buf; cw_len := cw_len w + nlen (take n buf) |}.
(** [write_all]: writes until [buf] is out, the file taking [1 + n] bytes the next time. *)
Fixpoint write_all (takes : list nat) (buf : bytes) (w : CasWriter) : CasWriter :=
  match takes, buf with
  | _, [] => w
  | n :: takes, _ => write_all takes (drop (S n) buf) (CasWriter_write (S n) buf w)
  | [], _ => CasWriter_write (length buf) buf w
  end.
Definition CasWriter_finish (w : CasWriter) : Prog (string * N) :=
  let hash := sha256 (cw_hashed w) in
  let% _ := install hash (sync_file (scratch (cw_tmp w))) in
  pret (hash, cw_len w).
Definition Cas_put (takes : list nat) (data : bytes) : Prog string :=
  let% (hash, _) := CasWriter_finish (write_all takes data CasWriter_new) in pret hash.
Definition put_with_hash (hash : string) (data : bytes) : Prog unit :=
  let% actual := PDone (hash_bytes_for_object_id hash data) in
  let% _ := PDone (bail_if! negb (bool_decide (actual = hash)) with "hash mismatch"; Ok tt) in
  let% path := PDone (object_path hash) in
  let% _ := Cas_pin hash in
  let% intact := look (fun d => Ok (bool_decide (is_Some (at_path d path)) && is_ok (verify_object hash d))) in
  if intact then pret tt
  else
    let% _ := create_object_dir path in
    install hash (sync_file (scratch data)).
(** [source] is a file's bytes. *)
Definition put_file_with_hash (hash : string) (source : bytes) : Prog N :=
  let% path := PDone (object_path hash) in
  let% actual := PDone (hash_bytes_for_object_id hash source) in
  let% _ := PDone (bail_if! negb (bool_decide (actual = hash)) with "CAS source file hash mismatch"; Ok tt) in
  let tmp := sync_file (scratch source) in
  let% _ := create_object_dir path in
  let% _ := install hash tmp in
  pret (nlen source).
Definition install_file (source : File) : Prog (string * N) :=
  let hash := sha256 (f_bytes source) in
  let% _ := install hash (sync_file source) in
  pret (hash, nlen (f_bytes source)).
Definition Cas_remove (hash : string) : Prog unit :=
  let% path := PDone (object_path hash) in
  os (SetEntry path None).
End cas.

(** ** Writers at once *)
Inductive CasOp :=
  | OpPut (takes : list nat) (data : bytes)
  | OpPutWithHash (hash : string) (data : bytes)
  | OpPutFile (hash : string) (source : bytes)
  | OpInstallFile (source : File)
  | OpRemove (hash : string).

(** An operation under way: what is left of it, the objects that were removed and
    those that were reported stored since it began. *)
Record Writer := { wr_prog : Prog (option string); wr_removed : gset string; wr_since : gset string }.
(** A store and the writers at work on it; the ids reported stored, that no writer
    removed since the storing began. *)
Record Machine := { mc_disk : Disk; mc_writers : gmap nat Writer; mc_ids : gset string }.
Definition step_writer (p : Prog (option string)) (w : Writer) : Writer :=
  {| wr_prog := p; wr_removed := wr_removed w; wr_since := wr_since w |}.
Definition told (removed stored : gset string) (w : Writer) : Writer :=
  {| wr_prog := wr_prog w; wr_removed := removed ∪ wr_removed w; wr_since := stored ∪ wr_since w |}.
(** What a call removes. *)
Definition removes (c : OsCall) : gset string := match c with SetEntry hash None => {[hash]} | _ => ∅ end.
(** What a writer that ends reports stored. *)
Definition reports (w : Writer) (r : Result (option string)) : gset string :=
  match r with Ok (Some hash) => {[hash]} ∖ wr_removed w | _ => ∅ end.

Section machine.
Context (sha1 sha256 : bytes -> string) (rename_ : Disk -> string -> Renamed) (cas : Cas).

(** An operation and the id it reports stored. *)
Definition run_op (op : CasOp) : Prog (option string) :=
  match op with
  | OpPut takes data => let% hash := Cas_put sha1 sha256 rename_ cas takes data in pret (Some hash)
  | OpPutWithHash hash data => let% _ := put_with_hash sha1 sha256 rename_ cas hash data in pret (Some hash)
  | OpPutFile hash source => let% _ := put_file_with_hash sha1 sha256 rename_ cas hash source in pret (Some hash)
  | OpInstallFile source => let% (hash, _) := install_file sha1 sha256 rename_ cas source in pret (Some hash)
  | OpRemove hash => let% _ := Cas_remove hash in pret None
  end.

Definition empty_machine : Machine :=
  {| mc_disk := {| d_dirs := ∅; d_objects := ∅ |}; mc_writers := ∅; mc_ids := ∅ |}.

(** Any writer makes its next call, in any order; a crash ends them all. *)
Inductive machine_step (m : Machine) : Machine -> Prop :=
  | mc_begin i op :
      mc_writers m !! i = None ->
      machine_step m {| mc_disk := mc_disk m; mc_ids := mc_ids m;
        mc_writers := <[i := {| wr_prog := run_op op; wr_removed := ∅; wr_since := ∅ |}]> (mc_writers m) |}
  | mc_look i w k :
      mc_writers m !! i = Some w -> wr_prog w = PLook k ->
      machine_step m {| mc_disk := mc_disk m; mc_ids := mc_ids m; mc_writers := <[i := step_writer (k (mc_disk m)) w]> (mc_writers m) |}
  | mc_change i w c k :
      mc_writers m !! i = Some w -> wr_prog w = PChange c k ->
      machine_step m {| mc_disk := effect c (mc_disk m); mc_ids := mc_ids m ∖ removes c;
        mc_writers := told (removes c) ∅ <$> <[i := step_writer k w]> (mc_writers m) |}
  | mc_pin i w hash k :
      mc_writers m !! i = Some w -> wr_prog w = PPin hash k ->
      machine_step m {| mc_disk := mc_disk m; mc_ids := mc_ids m; mc_writers := <[i := step_writer k w]> (mc_writers m) |}
  | mc_stored i w hash k :
      mc_writers m !! i = Some w -> wr_prog w = PStored hash k ->
      machine_step m {| mc_disk := mc_disk m; mc_ids := mc_ids m; mc_writers := <[i := step_writer k w]> (mc_writers m) |}
  | mc_end i w r :
      mc_writers m !! i = Some w -> wr_prog w = PDone r ->
      machine_step m {| mc_disk := mc_disk m; mc_ids := reports w r ∪ mc_ids m;
        mc_writers := told ∅ (reports w r) <$> delete i (mc_writers m) |}
  | mc_crash d' :
      crash (mc_disk m) d' ->
      machine_step m {| mc_disk := d'; mc_writers := ∅;
        mc_ids := filter (fun hash => is_Some (at_path d' hash)) (mc_ids m) |}.
Definition machine_reachable (m : Machine) : Prop := rtc machine_step empty_machine m.
End machine.
Definition start (d : Disk) : Run := {| ru_disk := d; ru_pinned := ∅; ru_stored := [] |}.

(** ** Lemmas *)
Section facts.
Context (sha1 sha256 : bytes -> string).
Local Abbreviation hash_of := (hash_bytes_for_object_id sha1 sha256).

Lemma object_path_ok h p : object_path h = Ok p -> p = h /\ validate_cas_id h = Ok tt.
Proof. unfold object_path. destruct (validate_cas_id h) as [[]|]; [|done]. by intros [= ->]. Qed.
Lemma valid_object_path h : validate_cas_id h = Ok tt -> object_path h = Ok h.
Proof. unfold object_path. by intros ->. Qed.
Lemma hash_of_path h data x : hash_of h data = Ok x -> object_path h = Ok h.
Proof. unfold hash_bytes_for_object_id, object_path. by destruct (validate_cas_id h). Qed.

(** *** Reading *)
Lemma Cas_get_ok h d data :
  Cas_get sha1 sha256 h d = Ok data <-> hash_of h data = Ok h /\ f_bytes <$> at_path d h = Some data.
Proof.
  unfold Cas_get, read_file. split.
  - intros H. inv_ok H. apply object_path_ok in E as [-> _]. breflect. subst.
    destruct (at_path d h); [|done]. cbn in *. by simplify_eq.
  - intros [Hh Hf]. rewrite (hash_of_path _ _ _ Hh). cbn. rewrite Hf. cbn. rewrite Hh. cbn. by rewrite bool_decide_eq_true_2.
Qed.
Lemma verify_object_get h d : verify_object sha1 sha256 h d = rmap nlen (Cas_get sha1 sha256 h d).
Proof.
  unfold verify_object, Cas_get. destruct (object_path h); [|done]. cbn. destruct (read_file _ d); [|done]. cbn.
  destruct (hash_of h _); [|done]. cbn. by case_match.
Qed.

(** *** Entries *)
Lemma elem_of_list_take {A} (x : A) n l : x ∈ take n l -> x ∈ l.
Proof. intros H. rewrite <- (take_drop n l). apply elem_of_app. by left. Qed.
Lemma at_path_set h v d h' : at_path (set_entry h v d) h' = if bool_decide (h' = h) then v else at_path d h'.
Proof.
  unfold at_path, entry, set_entry. cbn. case_bool_decide as E; [subst; by rewrite lookup_insert_eq|].
  by rewrite lookup_insert_ne.
Qed.
Lemma entry_set h v d h' : entry (set_entry h v d) h' = if bool_decide (h' = h) then v :: entry d h else entry d h'.
Proof.
  unfold entry, set_entry. cbn. case_bool_decide as E; [subst; by rewrite lookup_insert_eq|]. by rewrite lookup_insert_ne.
Qed.
Lemma entry_sync dir d h : entry (sync_entries dir d) h = if bool_decide (parent h = dir) then take 1 (entry d h) else entry d h.
Proof.
  unfold entry, sync_entries. cbn. rewrite map_lookup_imap.
  match goal with |- context [?o ≫= _] => change (d_objects d !! h) with o; destruct o end; cbn; by case_bool_decide.
Qed.
Lemma at_path_sync dir d h : at_path (sync_entries dir d) h = at_path d h.
Proof. unfold at_path. rewrite entry_sync. case_bool_decide; [|done]. by destruct (entry d h). Qed.
Lemma at_path_entry d h f : at_path d h = Some f -> Some f ∈ entry d h.
Proof. unfold at_path. destruct (entry d h); intros; subst; [done|]. apply list_elem_of_here. Qed.

(** *** Invariants

    Every entry a crash may leave is a complete synced object. *)
Definition file_ok (h : string) (f : File) : Prop := f_synced f = true /\ hash_of h (f_bytes f) = Ok h.
Definition complete (d : Disk) : Prop := forall h f, Some f ∈ entry d h -> file_ok h f.
Definition present (d : Disk) (h : string) : Prop := is_Some (at_path d h).

Lemma present_head d h : present d h -> exists f e, entry d h = Some f :: e.
Proof. unfold present, at_path. intros [f Hf]. destruct (entry d h) as [|v e]; [done|]. subst. eauto. Qed.
Lemma present_set h v d h' : present (set_entry h v d) h' <-> (h' = h /\ is_Some v) \/ (h' <> h /\ present d h').
Proof. unfold present. rewrite at_path_set. case_bool_decide; intuition congruence. Qed.
Lemma present_effect c d h : present d h -> h ∈ removes c \/ present (effect c d) h.
Proof.
  intros Hp. destruct c as [dir| |h' v|dir]; cbn [effect removes]; [by right|by right| |right; unfold present; by rewrite at_path_sync].
  destruct (decide (h = h')) as [->|Hne].
  - destruct v; [right|left; set_solver]. apply present_set. left. by eauto.
  - right. apply present_set. by right.
Qed.
Lemma dirs_effect c d dir : is_Some (d_dirs d !! dir) -> is_Some (d_dirs (effect c d) !! dir).
Proof.
  intros Hs. destruct c as [dir'| |h' v|dir']; cbn; try done.
  - destruct (d_dirs d !! dir') eqn:E; [done|]. destruct (decide (dir' = dir)) as [->|]; [by rewrite E in Hs; destruct Hs|].
    by rewrite lookup_insert_ne.
  - by rewrite lookup_fmap, fmap_is_Some.
Qed.

(** *** Programs that do no harm

    What a writer may count on while others work: directories are there, and
    objects were placed, unless they were removed since ([gone]). *)
Record Facts := { f_dirs : gset string; f_puts : gset string }.
Definition holds (gone : gset string) (d : Disk) (F : Facts) : Prop :=
  (forall dir, dir ∈ f_dirs F -> is_Some (d_dirs d !! dir)) /\ (forall h, h ∈ f_puts F -> h ∈ gone \/ present d h).
Definition no_facts : Facts := {| f_dirs := ∅; f_puts := ∅ |}.
Definition add_dir (dir : string) (F : Facts) : Facts := {| f_dirs := {[dir]} ∪ f_dirs F; f_puts := f_puts F |}.
Definition add_put (h : string) (F : Facts) : Facts := {| f_dirs := f_dirs F; f_puts := {[h]} ∪ f_puts F |}.
Definition after (c : OsCall) (F : Facts) : Facts :=
  match c with
  | Mkdir dir => add_dir dir F
  | SetEntry h (Some _) => add_put h F
  | SetEntry h None => {| f_dirs := f_dirs F; f_puts := f_puts F ∖ {[h]} |}
  | _ => F
  end.
(** A directory made is synced next, and so is an entry placed. *)
Definition call_ok {A} (c : OsCall) (F : Facts) (next : Prog A) : Prop :=
  match c with
  | Mkdir _ => exists k, next = PChange SyncRoot k
  | SetEntry h (Some f) => file_ok h f /\ parent h ∈ f_dirs F /\ exists k, next = PChange (SyncEntries (parent h)) k
  | _ => True
  end.
Fixpoint safe {A} (m : Prog A) (F : Facts) (Q : Facts -> A -> Prop) : Prop :=
  match m with
  | PDone (Ok x) => Q F x
  | PDone (Err _) => True
  | PLook k => forall gone d, holds gone d F -> exists F', holds gone d F' /\ safe (k d) F' Q
  | PChange c k => call_ok c F k /\ safe k (after c F) Q
  | PPin _ k | PStored _ k => safe k F Q
  end.

Lemma safe_bind {A B} (m : Prog A) (k : A -> Prog B) F Q R :
  safe m F Q -> (forall F' x, Q F' x -> safe (k x) F' R) -> safe (pbind m k) F R.
Proof.
  intros Hm Hk. revert F Hm. induction m as [[x|e]|f IH|c m IH|h m IH|h m IH]; intros F; cbn; auto.
  - intros H gone d Hd. destruct (H gone d Hd) as (F' & HF & Hs). exists F'. auto.
  - intros [Hc Hs]. split; [|auto]. destruct c as [dir| |h [f|]|dir]; cbn in *; try done.
    + destruct Hc as [k' ->]. by eexists.
    + destruct Hc as (Hf & Hp & k' & ->). split_and!; [done|done|]. by eexists.
Qed.
Lemma safe_done {A} (r : Result A) F Q : (forall x, r = Ok x -> Q F x) -> safe (PDone r) F Q.
Proof. destruct r; cbn; auto. Qed.
Lemma holds_effect gone c d F : holds gone d F -> holds (removes c ∪ gone) (effect c d) F.
Proof.
  intros [Hd Hp]. split; [intros dir Hin; by apply dirs_effect, Hd|]. intros h Hin.
  destruct (Hp h Hin) as [?|Hpr]; [left; set_solver|]. destruct (present_effect c d h Hpr); [left; set_solver|by right].
Qed.
Lemma holds_after gone c d F : holds gone d F -> holds (removes c ∪ gone) (effect c d) (after c F).
Proof.
  intros H. pose proof (holds_effect _ c _ _ H) as [Hd Hp]. destruct c as [dir| |h [f|]|dir]; cbn [after]; try by split.
  - split; [|done]. intros dir' [->%elem_of_singleton|?]%elem_of_union; [|by apply Hd]. cbn.
    destruct (d_dirs d !! dir) eqn:E; [by rewrite E|by rewrite lookup_insert_eq].
  - split; [done|]. intros h' [->%elem_of_singleton|?]%elem_of_union; [|by apply Hp]. right. apply present_set. by eauto.
  - split; [done|]. intros h' [? _]%elem_of_difference. by apply Hp.
Qed.

(** *** Every operation is safe *)
Variable cas : Cas.
Hypothesis Hdurable : durable cas = true.
Variable rename_ : Disk -> string -> Renamed.
Lemma pin_safe h F (Q : Facts -> unit -> Prop) : Q F tt -> safe (Cas_pin cas h) F Q.
Proof. unfold Cas_pin. by destruct (has_pins cas). Qed.
Lemma create_object_dir_safe h F : safe (create_object_dir cas h) F (fun F' _ => F' = add_dir (parent h) F).
Proof.
  unfold create_object_dir, look. cbn. intros gone d Hd. case_bool_decide as E.
  - exists (add_dir (parent h) F). split; [|done]. split; [|apply Hd].
    intros dir [->%elem_of_singleton|?]%elem_of_union; [done|by apply Hd].
  - exists F. split; [done|]. rewrite Hdurable. cbn. split; [by eexists|]. done.
Qed.
Lemma install_safe h source F : file_ok h source ->
  safe (install sha1 sha256 rename_ cas h source) F (fun F' _ => h ∈ f_puts F').
Proof.
  intros Hf. unfold install. rewrite (hash_of_path _ _ _ (proj2 Hf)). cbn [pbind].
  eapply safe_bind; [by apply (pin_safe h F (fun F' _ => F' = F))|]. intros ? _ ->.
  eapply safe_bind; [apply create_object_dir_safe|]. intros ? _ ->.
  assert (Hend : forall F' : Facts, h ∈ f_puts F' -> safe (on_store cas h) F' (fun F' _ => h ∈ f_puts F'))
    by (intros F' ?; unfold on_store; by destruct (has_on_store cas)).
  unfold look at 1. cbn [pbind safe]. intros gone d Hd. exists (add_dir (parent h) F). split; [done|]. rewrite Hdurable.
  assert (Hin : parent h ∈ f_dirs (add_dir (parent h) F)) by (cbn; set_solver).
  assert (Hput : forall f, file_ok h f -> safe (let% _ := os (SetEntry h (Some f)) in let% _ := os (SyncEntries (parent h)) in on_store cas h)
    (add_dir (parent h) F) (fun F' _ => h ∈ f_puts F')).
  { intros f Hf'. cbn. split; [split; [exact Hf'|]; split; [exact Hin|by eexists]|]. split; [done|]. apply Hend. cbn. set_solver. }
  destruct (rename_ d h).
  - by apply Hput.
  - apply Hput. split; [apply Hdurable|apply Hf].
  - unfold look. cbn [pbind safe]. intros gone' d' Hd'.
    rewrite verify_object_get. destruct (Cas_get sha1 sha256 h d') as [data|e] eqn:Eg; cbn.
    2: { by exists (add_dir (parent h) F). }
    exists (add_put h (add_dir (parent h) F)). split; [|split; [done|apply Hend; cbn; set_solver]].
    split; [apply Hd'|]. intros h' [->%elem_of_singleton|?]%elem_of_union; [|by apply Hd']. right.
    apply Cas_get_ok in Eg as [_ Hat]. unfold present. destruct (at_path d' h); [by eexists|done].
Qed.

Lemma write_all_spec takes buf w :
  write_all takes buf w = {| cw_tmp := cw_tmp w ++ buf; cw_hashed := cw_hashed w ++ buf; cw_len := cw_len w + nlen buf |}.
Proof.
  revert buf w; induction takes as [|n takes IH]; intros [|x buf] w; cbn [write_all].
  1,3: destruct w; cbn; by rewrite !app_nil_r, N.add_0_r.
  - unfold CasWriter_write. by rewrite firstn_all.
  - rewrite IH. unfold CasWriter_write. cbn [cw_tmp cw_hashed cw_len]. rewrite <- !app_assoc, take_drop. f_equal.
    unfold nlen. rewrite length_take, length_drop. lia.
Qed.

(** What a SHA-256 in hex is. *)
Hypothesis Hsha : forall b, validate_artifact_id (sha256 b) = Ok tt.
Lemma hash_of_sha256 b : hash_of (sha256 b) b = Ok (sha256 b).
Proof.
  pose proof (Hsha b) as H. unfold validate_artifact_id in H. inv_ok H. breflect.
  unfold hash_bytes_for_object_id, validate_cas_id. rewrite E. cbn. rewrite H. done.
Qed.
Lemma synced_ok h data : hash_of h data = Ok h -> file_ok h (sync_file cas (scratch data)).
Proof. intros H. split; [apply Hdurable|done]. Qed.

(** What a writer that ends well can report. *)
Definition placed (F : Facts) (x : option string) : Prop := match x with Some h => h ∈ f_puts F | None => True end.
Lemma finish_safe w F : cw_tmp w = cw_hashed w ->
  safe (CasWriter_finish sha1 sha256 rename_ cas w) F (fun F' x => x.1 ∈ f_puts F').
Proof.
  intros Hw. unfold CasWriter_finish. eapply safe_bind; [apply install_safe, synced_ok; rewrite Hw; apply hash_of_sha256|]. done.
Qed.
Lemma put_with_hash_safe h data F :
  safe (put_with_hash sha1 sha256 rename_ cas h data) F (fun F' _ => h ∈ f_puts F').
Proof.
  unfold put_with_hash. destruct (hash_of h data) as [actual|] eqn:Ea; [|done]. cbn [pbind].
  case_bool_decide as Eh; [subst actual|done]. cbn [negb pbind]. rewrite (hash_of_path _ _ _ Ea). cbn [pbind].
  eapply safe_bind; [by apply (pin_safe h F (fun F' _ => F' = F))|]. intros ? _ ->.
  unfold look. cbn [pbind safe]. intros gone d Hd. rewrite verify_object_get.
  destruct (bool_decide (is_Some (at_path d h)) && _) eqn:Ei.
  - exists (add_put h F). split; [|cbn; set_solver]. apply andb_true_iff in Ei as [Hat%bool_decide_eq_true _].
    split; [apply Hd|]. intros h' [->%elem_of_singleton|?]%elem_of_union; [by right|by apply Hd].
  - exists F. split; [done|]. eapply safe_bind; [apply create_object_dir_safe|]. intros ? _ ->.
    by apply install_safe, synced_ok.
Qed.
Lemma put_file_safe h source F :
  safe (put_file_with_hash sha1 sha256 rename_ cas h source) F (fun F' _ => h ∈ f_puts F').
Proof.
  unfold put_file_with_hash. destruct (hash_of h source) as [actual|] eqn:Ea; [|by destruct (object_path h)].
  rewrite (hash_of_path _ _ _ Ea). cbn [pbind]. case_bool_decide as Eh; [subst actual|done]. cbn [negb pbind].
  eapply safe_bind; [apply create_object_dir_safe|]. intros ? _ ->.
  eapply safe_bind; [by apply install_safe, synced_ok|]. done.
Qed.
Lemma run_op_safe op : safe (run_op sha1 sha256 rename_ cas op) no_facts placed.
Proof.
  destruct op as [takes data|h data|h source|source|h]; cbn [run_op].
  - apply (safe_bind _ _ _ (fun F' h => h ∈ f_puts F')); [|done]. unfold Cas_put. rewrite write_all_spec.
    eapply safe_bind; [by apply finish_safe|]. by intros F' [h n] H.
  - eapply safe_bind; [apply put_with_hash_safe|]. done.
  - eapply safe_bind; [apply put_file_safe|]. done.
  - apply (safe_bind _ _ _ (fun F' x => x.1 ∈ f_puts F')); [|by intros F' [h n] H]. unfold install_file.
    eapply safe_bind; [apply install_safe; split; [cbn; by rewrite Hdurable, orb_true_r|apply hash_of_sha256]|]. done.
  - apply (safe_bind _ _ _ (fun _ _ => True)); [|done]. unfold Cas_remove. by destruct (object_path h).
Qed.

(** *** The invariant of a machine *)

(** What is not synced yet has a writer that is about to sync it, and whatever of
    that was reported stored was so since that writer began. *)
Record machine_ok (m : Machine) : Prop := {
  mo_complete : complete (mc_disk m);
  mo_ids : forall h, h ∈ mc_ids m -> present (mc_disk m) h;
  mo_present : forall h, present (mc_disk m) h -> is_Some (d_dirs (mc_disk m) !! parent h);
  mo_dirs : forall dir, d_dirs (mc_disk m) !! dir = Some false -> exists i w k,
    mc_writers m !! i = Some w /\ wr_prog w = PChange SyncRoot k /\
    forall h, h ∈ mc_ids m -> parent h = dir -> h ∈ wr_since w;
  mo_entries : forall h, present (mc_disk m) h -> None ∈ entry (mc_disk m) h -> exists i w k,
    mc_writers m !! i = Some w /\ wr_prog w = PChange (SyncEntries (parent h)) k /\ (h ∈ mc_ids m -> h ∈ wr_since w);
  mo_writers : forall i w, mc_writers m !! i = Some w -> exists F,
    holds (wr_removed w) (mc_disk m) F /\ safe (wr_prog w) F placed;
}.

Lemma empty_machine_ok : machine_ok empty_machine.
Proof.
  assert (He : forall h, ~ present {| d_dirs := ∅; d_objects := ∅ |} h)
    by (intros h [f Hf]; unfold at_path, entry in Hf; cbn in Hf; by rewrite lookup_empty in Hf).
  constructor; cbn -[present].
  - intros h f Hin. unfold entry in Hin. cbn in Hin. rewrite lookup_empty in Hin. set_solver.
  - intros h Hin. set_solver.
  - intros h Hp. by apply He in Hp.
  - intros dir Hl. by rewrite lookup_empty in Hl.
  - intros h Hp. by apply He in Hp.
  - intros i w Hl. by rewrite lookup_empty in Hl.
Qed.

(** A writer's step that leaves the disk alone. *)
Lemma quiet_ok m i w p :
  machine_ok m -> mc_writers m !! i = Some w ->
  (forall c k, wr_prog w <> PChange c k) ->
  (forall F, holds (wr_removed w) (mc_disk m) F -> safe (wr_prog w) F placed ->
     exists F', holds (wr_removed w) (mc_disk m) F' /\ safe p F' placed) ->
  machine_ok {| mc_disk := mc_disk m; mc_ids := mc_ids m; mc_writers := <[i := step_writer p w]> (mc_writers m) |}.
Proof.
  intros [Hc Hi Hpr Hd He Hw] Hl Hn Hs. constructor; cbn; try done.
  - intros dir (j & w' & k & Hj & Hp & H)%Hd. exists j, w', k. split; [|done].
    rewrite lookup_insert_ne; [done|]. intros ->. rewrite Hl in Hj. injection Hj as ->. by eapply Hn.
  - intros h H1 H2. destruct (He h H1 H2) as (j & w' & k & Hj & Hp & H). exists j, w', k. split; [|done].
    rewrite lookup_insert_ne; [done|]. intros ->. rewrite Hl in Hj. injection Hj as ->. by eapply Hn.
  - intros j w' [[<- <-]|[Hne Hj]]%lookup_insert_Some; [|by eapply Hw].
    destruct (Hw i w Hl) as (F & HF & Hsafe). cbn. by eapply Hs.
Qed.

(** A call of a writer. *)
Lemma told_lookup r s (l : gmap nat Writer) j w : (told r s <$> l) !! j = Some w <-> exists w', l !! j = Some w' /\ w = told r s w'.
Proof. rewrite lookup_fmap_Some. naive_solver. Qed.
Lemma complete_effect {A} c d F (k : Prog A) : call_ok c F k -> complete d -> complete (effect c d).
Proof.
  intros Hc Hd h g. destruct c as [dir| |h' v|dir]; cbn [effect].
  - apply Hd.
  - apply Hd.
  - rewrite entry_set. case_bool_decide; [subst|apply Hd]. intros [Hv|?]%elem_of_cons; [|by apply Hd]. subst v. apply Hc.
  - rewrite entry_sync. case_bool_decide; [intros ?%elem_of_list_take|]; by apply Hd.
Qed.
Lemma change_ok m i w c k :
  machine_ok m -> mc_writers m !! i = Some w -> wr_prog w = PChange c k ->
  machine_ok {| mc_disk := effect c (mc_disk m); mc_ids := mc_ids m ∖ removes c;
    mc_writers := told (removes c) ∅ <$> <[i := step_writer k w]> (mc_writers m) |}.
Proof.
  intros [Hc Hi Hpr Hd He Hw] Hl Hp. destruct (Hw i w Hl) as (F & HF & Hs). rewrite Hp in Hs. cbn in Hs. destruct Hs as [Hok Hs].
  assert (Hother : forall j w', j <> i -> mc_writers m !! j = Some w' ->
    (told (removes c) ∅ <$> <[i := step_writer k w]> (mc_writers m)) !! j = Some (told (removes c) ∅ w'))
    by (intros j w' Hne Hj; by rewrite lookup_fmap, lookup_insert_ne, Hj).
  assert (Hself : (told (removes c) ∅ <$> <[i := step_writer k w]> (mc_writers m)) !! i = Some (told (removes c) ∅ (step_writer k w)))
    by by rewrite lookup_fmap, lookup_insert_eq.
  constructor; cbn [mc_disk mc_ids mc_writers].
  - by eapply complete_effect.
  - intros h [Hin Hn]%elem_of_difference. destruct (present_effect c _ h (Hi h Hin)); [done|done].
  - intros h Hph. destruct (decide (present (mc_disk m) h)) as [H0|H0]; [by apply dirs_effect, Hpr|].
    destruct c as [dir| |h' v|dir]; cbn [effect] in *; [done|done| |by unfold present in *; rewrite at_path_sync in Hph].
    apply present_set in Hph as [[-> [f ->]]|[_ ?]]; [|done]. destruct Hok as (_ & Hdir & _). by apply HF.
  - intros dir Hdir.
    assert (H0 : d_dirs (mc_disk m) !! dir = Some false \/ (c = Mkdir dir /\ d_dirs (mc_disk m) !! dir = None)).
    { destruct c as [dir'| |h' v|dir']; cbn in Hdir; [|apply lookup_fmap_Some in Hdir as (? & ? & _); done|by left|by left].
      destruct (d_dirs (mc_disk m) !! dir') eqn:E; [by left|]. apply lookup_insert_Some in Hdir as [[-> _]|[_ ?]]; [by right|by left]. }
    destruct H0 as [H0|[-> H0]].
    + destruct (Hd dir H0) as (j & w' & k' & Hj & Hp' & H).
      assert (j <> i) as Hne.
      { intros ->. rewrite Hl in Hj. injection Hj as <-. rewrite Hp in Hp'. injection Hp' as -> _. cbn in Hdir.
        rewrite lookup_fmap, H0 in Hdir. done. }
      exists j, (told (removes c) ∅ w'), k'. split_and!; [by apply Hother|done|]. cbn. intros h [Hin _]%elem_of_difference Hpar. set_solver.
    + destruct Hok as [k' ->]. exists i, (told (removes (Mkdir dir)) ∅ (step_writer (PChange SyncRoot k') w)), k'.
      split_and!; [exact Hself|done|]. cbn. intros h [Hin _]%elem_of_difference Hpar.
      destruct (Hpr h (Hi h Hin)) as [s Hs']. rewrite Hpar in Hs'. congruence.
  - intros h Hph Hn.
    assert (H0 : (present (mc_disk m) h /\ None ∈ entry (mc_disk m) h /\ c <> SyncEntries (parent h)) \/
      (exists f, c = SetEntry h (Some f) /\ (h ∈ mc_ids m -> present (mc_disk m) h /\ None ∈ entry (mc_disk m) h))).
    { destruct c as [dir| |h' v|dir]; cbn [effect] in *; [by left|by left| |].
      - rewrite entry_set in Hn. case_bool_decide as E; [subst h'|].
        + apply present_set in Hph as [[_ [f ->]]|[? _]]; [|done]. right. exists f. split; [done|]. intros Hin.
          apply elem_of_cons in Hn as [?|Hn]; [done|]. split; [by apply Hi|done].
        + apply present_set in Hph as [[? _]|[_ Hph]]; [done|]. left. split_and!; done.
      - unfold present in Hph. rewrite at_path_sync in Hph. rewrite entry_sync in Hn. case_bool_decide as E.
        + destruct (present_head _ _ Hph) as (f & e & Ee). rewrite Ee in Hn. set_solver.
        + left. split_and!; [done|done|]. congruence. }
    assert (Hold : present (mc_disk m) h -> None ∈ entry (mc_disk m) h -> c <> SyncEntries (parent h) ->
      exists j w' k', (told (removes c) ∅ <$> <[i := step_writer k w]> (mc_writers m)) !! j = Some w' /\
        wr_prog w' = PChange (SyncEntries (parent h)) k' /\ (h ∈ mc_ids m ∖ removes c -> h ∈ wr_since w')).
    { intros H1 H2 H3. destruct (He h H1 H2) as (j & w' & k' & Hj & Hp' & H).
      assert (j <> i) as Hne by (intros ->; rewrite Hl in Hj; injection Hj as <-; congruence).
      exists j, (told (removes c) ∅ w'), k'. split_and!; [by apply Hother|done|]. cbn. intros [Hin _]%elem_of_difference. set_solver. }
    destruct H0 as [(H1 & H2 & H3)|(f & -> & H1)]; [by apply Hold|].
    destruct (decide (h ∈ mc_ids m)) as [Hin|Hin]; [destruct (H1 Hin); by apply Hold|].
    destruct Hok as (_ & _ & k' & ->). exists i, (told (removes (SetEntry h (Some f))) ∅ (step_writer (PChange (SyncEntries (parent h)) k') w)), k'.
    split_and!; [exact Hself|done|]. cbn. set_solver.
  - intros j w' (w0 & Hj & ->)%told_lookup. cbn.
    apply lookup_insert_Some in Hj as [[<- <-]|[Hne Hj]]; cbn.
    + exists (after c F). split; [by apply holds_after|done].
    + destruct (Hw j w0 Hj) as (F0 & HF0 & Hs0). exists F0. split; [by apply holds_effect|done].
Qed.

Lemma machine_step_ok m m' : machine_ok m -> machine_step sha1 sha256 rename_ cas m m' -> machine_ok m'.
Proof.
  intros Hm Hs. pose proof Hm as [Hc Hi Hpr Hd He Hw]. destruct Hs as [i op Hl|i w k Hl Hp|i w c k Hl Hp|i w h k Hl Hp|i w h k Hl Hp|i w r Hl Hp|d' Hcr].
  - constructor; cbn; try done.
    + intros dir (j & w & k & Hj & ?)%Hd. exists j, w, k. split; [|done]. rewrite lookup_insert_ne; [done|congruence].
    + intros h H1 H2. destruct (He h H1 H2) as (j & w & k & Hj & ?). exists j, w, k. split; [|done]. rewrite lookup_insert_ne; [done|congruence].
    + intros j w [[<- <-]|[_ Hj]]%lookup_insert_Some; [|by eapply Hw]. exists no_facts. split; [|apply run_op_safe].
      split; cbn; set_solver.
  - apply quiet_ok; [done..|by intros; rewrite Hp|]. intros F HF. rewrite Hp. cbn. intros Hs. by apply Hs.
  - by apply change_ok.
  - apply quiet_ok; [done..|by intros; rewrite Hp|]. intros F HF. rewrite Hp. eauto.
  - apply quiet_ok; [done..|by intros; rewrite Hp|]. intros F HF. rewrite Hp. eauto.
  - set (new := reports w r).
    assert (Hnew : forall h, h ∈ new -> present (mc_disk m) h).
    { intros h. unfold new, reports. destruct r as [[h'|]|]; [|set_solver..]. intros [->%elem_of_singleton Hn]%elem_of_difference.
      destruct (Hw i w Hl) as (F & [_ HF] & Hs). rewrite Hp in Hs. cbn in Hs. by destruct (HF h' Hs). }
    assert (Hkeep : forall j w', mc_writers m !! j = Some w' -> (forall r', wr_prog w' <> PDone r') ->
      (told ∅ new <$> delete i (mc_writers m)) !! j = Some (told ∅ new w')).
    { intros j w' Hj Hn. rewrite lookup_fmap, lookup_delete_ne, Hj; [done|]. intros ->. rewrite Hl in Hj. injection Hj as <-. by eapply Hn. }
    constructor; cbn; try done.
    + intros h [Hin|Hin]%elem_of_union; auto.
    + intros dir (j & w' & k & Hj & Hp' & H)%Hd. exists j, (told ∅ new w'), k. split_and!; [apply Hkeep; [done|by intros; rewrite Hp']|done|].
      cbn. set_solver.
    + intros h H1 H2. destruct (He h H1 H2) as (j & w' & k & Hj & Hp' & H). exists j, (told ∅ new w'), k.
      split_and!; [apply Hkeep; [done|by intros; rewrite Hp']|done|]. cbn. set_solver.
    + intros j w' (w0 & [_ Hj]%lookup_delete_Some & ->)%told_lookup. destruct (Hw j w0 Hj) as (F & HF & Hs).
      exists F. cbn. by rewrite (left_id_L ∅ (∪)).
  - destruct Hcr as (Hd1 & Hd2 & Hent).
    assert (Hf : forall h f, Some f ∈ entry d' h -> file_ok h f /\ d_dirs d' !! parent h = Some true /\ entry d' h = [Some f]).
    { intros h f Hin. destruct (Hent h) as (v & Hv & Hk). rewrite Hv in Hin. apply list_elem_of_singleton in Hin as <-.
      destruct Hk as [[[[_ ?]|(g & Hg & f' & [= <-] & Hsy & Hb)] Hdir]|[? _]]; [done| |done].
      destruct (Hc h g Hg) as [Hgs Hgh]. split_and!; [|done|done]. split; [done|]. by rewrite Hb. }
    constructor; cbn.
    + intros h f Hin. by apply Hf.
    + intros h [Hat _]%elem_of_filter. exact Hat.
    + intros h [f Hat]. apply at_path_entry, Hf in Hat as (_ & Hdir & _). by rewrite Hdir.
    + intros dir Hl. by apply Hd2 in Hl as [? _].
    + intros h [f Hat] Hn. apply at_path_entry, Hf in Hat as (_ & _ & Ee). rewrite Ee in Hn. set_solver.
    + intros j w Hl. by rewrite lookup_empty in Hl.
Qed.
Lemma machine_reachable_ok m : machine_reachable sha1 sha256 rename_ cas m -> machine_ok m.
Proof.
  unfold machine_reachable. generalize empty_machine_ok. generalize empty_machine. intros m0 Hm0 H.
  induction H as [|m0 m1 m2 Hs _ IH]; [done|]. apply IH. by eapply machine_step_ok.
Qed.
End facts.

(** ** What a store keeps *)


(** ** Witnesses and races *)
Module CasExample.
Definition id : string := "00000000000000000000000000000000000000000000000000000000000000aa".
Definition sha (b : bytes) : string := id.
Definition cas : Cas := {| durable := true; has_pins := false; has_on_store := false |}.
Definition rename_ (d : Disk) (h : string) : Renamed := RenameOk.
Definition put_op : CasOp := OpPut [] [Byte.x01].
Definition cached_op : CasOp := OpPutWithHash id [Byte.x01].
Local Abbreviation step := (machine_step sha sha rename_ cas).

(** One turn of writer [i], as a function. *)
Definition turn (i : nat) (m : Machine) : Machine :=
  match mc_writers m !! i with
  | None => m
  | Some w =>
      match wr_prog w with
      | PDone r => {| mc_disk := mc_disk m; mc_ids := reports w r ∪ mc_ids m;
          mc_writers := told ∅ (reports w r) <$> delete i (mc_writers m) |}
      | PLook k => {| mc_disk := mc_disk m; mc_ids := mc_ids m; mc_writers := <[i := step_writer (k (mc_disk m)) w]> (mc_writers m) |}
      | PChange c k => {| mc_disk := effect c (mc_disk m); mc_ids := mc_ids m ∖ removes c;
          mc_writers := told (removes c) ∅ <$> <[i := step_writer k w]> (mc_writers m) |}
      | PPin _ k | PStored _ k => {| mc_disk := mc_disk m; mc_ids := mc_ids m; mc_writers := <[i := step_writer k w]> (mc_writers m) |}
      end
  end.
Lemma turn_steps i m : rtc step m (turn i m).
Proof.
  unfold turn. destruct (mc_writers m !! i) as [w|] eqn:El; [|done]. destruct (wr_prog w) eqn:Ep; apply rtc_once.
  - by eapply mc_end.
  - by eapply mc_look.
  - by eapply mc_change.
  - by eapply mc_pin.
  - by eapply mc_stored.
Qed.
Definition begin (i : nat) (op : CasOp) (m : Machine) : Machine :=
  match mc_writers m !! i with
  | None => {| mc_disk := mc_disk m; mc_ids := mc_ids m;
      mc_writers := <[i := {| wr_prog := run_op sha sha rename_ cas op; wr_removed := ∅; wr_since := ∅ |}]> (mc_writers m) |}
  | Some _ => m
  end.
Lemma begin_steps i op m : rtc step m (begin i op m).
Proof. unfold begin. destruct (mc_writers m !! i) eqn:El; [done|]. apply rtc_once. by apply mc_begin. Qed.
(** Writers 1 and 2 begin, and then take turns. *)
Definition both (op1 op2 : CasOp) (turns : list nat) : Machine :=
  foldl (fun m i => turn i m) (begin 2 op2 (begin 1 op1 empty_machine)) turns.
Lemma both_reachable op1 op2 turns : machine_reachable sha sha rename_ cas (both op1 op2 turns).
Proof.
  unfold machine_reachable, both. etrans; [apply (begin_steps 1 op1)|]. etrans; [apply (begin_steps 2 op2)|].
  generalize (begin 2 op2 (begin 1 op1 empty_machine)). induction turns as [|i turns IH]; intros m; cbn; [done|].
  etrans; [apply turn_steps|apply IH].
Qed.

(** Two writers of one object: both report it, one after the other's rename. *)
Definition stored : Machine := both put_op put_op [1; 1; 1; 2; 1; 2; 2; 1; 1; 1; 2; 2].

(** Two writers at once: the first has made a directory and not yet synced the
    root; the other finds it, stores its object there, and reports it; a crash
    takes both. *)
Definition raced : Machine := both put_op put_op [1; 1; 2; 2; 2; 2; 2].
Lemma directory_race :
  machine_reachable sha sha rename_ cas raced /\ id ∈ mc_ids raced /\
  exists d', crash (mc_disk raced) d' /\ at_path d' id = None.
Proof.
  split; [apply both_reachable|]. split; [apply (bool_decide_unpack _); vm_compute; reflexivity|].
  exists {| d_dirs := ∅; d_objects := ∅ |}. split; [|done].
  assert (E : d_dirs (mc_disk raced) = {[ parent id := false ]}) by (vm_compute; reflexivity).
  split_and!; cbn -[raced].
  - intros dir. rewrite E. intros [_ ?]%lookup_singleton_Some. done.
  - intros dir s. by rewrite lookup_empty.
  - intros h. exists None. split; [done|]. by right.
Qed.
(** The first has placed an entry and not yet synced its directory; [put_with_hash]
    finds the object intact and reports it; a crash takes the entry. *)
Definition kept_early : Machine := both put_op cached_op [1; 1; 1; 1; 1; 2; 2].
Lemma intact_race :
  machine_reachable sha sha rename_ cas kept_early /\ id ∈ mc_ids kept_early /\
  exists d', crash (mc_disk kept_early) d' /\ at_path d' id = None.
Proof.
  split; [apply both_reachable|]. split; [apply (bool_decide_unpack _); vm_compute; reflexivity|].
  exists {| d_dirs := {[ parent id := true ]}; d_objects := ∅ |}. split; [|done].
  assert (E : d_dirs (mc_disk kept_early) = {[ parent id := true ]}) by (vm_compute; reflexivity).
  assert (Eo : d_objects (mc_disk kept_early) = {[ id := [Some {| f_bytes := [Byte.x01]; f_synced := true |}; None] ]})
    by (vm_compute; reflexivity).
  split_and!; cbn -[kept_early].
  - intros dir. by rewrite E.
  - intros dir s. rewrite E. intros [<- <-]%lookup_singleton_Some. split; [done|]. eexists. vm_compute. reflexivity.
  - intros h. exists None. split; [done|]. destruct (decide (parent h = parent id)) as [Ep|Ep].
    + left. split; [left; split; [|done]|rewrite Ep; vm_compute; reflexivity].
      unfold entry. rewrite Eo. destruct (decide (h = id)) as [->|]; [vm_compute; right; left|]. rewrite lookup_singleton_ne by done. cbn. left.
    + right. split; [done|]. rewrite lookup_insert_ne; [by rewrite lookup_empty|]. by intros En; apply Ep; rewrite <- En.
Qed.
End CasExample.
