(* ===== verification/Control.v ===== *)
(** The control store ([rust/src/control/mod.rs], [rust/src/control/sqlite.rs],
    [rust/src/control/schema/sqlite.sql]): build rows with a state and a lease
    per output kind, added repositories and owners' turns, published refs,
    artifact references, sizes, usage and the deletion queue.

    A table is a list of rows ([builds], in insertion order) or a finite map or
    set over its primary key. An operation of [ControlStore] takes the store and
    gives the store it commits and its result; a statement's SQL is written out
    as the filter, update and order it states. An operation that fails after its
    transaction committed has changed the store, one that fails inside it has
    not. What the operating system or SQLite can fail at (I/O, a busy database)
    is not modelled. *)

From S2P Require Import Prelude Provider Validation Outputs.

(** ** Types of control/mod.rs *)
Inductive Pool := PHead | PFiles | PFull.
#[export] Instance Pool_eq_dec : EqDecision Pool.
Proof. solve_decision. Defined.

Definition Pool_kind (p : Pool) : ExactResultKind :=
  match p with PHead => Head | PFiles => Files | PFull => Full end.

(** [Out<T>]: one output kind's state. *)
Inductive Out (T : Type) : Type :=
  | Pending (error : option string)
  | Ready (output : T)
  | Failed (error : string).
Arguments Pending {T} _.
Arguments Ready {T} _.
Arguments Failed {T} _.

Definition Out_ready {T} (o : Out T) : option T :=
  match o with Ready output => Some output | _ => None end.

Record Lease := { l_attempts : Z; l_until : option Z }.

Record BuildRow := {
  br_commit : string;
  br_ref_name : option string;
  br_parent : option string;
  br_created_at : Z;
  br_seq : Z;
  br_head : Out HeadResult;
  br_files : Out FilesResult;
  br_full : Out FullResult;
  br_head_lease : Lease;
  br_files_lease : Lease;
  br_full_lease : Lease;
}.

Definition BuildRow_lease (b : BuildRow) (kind : ExactResultKind) : Lease :=
  match kind with Head => br_head_lease b | Files => br_files_lease b | Full => br_full_lease b end.

Record Claim := { c_repo : RepoId; c_owner : string; c_pool : Pool; c_build : BuildRow }.
Definition Claim_kind (c : Claim) : ExactResultKind := Pool_kind (c_pool c).
Definition Claim_attempts (c : Claim) : Z := l_attempts (BuildRow_lease (c_build c) (Claim_kind c)).

Inductive Output :=
  | OHead (result : HeadResult) (parent : option string)
  | OFiles (result : FilesResult)
  | OFull (result : FullResult).

Definition Output_artifacts (o : Output) : Hashes :=
  match o with
  | OHead result _ => HeadResult_artifacts result
  | OFiles result => FilesResult_artifacts result
  | OFull result => FullResult_artifacts result
  end.

Record Published := { applied : bool; row_complete : bool }.
Record Purged := { p_builds : N; p_queued : N }.
Record KindUsage := { ku_attempts : N; ku_build_ms : N }.
Definition KindUsage_default : KindUsage := {| ku_attempts := 0; ku_build_ms := 0 |}.
Record RepoUsage := {
  commits_admitted : N;
  u_head : KindUsage; u_files : KindUsage; u_full : KindUsage;
  u_artifacts : N; unique_bytes : N; shared_bytes : N; unsized_artifacts_count : N;
}.
Record AddedRepo := { repo_id : RepoId; added_at : N }.

Record SidePack := { side_pack : string; side_pack_len : N; side_idx : string; side_idx_len : N }.
Record PublishedTags := { pt_artifact : string; pt_len : N; pt_count : N; pt_hash : string }.
Record RepoBranches := {
  rb_artifact : string;
  rb_len : N;
  rb_refs_hash : string;
  rb_default_branch : option string;
  rb_base : option string;
  rb_side_base : option string;
  rb_side_tips : string;
  rb_side_packs : list SidePack;
  rb_tags : PublishedTags;
}.
Record RepoRefs := {
  tags_artifact : string;
  tags_len : N;
  tags_count : N;
  tags_hash : string;
  branches : option RepoBranches;
  ready_ : option RepoBranches;
}.

(** [RepoRefs::artifacts]: every stored artifact the refs name. *)
Definition RepoRefs_artifacts (r : RepoRefs) : Hashes :=
  named (tags_artifact r
    :: flat_map (fun b => rb_artifact b :: pt_artifact (rb_tags b)
                  :: flat_map (fun side => [side_pack side; side_idx side]) (rb_side_packs b))
         (option_list (branches r) ++ option_list (ready_ r))).

#[global] Arguments RepoRefs_artifacts : simpl never.

(** ** serde_json

    The text columns hold JSON that [serde_json] writes and reads. *)
Class Serde := {
  json : Type;
  head_to_json : HeadResult -> Result json;
  head_of_json : json -> Result HeadResult;
  files_to_json : FilesResult -> Result json;
  files_of_json : json -> Result FilesResult;
  full_to_json : FullResult -> Result json;
  full_of_json : json -> Result FullResult;
  branches_to_json : RepoBranches -> Result json;
  branches_of_json : json -> Result RepoBranches;
}.
(** What the derived [Serialize] and [Deserialize] promise: a value written is
    read back. *)
Class SerdeOk (S : Serde) : Prop := {
  head_json x j : head_to_json x = Ok j -> head_of_json j = Ok x;
  files_json x j : files_to_json x = Ok j -> files_of_json j = Ok x;
  full_json x j : full_to_json x = Ok j -> full_of_json j = Ok x;
  branches_json x j : branches_to_json x = Ok j -> branches_of_json j = Ok x;
}.

(** ** Tables *)
Section store.
Context {S : Serde}.

(** A kind's columns [{k}_state], [{k}_output], ... of [builds]. *)
Record KindCols := {
  kc_state : string;
  kc_output : option json;
  kc_error : option string;
  kc_attempts : Z;
  kc_retry_after : Z;
  kc_lease_owner : option string;
  kc_lease_until : option Z;
}.

Record Row := {
  r_repo : string;
  r_commit_id : string;
  r_seq : Z;
  r_ref_name : option string;
  r_parent : option string;
  r_created_at : Z;
  r_head : KindCols;
  r_files : KindCols;
  r_full : KindCols;
}.

Record RefsRow := {
  rr_tags_artifact : string;
  rr_tags_len : Z;
  rr_tags_count : Z;
  rr_tags_hash : string;
  rr_branches : option json;
  rr_ready_branches : option json;
}.

Record Store := {
  builds : list Row;
  added_repos : gmap string (Z * string);              (* repo -> added_at, owner *)
  owner_turns : gmap (ExactResultKind * string) Z;      (* pool, owner -> turn *)
  repo_refs : gmap string RefsRow;
  artifact_refs : gset (string * string);               (* repo, hash *)
  artifact_sizes : gmap string N;
  build_usage : gmap (string * ExactResultKind) (Z * Z); (* attempts, build_ms *)
  deletions : gmap string Z;                            (* hash -> due_at *)
}.

Definition empty_store : Store :=
  {| builds := []; added_repos := ∅; owner_turns := ∅; repo_refs := ∅; artifact_refs := ∅;
     artifact_sizes := ∅; build_usage := ∅; deletions := ∅ |}.

Definition set_builds (b : list Row) (st : Store) : Store :=
  {| builds := b; added_repos := added_repos st; owner_turns := owner_turns st;
     repo_refs := repo_refs st; artifact_refs := artifact_refs st;
     artifact_sizes := artifact_sizes st; build_usage := build_usage st; deletions := deletions st |}.
Definition set_added_repos m (st : Store) : Store :=
  {| builds := builds st; added_repos := m; owner_turns := owner_turns st;
     repo_refs := repo_refs st; artifact_refs := artifact_refs st;
     artifact_sizes := artifact_sizes st; build_usage := build_usage st; deletions := deletions st |}.
Definition set_owner_turns m (st : Store) : Store :=
  {| builds := builds st; added_repos := added_repos st; owner_turns := m;
     repo_refs := repo_refs st; artifact_refs := artifact_refs st;
     artifact_sizes := artifact_sizes st; build_usage := build_usage st; deletions := deletions st |}.
Definition set_repo_refs m (st : Store) : Store :=
  {| builds := builds st; added_repos := added_repos st; owner_turns := owner_turns st;
     repo_refs := m; artifact_refs := artifact_refs st;
     artifact_sizes := artifact_sizes st; build_usage := build_usage st; deletions := deletions st |}.
Definition set_artifact_refs s (st : Store) : Store :=
  {| builds := builds st; added_repos := added_repos st; owner_turns := owner_turns st;
     repo_refs := repo_refs st; artifact_refs := s;
     artifact_sizes := artifact_sizes st; build_usage := build_usage st; deletions := deletions st |}.
Definition set_artifact_sizes m (st : Store) : Store :=
  {| builds := builds st; added_repos := added_repos st; owner_turns := owner_turns st;
     repo_refs := repo_refs st; artifact_refs := artifact_refs st;
     artifact_sizes := m; build_usage := build_usage st; deletions := deletions st |}.
Definition set_build_usage m (st : Store) : Store :=
  {| builds := builds st; added_repos := added_repos st; owner_turns := owner_turns st;
     repo_refs := repo_refs st; artifact_refs := artifact_refs st;
     artifact_sizes := artifact_sizes st; build_usage := m; deletions := deletions st |}.
Definition set_deletions m (st : Store) : Store :=
  {| builds := builds st; added_repos := added_repos st; owner_turns := owner_turns st;
     repo_refs := repo_refs st; artifact_refs := artifact_refs st;
     artifact_sizes := artifact_sizes st; build_usage := build_usage st; deletions := m |}.

(** ** Columns of a kind *)
Definition cols (k : ExactResultKind) (r : Row) : KindCols :=
  match k with Head => r_head r | Files => r_files r | Full => r_full r end.
Definition upd_cols (k : ExactResultKind) (f : KindCols -> KindCols) (r : Row) : Row :=
  {| r_repo := r_repo r; r_commit_id := r_commit_id r; r_seq := r_seq r;
     r_ref_name := r_ref_name r; r_parent := r_parent r; r_created_at := r_created_at r;
     r_head := if kind_eqb k Head then f (r_head r) else r_head r;
     r_files := if kind_eqb k Files then f (r_files r) else r_files r;
     r_full := if kind_eqb k Full then f (r_full r) else r_full r |}.
Definition set_parent (p : option string) (r : Row) : Row :=
  {| r_repo := r_repo r; r_commit_id := r_commit_id r; r_seq := r_seq r;
     r_ref_name := r_ref_name r; r_parent := p; r_created_at := r_created_at r;
     r_head := r_head r; r_files := r_files r; r_full := r_full r |}.
Definition set_ref_name (n : option string) (r : Row) : Row :=
  {| r_repo := r_repo r; r_commit_id := r_commit_id r; r_seq := r_seq r;
     r_ref_name := n; r_parent := r_parent r; r_created_at := r_created_at r;
     r_head := r_head r; r_files := r_files r; r_full := r_full r |}.

(** The column defaults of the schema. *)
Definition new_cols : KindCols :=
  {| kc_state := "pending"; kc_output := None; kc_error := None; kc_attempts := 0;
     kc_retry_after := 0; kc_lease_owner := None; kc_lease_until := None |}.

Definition set_lease (owner : option string) (until : option Z) (c : KindCols) : KindCols :=
  {| kc_state := kc_state c; kc_output := kc_output c; kc_error := kc_error c;
     kc_attempts := kc_attempts c; kc_retry_after := kc_retry_after c;
     kc_lease_owner := owner; kc_lease_until := until |}.
Definition set_state (state : string) (error : option string) (c : KindCols) : KindCols :=
  {| kc_state := state; kc_output := kc_output c; kc_error := error;
     kc_attempts := kc_attempts c; kc_retry_after := kc_retry_after c;
     kc_lease_owner := kc_lease_owner c; kc_lease_until := kc_lease_until c |}.

Definition pending (c : KindCols) : bool := bool_decide (kc_state c = "pending").
Definition is_ready (c : KindCols) : bool := bool_decide (kc_state c = "ready").
Definition failed (c : KindCols) : bool := bool_decide (kc_state c = "failed").

Definition is_key (repo commit : string) (r : Row) : bool :=
  bool_decide (r_repo r = repo) && bool_decide (r_commit_id r = commit).
Definition update_where (p : Row -> bool) (f : Row -> Row) (rows : list Row) : list Row :=
  map (fun r => if p r then f r else r) rows.
Definition rows_affected (p : Row -> bool) (rows : list Row) : N := nlen (List.filter p rows).

(** ** Decoding *)
Definition decode_out {T} (of_json : json -> Result T) (kind : ExactResultKind) (c : KindCols)
    : Result (Out T) :=
  if pending c then Ok (Pending (kc_error c))
  else if is_ready c then
    let? output := context (kc_output c) "ready output is missing" in
    let? output := of_json output in
    Ok (Ready output)
  else if failed c then
    Ok (Failed (default (ExactResultKind_fmt kind +:+ " build failed") (kc_error c)))
  else Err "unknown state".

Definition decode_lease (c : KindCols) : Lease :=
  {| l_attempts := kc_attempts c; l_until := kc_lease_until c |}.

Definition decode_build (r : Row) : Result BuildRow :=
  let? head := decode_out head_of_json Head (r_head r) in
  let? files := decode_out files_of_json Files (r_files r) in
  let? full := decode_out full_of_json Full (r_full r) in
  Ok {| br_commit := r_commit_id r; br_ref_name := r_ref_name r; br_parent := r_parent r;
        br_created_at := r_created_at r; br_seq := r_seq r;
        br_head := head; br_files := files; br_full := full;
        br_head_lease := decode_lease (r_head r); br_files_lease := decode_lease (r_files r);
        br_full_lease := decode_lease (r_full r) |}.

Definition decode_added_repo (repo : string) (added : Z * string) : Result AddedRepo :=
  let? repo := from_storage_key repo in
  Ok {| repo_id := repo; added_at := Z.to_N added.1 |}.

Definition find_build (repo commit : string) (st : Store) : option Row :=
  List.find (is_key repo commit) (builds st).

Definition select_build (repo : RepoId) (commit : string) (st : Store) : Result (option BuildRow) :=
  match find_build (storage_key repo) commit st with
  | None => Ok None
  | Some row => let? b := decode_build row in Ok (Some b)
  end.

(** [KNOWN_REPO]. *)
Definition known_repo (repo : string) (st : Store) : bool :=
  bool_decide (is_Some (added_repos st !! repo))
  || existsb (fun r => bool_decide (r_repo r = repo)) (builds st).

(** [RECORD_REFS]: the repository names each artifact. *)
Definition record_refs (repo : string) (hashes : Hashes) (st : Store) : Store :=
  set_artifact_refs (artifact_refs st ∪ set_map (fun h => (repo, h)) hashes) st.

(** [COALESCE(MAX(x), 0)]. *)
Definition coalesce_max (l : list Z) : Z :=
  match l with [] => 0 | x :: l => foldr Z.max x l end.

(** ** Operations of [SqliteControlStore] *)

(** [max_attempts], and the prefix [instance] of every lease owner this store
    writes. *)
Record StoreConfig := { max_attempts : Z; instance : string }.

Section ops.
Context (cfg : StoreConfig).

(** [lease_held]: the lease has not expired, or this store holds it. *)
Definition lease_held (now : Z) (c : KindCols) : bool :=
  match kc_lease_owner c with
  | None => false
  | Some owner =>
      match kc_lease_until c with Some until => (now <? until)%Z | None => false end
      || starts_with (instance cfg) owner
  end.

(** [INSERT INTO builds]: a new row with the next admission number. *)
Definition new_row (repo commit : string) (ref_name : option string) (now : Z) (rows : list Row) : Row :=
  {| r_repo := repo; r_commit_id := commit; r_seq := coalesce_max (map r_seq rows) + 1;
     r_ref_name := ref_name; r_parent := None; r_created_at := now;
     r_head := new_cols; r_files := new_cols; r_full := new_cols |}.

Definition check_ref (ref_name : option string) : Result unit :=
  match ref_name with
  | Some ref_name =>
      ensure! starts_with "refs/" ref_name else "admitted ref is not a full ref name"; Ok tt
  | None => Ok tt
  end.

Definition admit_build (now : Z) (repo : RepoId) (commit : string) (ref_name : option string) (st : Store)
    : Store * Result (BuildRow * bool) :=
  match (let? _ := validate_object_id commit in check_ref ref_name) with
  | Err e => (st, Err e)
  | Ok _ =>
      let key := storage_key repo in
      let inserted := negb (existsb (is_key key commit) (builds st)) in
      let rows :=
        if inserted then builds st ++ [new_row key commit ref_name now (builds st)]
        else match ref_name with
             | Some _ =>
                 update_where (fun r => is_key key commit r && bool_decide (r_ref_name r = None))
                   (set_ref_name ref_name) (builds st)
             | None => builds st
             end in
      let st := set_builds rows st in
      match find_build key commit st with
      | None => (st, Err "read admitted build")
      | Some row => (st, let? b := decode_build row in Ok (b, inserted))
      end
  end.

(** A failed kind returns to pending with fresh attempts. *)
Definition reset_cols (c : KindCols) : KindCols :=
  if failed c then
    {| kc_state := "pending"; kc_output := kc_output c; kc_error := None; kc_attempts := 0;
       kc_retry_after := 0; kc_lease_owner := kc_lease_owner c; kc_lease_until := kc_lease_until c |}
  else c.
Definition reset_row (r : Row) : Row :=
  upd_cols Head reset_cols (upd_cols Files reset_cols (upd_cols Full reset_cols r)).
Definition any_failed (r : Row) : bool := failed (r_head r) || failed (r_files r) || failed (r_full r).

Definition retry (repo : RepoId) (commit : string) (st : Store) : Store * Result (option BuildRow) :=
  let st := set_builds (update_where (fun r => is_key (storage_key repo) commit r && any_failed r)
                          reset_row (builds st)) st in
  (st, select_build repo commit st).

(** The repository's owner, [COALESCE(added.owner, '')]. *)
Definition owner_of (repo : string) (st : Store) : string :=
  match added_repos st !! repo with Some (_, owner) => owner | None => "" end.
(** [COALESCE(turns.turn, 0)]. *)
Definition turn_of (k : ExactResultKind) (r : Row) (st : Store) : Z :=
  default 0%Z (owner_turns st !! (k, owner_of (r_repo r) st)).

(** A Full needs its Head, and waits for every older pending Full of its
    repository. *)
Definition needs (p : Pool) (r : Row) (rows : list Row) : bool :=
  match p with
  | PHead | PFiles => true
  | PFull =>
      is_ready (r_head r)
      && negb (existsb (fun older => bool_decide (r_repo older = r_repo r) && pending (r_full older)
                                     && (r_seq older <? r_seq r)%Z) rows)
  end.

Definition claimable (now : Z) (p : Pool) (rows : list Row) (r : Row) : bool :=
  let k := Pool_kind p in
  pending (cols k r) && needs p r rows && negb (lease_held now (cols k r))
  && (kc_retry_after (cols k r) <=? now)%Z && (kc_attempts (cols k r) <? max_attempts cfg)%Z
  && negb (existsb (fun busy => bool_decide (r_repo busy = r_repo r) && lease_held now (cols k busy)) rows).

(** [ORDER BY COALESCE(turns.turn, 0), b.seq]. *)
Definition turn_seq_le (k : ExactResultKind) (st : Store) (a b : Row) : bool :=
  (turn_of k a st <? turn_of k b st)%Z
  || ((turn_of k a st =? turn_of k b st)%Z && (r_seq a <=? r_seq b)%Z).

Definition candidate (now : Z) (p : Pool) (st : Store) : option Row :=
  min_by (turn_seq_le (Pool_kind p) st) (List.filter (claimable now p (builds st)) (builds st)).

(** Outputs of the pool's kind whose last allowed attempt ended without a
    result. *)
Definition exhausted (now : Z) (k : ExactResultKind) (r : Row) : bool :=
  pending (cols k r) && (max_attempts cfg <=? kc_attempts (cols k r))%Z
  && negb (lease_held now (cols k r)).

(** [x || COALESCE(': ' || y, '')]. *)
Definition with_cause (x : string) (y : option string) : string :=
  x +:+ match y with Some y => ": " +:+ y | None => "" end.

(** [head_failure_cascade]: a failed Head fails the row's pending Full. *)
Definition fail_full (error : string) (r : Row) : Row :=
  upd_cols Full (fun c => if pending c then set_state "failed" (Some error) c else c) r.

Definition gave_up_message : string := "gave up after " +:+ pretty (max_attempts cfg) +:+ " attempts".

Definition give_up_row (k : ExactResultKind) (r : Row) : Row :=
  let msg := gave_up_message in
  let r' := upd_cols k (fun c => set_lease None None
              (set_state "failed" (Some (with_cause msg (kc_error c))) c)) r in
  if kind_eqb k Head
  then fail_full ("head failed: " +:+ with_cause msg (kc_error (r_head r))) r'
  else r'.

Definition take_lease (k : ExactResultKind) (owner : string) (until : Z) (r : Row) : Row :=
  upd_cols k (fun c =>
    {| kc_state := kc_state c; kc_output := kc_output c; kc_error := kc_error c;
       kc_attempts := kc_attempts c + 1; kc_retry_after := kc_retry_after c;
       kc_lease_owner := Some owner; kc_lease_until := Some until |}) r.

Definition record_turn (k : ExactResultKind) (repo : string) (st : Store) : Store :=
  set_owner_turns
    (<[(k, owner_of repo st) := (coalesce_max (map snd (map_to_list (owner_turns st))) + 1)%Z]>
       (owner_turns st)) st.

(** The give-up pass of [claim]. *)
Definition give_up_exhausted (now : Z) (k : ExactResultKind) (st : Store) : Store :=
  set_builds (update_where (exhausted now k) (give_up_row k) (builds st)) st.

Definition claim (now : Z) (owner : string) (p : Pool) (lease : N) (st : Store)
    : Store * Result (option Claim) :=
  let owner := instance cfg +:+ owner in
  let k := Pool_kind p in
  let work := existsb (exhausted now k) (builds st)
              || bool_decide (is_Some (candidate now p st)) in
  if negb work then (st, Ok None)
  else
    let st := give_up_exhausted now k st in
    match candidate now p st with
    | None => (st, Ok None)
    | Some b =>
        let take := take_lease k owner (i64_saturating_add now (i64_of_u64 lease)) in
        let st := set_builds (update_where (is_key (r_repo b) (r_commit_id b)) take (builds st)) st in
        let st := record_turn k (r_repo b) st in
        (st, let? repo := from_storage_key (r_repo b) in
             let? build := decode_build (take b) in
             Ok (Some {| c_repo := repo; c_owner := owner; c_pool := p; c_build := build |}))
    end.

(** The rows a claim's kind lease names: [WHERE repo = .. AND commit_id = ..
    AND {k}_lease_owner = ..]. *)
Definition owns (c : Claim) (r : Row) : bool :=
  is_key (storage_key (c_repo c)) (br_commit (c_build c)) r
  && bool_decide (kc_lease_owner (cols (Claim_kind c) r) = Some (c_owner c)).

Definition renew (now : Z) (c : Claim) (lease : N) (st : Store) : Store * Result bool :=
  let k := Claim_kind c in
  let until := i64_saturating_add now (i64_of_u64 lease) in
  let renewed := rows_affected (owns c) (builds st) in
  (set_builds (update_where (owns c)
     (upd_cols k (fun c => set_lease (kc_lease_owner c) (Some until) c)) (builds st)) st,
   Ok (renewed =? 1)%N).

Definition Output_kind (o : Output) : ExactResultKind :=
  match o with OHead _ _ => Head | OFiles _ => Files | OFull _ => Full end.
Definition Output_clonepack (o : Output) : ClonepackArtifacts :=
  match o with
  | OHead r _ => hr_clonepack r | OFiles r => fs_clonepack r | OFull r => fr_clonepack r
  end.
Definition Output_to_json (o : Output) : Result json :=
  match o with
  | OHead r _ => head_to_json r | OFiles r => files_to_json r | OFull r => full_to_json r
  end.

Definition set_ready (data : json) (c : KindCols) : KindCols :=
  {| kc_state := "ready"; kc_output := Some data; kc_error := None;
     kc_attempts := kc_attempts c; kc_retry_after := kc_retry_after c;
     kc_lease_owner := kc_lease_owner c; kc_lease_until := kc_lease_until c |}.

Definition publish_row (o : Output) (data : json) (r : Row) : Row :=
  let r := upd_cols (Output_kind o) (set_ready data) r in
  match o with OHead _ parent => set_parent parent r | _ => r end.

Definition all_ready (r : Row) : bool :=
  is_ready (r_head r) && is_ready (r_files r) && is_ready (r_full r).

Definition not_applied : Published := {| applied := false; row_complete := false |}.

Definition publish (c : Claim) (output : Output) (st : Store) : Store * Result Published :=
  let kind := Output_kind output in
  if negb (exact_output_artifacts_ready (br_commit (c_build c)) kind (Output_clonepack output))
  then (st, Err "invalid result")
  else
    match Output_to_json output with
    | Err e => (st, Err e)
    | Ok data =>
        if negb (kind_eqb kind (Claim_kind c)) then (st, Ok not_applied)
        else
          let p := fun r => owns c r && pending (cols kind r) in
          match List.find p (builds st) with
          | None => (st, Ok not_applied)
          | Some r =>
              let r := publish_row output data r in
              let st := set_builds (update_where p (publish_row output data) (builds st)) st in
              let st := record_refs (storage_key (c_repo c)) (Output_artifacts output) st in
              (st, Ok {| applied := true; row_complete := all_ready r |})
          end
    end.

(** [$4 IS NULL OR {k}_attempts >= $5]. *)
Definition gives_up (retry_at : option Z) (c : KindCols) : bool :=
  match retry_at with None => true | Some _ => (max_attempts cfg <=? kc_attempts c)%Z end.

Definition fail_row (k : ExactResultKind) (error : string) (retry_at : option Z) (r : Row) : Row :=
  let gives_up := gives_up retry_at (cols k r) in
  let r' := upd_cols k (fun c =>
    {| kc_state := if gives_up then "failed" else "pending";
       kc_output := kc_output c; kc_error := Some error; kc_attempts := kc_attempts c;
       kc_retry_after := if gives_up then kc_retry_after c else default 0%Z retry_at;
       kc_lease_owner := kc_lease_owner c; kc_lease_until := kc_lease_until c |}) r in
  if kind_eqb k Head && gives_up then fail_full ("head failed: " +:+ error) r' else r'.

Definition fail (now : Z) (c : Claim) (error : string) (retry_after : option N) (st : Store)
    : Store * Result unit :=
  let k := Claim_kind c in
  let retry_at := (fun delay => i64_saturating_add now (i64_of_u64 delay)) <$> retry_after in
  (set_builds (update_where (fun r => owns c r && pending (cols k r)) (fail_row k error retry_at)
                 (builds st)) st,
   Ok tt).

Definition release (c : Claim) (st : Store) : Store * Result unit :=
  (set_builds (update_where (owns c) (upd_cols (Claim_kind c) (set_lease None None)) (builds st)) st,
   Ok tt).

Definition clear_leases (r : Row) : Row :=
  upd_cols Head (set_lease None None) (upd_cols Files (set_lease None None)
    (upd_cols Full (set_lease None None) r)).
Definition any_leased (r : Row) : bool :=
  bool_decide (is_Some (kc_lease_owner (r_head r))) || bool_decide (is_Some (kc_lease_owner (r_files r)))
  || bool_decide (is_Some (kc_lease_owner (r_full r))).

Definition reset_leases (st : Store) : Store * Result N :=
  (set_builds (update_where any_leased clear_leases (builds st)) st,
   Ok (rows_affected any_leased (builds st))).

Definition status (repo : RepoId) (commit : string) (st : Store) : Result (option BuildRow) :=
  select_build repo commit st.

Definition seq_le (a b : Row) : bool := (r_seq a <=? r_seq b)%Z.
Definition seq_ge (a b : Row) : bool := (r_seq b <=? r_seq a)%Z.
Definition of_repo (repo : RepoId) (r : Row) : bool := bool_decide (r_repo r = storage_key repo).

Definition list_builds (repo : RepoId) (st : Store) : Result (list BuildRow) :=
  collect decode_build (sort_by seq_le (List.filter (of_repo repo) (builds st))).

Definition latest_ready_full (repo : RepoId) (ref_name : string) (st : Store)
    : Result (option (string * FullResult)) :=
  match min_by seq_ge (List.filter (fun r => of_repo repo r && bool_decide (r_ref_name r = Some ref_name)
                                        && is_ready (r_full r)) (builds st)) with
  | None => Ok None
  | Some r =>
      let? output := context (kc_output (r_full r)) "read latest ready Full" in
      let? full := full_of_json output in
      Ok (Some (r_commit_id r, full))
  end.

(** [ORDER BY CASE WHEN ref_name = $3 THEN 0 ELSE 1 END, seq DESC]: comparing
    with a NULL is never true. *)
Definition other_ref (prefer_ref : option string) (r : Row) : bool :=
  match r_ref_name r, prefer_ref with
  | Some x, Some y => negb (bool_decide (x = y))
  | _, _ => true
  end.
Definition prefer_le (prefer_ref : option string) (a b : Row) : bool :=
  let other := other_ref prefer_ref in
  (negb (other a) && other b) || (Bool.eqb (other a) (other b) && seq_ge a b).

Definition ready_commits (repo : RepoId) (kind : ExactResultKind) (prefer_ref : option string)
    (except : string) (limit : N) (st : Store) : list string :=
  map r_commit_id (take (N.to_nat limit) (sort_by (prefer_le prefer_ref)
    (List.filter (fun r => of_repo repo r && is_ready (cols kind r)
                      && negb (bool_decide (r_commit_id r = except))) (builds st)))).

Definition add_repo (now : Z) (repo : RepoId) (owner : option string) (st : Store) : Store * Result bool :=
  let key := storage_key repo in
  match added_repos st !! key with
  | None => (set_added_repos (<[key := (now, default ""%string owner)]> (added_repos st)) st, Ok true)
  | Some (at_, old) =>
      match owner with
      | Some owner =>
          if bool_decide (old = "")
          then (set_added_repos (<[key := (at_, owner)]> (added_repos st)) st, Ok false)
          else (st, Ok false)
      | None => (st, Ok false)
      end
  end.

Definition remove_repo (repo : RepoId) (st : Store) : Store * Result bool :=
  let key := storage_key repo in
  (set_added_repos (delete key (added_repos st)) st, Ok (bool_decide (is_Some (added_repos st !! key)))).

Definition get_repo (repo : RepoId) (st : Store) : Result (option AddedRepo) :=
  match added_repos st !! storage_key repo with
  | None => Ok None
  | Some added => let? r := decode_added_repo (storage_key repo) added in Ok (Some r)
  end.

Definition key_le {A} (a b : string * A) : bool := String.leb a.1 b.1.

Definition list_repos (st : Store) : Result (list AddedRepo) :=
  collect (fun '(repo, added) => decode_added_repo repo added)
    (sort_by key_le (map_to_list (added_repos st))).

(** [KEEP_LATER_DUE]: a queued artifact queued again keeps the later time. *)
Definition keep_later_due (due_at : Z) (hash : string) (m : gmap string Z) : gmap string Z :=
  <[hash := match m !! hash with Some old => Z.max due_at old | None => due_at end]> m.

(** The artifacts [repo] names that no other repository names. *)
Definition only_named_by (repo : string) (st : Store) : Hashes :=
  set_map snd (filter (fun '(r, h) => r = repo /\ forall x, x ∈ artifact_refs st -> x.2 = h -> x.1 = repo)
    (artifact_refs st)).

Definition purge_repo (repo : RepoId) (due_at : Z) (st : Store) : Store * Result Purged :=
  let key := storage_key repo in
  let hashes := elements (only_named_by key st) in
  let purged := rows_affected (of_repo repo) (builds st) in
  let st := set_added_repos (delete key (added_repos st)) st in
  let st := set_deletions (foldr (keep_later_due due_at) (deletions st) hashes) st in
  let st := set_repo_refs (delete key (repo_refs st)) st in
  let st := set_build_usage (filter (fun x => x.1.1 <> key) (build_usage st)) st in
  let st := set_artifact_refs (filter (fun x => x.1 <> key) (artifact_refs st)) st in
  let st := set_builds (List.filter (fun r => negb (of_repo repo r)) (builds st)) st in
  (st, Ok {| p_builds := purged; p_queued := nlen hashes |}).

Definition queue_deletions (hashes : list string) (due_at : Z) (st : Store) : Store * Result unit :=
  (set_deletions (foldl (fun m h => keep_later_due due_at h m) (deletions st) hashes) st, Ok tt).

Definition due_le (a b : string * Z) : bool :=
  (a.2 <? b.2)%Z || ((a.2 =? b.2)%Z && String.leb a.1 b.1).

Definition due_deletions (now : Z) (limit : N) (st : Store) : list string :=
  map fst (take (N.to_nat limit)
    (sort_by due_le (List.filter (fun x => (x.2 <? now)%Z) (map_to_list (deletions st))))).

(** [EXISTS (SELECT 1 FROM artifact_refs WHERE hash = ..)]. *)
Definition named_by_any (hash : string) (st : Store) : bool :=
  existsb (fun x => bool_decide (x.2 = hash)) (elements (artifact_refs st)).

Definition deletable (hash : string) (now : Z) (st : Store) : bool :=
  match deletions st !! hash with
  | Some due_at => (due_at <? now)%Z && negb (named_by_any hash st)
  | None => false
  end.

Definition dequeue_deletions (hashes : list string) (now : Z) (st : Store) : Store * Result unit :=
  let st := set_deletions (filter (fun x => ~ (x.1 ∈ hashes /\ (x.2 < now)%Z)) (deletions st)) st in
  let st := set_artifact_sizes
    (filter (fun x => ~ (x.1 ∈ hashes /\ named_by_any x.1 st = false /\ deletions st !! x.1 = None))
       (artifact_sizes st)) st in
  (st, Ok tt).

Definition knows_repo (repo : RepoId) (st : Store) : bool := known_repo (storage_key repo) st.

Definition known_repos (st : Store) : Result (list RepoId) :=
  collect from_storage_key
    (sort_by String.leb (elements (dom (added_repos st) ∪ list_to_set (map r_repo (builds st)) : Hashes))).

(** [u64::try_from] of a stored number. *)
Definition u64_of_column (n : Z) : Result N :=
  if (0 <=? n)%Z then Ok (Z.to_N n) else Err "negative number in refs".
Definition column_of_u64 (n : N) : Result Z :=
  if (Z.of_N n <=? i64_max)%Z then Ok (Z.of_N n) else Err "refs number too large".
Definition option_res {A B} (f : A -> Result B) (o : option A) : Result (option B) :=
  match o with Some x => let? y := f x in Ok (Some y) | None => Ok None end.

Definition get_refs (repo : RepoId) (st : Store) : Result (option RepoRefs) :=
  match repo_refs st !! storage_key repo with
  | None => Ok None
  | Some row =>
      let? len := u64_of_column (rr_tags_len row) in
      let? count := u64_of_column (rr_tags_count row) in
      let? branches := option_res branches_of_json (rr_branches row) in
      let? ready := option_res branches_of_json (rr_ready_branches row) in
      Ok (Some {| tags_artifact := rr_tags_artifact row; tags_len := len; tags_count := count;
                  tags_hash := rr_tags_hash row; branches := branches; ready_ := ready |})
  end.

Definition set_refs (repo : RepoId) (refs : RepoRefs) (st : Store) : Store * Result bool :=
  let key := storage_key repo in
  if negb (known_repo key st) then (st, Ok false)
  else
    match
      (let? len := column_of_u64 (tags_len refs) in
       let? count := column_of_u64 (tags_count refs) in
       let? branches := option_res branches_to_json (branches refs) in
       let? ready := option_res branches_to_json (ready_ refs) in
       Ok {| rr_tags_artifact := tags_artifact refs; rr_tags_len := len; rr_tags_count := count;
             rr_tags_hash := tags_hash refs; rr_branches := branches; rr_ready_branches := ready |})
    with
    | Err e => (st, Err e)
    | Ok row =>
        (record_refs key (RepoRefs_artifacts refs) (set_repo_refs (<[key := row]> (repo_refs st)) st), Ok true)
    end.

(** [SELECT DISTINCT .. WHERE value NOT IN ..]. *)
Definition unsized_artifacts (hashes : list string) (st : Store) : list string :=
  remove_dups (filter (fun h => artifact_sizes st !! h = None) hashes).

(** A JSON object keeps the last of equal keys; a recorded size is kept. *)
Definition record_sizes (sizes : list (string * N)) (st : Store) : Store * Result unit :=
  let new : gmap string N := list_to_map (reverse sizes) in
  (set_artifact_sizes (artifact_sizes st ∪ new) st, Ok tt).

Definition add_build_time (repo : RepoId) (kind : ExactResultKind) (elapsed_ms : N) (st : Store)
    : Store * Result unit :=
  let key := (storage_key repo, kind) in
  let ms := i64_of_u64 elapsed_ms in
  (set_build_usage
     (<[key := match build_usage st !! key with
               | Some (attempts, build_ms) => (attempts + 1, build_ms + ms)%Z
               | None => (1, ms)%Z
               end]> (build_usage st)) st, Ok tt).

Definition kind_usage (repo : string) (kind : ExactResultKind) (st : Store) : KindUsage :=
  match build_usage st !! (repo, kind) with
  | Some (attempts, build_ms) => {| ku_attempts := Z.to_N attempts; ku_build_ms := Z.to_N build_ms |}
  | None => KindUsage_default
  end.

(** [EXISTS (.. other.hash = mine.hash AND other.repo <> mine.repo)]. *)
Definition shared_with_others (repo hash : string) (st : Store) : bool :=
  existsb (fun x => bool_decide (x.2 = hash) && negb (bool_decide (x.1 = repo))) (elements (artifact_refs st)).

Definition usage (repo : RepoId) (st : Store) : option RepoUsage :=
  let key := storage_key repo in
  if negb (known_repo key st) then None
  else
    let mine := List.filter (fun x => bool_decide (x.1 = key)) (elements (artifact_refs st)) in
    let len x := default 0%N (artifact_sizes st !! x.2) in
    let shared x := shared_with_others key x.2 st in
    Some {|
      commits_admitted := rows_affected (of_repo repo) (builds st);
      u_head := kind_usage key Head st; u_files := kind_usage key Files st; u_full := kind_usage key Full st;
      u_artifacts := nlen mine;
      unique_bytes := nsum (map len (List.filter (fun x => negb (shared x)) mine));
      shared_bytes := nsum (map len (List.filter shared mine));
      unsized_artifacts_count := nlen (List.filter (fun x => bool_decide (artifact_sizes st !! x.2 = None)) mine);
    |}.

End ops.
End store.
