(* ===== verification/ControlInv.v ===== *)
(** The control store's invariant: what every reachable store satisfies, and
    that each operation of [Control] preserves it. *)

From S2P Require Import Prelude Provider Validation Outputs Control.

Section inv.
Context {S : Serde} {SOk : SerdeOk S} (cfg : StoreConfig).

(** ** The invariant *)

(** One kind's columns: a known state, an output that decodes when ready, a
    lease with both columns or none, attempts within the limit. *)
Record col_ok {T} (of_json : json -> Result T) (c : KindCols) : Prop := {
  col_state : kc_state c = "pending" \/ kc_state c = "ready" \/ kc_state c = "failed";
  col_output : kc_state c = "ready" ->
    kc_error c = None /\ exists j x, kc_output c = Some j /\ of_json j = Ok x;
  col_lease : kc_lease_owner c = None <-> kc_lease_until c = None;
  col_attempts : (0 <= kc_attempts c <= max_attempts cfg)%Z;
}.

(** A row: Full is built, leased and counted only once Head is ready, and it
    fails exactly when Head has. *)
Record row_ok (r : Row) : Prop := {
  row_head : col_ok head_of_json (r_head r);
  row_files : col_ok files_of_json (r_files r);
  row_full : col_ok full_of_json (r_full r);
  row_full_ready : kc_state (r_full r) = "ready" -> kc_state (r_head r) = "ready";
  row_full_lease : kc_lease_owner (r_full r) <> None -> kc_state (r_head r) = "ready";
  row_full_attempts : (0 < kc_attempts (r_full r))%Z -> kc_state (r_head r) = "ready";
  row_head_failed : kc_state (r_head r) = "failed" -> kc_state (r_full r) = "failed";
  row_full_failed : kc_state (r_full r) = "failed" -> kc_state (r_head r) <> "pending";
  row_repo : exists repo, repo_ok repo /\ r_repo r = storage_key repo;
  row_commit : validate_object_id (r_commit_id r) = Ok tt;
}.

(** The artifacts a row's ready outputs name. *)
Definition row_names (r : Row) (h : string) : Prop :=
  (exists j x, kc_state (r_head r) = "ready" /\ kc_output (r_head r) = Some j /\
     head_of_json j = Ok x /\ h ∈ HeadResult_artifacts x) \/
  (exists j x, kc_state (r_files r) = "ready" /\ kc_output (r_files r) = Some j /\
     files_of_json j = Ok x /\ h ∈ FilesResult_artifacts x) \/
  (exists j x, kc_state (r_full r) = "ready" /\ kc_output (r_full r) = Some j /\
     full_of_json j = Ok x /\ h ∈ FullResult_artifacts x).

(** This store's lease of kind [k]: it holds it until it is released. *)
Definition mine (k : ExactResultKind) (r : Row) : Prop :=
  exists owner, kc_lease_owner (cols k r) = Some owner /\ starts_with (instance cfg) owner = true.

Definition row_key (r : Row) : string * string := (r_repo r, r_commit_id r).
Definition refs_ok (row : RefsRow) : Prop :=
  (0 <= rr_tags_len row)%Z /\ (0 <= rr_tags_count row)%Z /\
  (forall j, rr_branches row = Some j -> exists b, branches_of_json j = Ok b) /\
  (forall j, rr_ready_branches row = Some j -> exists b, branches_of_json j = Ok b).

Record store_ok (st : Store) : Prop := {
  so_rows : Forall row_ok (builds st);
  so_keys : NoDup (map row_key (builds st));
  so_seqs : StronglySorted Z.lt (map r_seq (builds st));
  so_pos : Forall (fun r => (0 < r_seq r)%Z) (builds st);
  so_named : forall r h, r ∈ builds st -> row_names r h -> (r_repo r, h) ∈ artifact_refs st;
  so_refs_row : forall repo row, repo_refs st !! repo = Some row -> refs_ok row;
  so_refs_named : forall repo refs, repo_ok repo -> get_refs repo st = Ok (Some refs) ->
    forall h, h ∈ RepoRefs_artifacts refs -> (storage_key repo, h) ∈ artifact_refs st;
  so_added : forall repo added, added_repos st !! repo = Some added ->
    exists r, repo_ok r /\ repo = storage_key r;
  so_mine : forall k r1 r2, r1 ∈ builds st -> r2 ∈ builds st -> r_repo r1 = r_repo r2 ->
    mine k r1 -> mine k r2 -> row_key r1 = row_key r2;
  so_turns : forall key turn, owner_turns st !! key = Some turn -> (0 < turn)%Z;
}.

(** ** Steps *)
Inductive step : Store -> Store -> Prop :=
  | step_admit now repo commit ref_name st :
      repo_ok repo -> step st (admit_build now repo commit ref_name st).1
  | step_retry repo commit st : step st (retry repo commit st).1
  | step_claim now owner p lease st : step st (claim cfg now owner p lease st).1
  | step_renew now c lease st : step st (renew now c lease st).1
  | step_publish c output st : step st (publish c output st).1
  | step_fail now c error retry_after st : step st (fail cfg now c error retry_after st).1
  | step_release c st : step st (release c st).1
  | step_reset_leases st : step st (reset_leases st).1
  | step_add_repo now repo owner st : repo_ok repo -> step st (add_repo now repo owner st).1
  | step_remove_repo repo st : step st (remove_repo repo st).1
  | step_purge_repo repo due_at st : step st (purge_repo repo due_at st).1
  | step_queue hashes due_at st : step st (queue_deletions hashes due_at st).1
  | step_dequeue hashes now st : step st (dequeue_deletions hashes now st).1
  | step_set_refs repo refs st : repo_ok repo -> step st (set_refs repo refs st).1
  | step_record_sizes sizes st : step st (record_sizes sizes st).1
  | step_build_time repo kind ms st : step st (add_build_time repo kind ms st).1.

Definition reachable (st : Store) : Prop := rtc step empty_store st.

(** ** Lemmas on tables *)
Lemma elem_of_update_where p f (rows : list Row) r' :
  r' ∈ update_where p f rows <-> exists r, r ∈ rows /\ r' = if p r then f r else r.
Proof. unfold update_where. rewrite list_elem_of_fmap. naive_solver. Qed.

Lemma update_where_map {A} (g : Row -> A) p f rows :
  (forall r, p r = true -> g (f r) = g r) -> map g (update_where p f rows) = map g rows.
Proof.
  intros H. unfold update_where. rewrite map_map. apply map_ext.
  intros r. destruct (p r) eqn:E; auto.
Qed.

Lemma update_where_Forall (P : Row -> Prop) p f rows :
  (forall r, p r = true -> P r -> P (f r)) -> Forall P rows -> Forall P (update_where p f rows).
Proof.
  intros H HP. apply Forall_forall. intros r' (r & Hr & ->)%elem_of_update_where.
  rewrite Forall_forall in HP. destruct (p r) eqn:E; auto.
Qed.


Lemma keys_unique st r1 r2 :
  store_ok st -> r1 ∈ builds st -> r2 ∈ builds st -> row_key r1 = row_key r2 -> r1 = r2.
Proof.
  intros Hok H1 H2 Hk. pose proof (so_keys _ Hok) as Hnd. revert H1 H2 Hk Hnd.
  generalize (builds st). intros l. induction l as [|r l IH]; [set_solver|].
  cbn. intros [->|H1]%elem_of_cons [->|H2]%elem_of_cons Hk [Hn Hnd]%NoDup_cons; try done.
  - exfalso. apply Hn. rewrite Hk. by apply list_elem_of_fmap_2.
  - exfalso. apply Hn. rewrite <- Hk. by apply list_elem_of_fmap_2.
  - auto.
Qed.

Lemma is_key_true repo commit r : is_key repo commit r = true <-> row_key r = (repo, commit).
Proof. unfold is_key, row_key. rewrite andb_true_iff, !bool_decide_eq_true. naive_solver. Qed.

Lemma find_Some {A} (p : A -> bool) l x : List.find p l = Some x -> x ∈ l /\ p x = true.
Proof. intros H%List.find_some. by rewrite list_elem_of_In. Qed.
Lemma find_None {A} (p : A -> bool) l x : List.find p l = None -> x ∈ l -> p x = false.
Proof. intros H Hx. eapply List.find_none; [done|]. by apply list_elem_of_In. Qed.

Lemma cols_upd_same k f r : cols k (upd_cols k f r) = f (cols k r).
Proof. by destruct k. Qed.
Lemma cols_upd_other k k' f r : k <> k' -> cols k' (upd_cols k f r) = cols k' r.
Proof. by destruct k, k'. Qed.
Lemma row_key_upd k f r : row_key (upd_cols k f r) = row_key r.
Proof. done. Qed.
Lemma r_seq_upd k f r : r_seq (upd_cols k f r) = r_seq r.
Proof. done. Qed.

(** ** Columns keep their invariant *)
Section cols.
Context {T : Type} (of_json : json -> Result T).

Lemma col_ok_set_lease o u c :
  (o = None <-> u = None) -> col_ok of_json c -> col_ok of_json (set_lease o u c).
Proof. intros Hou []. by constructor. Qed.
Lemma col_ok_unlease c : col_ok of_json c -> col_ok of_json (set_lease None None c).
Proof. by apply col_ok_set_lease. Qed.
Lemma col_ok_failed e c : col_ok of_json c -> col_ok of_json (set_state "failed" e c).
Proof. intros []. constructor; cbn; auto. done. Qed.
Lemma col_ok_reset c : col_ok of_json c -> col_ok of_json (reset_cols c).
Proof.
  unfold reset_cols, failed. intros Hc. case_bool_decide; [|done].
  destruct Hc. constructor; cbn; auto; [done|]. lia.
Qed.
Lemma col_ok_new : (0 <= max_attempts cfg)%Z -> col_ok of_json new_cols.
Proof. intros. constructor; cbn; auto; done. Qed.
Lemma col_ok_ready j x c : of_json j = Ok x -> col_ok of_json c -> col_ok of_json (set_ready j c).
Proof. intros Hj []. constructor; cbn; eauto. Qed.
Lemma col_ok_fail c b e t :
  col_ok of_json c ->
  col_ok of_json
    {| kc_state := if b : bool then "failed" else "pending"; kc_output := kc_output c;
       kc_error := e; kc_attempts := kc_attempts c; kc_retry_after := t;
       kc_lease_owner := kc_lease_owner c; kc_lease_until := kc_lease_until c |}.
Proof. intros []. constructor; cbn; auto; destruct b; auto; done. Qed.
End cols.
#[local] Hint Resolve col_ok_set_lease col_ok_unlease col_ok_failed col_ok_reset col_ok_ready col_ok_fail : control.

(** Case analysis on a row's columns and the code's tests of them. *)
Ltac row_cases :=
  unfold pending, is_ready, failed in *; breflect;
  repeat (case_bool_decide; try done); cbn in *.

(** ** Rows keep their invariant *)
Lemma row_ok_set_lease k o u r :
  (o = None <-> u = None) ->
  (k = Full -> o <> None -> kc_state (r_head r) = "ready") ->
  row_ok r -> row_ok (upd_cols k (set_lease o u) r).
Proof.
  intros Hou Hk []. destruct k; constructor; cbn; auto with control.
Qed.

Lemma row_ok_fail_full e r :
  kc_state (r_head r) <> "pending" -> row_ok r -> row_ok (fail_full e r).
Proof.
  intros Hh []. unfold fail_full, pending. constructor; cbn; auto; case_bool_decide; cbn; auto with control; done.
Qed.

Lemma row_ok_reset r : row_ok r -> row_ok (reset_row r).
Proof.
  intros []. unfold reset_row. constructor; cbn; auto with control; unfold reset_cols, failed in *.
  all: repeat case_bool_decide; cbn; auto; try done; try lia; try congruence.
  all: intros; exfalso; intuition congruence.
Qed.

(** A pending Head that fails, with its pending Full. *)
Lemma row_ok_fail_head e f r :
  kc_state (r_head r) = "pending" -> col_ok head_of_json (f (r_head r)) ->
  kc_state (f (r_head r)) = "failed" ->
  row_ok r -> row_ok (fail_full e (upd_cols Head f r)).
Proof.
  intros Hp Hc Hf []. assert (kc_state (r_full r) <> "ready") as Hnr.
  { intros E%row_full_ready0. congruence. }
  assert (col_state : kc_state (r_full r) = "pending" \/ kc_state (r_full r) = "failed").
  { destruct row_full0 as [[|[]]]; auto. done. }
  unfold fail_full, pending. constructor; cbn; auto; try case_bool_decide; cbn; auto with control;
    intros; try done; try congruence; exfalso; intuition congruence.
Qed.

Lemma row_ok_give_up k r :
  (1 <= max_attempts cfg)%Z -> pending (cols k r) = true -> (max_attempts cfg <= kc_attempts (cols k r))%Z ->
  row_ok r -> row_ok (give_up_row cfg k r).
Proof.
  intros Hmax Hp Ha Hr. unfold pending in Hp. apply bool_decide_eq_true in Hp.
  destruct k; unfold give_up_row; cbn -[gave_up_message with_cause String.append] in *.
  - apply row_ok_fail_head; try done. destruct Hr. auto 6 with control.
  - destruct Hr. assert (kc_state (r_head r) = "ready") as Hh by (apply row_full_attempts0; lia).
    constructor; cbn -[gave_up_message with_cause]; auto 6 with control; try done. congruence.
  - destruct Hr. constructor; cbn -[gave_up_message with_cause]; auto 6 with control.
Qed.

Lemma row_ok_take_lease k owner until r :
  (kc_attempts (cols k r) < max_attempts cfg)%Z ->
  (k = Full -> kc_state (r_head r) = "ready") ->
  row_ok r -> row_ok (take_lease k owner until r).
Proof.
  intros Ha Hf []. unfold take_lease.
  destruct k; constructor; cbn in *; auto; try (by intros; apply Hf).
  all: match goal with |- col_ok ?f _ => idtac | _ => fail end.
  - destruct row_head0. constructor; cbn; auto; [done|lia].
  - destruct row_full0. constructor; cbn; auto; [done|lia].
  - destruct row_files0. constructor; cbn; auto; [done|lia].
Qed.

Lemma row_ok_publish o data r :
  Output_to_json o = Ok data -> kc_state (cols (Output_kind o) r) = "pending" ->
  kc_lease_owner (cols (Output_kind o) r) <> None -> row_ok r -> row_ok (publish_row o data r).
Proof.
  intros Hj Hp Hl []. destruct o as [x parent|x|x]; cbn in *.
  - apply head_json in Hj. constructor; cbn; eauto with control; intros; exfalso; intuition congruence.
  - apply files_json in Hj. constructor; cbn; eauto with control.
  - apply full_json in Hj. constructor; cbn; eauto with control; try done.
    intros Hf. rewrite row_full_lease0 in Hf; done.
Qed.

Lemma row_ok_fail k e t r :
  kc_state (cols k r) = "pending" -> kc_lease_owner (cols k r) <> None ->
  row_ok r -> row_ok (fail_row cfg k e t r).
Proof.
  intros Hp Hl Hr. unfold fail_row. destruct (gives_up cfg t (cols k r)) eqn:Eg; destruct k; cbn in *.
  - apply row_ok_fail_head; try done. destruct Hr. apply (col_ok_fail _ (r_head r) true). done.
  - destruct Hr. constructor; cbn; auto; try done; [by apply (col_ok_fail _ (r_full r) true)|].
    intros _. rewrite row_full_lease0; done.
  - destruct Hr. constructor; cbn; auto. by apply (col_ok_fail _ (r_files r) true).
  - destruct Hr. constructor; cbn; auto; try done; [by apply (col_ok_fail _ (r_head r) false)|..];
      intros; exfalso; intuition congruence.
  - destruct Hr. constructor; cbn; auto; try done; [by apply (col_ok_fail _ (r_full r) false)|].
    intros. exfalso; intuition congruence.
  - destruct Hr. constructor; cbn; auto. by apply (col_ok_fail _ (r_files r) false).
Qed.

(** ** Updates that keep a row's identity and add no lease or output *)
Record benign (r r' : Row) : Prop := {
  bn_key : row_key r' = row_key r;
  bn_seq : r_seq r' = r_seq r;
  bn_mine : forall k, mine k r' -> mine k r;
  bn_names : forall h, row_names r' h -> row_names r h;
  bn_ok : row_ok r -> row_ok r';
}.

Ltac benign_tac :=
  constructor; [done | done | intros [] (? & ? & ?); cbn in *; unfold mine; cbn; eauto; try done
               | intros h Hh; unfold row_names in *; cbn in *; eauto; try done | ].

Lemma set_lease_benign k o u r :
  (o = None <-> u = None) -> (o = None \/ o = kc_lease_owner (cols k r)) ->
  benign r (upd_cols k (set_lease o u) r).
Proof.
  intros Hou Ho. destruct k; benign_tac; cbn in *; try (destruct Ho; simplify_eq; by eauto).
  - by apply row_ok_set_lease.
  - intros Hr. apply row_ok_set_lease; try done. intros _ Hn. destruct Ho as [|Ho]; [done|].
    apply (row_full_lease _ Hr). congruence.
  - by apply row_ok_set_lease.
Qed.

Lemma renew_benign k until r :
  kc_lease_owner (cols k r) <> None ->
  benign r (upd_cols k (fun c => set_lease (kc_lease_owner c) (Some until) c) r).
Proof.
  intros Hn. replace (upd_cols k _ r) with (upd_cols k (set_lease (kc_lease_owner (cols k r)) (Some until)) r)
    by (by destruct k). apply set_lease_benign; [|by right]. by destruct (kc_lease_owner (cols k r)).
Qed.

Lemma benign_trans r1 r2 r3 : benign r1 r2 -> benign r2 r3 -> benign r1 r3.
Proof. intros [] []. constructor; auto; congruence. Qed.

Lemma clear_leases_benign r : benign r (clear_leases r).
Proof.
  unfold clear_leases. eapply benign_trans; [|eapply benign_trans];
    apply set_lease_benign; auto; by split.
Qed.

Lemma set_ref_name_benign n r : benign r (set_ref_name n r).
Proof. benign_tac. intros []. by constructor. Qed.

Lemma reset_benign r : benign r (reset_row r).
Proof.
  assert (Hl : forall c, kc_lease_owner (reset_cols c) = kc_lease_owner c).
  { intros c. unfold reset_cols. by destruct (failed c). }
  assert (Hr : forall c, kc_state (reset_cols c) = "ready" -> reset_cols c = c).
  { intros c. unfold reset_cols, failed. by case_bool_decide. }
  constructor; [done|done| | |apply row_ok_reset].
  - intros [] (o & Ho & Hs); cbn in *; rewrite Hl in Ho; by exists o.
  - intros h Hh. unfold row_names in *. cbn in *.
    destruct Hh as [(j & x & Hst & H)|[(j & x & Hst & H)|(j & x & Hst & H)]];
      pose proof (Hr _ Hst) as Heq; rewrite Heq in Hst, H; naive_solver.
Qed.

Lemma fail_full_cols e r :
  kc_lease_owner (r_full (fail_full e r)) = kc_lease_owner (r_full r) /\
  (kc_state (r_full (fail_full e r)) = "ready" -> r_full (fail_full e r) = r_full r).
Proof. unfold fail_full, pending. cbn. by case_bool_decide. Qed.

Lemma give_up_benign k r :
  (1 <= max_attempts cfg)%Z -> pending (cols k r) = true -> (max_attempts cfg <= kc_attempts (cols k r))%Z ->
  benign r (give_up_row cfg k r).
Proof.
  intros Hm Hp Ha. constructor; [by destruct k|by destruct k| | |by apply row_ok_give_up].
  - intros k' (o & Ho & Hs). unfold give_up_row in Ho.
    destruct k, k'; cbn in Ho; try done; try (by exists o).
    exists o. split; [|done]. unfold pending in Ho. cbn. by case_bool_decide.
  - intros h. unfold row_names, give_up_row, fail_full, pending.
    destruct k; cbn; try case_bool_decide; cbn; naive_solver.
Qed.

Lemma fail_benign k e t r :
  kc_state (cols k r) = "pending" -> kc_lease_owner (cols k r) <> None ->
  benign r (fail_row cfg k e t r).
Proof.
  intros Hp Hl. unfold fail_row. pose proof (row_ok_fail k e t r Hp Hl) as Hok. unfold fail_row in Hok.
  destruct (gives_up cfg t (cols k r)); (constructor; [by destruct k|by destruct k| | |exact Hok]).
  all: try (intros k' (o & Ho & Hs); destruct k, k'; cbn in Ho; try done; exists o; (split; [|done]);
            unfold pending in Ho; cbn; try case_bool_decide; done).
  all: intros h; unfold row_names, fail_full, pending; destruct k; cbn; try case_bool_decide; cbn; naive_solver.
Qed.

Lemma update_benign st p f :
  (forall r, r ∈ builds st -> row_ok r -> p r = true -> benign r (f r)) ->
  store_ok st -> store_ok (set_builds (update_where p f (builds st)) st).
Proof.
  intros Hb Hok. pose proof (so_rows _ Hok) as Hrows. rewrite Forall_forall in Hrows.
  assert (Hb' : forall r, r ∈ builds st -> benign r (if p r then f r else r)).
  { intros r Hr. destruct (p r) eqn:E; [auto|]. by constructor. }
  assert (Hmap : forall A (g : Row -> A), (forall r r', benign r r' -> g r' = g r) ->
            map g (update_where p f (builds st)) = map g (builds st)).
  { intros A g Hg. unfold update_where. rewrite map_map. apply List.map_ext_in.
    intros r Hr. apply Hg, Hb'. by apply list_elem_of_In. }
  destruct Hok. constructor; cbn; auto.
  - apply Forall_forall. intros r' (r & Hr & ->)%elem_of_update_where. apply (bn_ok _ _ (Hb' r Hr)); auto.
  - rewrite Hmap; [done|]. by intros r r' [].
  - rewrite Hmap; [done|]. by intros r r' [].
  - apply Forall_forall. intros r' (r & Hr & ->)%elem_of_update_where. rewrite (bn_seq _ _ (Hb' r Hr)).
    rewrite Forall_forall in so_pos0. auto.
  - intros r' h (r & Hr & ->)%elem_of_update_where Hh%(bn_names _ _ (Hb' r Hr)).
    pose proof (bn_key _ _ (Hb' r Hr)) as Hk. apply (f_equal fst) in Hk. cbn in Hk. rewrite Hk. eauto.
  - intros k r1' r2' (r1 & H1 & ->)%elem_of_update_where (r2 & H2 & ->)%elem_of_update_where.
    pose proof (bn_key _ _ (Hb' r1 H1)) as K1. pose proof (bn_key _ _ (Hb' r2 H2)) as K2.
    intros Hrepo M1%(bn_mine _ _ (Hb' r1 H1)) M2%(bn_mine _ _ (Hb' r2 H2)).
    rewrite K1, K2. apply (so_mine0 k); try done.
    apply (f_equal fst) in K1, K2. cbn in K1, K2. congruence.
Qed.

Lemma owns_owner c r : owns c r = true -> kc_lease_owner (cols (Claim_kind c) r) = Some (c_owner c).
Proof. unfold owns. intros H. by breflect. Qed.
Lemma owns_key c r :
  owns c r = true -> row_key r = (storage_key (c_repo c), br_commit (c_build c)).
Proof. unfold owns. intros [H _]%andb_true_iff. by apply is_key_true. Qed.

Lemma store_ok_empty : store_ok empty_store.
Proof.
  constructor; cbn; try constructor; try set_solver; try (intros * H; by rewrite lookup_empty in H).
Qed.

(** *** Admission *)
Lemma coalesce_max_ge l x : x ∈ l -> (x <= coalesce_max l)%Z.
Proof.
  destruct l as [|y l]; [set_solver|]. cbn.
  assert (forall l y, (y <= foldr Z.max y l)%Z) as Hy.
  { intros l' y'. induction l'; cbn; lia. }
  intros [->|H]%elem_of_cons; [done|].
  induction l as [|z l IH]; [set_solver|]. cbn. apply elem_of_cons in H as [->|H]; [lia|].
  specialize (IH H). lia.
Qed.
Lemma coalesce_max_pos l : Forall (fun x => (0 < x)%Z) l -> (0 <= coalesce_max l)%Z.
Proof.
  destruct l as [|y l]; [done|]. cbn. intros [Hy Hl]%Forall_cons.
  induction Hl; cbn; lia.
Qed.

Lemma StronglySorted_snoc (l : list Z) x :
  StronglySorted Z.lt l -> (forall y, y ∈ l -> (y < x)%Z) -> StronglySorted Z.lt (l ++ [x]).
Proof.
  induction 1 as [|y l Hl IH Hy]; cbn; intros Hx; [by repeat constructor|].
  constructor; [apply IH; set_solver|]. apply Forall_app. split; [done|].
  constructor; [|done]. apply Hx. set_solver.
Qed.

Lemma row_ok_new repo commit ref_name now rows :
  (0 <= max_attempts cfg)%Z -> repo_ok repo -> validate_object_id commit = Ok tt ->
  row_ok (new_row (storage_key repo) commit ref_name now rows).
Proof.
  intros Hm Hr Hc. constructor; cbn; auto using col_ok_new; try done. eauto.
Qed.

Lemma store_ok_insert repo commit ref_name now st :
  (0 <= max_attempts cfg)%Z -> repo_ok repo -> validate_object_id commit = Ok tt ->
  existsb (is_key (storage_key repo) commit) (builds st) = false ->
  store_ok st ->
  store_ok (set_builds (builds st ++ [new_row (storage_key repo) commit ref_name now (builds st)]) st).
Proof.
  intros Hm Hr Hc Hnew []. set (r0 := new_row _ _ _ _ _).
  assert (Hmine : forall k, ~ mine k r0) by (intros [] (? & ? & ?); done).
  assert (Hnames : forall h, ~ row_names r0 h).
  { intros h [(? & ? & ? & _)|[(? & ? & ? & _)|(? & ? & ? & _)]]; done. }
  constructor; cbn; auto.
  - apply Forall_app. split; [done|]. constructor; [|done]. by apply row_ok_new.
  - rewrite map_app. apply NoDup_app. split_and!; [done| |apply NoDup_singleton].
    intros key (r & -> & Hin)%list_elem_of_fmap Hk%list_elem_of_singleton.
    rewrite existsb_not_elem in Hnew. specialize (Hnew _ Hin).
    apply not_true_iff_false in Hnew. by apply Hnew, is_key_true.
  - rewrite map_app. apply StronglySorted_snoc; [done|].
    intros y Hy%coalesce_max_ge. cbn. lia.
  - apply Forall_app. split; [done|]. constructor; [|done]. cbn.
    pose proof (coalesce_max_pos (map r_seq (builds st))) as Hp.
    rewrite Forall_map in Hp. specialize (Hp so_pos0). lia.
  - intros r h [Hin| ->%list_elem_of_singleton]%elem_of_app Hh; [eauto|]. by apply Hnames in Hh.
  - intros k r1 r2 [H1| ->%list_elem_of_singleton]%elem_of_app [H2| ->%list_elem_of_singleton]%elem_of_app Hk M1 M2;
      try (by apply Hmine in M1); try (by apply Hmine in M2). eauto.
Qed.

Lemma admit_ok now repo commit ref_name st :
  (0 <= max_attempts cfg)%Z -> repo_ok repo -> store_ok st -> store_ok (admit_build now repo commit ref_name st).1.
Proof.
  intros Hm Hr Hok. unfold admit_build.
  destruct (rbind _ _) as [u|] eqn:Ev; [|done]. inv_ok Ev. destruct v.
  assert (store_ok (set_builds
    (if negb (existsb (is_key (storage_key repo) commit) (builds st))
     then builds st ++ [new_row (storage_key repo) commit ref_name now (builds st)]
     else match ref_name with
          | Some _ => update_where (fun r => is_key (storage_key repo) commit r && bool_decide (r_ref_name r = None))
                        (set_ref_name ref_name) (builds st)
          | None => builds st end) st)) as Hst.
  { destruct (existsb _ _) eqn:Ee; cbn.
    - destruct ref_name; [apply update_benign; auto using set_ref_name_benign|].
      by destruct st.
    - by apply store_ok_insert. }
  cbv zeta. match goal with |- context [find_build ?a ?b ?c] => by destruct (find_build a b c) end.
Qed.

Lemma retry_ok repo commit st : store_ok st -> store_ok (retry repo commit st).1.
Proof. intros. cbn. apply update_benign; auto using reset_benign. Qed.
Lemma renew_ok now c lease st : store_ok st -> store_ok (renew now c lease st).1.
Proof.
  intros. cbn. apply update_benign; [|done]. intros r _ _ Hp%owns_owner.
  apply renew_benign. by rewrite Hp.
Qed.
Lemma release_ok c st : store_ok st -> store_ok (release c st).1.
Proof. intros. cbn. apply update_benign; [|done]. intros. apply set_lease_benign; [done|auto]. Qed.
Lemma reset_leases_ok st : store_ok st -> store_ok (reset_leases st).1.
Proof. intros. cbn. apply update_benign; auto using clear_leases_benign. Qed.
Lemma fail_ok now c e t st : store_ok st -> store_ok (fail cfg now c e t st).1.
Proof.
  intros. cbn. apply update_benign; [|done]. intros r _ _ [Ho%owns_owner Hp%bool_decide_eq_true]%andb_true_iff.
  apply fail_benign; [done|]. by rewrite Ho.
Qed.
Lemma give_up_exhausted_ok now k st :
  (1 <= max_attempts cfg)%Z -> store_ok st -> store_ok (give_up_exhausted cfg now k st).
Proof.
  intros Hm Hok. apply update_benign; [|done]. intros r _ _ He. unfold exhausted in He.
  apply andb_true_iff in He as [[Hp Ha%Z.leb_le]%andb_true_iff _]. by apply give_up_benign.
Qed.

(** *** Claim *)
Lemma candidate_Some now p st b :
  candidate cfg now p st = Some b ->
  b ∈ builds st /\ claimable cfg now p (builds st) b = true /\
  forall r, r ∈ builds st -> claimable cfg now p (builds st) r = true ->
    turn_seq_le (Pool_kind p) st b r = true.
Proof.
  unfold candidate. intros [Hin Hle]%min_by_spec.
  - apply elem_of_lfilter in Hin as [Hin Hc]. split_and!; [done..|].
    intros r Hr Hcr. apply Hle, elem_of_lfilter. done.
  - intros x y. unfold turn_seq_le. rewrite !orb_true_iff, !andb_true_iff, !Z.ltb_lt, !Z.eqb_eq, !Z.leb_le. lia.
  - intros x y z. unfold turn_seq_le. rewrite !orb_true_iff, !andb_true_iff, !Z.ltb_lt, !Z.eqb_eq, !Z.leb_le. lia.
Qed.
Lemma candidate_None now p st :
  candidate cfg now p st = None <-> forall r, r ∈ builds st -> claimable cfg now p (builds st) r = false.
Proof.
  unfold candidate. rewrite min_by_None. split.
  - intros H r Hr. destruct (claimable _ _ _ _ r) eqn:E; [|done].
    assert (r ∈ List.filter (claimable cfg now p (builds st)) (builds st)) as Hin
      by by apply elem_of_lfilter.
    rewrite H in Hin. set_solver.
  - intros H. destruct (List.filter _ _) as [|r l] eqn:E; [done|].
    assert (r ∈ List.filter (claimable cfg now p (builds st)) (builds st)) as [Hr Hc]%elem_of_lfilter
      by (rewrite E; set_solver).
    rewrite H in Hc; done.
Qed.

Lemma claimable_true now p rows r :
  claimable cfg now p rows r = true <->
  kc_state (cols (Pool_kind p) r) = "pending" /\ needs p r rows = true /\
  lease_held cfg now (cols (Pool_kind p) r) = false /\
  (kc_retry_after (cols (Pool_kind p) r) <= now)%Z /\
  (kc_attempts (cols (Pool_kind p) r) < max_attempts cfg)%Z /\
  forall busy, busy ∈ rows -> r_repo busy = r_repo r -> lease_held cfg now (cols (Pool_kind p) busy) = false.
Proof.
  unfold claimable, pending. rewrite !andb_true_iff, !negb_true_iff, existsb_not_elem, bool_decide_eq_true,
    Z.leb_le, Z.ltb_lt. split.
  - intros (((((?&?)&?)&?)&?)&Hb). split_and!; auto. intros busy Hin Hr.
    specialize (Hb busy Hin). rewrite bool_decide_true in Hb by done. done.
  - intros (?&?&?&?&?&Hb). split_and!; auto. intros busy Hin.
    destruct (decide (r_repo busy = r_repo r)); [rewrite (Hb busy) by done; by rewrite andb_false_r|].
    by rewrite bool_decide_false.
Qed.

Lemma take_lease_names k owner until r h : row_names (take_lease k owner until r) h <-> row_names r h.
Proof. by destruct k. Qed.

Lemma mine_held now k r : mine k r -> lease_held cfg now (cols k r) = true.
Proof. intros (o & Ho & Hs). unfold lease_held. rewrite Ho, Hs. apply orb_true_r. Qed.

Lemma store_ok_take now p owner until st b :
  store_ok st -> candidate cfg now p st = Some b ->
  store_ok (set_builds (update_where (is_key (r_repo b) (r_commit_id b))
              (take_lease (Pool_kind p) owner until) (builds st)) st).
Proof.
  intros Hok (Hb & (Hp & Hn & Hl & Hr & Ha & Hbusy)%claimable_true & _)%candidate_Some.
  assert (Hkey : forall r, r ∈ builds st -> is_key (r_repo b) (r_commit_id b) r = true -> r = b).
  { intros r Hin Hk%is_key_true. by eapply keys_unique. }
  assert (Hmap : forall A (g : Row -> A), (forall r, g (take_lease (Pool_kind p) owner until r) = g r) ->
    map g (update_where (is_key (r_repo b) (r_commit_id b)) (take_lease (Pool_kind p) owner until) (builds st))
    = map g (builds st)) by (intros; by apply update_where_map).
  destruct Hok. constructor; cbn; auto.
  - apply Forall_forall. intros r' (r & Hin & ->)%elem_of_update_where. rewrite Forall_forall in so_rows0.
    destruct (is_key _ _ r) eqn:E; [|by apply so_rows0]. apply Hkey in E as ->; [|done].
    apply row_ok_take_lease; auto. intros E. destruct p; try done. cbn in Hn. unfold is_ready in Hn. by breflect.
  - by rewrite Hmap.
  - by rewrite Hmap.
  - rewrite <- Forall_map, Hmap, Forall_map; done.
  - intros r' h (r & Hin & ->)%elem_of_update_where Hh. destruct (is_key _ _ r); [|by eauto].
    apply take_lease_names in Hh. cbn. eauto.
  - intros k r1' r2' (r1 & H1 & ->)%elem_of_update_where (r2 & H2 & ->)%elem_of_update_where.
    assert (Htk : forall r, r_repo (take_lease (Pool_kind p) owner until r) = r_repo r /\
      row_key (take_lease (Pool_kind p) owner until r) = row_key r /\
      (k <> Pool_kind p -> mine k (take_lease (Pool_kind p) owner until r) -> mine k r)).
    { intros r. split_and!; [done..|]. intros Hk (o & Ho & Hs). exists o. split; [|done].
      unfold take_lease in Ho. by rewrite cols_upd_other in Ho. }
    destruct (decide (k = Pool_kind p)) as [->|Hk].
    + destruct (is_key _ _ r1) eqn:E1, (is_key _ _ r2) eqn:E2; intros Hrepo M1 M2.
      * apply Hkey in E1, E2; congruence.
      * apply Hkey in E1 as ->; [|done]. apply (mine_held now) in M2. rewrite Hbusy in M2; done.
      * apply Hkey in E2 as ->; [|done]. apply (mine_held now) in M1. rewrite Hbusy in M1; done.
      * eauto.
    + destruct (is_key _ _ r1), (is_key _ _ r2); cbn; intros Hrepo M1 M2; unfold row_key; cbn;
        apply (so_mine0 k); auto; by apply Htk.
Qed.

Lemma turns_le_max st key turn :
  owner_turns st !! key = Some turn -> (turn <= coalesce_max (map snd (map_to_list (owner_turns st))))%Z.
Proof.
  intros H. apply coalesce_max_ge, list_elem_of_fmap. exists (key, turn).
  split; [done|]. by apply elem_of_map_to_list.
Qed.
Lemma turns_max_pos st : store_ok st -> (0 <= coalesce_max (map snd (map_to_list (owner_turns st))))%Z.
Proof.
  intros Hok. apply coalesce_max_pos, Forall_forall.
  intros t ([key t'] & -> & H%elem_of_map_to_list)%list_elem_of_fmap. by eapply so_turns.
Qed.
Lemma record_turn_ok k repo st : store_ok st -> store_ok (record_turn k repo st).
Proof.
  intros Hok. pose proof (turns_max_pos st Hok) as Hp. destruct Hok. constructor; cbn -[coalesce_max]; auto.
  intros key turn [[_ <-]|[_ H]]%lookup_insert_Some; [lia|eauto].
Qed.

Lemma claim_ok now owner p lease st :
  (1 <= max_attempts cfg)%Z -> store_ok st -> store_ok (claim cfg now owner p lease st).1.
Proof.
  intros Hm Hok. unfold claim. destruct (negb _); [done|].
  pose proof (give_up_exhausted_ok now (Pool_kind p) st Hm Hok) as Hok'.
  destruct (candidate _ _ _ _) as [b|] eqn:E; [|done]. cbn [fst].
  by eapply record_turn_ok, store_ok_take.
Qed.

(** *** Publishing *)
Lemma record_refs_ok repo hashes st : store_ok st -> store_ok (record_refs repo hashes st).
Proof.
  intros []. constructor; cbn; auto; intros; apply elem_of_union_l; eauto.
Qed.
Lemma elem_of_record_refs repo hashes st x :
  x ∈ artifact_refs (record_refs repo hashes st) <-> x ∈ artifact_refs st \/ (x.1 = repo /\ x.2 ∈ hashes).
Proof. cbn. rewrite elem_of_union, elem_of_map. destruct x. naive_solver. Qed.

Lemma publish_row_names o data r h :
  Output_to_json o = Ok data ->
  row_names (publish_row o data r) h -> row_names r h \/ h ∈ Output_artifacts o.
Proof.
  intros Hj Hh. destruct o as [x parent|x|x]; cbn in *; unfold row_names in *; cbn in *;
    first [apply head_json in Hj|apply files_json in Hj|apply full_json in Hj];
    destruct Hh as [(j & y & H)|[(j & y & H)|(j & y & H)]]; try (left; naive_solver).
  all: right; destruct H as (_ & [= <-] & Hy & Hh); congruence.
Qed.
Lemma publish_row_mine k o data r : mine k (publish_row o data r) <-> mine k r.
Proof. by destruct k, o. Qed.
Lemma publish_row_key o data r : row_key (publish_row o data r) = row_key r.
Proof. by destruct o. Qed.
Lemma publish_row_repo o data r : r_repo (publish_row o data r) = r_repo r.
Proof. by destruct o. Qed.
Lemma publish_row_seq o data r : r_seq (publish_row o data r) = r_seq r.
Proof. by destruct o. Qed.

Definition publish_store (c : Claim) (o : Output) (data : json) (st : Store) : Store :=
  record_refs (storage_key (c_repo c)) (Output_artifacts o)
    (set_builds (update_where (fun r => owns c r && pending (cols (Output_kind o) r)) (publish_row o data)
       (builds st)) st).

Lemma publish_store_ok c o data st :
  Output_to_json o = Ok data -> Output_kind o = Claim_kind c -> store_ok st -> store_ok (publish_store c o data st).
Proof.
  intros Hj Hk Hok.
  assert (Hp : forall r, owns c r && pending (cols (Output_kind o) r) = true ->
    r_repo r = storage_key (c_repo c) /\ kc_state (cols (Output_kind o) r) = "pending" /\
    kc_lease_owner (cols (Output_kind o) r) <> None).
  { intros r [Ho Hp%bool_decide_eq_true]%andb_true_iff. pose proof (owns_owner _ _ Ho) as Hl.
    apply owns_key in Ho. rewrite Hk, Hl in *. split_and!; [by apply (f_equal fst) in Ho|done..]. }
  unfold publish_store. set (p := fun r => owns c r && _) in *.
  assert (Hmap : forall A (g : Row -> A), (forall r, g (publish_row o data r) = g r) ->
    map g (update_where p (publish_row o data) (builds st)) = map g (builds st))
    by (intros; by apply update_where_map).
  assert (Hg : forall r, row_key (if p r then publish_row o data r else r) = row_key r
                 /\ r_repo (if p r then publish_row o data r else r) = r_repo r
                 /\ forall k, mine k (if p r then publish_row o data r else r) <-> mine k r).
  { intros r. destruct (p r); [|done]. split_and!; [apply publish_row_key|apply publish_row_repo|].
    intros. apply publish_row_mine. }
  destruct Hok. constructor; cbn -[record_refs]; auto.
  - apply update_where_Forall; [|done]. intros r (_ & Hs & Hl)%Hp Hr. by apply row_ok_publish.
  - rewrite Hmap; [done|]. apply publish_row_key.
  - rewrite Hmap; [done|]. apply publish_row_seq.
  - cbn. rewrite <- Forall_map, Hmap, Forall_map; [done|]. apply publish_row_seq.
  - intros r' h (r & Hin & ->)%elem_of_update_where Hh. rewrite (proj1 (proj2 (Hg r))). apply elem_of_record_refs.
    destruct (p r) eqn:E; [|by left; eauto]. apply Hp in E as (Er & Es & _). cbn [fst snd].
    apply publish_row_names in Hh as [Hh|Hh]; [left; cbn; eauto|right; done|done].
  - intros repo refs Hr Hrefs h Hh. apply elem_of_record_refs. left. cbn. eauto.
  - intros k r1' r2' (r1 & H1 & ->)%elem_of_update_where (r2 & H2 & ->)%elem_of_update_where.
    destruct (Hg r1) as (-> & -> & ->), (Hg r2) as (-> & -> & ->). eauto.
Qed.

(** [publish] either changes nothing, or writes the claimed pending row. *)
Lemma publish_cases c o st :
  ((publish c o st).1 = st) \/
  exists data r, Output_to_json o = Ok data /\ Output_kind o = Claim_kind c /\
    exact_output_artifacts_ready (br_commit (c_build c)) (Output_kind o) (Output_clonepack o) = true /\
    r ∈ builds st /\ owns c r = true /\ kc_state (cols (Output_kind o) r) = "pending" /\
    publish c o st = (publish_store c o data st,
                      Ok {| applied := true; row_complete := all_ready (publish_row o data r) |}).
Proof.
  unfold publish. destruct (exact_output_artifacts_ready _ _ _) eqn:Ea; [cbn [negb]|by left].
  destruct (Output_to_json o) as [data|] eqn:Ej; [|by left].
  destruct (kind_eqb_spec (Output_kind o) (Claim_kind c)) as [Hk|]; [|by left]. cbn [negb].
  destruct (List.find _ _) as [r|] eqn:Ef; [|by left].
  apply find_Some in Ef as [Hin [Ho Hp%bool_decide_eq_true]%andb_true_iff].
  right. exists data, r. split_and!; done.
Qed.

Lemma publish_ok c o st : store_ok st -> store_ok (publish c o st).1.
Proof.
  intros Hok. destruct (publish_cases c o st) as [->|(data & r & Hj & Hk & _ & _ & _ & _ & ->)]; [done|].
  by apply publish_store_ok.
Qed.

(** *** The other tables *)
Lemma set_deletions_ok m st : store_ok st -> store_ok (set_deletions m st).
Proof. intros []. by constructor. Qed.
Lemma set_artifact_sizes_ok m st : store_ok st -> store_ok (set_artifact_sizes m st).
Proof. intros []. by constructor. Qed.
Lemma set_build_usage_ok m st : store_ok st -> store_ok (set_build_usage m st).
Proof. intros []. by constructor. Qed.
Lemma set_added_repos_ok m st :
  (forall repo added, m !! repo = Some added -> exists r, repo_ok r /\ repo = storage_key r) ->
  store_ok st -> store_ok (set_added_repos m st).
Proof. intros Hm []. by constructor. Qed.
Lemma add_repo_ok now repo owner st :
  repo_ok repo -> store_ok st -> store_ok (add_repo now repo owner st).1.
Proof.
  intros Hr Hok. pose proof (so_added _ Hok) as Ha.
  assert (Hins : forall x, store_ok (set_added_repos (<[storage_key repo := x]> (added_repos st)) st)).
  { intros x. apply set_added_repos_ok; [|done]. intros key added.
    destruct (decide (key = storage_key repo)) as [->|]; [by eauto|]. rewrite lookup_insert_ne by done. eauto. }
  unfold add_repo. destruct (added_repos st !! _) as [[at_ old]|]; [|apply Hins].
  destruct owner; [|done]. case_bool_decide; [apply Hins|done].
Qed.
Lemma remove_repo_ok repo st : store_ok st -> store_ok (remove_repo repo st).1.
Proof.
  intros Hok. apply set_added_repos_ok; [|done].
  intros key added [_ H]%lookup_delete_Some. by eapply so_added.
Qed.
Lemma queue_deletions_ok hashes due_at st : store_ok st -> store_ok (queue_deletions hashes due_at st).1.
Proof. by apply set_deletions_ok. Qed.
Lemma dequeue_deletions_ok hashes now st : store_ok st -> store_ok (dequeue_deletions hashes now st).1.
Proof. intros. by apply set_artifact_sizes_ok, set_deletions_ok. Qed.
Lemma record_sizes_ok sizes st : store_ok st -> store_ok (record_sizes sizes st).1.
Proof. by apply set_artifact_sizes_ok. Qed.
Lemma add_build_time_ok repo kind ms st : store_ok st -> store_ok (add_build_time repo kind ms st).1.
Proof. by apply set_build_usage_ok. Qed.

Lemma filter_StronglySorted {A} (R : relation A) (p : A -> bool) l :
  StronglySorted R l -> StronglySorted R (List.filter p l).
Proof.
  induction 1 as [|x l Hl IH Hx]; cbn; [constructor|]. destruct (p x); [|done]. constructor; [done|].
  apply Forall_forall. intros y [Hy _]%elem_of_lfilter. rewrite Forall_forall in Hx. auto.
Qed.
Lemma filter_NoDup {A} (p : A -> bool) l : NoDup l -> NoDup (List.filter p l).
Proof.
  induction 1 as [|x l Hx Hl IH]; cbn; [constructor|]. destruct (p x); [|done].
  constructor; [|done]. by intros [? _]%elem_of_lfilter.
Qed.
Lemma map_filter_StronglySorted {A} (g : A -> Z) (p : A -> bool) l :
  StronglySorted Z.lt (map g l) -> StronglySorted Z.lt (map g (List.filter p l)).
Proof.
  induction l as [|x l IH]; cbn; [done|]. intros [Hl Hx]%StronglySorted_inv.
  destruct (p x); cbn; [|auto]. constructor; [auto|]. apply Forall_forall.
  intros y (z & -> & [Hz _]%elem_of_lfilter)%list_elem_of_fmap. rewrite Forall_forall in Hx.
  by apply Hx, list_elem_of_fmap_2.
Qed.
Lemma map_filter_NoDup {A B} (g : A -> B) (p : A -> bool) l :
  NoDup (map g l) -> NoDup (map g (List.filter p l)).
Proof.
  induction l as [|x l IH]; cbn; [done|]. intros [Hx Hl]%NoDup_cons.
  destruct (p x); cbn; [|auto]. apply NoDup_cons. split; [|auto].
  intros (z & Heq & [Hz _]%elem_of_lfilter)%list_elem_of_fmap. apply Hx. rewrite Heq.
  by apply list_elem_of_fmap_2.
Qed.

Lemma purge_repo_ok repo due_at st : store_ok st -> store_ok (purge_repo repo due_at st).1.
Proof.
  intros []. constructor; cbn; auto.
  - apply Forall_forall. intros r [Hr _]%elem_of_lfilter. rewrite Forall_forall in so_rows0. auto.
  - by apply map_filter_NoDup.
  - by apply map_filter_StronglySorted.
  - apply Forall_forall. intros r [Hr _]%elem_of_lfilter. rewrite Forall_forall in so_pos0. auto.
  - intros r h [Hr Hn]%elem_of_lfilter Hh. unfold of_repo in Hn. breflect.
    apply elem_of_filter. cbn. eauto.
  - intros key row [_ H]%lookup_delete_Some. eauto.
  - intros repo' refs Hr'. unfold get_refs. cbn.
    destruct (decide (storage_key repo = storage_key repo')) as [->|Hne].
    + by rewrite lookup_delete_eq.
    + rewrite lookup_delete_ne by done. intros H h Hh. apply elem_of_filter. split; [by cbn|].
      eapply so_refs_named0; eauto.
  - intros key added [_ H]%lookup_delete_Some. eauto.
  - intros k r1 r2 [H1 _]%elem_of_lfilter [H2 _]%elem_of_lfilter. eauto.
Qed.

Lemma option_res_ok {A B} (f : A -> Result B) o o' :
  option_res f o = Ok o' <-> match o with
                             | Some x => exists y, f x = Ok y /\ o' = Some y
                             | None => o' = None
                             end.
Proof.
  destruct o; cbn; [rewrite rbind_ok|]; split; naive_solver.
Qed.

(** A refs row is read back as the refs it was written from. *)
Lemma set_refs_cases repo refs st :
  ((set_refs repo refs st).1 = st /\ (set_refs repo refs st).2 <> Ok true) \/
  exists row, (set_refs repo refs st).1 =
      record_refs (storage_key repo) (RepoRefs_artifacts refs)
        (set_repo_refs (<[storage_key repo := row]> (repo_refs st)) st) /\
    refs_ok row /\ known_repo (storage_key repo) st = true /\
    (set_refs repo refs st).2 = Ok true /\
    get_refs repo (set_refs repo refs st).1 = Ok (Some refs).
Proof.
  unfold set_refs. destruct (known_repo _ _) eqn:Ek; [cbn [negb]|by left].
  match goal with |- context [match ?x with _ => _ end] => destruct x as [row|] eqn:E end; [|by left].
  right. exists row. inv_ok E. unfold column_of_u64 in *.
  repeat match goal with H : context [if ?b then _ else _] |- _ => destruct b eqn:?; [|done] end. simplify_eq.
  rewrite option_res_ok in *.
  assert (Hb : forall o o', match o with
      | Some x => exists y, branches_to_json x = Ok y /\ o' = Some y | None => o' = None end ->
      option_res branches_of_json o' = Ok o /\
      forall j, o' = Some j -> exists b, branches_of_json j = Ok b).
  { intros [x|] o'; cbn; [|intros ->; done]. intros (y & Hy%branches_json & ->). cbn. rewrite Hy. naive_solver. }
  apply Hb in E2 as [E2 E2'], E3 as [E3 E3'].
  split_and!; try done; [split_and!; cbn; auto; lia|].
  unfold get_refs. cbn [fst record_refs repo_refs set_artifact_refs set_repo_refs]. rewrite lookup_insert_eq. cbn. unfold u64_of_column.
  rewrite !(proj2 (Z.leb_le 0 _)) by lia. cbn. rewrite E2, E3. cbn. rewrite !N2Z.id. by destruct refs.
Qed.

Lemma repo_ok_key repo : repo_ok repo -> from_storage_key (storage_key repo) = Ok repo.
Proof. apply storage_key_decodes. Qed.

Lemma set_refs_ok repo refs st : repo_ok repo -> store_ok st -> store_ok (set_refs repo refs st).1.
Proof.
  intros Hr Hok. destruct (set_refs_cases repo refs st) as [[-> _]|(row & Heq & Hrow & _ & _ & Hget)]; [done|].
  rewrite Heq in *. destruct Hok. constructor; cbn -[record_refs]; auto.
  - intros r h Hin Hh. apply elem_of_record_refs. left. cbn in *. eauto.
  - intros key row'. cbn. intros [[<- <-]|[_ H]]%lookup_insert_Some; [done|eauto].
  - intros repo' refs' Hr' Hget' h Hh. apply elem_of_record_refs.
    destruct (decide (storage_key repo = storage_key repo')) as [Hk|Hne].
    + right. apply storage_key_inj in Hk as <-; [|done..]. cbn in Hget, Hget'. rewrite Hget in Hget'. by simplify_eq.
    + left. cbn. eapply so_refs_named0; eauto. revert Hget'. unfold get_refs. cbn.
      by rewrite lookup_insert_ne.
Qed.

(** ** Every reachable store satisfies the invariant *)
Lemma step_ok st st' : (1 <= max_attempts cfg)%Z -> step st st' -> store_ok st -> store_ok st'.
Proof.
  intros Hm [] Hok; auto using retry_ok, claim_ok, renew_ok, publish_ok, fail_ok, release_ok, reset_leases_ok,
    add_repo_ok, remove_repo_ok, purge_repo_ok, queue_deletions_ok, dequeue_deletions_ok, set_refs_ok,
    record_sizes_ok, add_build_time_ok.
  apply admit_ok; auto. lia.
Qed.

Lemma reachable_store_ok st : (1 <= max_attempts cfg)%Z -> reachable st -> store_ok st.
Proof.
  intros Hm H. unfold reachable in H. remember empty_store as st0 eqn:E.
  assert (store_ok st0) as Hok by (subst; apply store_ok_empty). clear E.
  induction H; eauto using step_ok.
Qed.

End inv.
#[export] Hint Rewrite @cols_upd_same @row_key_upd @r_seq_upd : control.
