(* ===== verification/ControlThms.v ===== *)
(** What the control store promises its callers ([control/mod.rs]): reads that
    always decode, fair and exclusive claims, publishes that are never lost,
    lost leases that write nothing, a bounded number of builds, and artifacts
    that are deleted only when nothing names them. *)

From S2P Require Import Prelude Provider Validation Outputs Control ControlInv.

(** ** A serialization for the examples: a value is its own JSON. *)
Module Example.
Inductive value :=
  | VHead (x : HeadResult) | VFiles (x : FilesResult) | VFull (x : FullResult) | VBranches (x : RepoBranches).

#[export] Instance serde : Serde := {|
  json := value;
  head_to_json x := Ok (VHead x);
  head_of_json v := match v with VHead x => Ok x | _ => Err "invalid type" end;
  files_to_json x := Ok (VFiles x);
  files_of_json v := match v with VFiles x => Ok x | _ => Err "invalid type" end;
  full_to_json x := Ok (VFull x);
  full_of_json v := match v with VFull x => Ok x | _ => Err "invalid type" end;
  branches_to_json x := Ok (VBranches x);
  branches_of_json v := match v with VBranches x => Ok x | _ => Err "invalid type" end;
|}.
#[export] Instance serde_ok : SerdeOk serde.
Proof. by constructor; intros x j [= <-]. Qed.

Definition cfg : StoreConfig := {| max_attempts := 2; instance := "7-a:" |}.
Definition repo : RepoId := RepoId_github "acme/demo".
Definition commit : string := "0123456789abcdef0123456789abcdef01234567".
Definition hash : string := "0123456789abcdef0123456789abcdef0123456789abcdef0123456789abcdef".
Definition clonepack : ClonepackArtifacts :=
  {| ca_manifest := hash; ca_metadata_chunk := hash; ca_metadata_delta := ""; ca_midx := "";
     ca_idx_bundle := hash; ca_commit := commit |}.
Definition head : HeadResult :=
  {| hr_clonepack := clonepack; hr_parent_commit := None; hr_packs := []; hr_base_commit := "";
     hr_base_packs := []; hr_levels := [] |}.

(** The store with one admitted commit, then with its Head claimed. *)
Definition admitted : Store := (admit_build 100 repo commit None empty_store).1.
Definition claimed : Store * Result (option Claim) := claim cfg 101 "worker" PHead 60 admitted.
Definition the_claim : Claim :=
  match claimed.2 with
  | Ok (Some c) => c
  | _ => {| c_repo := repo; c_owner := ""; c_pool := PHead;
            c_build := {| br_commit := ""; br_ref_name := None; br_parent := None; br_created_at := 0;
              br_seq := 0; br_head := Pending None; br_files := Pending None; br_full := Pending None;
              br_head_lease := {| l_attempts := 0; l_until := None |};
              br_files_lease := {| l_attempts := 0; l_until := None |};
              br_full_lease := {| l_attempts := 0; l_until := None |} |} |}
  end.
Definition published : Store * Result Published := publish the_claim (OHead head (Some commit)) claimed.1.

Lemma repo_is_ok : repo_ok repo.
Proof. by vm_compute. Qed.
Lemma admitted_reachable : reachable cfg admitted.
Proof. apply rtc_once. by apply (step_admit cfg 100 repo commit None empty_store), repo_is_ok. Qed.
Lemma claimed_reachable : reachable cfg claimed.1.
Proof. eapply rtc_r; [apply admitted_reachable|]. apply (step_claim cfg 101 "worker" PHead 60 admitted). Qed.
Lemma published_reachable : reachable cfg published.1.
Proof. eapply rtc_r; [apply claimed_reachable|]. apply (step_publish cfg). Qed.
End Example.

Section thms.
Context {S : Serde} {SOk : SerdeOk S} (cfg : StoreConfig).

(** ** The rows a step keeps *)

(** An output of kind [k] of [commit] that [publish] accepts, as a row stores it. *)
Definition publishable (commit : string) (k : ExactResultKind) (output : option json) : Prop :=
  exists o data, output = Some data /\ Output_to_json o = Ok data /\ Output_kind o = k /\
    exact_output_artifacts_ready commit k (Output_clonepack o) = true.
(** [r'] is [r] after a step: a ready output never changes, a new one was
    accepted by [publish], and a lease owner is either the old one or one this
    store's claim wrote. *)
Record row_step (r r' : Row) : Prop := {
  rs_key : row_key r' = row_key r;
  rs_seq : r_seq r' = r_seq r;
  rs_ready : forall k, kc_state (cols k r) = "ready" ->
    kc_state (cols k r') = "ready" /\ kc_output (cols k r') = kc_output (cols k r);
  rs_owner : forall k o, kc_lease_owner (cols k r') = Some o ->
    kc_lease_owner (cols k r) = Some o \/ starts_with (instance cfg) o = true;
  rs_made : forall k, kc_state (cols k r') = "ready" ->
    (kc_state (cols k r) = "ready" /\ kc_output (cols k r') = kc_output (cols k r)) \/
    publishable (r_commit_id r) k (kc_output (cols k r'));
}.

Lemma row_step_refl r : row_step r r.
Proof. constructor; auto. Qed.
Lemma row_step_trans r1 r2 r3 : row_step r1 r2 -> row_step r2 r3 -> row_step r1 r3.
Proof.
  intros [K1 Q1 R1 O1 M1] [K2 Q2 R2 O2 M2]. constructor; [congruence|congruence| | |].
  - intros k H. destruct (R1 k H) as [H1 E1]. destruct (R2 k H1) as [H2 E2]. split; congruence.
  - intros k o H. destruct (O2 k o H); auto.
  - intros k H. destruct (M2 k H) as [[H1 E1]|H1].
    + rewrite E1. by apply M1.
    + apply (f_equal snd) in K1. cbn in K1. rewrite K1 in H1. by right.
Qed.
Lemma row_step_upd k f r :
  (kc_state (cols k r) = "ready" ->
     kc_state (f (cols k r)) = "ready" /\ kc_output (f (cols k r)) = kc_output (cols k r)) ->
  (forall o, kc_lease_owner (f (cols k r)) = Some o ->
     kc_lease_owner (cols k r) = Some o \/ starts_with (instance cfg) o = true) ->
  (kc_state (f (cols k r)) = "ready" -> kc_state (cols k r) = "ready") ->
  row_step r (upd_cols k f r).
Proof.
  intros Hs Ho Hm. constructor; [done|done| | |]; intros k'; destruct (decide (k = k')) as [<-|Hk].
  - by rewrite cols_upd_same.
  - by rewrite cols_upd_other.
  - rewrite cols_upd_same. apply Ho.
  - rewrite cols_upd_other; auto.
  - rewrite cols_upd_same. intros H%Hm. left. split; [done|]. by apply Hs.
  - rewrite cols_upd_other; auto.
Qed.
Lemma row_step_lease k o u r :
  (forall x, o = Some x -> kc_lease_owner (cols k r) = Some x) -> row_step r (upd_cols k (set_lease o u) r).
Proof. intros H. apply row_step_upd; cbn; [done| |done]. intros x ->. eauto. Qed.
Lemma row_step_fail_full e r : row_step r (fail_full e r).
Proof.
  unfold fail_full, pending. apply row_step_upd; cbn; case_bool_decide as E; cbn; auto; try done. by rewrite E.
Qed.
Lemma row_step_reset r : row_step r (reset_row r).
Proof.
  assert (H : forall k r, row_step r (upd_cols k reset_cols r)).
  { intros k r0. apply row_step_upd; unfold reset_cols, failed; case_bool_decide as E; cbn; auto; try done. by rewrite E. }
  unfold reset_row. eapply row_step_trans; [|eapply row_step_trans]; apply H.
Qed.
Lemma row_step_clear r : row_step r (clear_leases r).
Proof.
  unfold clear_leases. eapply row_step_trans; [|eapply row_step_trans]; by apply row_step_lease.
Qed.
Lemma row_step_pending k f r :
  kc_state (cols k r) = "pending" ->
  (forall o, kc_lease_owner (f (cols k r)) = Some o -> kc_lease_owner (cols k r) = Some o) ->
  kc_state (f (cols k r)) <> "ready" -> row_step r (upd_cols k f r).
Proof. intros Hp Ho Hn. apply row_step_upd; [by rewrite Hp|eauto|done]. Qed.

Lemma row_step_give_up k r : pending (cols k r) = true -> row_step r (give_up_row cfg k r).
Proof.
  intros Hp%bool_decide_eq_true. unfold give_up_row.
  destruct k; cbn -[gave_up_message with_cause upd_cols]; [eapply row_step_trans; [|apply row_step_fail_full]|..];
    by apply row_step_pending.
Qed.
Lemma row_step_fail k e t r : kc_state (cols k r) = "pending" -> row_step r (fail_row cfg k e t r).
Proof.
  intros Hp. unfold fail_row. destruct (kind_eqb k Head && _);
    [eapply row_step_trans; [|apply row_step_fail_full]|];
    (apply row_step_pending; [done|done|cbn; destruct (gives_up cfg t (cols k r)); rewrite ?Hp; done]).
Qed.
Lemma row_step_publish o data r :
  kc_state (cols (Output_kind o) r) = "pending" -> Output_to_json o = Ok data ->
  exact_output_artifacts_ready (r_commit_id r) (Output_kind o) (Output_clonepack o) = true ->
  row_step r (publish_row o data r).
Proof.
  intros Hp Hj He. set (k := Output_kind o) in *.
  assert (Hc : forall k', cols k' (publish_row o data r) = if decide (k = k') then set_ready data (cols k' r) else cols k' r).
  { intros k'. destruct o, k'; done. }
  constructor; [by destruct o|by destruct o| | |]; intros k'; rewrite Hc; destruct (decide (k = k')) as [<-|Hk]; cbn; auto.
  - by rewrite Hp.
  - intros _. right. by exists o, data.
Qed.

(** A step's rows: each row after [row_step], a new row, or a purge. *)
Definition rows_step (f : Row -> Row) (st st' : Store) : Prop :=
  builds st' = map f (builds st) /\ forall r, r ∈ builds st -> row_step r (f r).

Lemma rows_step_id st st' : builds st' = builds st -> rows_step (fun r => r) st st'.
Proof. intros H. split; [by rewrite H, map_id|]. intros. apply row_step_refl. Qed.
Lemma rows_step_update p f st st' :
  (forall r, r ∈ builds st -> p r = true -> row_step r (f r)) ->
  builds st' = update_where p f (builds st) ->
  rows_step (fun r => if p r then f r else r) st st'.
Proof. intros Hf H. split; [done|]. intros r Hr. destruct (p r) eqn:E; [auto|apply row_step_refl]. Qed.

Lemma admit_rows now repo commit ref_name st :
  (exists f, rows_step f st (admit_build now repo commit ref_name st).1) \/
  builds (admit_build now repo commit ref_name st).1
    = builds st ++ [new_row (storage_key repo) commit ref_name now (builds st)].
Proof.
  unfold admit_build. destruct (rbind _ _); [|left; eexists; by apply rows_step_id].
  cbv zeta. match goal with |- context [find_build ?a ?b ?c] => destruct (find_build a b c) end; cbn [fst].
  all: destruct (existsb _ _); cbn; [|by right]; left; destruct ref_name; eexists;
    [eapply rows_step_update; [|done]; by constructor; auto | by apply rows_step_id].
Qed.

Lemma claim_rows now owner p lease st : exists f, rows_step f st (claim cfg now owner p lease st).1.
Proof.
  assert (Hg : rows_step (fun r => if exhausted cfg now (Pool_kind p) r then give_up_row cfg (Pool_kind p) r else r) st
                 (give_up_exhausted cfg now (Pool_kind p) st)).
  { apply rows_step_update; [|done]. intros r _ Hp. apply row_step_give_up. unfold exhausted in Hp. by breflect. }
  unfold claim. destruct (negb _); [by eexists; apply rows_step_id|].
  destruct (candidate _ _ _ _) as [b|]; [|by eexists].
  cbn -[take_lease give_up_exhausted]. destruct Hg as [Hb Hg].
  eexists. split; [cbn -[take_lease]; unfold update_where; rewrite map_map; done|].
  intros r Hr. cbn -[take_lease]. specialize (Hg r Hr). cbv beta in Hg.
  match goal with |- row_step _ (if ?b then _ else _) => destruct b end; [|done].
  eapply row_step_trans; [exact Hg|]. apply row_step_upd; [done| |done]. cbn. intros o [= <-]. right.
  apply starts_with_true. eauto.
Qed.

Lemma step_rows st st' :
  step cfg st st' ->
  (exists f, rows_step f st st') \/
  (exists r, builds st' = builds st ++ [r] /\ forall k, kc_lease_owner (cols k r) = None /\ kc_state (cols k r) = "pending") \/
  (exists repo due_at, st' = (purge_repo repo due_at st).1).
Proof.
  intros []; try (left; eexists; by apply rows_step_id); try (by eauto using claim_rows).
  - destruct (admit_rows now repo commit ref_name st0) as [[f Hf]|Hb]; [by eauto|].
    right; left. eexists. split; [exact Hb|]. by intros [].
  - left. eexists. apply rows_step_update with (st' := (retry repo commit st0).1); [|done].
    intros. apply row_step_reset.
  - left. eexists. apply rows_step_update with (st' := (renew now c lease st0).1); [|done].
    intros. apply row_step_upd; cbn; eauto.
  - left. destruct (publish_cases c output st0) as [->|(data & r & Hj & _ & He & _ & _ & _ & ->)];
      [by eexists; apply rows_step_id|].
    eexists. apply rows_step_update with (st' := publish_store c output data st0); [|done].
    intros r' _ [Ho Hp%bool_decide_eq_true]%andb_true_iff. apply row_step_publish; [done..|].
    apply owns_key in Ho. apply (f_equal snd) in Ho. cbn in Ho. by rewrite Ho.
  - left. eexists. apply rows_step_update with (st' := (fail cfg now c error retry_after st0).1); [|done].
    intros r' _ [_ Hp%bool_decide_eq_true]%andb_true_iff. by apply row_step_fail.
  - left. eexists. apply rows_step_update with (st' := (release c st0).1); [|done].
    intros. by apply row_step_lease.
  - left. eexists. apply rows_step_update with (st' := (reset_leases st0).1); [|done].
    intros. apply row_step_clear.
  - left. eexists. apply rows_step_id. unfold add_repo.
    destruct (added_repos st0 !! _) as [[]|]; [|done]. destruct owner; [|done]. by case_bool_decide.
  - left. eexists. apply rows_step_id. unfold set_refs. destruct (negb _); [done|].
    by match goal with |- context [match ?x with _ => _ end] => destruct x end.
Qed.

(** Every lease owner in a reachable store carries this store's prefix. *)
Lemma reachable_owners st k r o :
  reachable cfg st -> r ∈ builds st -> kc_lease_owner (cols k r) = Some o ->
  starts_with (instance cfg) o = true.
Proof.
  intros H. revert k r o. unfold reachable in H. remember empty_store as st0 eqn:E.
  assert (H0 : forall k r o, r ∈ builds st0 -> kc_lease_owner (cols k r) = Some o ->
    starts_with (instance cfg) o = true) by (subst; cbn; set_solver).
  clear E. induction H as [|st1 st2 st3 Hs Hr IH]; [done|]. apply IH. clear IH Hr. intros k r o Hin Ho.
  apply step_rows in Hs as [(f & Hb & Hf)|[(r0 & Hb & Hn)|(repo & due & ->)]].
  - rewrite Hb in Hin. apply list_elem_of_fmap in Hin as (r0 & -> & Hin).
    destruct (rs_owner _ _ (Hf r0 Hin) k o Ho); eauto.
  - rewrite Hb in Hin. apply elem_of_app in Hin as [Hin| ->%list_elem_of_singleton]; [eauto|].
    by rewrite (proj1 (Hn k)) in Ho.
  - apply elem_of_lfilter in Hin as [Hin _]. eauto.
Qed.

(** Every ready output of a reachable store is one [publish] accepted for the row's
    commit. *)
Lemma reachable_publishable st r k :
  reachable cfg st -> r ∈ builds st -> kc_state (cols k r) = "ready" ->
  publishable (r_commit_id r) k (kc_output (cols k r)).
Proof.
  intros H. revert r k. unfold reachable in H. remember empty_store as st0 eqn:E.
  assert (H0 : forall r k, r ∈ builds st0 -> kc_state (cols k r) = "ready" -> publishable (r_commit_id r) k (kc_output (cols k r)))
    by (subst; cbn; set_solver).
  clear E. induction H as [|st1 st2 st3 Hs Hr IH]; [done|]. apply IH. clear IH Hr. intros r k Hin Hk.
  apply step_rows in Hs as [(f & Hb & Hf)|[(r0 & Hb & Hn)|(repo & due & ->)]].
  - rewrite Hb in Hin. apply list_elem_of_fmap in Hin as (r0 & -> & Hin). pose proof (Hf r0 Hin) as Hstep.
    pose proof (rs_key _ _ Hstep) as Hkey. apply (f_equal snd) in Hkey. cbn in Hkey. rewrite Hkey.
    destruct (rs_made _ _ Hstep k Hk) as [[Hr0 ->]|?]; [by apply H0|done].
  - rewrite Hb in Hin. apply elem_of_app in Hin as [Hin| ->%list_elem_of_singleton]; [by apply H0|].
    by rewrite (proj2 (Hn k)) in Hk.
  - apply elem_of_lfilter in Hin as [Hin _]. by apply H0.
Qed.

(** ** Reads *)
Lemma is_ok_bind {A B} (r : Result A) (k : A -> Result B) :
  is_ok r = true -> (forall x, r = Ok x -> is_ok (k x) = true) -> is_ok (rbind r k) = true.
Proof. destruct r; cbn; auto. Qed.
Lemma is_ok_collect {A B} (f : A -> Result B) l :
  (forall x, x ∈ l -> is_ok (f x) = true) -> is_ok (collect f l) = true.
Proof.
  induction l as [|x l IH]; cbn; intros H; [done|]. apply is_ok_bind; [set_solver|].
  intros y _. apply is_ok_bind; [|done]. apply IH. set_solver.
Qed.

Lemma decode_out_ok {T} (of_json : json -> Result T) k c :
  col_ok cfg of_json c -> exists o, decode_out of_json k c = Ok o /\
    forall x, Out_ready o = Some x <->
      kc_state c = "ready" /\ exists j, kc_output c = Some j /\ of_json j = Ok x.
Proof.
  intros [Hs Ho _ _]. unfold decode_out, pending, is_ready, failed.
  destruct Hs as [Hs|[Hs|Hs]]; rewrite Hs; cbn.
  - eexists; split; [done|]. cbn. naive_solver.
  - destruct (Ho Hs) as (_ & j & x & Hj & Hx). rewrite Hj. cbn. rewrite Hx. eexists; split; [done|].
    intros y. cbn. split; [intros [= <-]; eauto|]. intros (_ & j' & [= <-] & ?). congruence.
  - eexists; split; [done|]. cbn. naive_solver.
Qed.

(** [b] is the build a row stores. *)
Lemma decode_build_ok r :
  row_ok cfg r -> exists b, decode_build r = Ok b /\ br_commit b = r_commit_id r /\ br_parent b = r_parent r /\
    (forall x, Out_ready (br_head b) = Some x <->
       kc_state (r_head r) = "ready" /\ exists j, kc_output (r_head r) = Some j /\ head_of_json j = Ok x) /\
    (forall x, Out_ready (br_files b) = Some x <->
       kc_state (r_files r) = "ready" /\ exists j, kc_output (r_files r) = Some j /\ files_of_json j = Ok x) /\
    (forall x, Out_ready (br_full b) = Some x <->
       kc_state (r_full r) = "ready" /\ exists j, kc_output (r_full r) = Some j /\ full_of_json j = Ok x).
Proof.
  intros []. unfold decode_build.
  destruct (decode_out_ok head_of_json Head _ row_head) as (h & -> & Hh).
  destruct (decode_out_ok files_of_json Files _ row_files) as (fi & -> & Hf).
  destruct (decode_out_ok full_of_json Full _ row_full) as (fu & -> & Hfu). cbn.
  eexists. split; [done|]. cbn. done.
Qed.
Lemma decode_build_is_ok r : row_ok cfg r -> is_ok (decode_build r) = true.
Proof. intros (b & -> & _)%decode_build_ok. done. Qed.

Lemma row_is_ok st r : store_ok cfg st -> r ∈ builds st -> row_ok cfg r.
Proof. intros Hok Hr. pose proof (so_rows _ _ Hok) as H. rewrite Forall_forall in H. auto. Qed.

(** The store's added repositories and rows are keyed by storage keys. *)
Lemma from_key_ok r : repo_ok r -> is_ok (from_storage_key (storage_key r)) = true.
Proof. intros Hr. by rewrite storage_key_decodes. Qed.
Lemma row_repo_decodes r : row_ok cfg r -> is_ok (from_storage_key (r_repo r)) = true.
Proof. intros Hr. destruct (row_repo _ _ Hr) as (repo & Hok & ->). by apply from_key_ok. Qed.

Lemma set_builds_same st : set_builds (builds st) st = st.
Proof. by destruct st. Qed.
Lemma update_where_id p f rows : (forall r, r ∈ rows -> p r = false) -> update_where p f rows = rows.
Proof.
  intros H. unfold update_where. induction rows as [|r rows IH]; cbn; [done|].
  rewrite H by set_solver. f_equal. apply IH. set_solver.
Qed.

(** [claim] in one form: give up what is exhausted, then take the candidate. *)
Lemma claim_unfold now owner p lease st :
  claim cfg now owner p lease st =
  let k := Pool_kind p in
  let st1 := give_up_exhausted cfg now k st in
  match candidate cfg now p st1 with
  | None => (st1, Ok None)
  | Some b =>
      let take := take_lease k (instance cfg +:+ owner) (i64_saturating_add now (i64_of_u64 lease)) in
      (record_turn k (r_repo b)
         (set_builds (update_where (is_key (r_repo b) (r_commit_id b)) take (builds st1)) st1),
       let? repo := from_storage_key (r_repo b) in
       let? build := decode_build (take b) in
       Ok (Some {| c_repo := repo; c_owner := instance cfg +:+ owner; c_pool := p; c_build := build |}))
  end.
Proof.
  unfold claim. destruct (existsb _ _) eqn:Ee; cbn [orb negb]; [done|].
  assert (give_up_exhausted cfg now (Pool_kind p) st = st) as Hst.
  { unfold give_up_exhausted. rewrite update_where_id; [apply set_builds_same|].
    by apply existsb_not_elem. }
  cbv zeta. rewrite Hst. by destruct (candidate _ _ _ _).
Qed.

Lemma candidate_row_ok now p st b :
  store_ok cfg st -> candidate cfg now p st = Some b ->
  b ∈ builds st /\ forall owner until, row_ok cfg (take_lease (Pool_kind p) owner until b).
Proof.
  intros Hok (Hb & (Hp & Hn & _ & _ & Ha & _)%claimable_true & _)%candidate_Some. split; [done|].
  intros owner until. apply row_ok_take_lease; [done| |by eapply row_is_ok].
  intros E. destruct p; try done. cbn in Hn. unfold is_ready in Hn. by breflect.
Qed.

Lemma claim_is_ok now owner p lease st :
  (1 <= max_attempts cfg)%Z -> store_ok cfg st -> is_ok (claim cfg now owner p lease st).2 = true.
Proof.
  intros Hm Hok. rewrite claim_unfold. cbv zeta.
  pose proof (give_up_exhausted_ok cfg now (Pool_kind p) st Hm Hok) as Hok1.
  destruct (candidate _ _ _ _) as [b|] eqn:E; [|done]. cbn [snd].
  destruct (candidate_row_ok _ _ _ _ Hok1 E) as [Hb Hr].
  apply is_ok_bind; [apply row_repo_decodes; by eapply row_is_ok|]. intros repo _.
  apply is_ok_bind; [|done]. by apply decode_build_is_ok.
Qed.

Lemma find_build_row repo commit st r :
  find_build repo commit st = Some r -> r ∈ builds st /\ row_key r = (repo, commit).
Proof. intros [Hr Hk%is_key_true]%find_Some. done. Qed.
Lemma find_build_unique repo commit st r :
  store_ok cfg st -> r ∈ builds st -> row_key r = (repo, commit) -> find_build repo commit st = Some r.
Proof.
  intros Hok Hr Hk. unfold find_build. destruct (List.find _ _) as [r'|] eqn:E.
  - apply find_Some in E as [Hr' Hk'%is_key_true]. f_equal. eapply keys_unique; eauto. congruence.
  - eapply find_None in E; [|done]. apply is_key_true in Hk. congruence.
Qed.
Lemma select_build_is_ok repo commit st : store_ok cfg st -> is_ok (select_build repo commit st) = true.
Proof.
  intros Hok. unfold select_build. destruct (find_build _ _ _) as [r|] eqn:E; [|done].
  apply find_build_row in E as [Hr _]. apply is_ok_bind; [|done].
  apply decode_build_is_ok. by eapply row_is_ok.
Qed.

Lemma seq_le_total a b : seq_le a b = true \/ seq_le b a = true.
Proof. unfold seq_le. rewrite !Z.leb_le. lia. Qed.
Lemma seq_ge_total a b : seq_ge a b = true \/ seq_ge b a = true.
Proof. unfold seq_ge. rewrite !Z.leb_le. lia. Qed.
Lemma seq_ge_trans a b c : seq_ge a b = true -> seq_ge b c = true -> seq_ge a c = true.
Proof. unfold seq_ge. rewrite !Z.leb_le. lia. Qed.
Lemma seq_le_trans a b c : seq_le a b = true -> seq_le b c = true -> seq_le a c = true.
Proof. unfold seq_le. rewrite !Z.leb_le. lia. Qed.

Lemma seqs_unique st r1 r2 :
  store_ok cfg st -> r1 ∈ builds st -> r2 ∈ builds st -> r_seq r1 = r_seq r2 -> r1 = r2.
Proof.
  intros Hok. pose proof (so_seqs _ _ Hok) as Hs. revert Hs. generalize (builds st). intros l.
  induction l as [|r l IH]; [set_solver|]. cbn. intros [Hl Hr]%StronglySorted_inv.
  rewrite Forall_forall in Hr.
  intros [->|H1]%elem_of_cons [->|H2]%elem_of_cons Heq; try done.
  - specialize (Hr (r_seq r2)). rewrite Heq in Hr. exfalso.
    assert (r_seq r2 < r_seq r2)%Z by (apply Hr; by apply list_elem_of_fmap_2). lia.
  - specialize (Hr (r_seq r1)). rewrite <- Heq in Hr. exfalso.
    assert (r_seq r1 < r_seq r1)%Z by (apply Hr; by apply list_elem_of_fmap_2). lia.
  - auto.
Qed.

(** The newest ready Full of a ref. *)
Definition full_of_ref (repo : RepoId) (ref_name : string) (r : Row) : bool :=
  of_repo repo r && bool_decide (r_ref_name r = Some ref_name) && is_ready (r_full r).

Lemma get_refs_is_ok repo st : store_ok cfg st -> is_ok (get_refs repo st) = true.
Proof.
  intros Hok. unfold get_refs. destruct (repo_refs st !! _) as [row|] eqn:E; [|done].
  destruct (so_refs_row _ _ Hok _ _ E) as (Hl & Hc & Hb & Hr). unfold u64_of_column.
  rewrite !(proj2 (Z.leb_le 0 _)) by done. cbn. apply is_ok_bind.
  { destruct (rr_branches row); [|done]. destruct (Hb _ eq_refl) as [b Hb']. cbn. by rewrite Hb'. }
  intros br _. apply is_ok_bind; [|done].
  destruct (rr_ready_branches row); [|done]. destruct (Hr _ eq_refl) as [b Hb']. cbn. by rewrite Hb'.
Qed.

(** C1: the stored invariant holds in every store the operations reach: each
    output kind has a known state and decodes when it is ready, a Full is ready,
    leased or counted only behind a ready Head and has failed when its Head has,
    commits are object ids, keys are unique, admission numbers grow, and every
    artifact a ready output or the published refs name is recorded. *)
Theorem store_invariant st : (1 <= max_attempts cfg)%Z -> reachable cfg st -> store_ok cfg st.
Proof. apply reachable_store_ok. Qed.

(** C24: no read of a reachable store fails: every row, refs and key a query
    selects decodes, and so does the build a claim returns. *)
Theorem reads_decode st repo commit ref_name now owner p lease :
  (1 <= max_attempts cfg)%Z -> reachable cfg st ->
  is_ok (status repo commit st) = true /\ is_ok (list_builds repo st) = true /\
  is_ok (latest_ready_full repo ref_name st) = true /\ is_ok (get_repo repo st) = true /\
  is_ok (list_repos st) = true /\ is_ok (known_repos st) = true /\ is_ok (get_refs repo st) = true /\
  is_ok (claim cfg now owner p lease st).2 = true.
Proof.
  intros Hm Hok%reachable_store_ok; [|done].
  split; [by apply select_build_is_ok|]. split.
  { apply is_ok_collect. intros r [Hr _]%elem_of_sort_by%elem_of_lfilter.
    apply decode_build_is_ok. by eapply row_is_ok. }
  split.
  { unfold latest_ready_full. destruct (min_by _ _) as [r|] eqn:E; [|done].
    apply min_by_spec in E as [[Hr Hp]%elem_of_lfilter _]; [|apply seq_ge_total|apply seq_ge_trans].
    apply andb_true_iff in Hp as [_ Hp%bool_decide_eq_true].
    destruct (col_output _ _ _ (row_full _ _ (row_is_ok _ _ Hok Hr)) Hp) as (_ & j & x & Hj & Hx).
    rewrite Hj. cbn. by rewrite Hx. }
  assert (Hadd : forall key added, added_repos st !! key = Some added -> is_ok (decode_added_repo key added) = true).
  { intros key added (r & Hr & ->)%(so_added _ _ Hok). unfold decode_added_repo.
    by rewrite storage_key_decodes. }
  split.
  { unfold get_repo. destruct (added_repos st !! _) eqn:E; [|done]. apply is_ok_bind; [eauto|done]. }
  split.
  { apply is_ok_collect. intros [key added] Hin%elem_of_sort_by%elem_of_map_to_list. eauto. }
  split; [|split; [by apply get_refs_is_ok|by apply claim_is_ok]].
  apply is_ok_collect. intros key [Hin|Hin]%elem_of_sort_by%elem_of_elements%elem_of_union.
  - apply elem_of_dom in Hin as [added Ha]. destruct (so_added _ _ Hok _ _ Ha) as (r & Hr & ->). by apply from_key_ok.
  - apply elem_of_list_to_set, list_elem_of_fmap in Hin as (r & -> & Hr).
    apply row_repo_decodes. by eapply row_is_ok.
Qed.

(** C3: a ready output is never changed: after any step its row still holds
    the same output, unless the step purged the repository. *)
Theorem ready_output_immutable st st' r k :
  step cfg st st' -> r ∈ builds st -> kc_state (cols k r) = "ready" ->
  (exists r', r' ∈ builds st' /\ row_key r' = row_key r /\ r_seq r' = r_seq r /\
     kc_state (cols k r') = "ready" /\ kc_output (cols k r') = kc_output (cols k r)) \/
  (exists repo due_at, st' = (purge_repo repo due_at st).1 /\ r_repo r = storage_key repo).
Proof.
  intros Hs Hr Hk. apply step_rows in Hs as [(f & Hb & Hf)|[(r0 & Hb & Hn)|(repo & due & ->)]].
  - left. destruct (Hf r Hr) as [? ? Hready _]. exists (f r). rewrite Hb.
    split; [by apply list_elem_of_fmap_2|]. naive_solver.
  - left. exists r. rewrite Hb. split; [|done]. set_solver.
  - destruct (decide (r_repo r = storage_key repo)); [right; eauto|left].
    exists r. split; [|done]. apply elem_of_lfilter. split; [done|].
    unfold of_repo. by rewrite bool_decide_false.
Qed.

(** C5: while a build of a repository's output kind is leased, no other row of
    that repository holds a lease of the kind: one repository cannot fill a
    pool. *)
Theorem one_lease_per_repo st k r1 r2 :
  (1 <= max_attempts cfg)%Z -> reachable cfg st -> r1 ∈ builds st -> r2 ∈ builds st ->
  r_repo r1 = r_repo r2 ->
  kc_lease_owner (cols k r1) <> None -> kc_lease_owner (cols k r2) <> None -> r1 = r2.
Proof.
  intros Hm Hreach H1 H2 Hrepo L1 L2. pose proof (reachable_store_ok _ _ Hm Hreach) as Hok.
  eapply keys_unique; [done..|].
  assert (forall r, r ∈ builds st -> kc_lease_owner (cols k r) <> None -> mine cfg k r) as Hmine.
  { intros r Hr Hl. destruct (kc_lease_owner (cols k r)) as [o|] eqn:E; [|done]. exists o.
    split; [done|]. by eapply reachable_owners. }
  by eapply (so_mine _ _ Hok k); eauto.
Qed.

(** ** Claims *)

(** C4: after giving up on exhausted outputs, a claim takes the claimable row of
    least (owner's turn, admission number), and only when there is one; it
    counts an attempt, writes the lease under this store's prefix and returns
    the build with them. It never fails. *)
Theorem claim_spec now owner p lease st :
  (1 <= max_attempts cfg)%Z -> reachable cfg st ->
  let k := Pool_kind p in
  let st1 := give_up_exhausted cfg now k st in
  let owner' := instance cfg +:+ owner in
  let until := i64_saturating_add now (i64_of_u64 lease) in
  match claim cfg now owner p lease st with
  | (st', Ok None) => st' = st1 /\ forall r, r ∈ builds st1 -> claimable cfg now p (builds st1) r = false
  | (st', Ok (Some c)) =>
      exists b, b ∈ builds st1 /\ claimable cfg now p (builds st1) b = true /\
        (forall r, r ∈ builds st1 -> claimable cfg now p (builds st1) r = true ->
           (turn_of k b st1 < turn_of k r st1)%Z \/
           (turn_of k b st1 = turn_of k r st1 /\ (r_seq b <= r_seq r)%Z)) /\
        storage_key (c_repo c) = r_repo b /\ br_commit (c_build c) = r_commit_id b /\
        c_owner c = owner' /\ c_pool c = p /\ Claim_attempts c = (kc_attempts (cols k b) + 1)%Z /\
        l_until (BuildRow_lease (c_build c) k) = Some until /\
        find_build (r_repo b) (r_commit_id b) st' = Some (take_lease k owner' until b) /\
        (forall r, r ∈ builds st1 -> r <> b -> r ∈ builds st')
  | (_, Err _) => False
  end.
Proof.
  intros Hm Hreach. pose proof (reachable_store_ok _ _ Hm Hreach) as Hok.
  rewrite claim_unfold. cbv zeta. set (k := Pool_kind p). set (st1 := give_up_exhausted cfg now k st).
  assert (Hok1 : store_ok cfg st1) by by apply give_up_exhausted_ok.
  destruct (candidate cfg now p st1) as [b|] eqn:E; [|split; [done|by apply candidate_None]].
  destruct (candidate_row_ok _ _ _ _ Hok1 E) as [Hb Hrow].
  destruct (row_repo _ _ (row_is_ok _ _ Hok1 Hb)) as (repo & Hrepo & Hkey).
  set (owner' := instance cfg +:+ owner). set (until := i64_saturating_add _ _).
  specialize (Hrow owner' until). rewrite Hkey, storage_key_decodes by done. cbn [rbind].
  destruct (decode_build_ok _ Hrow) as (bd & Hbd & Hc & _). fold k in Hbd. rewrite Hbd. cbn [rbind].
  pose proof (candidate_Some _ _ _ _ _ E) as (_ & Hcl & Hmin). exists b. split_and!; try done.
  - intros r Hr Hrc. specialize (Hmin r Hr Hrc). unfold turn_seq_le in Hmin. fold k in Hmin.
    rewrite orb_true_iff, andb_true_iff, Z.ltb_lt, Z.eqb_eq, Z.leb_le in Hmin. done.
  - unfold Claim_attempts, Claim_kind. cbn. fold k. unfold decode_build in Hbd. inv_ok Hbd. by destruct k.
  - cbn. unfold decode_build in Hbd. inv_ok Hbd. by destruct k.
  - rewrite <- Hkey. apply find_build_unique; [|apply elem_of_update_where; exists b; split; [done|]|done].
    + by eapply record_turn_ok, store_ok_take.
    + by rewrite (proj2 (is_key_true _ _ _)).
  - intros r Hr Hne. cbn. apply elem_of_update_where. exists r. split; [done|].
    destruct (is_key _ _ r) eqn:Ek; [|done]. apply is_key_true in Ek.
    exfalso. apply Hne. eapply (keys_unique cfg st1); [done..|]. by rewrite Ek, <- Hkey.
Qed.

(** C6: after a claim the claimed repository's owner has the last turn: any
    other owner's rows of the pool come first at the next claim. *)
Theorem claim_rotates_owners now owner p lease st st' c r1 r2 :
  (1 <= max_attempts cfg)%Z -> reachable cfg st ->
  claim cfg now owner p lease st = (st', Ok (Some c)) ->
  owner_of (r_repo r1) st' = owner_of (storage_key (c_repo c)) st' ->
  owner_of (r_repo r2) st' <> owner_of (storage_key (c_repo c)) st' ->
  (turn_of (Pool_kind p) r2 st' < turn_of (Pool_kind p) r1 st')%Z.
Proof.
  intros Hm Hreach%reachable_store_ok; [|done].
  pose proof (give_up_exhausted_ok cfg now (Pool_kind p) st Hm Hreach) as Hok1.
  rewrite claim_unfold. cbv zeta. set (st1 := give_up_exhausted _ _ _ _) in *.
  destruct (candidate _ _ _ _) as [b|] eqn:E; [|done].
  destruct (row_repo _ _ (row_is_ok _ _ Hok1 (proj1 (candidate_Some _ _ _ _ _ E)))) as (repo & Hrepo & ->).
  rewrite storage_key_decodes by done. cbn [rbind]. intros [= <- Hc]. inv_ok Hc. cbn [c_repo].
  intros H1 H2. unfold turn_of. rewrite H1. cbn [owner_turns record_turn set_owner_turns set_builds].
  unfold owner_of in *. cbn [added_repos record_turn set_owner_turns set_builds] in *.
  rewrite lookup_insert_eq, lookup_insert_ne by congruence. cbn [default].
  pose proof (turns_max_pos cfg st1 Hok1).
  destruct (owner_turns st1 !! _) as [t|] eqn:Et; unfold default, id; [|lia].
  apply turns_le_max in Et. lia.
Qed.

(** A claim whose lease was lost (released, reset, purged with its
    repository, or taken over by another claim) writes nothing: renewing,
    publishing, failing and releasing leave the store as it is, and renewing
    and publishing say so. *)
Lemma lost_lease_writes_nothing now lease c o e ra st :
  (forall r, r ∈ builds st -> owns c r = false) ->
  renew now c lease st = (st, Ok false) /\
  (publish c o st).1 = st /\ (forall p, (publish c o st).2 = Ok p -> applied p = false) /\
  fail cfg now c e ra st = (st, Ok tt) /\ release c st = (st, Ok tt).
Proof.
  intros Hno.
  assert (Hid : forall p f, (forall r, p r = true -> owns c r = true) ->
    set_builds (update_where p f (builds st)) st = st).
  { intros p f Hp. rewrite update_where_id; [apply set_builds_same|]. intros r Hr.
    destruct (p r) eqn:E; [|done]. apply Hp in E. by rewrite Hno in E. }
  assert (Hp : forall r k, owns c r && pending (cols k r) = true -> owns c r = true)
    by (intros r k [? _]%andb_true_iff; done).
  split_and!.
  - unfold renew. rewrite Hid by done. unfold rows_affected.
    destruct (List.filter _ _) as [|r l] eqn:E; [done|].
    assert (r ∈ List.filter (owns c) (builds st)) as [Hr Ho]%elem_of_lfilter by (rewrite E; set_solver).
    by rewrite Hno in Ho.
  - destruct (publish_cases c o st) as [|(data & r & _ & _ & _ & Hr & Ho & _)]; [done|]. by rewrite Hno in Ho.
  - intros p. unfold publish. destruct (negb _); [done|]. destruct (Output_to_json o) as [d|]; [|done].
    destruct (negb _); [by intros [= <-]|]. destruct (List.find _ _) as [r|] eqn:E; [|by intros [= <-]].
    apply find_Some in E as [Hr Ho%Hp]. by rewrite Hno in Ho.
  - unfold fail. rewrite Hid; [done|]. intros r. apply Hp.
  - unfold release. by rewrite Hid.
Qed.

(** The build a caller reads for a commit. *)
Lemma status_row repo commit st r :
  store_ok cfg st -> r ∈ builds st -> row_key r = (storage_key repo, commit) ->
  exists b, status repo commit st = Ok (Some b) /\ decode_build r = Ok b.
Proof.
  intros Hok Hr Hk. unfold status, select_build. rewrite (find_build_unique _ _ _ _ Hok Hr Hk).
  destruct (decode_build_ok r (row_is_ok _ _ Hok Hr)) as (b & Hb & _). rewrite Hb. eauto.
Qed.

Lemma all_ready_true r :
  all_ready r = true <-> forall k, kc_state (cols k r) = "ready".
Proof.
  unfold all_ready, is_ready. rewrite !andb_true_iff, !bool_decide_eq_true. split.
  - intros [[? ?] ?] []; done.
  - intros H. split_and!; [apply (H Head)|apply (H Files)|apply (H Full)].
Qed.

Lemma ready_iff r b :
  row_ok cfg r -> decode_build r = Ok b ->
  all_ready r = true <->
  is_Some (Out_ready (br_head b)) /\ is_Some (Out_ready (br_files b)) /\ is_Some (Out_ready (br_full b)).
Proof.
  intros Hr Hb. destruct (decode_build_ok r Hr) as (b' & Hb' & _ & _ & Hh & Hfi & Hfu).
  rewrite Hb in Hb'. injection Hb' as <-.
  assert (Hk : forall T (f : json -> Result T) c (o : Out T), col_ok cfg f c ->
    (forall x, Out_ready o = Some x <-> kc_state c = "ready" /\ exists j, kc_output c = Some j /\ f j = Ok x) ->
    kc_state c = "ready" <-> is_Some (Out_ready o)).
  { intros T f c o [_ Hout _ _] H. split.
    - intros Hs. destruct (Hout Hs) as (_ & j & x & Hj & Hx). exists x. apply H. eauto.
    - intros [x Hx]. by apply H in Hx as [? _]. }
  rewrite all_ready_true, <- (Hk _ _ _ _ (row_head _ _ Hr) Hh), <- (Hk _ _ _ _ (row_files _ _ Hr) Hfi),
    <- (Hk _ _ _ _ (row_full _ _ Hr) Hfu). split.
  - intros H. split_and!; [apply (H Head)|apply (H Files)|apply (H Full)].
  - by intros (? & ? & ?) [].
Qed.
Lemma publish_applied c o st st' pub :
  publish c o st = (st', Ok pub) -> applied pub = true ->
  exists data r, Output_to_json o = Ok data /\ Output_kind o = Claim_kind c /\ r ∈ builds st /\
    owns c r = true /\ kc_state (cols (Output_kind o) r) = "pending" /\
    st' = publish_store c o data st /\ row_complete pub = all_ready (publish_row o data r).
Proof.
  unfold publish. destruct (negb _); [done|]. destruct (Output_to_json o) as [d|] eqn:Ej; [|done].
  destruct (kind_eqb_spec (Output_kind o) (Claim_kind c)) as [Hk|]; [|by intros [= _ <-]]. cbn [negb].
  destruct (List.find _ _) as [r|] eqn:E; [|by intros [= _ <-]]. intros [= <- <-] _.
  apply find_Some in E as [Hr [Ho Hp%bool_decide_eq_true]%andb_true_iff]. exists d, r. done.
Qed.

(** C7: a publish that applies is durable: the commit's build then reads back
    exactly the published output (and a Head's parent), every artifact of the
    output is recorded as named by the repository, no other row changes, and
    [row_complete] says whether all three outputs are ready. *)
Theorem publish_spec c o st st' pub :
  (1 <= max_attempts cfg)%Z -> reachable cfg st ->
  publish c o st = (st', Ok pub) -> applied pub = true ->
  exists b, status (c_repo c) (br_commit (c_build c)) st' = Ok (Some b) /\
    match o with
    | OHead result parent => br_head b = Ready result /\ br_parent b = parent
    | OFiles result => br_files b = Ready result
    | OFull result => br_full b = Ready result
    end /\
    (row_complete pub = true <->
       is_Some (Out_ready (br_head b)) /\ is_Some (Out_ready (br_files b)) /\ is_Some (Out_ready (br_full b))) /\
    (forall h, h ∈ Output_artifacts o -> (storage_key (c_repo c), h) ∈ artifact_refs st') /\
    (forall r, r ∈ builds st -> row_key r <> (storage_key (c_repo c), br_commit (c_build c)) -> r ∈ builds st').
Proof.
  intros Hm Hok%reachable_store_ok Hpub Happ; [|done].
  apply publish_applied in Hpub as (data & r & Hj & Hk & Hr & Ho & Hs & -> & ->); [|done].
  pose proof (publish_store_ok cfg c o data st Hj Hk Hok) as Hok'.
  pose proof (owns_key _ _ Ho) as Hkey.
  assert (Hin : publish_row o data r ∈ builds (publish_store c o data st)).
  { apply elem_of_update_where. exists r. split; [done|]. unfold pending. by rewrite Ho, Hs. }
  destruct (status_row (c_repo c) (br_commit (c_build c)) _ _ Hok' Hin) as (b & Hb & Hd);
    [by rewrite publish_row_key|].
  exists b. split; [done|].
  destruct (decode_build_ok _ (row_is_ok _ _ Hok' Hin)) as (b' & Hb' & _ & Hpar & Hh & Hfi & Hfu).
  rewrite Hd in Hb'. injection Hb' as <-. split; [|split; [|split]].
  - destruct o as [x parent|x|x]; cbn in *.
    + apply head_json in Hj. split; [|done].
      assert (Out_ready (br_head b) = Some x) as E by (apply Hh; eauto). destruct (br_head b); cbn in E; congruence.
    + apply files_json in Hj.
      assert (Out_ready (br_files b) = Some x) as E by (apply Hfi; eauto). destruct (br_files b); cbn in E; congruence.
    + apply full_json in Hj.
      assert (Out_ready (br_full b) = Some x) as E by (apply Hfu; eauto). destruct (br_full b); cbn in E; congruence.
  - apply ready_iff; [by eapply row_is_ok|done].
  - intros h Hh'. apply elem_of_record_refs. right. done.
  - intros r' Hr' Hne. apply elem_of_update_where. exists r'. split; [done|].
    destruct (owns c r') eqn:E; [|done]. by apply owns_key in E.
Qed.

(** ** Failures *)


(** Retrying a commit returns each failed output to pending with its attempts
    and backoff cleared, and changes nothing else. *)
Lemma retry_spec repo commit st r :
  (1 <= max_attempts cfg)%Z -> reachable cfg st -> r ∈ builds st -> row_key r = (storage_key repo, commit) ->
  exists r' b, r' ∈ builds (retry repo commit st).1 /\ row_key r' = row_key r /\
    (retry repo commit st).2 = Ok (Some b) /\ decode_build r' = Ok b /\
    (forall k, kc_state (cols k r) = "failed" ->
       kc_state (cols k r') = "pending" /\ kc_attempts (cols k r') = 0%Z /\
       kc_retry_after (cols k r') = 0%Z /\ kc_error (cols k r') = None) /\
    (forall k, kc_state (cols k r) <> "failed" -> cols k r' = cols k r) /\
    (forall x, x ∈ builds st -> row_key x <> row_key r -> x ∈ builds (retry repo commit st).1).
Proof.
  intros Hm Hok%reachable_store_ok Hr Hk; [|done]. pose proof (retry_ok cfg repo commit st Hok) as Hok'.
  assert (Hcols : forall k, cols k (reset_row r) = reset_cols (cols k r)) by by intros [].
  assert (Hin : reset_row r ∈ builds (retry repo commit st).1).
  { apply elem_of_update_where. exists r. split; [done|]. rewrite (proj2 (is_key_true _ _ _) Hk). cbn [andb].
    destruct (any_failed r) eqn:E; [done|]. unfold any_failed in E. breflect.
    destruct r; unfold reset_row, reset_cols, upd_cols; cbn in *. by rewrite H, H0, H1. }
  destruct (status_row repo commit _ _ Hok' Hin) as (b & Hb & Hd); [done|].
  exists (reset_row r), b. split_and!; try done.
  - intros k Hf. rewrite Hcols. unfold reset_cols, failed. by rewrite Hf.
  - intros k Hf. rewrite Hcols. unfold reset_cols, failed. by rewrite bool_decide_false.
  - intros x Hx Hne. apply elem_of_update_where. exists x. split; [done|].
    destruct (is_key _ _ x) eqn:E; [|done]. apply is_key_true in E. congruence.
Qed.

(** ** Attempts *)
Definition kind_budget (k : ExactResultKind) (r : Row) : Z := (max_attempts cfg - kc_attempts (cols k r))%Z.
Definition row_budget (r : Row) : Z := (kind_budget Head r + kind_budget Files r + kind_budget Full r)%Z.
(** The attempts every output of the store has left. *)
Definition budget (st : Store) : Z := foldr (fun r n => (row_budget r + n)%Z) 0%Z (builds st).

(** Operations that leave the builds alone. *)
Inductive aside : Store -> Store -> Prop :=
  | aside_add_repo now repo owner st : repo_ok repo -> aside st (add_repo now repo owner st).1
  | aside_remove_repo repo st : aside st (remove_repo repo st).1
  | aside_queue hashes due_at st : aside st (queue_deletions hashes due_at st).1
  | aside_dequeue hashes now st : aside st (dequeue_deletions hashes now st).1
  | aside_set_refs repo refs st : repo_ok repo -> aside st (set_refs repo refs st).1
  | aside_record_sizes sizes st : aside st (record_sizes sizes st).1
  | aside_build_time repo kind ms st : aside st (add_build_time repo kind ms st).1.
(** Every step of the store but admitting commits and retrying failed ones, with
    the claims counted. *)
Inductive work : nat -> Store -> Store -> Prop :=
  | work_done st : work 0 st st
  | work_claim n now owner p lease st st1 c st' :
      claim cfg now owner p lease st = (st1, Ok (Some c)) -> work n st1 st' -> work (Datatypes.S n) st st'
  | work_idle n now owner p lease st st1 st' :
      claim cfg now owner p lease st = (st1, Ok None) -> work n st1 st' -> work n st st'
  | work_renew n now c lease st st' : work n (renew now c lease st).1 st' -> work n st st'
  | work_publish n c o st st' : work n (publish c o st).1 st' -> work n st st'
  | work_fail n now c e ra st st' : work n (fail cfg now c e ra st).1 st' -> work n st st'
  | work_release n c st st' : work n (release c st).1 st' -> work n st st'
  | work_reset n st st' : work n (reset_leases st).1 st' -> work n st st'
  | work_purge n repo due_at st st' : work n (purge_repo repo due_at st).1 st' -> work n st st'
  | work_aside n st st1 st' : aside st st1 -> work n st1 st' -> work n st st'.

Lemma aside_step st st' : aside st st' -> step cfg st st'.
Proof. by destruct 1; constructor. Qed.
Lemma aside_builds st st' : aside st st' -> builds st' = builds st.
Proof.
  destruct 1; unfold add_repo, remove_repo, queue_deletions, dequeue_deletions, set_refs, record_sizes, add_build_time;
    by repeat case_match.
Qed.

Definition same_attempts (r r' : Row) : Prop := forall k, kc_attempts (cols k r') = kc_attempts (cols k r).
Lemma budget_update p f rows :
  (forall r, p r = true -> same_attempts r (f r)) ->
  foldr (fun r n => (row_budget r + n)%Z) 0%Z (update_where p f rows)
  = foldr (fun r n => (row_budget r + n)%Z) 0%Z rows.
Proof.
  intros H. unfold update_where. induction rows as [|r rows IH]; cbn; [done|]. rewrite IH. f_equal.
  destruct (p r) eqn:E; [|done]. specialize (H r E). unfold row_budget, kind_budget.
  by rewrite (H Head), (H Files), (H Full).
Qed.
Lemma same_attempts_upd k f r :
  kc_attempts (f (cols k r)) = kc_attempts (cols k r) -> same_attempts r (upd_cols k f r).
Proof.
  intros H k'. destruct (decide (k = k')) as [<-|]; [by rewrite cols_upd_same|by rewrite cols_upd_other].
Qed.
Lemma same_attempts_fail_full e r r' : same_attempts r r' -> same_attempts r (fail_full e r').
Proof.
  intros H k. rewrite <- H. unfold fail_full. rewrite same_attempts_upd; [done|]. by destruct (pending _).
Qed.
Lemma give_up_attempts k r : same_attempts r (give_up_row cfg k r).
Proof.
  unfold give_up_row. destruct (kind_eqb _ _); [apply same_attempts_fail_full|]; by apply same_attempts_upd.
Qed.
Lemma fail_attempts k e t r : same_attempts r (fail_row cfg k e t r).
Proof.
  unfold fail_row. destruct (_ && _); [apply same_attempts_fail_full|]; by apply same_attempts_upd.
Qed.
Lemma publish_attempts o data r : same_attempts r (publish_row o data r).
Proof. destruct o; intros []; done. Qed.
Lemma clear_attempts r : same_attempts r (clear_leases r).
Proof. by intros []. Qed.

Lemma row_budget_pos r : row_ok cfg r -> (0 <= row_budget r)%Z.
Proof.
  intros [[_ _ _ H1] [_ _ _ H2] [_ _ _ H3]]. unfold row_budget, kind_budget. cbn. lia.
Qed.
Lemma budget_rows_pos rows : Forall (row_ok cfg) rows -> (0 <= foldr (fun r n => (row_budget r + n)%Z) 0%Z rows)%Z.
Proof. induction 1 as [|r rows H%row_budget_pos _ IH]; cbn; lia. Qed.

Lemma budget_filter p rows :
  Forall (row_ok cfg) rows ->
  (foldr (fun r n => (row_budget r + n)%Z) 0%Z (List.filter p rows)
   <= foldr (fun r n => (row_budget r + n)%Z) 0%Z rows)%Z.
Proof.
  induction 1 as [|r rows H%row_budget_pos _ IH]; cbn; [lia|]. destruct (p r); cbn; lia.
Qed.

Lemma budget_take k owner until b rows :
  b ∈ rows -> NoDup (map row_key rows) ->
  foldr (fun r n => (row_budget r + n)%Z) 0%Z
    (update_where (is_key (r_repo b) (r_commit_id b)) (take_lease k owner until) rows)
  = (foldr (fun r n => (row_budget r + n)%Z) 0%Z rows - 1)%Z.
Proof.
  induction rows as [|r rows IH]; [set_solver|]. cbn [map update_where foldr].
  intros Hb [Hn Hnd]%NoDup_cons. destruct (is_key _ _ r) eqn:E.
  - apply is_key_true in E. fold (update_where (is_key (r_repo b) (r_commit_id b)) (take_lease k owner until) rows).
    rewrite update_where_id.
    + destruct k; unfold row_budget, kind_budget; cbn; lia.
    + intros r' Hr'. apply not_true_iff_false. intros E'%is_key_true. apply Hn. rewrite E, <- E'.
      by apply list_elem_of_fmap_2.
  - apply elem_of_cons in Hb as [->|Hb].
    + by rewrite (proj2 (is_key_true _ _ r)) in E.
    + fold (update_where (is_key (r_repo b) (r_commit_id b)) (take_lease k owner until) rows).
      rewrite IH by done. lia.
Qed.

Lemma budget_give_up now k st : budget (give_up_exhausted cfg now k st) = budget st.
Proof. apply budget_update. intros. apply give_up_attempts. Qed.

(** A claim that takes a build uses one attempt. *)
Lemma claim_budget now owner p lease st st' res :
  (1 <= max_attempts cfg)%Z -> store_ok cfg st -> claim cfg now owner p lease st = (st', Ok res) ->
  budget st' = (budget st - if res then 1 else 0)%Z.
Proof.
  intros Hm Hok. rewrite claim_unfold. cbv zeta.
  pose proof (give_up_exhausted_ok cfg now (Pool_kind p) st Hm Hok) as Hok1.
  rewrite <- (budget_give_up now (Pool_kind p) st).
  destruct (candidate _ _ _ _) as [b|] eqn:E; [|intros [= <- <-]; lia].
  intros [= <- Hc]. inv_ok Hc. apply candidate_Some in E as [Hb _].
  apply budget_take; [done|]. exact (so_keys _ _ Hok1).
Qed.

(** C9: builds are bounded: without a new admission or a retry, workers claim at
    most as many builds as the store's outputs have attempts left, whatever the
    order of claims, renewals, publishes, failures, crashes, purges and the
    operations on refs, sizes, deletions, usage and added repositories. *)
Theorem claims_bounded n st st' :
  (1 <= max_attempts cfg)%Z -> reachable cfg st -> work n st st' -> (Z.of_nat n <= budget st)%Z.
Proof.
  intros Hm Hok%reachable_store_ok H; [|done]. induction H.
  - apply budget_rows_pos, so_rows, Hok.
  - pose proof (claim_budget _ _ _ _ _ _ _ Hm Hok H) as Hb. cbn in Hb.
    assert (store_ok cfg st1) as Hok1 by (pose proof (claim_ok cfg now owner p lease st Hm Hok) as X; by rewrite H in X).
    specialize (IHwork Hok1). lia.
  - pose proof (claim_budget _ _ _ _ _ _ _ Hm Hok H) as Hb. cbn in Hb.
    assert (store_ok cfg st1) as Hok1 by (pose proof (claim_ok cfg now owner p lease st Hm Hok) as X; by rewrite H in X).
    specialize (IHwork Hok1). lia.
  - etransitivity; [by apply IHwork, renew_ok|]. apply Z.eq_le_incl, budget_update.
    intros. by apply same_attempts_upd.
  - etransitivity; [by apply IHwork, publish_ok|]. apply Z.eq_le_incl.
    destruct (publish_cases c o st) as [->|(data & r & _ & _ & _ & _ & _ & _ & ->)]; [done|].
    apply budget_update. intros. apply publish_attempts.
  - etransitivity; [by apply IHwork, fail_ok|]. apply Z.eq_le_incl, budget_update. intros. apply fail_attempts.
  - etransitivity; [by apply IHwork, release_ok|]. apply Z.eq_le_incl, budget_update.
    intros. by apply same_attempts_upd.
  - etransitivity; [by apply IHwork, reset_leases_ok|]. apply Z.eq_le_incl, budget_update. intros. apply clear_attempts.
  - etransitivity; [by apply IHwork, purge_repo_ok|]. exact (budget_filter _ _ (so_rows _ _ Hok)).
  - etransitivity; [by apply IHwork, (step_ok _ _ _ Hm (aside_step _ _ H))|]. unfold budget. by rewrite (aside_builds _ _ H).
Qed.
End thms.

(** ** The theorems at the example store *)
Import Example.

Lemma example_claim : claim cfg 101 "worker" PHead 60 admitted = (claimed.1, Ok (Some the_claim)).
Proof. vm_compute. reflexivity. Qed.
Lemma example_publish :
  publish the_claim (OHead head (Some commit)) claimed.1
  = (published.1, Ok {| applied := true; row_complete := false |}).
Proof. vm_compute. reflexivity. Qed.
(** The claimed row, and the published one. *)
Lemma example_claimed_row :
  exists r, find_build (storage_key repo) commit claimed.1 = Some r /\
    kc_lease_owner (cols Head r) <> None /\ owns the_claim r = true /\ pending (cols Head r) = true.
Proof. eexists. split; [vm_compute; reflexivity|]. by vm_compute. Qed.
Lemma example_published_row :
  exists r, find_build (storage_key repo) commit published.1 = Some r /\ kc_state (cols Head r) = "ready".
Proof. eexists. split; [vm_compute; reflexivity|]. by vm_compute. Qed.
Lemma cfg_ok : (1 <= max_attempts cfg)%Z.
Proof. by vm_compute. Qed.

Lemma store_invariant_witness : store_ok cfg published.1.
Proof. exact (store_invariant cfg _ cfg_ok published_reachable). Defined.

Lemma reads_decode_witness :
  is_ok (status repo commit published.1) = true /\ is_ok (known_repos published.1) = true.
Proof.
  destruct (reads_decode cfg published.1 repo commit "refs/heads/main" 102 "worker" PFull 60 cfg_ok
    published_reachable) as (H1 & _ & _ & _ & _ & H6 & _).
  exact (conj H1 H6).
Defined.

Lemma ready_output_immutable_witness :
  exists r, r ∈ builds published.1 /\ kc_state (cols Head r) = "ready" /\
    exists r', r' ∈ builds (claim cfg 102 "worker" PFull 60 published.1).1 /\ kc_output (cols Head r') = kc_output (cols Head r).
Proof.
  destruct example_published_row as (r & [Hr Hk]%find_build_row & Hs).
  exists r. split; [exact Hr|]. split; [exact Hs|].
  destruct (ready_output_immutable cfg _ _ r Head (step_claim cfg 102 "worker" PFull 60 published.1) Hr Hs)
    as [(r' & H1 & _ & _ & _ & H2)|(repo' & due & Heq & _)]; [exact (ex_intro _ r' (conj H1 H2))|].
  exfalso. apply (f_equal (fun st => length (map_to_list (owner_turns st)))) in Heq.
  vm_compute in Heq. discriminate Heq.
Defined.

Lemma one_lease_per_repo_witness :
  exists r, r ∈ builds claimed.1 /\ kc_lease_owner (cols Head r) <> None /\
    (forall r', r' ∈ builds claimed.1 -> r_repo r = r_repo r' -> kc_lease_owner (cols Head r') <> None -> r = r').
Proof.
  destruct example_claimed_row as (r & [Hr _]%find_build_row & Hl & _).
  exists r. split; [exact Hr|]. split; [exact Hl|]. intros r' Hr' Hrepo Hl'.
  exact (one_lease_per_repo cfg claimed.1 Head r r' cfg_ok claimed_reachable Hr Hr' Hrepo Hl Hl').
Defined.

Lemma claim_spec_witness :
  exists b, b ∈ builds (give_up_exhausted cfg 101 Head admitted) /\
    Claim_attempts the_claim = (kc_attempts (cols Head b) + 1)%Z.
Proof.
  pose proof (claim_spec cfg 101 "worker" PHead 60 admitted cfg_ok admitted_reachable) as H.
  cbv zeta in H. rewrite example_claim in H.
  destruct H as (b & Hb & _ & _ & _ & _ & _ & _ & Ha & _). exact (ex_intro _ b (conj Hb Ha)).
Defined.

Definition other_repo : RepoId := RepoId_github "other/repo".
(** The example store with an added repository of an owner. *)
Definition owned : Store := (add_repo 99 other_repo (Some "team") admitted).1.
Lemma owned_reachable : reachable cfg owned.
Proof.
  eapply rtc_r; [apply admitted_reachable|]. apply (step_add_repo cfg 99 other_repo (Some "team")).
  by vm_compute.
Qed.
Lemma claim_rotates_owners_witness :
  exists st' c, claim cfg 101 "worker" PHead 60 owned = (st', Ok (Some c)) /\
    (turn_of Head (new_row (storage_key other_repo) commit None 0 []) st'
     < turn_of Head (new_row (storage_key repo) commit None 0 []) st')%Z.
Proof.
  destruct (claim cfg 101 "worker" PHead 60 owned) as [st' [[c|]|]] eqn:E;
    [|vm_compute in E; discriminate E|vm_compute in E; discriminate E].
  exists st', c. split; [reflexivity|].
  apply (claim_rotates_owners cfg 101 "worker" PHead 60 owned st' c _ _ cfg_ok owned_reachable E);
    vm_compute in E; injection E as <- <-; vm_compute; [reflexivity|discriminate].
Defined.

Lemma lost_lease_writes_nothing_witness :
  (forall r, r ∈ builds (release the_claim claimed.1).1 -> owns the_claim r = false) /\
  (publish the_claim (OHead head None) (release the_claim claimed.1).1).1 = (release the_claim claimed.1).1.
Proof.
  assert (Hno : forall r, r ∈ builds (release the_claim claimed.1).1 -> owns the_claim r = false).
  { apply existsb_not_elem. vm_compute. reflexivity. }
  split; [exact Hno|].
  destruct (lost_lease_writes_nothing cfg 102 60 the_claim (OHead head None) "" None _ Hno) as (_ & H & _).
  exact H.
Defined.

Lemma publish_spec_witness :
  exists b, status (c_repo the_claim) (br_commit (c_build the_claim)) published.1 = Ok (Some b) /\
    br_head b = Ready head.
Proof.
  destruct (publish_spec cfg the_claim (OHead head (Some commit)) claimed.1 published.1 _ cfg_ok claimed_reachable
    example_publish eq_refl) as (b & H1 & [H2 _] & _).
  exact (ex_intro _ b (conj H1 H2)).
Defined.


Lemma retry_spec_witness :
  exists r', r' ∈ builds (retry repo commit (fail cfg 102 the_claim "gone" None claimed.1).1).1 /\
    kc_state (cols Head r') = "pending" /\ kc_state (cols Full r') = "pending".
Proof.
  set (st := (fail cfg 102 the_claim "gone" None claimed.1).1).
  assert (Hreach : reachable cfg st).
  { eapply rtc_r; [apply claimed_reachable|]. apply (step_fail cfg). }
  assert (Hrow : exists r, find_build (storage_key repo) commit st = Some r /\
    kc_state (cols Head r) = "failed" /\ kc_state (cols Full r) = "failed").
  { eexists. split; [vm_compute; reflexivity|]. by vm_compute. }
  destruct Hrow as (r & [Hr Hk]%find_build_row & Hh & Hf).
  destruct (retry_spec cfg repo commit st r cfg_ok Hreach Hr Hk) as (r' & b & H1 & _ & _ & _ & H2 & _).
  exact (ex_intro _ r' (conj H1 (conj (proj1 (H2 Head Hh)) (proj1 (H2 Full Hf))))).
Defined.

Lemma claims_bounded_witness : (Z.of_nat 1 <= budget cfg admitted)%Z.
Proof.
  apply (claims_bounded cfg 1 admitted claimed.1 cfg_ok admitted_reachable).
  eapply work_claim; [exact example_claim|]. apply work_done.
Defined.
