(* ===== verification/ControlGc.v ===== *)
(** Deletion, purge, refs and usage in the control store ([control/sqlite.rs]):
    an artifact is deletable only when no published output or refs name it, a
    purge forgets the whole repository and queues what only it named, and the
    queries that pick commits to build on. *)

From S2P Require Import Prelude Provider Validation Outputs Control ControlInv ControlThms.

Section gc.
Context {S : Serde} {SOk : SerdeOk S} (cfg : StoreConfig).

(** ** Helper lemmas *)
Lemma named_by_any_false h st :
  named_by_any h st = false <-> forall repo, (repo, h) ∉ artifact_refs st.
Proof.
  unfold named_by_any. rewrite existsb_not_elem. split.
  - intros H repo Hin. apply elem_of_elements in Hin. specialize (H _ Hin). cbn in H. breflect. done.
  - intros H [repo h'] Hin%elem_of_elements. apply bool_decide_eq_false. cbn. intros ->. by apply (H repo).
Qed.

Lemma elem_of_only_named_by h repo st :
  h ∈ only_named_by repo st <->
  (repo, h) ∈ artifact_refs st /\ forall other, (other, h) ∈ artifact_refs st -> other = repo.
Proof.
  unfold only_named_by. rewrite elem_of_map. split.
  - intros ([r h'] & -> & [[-> Hx] Hin]%elem_of_filter). cbn in *. split; [done|].
    intros other Ho. by apply (Hx (other, h')).
  - intros [Hin Hx]. exists (repo, h). split; [done|]. apply elem_of_filter. split; [|done].
    split; [done|]. intros [r h'] Hin' Heq. cbn in Heq. subst h'. eauto.
Qed.

Lemma keep_later_due_lookup due_at hash m h :
  keep_later_due due_at hash m !! h =
  if decide (hash = h) then Some (match m !! h with Some old => Z.max due_at old | None => due_at end) else m !! h.
Proof.
  unfold keep_later_due. destruct (decide (hash = h)) as [->|]; [by rewrite lookup_insert_eq|by rewrite lookup_insert_ne].
Qed.
(** A hash is queued after a batch when it was, or is in the batch; its due
    time is never earlier than either. *)
Lemma keep_later_foldr due_at hashes m h :
  foldr (keep_later_due due_at) m hashes !! h =
  if decide (h ∈ hashes) then Some (match m !! h with Some old => Z.max due_at old | None => due_at end) else m !! h.
Proof.
  induction hashes as [|x hashes IH]; cbn [foldr].
  - by rewrite decide_False by set_solver.
  - rewrite keep_later_due_lookup, IH. destruct (decide (x = h)) as [->|Hne].
    + rewrite (decide_True (P := h ∈ h :: hashes)) by set_solver. case_decide; [|done].
      destruct (m !! h); f_equal; lia.
    + destruct (decide (h ∈ hashes)); [rewrite decide_True by set_solver|rewrite decide_False by set_solver]; done.
Qed.
Lemma keep_later_foldl due_at hashes m h :
  foldl (fun m h => keep_later_due due_at h m) m hashes !! h =
  if decide (h ∈ hashes) then Some (match m !! h with Some old => Z.max due_at old | None => due_at end) else m !! h.
Proof.
  revert m; induction hashes as [|x hashes IH]; intros m; cbn [foldl].
  - by rewrite decide_False by set_solver.
  - rewrite IH, keep_later_due_lookup. destruct (decide (x = h)) as [->|Hne].
    + rewrite (decide_True (P := h ∈ h :: hashes)) by set_solver. case_decide; [|done].
      destruct (m !! h); f_equal; lia.
    + destruct (decide (h ∈ hashes)); [rewrite decide_True by set_solver|rewrite decide_False by set_solver]; done.
Qed.

(** ** Deletion *)

(** An artifact is deletable only while it is queued and past due, and then
    no ready output and no published refs of any repository name it. *)
Lemma deletable_unnamed hash now st :
  (1 <= max_attempts cfg)%Z -> reachable cfg st -> deletable hash now st = true ->
  (exists due_at, deletions st !! hash = Some due_at /\ (due_at < now)%Z) /\
  (forall r, r ∈ builds st -> ~ row_names r hash) /\
  (forall repo refs, repo_ok repo -> get_refs repo st = Ok (Some refs) -> hash ∉ RepoRefs_artifacts refs).
Proof.
  intros Hm Hok%reachable_store_ok; [|done]. unfold deletable.
  destruct (deletions st !! hash) as [due|] eqn:E; [|done].
  intros [Hd%Z.ltb_lt Hn%negb_true_iff]%andb_true_iff. rewrite named_by_any_false in Hn.
  split; [eauto|]. split.
  - intros r Hr Hh. eapply Hn, so_named; eauto.
  - intros repo refs Hrepo Hg Hh. eapply Hn, so_refs_named; eauto.
Qed.

(** A sweep takes off the queue exactly the swept artifacts that were not
    queued again for [now] or later, and forgets the size of exactly those among
    them that nothing names; every other entry and size stays. *)
Lemma dequeue_spec hashes now st :
  let st' := (dequeue_deletions hashes now st).1 in
  (forall h due_at, deletions st' !! h = Some due_at <->
     deletions st !! h = Some due_at /\ ~ (h ∈ hashes /\ (due_at < now)%Z)) /\
  (forall h n, artifact_sizes st' !! h = Some n <->
     artifact_sizes st !! h = Some n /\
     ~ (h ∈ hashes /\ (forall repo, (repo, h) ∉ artifact_refs st) /\ deletions st' !! h = None)) /\
  builds st' = builds st /\ artifact_refs st' = artifact_refs st.
Proof.
  cbv zeta. split; [|split; [|done]].
  - intros h due. unfold dequeue_deletions. cbn. rewrite map_lookup_filter_Some. done.
  - intros h n. unfold dequeue_deletions. cbn. rewrite map_lookup_filter_Some. cbn.
    unfold named_by_any. rewrite <- (named_by_any_false h st). done.
Qed.

(** ** Purge *)

(** A purge forgets the repository: it is unknown, with no builds, refs,
    usage or artifact references, so no claim of it owns a row; every artifact
    only it named is queued no earlier than [due_at], nothing leaves the queue or
    moves earlier, and other repositories keep their rows, references and refs. *)
Lemma purge_spec repo due_at st :
  repo_ok repo ->
  let st' := (purge_repo repo due_at st).1 in
  knows_repo repo st' = false /\ get_refs repo st' = Ok None /\
  (forall k, build_usage st' !! (storage_key repo, k) = None) /\
  (forall h, (storage_key repo, h) ∉ artifact_refs st') /\
  (forall c r, c_repo c = repo -> r ∈ builds st' -> owns c r = false) /\
  (forall h, (storage_key repo, h) ∈ artifact_refs st ->
     (forall other, (other, h) ∈ artifact_refs st -> other = storage_key repo) ->
     exists due, deletions st' !! h = Some due /\ (due_at <= due)%Z) /\
  (forall h due, deletions st !! h = Some due -> exists due', deletions st' !! h = Some due' /\ (due <= due')%Z) /\
  (forall r, r_repo r <> storage_key repo -> r ∈ builds st' <-> r ∈ builds st) /\
  (forall other h, other <> storage_key repo -> (other, h) ∈ artifact_refs st' <-> (other, h) ∈ artifact_refs st) /\
  (forall other, repo_ok other -> other <> repo -> get_refs other st' = get_refs other st).
Proof.
  intros Hrepo. cbv zeta. split_and!.
  - unfold knows_repo, known_repo. apply orb_false_iff. split.
    + apply bool_decide_eq_false. cbn. rewrite lookup_delete_eq. by intros [].
    + apply existsb_not_elem. intros r [_ Hr]%elem_of_lfilter. unfold of_repo in Hr. by apply negb_true_iff in Hr.
  - unfold get_refs. cbn. by rewrite lookup_delete_eq.
  - intros k. cbn. apply map_lookup_filter_None. right. by intros x _ H.
  - intros h. cbn. rewrite elem_of_filter. cbn. by intros [? _].
  - intros c r Hc [_ Hr]%elem_of_lfilter. unfold of_repo, owns in *. apply negb_true_iff, bool_decide_eq_false in Hr.
    rewrite Hc. apply andb_false_iff. left. unfold is_key. by rewrite bool_decide_false.
  - intros h Hin Honly. cbn. rewrite keep_later_foldr.
    rewrite decide_True by (apply elem_of_elements, elem_of_only_named_by; split; [exact Hin|exact Honly]).
    eexists. split; [done|]. destruct (deletions st !! h); lia.
  - intros h due Hd. cbn. rewrite keep_later_foldr, Hd. case_decide; eexists; (split; [done|lia]).
  - intros r Hr. cbn. rewrite elem_of_lfilter. unfold of_repo. rewrite bool_decide_false by done. tauto.
  - intros other h Ho. cbn. rewrite elem_of_filter. cbn. tauto.
  - intros other Hok Hne. unfold get_refs. cbn. rewrite lookup_delete_ne; [done|].
    intros Hk. apply Hne. symmetry. by apply storage_key_inj.
Qed.

(** ** Refs *)

(** Published refs read back as they were written, every artifact they name
    is recorded, no other repository's refs change, and nothing is written for a
    repository the store does not know. *)
Lemma set_refs_spec repo refs st :
  repo_ok repo ->
  match set_refs repo refs st with
  | (st', Ok true) =>
      get_refs repo st' = Ok (Some refs) /\
      (forall h, h ∈ RepoRefs_artifacts refs -> (storage_key repo, h) ∈ artifact_refs st') /\
      (forall other, repo_ok other -> other <> repo -> get_refs other st' = get_refs other st) /\
      builds st' = builds st
  | (st', Ok false) => st' = st /\ knows_repo repo st = false
  | (st', Err _) => st' = st
  end.
Proof.
  intros Hrepo. destruct (set_refs_cases repo refs st) as [[H Hn]|(row & H & _ & _ & Hres & Hget)].
  - destruct (set_refs repo refs st) as [st' [[]|]] eqn:E; cbn in H, Hn; subst; [done| |done].
    split; [done|]. unfold set_refs in E. unfold knows_repo. destruct (known_repo _ _); [|done]. cbn in E.
    by match type of E with context [match ?x with _ => _ end] => destruct x end.
  - destruct (set_refs repo refs st) as [st' res]. cbn in H, Hres, Hget. subst.
    split_and!; [done| | |done].
    + intros h Hh. apply elem_of_record_refs. by right.
    + intros other Hok Hne. unfold get_refs. cbn [record_refs repo_refs set_artifact_refs set_repo_refs].
      rewrite lookup_insert_ne; [done|]. intros Hk. apply Hne. symmetry. by apply storage_key_inj.
Qed.

(** ** Queries *)

(** What [ready_commits] prefers: the ref's own commits first, each group newest
    admission first. *)
Definition own_ref (prefer_ref : option string) (r : Row) : Prop :=
  exists n, r_ref_name r = Some n /\ prefer_ref = Some n.
Definition preferred (prefer_ref : option string) (a b : Row) : Prop :=
  (own_ref prefer_ref a /\ ~ own_ref prefer_ref b) \/
  ((own_ref prefer_ref a <-> own_ref prefer_ref b) /\ (r_seq b <= r_seq a)%Z).

Lemma other_ref_spec prefer_ref r : other_ref prefer_ref r = false <-> own_ref prefer_ref r.
Proof.
  unfold own_ref, other_ref. destruct (r_ref_name r) as [x|], prefer_ref as [y|]; try naive_solver.
  rewrite negb_false_iff, bool_decide_eq_true. naive_solver.
Qed.
Lemma prefer_le_spec prefer_ref a b : prefer_le prefer_ref a b = true <-> preferred prefer_ref a b.
Proof.
  unfold prefer_le, preferred, seq_ge. rewrite <- !other_ref_spec, orb_true_iff, !andb_true_iff, Bool.eqb_true_iff, negb_true_iff, Z.leb_le.
  destruct (other_ref prefer_ref a), (other_ref prefer_ref b); intuition discriminate.
Qed.
Lemma prefer_le_total prefer_ref a b : prefer_le prefer_ref a b = true \/ prefer_le prefer_ref b a = true.
Proof.
  unfold prefer_le, seq_ge.
  destruct (other_ref prefer_ref a), (other_ref prefer_ref b); cbn; rewrite ?Z.leb_le; auto; lia.
Qed.
Lemma prefer_le_trans prefer_ref a b c :
  prefer_le prefer_ref a b = true -> prefer_le prefer_ref b c = true -> prefer_le prefer_ref a c = true.
Proof.
  unfold prefer_le, seq_ge.
  destruct (other_ref prefer_ref a), (other_ref prefer_ref b), (other_ref prefer_ref c);
    cbn; rewrite ?orb_false_r, ?Z.leb_le; auto; try done; lia.
Qed.

Lemma elem_of_take_in {A} (x : A) n l : x ∈ take n l -> x ∈ l.
Proof. rewrite elem_of_take, list_elem_of_lookup. intros (i & H & _). eauto. Qed.
Lemma StronglySorted_weaken {A} (R R' : relation A) l :
  (forall x y, R x y -> R' x y) -> StronglySorted R l -> StronglySorted R' l.
Proof. intros HR. induction 1; constructor; [done|]. eapply Forall_impl; eauto. Qed.
Lemma StronglySorted_take {A} (R : relation A) n l : StronglySorted R l -> StronglySorted R (take n l).
Proof.
  intros H. revert n. induction H as [|x l Hl IH Hx]; intros [|n]; cbn; try constructor; auto.
  apply Forall_forall. intros y Hy. rewrite Forall_forall in Hx. apply Hx.
  by eapply elem_of_take_in.
Qed.

(** The commits offered as bases are exactly the first [limit], in order of
    preference, of the repository's other commits whose output of the kind is
    ready: each is one, any ready commit left out is ranked after every commit
    returned, and fewer than [limit] are returned only when there are no more. *)
Lemma ready_commits_spec repo kind prefer_ref except limit st :
  let candidate r := r ∈ builds st /\ r_repo r = storage_key repo /\
    kc_state (cols kind r) = "ready" /\ r_commit_id r <> except in
  exists rows,
    ready_commits repo kind prefer_ref except limit st = map r_commit_id rows /\
    (nlen rows <= limit)%N /\ Forall candidate rows /\ StronglySorted (preferred prefer_ref) rows /\
    (forall r, candidate r -> r ∉ rows -> nlen rows = limit /\ Forall (fun b => preferred prefer_ref b r) rows).
Proof.
  cbv zeta. unfold ready_commits.
  set (p := fun r => of_repo repo r && is_ready (cols kind r) && negb (bool_decide (r_commit_id r = except))).
  set (l := sort_by (prefer_le prefer_ref) (List.filter p (builds st))).
  assert (Hp : forall r, r ∈ l <-> r ∈ builds st /\ r_repo r = storage_key repo /\
    kc_state (cols kind r) = "ready" /\ r_commit_id r <> except).
  { intros r. unfold l. rewrite elem_of_sort_by, elem_of_lfilter. unfold p, of_repo, is_ready.
    rewrite !andb_true_iff, negb_true_iff, bool_decide_eq_false, !bool_decide_eq_true. tauto. }
  assert (Hs : StronglySorted (fun a b => preferred prefer_ref a b) l).
  { eapply StronglySorted_weaken; [|apply sort_by_sorted; [apply prefer_le_total|apply prefer_le_trans]].
    intros a b. apply prefer_le_spec. }
  exists (take (N.to_nat limit) l). split_and!.
  - done.
  - unfold nlen. rewrite length_take. lia.
  - apply Forall_forall. intros r Hr%elem_of_take_in. by apply Hp.
  - by apply StronglySorted_take.
  - intros r Hc%Hp Hn.
    assert (Hlen : (limit < nlen l)%N).
    { unfold nlen. destruct (decide (length l <= N.to_nat limit)); [|lia]. by rewrite take_ge in Hn by lia. }
    split; [unfold nlen in *; rewrite length_take; lia|].
    apply Forall_forall. intros b Hb. rewrite <- (take_drop (N.to_nat limit) l) in Hs, Hc.
    apply elem_of_app in Hc as [?|Hc]; [done|].
    by eapply (StronglySorted_app_1_elem_of (preferred prefer_ref)).
Qed.

(** A commit's older Full to build on: [latest_ready_full] gives the stored
    Full of the newest admission from the ref whose Full is ready, and [None]
    exactly when the ref has none. *)
Lemma latest_ready_full_spec repo ref_name st :
  (1 <= max_attempts cfg)%Z -> reachable cfg st ->
  let candidate r := r ∈ builds st /\ r_repo r = storage_key repo /\ r_ref_name r = Some ref_name /\
    kc_state (r_full r) = "ready" in
  match latest_ready_full repo ref_name st with
  | Ok None => forall r, ~ candidate r
  | Ok (Some (commit, full)) =>
      exists r, candidate r /\ r_commit_id r = commit /\ (forall r', candidate r' -> (r_seq r' <= r_seq r)%Z) /\
        exists b, status repo commit st = Ok (Some b) /\ br_full b = Ready full
  | Err _ => False
  end.
Proof.
  intros Hm Hok%reachable_store_ok; [|done]. cbv zeta. unfold latest_ready_full.
  set (p := fun r => of_repo repo r && bool_decide (r_ref_name r = Some ref_name) && is_ready (r_full r)).
  assert (Hp : forall r, r ∈ List.filter p (builds st) <-> r ∈ builds st /\ r_repo r = storage_key repo /\
    r_ref_name r = Some ref_name /\ kc_state (r_full r) = "ready").
  { intros r. rewrite elem_of_lfilter. unfold p, of_repo, is_ready.
    rewrite !andb_true_iff, !bool_decide_eq_true. tauto. }
  destruct (min_by seq_ge _) as [r|] eqn:E.
  - apply min_by_spec in E as [Hr Hmin]; [|apply seq_ge_total|apply seq_ge_trans].
    apply Hp in Hr as (Hr & Hrepo & Href & Hready). pose proof (row_is_ok _ _ _ Hok Hr) as Hrow.
    destruct (col_output _ _ _ (row_full _ _ Hrow) Hready) as (_ & j & x & Hj & Hx).
    rewrite Hj. cbn. rewrite Hx. cbn. exists r. split; [done|]. split; [done|]. split.
    + intros r' Hr'%Hp. specialize (Hmin r' Hr'). unfold seq_ge in Hmin. by apply Z.leb_le.
    + destruct (status_row cfg repo (r_commit_id r) st r Hok Hr) as (b & Hb & Hd); [unfold row_key; congruence|].
      exists b. split; [done|]. destruct (decode_build_ok _ r Hrow) as (b' & Hb' & _ & _ & _ & _ & Hfu).
      rewrite Hd in Hb'. injection Hb' as <-.
      assert (Out_ready (br_full b) = Some x) as E by (apply Hfu; eauto). destruct (br_full b); cbn in E; congruence.
  - apply min_by_None in E. intros r Hr%Hp. rewrite E in Hr. set_solver.
Qed.

(** ** Usage *)

(** A repository's usage partitions the artifacts it names: the bytes only
    it names and the bytes others name too add up to the recorded sizes of all of
    them, an artifact is shared exactly when another repository names it, and the
    unsized ones are those with no recorded size. *)
Lemma usage_spec repo st u :
  usage repo st = Some u ->
  let mine := filter (fun x : string * string => x.1 = storage_key repo) (elements (artifact_refs st)) in
  knows_repo repo st = true /\
  NoDup mine /\ u_artifacts u = nlen mine /\
  (unique_bytes u + shared_bytes u)%N = nsum (map (fun x => default 0%N (artifact_sizes st !! x.2)) mine) /\
  (forall h, shared_with_others (storage_key repo) h st = true <->
     exists other, other <> storage_key repo /\ (other, h) ∈ artifact_refs st) /\
  (unsized_artifacts_count u <= u_artifacts u)%N /\
  (unsized_artifacts_count u = 0%N <-> Forall (fun x => is_Some (artifact_sizes st !! x.2)) mine) /\
  commits_admitted u = nlen (List.filter (of_repo repo) (builds st)).
Proof.
  unfold usage, knows_repo. destruct (known_repo _ _); [cbn [negb]|done]. intros [= <-]. cbv zeta. cbn.
  assert (Hmine : List.filter (fun x : string * string => bool_decide (x.1 = storage_key repo)) (elements (artifact_refs st))
    = filter (fun x : string * string => x.1 = storage_key repo) (elements (artifact_refs st))).
  { generalize (elements (artifact_refs st)). intros l. induction l as [|x l IH]; [done|].
    cbn [List.filter]. rewrite filter_cons, IH. destruct (bool_decide_reflect (x.1 = storage_key repo)); by case_decide. }
  rewrite Hmine. set (mine := filter _ _). split_and!; try done.
  - apply NoDup_filter, NoDup_elements.
  - clearbody mine. unfold nsum. induction mine as [|x l IH]; [done|].
    cbn [List.filter map foldr]. destruct (shared_with_others _ x.2 st); cbn [negb map foldr]; lia.
  - intros h. unfold shared_with_others. rewrite existsb_elem. split.
    + intros ([other h'] & Hin%elem_of_elements & H). cbn in H.
      rewrite andb_true_iff, negb_true_iff, bool_decide_eq_true, bool_decide_eq_false in H.
      destruct H as [-> Hne]. eauto.
    + intros (other & Hne & Hin). exists (other, h). split; [by apply elem_of_elements|]. cbn.
      by rewrite bool_decide_true, bool_decide_false by done.
  - unfold nlen. pose proof (List.filter_length_le (fun x : string * string => bool_decide (artifact_sizes st !! x.2 = None)) mine).
    lia.
  - split.
    + intros H. apply Forall_forall. intros x Hx. destruct (artifact_sizes st !! x.2) eqn:E; [eauto|].
      assert (x ∈ List.filter (fun x : string * string => bool_decide (artifact_sizes st !! x.2 = None)) mine) as Hin.
      { apply elem_of_lfilter. split; [done|]. by rewrite bool_decide_true. }
      destruct (List.filter _ mine); [set_solver|]. cbn in H. rewrite nlen_cons in H. lia.
    + intros H. rewrite Forall_forall in H. destruct (List.filter _ mine) as [|x l] eqn:E; [done|].
      assert (x ∈ List.filter (fun x : string * string => bool_decide (artifact_sizes st !! x.2 = None)) mine)
        as [Hx Hn%bool_decide_eq_true]%elem_of_lfilter by (rewrite E; set_solver).
      destruct (H x Hx). congruence.
Qed.
End gc.

(** ** The theorems at the example store *)
Import Example.

(** A queued hash that nothing names: the published one is not. *)
Definition unnamed : string := "ffff".
Definition queued : Store := (queue_deletions [unnamed; hash] 50 published.1).1.
Lemma queued_reachable : reachable cfg queued.
Proof. eapply rtc_r; [apply published_reachable|]. apply (step_queue cfg). Qed.
Lemma deletable_unnamed_witness :
  deletable hash 103 queued = false /\
  exists due_at, deletions queued !! unnamed = Some due_at /\ (due_at < 103)%Z.
Proof.
  split; [vm_compute; reflexivity|].
  exact (proj1 (deletable_unnamed cfg unnamed 103 queued cfg_ok queued_reachable ltac:(vm_compute; reflexivity))).
Defined.

Lemma purge_spec_witness :
  repo_ok repo /\ knows_repo repo (purge_repo repo 500 published.1).1 = false /\
  exists due, deletions (purge_repo repo 500 published.1).1 !! hash = Some due /\ (500 <= due)%Z.
Proof.
  split; [exact repo_is_ok|].
  destruct (purge_spec repo 500 published.1 repo_is_ok) as (H1 & _ & _ & _ & _ & H2 & _).
  assert (elements (artifact_refs published.1) = [(storage_key repo, hash)]) as E by (vm_compute; reflexivity).
  split; [exact H1|]. apply H2.
  - apply elem_of_elements. rewrite E. apply list_elem_of_singleton. reflexivity.
  - intros other Ho. apply elem_of_elements in Ho. rewrite E in Ho. apply list_elem_of_singleton in Ho. congruence.
Defined.

Definition refs : RepoRefs :=
  {| tags_artifact := hash; tags_len := 10; tags_count := 1; tags_hash := "t"; branches := None; ready_ := None |}.
Lemma set_refs_spec_witness : get_refs repo (set_refs repo refs admitted).1 = Ok (Some refs).
Proof.
  pose proof (set_refs_spec repo refs admitted repo_is_ok) as H.
  destruct (set_refs repo refs admitted) as [st' [[]|]] eqn:E; [exact (proj1 H)|vm_compute in E; discriminate E..].
Defined.

Lemma latest_ready_full_spec_witness :
  latest_ready_full repo "refs/heads/main" published.1 = Ok None /\
  forall r, ~ (r ∈ builds published.1 /\ r_repo r = storage_key repo /\ r_ref_name r = Some "refs/heads/main" /\
    kc_state (r_full r) = "ready").
Proof.
  assert (E : latest_ready_full repo "refs/heads/main" published.1 = Ok None) by (vm_compute; reflexivity).
  split; [exact E|].
  pose proof (latest_ready_full_spec cfg repo "refs/heads/main" published.1 cfg_ok published_reachable) as H.
  cbv zeta in H. rewrite E in H. exact H.
Defined.

Lemma usage_spec_witness :
  exists u, usage repo published.1 = Some u /\ u_artifacts u = 1%N /\
    unsized_artifacts_count u <> 0%N /\ commits_admitted u = nlen (List.filter (of_repo repo) (builds published.1)).
Proof.
  destruct (usage repo published.1) as [u|] eqn:E; [|vm_compute in E; discriminate E].
  exists u. split; [reflexivity|].
  destruct (usage_spec repo published.1 u E) as (_ & _ & _ & _ & _ & _ & _ & H).
  split; [|split; [|exact H]]; vm_compute in E; injection E as <-; [reflexivity|discriminate].
Defined.

(** An admission number comes back once its row is purged: [MAX(seq) + 1] of the
    rows that are left. *)
Definition purged_admit : Store := (admit_build 200 other_repo commit None (purge_repo repo 500 admitted).1).1.
Lemma seq_reused_after_purge :
  map r_seq (builds admitted) = [1%Z] /\ map r_seq (builds purged_admit) = [1%Z] /\
  map r_repo (builds admitted) <> map r_repo (builds purged_admit).
Proof. split_and!; by vm_compute. Qed.
