(* ===== verification/Pins.v ===== *)
(** Build pins ([rust/src/pins.rs]): the artifacts running builds rely on, and
    the ones being deleted. A call that waits on the condition variable is a
    partial function: [None] is a caller still waiting. *)

From S2P Require Import Prelude.

(** ** The server's pins

    [State]: how many builds pin each artifact, and the artifacts being
    deleted. *)
Record Pins := { pinned : gmap string N; deleting : gset string }.

Definition Pins_new : Pins := {| pinned := ∅; deleting := ∅ |}.
Definition pins_of (h : string) (p : Pins) : N := default 0%N (pinned p !! h).

(** [Pins::pin] waits while the artifact is being deleted. *)
Definition pin (hash : string) (p : Pins) : option Pins :=
  if bool_decide (hash ∈ deleting p) then None
  else Some {| pinned := <[hash := (pins_of hash p + 1)%N]> (pinned p); deleting := deleting p |}.

Definition unpin (hash : string) (p : Pins) : Pins :=
  match pinned p !! hash with
  | Some count =>
      {| pinned := if (count - 1 =? 0)%N then delete hash (pinned p)
                   else <[hash := (count - 1)%N]> (pinned p);
         deleting := deleting p |}
  | None => p
  end.

(** [begin_delete]: [None] when a build pins the artifact or it is already
    being deleted. *)
Definition begin_delete (hash : string) (p : Pins) : option Pins :=
  if bool_decide (is_Some (pinned p !! hash)) || bool_decide (hash ∈ deleting p) then None
  else Some {| pinned := pinned p; deleting := {[hash]} ∪ deleting p |}.

(** Dropping a [Deleting] guard. *)
Definition end_delete (hash : string) (p : Pins) : Pins :=
  {| pinned := pinned p; deleting := deleting p ∖ {[hash]} |}.

(** ** One build's pins

    [PinSet]: the artifacts it holds, beside the server's pins. *)
Definition PinSet_pin (hash : string) (held : gset string) (p : Pins) : option (gset string * Pins) :=
  if bool_decide (hash ∈ held) then Some (held, p)
  else match pin hash p with
       | Some p => Some ({[hash]} ∪ held, p)
       | None => None
       end.
Definition PinSet_hashes (held : gset string) : list string := elements held.
Definition PinSet_drop (held : gset string) (p : Pins) : Pins := set_fold unpin p held.

(** ** Lemmas *)

(** Counts are positive, and nothing pinned is being deleted. *)
Record pins_ok (p : Pins) : Prop := {
  pins_pos : forall h, pinned p !! h <> Some 0%N;
  pins_apart : forall h, is_Some (pinned p !! h) -> h ∉ deleting p;
}.

Lemma pinned_iff p h : pins_ok p -> is_Some (pinned p !! h) <-> (0 < pins_of h p)%N.
Proof.
  intros [Hp _]. unfold pins_of. specialize (Hp h). destruct (pinned p !! h) as [n|]; cbn; split; intros H.
  - destruct (decide (n = 0%N)) as [->|]; [done|lia].
  - eauto.
  - by destruct H.
  - lia.
Qed.

Lemma Pins_new_ok : pins_ok Pins_new.
Proof. constructor; cbn; intros h; rewrite lookup_empty; [done|by intros []]. Qed.

Lemma pin_spec hash p p' :
  pins_ok p -> pin hash p = Some p' ->
  pins_ok p' /\ hash ∉ deleting p /\ deleting p' = deleting p /\
  (forall h, pins_of h p' = if decide (h = hash) then (pins_of h p + 1)%N else pins_of h p).
Proof.
  intros [Hp Ha]. unfold pin. case_bool_decide as Hd; [done|]. intros [= <-].
  split_and!; [|done|done|].
  - constructor; cbn; intros h.
    + destruct (decide (h = hash)) as [->|]; [rewrite lookup_insert_eq; intros [= E]; lia|].
      rewrite lookup_insert_ne by done. apply Hp.
    + destruct (decide (h = hash)) as [->|]; [done|]. rewrite lookup_insert_ne by done. apply Ha.
  - intros h. unfold pins_of at 1. cbn. case_decide as E; [by rewrite E, lookup_insert_eq|].
    by rewrite lookup_insert_ne.
Qed.

Lemma unpin_spec hash p :
  pins_ok p ->
  pins_ok (unpin hash p) /\ deleting (unpin hash p) = deleting p /\
  (forall h, pins_of h (unpin hash p) = if decide (h = hash) then (pins_of h p - 1)%N else pins_of h p).
Proof.
  intros Hok. pose proof Hok as [Hp Ha]. unfold unpin. destruct (pinned p !! hash) as [n|] eqn:E.
  - split_and!; [|done|].
    + constructor; cbn; intros h; destruct (n - 1 =? 0)%N eqn:En; breflect.
      * rewrite lookup_delete_Some. intros [_ H]. by eapply Hp.
      * destruct (decide (h = hash)) as [->|]; [rewrite lookup_insert_eq; congruence|].
        rewrite lookup_insert_ne by done. apply Hp.
      * intros [x [_ H]%lookup_delete_Some]. eauto.
      * destruct (decide (h = hash)) as [->|]; [intros _; eauto|]. rewrite lookup_insert_ne by done. apply Ha.
    + intros h. unfold pins_of. cbn. destruct (n - 1 =? 0)%N eqn:En; breflect; case_decide as Eh.
      * rewrite Eh, lookup_delete_eq, E. cbn. lia.
      * by rewrite lookup_delete_ne.
      * rewrite Eh, lookup_insert_eq, E. done.
      * by rewrite lookup_insert_ne.
  - split_and!; [done|done|]. intros h. case_decide as Eh; [|done]. unfold pins_of. by rewrite Eh, E.
Qed.

Lemma begin_delete_spec hash p p' :
  pins_ok p -> begin_delete hash p = Some p' ->
  pins_ok p' /\ pins_of hash p = 0%N /\ hash ∉ deleting p /\ pinned p' = pinned p /\
  deleting p' = {[hash]} ∪ deleting p.
Proof.
  intros [Hp Ha]. unfold begin_delete. case_bool_decide as Hn; [done|]. case_bool_decide as Hd; [done|].
  intros [= <-]. split_and!; try done.
  - constructor; cbn; [done|]. intros h Hh. pose proof (Ha h Hh). set_solver.
  - unfold pins_of. destruct (pinned p !! hash); [|done]. exfalso; eauto.
Qed.

Lemma end_delete_ok hash p : pins_ok p -> pins_ok (end_delete hash p).
Proof. intros [Hp Ha]. constructor; cbn; [done|]. intros h Hh%Ha. set_solver. Qed.

Lemma PinSet_pin_spec hash held p held' p' :
  pins_ok p -> (forall h, h ∈ held -> h ∉ deleting p) -> PinSet_pin hash held p = Some (held', p') ->
  pins_ok p' /\ held' = {[hash]} ∪ held /\ hash ∉ deleting p /\ deleting p' = deleting p /\
  (forall h, pins_of h p' = (pins_of h p + if decide (h = hash /\ hash ∉ held) then 1 else 0)%N).
Proof.
  intros Hok Hheld. unfold PinSet_pin. case_bool_decide as Hh.
  - intros [= <- <-]. split_and!; [done|set_solver|auto|done|]. intros h. rewrite decide_False by tauto. lia.
  - destruct (pin hash p) as [q|] eqn:E; [|done]. intros [= <- <-].
    destruct (pin_spec _ _ _ Hok E) as (Hok' & Hd & Hd' & Hc). split_and!; [done..|].
    intros h. rewrite Hc. destruct (decide (h = hash)); [rewrite decide_True by tauto|rewrite decide_False by tauto]; lia.
Qed.

Lemma PinSet_drop_spec held p :
  pins_ok p ->
  pins_ok (PinSet_drop held p) /\ deleting (PinSet_drop held p) = deleting p /\
  (forall h, pins_of h (PinSet_drop held p) = (pins_of h p - if decide (h ∈ held) then 1 else 0)%N).
Proof.
  intros Hok. unfold PinSet_drop.
  refine (set_fold_ind_L (fun q (X : gset string) => pins_ok q /\ deleting q = deleting p /\
    forall h, pins_of h q = (pins_of h p - if decide (h ∈ X) then 1 else 0)%N) unpin p _ _ held).
  - split_and!; [done|done|]. intros h. rewrite decide_False by set_solver. lia.
  - intros x X q Hx (Hq & Hd & Hc). destruct (unpin_spec x q Hq) as (Hq' & Hd' & Hc').
    split_and!; [done|congruence|]. intros h. rewrite Hc', Hc. destruct (decide (h = x)) as [->|].
    + rewrite (decide_True (P := x ∈ {[x]} ∪ X)) by set_solver. rewrite decide_False by done. lia.
    + destruct (decide (h ∈ X)); [rewrite decide_True by set_solver|rewrite decide_False by set_solver]; lia.
Qed.
