(* ===== verification/Worker.v ===== *)
(** How a build worker ends a build ([rust/src/server/worker.rs]): which errors
    are tried again and when, the publish or the recorded failure, and what is
    queued for deletion ([queue_unnamed] of [rust/src/server/purge.rs],
    [record_sizes] of [rust/src/server/usage.rs]). A [Duration] is its
    nanoseconds. Logging and metrics are left out. *)

From S2P Require Import Prelude Provider Validation Outputs Control ControlInv ControlThms ControlGc Pins.

(** ** Durations *)
Definition from_secs (secs : N) : N := (secs * 1000000000)%N.
Definition from_millis (ms : N) : N := (ms * 1000000)%N.
Definition as_secs (d : N) : N := (d / 1000000000)%N.
(** [Duration::MAX]. *)
Definition duration_max : N := (from_secs u64_max + 999999999)%N.

Definition RETRY_CAP : N := from_secs 300.

(** Delay before the next claim after the [attempts]-th claim failed. *)
Definition retry_delay (base : N) (attempts : Z) : N :=
  let doublings := Z.to_N (Z.max 0 (Z.min 30 (i64_saturating_sub attempts 1))) in
  N.min (saturating_mul duration_max base (N.min u32_max (2 ^ doublings))) RETRY_CAP.

(** ** Errors *)
Record BuildError := { message : string; retryable : bool }.

(** [std::io::ErrorKind]: the kinds [is_retryable_io_error] names, and the rest. *)
Inductive ErrorKind :=
  | TimedOut | Interrupted | ConnectionRefused | ConnectionReset | ConnectionAborted
  | NotConnected | BrokenPipe | UnexpectedEof | OtherKind.

(** A cause of an error, by the type it is downcast to: [s3::Error] and
    [git::UpstreamGitError] answer [is_retryable], a [reqwest::Error] answers
    [is_timeout], [is_connect] and [status]. *)
Inductive Cause :=
  | CauseS3 (is_retryable : bool)
  | CauseReqwest (is_timeout is_connect : bool) (status : option N)
  | CauseIo (kind : ErrorKind)
  | CauseGit (is_retryable : bool)
  | CauseElapsed
  | CauseSqlx
  | CauseOther.

(** [anyhow::Error]: its whole text, and its chain from the outermost cause. *)
Record AnyError := { text : string; chain : list Cause }.

Definition is_retryable_io_error (kind : ErrorKind) : bool :=
  match kind with OtherKind => false | _ => true end.

(** [StatusCode::TOO_MANY_REQUESTS] or [is_server_error]. *)
Definition status_retryable (s : N) : bool := ((s =? 429) || ((500 <=? s) && (s <? 600)))%N.

(** One cause of [classify_build_error]: its answer, or on to the next cause. *)
Definition classify_cause (cause : Cause) : option bool :=
  match cause with
  | CauseS3 r => Some r
  | CauseReqwest timeout connect status =>
      Some (timeout || connect || match status with Some s => status_retryable s | None => false end)
  | CauseIo kind => if is_retryable_io_error kind then Some true else None
  | CauseGit r => Some r
  | CauseElapsed | CauseSqlx => Some true
  | CauseOther => None
  end.
Fixpoint classify_chain (causes : list Cause) : bool :=
  match causes with
  | [] => false
  | cause :: causes => match classify_cause cause with Some r => r | None => classify_chain causes end
  end.
Definition classify_build_error (error : AnyError) : BuildError :=
  {| message := text error; retryable := classify_chain (chain error) |}.

(** ** Ending a build *)
Section worker.
Context {S : Serde} (cfg : StoreConfig).
(** [WorkerSettings::retry_base]. *)
Context (retry_base : N).
(** The size of a stored artifact, when it can be read. *)
Context (size_of : string -> option N).

Definition retry_after (claim : Claim) (error : BuildError) : option N :=
  if retryable error then Some (retry_delay retry_base (Claim_attempts claim)) else None.

Definition record_failure (now : Z) (claim : Claim) (error : BuildError) (st : Store) : Store :=
  (fail cfg now claim (message error) (as_secs <$> retry_after claim error) st).1.

(** [usage::record_sizes]: the artifacts not sized yet whose size can be read. *)
Definition record_artifact_sizes (hashes : Hashes) (st : Store) : Store :=
  let wanted := unsized_artifacts (elements hashes) st in
  if bool_decide (wanted = []) then st
  else (record_sizes (omap (fun h => pair h <$> size_of h) wanted) st).1.

(** An error of the store's own: no cause of it is tried again. *)
Definition store_error (e : string) : AnyError := {| text := e; chain := [CauseOther] |}.

Definition publish_or_fail (now : Z) (cancelled : bool) (claim : Claim) (built : Output + AnyError) (st : Store)
    : Store * option Published :=
  if cancelled then (st, None)
  else
    match built with
    | inl output =>
        let st := record_artifact_sizes (Output_artifacts output) st in
        match publish claim output st with
        | (st, Ok published) => (st, Some published)
        | (st, Err e) => (record_failure now claim (classify_build_error (store_error e)) st, None)
        end
    | inr error => (record_failure now claim (classify_build_error error) st, None)
    end.

(** [purge::queue_unnamed]. *)
Definition queue_unnamed (now : Z) (held keep : Hashes) (st : Store) : Store :=
  let hashes := List.filter (fun h => negb (bool_decide (h ∈ keep))) (PinSet_hashes held) in
  if bool_decide (hashes = []) then st else (queue_deletions hashes now st).1.

(** What [settle] keeps from the queue: the output's artifacts once published. *)
Definition settle_named (built : Output + AnyError) (published : option Published) : Hashes :=
  match built, published with
  | inl output, Some p => if applied p then Output_artifacts output else ∅
  | _, _ => ∅
  end.

Definition settle (now : Z) (cancelled : bool) (claim : Claim) (built : Output + AnyError) (held : Hashes)
    (st : Store) : Store * option Published :=
  let '(st, published) := publish_or_fail now cancelled claim built st in
  (queue_unnamed now held (settle_named built published) st, published).

End worker.

(** ** Lemmas *)
Section queue.
Context {S : Serde} {SOk : SerdeOk S}.

Lemma elem_of_unnamed (held keep : Hashes) h :
  h ∈ List.filter (fun h => negb (bool_decide (h ∈ keep))) (PinSet_hashes held) <-> h ∈ held /\ h ∉ keep.
Proof.
  rewrite elem_of_lfilter. unfold PinSet_hashes. rewrite elem_of_elements, negb_true_iff, bool_decide_eq_false. done.
Qed.

(** What [queue_unnamed] queues, and all it changes. *)
Lemma queue_unnamed_spec now (held keep : Hashes) st :
  let st' := queue_unnamed now held keep st in
  (forall h, h ∈ held -> h ∉ keep -> exists due, deletions st' !! h = Some due /\ (now <= due)%Z) /\
  (forall h, h ∉ held \/ h ∈ keep -> deletions st' !! h = deletions st !! h) /\
  (exists m, st' = set_deletions m st).
Proof.
  cbv zeta. unfold queue_unnamed. case_bool_decide as E.
  - split_and!.
    + intros h Hh Hk. exfalso. assert (h ∈ (nil : list string)) as H; [|by apply not_elem_of_nil in H].
      rewrite <- E. by apply elem_of_unnamed.
    + done.
    + exists (deletions st). by destruct st.
  - split_and!; [| |by eexists].
    + intros h Hh Hk. cbn. rewrite keep_later_foldl, decide_True by by apply elem_of_unnamed.
      eexists. split; [done|]. destruct (deletions st !! h); lia.
    + intros h Hh. cbn. rewrite keep_later_foldl, decide_False; [done|]. rewrite elem_of_unnamed. tauto.
Qed.

End queue.

Section thms.
Context {S : Serde} {SOk : SerdeOk S} (cfg : StoreConfig) (retry_base : N) (size_of : string -> option N).

Lemma record_artifact_sizes_same hashes st :
  exists m, record_artifact_sizes size_of hashes st = set_artifact_sizes m st.
Proof.
  unfold record_artifact_sizes. case_bool_decide; [exists (artifact_sizes st); by destruct st|by eexists].
Qed.

(** [publish_or_fail] leaves the queue alone, and names the output's artifacts
    exactly when it publishes. *)
Lemma publish_or_fail_spec now cancelled c built st :
  let '(st', published) := publish_or_fail cfg retry_base size_of now cancelled c built st in
  deletions st' = deletions st /\ (cancelled = true -> st' = st /\ published = None) /\
  (forall x, x ∈ artifact_refs st' <->
     x ∈ artifact_refs st \/ (x.1 = storage_key (c_repo c) /\ x.2 ∈ settle_named built published)).
Proof.
  assert (Hset : forall (x : string * string) (X : gset (string * string)) (P : Prop) h,
    x ∈ X <-> x ∈ X \/ (P /\ h ∈ (∅ : Hashes))) by set_solver.
  unfold publish_or_fail. destruct cancelled; [by destruct built; cbn; split_and!; eauto|].
  destruct built as [o|e]; cbn; [|by split_and!; eauto].
  destruct (record_artifact_sizes_same (Output_artifacts o) st) as [m ->].
  destruct (publish c o (set_artifact_sizes m st)) as [st1 [p|e]] eqn:E; cbn.
  - destruct (applied p) eqn:Ea.
    + pose proof (publish_applied _ _ _ _ _ E Ea) as (data & r & _ & _ & _ & _ & _ & -> & _).
      split_and!; try done. intros x. exact (elem_of_record_refs _ _ _ x).
    + destruct (publish_cases c o (set_artifact_sizes m st)) as [Hs|(? & ? & _ & _ & _ & _ & _ & _ & Hp)];
        [|rewrite Hp in E; by injection E as <- <-].
      rewrite E in Hs. cbn in Hs. subst. cbn. split_and!; [done|done|eauto].
  - assert (st1 = set_artifact_sizes m st) as ->.
    { destruct (publish_cases c o (set_artifact_sizes m st)) as [Hs|(? & ? & _ & _ & _ & _ & _ & _ & Hp)];
        [by rewrite E in Hs|by rewrite Hp in E]. }
    split_and!; [done|done|eauto].
Qed.

(** ** Properties *)

(** The delay before a retry doubles with every attempt from the base up to
    five minutes: no machine width shows in it, it lies between the base and the
    cap, it never shrinks as attempts grow, and 31 attempts of any base of at
    least 280 ns reach the cap. *)
Lemma retry_delay_bounds base attempts :
  (1 <= attempts <= i64_max)%Z ->
  let d := retry_delay base attempts in
  d = N.min (base * 2 ^ N.min 30 (Z.to_N (attempts - 1))) RETRY_CAP /\
  (N.min base RETRY_CAP <= d <= RETRY_CAP)%N /\
  (forall later, (attempts <= later <= i64_max)%Z -> (d <= retry_delay base later)%N) /\
  ((280 <= base)%N -> (31 <= attempts)%Z -> d = RETRY_CAP).
Proof.
  assert (Heq : forall n, (1 <= n <= i64_max)%Z ->
    retry_delay base n = N.min (base * 2 ^ N.min 30 (Z.to_N (n - 1))) RETRY_CAP).
  { intros n Hn. unfold retry_delay, i64_saturating_sub, saturating_mul.
    replace (Z.max i64_min (Z.min i64_max (n - 1))) with (n - 1)%Z by (unfold i64_min, i64_max in *; lia).
    replace (Z.to_N (Z.max 0 (Z.min 30 (n - 1)))) with (N.min 30 (Z.to_N (n - 1))) by lia.
    assert (2 ^ N.min 30 (Z.to_N (n - 1)) <= 2 ^ 30)%N by (apply N.pow_le_mono_r; lia).
    change (2 ^ 30)%N with 1073741824%N in *.
    rewrite (N.min_r u32_max) by (unfold u32_max; lia).
    rewrite (N.min_comm duration_max), <- N.min_assoc, (N.min_r duration_max RETRY_CAP); [done|].
    unfold duration_max, RETRY_CAP, from_secs, u64_max. lia. }
  intros Hn. cbv zeta. split; [by apply Heq|]. rewrite Heq by done.
  assert (Hpos : forall n, (1 <= 2 ^ N.min 30 n)%N)
    by (intros n; pose proof (N.pow_nonzero 2 (N.min 30 n)); lia).
  split_and!.
  - apply N.min_le_compat_r. specialize (Hpos (Z.to_N (attempts - 1))). nia.
  - lia.
  - intros later Hl. rewrite Heq by lia.
    assert (2 ^ N.min 30 (Z.to_N (attempts - 1)) <= 2 ^ N.min 30 (Z.to_N (later - 1)))%N
      by (apply N.pow_le_mono_r; lia). apply N.min_le_compat_r. nia.
  - intros Hb Ha. replace (N.min 30 (Z.to_N (attempts - 1))) with 30%N by lia. change (2 ^ 30)%N with 1073741824%N.
    unfold RETRY_CAP, from_secs. lia.
Qed.

(** C10: ending a build leaks no artifact: each one the build pinned is named by
    its repository, when its output was published, or queued for deletion; a
    published output's artifacts are not queued; nothing is named without a
    publish; and a cancelled build writes to no row. *)
Theorem settle_no_leak now cancelled c built held st :
  let '(st', published) := settle cfg retry_base size_of now cancelled c built held st in
  let named := settle_named built published in
  (forall h, h ∈ held ->
     (h ∈ named /\ (storage_key (c_repo c), h) ∈ artifact_refs st') \/
     (h ∉ named /\ exists due, deletions st' !! h = Some due /\ (now <= due)%Z)) /\
  (forall h, h ∈ named -> deletions st' !! h = deletions st !! h) /\
  (forall repo h, (repo, h) ∈ artifact_refs st' ->
     (repo, h) ∈ artifact_refs st \/ (repo = storage_key (c_repo c) /\ h ∈ named)) /\
  (cancelled = true -> published = None /\ builds st' = builds st).
Proof.
  unfold settle. pose proof (publish_or_fail_spec now cancelled c built st) as H.
  destruct (publish_or_fail _ _ _ _ _ _ _ _) as [st1 published]. destruct H as (Hd & Hc & Hn).
  pose proof (queue_unnamed_spec now held (settle_named built published) st1) as (Hq & Hk & [m Hm]).
  cbv zeta in Hq, Hk, Hm. rewrite Hm in *. cbn in *.
  split_and!.
  - intros h Hh. destruct (decide (h ∈ settle_named built published)); [left|right]; split; auto.
    apply Hn. by right.
  - intros h Hh. rewrite Hk by auto. by rewrite Hd.
  - intros repo h Hin. by apply Hn in Hin.
  - intros E. destruct (Hc E) as [-> ->]. done.
Qed.

End thms.

(** ** Witness *)
Lemma retry_delay_bounds_witness :
  retry_delay (from_millis 2000) 4 = from_secs 16 /\ retry_delay (from_millis 2000) i64_max = RETRY_CAP.
Proof.
  split.
  - destruct (retry_delay_bounds (from_millis 2000) 4 ltac:(by vm_compute)) as [-> _]. by vm_compute.
  - by apply (retry_delay_bounds (from_millis 2000) i64_max ltac:(by vm_compute)); vm_compute.
Defined.

Import Example.

(** A build that pinned its artifact and one its output does not name: the first
    is named by the repository, the other is queued. *)
Lemma settle_no_leak_witness :
  let st' := (settle cfg (from_millis 2000) (fun _ => None) 102 false the_claim
    (inl (OHead head (Some commit))) {[hash; "unused"]} claimed.1).1 in
  (storage_key repo, hash) ∈ artifact_refs st' /\ is_Some (deletions st' !! "unused").
Proof.
  set (held := {[hash; "unused"]} : Hashes).
  pose proof (settle_no_leak cfg (from_millis 2000) (fun _ => None) 102 false the_claim
    (inl (OHead head (Some commit))) held claimed.1) as H.
  destruct (settle _ _ _ _ _ _ _ _ _) as [st' published] eqn:E.
  assert (Hp : applied <$> published = Some true) by (apply (f_equal snd) in E; vm_compute in E; by rewrite <- E).
  destruct published as [p|]; [|discriminate]. injection Hp as Hp.
  cbv zeta in H. unfold settle_named in H. rewrite Hp in H. destruct H as (Hheld & _). cbv zeta. cbn [fst]. split.
  - destruct (Hheld hash ltac:(unfold held; set_solver)) as [[_ Hr]|[Hn _]].
    + exact Hr.
    + exfalso. apply Hn. apply (bool_decide_unpack (_ ∈ _)). by vm_compute.
  - destruct (Hheld "unused" ltac:(unfold held; set_solver)) as [[Hn _]|(_ & due & Hd & _)].
    + exfalso. revert Hn. apply (bool_decide_unpack (_ ∉ _)). by vm_compute.
    + rewrite Hd. eauto.
Defined.
