(* ===== verification/GcSystem.v ===== *)
(** The server's builds, refs publishers and artifact sweeps running at once over
    one control store and one artifact storage ([rust/src/server/worker.rs],
    [refs.rs], [purge.rs], [uploads.rs], [rust/src/pins.rs]): a step per
    transaction, lock or storage request, taken in any order.

    What a build computes is left open: it pins, installs and uploads any
    artifacts, and publishes any output whose objects it uploaded
    ([Uploads::finish]) or read from ready outputs of its repository (the base it
    builds on); that server/builder.rs keeps to this is an assumption. The clock does
    not go back. A dropped storage request has taken effect or never will. A refs publish writes within a signed URL's lifetime of
    its start, and a purge commits within one of reading the clock: a purge waits
    two lifetimes before its artifacts are due. *)

From S2P Require Import Prelude Provider Validation Outputs Control ControlInv Pins Worker.

(** ** Build slots ([run_slot]) *)
Definition pool_name (p : Pool) : string :=
  match p with PHead => "head" | PFiles => "files" | PFull => "full" end.
Definition slot_name (p : Pool) (slot : N) : string := pool_name p +:+ "-" +:+ pretty slot.
Definition owner_name (p : Pool) (slot sequence : N) : string :=
  slot_name p slot +:+ "-" +:+ pretty sequence.
Definition wrapping_add (a b : N) : N := ((a + b) mod 18446744073709551616)%N.

(** ** Tasks: a build of a slot, or a refs publish *)
Inductive TaskId := Slot (pool : Pool) (slot : N) | Publisher (n : N).
#[export] Instance TaskId_eq_dec : EqDecision TaskId.
Proof. solve_decision. Defined.
#[export] Instance Pool_countable : Countable Pool.
Proof.
  refine (inj_countable' (fun p => match p with PHead => 0 | PFiles => 1 | PFull => 2 end)%N
    (fun n => match n with 0 => PHead | 1 => PFiles | _ => PFull end)%N _). by intros [].
Defined.
#[export] Instance TaskId_countable : Countable TaskId.
Proof.
  refine (inj_countable' (fun i => match i with Slot p n => inl (p, n) | Publisher n => inr n end)
    (fun x => match x with inl (p, n) => Slot p n | inr n => Publisher n end) _). by intros [].
Defined.

Inductive Job := BuildJob (claim : Claim) | RefsJob (repo : RepoId).
Definition Job_repo (j : Job) : RepoId := match j with BuildJob c => c_repo c | RefsJob r => r end.

(** Where a task is: building, about to record its failure, ended (and what its
    queueing keeps), its artifacts queued, its lease released. *)
Inductive Phase := Working | Failing (error : AnyError) | Ended (keep : Hashes) | Queued | Released.

Record Task := {
  t_job : Job;
  t_phase : Phase;
  t_cancelled : bool;
  t_held : Hashes;      (* its [PinSet] *)
  t_found : Hashes;     (* pinned, then uploaded or found in storage *)
  t_base : Hashes;      (* objects of the ready outputs it read *)
  t_refs : Hashes;      (* named by the published refs it read *)
  t_read : Z;           (* when its refs publish started *)
}.

Definition new_task (job : Job) (base : Hashes) (now : Z) : Task :=
  {| t_job := job; t_phase := Working; t_cancelled := false; t_held := ∅; t_found := ∅;
     t_base := base; t_refs := ∅; t_read := now |}.
Definition set_phase (ph : Phase) (t : Task) : Task :=
  {| t_job := t_job t; t_phase := ph; t_cancelled := t_cancelled t; t_held := t_held t; t_found := t_found t;
     t_base := t_base t; t_refs := t_refs t; t_read := t_read t |}.
Definition set_cancelled (b : bool) (t : Task) : Task :=
  {| t_job := t_job t; t_phase := t_phase t; t_cancelled := b; t_held := t_held t; t_found := t_found t;
     t_base := t_base t; t_refs := t_refs t; t_read := t_read t |}.
Definition set_held (held : Hashes) (t : Task) : Task :=
  {| t_job := t_job t; t_phase := t_phase t; t_cancelled := t_cancelled t; t_held := held; t_found := t_found t;
     t_base := t_base t; t_refs := t_refs t; t_read := t_read t |}.
Definition add_found (h : string) (t : Task) : Task :=
  {| t_job := t_job t; t_phase := t_phase t; t_cancelled := t_cancelled t; t_held := t_held t;
     t_found := {[h]} ∪ t_found t; t_base := t_base t; t_refs := t_refs t; t_read := t_read t |}.
Definition add_base (hs : Hashes) (t : Task) : Task :=
  {| t_job := t_job t; t_phase := t_phase t; t_cancelled := t_cancelled t; t_held := t_held t; t_found := t_found t;
     t_base := hs ∪ t_base t; t_refs := t_refs t; t_read := t_read t |}.
Definition set_refs_read (hs : Hashes) (now : Z) (t : Task) : Task :=
  {| t_job := t_job t; t_phase := t_phase t; t_cancelled := t_cancelled t; t_held := t_held t; t_found := t_found t;
     t_base := t_base t; t_refs := hs; t_read := now |}.

(** The objects of an output: what it names, but for the chunk hashes of a Files'
    frames, whose bytes are in the bundles and are no objects of their own. *)
Fixpoint FilesResult_objects (r : FilesResult) : Hashes :=
  named (ClonepackArtifacts_artifacts (fs_clonepack r) ++ fs_archive_chunks r)
  ∪ match fs_compact r with Some compact => FilesResult_objects compact | None => ∅ end.
Definition Output_objects (o : Output) : Hashes :=
  match o with
  | OHead r _ => HeadResult_artifacts r
  | OFiles r => FilesResult_objects r
  | OFull r => FullResult_artifacts r
  end.
(** The objects of a build row's ready outputs. *)
Definition BuildRow_objects (b : BuildRow) : Hashes :=
  from_option HeadResult_artifacts ∅ (Out_ready (br_head b))
  ∪ from_option FilesResult_objects ∅ (Out_ready (br_files b))
  ∪ from_option FullResult_artifacts ∅ (Out_ready (br_full b)).

(** ** One sweep: the batch it read and where each deletion is *)
Inductive Stage := Marked | Checked | LocalGone.
Record Sweep := {
  sw_now : Z;
  sw_todo : list string;
  sw_running : gmap string Stage;
  sw_settled : list string;
}.
Definition SWEEP_BATCH : N := 1000.
Definition SWEEP_PARALLEL : nat := 8.

Definition sweep_run (m : gmap string Stage) (sw : Sweep) : Sweep :=
  {| sw_now := sw_now sw; sw_todo := sw_todo sw; sw_running := m; sw_settled := sw_settled sw |}.
(** A deletion of the batch starts: the artifact is taken off it. *)
Definition sweep_take (hash : string) (m : gmap string Stage) (sw : Sweep) : Sweep :=
  {| sw_now := sw_now sw; sw_todo := List.filter (fun h => negb (bool_decide (h = hash))) (sw_todo sw);
     sw_running := m; sw_settled := sw_settled sw |}.
(** ... ends, [Deleted] or [Kept]: its guard is dropped and it is to be dequeued. *)
Definition sweep_settle (hash : string) (sw : Sweep) : Sweep :=
  {| sw_now := sw_now sw; sw_todo := sw_todo sw; sw_running := delete hash (sw_running sw);
     sw_settled := hash :: sw_settled sw |}.
(** ... fails: the rest of the batch is dropped, with its guards. *)
Definition sweep_stop (sw : Sweep) : Sweep :=
  {| sw_now := sw_now sw; sw_todo := []; sw_running := ∅; sw_settled := sw_settled sw |}.
Definition end_deletes (hashes : Hashes) (p : Pins) : Pins := set_fold end_delete p hashes.

Section system.
Context {S : Serde} (cfg : StoreConfig).
(** The lifetime of a signed URL in seconds, a [u64]. *)
Context (signed_url_ttl : N) (retry_base : N).

(** ** The server *)
Record System := {
  store : Store;
  cas : Hashes;               (* the local objects *)
  bucket : option Hashes;     (* the remote storage; [None]: the CAS is the storage *)
  pins : Pins;
  tasks : gmap TaskId Task;
  sequences : gmap TaskId N;
  sweep : option Sweep;
  clock : Z;
}.

Definition set_store (st : Store) (s : System) : System :=
  {| store := st; cas := cas s; bucket := bucket s; pins := pins s; tasks := tasks s;
     sequences := sequences s; sweep := sweep s; clock := clock s |}.
Definition set_cas (c : Hashes) (s : System) : System :=
  {| store := store s; cas := c; bucket := bucket s; pins := pins s; tasks := tasks s;
     sequences := sequences s; sweep := sweep s; clock := clock s |}.
Definition set_bucket (b : option Hashes) (s : System) : System :=
  {| store := store s; cas := cas s; bucket := b; pins := pins s; tasks := tasks s;
     sequences := sequences s; sweep := sweep s; clock := clock s |}.
Definition set_pins (p : Pins) (s : System) : System :=
  {| store := store s; cas := cas s; bucket := bucket s; pins := p; tasks := tasks s;
     sequences := sequences s; sweep := sweep s; clock := clock s |}.
Definition set_tasks (m : gmap TaskId Task) (s : System) : System :=
  {| store := store s; cas := cas s; bucket := bucket s; pins := pins s; tasks := m;
     sequences := sequences s; sweep := sweep s; clock := clock s |}.
Definition set_sequences (m : gmap TaskId N) (s : System) : System :=
  {| store := store s; cas := cas s; bucket := bucket s; pins := pins s; tasks := tasks s;
     sequences := m; sweep := sweep s; clock := clock s |}.
Definition set_sweep (sw : option Sweep) (s : System) : System :=
  {| store := store s; cas := cas s; bucket := bucket s; pins := pins s; tasks := tasks s;
     sequences := sequences s; sweep := sw; clock := clock s |}.
Definition set_clock (t : Z) (s : System) : System :=
  {| store := store s; cas := cas s; bucket := bucket s; pins := pins s; tasks := tasks s;
     sequences := sequences s; sweep := sweep s; clock := t |}.
Definition set_task (id : TaskId) (t : Task) (s : System) : System := set_tasks (<[id := t]> (tasks s)) s.

(** A new server over an empty store: [remote] says whether a bucket holds the
    artifacts. *)
Definition new_system (remote : bool) (now : Z) : System :=
  {| store := empty_store; cas := ∅; bucket := if remote then Some ∅ else None; pins := Pins_new;
     tasks := ∅; sequences := ∅; sweep := None; clock := now |}.

(** Storage: the bucket, or the CAS itself. *)
Definition storage (s : System) : Hashes := match bucket s with Some b => b | None => cas s end.
(** [put_file_async]: the local copy is uploaded, or already there. *)
Definition storage_put (hash : string) (s : System) : System :=
  match bucket s with
  | Some b => set_bucket (Some ({[hash]} ∪ b)) s
  | None => s
  end.
Definition cas_remove (hash : string) (s : System) : System := set_cas (cas s ∖ {[hash]}) s.
Definition storage_delete (hash : string) (s : System) : System :=
  match bucket s with
  | Some b => set_bucket (Some (b ∖ {[hash]})) s
  | None => cas_remove hash s
  end.

(** ** Steps of a task *)

(** [run_slot]: one claim of a free slot, under the slot's next sequence. *)
Definition claim_slot (now : Z) (pool : Pool) (slot lease : N) (s : System) : System :=
  let id := Slot pool slot in
  let sequence := wrapping_add (default 0%N (sequences s !! id)) 1 in
  let s := set_sequences (<[id := sequence]> (sequences s)) s in
  let '(st, claimed) := claim cfg now (owner_name pool slot sequence) pool lease (store s) in
  let s := set_store st s in
  match claimed with
  | Ok (Some c) => set_task id (new_task (BuildJob c) (BuildRow_objects (c_build c)) (clock s)) s
  | _ => s
  end.

(** A renewal of [run_claim]: a lost lease cancels the build. *)
Definition renew_task (now : Z) (id : TaskId) (t : Task) (c : Claim) (lease : N) (s : System) : System :=
  let '(st, renewed) := renew now c lease (store s) in
  let s := set_store st s in
  match renewed with
  | Ok false => set_task id (set_cancelled true t) s
  | _ => s
  end.

(** The publish of [publish_or_fail]. *)
Definition publish_task (id : TaskId) (t : Task) (c : Claim) (o : Output) (s : System) : System :=
  let '(st, published) := publish c o (store s) in
  set_task id
    (set_phase (match published with
                | Ok p => Ended (settle_named (inl o) (Some p))
                | Err e => Failing (store_error e)
                end) t) (set_store st s).

(** The end of [publish_pinned]: a build publishes its tags and goes on. *)
Definition set_refs_task (id : TaskId) (t : Task) (refs : RepoRefs) (s : System) : System :=
  let '(st, written) := set_refs (Job_repo (t_job t)) refs (store s) in
  let s := set_store st s in
  match t_job t with
  | BuildJob _ => s
  | RefsJob _ =>
      set_task id (set_phase (Ended (match written with Ok true => RepoRefs_artifacts refs | _ => ∅ end)) t) s
  end.

Definition purge_due (now : Z) : Z :=
  i64_saturating_add now (i64_of_u64 (saturating_mul u64_max signed_url_ttl 2)).

(** Requests that name no artifacts. *)
Inductive request : Store -> Store -> Prop :=
  | request_admit now repo commit ref_name st :
      repo_ok repo -> request st (admit_build now repo commit ref_name st).1
  | request_retry repo commit st : request st (retry repo commit st).1
  | request_add_repo now repo owner st : repo_ok repo -> request st (add_repo now repo owner st).1
  | request_remove_repo repo st : request st (remove_repo repo st).1
  | request_record_sizes sizes st : request st (record_sizes sizes st).1
  | request_build_time repo kind ms st : request st (add_build_time repo kind ms st).1.

Inductive sys_step (s : System) : System -> Prop :=
  | sys_tick now : (clock s <= now <= i64_max)%Z -> sys_step s (set_clock now s)
  | sys_request st : request (store s) st -> sys_step s (set_store st s)
  | sys_purge repo now :
      (0 <= now)%Z -> (clock s - Z.of_N signed_url_ttl <= now <= clock s)%Z ->
      sys_step s (set_store (purge_repo repo (purge_due now) (store s)).1 s)
  (* Tasks. *)
  | sys_claim now pool slot lease :
      tasks s !! Slot pool slot = None -> sys_step s (claim_slot now pool slot lease s)
  | sys_publisher n repo :
      repo_ok repo -> tasks s !! Publisher n = None ->
      sys_step s (set_task (Publisher n) (new_task (RefsJob repo) ∅ (clock s)) s)
  | sys_renew now id t c lease :
      tasks s !! id = Some t -> t_job t = BuildJob c -> sys_step s (renew_task now id t c lease s)
  | sys_pin id t hash held p :
      tasks s !! id = Some t -> t_phase t = Working ->
      PinSet_pin hash (t_held t) (pins s) = Some (held, p) ->
      sys_step s (set_pins p (set_task id (set_held held t) s))
  | sys_install id t hash :
      tasks s !! id = Some t -> hash ∈ t_held t -> sys_step s (set_cas ({[hash]} ∪ cas s) s)
  | sys_upload id t hash :
      tasks s !! id = Some t -> hash ∈ t_held t -> hash ∈ cas s \/ hash ∈ storage s ->
      sys_step s (set_task id (add_found hash t) (if bool_decide (hash ∈ storage s) then s else storage_put hash s))
  | sys_read_build id t commit b :
      tasks s !! id = Some t -> status (Job_repo (t_job t)) commit (store s) = Ok (Some b) ->
      sys_step s (set_task id (add_base (BuildRow_objects b) t) s)
  | sys_start_refs id t :
      tasks s !! id = Some t -> sys_step s (set_task id (set_refs_read ∅ (clock s) t) s)
  | sys_read_refs id t refs :
      tasks s !! id = Some t -> get_refs (Job_repo (t_job t)) (store s) = Ok (Some refs) ->
      sys_step s (set_task id (set_refs_read (RepoRefs_artifacts refs ∪ t_refs t) (t_read t) t) s)
  | sys_set_refs id t refs :
      tasks s !! id = Some t -> t_phase t = Working -> RepoRefs_artifacts refs ⊆ t_found t ∪ t_refs t ->
      (clock s <= t_read t + Z.of_N signed_url_ttl)%Z -> sys_step s (set_refs_task id t refs s)
  | sys_refs_end id t repo keep :
      tasks s !! id = Some t -> t_job t = RefsJob repo -> t_phase t = Working -> keep ⊆ t_refs t ->
      sys_step s (set_task id (set_phase (Ended keep) t) s)
  | sys_publish id t c o :
      tasks s !! id = Some t -> t_job t = BuildJob c -> t_phase t = Working ->
      Output_objects o ⊆ t_found t ∪ t_base t -> sys_step s (publish_task id t c o s)
  | sys_build_failed id t c e :
      tasks s !! id = Some t -> t_job t = BuildJob c -> t_phase t = Working ->
      sys_step s (set_task id (set_phase (Failing e) t) s)
  | sys_fail now id t c e :
      tasks s !! id = Some t -> t_job t = BuildJob c -> t_phase t = Failing e ->
      sys_step s (set_task id (set_phase (Ended ∅) t)
        (set_store (record_failure cfg retry_base now c (classify_build_error e) (store s)) s))
  | sys_stop id t :
      tasks s !! id = Some t -> t_phase t = Working -> t_cancelled t = true ->
      sys_step s (set_task id (set_phase (Ended ∅) t) s)
  | sys_queue now id t keep :
      tasks s !! id = Some t -> t_phase t = Ended keep ->
      sys_step s (set_task id (set_phase Queued t) (set_store (queue_unnamed now (t_held t) keep (store s)) s))
  | sys_release id t c :
      tasks s !! id = Some t -> t_job t = BuildJob c -> t_phase t = Queued ->
      sys_step s (set_task id (set_phase Released t) (set_store (release c (store s)).1 s))
  | sys_drop id t :
      tasks s !! id = Some t ->
      t_phase t = Released \/
        (t_phase t = Queued /\ (t_cancelled t = true \/ exists repo, t_job t = RefsJob repo)) ->
      sys_step s (set_pins (PinSet_drop (t_held t) (pins s)) (set_tasks (delete id (tasks s)) s))
  (* Local copies in front of a bucket go at any time: retention, [settle_storage]. *)
  | sys_evict hash : is_Some (bucket s) -> sys_step s (cas_remove hash s)
  (* Sweeps. *)
  | sys_sweep now :
      sweep s = None -> (now <= clock s)%Z ->
      sys_step s (set_sweep (Some {| sw_now := now; sw_todo := due_deletions now SWEEP_BATCH (store s);
                                     sw_running := ∅; sw_settled := [] |}) s)
  | sys_sweep_pinned sw hash :
      sweep s = Some sw -> hash ∈ sw_todo sw -> size (sw_running sw) < SWEEP_PARALLEL ->
      begin_delete hash (pins s) = None -> sys_step s (set_sweep (Some (sweep_take hash (sw_running sw) sw)) s)
  | sys_sweep_mark sw hash p :
      sweep s = Some sw -> hash ∈ sw_todo sw -> size (sw_running sw) < SWEEP_PARALLEL ->
      begin_delete hash (pins s) = Some p ->
      sys_step s (set_pins p (set_sweep (Some (sweep_take hash (<[hash := Marked]> (sw_running sw)) sw)) s))
  | sys_sweep_check sw hash :
      sweep s = Some sw -> sw_running sw !! hash = Some Marked ->
      sys_step s
        (if deletable hash (sw_now sw) (store s)
         then set_sweep (Some (sweep_run (<[hash := Checked]> (sw_running sw)) sw)) s
         else set_pins (end_delete hash (pins s)) (set_sweep (Some (sweep_settle hash sw)) s))
  | sys_sweep_local sw hash :
      sweep s = Some sw -> sw_running sw !! hash = Some Checked ->
      sys_step s (set_sweep (Some (sweep_run (<[hash := LocalGone]> (sw_running sw)) sw)) (cas_remove hash s))
  | sys_sweep_delete sw hash :
      sweep s = Some sw -> sw_running sw !! hash = Some LocalGone ->
      sys_step s (set_pins (end_delete hash (pins s))
        (set_sweep (Some (sweep_settle hash sw)) (storage_delete hash s)))
  | sys_sweep_fail sw gone :
      sweep s = Some sw -> (forall h, h ∈ gone -> sw_running sw !! h = Some LocalGone) ->
      sys_step s (set_pins (end_deletes (dom (sw_running sw)) (pins s))
        (set_sweep (Some (sweep_stop sw)) (foldr storage_delete s gone)))
  | sys_sweep_end sw :
      sweep s = Some sw -> sw_todo sw = [] -> sw_running sw = ∅ ->
      sys_step s (set_sweep None (set_store (dequeue_deletions (sw_settled sw) (sw_now sw) (store s)).1 s))
  (* The process stops and starts again: only the store and storage are left. *)
  | sys_restart :
      sys_step s {| store := (reset_leases (store s)).1; cas := cas s; bucket := bucket s; pins := Pins_new;
                    tasks := ∅; sequences := ∅; sweep := None; clock := clock s |}.

Definition sys_reachable (remote : bool) (s : System) : Prop :=
  exists now, (now <= i64_max)%Z /\ rtc sys_step (new_system remote now) s.

End system.
