(* ===== verification/GcSafety.v ===== *)
(** No artifact a repository names is ever deleted, and none a running build has
    stored: the invariant of [GcSystem] and that every step keeps it. *)

From S2P Require Import Prelude Provider Validation Outputs Control ControlInv ControlThms ControlGc Pins Worker GcSystem.

(** ** Slot names *)
Definition no_dash (s : string) : Prop := Forall (fun c => c <> "-"%char) (String.list_ascii_of_string s).

Lemma no_dash_pretty (n : N) : no_dash (pretty n).
Proof.
  assert (H : forall x s, no_dash s -> no_dash (pretty_N_go x s)).
  { intros x. induction (N.lt_wf_0 x) as [x _ IH]. intros s Hs.
    destruct (decide (0 < x)%N) as [Hx|Hx].
    - rewrite pretty_N_go_step by done. apply IH; [apply N.div_lt; lia|]. constructor; [|done].
      unfold pretty_N_char. repeat case_match; done.
    - assert (x = 0%N) as -> by lia. by rewrite pretty_N_go_0. }
  unfold pretty, pretty_N. case_decide; [by repeat constructor|]. by apply H; constructor.
Qed.

Lemma before_dash a a' b b' :
  no_dash a -> no_dash a' -> a +:+ String "-" b = a' +:+ String "-" b' -> a = a'.
Proof.
  revert a'; induction a as [|c a IH]; intros [|c' a'] Ha Ha'; cbn; try done.
  - intros [= <-]. by apply Forall_inv in Ha'.
  - intros [= ->]. by apply Forall_inv in Ha.
  - intros [= -> Heq]. f_equal. apply IH; [by eapply Forall_inv_tail|by eapply Forall_inv_tail|done].
Qed.

(** Two slots of a pool never claim under one name. *)
Lemma owner_name_slot p slot slot' q q' : owner_name p slot q = owner_name p slot' q' -> slot = slot'.
Proof.
  unfold owner_name, slot_name. intros H.
  assert (H' : pretty slot +:+ String "-" (pretty q) = pretty slot' +:+ String "-" (pretty q')).
  { destruct p; cbn in H; injection H as H; exact H. }
  apply before_dash in H'; [|apply no_dash_pretty..]. by apply (inj pretty) in H'.
Qed.

(** ** How many tasks pin an artifact *)
Definition holders (h : string) (m : gmap TaskId Task) : N :=
  N.of_nat (size (filter (fun x => h ∈ t_held x.2) m)).
Definition holds (h : string) (t : Task) : N := if decide (h ∈ t_held t) then 1 else 0.

Lemma holders_new h id t m : m !! id = None -> holders h (<[id := t]> m) = (holders h m + holds h t)%N.
Proof.
  intros Hm. unfold holders, holds. case_decide as Hh.
  - rewrite map_filter_insert_True by done. rewrite map_size_insert_None; [lia|].
    apply map_lookup_filter_None. by left.
  - rewrite map_filter_insert_not'; [lia|done|]. intros y Hy. congruence.
Qed.
Lemma holders_delete h id t m :
  m !! id = Some t -> holders h m = (holders h (delete id m) + holds h t)%N.
Proof.
  intros Hm. rewrite <- (insert_delete_id m id t) at 1 by done. apply holders_new, lookup_delete_eq.
Qed.
Lemma holders_update h id t t' m :
  m !! id = Some t -> (holders h (<[id := t']> m) + holds h t = holders h m + holds h t')%N.
Proof.
  intros Hm. rewrite <- insert_delete_eq, holders_new by apply lookup_delete_eq.
  rewrite (holders_delete h id t m) by done. lia.
Qed.

(** ** The invariant *)
Section inv.
Context {S : Serde} {SOk : SerdeOk S} (cfg : StoreConfig) (ttl retry_base : N).
Context (Hmax : (1 <= max_attempts cfg)%Z).
Implicit Types s : System.

(** The objects of a row's ready outputs, and those a repository's ready outputs and
    published refs name. *)
Definition row_objects (r : Row) (h : string) : Prop :=
  (exists j x, kc_state (r_head r) = "ready" /\ kc_output (r_head r) = Some j /\
     head_of_json j = Ok x /\ h ∈ HeadResult_artifacts x) \/
  (exists j x, kc_state (r_files r) = "ready" /\ kc_output (r_files r) = Some j /\
     files_of_json j = Ok x /\ h ∈ FilesResult_objects x) \/
  (exists j x, kc_state (r_full r) = "ready" /\ kc_output (r_full r) = Some j /\
     full_of_json j = Ok x /\ h ∈ FullResult_artifacts x).
Definition object_of (st : Store) (key h : string) : Prop :=
  (exists r, r ∈ builds st /\ r_repo r = key /\ row_objects r h) \/
  (exists repo refs, repo_ok repo /\ storage_key repo = key /\ get_refs repo st = Ok (Some refs) /\ h ∈ RepoRefs_artifacts refs).
Lemma FilesResult_objects_named r : FilesResult_objects r ⊆ FilesResult_artifacts r.
Proof.
  revert r. fix IH 1. intros [cp chunks frames compact]. cbn [FilesResult_objects FilesResult_artifacts fs_clonepack fs_archive_chunks fs_archive_frames fs_compact].
  assert (H : match compact with Some c => FilesResult_objects c | None => ∅ end ⊆ match compact with Some c => FilesResult_artifacts c | None => ∅ end)
    by (destruct compact as [c|]; [apply IH|done]).
  intros h [Hh|Hh]%elem_of_union; [|apply elem_of_union; right; by apply H]. apply elem_of_union. left. revert Hh. rewrite !elem_of_named, !elem_of_app. tauto.
Qed.
Lemma row_objects_named r h : row_objects r h -> row_names r h.
Proof.
  unfold row_objects, row_names. intros [H|[(j & x & H1 & H2 & H3 & H4)|H]]; [by left| |by right; right].
  right; left. exists j, x. split_and!; [done..|]. by apply FilesResult_objects_named.
Qed.
Lemma object_named st key h : store_ok cfg st -> object_of st key h -> (key, h) ∈ artifact_refs st.
Proof.
  intros Hok [(r & Hr & <- & Hh)|(repo & refs & Hrepo & <- & Hg & Hh)].
  - by apply (so_named _ _ Hok), row_objects_named.
  - by eapply (so_refs_named _ _ Hok).
Qed.

(** The claimed row, while the claim still holds its lease. *)
Definition owned_by (c : Claim) (st : Store) : Prop := exists r, r ∈ builds st /\ owns c r = true.

(** Nothing stops the sweep from deleting [h] any more. *)
Definition doomed (h : string) s : Prop :=
  exists sw, sweep s = Some sw /\ (sw_running sw !! h = Some Checked \/ sw_running sw !! h = Some LocalGone).

(** [h] cannot be deleted before [x]. *)
Definition kept_until (x : Z) (h : string) (st : Store) : Prop :=
  (exists repo, (repo, h) ∈ artifact_refs st) \/ (exists due, deletions st !! h = Some due /\ (x <= due)%Z).

Definition read_until (t : Task) : Z := Z.min i64_max (t_read t + Z.of_N ttl).

Record task_ok s (id : TaskId) (t : Task) : Prop := {
  tk_found : forall h, h ∈ t_found t -> h ∈ t_held t /\ h ∈ storage s;
  tk_base : forall c h, t_job t = BuildJob c -> owned_by c (store s) -> h ∈ t_base t ->
    (storage_key (c_repo c), h) ∈ artifact_refs (store s) /\ h ∈ storage s /\ ~ doomed h s;
  tk_owner : forall c, t_job t = BuildJob c -> exists slot sequence,
    id = Slot (c_pool c) slot /\ c_owner c = instance cfg +:+ owner_name (c_pool c) slot sequence;
  tk_repo : repo_ok (Job_repo (t_job t));
  tk_refs : forall h, (clock s <= t_read t + Z.of_N ttl)%Z -> h ∈ t_refs t ->
    h ∈ storage s /\ ~ doomed h s /\ kept_until (read_until t) h (store s);
  tk_read : (t_read t <= clock s)%Z;
}.

Record sys_ok s : Prop := {
  sy_store : store_ok cfg (store s);
  sy_stored : forall key h, object_of (store s) key h -> h ∈ storage s /\ ~ doomed h s;
  sy_pins : pins_ok (pins s);
  sy_count : forall h, pins_of h (pins s) = holders h (tasks s);
  sy_deleting : forall h, h ∈ deleting (pins s) <->
    exists sw, sweep s = Some sw /\ is_Some (sw_running sw !! h);
  sy_sweep : forall sw, sweep s = Some sw -> (sw_now sw <= clock s)%Z;
  sy_clock : (clock s <= i64_max)%Z;
  sy_tasks : forall id t, tasks s !! id = Some t -> task_ok s id t;
}.

(** A pinned artifact is not being deleted. *)
Lemma held_not_deleting s id t h : sys_ok s -> tasks s !! id = Some t -> h ∈ t_held t -> h ∉ deleting (pins s).
Proof.
  intros Hok Ht Hh. apply (pins_apart _ (sy_pins _ Hok)), (pinned_iff _ _ (sy_pins _ Hok)).
  rewrite (sy_count _ Hok), (holders_delete h id t) by done. unfold holds. rewrite decide_True by done. lia.
Qed.
Lemma doomed_deleting s h : sys_ok s -> doomed h s -> h ∈ deleting (pins s).
Proof. intros Hok (sw & Hs & Hh). apply (sy_deleting _ Hok). exists sw. split; [done|]. destruct Hh; eauto. Qed.
Lemma held_not_doomed s id t h : sys_ok s -> tasks s !! id = Some t -> h ∈ t_held t -> ~ doomed h s.
Proof. intros Hok Ht Hh Hd. by eapply held_not_deleting, doomed_deleting. Qed.

(** ** Changes of the store alone *)
Record store_change s (st : Store) : Prop := {
  sc_ok : store_ok cfg st;
  sc_named : forall key h, object_of st key h -> object_of (store s) key h \/ (h ∈ storage s /\ ~ doomed h s);
  sc_owned : forall id t c, tasks s !! id = Some t -> t_job t = BuildJob c -> owned_by c st ->
    owned_by c (store s) /\
    forall h, (storage_key (c_repo c), h) ∈ artifact_refs (store s) -> (storage_key (c_repo c), h) ∈ artifact_refs st;
  sc_kept : forall x h, (clock s <= x)%Z -> (x <= Z.min i64_max (clock s + Z.of_N ttl))%Z ->
    kept_until x h (store s) -> kept_until x h st;
}.

Lemma change_store s st : sys_ok s -> store_change s st -> sys_ok (set_store st s).
Proof.
  intros Hok [Hst Hnamed Howned Hkept]. constructor; cbn; try apply Hok; [done|..].
  - intros repo h [Hn|Hn]%Hnamed; [|done]. by eapply (sy_stored _ Hok).
  - intros id t Ht. pose proof (sy_tasks _ Hok _ _ Ht) as []. constructor; cbn; try done.
    + intros c h Hj Ho Hh. destruct (Howned _ _ _ Ht Hj Ho) as [Ho' Hn]. destruct (tk_base0 c h Hj Ho' Hh) as (? & ? & ?). auto.
    + intros h Hc Hh. destruct (tk_refs0 h Hc Hh) as (H1 & H2 & H3). split_and!; [done|done|].
      pose proof (sy_clock _ Hok). apply Hkept; [unfold read_until; lia|unfold read_until; lia|done].
Qed.

(** A change that names nothing new, forgets no name, and moves no due time
    forward. *)
Lemma quiet_change s st :
  store_ok cfg st -> artifact_refs st = artifact_refs (store s) ->
  (forall key h, object_of st key h -> object_of (store s) key h) ->
  (forall id t c, tasks s !! id = Some t -> t_job t = BuildJob c -> owned_by c st -> owned_by c (store s)) ->
  (forall x h, deletions (store s) !! h = Some x -> exists x', deletions st !! h = Some x' /\ (x <= x')%Z) ->
  store_change s st.
Proof.
  intros Hst Hrefs Hobj Ho Hd. constructor; [done|..].
  - intros key h Hh. left. by apply Hobj.
  - intros id t c Ht Hj Hc. split; [by eapply Ho|]. by rewrite Hrefs.
  - intros x h _ _ [Hn|(due & Hdue & Hx)]; [left; by rewrite Hrefs|right].
    destruct (Hd _ _ Hdue) as (due' & ? & ?). exists due'. split; [done|lia].
Qed.

(** ** Changes of one task *)
Lemma change_task s id t t' :
  sys_ok s -> tasks s !! id = Some t -> t_held t' = t_held t -> task_ok s id t' -> sys_ok (set_task id t' s).
Proof.
  intros Hok Ht Hh Ht'. constructor; cbn; try apply Hok.
  - intros h. rewrite (sy_count _ Hok). pose proof (holders_update h id t t' (tasks s) Ht) as H.
    unfold holds in H. rewrite Hh in H. lia.
  - intros id' t''. destruct (decide (id' = id)) as [->|].
    + rewrite lookup_insert_eq. intros [= <-]. destruct Ht'. by constructor.
    + rewrite lookup_insert_ne by done. intros H%(sy_tasks _ Hok). destruct H. by constructor.
Qed.
Lemma new_task_ok s id t :
  sys_ok s -> tasks s !! id = None -> t_held t = ∅ -> task_ok s id t -> sys_ok (set_task id t s).
Proof.
  intros Hok Ht Hh Ht'. constructor; cbn; try apply Hok.
  - intros h. rewrite (sy_count _ Hok), holders_new by done. unfold holds. rewrite decide_False by set_solver. lia.
  - intros id' t''. destruct (decide (id' = id)) as [->|].
    + rewrite lookup_insert_eq. intros [= <-]. destruct Ht'. by constructor.
    + rewrite lookup_insert_ne by done. intros H%(sy_tasks _ Hok). destruct H. by constructor.
Qed.

(** ** Changes of storage and the sweep *)
Lemma change_env s s' :
  sys_ok s -> store s' = store s -> tasks s' = tasks s -> clock s' = clock s ->
  (forall h, h ∈ storage s -> h ∈ storage s' \/ doomed h s) ->
  pins_ok (pins s') -> (forall h, pins_of h (pins s') = pins_of h (pins s)) ->
  (forall h, h ∈ deleting (pins s') <-> exists sw, sweep s' = Some sw /\ is_Some (sw_running sw !! h)) ->
  (forall sw, sweep s' = Some sw -> (sw_now sw <= clock s)%Z) ->
  (forall h, doomed h s' -> doomed h s \/ forall x, (clock s <= x)%Z -> ~ kept_until x h (store s)) ->
  sys_ok s'.
Proof.
  intros Hok Est Eta Ecl Hsto Hp Hc Hd Hsw Hdoom.
  assert (Hsafe : forall x h, (clock s <= x)%Z -> h ∈ storage s -> ~ doomed h s -> kept_until x h (store s) ->
    h ∈ storage s' /\ ~ doomed h s').
  { intros x h Hx Hh Hn Hk. split; [by destruct (Hsto h Hh)|]. intros [?|Hx']%Hdoom; [done|]. by eapply Hx'. }
  constructor; rewrite ?Est, ?Eta, ?Ecl; try apply Hok; try done.
  - intros key h Hn. destruct (sy_stored _ Hok _ _ Hn) as [H1 H2]. apply (object_named _ _ _ (sy_store _ Hok)) in Hn.
    apply (Hsafe (clock s)); try done. left. eauto.
  - intros h. rewrite Hc. apply Hok.
  - intros id t Ht. pose proof (sy_tasks _ Hok _ _ Ht) as [F B ? ? R ?].
    constructor; rewrite ?Est, ?Ecl; try done.
    + intros h Hh. destruct (F h Hh) as [Hh' Hs]. split; [done|]. destruct (Hsto h Hs); [done|].
      exfalso. by eapply held_not_doomed.
    + intros c h Hj Ho Hh. destruct (B c h Hj Ho Hh) as (Hn & H1 & H2). split; [done|].
      apply (Hsafe (clock s)); try done. left. eauto.
    + intros h Hw Hh. destruct (R h Hw Hh) as (H1 & H2 & H3). pose proof (sy_clock _ Hok).
      destruct (Hsafe (read_until t) h) as [? ?]; try done. unfold read_until. lia.
Qed.

(** ** What the store's operations change *)

(** A row that keeps its key and takes no new lease. *)
Definition keeps_lease (r r' : Row) : Prop :=
  row_key r' = row_key r /\
  forall k o, kc_lease_owner (cols k r') = Some o -> kc_lease_owner (cols k r) = Some o.
(** ... and gets no new output. *)
Definition keeps (r r' : Row) : Prop :=
  keeps_lease r r' /\
  forall k, kc_state (cols k r') = "ready" -> kc_state (cols k r) = "ready" /\ kc_output (cols k r') = kc_output (cols k r).
Definition rows_quiet (rows rows' : list Row) : Prop :=
  forall r', r' ∈ rows' ->
    (exists r, r ∈ rows /\ keeps r r') \/
    (forall k, kc_lease_owner (cols k r') = None /\ kc_state (cols k r') <> "ready").

Lemma keeps_refl r : keeps r r.
Proof. done. Qed.
Lemma keeps_trans r1 r2 r3 : keeps r1 r2 -> keeps r2 r3 -> keeps r1 r3.
Proof.
  intros [[K1 L1] O1] [[K2 L2] O2]. split; [split; [congruence|eauto]|].
  intros k H. destruct (O2 k H) as [H2 E2]. destruct (O1 k H2) as [H1 E1]. split; congruence.
Qed.
(** An update of one kind's columns. *)
Definition cols_quiet (f : KindCols -> KindCols) : Prop := forall c,
  (forall o, kc_lease_owner (f c) = Some o -> kc_lease_owner c = Some o) /\
  (kc_state (f c) = "ready" -> kc_state c = "ready" /\ kc_output (f c) = kc_output c).
Lemma keeps_upd k f r : cols_quiet f -> keeps r (upd_cols k f r).
Proof.
  intros Hf. split; [split; [by destruct k|]|]; intros k'; destruct (decide (k' = k)) as [->|].
  - rewrite cols_upd_same. apply Hf.
  - by rewrite cols_upd_other.
  - rewrite cols_upd_same. apply Hf.
  - by rewrite cols_upd_other.
Qed.
Lemma keeps_fail_full e r : keeps r (fail_full e r).
Proof. apply keeps_upd. intros c. destruct (pending c); cbn; naive_solver. Qed.

Lemma rows_quiet_refl rows : rows_quiet rows rows.
Proof. intros r Hr. left. exists r. split; [done|apply keeps_refl]. Qed.
Lemma rows_quiet_update p f rows : (forall r, keeps r (f r)) -> rows_quiet rows (update_where p f rows).
Proof.
  intros Hf r' (r & Hr & ->)%elem_of_update_where. left. exists r. split; [done|].
  destruct (p r); [apply Hf|apply keeps_refl].
Qed.
Lemma owns_keeps c r r' : keeps_lease r r' -> owns c r' = true -> owns c r = true.
Proof.
  intros [Hk Ho] H. unfold owns. rewrite (Ho _ _ (owns_owner _ _ H)), bool_decide_true, andb_true_r by done.
  apply is_key_true. rewrite <- Hk. by apply owns_key.
Qed.
Lemma owned_leases c st st' :
  (forall r', r' ∈ builds st' -> exists r, r ∈ builds st /\ keeps_lease r r') -> owned_by c st' -> owned_by c st.
Proof. intros Hq (r' & (r & Hr & Hk)%Hq & Ho). exists r. split; [done|]. by eapply owns_keeps. Qed.
Lemma owned_quiet c st st' : rows_quiet (builds st) (builds st') -> owned_by c st' -> owned_by c st.
Proof.
  intros Hq (r' & Hr' & Ho). destruct (Hq _ Hr') as [(r & Hr & Hk & _)|Hn].
  - exists r. split; [done|]. by eapply owns_keeps.
  - apply owns_owner in Ho. by rewrite (proj1 (Hn _)) in Ho.
Qed.
Lemma row_objects_keeps r r' h : keeps r r' -> row_objects r' h -> row_objects r h.
Proof.
  intros [_ Ho] [(j & x & H1 & H2 & H3)|[(j & x & H1 & H2 & H3)|(j & x & H1 & H2 & H3)]].
  - destruct (Ho Head H1) as [? E]. cbn in *. rewrite H2 in E. left. eauto.
  - destruct (Ho Files H1) as [? E]. cbn in *. rewrite H2 in E. right; left. eauto.
  - destruct (Ho Full H1) as [? E]. cbn in *. rewrite H2 in E. right; right. eauto.
Qed.
Lemma no_objects r h : (forall k, kc_state (cols k r) <> "ready") -> ~ row_objects r h.
Proof.
  intros Hn [(j & x & H & _)|[(j & x & H & _)|(j & x & H & _)]]; [by apply (Hn Head)|by apply (Hn Files)|by apply (Hn Full)].
Qed.
Lemma objects_quiet st st' key h :
  rows_quiet (builds st) (builds st') -> repo_refs st' = repo_refs st -> object_of st' key h -> object_of st key h.
Proof.
  intros Hq Hr [(r' & Hr' & <- & Hh)|(repo & refs & H1 & H2 & H3 & H4)].
  - left. destruct (Hq _ Hr') as [(r & Hin & Hk)|Hn]; [|exfalso; eapply no_objects; [|exact Hh]; intros k; apply Hn].
    exists r. split_and!; [done| |by eapply row_objects_keeps]. destruct Hk as [[Hk _] _]. apply (f_equal fst) in Hk. done.
  - right. exists repo, refs. unfold get_refs in *. rewrite Hr in H3. auto.
Qed.

Lemma quiet_rows s st :
  store_ok cfg st -> artifact_refs st = artifact_refs (store s) -> deletions st = deletions (store s) ->
  repo_refs st = repo_refs (store s) -> rows_quiet (builds (store s)) (builds st) -> store_change s st.
Proof.
  intros Hst Hr Hd Hrr Hq. apply quiet_change; [done|done|..].
  - intros key h. by apply objects_quiet.
  - intros id t c _ _. by apply owned_quiet.
  - intros x h. rewrite Hd. intros H. exists x. split; [done|lia].
Qed.

Lemma request_change s st : sys_ok s -> request (store s) st -> store_change s st.
Proof.
  intros Hok Hr. pose proof (sy_store _ Hok) as Hst. remember (store s) as st0 eqn:E.
  destruct Hr; rewrite E in *.
  - apply quiet_rows; [by apply admit_ok; [lia|..]| | | |].
    1-3: unfold admit_build; destruct (rbind _ _); [|done]; cbv zeta; by destruct (find_build _ _ _).
    unfold admit_build. destruct (rbind _ _); [|apply rows_quiet_refl]. cbv zeta.
    match goal with |- rows_quiet ?a (builds (fst (match find_build ?x ?y (set_builds ?rows ?st) with _ => _ end))) =>
      assert (rows_quiet a rows); [|by destruct (find_build x y (set_builds rows st))] end.
    destruct (existsb _ _); cbn [negb].
    + destruct ref_name; [by apply rows_quiet_update|apply rows_quiet_refl].
    + intros r [Hr%rows_quiet_refl| ->%list_elem_of_singleton]%elem_of_app; [done|right; by intros []].
  - apply quiet_rows; [by apply retry_ok|done|done|done|]. apply rows_quiet_update. intros r.
    assert (Hc : cols_quiet reset_cols) by (intros c; unfold reset_cols, failed; case_bool_decide; cbn; split; [auto|done|auto|auto]).
    unfold reset_row. eapply keeps_trans; [|by apply keeps_upd]. eapply keeps_trans; by apply keeps_upd.
  - assert (builds (add_repo now repo owner (store s)).1 = builds (store s) /\
      artifact_refs (add_repo now repo owner (store s)).1 = artifact_refs (store s) /\
      deletions (add_repo now repo owner (store s)).1 = deletions (store s) /\
      repo_refs (add_repo now repo owner (store s)).1 = repo_refs (store s)) as (Eb & Er & Ed & Err).
    { unfold add_repo. destruct (added_repos (store s) !! _) as [[a o]|]; [|done].
      destruct owner; [|done]. by case_bool_decide. }
    apply quiet_rows; [by apply add_repo_ok|done|done|done|]. rewrite Eb. apply rows_quiet_refl.
  - apply quiet_rows; [by apply remove_repo_ok|done|done|done|apply rows_quiet_refl].
  - apply quiet_rows; [by apply record_sizes_ok|done|done|done|apply rows_quiet_refl].
  - apply quiet_rows; [by apply add_build_time_ok|done|done|done|apply rows_quiet_refl].
Qed.

Lemma renew_change s now c lease : sys_ok s -> store_change s (renew now c lease (store s)).1.
Proof.
  intros Hok. apply quiet_rows; [by apply renew_ok, Hok|done|done|done|].
  apply rows_quiet_update. intros r. by apply keeps_upd.
Qed.
Lemma release_change s c : sys_ok s -> store_change s (release c (store s)).1.
Proof.
  intros Hok. apply quiet_rows; [by apply release_ok, Hok|done|done|done|].
  apply rows_quiet_update. intros r. by apply keeps_upd.
Qed.
Lemma failure_change s now c e : sys_ok s -> store_change s (record_failure cfg retry_base now c e (store s)).
Proof.
  intros Hok. apply quiet_rows; [by apply fail_ok, Hok|done|done|done|].
  apply rows_quiet_update. intros r. unfold fail_row.
  destruct (kind_eqb _ _ && _); [eapply keeps_trans; [|apply keeps_fail_full]|]; apply keeps_upd; intros x; (split; [done|]); cbn; by case_match.
Qed.

Lemma queue_change s now held keep : sys_ok s -> store_change s (queue_unnamed now held keep (store s)).
Proof.
  intros Hok. destruct (queue_unnamed_spec now held keep (store s)) as (Hq & Hk & [m Hm]). cbv zeta in *.
  rewrite Hm in *. apply quiet_change; [by apply set_deletions_ok, Hok|done|done|done|].
  intros x h Hx. unfold queue_unnamed in Hm. revert Hm. case_bool_decide; intros Hm.
  - rewrite <- Hm. exists x. split; [done|lia].
  - rewrite <- Hm. cbn. rewrite keep_later_foldl, Hx. case_decide; eexists; (split; [done|lia]).
Qed.

Lemma dequeue_change s hashes now :
  sys_ok s -> (now <= clock s)%Z -> store_change s (dequeue_deletions hashes now (store s)).1.
Proof.
  intros Hok Hnow. constructor; [by apply dequeue_deletions_ok, Hok|by auto|by auto|].
  intros x h Hx _ [Hn|(due & Hd & Hxd)]; [by left|right]. exists due. split; [|done].
  cbn. apply map_lookup_filter_Some. split; [done|]. cbn. intros [_ ?]. lia.
Qed.

(** A purge's artifacts are due two lifetimes later. *)
Lemma purge_due_late now t :
  (0 <= now)%Z -> (t - Z.of_N ttl <= now)%Z -> (Z.min i64_max (t + Z.of_N ttl) <= purge_due ttl now)%Z.
Proof.
  intros H0 Hn. unfold purge_due, i64_saturating_add, i64_of_u64, saturating_mul.
  assert (2 * Z.of_N ttl = Z.of_N (ttl * 2))%Z by lia.
  unfold i64_max, i64_min, u64_max in *. lia.
Qed.

Lemma purge_change s repo now :
  sys_ok s -> (0 <= now)%Z -> (clock s - Z.of_N ttl <= now <= clock s)%Z ->
  store_change s (purge_repo repo (purge_due ttl now) (store s)).1.
Proof.
  intros Hok H0 Hnow. pose proof (purge_due_late now (clock s) H0 (proj1 Hnow)) as Hdue.
  assert (Hrefs : forall r h, (r, h) ∈ artifact_refs (purge_repo repo (purge_due ttl now) (store s)).1 <->
    r <> storage_key repo /\ (r, h) ∈ artifact_refs (store s)) by (intros; cbn; by rewrite elem_of_filter).
  constructor.
  - by apply purge_repo_ok, Hok.
  - intros key h [(r & [Hr _]%elem_of_lfilter & Hh)|(r & refs & H1 & H2 & H3 & H4)]; left; [left; by exists r|right].
    exists r, refs. split_and!; try done. revert H3. unfold get_refs. cbn.
    destruct (decide (storage_key repo = storage_key r)) as [->|]; [by rewrite lookup_delete_eq|by rewrite lookup_delete_ne].
  - intros id t c _ _ (r & [Hr Hn]%elem_of_lfilter & Ho). unfold of_repo in Hn.
    apply negb_true_iff, bool_decide_eq_false in Hn.
    pose proof (owns_key _ _ Ho) as Hk. apply (f_equal fst) in Hk. cbn in Hk. split; [by exists r|].
    intros h Hh. apply Hrefs. split; [congruence|done].
  - intros x h Hx Hx' Hk.
    destruct (decide (set_Exists (fun x => x.1 <> storage_key repo /\ x.2 = h) (artifact_refs (store s))))
      as [([r h'] & Hr & Hne & Heq)|Hno]; cbn in *.
    { left. exists r. apply Hrefs. by subst. }
    assert (forall o, (o, h) ∈ artifact_refs (store s) -> o = storage_key repo) as Hall.
    { intros o Ho. destruct (decide (o = storage_key repo)); [done|]. exfalso. apply Hno. by exists (o, h). }
    right. cbn. rewrite keep_later_foldr. destruct Hk as [[r Hr]|(due & Hd & Hxd)].
    + assert (h ∈ only_named_by (storage_key repo) (store s)) as Hin.
      { apply elem_of_only_named_by. split; [|done]. by rewrite <- (Hall _ Hr). }
      rewrite decide_True by by apply elem_of_elements.
      eexists. split; [done|]. destruct (deletions (store s) !! h); lia.
    + rewrite Hd. case_decide; eexists; (split; [done|lia]).
Qed.

Lemma same_change s : sys_ok s -> store_change s (store s).
Proof. intros Hok. apply quiet_rows; [apply Hok|done|done|done|apply rows_quiet_refl]. Qed.

(** A change that only adds names, each of an artifact; and objects that are safe. *)
Lemma naming_change s st key (hashes : Hashes) :
  store_ok cfg st ->
  (forall x, x ∈ artifact_refs st <-> x ∈ artifact_refs (store s) \/ (x.1 = key /\ x.2 ∈ hashes)) ->
  deletions st = deletions (store s) -> (forall c, owned_by c st -> owned_by c (store s)) ->
  (forall key h, object_of st key h -> object_of (store s) key h \/ (h ∈ storage s /\ ~ doomed h s)) ->
  store_change s st.
Proof.
  intros Hst Hr Hd Hq Hsafe. constructor; [done|exact Hsafe|..].
  - intros id t c _ _ Ho. split; [by apply Hq|]. intros h Hh. apply Hr. by left.
  - intros x h _ _ [[r H]|H]; [left; exists r; apply Hr; by left|right; by rewrite Hd].
Qed.

Lemma found_safe s id t h : sys_ok s -> tasks s !! id = Some t -> h ∈ t_found t -> h ∈ storage s /\ ~ doomed h s.
Proof.
  intros Hok Ht Hh. destruct (tk_found _ _ _ (sy_tasks _ Hok _ _ Ht) h Hh) as [Hheld Hs].
  split; [done|]. by eapply held_not_doomed.
Qed.

(** The objects of a published row. *)
Lemma publish_row_objects o data r h :
  Output_to_json o = Ok data -> row_objects (publish_row o data r) h -> row_objects r h \/ h ∈ Output_objects o.
Proof.
  intros Hj Hh. destruct o as [x parent|x|x]; cbn in *; unfold row_objects in *; cbn in *;
    first [apply head_json in Hj|apply files_json in Hj|apply full_json in Hj];
    destruct Hh as [(j & y & H)|[(j & y & H)|(j & y & H)]]; try (left; naive_solver).
  all: right; destruct H as (_ & [= <-] & Hy & Hh); congruence.
Qed.
Lemma publish_change s id t c o :
  sys_ok s -> tasks s !! id = Some t -> t_job t = BuildJob c -> Output_objects o ⊆ t_found t ∪ t_base t ->
  store_change s (publish c o (store s)).1.
Proof.
  intros Hok Ht Hj Ho.
  pose proof (publish_ok cfg c o _ (sy_store _ Hok)) as Hst.
  destruct (publish_cases c o (store s)) as [E|(data & r & Hjson & _ & _ & Hr & Hown & _ & E)]; rewrite E in *; [by apply same_change|].
  apply (naming_change s _ (storage_key (c_repo c)) (Output_artifacts o)); [done| |done|..].
  - intros x. exact (elem_of_record_refs _ _ _ x).
  - intros c'. apply owned_leases. intros r' (r0 & Hr0 & ->)%elem_of_update_where. exists r0. split; [done|].
    case_match; [|done]. split; [apply publish_row_key|]. by destruct o, k.
  - intros key h [(r' & (r0 & Hr0 & ->)%elem_of_update_where & Hkey & Hh)|Hh]; [|by left; right].
    assert (row_objects r0 h \/ h ∈ Output_objects o) as [Hh'|Hh'] by (case_match; [by eapply publish_row_objects|by left]).
    + left; left. exists r0. split_and!; [done| |done]. by case_match; [rewrite <- Hkey, publish_row_repo|].
    + right. apply Ho, elem_of_union in Hh' as [Hf|Hb]; [by eapply found_safe|].
      by eapply (tk_base _ _ _ (sy_tasks _ Hok _ _ Ht) c h Hj ltac:(by exists r)).
Qed.

Lemma set_refs_change s id t refs :
  sys_ok s -> tasks s !! id = Some t -> RepoRefs_artifacts refs ⊆ t_found t ∪ t_refs t ->
  (clock s <= t_read t + Z.of_N ttl)%Z -> store_change s (set_refs (Job_repo (t_job t)) refs (store s)).1.
Proof.
  intros Hok Ht Hrefs Hw. pose proof (sy_tasks _ Hok _ _ Ht) as Htk.
  pose proof (set_refs_ok cfg (Job_repo (t_job t)) refs _ (tk_repo _ _ _ Htk) (sy_store _ Hok)) as Hst.
  destruct (set_refs_cases (Job_repo (t_job t)) refs (store s)) as [[E _]|(row & E & _ & _ & _ & Hget)]; rewrite E in *; [by apply same_change|].
  apply (naming_change s _ (storage_key (Job_repo (t_job t))) (RepoRefs_artifacts refs)); [done| |done|done|].
  - intros x. exact (elem_of_record_refs _ _ _ x).
  - intros key h [Hh|(repo & refs' & Hr & Hkey & Hg & Hh)]; [by left; left|].
    destruct (decide (storage_key repo = storage_key (Job_repo (t_job t)))) as [Ek|Hne].
    + right. assert (refs' = refs) as -> by (unfold get_refs in Hg, Hget; rewrite Ek in Hg; congruence).
      apply Hrefs, elem_of_union in Hh as [Hh|Hh]; [by eapply found_safe|].
      by destruct (tk_refs _ _ _ Htk h Hw Hh) as (? & ? & _).
    + left; right. exists repo, refs'. split_and!; try done. revert Hg. unfold get_refs. cbn. by rewrite lookup_insert_ne.
Qed.

(** The objects of a build row's ready outputs are its repository's. *)
Lemma build_row_objects st r b h :
  store_ok cfg st -> r ∈ builds st -> decode_build r = Ok b -> h ∈ BuildRow_objects b -> row_objects r h.
Proof.
  intros Hok Hr Hb Hh. destruct (decode_build_ok _ _ (row_is_ok _ _ _ Hok Hr)) as (b' & Hb' & _ & _ & H1 & H2 & H3).
  rewrite Hb in Hb'. injection Hb' as <-. unfold BuildRow_objects in Hh. unfold row_objects.
  rewrite !elem_of_union in Hh. destruct Hh as [[Hh|Hh]|Hh].
  - left. destruct (Out_ready (br_head b)) as [x|]; [|done]. destruct (proj1 (H1 x) eq_refl) as (? & j & ? & ?). eauto 10.
  - right; left. destruct (Out_ready (br_files b)) as [x|]; [|done].
    destruct (proj1 (H2 x) eq_refl) as (? & j & ? & ?). eauto 10.
  - right; right. destruct (Out_ready (br_full b)) as [x|]; [|done].
    destruct (proj1 (H3 x) eq_refl) as (? & j & ? & ?). eauto 10.
Qed.
Lemma build_row_object st r b h :
  store_ok cfg st -> r ∈ builds st -> decode_build r = Ok b -> h ∈ BuildRow_objects b -> object_of st (r_repo r) h.
Proof. intros Hok Hr Hb Hh. left. exists r. split_and!; [done|done|by eapply build_row_objects]. Qed.
Lemma status_object st repo commit b h :
  store_ok cfg st -> status repo commit st = Ok (Some b) -> h ∈ BuildRow_objects b -> object_of st (storage_key repo) h.
Proof.
  intros Hok. unfold status, select_build. destruct (find_build _ _ _) as [r|] eqn:E; [|done].
  rewrite rbind_ok. intros (b' & Hb & [= ->]) Hh. apply find_build_row in E as [Hr Hk].
  apply (f_equal fst) in Hk. cbn in Hk. rewrite <- Hk. by eapply build_row_object.
Qed.
Lemma object_safe s key h : sys_ok s -> object_of (store s) key h ->
  (key, h) ∈ artifact_refs (store s) /\ h ∈ storage s /\ ~ doomed h s.
Proof. intros Hok Ho. split; [by eapply object_named, Ho; apply Hok|by eapply (sy_stored _ Hok)]. Qed.

(** A claim takes one row, which no running build owns. *)
Lemma claim_change s now p slot q lease :
  sys_ok s -> tasks s !! Slot p slot = None ->
  store_change s (claim cfg now (owner_name p slot q) p lease (store s)).1.
Proof.
  intros Hok Hfree. pose proof (claim_ok cfg now (owner_name p slot q) p lease _ Hmax (sy_store _ Hok)) as Hst.
  revert Hst. rewrite claim_unfold. cbv zeta. set (st1 := give_up_exhausted cfg now (Pool_kind p) (store s)).
  assert (Hq1 : rows_quiet (builds (store s)) (builds st1)).
  { apply rows_quiet_update. intros r. unfold give_up_row.
    destruct (kind_eqb _ _); [eapply keeps_trans; [|apply keeps_fail_full]|]; apply keeps_upd; by intros x. }
  destruct (candidate _ _ _ _) as [b|] eqn:Ec; cbn [fst]; intros Hst.
  - apply quiet_change; [done|done| | |intros x h Hx; exists x; split; [done|lia]].
    { intros key h [(r' & (r & Hr & ->)%elem_of_update_where & Hkey & Hh)|Hh].
      - apply (objects_quiet _ st1); [exact Hq1|done|]. left. exists r. split_and!; [done| |]; revert Hkey Hh; by (case_match; [destruct p|]).
      - by apply (objects_quiet _ st1 _ _ Hq1 eq_refl); right. }
    intros id t c Ht Hj (r' & (r & Hr & ->)%elem_of_update_where & Ho).
    apply (owned_quiet c _ st1 Hq1). exists r. split; [done|].
    destruct (is_key _ _ r); [|done]. pose proof (owns_key _ _ Ho) as Hk.
    apply owns_owner in Ho. unfold take_lease in *. destruct (decide (Claim_kind c = Pool_kind p)) as [Ekind|Hne].
    + exfalso. destruct (tk_owner _ _ _ (sy_tasks _ Hok _ _ Ht) c Hj) as (slot' & q' & -> & Hown).
      assert (c_pool c = p) as Epool by (unfold Claim_kind in Ekind; by destruct (c_pool c), p).
      rewrite Ekind, cols_upd_same, Hown, Epool in Ho. injection Ho as Ho%(inj (String.append _))%owner_name_slot.
      congruence.
    + rewrite cols_upd_other in Ho by congruence. unfold owns. rewrite Ho, bool_decide_true, andb_true_r by done.
      apply is_key_true. rewrite <- Hk. by destruct p.
  - apply quiet_rows; done.
Qed.

Lemma claim_slot_ok s now p slot lease :
  sys_ok s -> tasks s !! Slot p slot = None -> sys_ok (claim_slot cfg now p slot lease s).
Proof.
  intros Hok Hfree. unfold claim_slot.
  set (q := wrapping_add _ _). set (s1 := set_sequences _ s).
  assert (Hok1 : sys_ok s1).
  { destruct Hok. constructor; try done. intros id t Ht. destruct (sy_tasks0 _ _ Ht). by constructor. }
  pose proof (claim_change s1 now p slot q lease Hok1 Hfree) as Hch.
  pose proof (change_store _ _ Hok1 Hch) as Hok2.
  assert (Hfree1 : tasks s1 !! Slot p slot = None) by exact Hfree. clearbody s1.
  destruct (claim _ _ _ _ _ _) as [st res] eqn:E. cbn [fst] in *.
  destruct res as [[c|]|]; [|exact Hok2|exact Hok2].
  apply new_task_ok; [exact Hok2|exact Hfree1|done|]. pose proof (sc_ok _ _ Hch) as Hst.
  rewrite claim_unfold in E. cbv zeta in E.
  destruct (candidate _ _ _ _) as [b|] eqn:Ec; [|congruence]. injection E as Est E.
  apply rbind_ok in E as (repo & Hrepo & (build & Hb & [= <-])%rbind_ok).
  assert (Hin : take_lease (Pool_kind p) (instance cfg +:+ owner_name p slot q)
                  (i64_saturating_add now (i64_of_u64 lease)) b ∈ builds st).
  { rewrite <- Est. apply elem_of_update_where. exists b.
    apply candidate_Some in Ec as [Hb' _]. split; [by apply Hb'|].
    by rewrite (proj2 (is_key_true _ _ b)). }
  destruct (row_repo _ _ (row_is_ok _ _ _ Hst Hin)) as (repo' & Hr' & Ekey).
  assert (r_repo b = storage_key repo') as Ekey' by by destruct p.
  rewrite Ekey', storage_key_decodes in Hrepo by done. injection Hrepo as ->.
  constructor; cbn; [by intros h ?%not_elem_of_empty| | |done|by intros h _ ?%not_elem_of_empty|lia].
  - intros c h [= <-] _ Hh. apply (object_safe (set_store st s1)); [exact Hok2|].
    pose proof (build_row_object _ _ _ h Hst Hin Hb Hh) as Hn. rewrite Ekey in Hn. exact Hn.
  - intros c [= <-]. by exists slot, q.
Qed.

(** ** Steps of a task *)
Lemma task_ok_phase s id t ph : task_ok s id t -> task_ok s id (set_phase ph t).
Proof. intros []. by constructor. Qed.
Lemma phase_ok s id t ph : sys_ok s -> tasks s !! id = Some t -> sys_ok (set_task id (set_phase ph t) s).
Proof. intros Hok Ht. eapply change_task; [done|done|done|]. by eapply task_ok_phase, sy_tasks. Qed.
Lemma store_phase_ok s id t ph st :
  sys_ok s -> tasks s !! id = Some t -> store_change s st ->
  sys_ok (set_task id (set_phase ph t) (set_store st s)).
Proof. intros Hok Ht Hch. apply phase_ok; [by apply change_store|done]. Qed.

Lemma pin_ok s id t hash held p :
  sys_ok s -> tasks s !! id = Some t -> PinSet_pin hash (t_held t) (pins s) = Some (held, p) ->
  sys_ok (set_pins p (set_task id (set_held held t) s)).
Proof.
  intros Hok Ht Hp. apply PinSet_pin_spec in Hp as (Hpok & -> & _ & Hdel & Hc);
    [|apply Hok|intros h; by eapply held_not_deleting].
  constructor; cbn; try apply Hok; [done|..].
  - intros h. rewrite Hc, (sy_count _ Hok).
    pose proof (holders_update h id t (set_held ({[hash]} ∪ t_held t) t) _ Ht) as Hu.
    assert (holds h (set_held ({[hash]} ∪ t_held t) t)
      = (holds h t + if decide (h = hash /\ hash ∉ t_held t) then 1 else 0)%N) as E.
    { unfold holds. cbn. destruct (decide (h = hash)) as [->|Hne].
      - rewrite decide_True by set_solver. destruct (decide (hash ∈ t_held t)).
        + by rewrite decide_False by tauto.
        + by rewrite decide_True by tauto.
      - rewrite (decide_False (P := h = hash /\ _)) by tauto.
        destruct (decide (h ∈ t_held t)); [rewrite decide_True by set_solver|rewrite decide_False by set_solver]; done. }
    lia.
  - rewrite Hdel. apply Hok.
  - intros id' t'. destruct (decide (id' = id)) as [->|].
    + rewrite lookup_insert_eq. intros [= <-]. destruct (sy_tasks _ Hok _ _ Ht). constructor; try done.
      intros h Hh. destruct (tk_found0 h Hh). split; [cbn; set_solver|done].
    + rewrite lookup_insert_ne by done. intros H%(sy_tasks _ Hok). destruct H. by constructor.
Qed.

Lemma drop_ok s id t :
  sys_ok s -> tasks s !! id = Some t ->
  sys_ok (set_pins (PinSet_drop (t_held t) (pins s)) (set_tasks (delete id (tasks s)) s)).
Proof.
  intros Hok Ht. destruct (PinSet_drop_spec (t_held t) _ (sy_pins _ Hok)) as (Hpok & Hdel & Hc).
  constructor; cbn; try apply Hok; [done|..].
  - intros h. rewrite Hc, (sy_count _ Hok), (holders_delete h id t) by done. unfold holds. lia.
  - rewrite Hdel. apply Hok.
  - intros id' t' [_ H]%lookup_delete_Some. destruct (sy_tasks _ Hok _ _ H). by constructor.
Qed.

(** Storage that only grows. *)
Lemma grow_ok s s' :
  sys_ok s -> store s' = store s -> tasks s' = tasks s -> clock s' = clock s -> pins s' = pins s ->
  sweep s' = sweep s -> storage s ⊆ storage s' -> sys_ok s'.
Proof.
  intros Hok E1 E2 E3 E4 E5 Hst. apply (change_env s); rewrite ?E4, ?E5; try done; try apply Hok.
  - intros h Hh. left. by apply Hst.
  - intros h (sw & Hs & Hh). left. exists sw. by rewrite E5 in Hs.
Qed.

Lemma upload_ok s id t hash :
  sys_ok s -> tasks s !! id = Some t -> hash ∈ t_held t -> hash ∈ cas s \/ hash ∈ storage s ->
  sys_ok (set_task id (add_found hash t) (if bool_decide (hash ∈ storage s) then s else storage_put hash s)).
Proof.
  intros Hok Ht Hh Hin.
  assert (Hput : sys_ok (storage_put hash s) /\ hash ∈ storage (storage_put hash s) /\
    tasks (storage_put hash s) = tasks s).
  { unfold storage_put, storage in *. destruct (bucket s) as [b|] eqn:Eb; [|rewrite Eb; naive_solver].
    split; [|set_solver]. apply (grow_ok s); try done. unfold storage. rewrite Eb. cbn. set_solver. }
  assert (Hex : exists s', (if bool_decide (hash ∈ storage s) then s else storage_put hash s) = s' /\
    sys_ok s' /\ hash ∈ storage s' /\ tasks s' = tasks s)
    by (eexists; split; [done|]; case_bool_decide; naive_solver).
  destruct Hex as (s' & -> & Hok' & Hin' & Ht'). rewrite <- Ht' in Ht.
  eapply change_task; [done|done|done|]. destruct (sy_tasks _ Hok' _ _ Ht). constructor; try done.
  intros h [->%elem_of_singleton|Hf]%elem_of_union; [done|]. by apply tk_found0.
Qed.

Lemma read_build_ok s id t commit b :
  sys_ok s -> tasks s !! id = Some t -> status (Job_repo (t_job t)) commit (store s) = Ok (Some b) ->
  sys_ok (set_task id (add_base (BuildRow_objects b) t) s).
Proof.
  intros Hok Ht Hb. eapply change_task; [done|done|done|]. destruct (sy_tasks _ Hok _ _ Ht). constructor; try done.
  intros c h Hj Ho [Hh|Hh]%elem_of_union; [|by eapply tk_base0].
  cbn in Hj. rewrite Hj in Hb. cbn in Hb. apply object_safe; [exact Hok|]. by eapply status_object; [apply Hok|..].
Qed.

Lemma read_refs_ok s id t refs :
  sys_ok s -> tasks s !! id = Some t -> get_refs (Job_repo (t_job t)) (store s) = Ok (Some refs) ->
  sys_ok (set_task id (set_refs_read (RepoRefs_artifacts refs ∪ t_refs t) (t_read t) t) s).
Proof.
  intros Hok Ht Hr. eapply change_task; [done|done|done|]. destruct (sy_tasks _ Hok _ _ Ht). constructor; try done.
  cbn. intros h Hw [Hh|Hh]%elem_of_union; [|by apply tk_refs0].
  destruct (object_safe s (storage_key (Job_repo (t_job t))) h Hok) as (Hn & H1 & H2); [right; eauto 10|].
  split_and!; [done|done|]. left. eauto.
Qed.

(** ** Steps of a sweep *)
Lemma storage_delete_spec hash s :
  store (storage_delete hash s) = store s /\ tasks (storage_delete hash s) = tasks s /\
  clock (storage_delete hash s) = clock s /\ pins (storage_delete hash s) = pins s /\
  sweep (storage_delete hash s) = sweep s /\ storage (storage_delete hash s) = storage s ∖ {[hash]}.
Proof. unfold storage_delete, storage. destruct (bucket s) eqn:E; cbn; by rewrite ?E. Qed.
Lemma storage_deletes_spec hashes s :
  store (foldr storage_delete s hashes) = store s /\ tasks (foldr storage_delete s hashes) = tasks s /\
  clock (foldr storage_delete s hashes) = clock s /\ pins (foldr storage_delete s hashes) = pins s /\
  sweep (foldr storage_delete s hashes) = sweep s /\
  forall h, h ∈ storage (foldr storage_delete s hashes) <-> h ∈ storage s /\ h ∉ hashes.
Proof.
  induction hashes as [|x hashes IH]; cbn [foldr]; [split_and!; try done; set_solver|].
  destruct IH as (E1 & E2 & E3 & E4 & E5 & E6).
  destruct (storage_delete_spec x (foldr storage_delete s hashes)) as (-> & -> & -> & -> & -> & ->).
  split_and!; try done. intros h. rewrite elem_of_difference, E6. set_solver.
Qed.
Lemma end_deletes_spec hashes p :
  pinned (end_deletes hashes p) = pinned p /\ deleting (end_deletes hashes p) = deleting p ∖ hashes.
Proof.
  refine (set_fold_ind_L (fun q (X : Hashes) => pinned q = pinned p /\ deleting q = deleting p ∖ X)
    end_delete p _ _ hashes); [split; [done|set_solver]|].
  intros x X q _ [E1 E2]. cbn. rewrite E1, E2. split; [done|set_solver].
Qed.

(** A step that only moves the sweep on, takes its marks off, and takes from
    storage what was doomed. *)
Lemma sweep_ok s s' sw sw' :
  sys_ok s -> sweep s = Some sw -> sweep s' = Some sw' -> sw_now sw' = sw_now sw ->
  store s' = store s -> tasks s' = tasks s -> clock s' = clock s ->
  (forall h, h ∈ storage s -> h ∈ storage s' \/ doomed h s) ->
  pinned (pins s') = pinned (pins s) ->
  (forall h, h ∈ deleting (pins s') <-> is_Some (sw_running sw' !! h)) ->
  (forall h, is_Some (sw_running sw' !! h) -> is_Some (sw_running sw !! h)) ->
  (forall h, sw_running sw' !! h = Some Checked \/ sw_running sw' !! h = Some LocalGone ->
     doomed h s \/ deletable h (sw_now sw) (store s) = true) ->
  sys_ok s'.
Proof.
  intros Hok Es Es' Enow E1 E2 E3 Hsto Hp Hdel Hrun Hdoom.
  assert (Hd : forall h, is_Some (sw_running sw !! h) -> h ∈ deleting (pins s))
    by (intros h Hh; apply (sy_deleting _ Hok); eauto).
  apply (change_env s); try done.
  - constructor; rewrite Hp; [apply Hok|]. intros h Hh Hin%Hdel%Hrun%Hd.
    by eapply (pins_apart _ (sy_pins _ Hok)).
  - intros h. unfold pins_of. by rewrite Hp.
  - intros h. rewrite Hdel, Es'. naive_solver.
  - intros sw''. rewrite Es'. intros [= <-]. rewrite Enow. by apply Hok.
  - intros h (sw'' & Hs & Hh). rewrite Es' in Hs. injection Hs as <-.
    destruct (Hdoom h Hh) as [?|Hde]; [by left|right]. intros x Hx Hk. unfold deletable in Hde.
    destruct (deletions (store s) !! h) as [due|] eqn:Ed; [|done].
    apply andb_true_iff in Hde as [Hde%Z.ltb_lt Hn%negb_true_iff]. rewrite named_by_any_false in Hn.
    pose proof (sy_sweep _ Hok _ Es). destruct Hk as [[repo Hk]|(due' & Hk & ?)]; [by eapply Hn|].
    rewrite Ed in Hk. injection Hk as <-. lia.
Qed.

Lemma mark_ok s sw hash p :
  sys_ok s -> sweep s = Some sw -> begin_delete hash (pins s) = Some p ->
  sys_ok (set_pins p (set_sweep (Some (sweep_take hash (<[hash := Marked]> (sw_running sw)) sw)) s)).
Proof.
  intros Hok Es Hp. apply begin_delete_spec in Hp as (Hpok & _ & _ & Hpin & Hdel); [|apply Hok].
  apply (change_env s); try done; cbn.
  - auto.
  - intros h. unfold pins_of. cbn. by rewrite Hpin.
  - intros h. rewrite Hdel, elem_of_union, elem_of_singleton, (sy_deleting _ Hok). split.
    + intros [->|(sw' & Hs & Hh)]; (eexists; split; [done|]); cbn; [rewrite lookup_insert_eq; eauto|].
      rewrite Es in Hs. injection Hs as ->. rewrite lookup_insert_is_Some. destruct (decide (hash = h)); eauto.
    + intros (sw' & [= <-] & Hh). cbn in Hh. apply lookup_insert_is_Some in Hh as [->|[_ Hh]]; eauto.
  - intros sw' [= <-]. exact (sy_sweep _ Hok sw Es).
  - intros h (sw' & [= <-] & Hh). cbn in Hh. left. exists sw. split; [done|].
    destruct (decide (h = hash)) as [->|]; [rewrite lookup_insert_eq in Hh; naive_solver|].
    by rewrite lookup_insert_ne in Hh.
Qed.

Lemma running_deleting s sw h :
  sys_ok s -> sweep s = Some sw -> h ∈ deleting (pins s) <-> is_Some (sw_running sw !! h).
Proof. intros Hok Es. rewrite (sy_deleting _ Hok). naive_solver. Qed.

(** One deletion moves on without its guard dropped. *)
Lemma advance_ok s s' sw hash stage stage' :
  sys_ok s -> sweep s = Some sw -> sw_running sw !! hash = Some stage ->
  sweep s' = Some (sweep_run (<[hash := stage']> (sw_running sw)) sw) ->
  store s' = store s -> tasks s' = tasks s -> clock s' = clock s -> pins s' = pins s ->
  (forall h, h ∈ storage s -> h ∈ storage s' \/ doomed h s) ->
  doomed hash s \/ deletable hash (sw_now sw) (store s) = true -> sys_ok s'.
Proof.
  intros Hok Es Hh Es' E1 E2 E3 E4 Hsto Hd.
  eapply (sweep_ok s s'); try done; rewrite ?E4; try done; cbn.
  - intros h. rewrite (running_deleting s sw) by done. rewrite lookup_insert_is_Some.
    destruct (decide (hash = h)) as [->|]; naive_solver.
  - intros h. rewrite lookup_insert_is_Some. naive_solver.
  - intros h. destruct (decide (h = hash)) as [->|]; [by intros _|]. rewrite lookup_insert_ne by done.
    intros Hx. left. by exists sw.
Qed.

(** One deletion ends. *)
Lemma settle_ok s s' sw hash :
  sys_ok s -> sweep s = Some sw -> sweep s' = Some (sweep_settle hash sw) ->
  store s' = store s -> tasks s' = tasks s -> clock s' = clock s -> pins s' = end_delete hash (pins s) ->
  (forall h, h ∈ storage s -> h ∈ storage s' \/ doomed h s) -> sys_ok s'.
Proof.
  intros Hok Es Es' E1 E2 E3 E4 Hsto.
  eapply (sweep_ok s s'); try done; rewrite ?E4; try done; cbn.
  - intros h. rewrite elem_of_difference, (running_deleting s sw), elem_of_singleton, lookup_delete_is_Some by done.
    naive_solver.
  - intros h [_ H]%lookup_delete_is_Some. done.
  - intros h Hx. left. exists sw. split; [done|]. rewrite !lookup_delete_Some in Hx. naive_solver.
Qed.

Lemma sweep_fail_ok s sw gone :
  sys_ok s -> sweep s = Some sw -> (forall h, h ∈ gone -> sw_running sw !! h = Some LocalGone) ->
  sys_ok (set_pins (end_deletes (dom (sw_running sw)) (pins s))
    (set_sweep (Some (sweep_stop sw)) (foldr storage_delete s gone))).
Proof.
  intros Hok Es Hgone. destruct (storage_deletes_spec gone s) as (E1 & E2 & E3 & _ & _ & E6).
  destruct (end_deletes_spec (dom (sw_running sw)) (pins s)) as [Ep Ed].
  eapply (sweep_ok s); try done; cbn.
  - intros h Hh. destruct (decide (h ∈ gone)); [right|left].
    + exists sw. eauto.
    + change (h ∈ storage (foldr storage_delete s gone)). by apply E6.
  - intros h. rewrite Ed, elem_of_difference, (running_deleting s sw), elem_of_dom, lookup_empty by done.
    split; [tauto|by intros []].
  - intros h. rewrite lookup_empty. by intros [].
  - intros h. rewrite lookup_empty. naive_solver.
Qed.

(** ** Every step *)
Lemma new_system_ok remote now : (now <= i64_max)%Z -> sys_ok (new_system remote now).
Proof.
  intros Hn. constructor; cbn; try done.
  - apply store_ok_empty.
  - intros key h [(r & Hr & _)|(repo & refs & _ & _ & Hg & _)]; [by apply not_elem_of_nil in Hr|done].
  - intros h. split; [by intros ?%not_elem_of_empty|naive_solver].
Qed.

Lemma restart_ok s :
  sys_ok s ->
  sys_ok {| store := (reset_leases (store s)).1; cas := cas s; bucket := bucket s; pins := Pins_new;
            tasks := ∅; sequences := ∅; sweep := None; clock := clock s |}.
Proof.
  intros Hok. constructor; cbn; try done.
  - by apply reset_leases_ok, Hok.
  - intros key h Hn. split; [|by intros (sw & [=] & _)]. eapply (sy_stored _ Hok). eapply objects_quiet, Hn; [|done].
    apply rows_quiet_update. intros r. unfold clear_leases. eapply keeps_trans; [eapply keeps_trans|]; by apply keeps_upd.
  - intros h. split; [by intros ?%not_elem_of_empty|naive_solver].
  - apply Hok.
Qed.

Lemma tick_ok s now : sys_ok s -> (clock s <= now <= i64_max)%Z -> sys_ok (set_clock now s).
Proof.
  intros Hok Hn. constructor; cbn; try apply Hok; try lia.
  - intros sw Hs. pose proof (sy_sweep _ Hok _ Hs). lia.
  - intros id t Ht. destruct (sy_tasks _ Hok _ _ Ht). constructor; cbn; try done; [|lia].
    intros h Hw. apply tk_refs0. lia.
Qed.

Lemma sys_step_ok s s' : sys_ok s -> sys_step cfg ttl retry_base s s' -> sys_ok s'.
Proof.
  intros Hok [].
  - by apply tick_ok.
  - by apply change_store, request_change.
  - by apply change_store, purge_change.
  - by apply claim_slot_ok.
  - by apply new_task_ok.
  - pose proof (renew_change s now c lease Hok) as Hch. unfold renew_task.
    destruct (renew _ _ _ _) as [st res]. cbn [fst] in Hch. pose proof (change_store _ _ Hok Hch) as Hok'.
    destruct res as [[|]|]; [done| |done]. eapply change_task; [done|done|done|].
    by destruct (sy_tasks _ Hok' _ _ H); constructor.
  - by eapply pin_ok.
  - apply (grow_ok s); try done. unfold storage. cbn. destruct (bucket s); set_solver.
  - by apply upload_ok.
  - by eapply read_build_ok.
  - eapply change_task; [done|done|done|]. by destruct (sy_tasks _ Hok _ _ H); constructor.
  - by apply read_refs_ok.
  - pose proof (set_refs_change s id t refs Hok H H1 H2) as Hch. unfold set_refs_task.
    destruct (set_refs _ _ _) as [st res]. cbn [fst] in Hch.
    destruct (t_job t); [by apply change_store|by apply store_phase_ok].
  - by apply phase_ok.
  - pose proof (publish_change s id t c o Hok H H0 H2) as Hch. unfold publish_task.
    destruct (publish _ _ _) as [st res]. by apply store_phase_ok.
  - by apply phase_ok.
  - by apply store_phase_ok, failure_change.
  - by apply phase_ok.
  - by apply store_phase_ok, queue_change.
  - by apply store_phase_ok, release_change.
  - by apply drop_ok.
  - destruct H as [b Hb]. apply (grow_ok s); try done. unfold storage. cbn. by rewrite Hb.
  - apply (change_env s); try done; try apply Hok; cbn.
    + auto.
    + intros h. rewrite (sy_deleting _ Hok), H. split; [naive_solver|].
      intros (sw & [= <-] & Hh). cbn in Hh. rewrite lookup_empty in Hh. by destruct Hh.
    + by intros sw [= <-].
    + intros h (sw & [= <-] & Hh). cbn in Hh. rewrite lookup_empty in Hh. naive_solver.
  - eapply (sweep_ok s); try done; cbn; auto.
    + intros h. by apply running_deleting.
    + intros h Hh. left. by exists sw.
  - by apply mark_ok.
  - destruct (deletable _ _ _) eqn:Ed.
    + eapply (advance_ok s); try done; cbn; eauto.
    + eapply (settle_ok s); try done; cbn; eauto.
  - assert (doomed hash s) as Hd by (exists sw; eauto).
    eapply (advance_ok s); try done; cbn; eauto.
    intros h Hh. destruct (decide (h = hash)) as [->|]; [by right|left].
    unfold storage, cas_remove in *. cbn. destruct (bucket s); set_solver.
  - assert (doomed hash s) as Hd by (exists sw; eauto).
    destruct (storage_delete_spec hash s) as (E1 & E2 & E3 & E4 & E5 & E6).
    eapply (settle_ok s); try done.
    intros h Hh. destruct (decide (h = hash)) as [->|]; [by right|left].
    change (h ∈ storage (storage_delete hash s)). rewrite E6. set_solver.
  - by apply sweep_fail_ok.
  - assert (Hok' : sys_ok (set_store (dequeue_deletions (sw_settled sw) (sw_now sw) (store s)).1 s))
      by (apply change_store, dequeue_change; [done|done|by apply (sy_sweep _ Hok)]).
    apply (change_env _ _ Hok'); try done; try apply Hok; cbn.
    + auto.
    + intros h. rewrite (running_deleting s sw), H1, lookup_empty by done. split; [by intros []|naive_solver].
    + by intros h (sw' & [=] & _).
  - by apply restart_ok.
Qed.

Lemma sys_reachable_ok remote s : sys_reachable cfg ttl retry_base remote s -> sys_ok s.
Proof.
  intros (now & Hn & Hrtc). pose proof (new_system_ok remote now Hn) as Hok.
  induction Hrtc; [done|]. eauto using sys_step_ok.
Qed.

(** ** The property *)

(** C2: whatever the builds, refs publishes, purges, requests, sweeps, clock and
    restarts of a server do, and in whatever order, every object that a ready output
    or the published refs of a repository name is in storage, so is every artifact a
    running task has pinned and stored, and no artifact a task pins can start to be
    deleted. A Files output names its frames' chunk hashes too, which are no objects:
    their bytes are in its bundles. *)
Theorem named_artifacts_stored remote s :
  sys_reachable cfg ttl retry_base remote s ->
  (forall r h, r ∈ builds (store s) -> row_objects r h -> h ∈ storage s) /\
  (forall repo refs h, repo_ok repo -> get_refs repo (store s) = Ok (Some refs) ->
     h ∈ RepoRefs_artifacts refs -> h ∈ storage s) /\
  (forall id t h, tasks s !! id = Some t -> h ∈ t_found t -> h ∈ storage s) /\
  (forall id t h, tasks s !! id = Some t -> h ∈ t_held t -> h ∉ deleting (pins s) /\ begin_delete h (pins s) = None).
Proof.
  intros Hok%sys_reachable_ok. split_and!.
  - intros r h Hr Hh. eapply (sy_stored _ Hok). left. eauto.
  - intros repo refs h Hrepo Hg Hh. eapply (sy_stored _ Hok). right. eauto 10.
  - intros id t h Ht Hh. by eapply tk_found; [apply (sy_tasks _ Hok)|].
  - intros id t h Ht Hh. split; [by eapply held_not_deleting|]. unfold begin_delete.
    rewrite bool_decide_true; [done|]. apply (pinned_iff _ _ (sy_pins _ Hok)).
    rewrite (sy_count _ Hok), (holders_delete h id t) by done. unfold holds. rewrite decide_True by done. lia.
Qed.

End inv.

(** ** Witness: a server with a bucket admits, builds and publishes a Head. *)
Import Example.
Definition head_slot : TaskId := Slot PHead 0.
Definition task_of (s : System) : Task := default (new_task (RefsJob repo) ∅ 0) (tasks s !! head_slot).
Definition s0 : System := new_system true 100.
Definition s1 : System := set_store (admit_build 100 repo commit None (store s0)).1 s0.
Definition s2 : System := claim_slot cfg 101 PHead 0 60 s1.
Definition pinned2 : Hashes * Pins := default (∅, Pins_new) (PinSet_pin hash (t_held (task_of s2)) (pins s2)).
Definition s3 : System := set_pins pinned2.2 (set_task head_slot (set_held pinned2.1 (task_of s2)) s2).
Definition s4 : System := set_cas ({[hash]} ∪ cas s3) s3.
Definition s5 : System := set_task head_slot (add_found hash (task_of s4)) (storage_put hash s4).
Definition claim5 : Claim := match t_job (task_of s5) with BuildJob c => c | RefsJob _ => the_claim end.
Definition s6 : System := publish_task head_slot (task_of s5) claim5 (OHead head (Some commit)) s5.

Definition running (s : System) : bool := match tasks s !! head_slot with Some _ => true | None => false end.
Lemma task_of_running s : running s = true -> tasks s !! head_slot = Some (task_of s).
Proof. unfold running, task_of. by destruct (tasks s !! head_slot). Qed.
Lemma pinned2_ok : PinSet_pin hash (t_held (task_of s2)) (pins s2) = Some (pinned2.1, pinned2.2).
Proof.
  assert (match PinSet_pin hash (t_held (task_of s2)) (pins s2) with Some _ => true | None => false end = true)
    by by vm_compute.
  unfold pinned2. by destruct (PinSet_pin _ _ _) as [[]|].
Qed.
Lemma upload5 : s5 = set_task head_slot (add_found hash (task_of s4))
  (if bool_decide (hash ∈ storage s4) then s4 else storage_put hash s4).
Proof.
  assert (bool_decide (hash ∈ storage s4) = false) as -> by by vm_compute. done.
Qed.
Lemma claim5_ok : t_job (task_of s5) = BuildJob claim5.
Proof.
  assert (match t_job (task_of s5) with BuildJob _ => true | RefsJob _ => false end = true) by by vm_compute.
  unfold claim5. by destruct (t_job _).
Qed.

Lemma s6_reachable : sys_reachable cfg 1200 (from_millis 2000) true s6.
Proof.
  exists 100%Z. split; [by vm_compute|].
  apply (rtc_l _ _ s1); [apply sys_request, request_admit, repo_is_ok|].
  apply (rtc_l _ _ s2); [apply sys_claim; by vm_compute|].
  apply (rtc_l _ _ s3).
  { refine (sys_pin _ _ _ s2 head_slot (task_of s2) hash _ _ (task_of_running _ _) _ pinned2_ok); by vm_compute. }
  apply (rtc_l _ _ s4).
  { refine (sys_install _ _ _ s3 head_slot (task_of s3) hash (task_of_running _ _) _); [by vm_compute|].
    apply (bool_decide_unpack _). by vm_compute. }
  apply (rtc_l _ _ s5).
  { rewrite upload5. apply sys_upload; [by apply task_of_running; vm_compute| |left];
      apply (bool_decide_unpack _); by vm_compute. }
  apply rtc_once. apply sys_publish; [by apply task_of_running; vm_compute|apply claim5_ok|by vm_compute|].
  apply (bool_decide_unpack _). by vm_compute.
Qed.

Lemma named_artifacts_stored_witness : hash ∈ storage s6.
Proof.
  assert (Hrow : exists r, find_build (storage_key repo) commit (store s6) = Some r /\ row_objects r hash).
  { eexists. split; [vm_compute; reflexivity|]. left. exists (VHead head), head.
    split_and!; [by vm_compute..|]. apply (bool_decide_unpack _). by vm_compute. }
  destruct Hrow as (r & [Hr _]%find_build_row & Hn).
  destruct (named_artifacts_stored cfg 1200 (from_millis 2000) cfg_ok true s6 s6_reachable) as (H & _).
  exact (H r hash Hr Hn).
Defined.
