(* ===== verification/Pack.v ===== *)
(** Head packs and history levels ([rust/src/pack.rs]) and how a Full seals and
    compacts its levels ([seal_and_compact] of [rust/src/server/builder.rs]).

    What git does is a parameter: listing a commit's objects and their sizes, and
    packing a list of objects or a commit range into stored packs. *)

From S2P Require Import Prelude Bytes Outputs.

(** A pack and its idx: [(pack_hash, pack_len, idx_hash, idx_len)]. *)
Abbreviation PackTuple := (string * N * string * N)%type.
Definition pt_pack_len (p : PackTuple) : N := let '(_, pack_len, _, _) := p in pack_len.

Definition tuple_to_sized (p : PackTuple) : SizedPack :=
  let '(pack, pack_len, idx, idx_len) := p in
  {| sp_pack := pack; sp_pack_len := pack_len; sp_idx := idx; sp_idx_len := idx_len |}.
Definition sized_to_tuple (p : SizedPack) : PackTuple :=
  (sp_pack p, sp_pack_len p, sp_idx p, sp_idx_len p).

(** ** Pack idx files, version 2 *)

(** [chunks_exact(size)]: [count] chunks, and what is left over is dropped. *)
Fixpoint chunks_exact (size count : nat) (b : bytes) : list bytes :=
  match count with
  | O => []
  | S count => if size <=? length b then take size b :: chunks_exact size count (drop size b) else []
  end.

Definition HEADER : N := 8.
Definition FANOUT : N := 1024.
Definition idx_magic : bytes := [Byte.xff; Byte.x74; Byte.x4f; Byte.x63; Byte.x00; Byte.x00; Byte.x00; Byte.x02].

Definition idx_object_ids (idx : bytes) : Result (list string) :=
  ensure! (HEADER + FANOUT <=? nlen idx)%N && bool_decide (slice idx 0 HEADER = idx_magic)
    else "not a version 2 pack idx";
  let count := from_be_bytes (slice idx (HEADER + FANOUT - 4) (HEADER + FANOUT)) in
  let? names := context (get_range idx (HEADER + FANOUT) (HEADER + FANOUT + count * 20))
                  "pack idx is shorter than its object count" in
  Ok (map hex_encode (chunks_exact 20 (length names / 20) names)).

(** The offset of object [i] in its pack. *)
Definition idx_offset (idx : bytes) (count i : N) : Result N :=
  let offsets_at := (8 + 256 * 4 + count * (20 + 4))%N in
  let large_at := (offsets_at + count * 4)%N in
  let at_ := (offsets_at + i * 4)%N in
  let? word := context (get_range idx at_ (at_ + 4)) "pack idx is shorter than its offsets" in
  let word := from_be_bytes word in
  if (N.land word 2147483648 =? 0)%N then Ok word
  else
    let at_ := (large_at + N.land word 2147483647 * 8)%N in
    let? large := context (get_range idx at_ (at_ + 8)) "pack idx is shorter than its large offsets" in
    Ok (from_be_bytes large).

(** The loop over [order]: each object runs to the next one's offset, the last
    to [end_]. *)
Fixpoint object_sizes_in (offsets : list N) (end_ : N) (order : list nat) (sizes : list N) : Result (list N) :=
  match order with
  | [] => Ok sizes
  | i :: order' =>
      let next := match order' with j :: _ => default 0%N (offsets !! j) | [] => end_ end in
      let? size := context (checked_sub next (default 0%N (offsets !! i)))
                     "pack idx offset is past the end of its pack" in
      object_sizes_in offsets end_ order' (<[i := size]> sizes)
  end.

Definition offset_le (offsets : list N) (i j : nat) : bool :=
  (default 0 (offsets !! i) <=? default 0 (offsets !! j))%N.

Definition idx_object_sizes (idx : bytes) (pack_len : N) : Result (list (string * N)) :=
  let? ids := idx_object_ids idx in
  let count := length ids in
  let? offsets := collect (idx_offset idx (N.of_nat count)) (map N.of_nat (seq 0 count)) in
  let? end_ := context (checked_sub pack_len 20) "pack is shorter than its checksum" in
  let order := sort_by (offset_le offsets) (seq 0 count) in
  let? sizes := object_sizes_in offsets end_ order (repeat 0%N count) in
  Ok (zip ids sizes).

Section pack.
(** [git::list_head_objects], [git::object_sizes]. *)
Context (list_head_objects : string -> Result (list string)).
Context (object_sizes : list string -> Result (gmap string N)).
(** [pack_undeltified] and [build_history_range]: [git pack-objects], and the
    packs it wrote stored in the CAS. *)
Context (pack_undeltified : list string -> Result PackTuple).
Context (build_history_range : string -> option string -> Result (list PackTuple)).

(** ** Packs of listed objects *)

(** The greedy partition of [build_packs_from_oids]. *)
Fixpoint batch_oids (sizes : gmap string N) (target : N) (oids : list string) (cur : list string)
    (cur_bytes : N) (batches : list (list string)) : Result (list (list string)) :=
  match oids with
  | [] => Ok (match cur with [] => batches | _ => batches ++ [cur] end)
  | oid :: oids =>
      let sz := default 0%N (sizes !! oid) in
      let? full := match cur with
                   | [] => Ok false
                   | _ => let? bytes := context (checked_add u64_max cur_bytes sz) "current pack size overflow" in
                          Ok (target <? bytes)%N
                   end in
      let '(cur, cur_bytes, batches) :=
        if full : bool then ([], 0%N, batches ++ [cur]) else (cur, cur_bytes, batches) in
      let? cur_bytes := context (checked_add u64_max cur_bytes sz) "current pack size overflow" in
      batch_oids sizes target oids (cur ++ [oid]) cur_bytes batches
  end.

Definition build_packs_from_oids (oids : list string) (target_raw_bytes : N) : Result (list PackTuple) :=
  match oids with
  | [] => Ok []
  | _ =>
      let? sizes := object_sizes oids in
      let target := N.max target_raw_bytes 1 in
      let? batches := batch_oids sizes target oids [] 0 [] in
      collect pack_undeltified batches
  end.

Definition build_head_packs (commit : string) (head_target_raw_bytes : N) : Result (list PackTuple) :=
  let? head_oids := list_head_objects commit in
  bail_if! bool_decide (head_oids = []) with "no objects to pack";
  build_packs_from_oids head_oids head_target_raw_bytes.

Definition build_head_level (commit : string) (have : gset string) (head_target_raw_bytes : N)
    : Result (list PackTuple) :=
  let? head_oids := list_head_objects commit in
  bail_if! bool_decide (head_oids = []) with "no objects to pack";
  let level := List.filter (fun o => negb (bool_decide (o ∈ have))) head_oids in
  build_packs_from_oids level head_target_raw_bytes.

(** The bytes of [objects] that [live] does not hold. *)
Definition dead_bytes (live : gset string) (objects : list (string * N)) : N :=
  nsum (map snd (List.filter (fun o => negb (bool_decide (o.1 ∈ live))) objects)).

(** One base pack of [rebase_head_packs]: kept when at most a tenth is dead. *)
Definition rebase_step (live : gset string) (acc : list PackTuple * gset string) (b : PackTuple * bytes)
    : Result (list PackTuple * gset string) :=
  let '(kept, kept_ids) := acc in
  let '(pack, idx) := b in
  let? objects := idx_object_sizes idx (pt_pack_len pack) in
  if (dead_bytes live objects * 10 <=? pt_pack_len pack)%N
  then Ok (kept ++ [pack], list_to_set (map fst objects) ∪ kept_ids)
  else Ok (kept, kept_ids).

Definition rebase_head_packs (commit : string) (base : list (PackTuple * bytes)) (head_target_raw_bytes : N)
    : Result (list PackTuple * nat) :=
  let? closure := list_head_objects commit in
  bail_if! bool_decide (closure = []) with "no objects to pack";
  let live : gset string := list_to_set closure in
  let? (kept, kept_ids) := try_fold (rebase_step live) ([], ∅) base in
  let rest := List.filter (fun id => negb (bool_decide (id ∈ kept_ids))) closure in
  let? built := build_packs_from_oids rest head_target_raw_bytes in
  Ok (kept ++ built, length kept).

(** ** History levels *)

(** The bytes of a level's packs, [u64] sums that wrap. *)
Definition wrap64 (n : N) : N := (n mod 18446744073709551616)%N.
Definition level_bytes (l : HistoryLevel) : N := wrap64 (nsum (map sp_pack_len (hl_packs l))).
Definition pair_bytes (levels : list HistoryLevel) (i : nat) : N :=
  match levels !! i, levels !! S i with
  | Some a, Some b => wrap64 (level_bytes a + level_bytes b)
  | _, _ => 0
  end%N.

(** The adjacent pair with the smallest combined size. *)
Definition smallest_pair (levels : list HistoryLevel) : nat :=
  (foldl (fun '(best, best_bytes) i =>
            let b := pair_bytes levels i in
            if (b <? best_bytes)%N then (i, b) else (best, best_bytes))
     (0, u64_max) (seq 0 (length levels - 1))).1.

(** One merge: the union range of the pair packed again as one level. *)
Definition merge_pair (levels : list HistoryLevel) (best : nat) : Result (list HistoryLevel * list PackTuple) :=
  let start := match best with O => None | S i => hl_tip_commit <$> levels !! i end in
  let? last := context (levels !! S best) "index out of bounds" in
  let tip := hl_tip_commit last in
  let? packs := build_history_range tip start in
  let merged := {| hl_tip_commit := tip; hl_packs := map tuple_to_sized packs |} in
  Ok (take best levels ++ merged :: drop (best + 2) levels, packs).

(** The loop; each turn leaves one level less, so [length levels] turns are
    enough. *)
Fixpoint compact_loop (fuel max_levels : nat) (levels : list HistoryLevel) (new_packs : list PackTuple)
    : Result (list HistoryLevel * list PackTuple) :=
  match fuel with
  | O => Ok (levels, new_packs)
  | S fuel =>
      if (max max_levels 1 <? length levels) && (2 <=? length levels) then
        let? (levels, packs) := merge_pair levels (smallest_pair levels) in
        compact_loop fuel max_levels levels (new_packs ++ packs)
      else Ok (levels, new_packs)
  end.
Definition compact_levels (levels : list HistoryLevel) (max_levels : nat)
    : Result (list HistoryLevel * list PackTuple) :=
  compact_loop (length levels) max_levels levels [].

(** [seal_and_compact]: the manifest's history packs, the packs this build
    made, and the levels to keep. *)
Definition seal_and_compact (commit : string) (prev_levels : list HistoryLevel) (sealed_tip : option string)
    (tail_packs : list PackTuple) (max_levels : nat)
    : Result (list PackTuple * list PackTuple * list HistoryLevel) :=
  let advances := negb (bool_decide (sealed_tip = Some commit)) in
  let seal := advances && negb (bool_decide (tail_packs = [])) in
  let levels := if seal
    then prev_levels ++ [{| hl_tip_commit := commit; hl_packs := map tuple_to_sized tail_packs |}]
    else prev_levels in
  let? (levels, new_tuples) :=
    if max_levels <? length levels then
      let? (levels, new_packs) := compact_levels levels max_levels in
      Ok (levels, tail_packs ++ new_packs)
    else Ok (levels, tail_packs) in
  Ok (flat_map (fun l => map sized_to_tuple (hl_packs l)) levels, new_tuples, levels).

End pack.

(** ** Batches and the packs of listed objects *)
Section head.
Context (list_head_objects : string -> Result (list string)).
Context (object_sizes : list string -> Result (gmap string N)).
Context (pack_undeltified : list string -> Result PackTuple).

Definition raw_bytes (sizes : gmap string N) (oids : list string) : N :=
  nsum (map (fun oid => default 0%N (sizes !! oid)) oids).
(** A batch is within the target, or one object alone. *)
Definition batch_fits (sizes : gmap string N) (target : N) (b : list string) : Prop :=
  b <> [] /\ ((raw_bytes sizes b <= target)%N \/ length b = 1).

Lemma raw_bytes_snoc sizes l oid :
  raw_bytes sizes (l ++ [oid]) = (raw_bytes sizes l + default 0%N (sizes !! oid))%N.
Proof. unfold raw_bytes. rewrite map_app, nsum_app. cbn. lia. Qed.

Lemma batch_oids_spec sizes target oids cur cur_bytes batches out :
  cur_bytes = raw_bytes sizes cur -> (cur = [] \/ batch_fits sizes target cur) ->
  Forall (batch_fits sizes target) batches ->
  batch_oids sizes target oids cur cur_bytes batches = Ok out ->
  List.concat out = List.concat batches ++ cur ++ oids /\ Forall (batch_fits sizes target) out.
Proof.
  revert cur cur_bytes batches. induction oids as [|oid oids IH]; intros cur cur_bytes batches Hb Hc Hf; cbn.
  - intros [= <-]. rewrite app_nil_r. destruct cur as [|x cur]; [by rewrite app_nil_r|].
    destruct Hc as [?|Hc]; [done|]. split; [by rewrite List.concat_app; cbn; rewrite app_nil_r|].
    by apply Forall_app_2, Forall_singleton.
  - rewrite rbind_ok. intros (full & Hfull & H). destruct full.
    + apply rbind_ok in H as (n & Hn%context_ok & H). apply checked_add_Some in Hn as [-> _].
      assert (batch_fits sizes target cur) as Hcur by (destruct Hc as [->|?]; done).
      apply IH in H as [Hj Hout]; [| |right; split; [done|by right]|by apply Forall_app_2, Forall_singleton].
      * split; [|done]. rewrite Hj, List.concat_app. cbn. by rewrite app_nil_r, <- app_assoc.
      * unfold raw_bytes. cbn. lia.
    + apply rbind_ok in H as (n & Hn%context_ok & H). apply checked_add_Some in Hn as [Hn _].
      apply IH in H as [Hj Hout]; [| | |done].
      * split; [|done]. rewrite Hj. by rewrite <- app_assoc.
      * rewrite raw_bytes_snoc. lia.
      * right. split; [by destruct cur|]. destruct cur as [|x cur]; [by right|left].
        apply rbind_ok in Hfull as (m & Hm%context_ok & [= Hle%N.ltb_ge]).
        apply checked_add_Some in Hm as [-> _]. rewrite raw_bytes_snoc. by rewrite <- Hb.
Qed.

(** The partition only fails when the sizes add up past 64 bits. *)
Lemma batch_oids_total sizes target oids cur cur_bytes batches :
  (cur_bytes + raw_bytes sizes oids <= u64_max)%N ->
  is_ok (batch_oids sizes target oids cur cur_bytes batches) = true.
Proof.
  revert cur cur_bytes batches. induction oids as [|oid oids IH]; intros cur cur_bytes batches Hb; cbn; [done|].
  unfold raw_bytes, nsum in Hb. cbn [map foldr] in Hb. set (sz := default 0%N (sizes !! oid)) in *.
  assert (E1 : checked_add u64_max cur_bytes sz = Some (cur_bytes + sz)%N)
    by (apply checked_add_Some; lia).
  assert (E0 : checked_add u64_max 0 sz = Some sz) by (apply checked_add_Some; lia).
  destruct cur; [|rewrite E1; cbn; destruct (target <? _)%N]; cbn; rewrite ?E0, ?E1; cbn; apply IH;
    unfold raw_bytes, nsum; lia.
Qed.

(** The objects a pack holds. *)
Context (pack_objects : PackTuple -> list string).
Hypothesis pack_undeltified_objects : forall ids p, pack_undeltified ids = Ok p -> pack_objects p = ids.

Lemma build_packs_from_oids_spec oids target packs :
  build_packs_from_oids object_sizes pack_undeltified oids target = Ok packs ->
  flat_map pack_objects packs = oids.
Proof.
  unfold build_packs_from_oids. destruct oids as [|x oids]; [by intros [= <-]|].
  rewrite rbind_ok. intros (sizes & _ & (batches & Hb & Hc%collect_ok)%rbind_ok).
  apply batch_oids_spec in Hb as [Hj _]; [|done|by left|done]. cbn [List.concat app] in Hj. rewrite <- Hj.
  clear Hj. induction Hc as [|b p bs ps Hp _ IH]; [done|].
  cbn. by rewrite (pack_undeltified_objects _ _ Hp), IH.
Qed.

(** A Head level is complete and disjoint: its packs hold, each once and in
    order, exactly the objects of the commit that the packs it builds on do not
    have; so those packs and the level together hold the whole commit, and no
    object of the level is in an earlier pack. *)
Lemma build_head_level_spec commit have target packs :
  build_head_level list_head_objects object_sizes pack_undeltified commit have target = Ok packs ->
  exists closure, list_head_objects commit = Ok closure /\ closure <> [] /\
    flat_map pack_objects packs = List.filter (fun o => negb (bool_decide (o ∈ have))) closure /\
    (forall id, id ∈ closure -> id ∈ have \/ exists p, p ∈ packs /\ id ∈ pack_objects p) /\
    (forall p id, p ∈ packs -> id ∈ pack_objects p -> id ∈ closure /\ id ∉ have).
Proof.
  unfold build_head_level. rewrite rbind_ok. intros (closure & Hc & H). exists closure. split; [done|].
  case_bool_decide as Hne; [done|]. split; [done|]. apply build_packs_from_oids_spec in H.
  assert (Hin : forall id, id ∈ flat_map pack_objects packs <-> id ∈ closure /\ id ∉ have).
  { intros id. rewrite H, elem_of_lfilter, negb_true_iff, bool_decide_eq_false. done. }
  setoid_rewrite list_elem_of_In in Hin. setoid_rewrite in_flat_map in Hin.
  split_and!; [done|..].
  - intros id Hid. destruct (decide (id ∈ have)); [by left|right].
    destruct (proj2 (Hin id)) as (p & ? & ?); [by rewrite <- list_elem_of_In|].
    exists p. by rewrite !list_elem_of_In.
  - intros p id Hp Hid. rewrite list_elem_of_In. apply Hin. exists p. by rewrite <- !list_elem_of_In.
Qed.

(** ** Rebasing *)

(** A base pack worth keeping. *)
Definition keeps_pack (live : gset string) (b : PackTuple * bytes) : bool :=
  match idx_object_sizes b.2 (pt_pack_len b.1) with
  | Ok objects => (dead_bytes live objects * 10 <=? pt_pack_len b.1)%N
  | Err _ => false
  end.

Lemma idx_object_sizes_ids idx len objects ids :
  idx_object_sizes idx len = Ok objects -> idx_object_ids idx = Ok ids -> map fst objects = ids.
Proof.
  unfold idx_object_sizes. intros H Hids. rewrite Hids in H. cbn in H.
  apply rbind_ok in H as (offsets & Ho%collect_length & (e & _ & (sizes & Hs & [= <-])%rbind_ok)%rbind_ok).
  apply (fst_zip ids sizes). rewrite length_map, length_seq in Ho.
  assert (Hlen : forall order sizes0 out, object_sizes_in offsets e order sizes0 = Ok out -> length out = length sizes0).
  { clear. intros order. induction order as [|i order IH]; intros sizes0 out; cbn; [by intros [= <-]|].
    rewrite rbind_ok. intros (n & _ & ->%IH). by rewrite length_insert. }
  rewrite (Hlen _ _ _ Hs), repeat_length. done.
Qed.

Lemma rebase_fold_spec live base kept ids kept' ids' :
  Forall (fun b => idx_object_ids b.2 = Ok (pack_objects b.1)) base ->
  try_fold (rebase_step live) (kept, ids) base = Ok (kept', ids') ->
  let new := map fst (List.filter (keeps_pack live) base) in
  kept' = kept ++ new /\ ids' = list_to_set (flat_map pack_objects new) ∪ ids.
Proof.
  revert kept ids. induction base as [|[p idx] base IH]; intros kept ids Hb; cbn.
  - intros [= <- <-]. split; [by rewrite app_nil_r|set_solver].
  - apply Forall_cons in Hb as [Hp Hb]. cbn in Hp. rewrite rbind_ok. intros ([k i] & Hstep & H).
    apply rbind_ok in Hstep as (objects & Ho & Hstep).
    assert (keeps_pack live (p, idx) = (dead_bytes live objects * 10 <=? pt_pack_len p)%N) as ->
      by (unfold keeps_pack; cbn [fst snd]; by rewrite Ho).
    destruct (dead_bytes live objects * 10 <=? pt_pack_len p)%N; injection Hstep as <- <-; apply IH in H as [-> ->]; try done.
    split; [by cbn; rewrite <- app_assoc|]. rewrite (idx_object_sizes_ids _ _ _ _ Ho Hp).
    cbn [map flat_map fst]. rewrite list_to_set_app_L. set_solver.
Qed.

(** A rebase keeps exactly the base packs of which the commit still uses at
    least nine tenths, in order and first, and packs again exactly the objects of
    the commit that no kept pack holds; so the new base holds the whole commit and
    no object of the commit is packed again beside a kept copy. *)
Lemma rebase_head_packs_spec commit base target packs count :
  Forall (fun b => idx_object_ids b.2 = Ok (pack_objects b.1)) base ->
  rebase_head_packs list_head_objects object_sizes pack_undeltified commit base target = Ok (packs, count) ->
  exists closure, list_head_objects commit = Ok closure /\ closure <> [] /\
    take count packs = map fst (List.filter (keeps_pack (list_to_set closure)) base) /\
    (forall id, id ∈ closure -> exists p, p ∈ packs /\ id ∈ pack_objects p) /\
    flat_map pack_objects (drop count packs)
      = List.filter (fun id => negb (bool_decide (id ∈ flat_map pack_objects (take count packs)))) closure.
Proof.
  intros Hbase. unfold rebase_head_packs. rewrite rbind_ok. intros (closure & Hc & H). exists closure. split; [done|].
  case_bool_decide as Hne; [done|]. split; [done|].
  apply rbind_ok in H as ([kept ids] & Hf & (built & Hb%build_packs_from_oids_spec & [= <- <-])%rbind_ok).
  apply rebase_fold_spec in Hf as [-> ->]; [|done]. cbn [app] in *.
  set (kept := map fst _) in *. rewrite take_app_length, drop_app_length.
  assert (Hb' : flat_map pack_objects built
    = List.filter (fun id => negb (bool_decide (id ∈ flat_map pack_objects kept))) closure).
  { rewrite Hb. apply List.filter_ext. intros id. f_equal. apply bool_decide_ext.
    rewrite elem_of_union, elem_of_list_to_set. set_solver. }
  split_and!; [done| |done].
  intros id Hid. destruct (decide (id ∈ flat_map pack_objects kept)) as [Hk|Hk].
  - apply list_elem_of_In, in_flat_map in Hk as (p & Hp & Hi). exists p.
    rewrite elem_of_app, !list_elem_of_In. auto.
  - assert (id ∈ flat_map pack_objects built) as Hi.
    { rewrite Hb'. apply elem_of_lfilter. split; [done|]. by rewrite bool_decide_false. }
    apply list_elem_of_In, in_flat_map in Hi as (p & Hp & Hi). exists p.
    rewrite elem_of_app, !list_elem_of_In. auto.
Qed.
End head.

(** ** History levels *)
Section levels.
Context (build_history_range : string -> option string -> Result (list PackTuple)).
(** [covers prev l]: the packs of [l] hold the history of [l]'s tip that is not
    in [prev]'s, as [build_history_range] packs it. *)
Context (covers : option string -> HistoryLevel -> Prop).
Hypothesis build_covers : forall tip start packs, build_history_range tip start = Ok packs ->
  covers start {| hl_tip_commit := tip; hl_packs := map tuple_to_sized packs |}.

(** Each level covers what the one before it leaves. *)
Fixpoint covered (prev : option string) (levels : list HistoryLevel) : Prop :=
  match levels with
  | [] => True
  | l :: levels => covers prev l /\ covered (Some (hl_tip_commit l)) levels
  end.
Definition last_tip (prev : option string) (levels : list HistoryLevel) : option string :=
  match last levels with Some l => Some (hl_tip_commit l) | None => prev end.

Lemma last_tip_app prev a b : last_tip prev (a ++ b) = last_tip (last_tip prev a) b.
Proof.
  unfold last_tip. destruct b as [|x b] using rev_ind; [by rewrite app_nil_r|].
  by rewrite app_assoc, !last_snoc.
Qed.
Lemma covered_app prev a b : covered prev (a ++ b) <-> covered prev a /\ covered (last_tip prev a) b.
Proof.
  revert prev. induction a as [|x a IH]; intros prev; cbn; [unfold last_tip; cbn; tauto|].
  rewrite IH. assert (last_tip (Some (hl_tip_commit x)) a = last_tip prev (x :: a)) as ->; [|tauto].
  symmetry. exact (last_tip_app prev [x] a).
Qed.

(** The least pair is an adjacent pair, and none is smaller. *)
Lemma smallest_pair_spec levels :
  2 <= length levels ->
  smallest_pair levels < length levels - 1 /\
  forall i, i < length levels - 1 -> (pair_bytes levels (smallest_pair levels) <= pair_bytes levels i)%N.
Proof.
  intros Hlen. unfold smallest_pair. set (n := length levels - 1).
  assert (Hle : forall i, (pair_bytes levels i <= u64_max)%N).
  { intros i. assert (forall n, (wrap64 n <= u64_max)%N) as Hw
      by (intros x; unfold wrap64, u64_max; pose proof (N.mod_lt x 18446744073709551616); lia).
    unfold pair_bytes. destruct (levels !! i), (levels !! S i); try (unfold u64_max; lia). apply Hw. }
  assert (H : forall m, m <= n -> let '(b, x) := foldl (fun '(best, best_bytes) i =>
      let b := pair_bytes levels i in if (b <? best_bytes)%N then (i, b) else (best, best_bytes))
      (0, u64_max) (seq 0 m) in
    b < n /\ (forall i, i < m -> (x <= pair_bytes levels i)%N) /\ (x = u64_max \/ x = pair_bytes levels b)).
  { induction m as [|m IH]; intros Hm; [cbn; split_and!; [lia|lia|by left]|].
    rewrite seq_S, foldl_app. specialize (IH ltac:(lia)). destruct (foldl _ _ _) as [b x]. cbn.
    destruct IH as (Hb & Hi & Hx). destruct (N.ltb_spec (pair_bytes levels m) x).
    - split_and!; [lia| |by right]. intros i Hlt. destruct (decide (i = m)) as [->|]; [done|].
      specialize (Hi i ltac:(lia)). lia.
    - split_and!; [done| |done]. intros i Hlt. destruct (decide (i = m)) as [->|]; [done|]. apply Hi. lia. }
  specialize (H n ltac:(lia)). destruct (foldl _ _ _) as [b x]. destruct H as (Hb & Hi & Hx). cbn.
  split; [done|]. intros i Hlt. specialize (Hi i Hlt). destruct Hx as [->|<-]; [|done].
  specialize (Hle b). lia.
Qed.

(** One merge: a level less, the same last tip, and the union range covered. *)
Lemma merge_pair_spec levels best levels' packs :
  S best < length levels -> covered None levels ->
  merge_pair build_history_range levels best = Ok (levels', packs) ->
  covered None levels' /\ S (length levels') = length levels /\ last_tip None levels' = last_tip None levels /\
  (forall l, l ∈ levels' -> l ∈ levels \/ hl_packs l = map tuple_to_sized packs) /\
  map hl_tip_commit levels' `sublist_of` map hl_tip_commit levels.
Proof.
  intros Hlen Hcov. unfold merge_pair. rewrite rbind_ok. intros (b & Hb%context_ok & (ps & Hps & [= <- <-])%rbind_ok).
  destruct (lookup_lt_is_Some_2 levels best ltac:(lia)) as [a Ha].
  assert (Hsplit : levels = take best levels ++ a :: b :: drop (best + 2) levels).
  { rewrite <- (take_drop best levels) at 1. f_equal. rewrite (drop_S _ _ _ Ha), (drop_S _ _ _ Hb).
    do 2 f_equal. f_equal. lia. }
  set (pre := take best levels) in *. set (post := drop (best + 2) levels) in *.
  assert (Hpre : length pre = best) by (unfold pre; rewrite length_take; lia).
  assert (Hstart : match best with O => None | S i => hl_tip_commit <$> levels !! i end = last_tip None pre).
  { unfold last_tip. destruct best as [|i]; [by destruct pre|].
    rewrite last_lookup, Hpre. cbn. unfold pre. rewrite lookup_take_lt by lia.
    destruct (lookup_lt_is_Some_2 levels i ltac:(lia)) as [c ->]. done. }
  rewrite Hstart in Hps. apply build_covers in Hps. clearbody pre post. subst levels.
  rewrite covered_app in *. cbn in Hcov |- *. split_and!; try tauto.
  - rewrite !length_app. cbn. lia.
  - rewrite !last_tip_app. unfold last_tip. by destruct post using rev_ind; [|rewrite !last_cons, !last_snoc].
  - intros l. rewrite elem_of_app, !elem_of_cons. intros [Hl|[->|Hl]]; [left; set_solver|by right|left; set_solver].
  - rewrite !map_app. cbn. apply sublist_app; [done|]. by apply sublist_cons.
Qed.

Lemma compact_loop_spec fuel max_levels levels new levels' new' :
  length levels <= fuel -> covered None levels ->
  compact_loop build_history_range fuel max_levels levels new = Ok (levels', new') ->
  covered None levels' /\ length levels' <= max max_levels 1 /\ last_tip None levels' = last_tip None levels /\
  (exists built, new' = new ++ built /\
     forall l p, l ∈ levels' -> p ∈ hl_packs l -> l ∈ levels \/ p ∈ map tuple_to_sized built) /\
  map hl_tip_commit levels' `sublist_of` map hl_tip_commit levels.
Proof.
  revert levels new. induction fuel as [|fuel IH]; intros levels new Hf Hcov; cbn [compact_loop].
  - intros [= <- <-]. split_and!; [done|lia|done| |done]. exists []. rewrite app_nil_r. auto.
  - destruct (andb _ _) eqn:E.
    + apply andb_true_iff in E as [Hm%Nat.ltb_lt H2%Nat.leb_le]. rewrite rbind_ok. intros ([l1 ps] & Hmerge & H).
      destruct (smallest_pair_spec levels H2) as [Hs _].
      apply merge_pair_spec in Hmerge as (Hc1 & Hl1 & Ht1 & Hp1 & Hsub); [|lia|done].
      apply IH in H as (Hc & Hl & Ht & (built & -> & Hp) & Hsub'); [|lia|done].
      split_and!; [done|done|congruence| |by etrans].
      exists (ps ++ built). rewrite <- app_assoc. split; [done|]. intros l p Hin Hpl. rewrite map_app, elem_of_app.
      destruct (Hp l p Hin Hpl) as [Hl'|?]; [|auto]. apply Hp1 in Hl' as [?|Heq]; [auto|]. rewrite Heq in Hpl. auto.
    + intros [= <- <-]. apply andb_false_iff in E.
      split_and!; [done| |done| |done].
      * destruct E as [E%Nat.ltb_ge|E%Nat.leb_gt]; lia.
      * exists []. rewrite app_nil_r. auto.
Qed.

(** Compaction fails only when a range cannot be packed. *)
Lemma compact_loop_err fuel max_levels levels new e :
  compact_loop build_history_range fuel max_levels levels new = Err e ->
  exists tip start, build_history_range tip start = Err e.
Proof.
  revert levels new. induction fuel as [|fuel IH]; intros levels new; cbn [compact_loop]; [done|].
  destruct (andb _ _) eqn:E; [|done]. apply andb_true_iff in E as [_ H2%Nat.leb_le].
  destruct (smallest_pair_spec levels H2) as [Hs _].
  destruct (merge_pair _ _ _) as [[l ps]|e'] eqn:Em; cbn; [apply IH|]. intros [= ->].
  unfold merge_pair in Em. destruct (lookup_lt_is_Some_2 levels (S (smallest_pair levels)) ltac:(lia)) as [b Hb].
  rewrite Hb in Em. cbn in Em. destruct (build_history_range _ _) eqn:Eb; [done|]. injection Em as ->. eauto.
Qed.

Lemma sized_roundtrip p : sized_to_tuple (tuple_to_sized p) = p.
Proof. by destruct p as [[[? ?] ?] ?]. Qed.

(** C25: sealing and compacting history: the levels a Full keeps, one after the
    other, cover the whole history up to the built commit, at most [max_levels] of
    them (one when that is zero), the manifest lists exactly their packs, and each
    of those is a pack of an earlier level or one this build uploads; it fails only
    when git cannot pack a range. *)
Theorem seal_and_compact_spec commit prev_levels tail_packs max_levels :
  covered None prev_levels ->
  (tail_packs <> [] -> covers (last_tip None prev_levels)
     {| hl_tip_commit := commit; hl_packs := map tuple_to_sized tail_packs |}) ->
  match seal_and_compact build_history_range commit prev_levels (last_tip None prev_levels) tail_packs max_levels with
  | Ok (history, new, levels) =>
      covered None levels /\ length levels <= max max_levels 1 /\
      last_tip None levels = (if bool_decide (tail_packs = []) then last_tip None prev_levels else Some commit) /\
      history = flat_map (fun l => map sized_to_tuple (hl_packs l)) levels /\
      (forall p, p ∈ history ->
         (exists l, l ∈ prev_levels /\ p ∈ map sized_to_tuple (hl_packs l)) \/ p ∈ new)
  | Err e => exists tip start, build_history_range tip start = Err e
  end.
Proof.
  intros Hcov Htail. unfold seal_and_compact.
  set (sealed := last_tip None prev_levels) in *. cbv zeta.
  match goal with |- context [if ?b then prev_levels ++ [?l] else prev_levels] =>
    set (seal := b); set (tail_level := l) in * end.
  set (levels := if seal then _ else _).
  assert (Hl : covered None levels /\
    last_tip None levels = (if bool_decide (tail_packs = []) then sealed else Some commit) /\
    forall l, l ∈ levels -> l ∈ prev_levels \/ l = tail_level).
  { unfold levels, seal. destruct (decide (tail_packs = [])) as [->|Hne].
    - rewrite (bool_decide_true (@nil PackTuple = [])) by done. cbn [negb]. rewrite andb_false_r. auto.
    - rewrite !bool_decide_false with (P := tail_packs = []) by done. cbn [negb]. rewrite andb_true_r.
      destruct (decide (sealed = Some commit)) as [Hs|Hs].
      + rewrite bool_decide_true by done. cbn [negb]. auto.
      + rewrite bool_decide_false by done. cbn [negb]. split_and!.
        * apply covered_app. split; [done|]. split; [|done]. by apply Htail.
        * by rewrite last_tip_app.
        * intros l [?| ->%list_elem_of_singleton]%elem_of_app; auto. }
  clearbody levels. clear seal. destruct Hl as (Hc & Ht & Hin).
  assert (Htl : forall p, p ∈ hl_packs tail_level -> sized_to_tuple p ∈ tail_packs).
  { intros p (q & -> & Hq)%elem_of_lmap. by rewrite sized_roundtrip. }
  assert (Hmem : forall (out : list HistoryLevel) p, p ∈ flat_map (fun l => map sized_to_tuple (hl_packs l)) out ->
    exists l q, l ∈ out /\ q ∈ hl_packs l /\ p = sized_to_tuple q).
  { intros out p (l & Hl' & (q & -> & Hq)%list_elem_of_In%elem_of_lmap)%list_elem_of_In%in_flat_map.
    exists l, q. by rewrite list_elem_of_In. }
  destruct (Nat.ltb_spec max_levels (length levels)) as [Hlt|Hge].
  - destruct (compact_levels _ _ _) as [[levels' new]|e] eqn:E; cbn; [|by eapply compact_loop_err].
    apply compact_loop_spec in E as (Hc' & Hlen & Ht' & (built & -> & Hp) & _); [|done|done]. cbn [app].
    split_and!; [done|done|congruence|done|]. intros p (l & q & Hl & Hq & ->)%Hmem. rewrite elem_of_app.
    destruct (Hp l q Hl Hq) as [Hl'|(x & -> & Hx)%elem_of_lmap].
    + destruct (Hin l Hl') as [?| ->]; [left|right; left; by apply Htl]. exists l. split; [done|].
      apply elem_of_lmap. eauto.
    + right; right. by rewrite sized_roundtrip.
  - cbn. split_and!; [done|lia|done|done|]. intros p (l & q & Hl & Hq & ->)%Hmem.
    destruct (Hin l Hl) as [?| ->]; [left|right; by apply Htl]. exists l. split; [done|]. apply elem_of_lmap. eauto.
Qed.
End levels.

(** ** Sizes from a pack idx *)
Section sizes.
Context (offsets : list N) (end_ : N).
Let off (i : nat) : N := default 0%N (offsets !! i).

(** Where object [i] of [order] ends: at the next one, or at the end. *)
Definition ends_at (order : list nat) : N :=
  match order with j :: _ => default 0%N (offsets !! j) | [] => end_ end.

Lemma object_sizes_in_spec order sizes out :
  NoDup order -> (forall i, i ∈ order -> i < length sizes) ->
  object_sizes_in offsets end_ order sizes = Ok out ->
  length out = length sizes /\ (forall i, i ∉ order -> out !! i = sizes !! i) /\
  (forall pre i post, order = pre ++ i :: post -> exists sz, out !! i = Some sz /\ (off i + sz)%N = ends_at post) /\
  (nsum (map (fun i => default 0%N (out !! i)) order) + ends_at order)%N = end_.
Proof.
  revert sizes. induction order as [|i order IH]; intros sizes Hnd Hlt; cbn [object_sizes_in].
  - intros [= <-]. split_and!; [done|done| |done]. by intros [] ? ?.
  - apply NoDup_cons in Hnd as [Hi Hnd]. rewrite rbind_ok.
    intros (size & (Hle & Hsz)%context_ok%checked_sub_Some & H).
    fold (ends_at order) in *.
    apply IH in H as (Hlen & Hkeep & Hends & Hsum); [|done|intros j Hj; rewrite length_insert; apply Hlt; set_solver].
    rewrite length_insert in Hlen.
    assert (Hout : out !! i = Some size).
    { rewrite Hkeep by done. apply list_lookup_insert_eq, Hlt. set_solver. }
    assert (Hadd : (off i + size)%N = ends_at order) by (unfold off; lia).
    split_and!; [done| | |].
    + intros j Hj. rewrite Hkeep by set_solver. apply list_lookup_insert_ne. set_solver.
    + intros [|x pre] j post Heq; injection Heq as -> ->; [eauto|]. by eapply Hends.
    + change (ends_at (i :: order)) with (off i).
      change (default 0%N (out !! i) + nsum (map (fun i => default 0%N (out !! i)) order) + off i = end_)%N.
      rewrite Hout. cbn [default from_option id]. lia.
Qed.

Lemma nsum_perm l k : l ≡ₚ k -> nsum l = nsum k.
Proof. induction 1; unfold nsum in *; cbn; lia. Qed.
Lemma nsum_lookups (l : list N) : nsum l = nsum (map (fun i => default 0%N (l !! i)) (seq 0 (length l))).
Proof.
  f_equal. apply list_eq. intros i. rewrite list_lookup_fmap.
  destruct (decide (i < length l)) as [Hi|Hi].
  - rewrite lookup_seq_lt by done. cbn. by destruct (lookup_lt_is_Some_2 l i Hi) as [x ->].
  - rewrite !lookup_ge_None_2; [done|rewrite length_seq; lia|lia].
Qed.

Lemma offset_le_total i j : offset_le offsets i j = true \/ offset_le offsets j i = true.
Proof. unfold offset_le. rewrite !N.leb_le. lia. Qed.
Lemma offset_le_trans i j k : offset_le offsets i j = true -> offset_le offsets j k = true -> offset_le offsets i k = true.
Proof. unfold offset_le. rewrite !N.leb_le. lia. Qed.

(** The whole loop: each object ends at the end or where another starts, none
    starts inside another, and together they fit. *)
Lemma object_sizes_tile count sizes :
  length offsets = count ->
  object_sizes_in offsets end_ (sort_by (offset_le offsets) (seq 0 count)) (repeat 0%N count) = Ok sizes ->
  length sizes = count /\ (nsum sizes <= end_)%N /\
  forall i, i < count -> exists sz, sizes !! i = Some sz /\
    ((off i + sz)%N = end_ \/ exists j, j < count /\ j <> i /\ (off i + sz)%N = off j) /\
    forall j, j < count -> ~ (off i < off j < off i + sz)%N.
Proof.
  intros Hlen H. set (order := sort_by _ _) in *.
  assert (Hperm : order ≡ₚ seq 0 count) by apply sort_by_perm.
  assert (Hnd : NoDup order) by (rewrite Hperm; apply NoDup_seq).
  assert (Hin : forall i, i ∈ order <-> i < count).
  { intros i. rewrite Hperm, elem_of_seq. lia. }
  apply object_sizes_in_spec in H as (Hl & _ & Hends & Hsum);
    [|done|intros i Hi%Hin; by rewrite repeat_length].
  rewrite repeat_length in Hl. split_and!; [done| |].
  - rewrite nsum_lookups, Hl. rewrite <- (nsum_perm _ _ (Permutation_map _ Hperm)). lia.
  - intros i Hi. apply Hin in Hi as Ho. apply list_elem_of_split in Ho as (pre & post & Ho).
    destruct (Hends _ _ _ Ho) as (sz & Hsz & Hadd). exists sz. split; [done|].
    assert (Hs : StronglySorted (fun x y => offset_le offsets x y = true) order)
      by (apply sort_by_sorted; [apply offset_le_total|apply offset_le_trans]).
    rewrite Ho in Hs, Hnd. split.
    + destruct post as [|j post]; [by left|right]. exists j. split_and!; [| |done].
      * apply Hin. rewrite Ho. set_solver.
      * apply NoDup_app in Hnd as (_ & _ & Hnd). apply NoDup_cons in Hnd as [Hnd _]. set_solver.
    + intros j Hj [H1 H2]. apply Hin in Hj. rewrite Ho in Hj.
      assert (Hor : offset_le offsets j i = true \/ j = i \/ (ends_at post <= off j)%N).
      { apply elem_of_app in Hj as [Hj|[->|Hj]%elem_of_cons]; [left|by right; left|right; right].
        - apply (StronglySorted_app_1_elem_of (fun x y => offset_le offsets x y = true) pre (i :: post)); [done|done|set_solver].
        - apply StronglySorted_app_1_r in Hs. apply StronglySorted_cons in Hs as [_ Hs].
          destruct post as [|x post]; [set_solver|]. apply StronglySorted_cons in Hs as [Hx _].
          apply elem_of_cons in Hj as [->|Hj]; [done|]. rewrite Forall_forall in Hx.
          apply N.leb_le, (Hx j Hj). }
      unfold offset_le in Hor. rewrite N.leb_le in Hor. unfold off in *. destruct Hor as [?|[->|?]]; lia.
Qed.
End sizes.

(** The sizes read from a pack idx tile the pack: they are given for exactly
    the ids the idx lists, in its order, each object's bytes end at the pack's
    trailing checksum or where another object starts, no object starts inside
    another's bytes, and together they take no more than the pack without its
    checksum, so a count of them never overflows what the pack's length fits. *)
Lemma idx_object_sizes_spec idx pack_len objects :
  idx_object_sizes idx pack_len = Ok objects ->
  exists offsets, idx_object_ids idx = Ok (map fst objects) /\ length offsets = length objects /\
    (forall i o, offsets !! i = Some o -> idx_offset idx (nlen objects) (N.of_nat i) = Ok o) /\
    (20 <= pack_len)%N /\ (nsum (map snd objects) <= pack_len - 20)%N /\
    forall i id sz, objects !! i = Some (id, sz) -> exists o, offsets !! i = Some o /\
      ((o + sz = pack_len - 20)%N \/ exists j, j <> i /\ offsets !! j = Some (o + sz)%N) /\
      forall o', o' ∈ offsets -> ~ (o < o' < o + sz)%N.
Proof.
  intros H. pose proof H as H0. unfold idx_object_sizes in H.
  apply rbind_ok in H as (ids & Hids & (offsets & Ho%collect_ok & H)%rbind_ok).
  apply rbind_ok in H as (e & [Hpl He]%context_ok%checked_sub_Some & (sizes & Hs & [= <-])%rbind_ok).
  pose proof (idx_object_sizes_ids _ _ _ _ H0 Hids) as Hfst. rewrite Hfst.
  pose proof (Forall2_length _ _ _ Ho) as Hlen. rewrite length_map, length_seq in Hlen.
  destruct (object_sizes_tile offsets e (length ids) sizes (eq_sym Hlen) Hs) as (Hl & Hsum & Htile).
  exists offsets. unfold nlen. rewrite length_zip, Hl, Nat.min_id. split_and!; [done|done| |done| |].
  - intros i o Hi. destruct (Forall2_lookup_r _ _ _ _ _ Ho Hi) as (x & Hx & Hok).
    rewrite list_lookup_fmap, lookup_seq_lt in Hx by (rewrite Hlen; by eapply lookup_lt_Some).
    cbn in Hx. by injection Hx as <-.
  - replace (map snd (zip ids sizes)) with sizes by (symmetry; apply (snd_zip ids sizes); lia). lia.
  - intros i id sz Hi. apply lookup_zip_Some in Hi as [Hi Hsz]. cbn in *.
    apply lookup_lt_Some in Hi as Hlt. destruct (Htile i Hlt) as (sz' & Hsz' & Hend & Hno).
    rewrite Hsz in Hsz'. injection Hsz' as <-.
    destruct (lookup_lt_is_Some_2 offsets i ltac:(lia)) as [o Hoi]. exists o. rewrite Hoi in *. cbn in *.
    split_and!; [done| |].
    + destruct Hend as [Hend|(j & Hj & Hne & Hend)]; [left; lia|right]. exists j. split; [done|].
      destruct (lookup_lt_is_Some_2 offsets j ltac:(lia)) as [o' Hoj]. rewrite Hoj in *. cbn in Hend. by rewrite Hend.
    + intros o' (j & Hj)%list_elem_of_lookup. apply lookup_lt_Some in Hj as Hjl.
      specialize (Hno j ltac:(lia)). by rewrite Hj in Hno.
Qed.

(** ** Witnesses *)
Module PackExample.
(** An idx of two objects, at offsets 12 and 95 of a pack of 120 bytes. *)
Definition idx : bytes :=
  idx_magic ++ repeat Byte.x00 1023 ++ [Byte.x02] ++ repeat Byte.x01 20 ++ repeat Byte.x02 20
  ++ repeat Byte.x00 8 ++ [Byte.x00; Byte.x00; Byte.x00; Byte.x0c] ++ [Byte.x00; Byte.x00; Byte.x00; Byte.x5f].
Definition first_id : string := "0101010101010101010101010101010101010101".
Definition second_id : string := "0202020202020202020202020202020202020202".
Definition new_id : string := "0303030303030303030303030303030303030303".
Definition base_pack : PackTuple := ("base", 120, "base.idx", nlen idx)%N.
Definition new_pack : PackTuple := ("new", 60, "new.idx", 1100)%N.

(** A commit that uses the first object and a new one. *)
Definition list_head_objects (commit : string) : Result (list string) := Ok [first_id; new_id].
Definition object_sizes (oids : list string) : Result (gmap string N) := Ok (list_to_map (map (fun o => (o, 30%N)) oids)).
Definition pack_undeltified (ids : list string) : Result PackTuple :=
  if bool_decide (ids = [new_id]) then Ok new_pack else Err "no such object".
Definition pack_objects (p : PackTuple) : list string :=
  if bool_decide (p = new_pack) then [new_id] else [first_id; second_id].
Lemma pack_undeltified_objects ids p : pack_undeltified ids = Ok p -> pack_objects p = ids.
Proof. unfold pack_undeltified. case_bool_decide as E; [|done]. intros [= <-]. by rewrite E. Qed.

Definition build_history_range (tip : string) (start : option string) : Result (list PackTuple) :=
  Ok [(tip +:+ ".pack", 10, tip +:+ ".idx", 5)%N].
Definition level (tip : string) : HistoryLevel :=
  {| hl_tip_commit := tip; hl_packs := [tuple_to_sized (tip +:+ ".pack", 10, tip +:+ ".idx", 5)%N] |}.
End PackExample.

Lemma idx_object_sizes_spec_witness :
  idx_object_sizes PackExample.idx 120 = Ok [(PackExample.first_id, 83%N); (PackExample.second_id, 5%N)] /\
  exists offsets : list N, length offsets = 2.
Proof.
  assert (H : idx_object_sizes PackExample.idx 120
    = Ok [(PackExample.first_id, 83%N); (PackExample.second_id, 5%N)]) by (vm_compute; reflexivity).
  split; [exact H|]. destruct (idx_object_sizes_spec _ _ _ H) as (offsets & _ & Hl & _). exact (ex_intro _ offsets Hl).
Defined.

Lemma build_head_level_spec_witness :
  exists p, p ∈ [PackExample.new_pack] /\ PackExample.new_id ∈ PackExample.pack_objects p.
Proof.
  assert (H : build_head_level PackExample.list_head_objects PackExample.object_sizes PackExample.pack_undeltified
    "c" {[PackExample.first_id]} 100 = Ok [PackExample.new_pack]) by (vm_compute; reflexivity).
  destruct (build_head_level_spec _ _ _ _ PackExample.pack_undeltified_objects _ _ _ _ H) as (closure & Hc & _ & _ & Hin & _).
  injection Hc as <-. destruct (Hin PackExample.new_id) as [Hh|Hp]; [apply elem_of_cons; right; apply list_elem_of_here| |exact Hp].
  apply elem_of_singleton in Hh. discriminate Hh.
Defined.

Lemma rebase_head_packs_spec_witness :
  (exists p, p ∈ [PackExample.base_pack; PackExample.new_pack] /\ PackExample.first_id ∈ PackExample.pack_objects p) /\
  (exists p, p ∈ [PackExample.base_pack; PackExample.new_pack] /\ PackExample.new_id ∈ PackExample.pack_objects p).
Proof.
  assert (Hb : Forall (fun b => idx_object_ids b.2 = Ok (PackExample.pack_objects b.1))
    [(PackExample.base_pack, PackExample.idx)]) by (constructor; [vm_compute; reflexivity|constructor]).
  assert (H : rebase_head_packs PackExample.list_head_objects PackExample.object_sizes PackExample.pack_undeltified
    "c" [(PackExample.base_pack, PackExample.idx)] 100 = Ok ([PackExample.base_pack; PackExample.new_pack], 1))
    by (vm_compute; reflexivity).
  destruct (rebase_head_packs_spec _ _ _ _ PackExample.pack_undeltified_objects _ _ _ _ _ Hb H)
    as (closure & Hc & _ & _ & Hin & _).
  injection Hc as <-. split; apply Hin; [left | right; left].
Defined.

Lemma seal_and_compact_spec_witness :
  exists history new, seal_and_compact PackExample.build_history_range "c" [PackExample.level "a"; PackExample.level "b"]
    (Some "b") [("c.pack", 10, "c.idx", 5)%N] 2 = Ok (history, new, [PackExample.level "b"; PackExample.level "c"]) /\
  last_tip None [PackExample.level "b"; PackExample.level "c"] = Some "c".
Proof.
  set (covers := fun (prev : option string) (l : HistoryLevel) => l = PackExample.level (hl_tip_commit l)).
  pose proof (seal_and_compact_spec PackExample.build_history_range covers
    ltac:(by intros tip start packs [= <-]) "c" [PackExample.level "a"; PackExample.level "b"]
    [("c.pack", 10, "c.idx", 5)%N] 2 ltac:(done) ltac:(done)) as H.
  destruct (seal_and_compact _ _ _ _ _ _) as [[[history new] levels]|e] eqn:E; [|vm_compute in E; discriminate E].
  destruct H as (_ & _ & H & _). exists history, new.
  assert (levels = [PackExample.level "b"; PackExample.level "c"]) as <-
    by (vm_compute in E; injection E as _ _ <-; reflexivity).
  split; [reflexivity|exact H].
Defined.
