(* ===== verification/Tags.v ===== *)
(** A repository's tags artifact ([rust/src/tags.rs]): the server's listing and
    build of it, and a clone's check.

    SHA-1, the CAS hash, the protobuf and zstd encodings and git's object store
    (as [gix] reads it) are parameters. *)

From S2P Require Import Prelude Bytes Validation.

(** The messages of [rust/proto/clonepack.proto]. *)
Record Tag := { t_name : string; t_object : string; t_peeled : string }.
Record TagsArtifact := { ta_tags : list Tag; ta_objects : list bytes }.

Definition MAX_CHAIN : nat := 32.

(** Git's kinds of object. *)
Inductive Kind := KTree | KBlob | KCommit | KTag.
#[export] Instance kind_eq_dec : EqDecision Kind.
Proof. solve_decision. Defined.

(** One tag a clone keeps, and all of them. [kt_chain] indexes [k_objects]. *)
Record KeptTag := {
  kt_name : string;
  kt_object : string;
  kt_target : string;
  kt_target_id : bytes;
  kt_chain : list N;
}.
Record Kept := { k_tags : list KeptTag; k_objects : list (bytes * bytes) }.

(** [Kept::retain]. *)
Definition Kept_retain (keep : KeptTag -> bool) (k : Kept) : Kept :=
  {| k_tags := List.filter keep (k_tags k); k_objects := k_objects k |}.

(** [Kept::objects]: the objects the kept tags need, in the order of their
    indexes. *)
Definition Kept_objects (k : Kept) : option (list (bytes * bytes)) :=
  let needed := dedup_by N.eqb (sort_by N.leb (concat (map kt_chain (k_tags k)))) in
  mapM (nget (k_objects k)) needed.

(** The order of pairs of strings. *)
Definition pair_le (a b : string * string) : bool :=
  String.ltb a.1 b.1 || (bool_decide (a.1 = b.1) && String.leb a.2 b.2).
Definition newline : Byte.byte := Byte.x0a.
(** [data.split(|&b| b == b'\n').next()]: the bytes before the first newline. *)
Fixpoint first_line (data : bytes) : bytes :=
  match data with
  | [] => []
  | b :: data => if bool_decide (b = newline) then [] else b :: first_line data
  end.
(** [<[u8]>::strip_prefix]. *)
Fixpoint bytes_strip_prefix (pre s : bytes) : option bytes :=
  match pre, s with
  | [], _ => Some s
  | a :: pre, b :: s => if bool_decide (a = b) then bytes_strip_prefix pre s else None
  | _ :: _, [] => None
  end.

(** The object a tag object names: its [object <id>] header line. *)
Definition tag_target (data : bytes) : Result bytes :=
  let line := first_line data in
  let? id := context (bytes_strip_prefix (String.list_byte_of_string "object ") line)
               "tag object does not start with an object line" in
  ensure! utf8_valid id else "tag object id is not text";
  parse_id (String.string_of_list_byte id).

Section tags.
(** [Sha1::digest] and [cas::hash]. *)
Context (sha1 : bytes -> bytes) (cas_hash : string -> string).

(** The object id git gives a tag object with this content. *)
Definition tag_object_id (data : bytes) : bytes :=
  sha1 (String.list_byte_of_string ("tag " +:+ pretty (nlen data)) ++ [Byte.x00] ++ data).

(** ** The server's side

    The references under [refs/tags/] are pairs of a name and the id it names,
    [None] for a symbolic one. *)
Definition list_tag (reference : string * option string) : option (string * string) :=
  match reference with
  | (_, None) => None
  | (name, Some id) => if is_ok (validate_tag_name name) then Some (name, id) else None
  end.
Definition listing_text (tags : list (string * string)) : string :=
  foldr (fun t text => (t.2 +:+ " " +:+ t.1 +:+ String "010" "") +:+ text) "" tags.
Definition listing (references : list (string * option string)) : list (string * string) * string :=
  let tags := sort_by pair_le (omap list_tag references) in
  (tags, cas_hash (listing_text tags)).

(** The mirror's objects, as [gix] reads them: [ObjectId::from_hex], an object's
    kind, its content, and the target a tag object's content decodes to. *)
Context (from_hex : string -> Result bytes)
  (find_header : bytes -> Result Kind) (find_object : bytes -> Result bytes) (decode_target : bytes -> Result bytes).

(** The inner loop: at most [n] turns. The chain is the tag objects passed, by
    their hex ids; the target is [None] when the turns run out. *)
Fixpoint peel (n : nat) (current : bytes) (chain : list (string * bytes))
    : Result (list (string * bytes) * option bytes) :=
  match n with
  | O => Ok (chain, None)
  | S n =>
      let? kind := find_header current in
      if bool_decide (kind = KTag) then
        let? data := find_object current in
        let? next := decode_target data in
        peel n next (chain ++ [(hex_encode current, data)])
      else Ok (chain, Some current)
  end.

(** [BTreeMap::extend] and [BTreeMap::into_values], in the order of the keys. *)
Definition extend {V} (m : gmap string V) (l : list (string * V)) : gmap string V :=
  foldl (fun m kv => <[kv.1 := kv.2]> m) m l.
Definition key_leb {V} (a b : string * V) : bool := String.leb a.1 b.1.
Definition into_values {V} (m : gmap string V) : list V := map snd (sort_by key_leb (map_to_list m)).

Definition build_tag (acc : gmap string bytes * list Tag) (tag : string * string)
    : Result (gmap string bytes * list Tag) :=
  let '(objects, out) := acc in
  let '(name, id) := tag in
  let? current := from_hex id in
  let? (chain, target) := peel (S MAX_CHAIN) current [] in
  match target with
  | None => Ok (objects, out)
  | Some target =>
      let target := hex_encode target in
      Ok (extend objects chain,
          out ++ [{| t_name := name; t_object := id; t_peeled := if bool_decide (target = id) then "" else target |}])
  end.
Definition build_artifact (tags : list (string * string)) : Result TagsArtifact :=
  let? (objects, out) := try_fold build_tag (∅, []) tags in
  Ok {| ta_tags := out; ta_objects := into_values objects |}.

(** [prost]'s encoding of the message, and [zstd]'s. *)
Context (encode_to_vec : TagsArtifact -> bytes) (message_decode : bytes -> Result TagsArtifact)
  (encode_all decode_all : bytes -> Result bytes).
Definition build (tags : list (string * string)) : Result bytes :=
  let? artifact := build_artifact tags in
  encode_all (encode_to_vec artifact).
Definition decode (b : bytes) : Result TagsArtifact :=
  let? raw := decode_all b in
  message_decode raw.

(** ** The clone's side *)
Definition index_of (objects : list (bytes * bytes)) : gmap bytes N :=
  foldl (fun m o => <[o.2.1 := (o.1 mod 2 ^ 32)%N]> m) ∅ (enumerate objects).

(** The [while let] loop. It stops by itself: each turn adds to the chain, and
    the chain's length is checked. *)
Fixpoint follow (fuel : nat) (objects : list (bytes * bytes)) (index : gmap bytes N) (current : bytes)
    (chain : list N) : Result (list N * bytes) :=
  match fuel with
  | O => Err "out of turns"
  | S fuel =>
      match index !! current with
      | None => Ok (chain, current)
      | Some i =>
          ensure! (nlen chain <? N.of_nat MAX_CHAIN)%N else "chain is too long";
          let? object := context (nget objects i) "index out of bounds" in
          let? next := tag_target object.2 in
          follow fuel objects index next (chain ++ [i])
      end
  end.

Definition check_tag (objects : list (bytes * bytes)) (index : gmap bytes N) (tag : Tag) : Result KeptTag :=
  let? _ := validate_tag_name (t_name tag) in
  let? object := parse_id (t_object tag) in
  if bool_decide (t_peeled tag = "") then
    ensure! bool_decide (index !! object = None) else "names a tag object but has no target";
    Ok {| kt_name := t_name tag; kt_object := t_object tag; kt_target := t_object tag;
          kt_target_id := object; kt_chain := [] |}
  else
    let? peeled := parse_id (t_peeled tag) in
    let? (chain, current) := follow (MAX_CHAIN + 2) objects index object [] in
    ensure! negb (bool_decide (chain = [])) && bool_decide (current = peeled) else "does not peel";
    Ok {| kt_name := t_name tag; kt_object := t_object tag; kt_target := t_peeled tag;
          kt_target_id := peeled; kt_chain := chain |}.

Definition artifact_objects (artifact : TagsArtifact) : list (bytes * bytes) :=
  dedup_by (fun a b => bool_decide (a.1 = b.1))
    (sort_by (fun a b => bytes_leb a.1 b.1) (map (fun data => (tag_object_id data, data)) (ta_objects artifact))).

Definition check (artifact : TagsArtifact) : Result Kept :=
  let objects := artifact_objects artifact in
  let index := index_of objects in
  let? tags := collect (check_tag objects index) (ta_tags artifact) in
  let tags := sort_by (fun a b => String.leb (kt_name a) (kt_name b)) tags in
  ensure! all_pairs (fun a b => negb (bool_decide (kt_name a = kt_name b))) tags else "a tag is listed twice";
  Ok {| k_tags := tags; k_objects := objects |}.
End tags.

(** *** The objects kept tags need *)
Section kept.
Context {A : Type} (le : A -> A -> bool) (objects : list A).
Context (Hsorted : StronglySorted (fun x y => le x y = true) objects).

Lemma StronglySorted_lookup {B} (R : B -> B -> Prop) l i j x y :
  StronglySorted R l -> i < j -> l !! i = Some x -> l !! j = Some y -> R x y.
Proof.
  intros H; revert i j; induction H as [|z l Hl IH Hz]; intros [|i] [|j] Hij; cbn; try done; try lia.
  - intros [= ->] Hy. rewrite Forall_forall in Hz. apply Hz. by eapply list_elem_of_lookup_2.
  - intros. eapply (IH i j); [lia|done..].
Qed.

Lemma mapM_nget_sorted needed objs :
  StronglySorted (fun i j => (i <? j)%N = true) needed -> mapM (nget objects) needed = Some objs ->
  StronglySorted (fun x y => le x y = true) objs /\ (NoDup objects -> NoDup objs).
Proof.
  rewrite mapM_Some. intros Hn H. induction H as [|i x needed objs Hi Hrest IH]; [split; constructor|].
  apply StronglySorted_inv in Hn as [Hn Hlt]. destruct (IH Hn) as [IHs IHn].
  assert (Hlater : forall y, y ∈ objs -> exists j, (i < j)%N /\ nget objects j = Some y).
  { intros y Hy. destruct (Forall2_in_r _ _ _ y Hrest Hy) as (j & Hj & Hjy). exists j. split; [|done].
    rewrite Forall_forall in Hlt. apply N.ltb_lt. by apply Hlt. }
  split.
  - constructor; [done|]. apply Forall_forall. intros y (j & Hij & Hj)%Hlater.
    refine (StronglySorted_lookup _ _ (N.to_nat i) (N.to_nat j) x y Hsorted _ Hi Hj). lia.
  - intros Hnd. constructor; [|auto]. intros (j & Hij & Hj)%Hlater. unfold nget in *.
    assert (N.to_nat i = N.to_nat j) by (eapply NoDup_lookup; eauto). lia.
Qed.

(** Sorted indexes, each once. *)
Lemma needed_spec (l : list N) :
  let needed := dedup_by N.eqb (sort_by N.leb l) in
  StronglySorted (fun i j => (i <? j)%N = true) needed /\ forall i, i ∈ needed <-> i ∈ l.
Proof.
  assert (E : dedup_by N.eqb (sort_by N.leb l) = dedup_by (fun i j => bool_decide (i = j)) (sort_by N.leb l)).
  { apply dedup_by_ext. intros x y. destruct (N.eqb_spec x y); by case_bool_decide. }
  cbv zeta. rewrite E.
  assert (Ht : forall x y, N.leb x y = true \/ N.leb y x = true) by (intros; rewrite !N.leb_le; lia).
  assert (Htr : forall x y z, N.leb x y = true -> N.leb y z = true -> N.leb x z = true)
    by (intros ???; rewrite !N.leb_le; lia).
  assert (Ha : forall x y, N.leb x y = true -> N.leb y x = true -> x = y) by (intros ??; rewrite !N.leb_le; lia).
  destruct (dedup_by_spec N.leb (fun i => i) Ht Htr Ha _ (sort_by_key_sorted N.leb (fun i => i) Ht Htr l))
    as (Hs & Hnd & Hin & Hall).
  rewrite map_id in Hnd. split.
  - clear Hin Hall E. set (d := dedup_by _ _) in *. clearbody d.
    induction Hs as [|x d Hk IH Hx]; [constructor|]. apply NoDup_cons in Hnd as [Hn Hnd]. constructor; [by apply IH|].
    rewrite Forall_forall in *. intros y Hy. specialize (Hx y Hy). apply N.leb_le in Hx. apply N.ltb_lt.
    assert (x <> y) by (intros ->; done). lia.
  - intros i. split; [by intros Hi%Hin%elem_of_sort_by|].
    intros Hi. destruct (Hall i) as (j & Hj & ->); [by apply elem_of_sort_by|done].
Qed.
End kept.

Lemma Kept_objects_spec k (valid : forall t i, t ∈ k_tags k -> i ∈ kt_chain t -> is_Some (nget (k_objects k) i)) :
  StronglySorted (fun x y => bytes_leb x.1 y.1 = true) (k_objects k) -> NoDup (k_objects k) ->
  exists objs, Kept_objects k = Some objs /\
    StronglySorted (fun x y => bytes_leb x.1 y.1 = true) objs /\ NoDup objs /\
    forall x, x ∈ objs <-> exists t i, t ∈ k_tags k /\ i ∈ kt_chain t /\ nget (k_objects k) i = Some x.
Proof.
  intros Hs Hnd. unfold Kept_objects.
  destruct (needed_spec (concat (map kt_chain (k_tags k)))) as [Hn Hin]. set (needed := dedup_by _ _) in *.
  assert (Hin' : forall i, i ∈ needed <-> exists t, t ∈ k_tags k /\ i ∈ kt_chain t).
  { intros i. rewrite Hin, list_elem_of_In, in_concat. setoid_rewrite <- list_elem_of_In. split.
    - intros (c & (t & -> & Ht)%elem_of_lmap & Hi). eauto.
    - intros (t & Ht & Hi). exists (kt_chain t). rewrite elem_of_lmap. eauto. }
  destruct (mapM (nget (k_objects k)) needed) as [objs|] eqn:E.
  - exists objs. destruct (mapM_nget_sorted _ _ Hs _ _ Hn E) as [Hso Hno]. split_and!; [done..|auto|].
    intros x. apply mapM_Some in E. split.
    + intros Hx. destruct (Forall2_in_r _ _ _ x E Hx) as (i & (t & Ht & Hi)%Hin' & Hix). eauto.
    + intros (t & i & Ht & Hi & Hx). destruct (Forall2_in_l _ _ _ i E) as (y & Hy & Hiy); [apply Hin'; eauto|]. congruence.
  - exfalso. apply mapM_None_1 in E. apply Exists_exists in E as (i & (t & Ht & Hi)%Hin' & Hix).
    destruct (valid t i Ht Hi). congruence.
Qed.

(** ** What the check promises

    [peels objects id chain target]: [chain] is the tag objects of [objects]
    met on the way from [id] to [target], which is none of them. *)
Section thms.
Context (sha1 : bytes -> bytes).
Local Abbreviation tag_object_id := (tag_object_id sha1).
Local Abbreviation artifact_objects := (artifact_objects sha1).
Local Abbreviation check := (check sha1).

Inductive peels (objects : list bytes) : bytes -> list bytes -> bytes -> Prop :=
  | peels_end id : (forall d, d ∈ objects -> tag_object_id d <> id) -> peels objects id [] id
  | peels_tag d next chain target :
      d ∈ objects -> tag_target d = Ok next -> peels objects next chain target ->
      peels objects (tag_object_id d) (d :: chain) target.

(** *** The objects and their index *)
Definition with_id (d : bytes) : bytes * bytes := (tag_object_id d, d).

Lemma artifact_objects_spec a :
  StronglySorted (fun x y => bytes_leb x.1 y.1 = true) (artifact_objects a) /\ NoDup (map fst (artifact_objects a)) /\
  (forall id d, (id, d) ∈ artifact_objects a -> id = tag_object_id d /\ d ∈ ta_objects a) /\
  (forall d, d ∈ ta_objects a -> exists d', (tag_object_id d, d') ∈ artifact_objects a) /\
  (nlen (artifact_objects a) <= nlen (ta_objects a))%N.
Proof.
  unfold Tags.artifact_objects.
  set (l := sort_by _ (map _ _)).
  assert (Hl : StronglySorted (fun x y => bytes_leb x.1 y.1 = true) l)
    by (apply (sort_by_key_sorted bytes_leb fst bytes_leb_total bytes_leb_trans)).
  destruct (dedup_by_spec bytes_leb fst bytes_leb_total bytes_leb_trans bytes_leb_antisym l Hl) as (Hs & Hnd & Hin & Hall).
  split_and!; [exact Hs|exact Hnd| | |].
  - intros id d H%Hin. apply elem_of_sort_by, elem_of_lmap in H as (x & [= -> ->] & Hx). done.
  - intros d Hd. destruct (Hall (with_id d)) as ([id d'] & Hx & Hk).
    { apply elem_of_sort_by, elem_of_lmap. eauto. }
    cbn in Hk. subst id. eauto.
  - unfold nlen. enough (length (dedup_by (fun x y => bool_decide (x.1 = y.1)) l) <= length l) as H.
    { unfold l in H at 2. rewrite sort_by_length, length_map in H. lia. }
    clear. induction l as [|x l IH]; cbn; [lia|]. destruct (dedup_by _ l); [cbn; lia|]. case_bool_decide; cbn in *; lia.
Qed.

Lemma index_of_lookup objects id i :
  NoDup (map fst objects) -> (nlen objects <= 2 ^ 32)%N ->
  index_of objects !! id = Some i <-> exists d, nget objects i = Some (id, d).
Proof.
  unfold index_of, enumerate. induction objects as [|[id' d'] objects IH] using rev_ind.
  { intros _ _. cbn. rewrite lookup_empty. unfold nget. split; [done|]. by intros [d H]. }
  rewrite map_app, NoDup_app, nlen_app, nlen_cons, nlen_nil. intros (Hnd & Hdis & _) Hlen.
  rewrite enumerate_from_app, foldl_app. cbn [enumerate_from foldl fst snd]. rewrite N.add_0_l.
  rewrite (N.mod_small _ (2 ^ 32)) by lia.
  setoid_rewrite nget_snoc. rewrite lookup_insert_Some, IH by (done || lia). split.
  - intros [[<- <-]|[Hne [d H]]]; [eauto|]. exists d. by left.
  - intros (d & [H|[-> [= <- <-]]]); [|by left]. right. split; [|eauto]. intros ->.
    apply (Hdis id); [|set_solver]. apply elem_of_lmap. exists (id, d). split; [done|].
    eapply list_elem_of_lookup_2. exact H.
Qed.

(** *** The walk down a chain *)
Section walk.
Context (a : TagsArtifact) (Hlen : (nlen (ta_objects a) <= 2 ^ 32)%N).
Let objects := artifact_objects a.
Let index := index_of objects.

Lemma index_Some id i :
  index !! id = Some i ->
  exists d, nget objects i = Some (with_id d) /\ id = tag_object_id d /\ d ∈ ta_objects a.
Proof.
  destruct (artifact_objects_spec a) as (_ & Hnd & Hin & _ & Hle).
  unfold index. rewrite index_of_lookup by (done || (fold objects in Hle; lia)). intros (d & H).
  exists d. pose proof H as (-> & Hd)%list_elem_of_lookup_2%Hin. done.
Qed.
Lemma index_of_object d : d ∈ ta_objects a ->
  exists i d', index !! tag_object_id d = Some i /\ nget objects i = Some (with_id d') /\
    tag_object_id d' = tag_object_id d /\ d' ∈ ta_objects a.
Proof.
  destruct (artifact_objects_spec a) as (_ & Hnd & Hin & Hall & Hle). intros Hd.
  destruct (Hall d Hd) as (d' & Hd'). pose proof (Hin _ _ Hd') as [Heq Hd'a].
  apply list_elem_of_lookup in Hd' as (i & Hi). exists (N.of_nat i), d'. unfold with_id. rewrite <- Heq.
  assert (Hn : nget objects (N.of_nat i) = Some (tag_object_id d, d')) by (unfold nget; by rewrite Nat2N.id).
  split_and!; [|done..]. unfold index.
  apply index_of_lookup; [done|fold objects in Hle; lia|eauto].
Qed.
Lemma index_None id : index !! id = None <-> forall d, d ∈ ta_objects a -> tag_object_id d <> id.
Proof.
  split.
  - intros H d Hd <-. destruct (index_of_object d Hd) as (i & _ & Hi & _). congruence.
  - intros H. destruct (index !! id) as [i|] eqn:E; [|done].
    apply index_Some in E as (d & _ & -> & Hd). by destruct (H d Hd).
Qed.

(** More turns than [MAX_CHAIN + 1] change nothing: the loop has stopped. *)
Lemma follow_terminates fuel more id chain :
  length chain <= MAX_CHAIN -> MAX_CHAIN + 1 <= fuel + length chain ->
  follow (fuel + more) objects index id chain = follow fuel objects index id chain.
Proof.
  revert id chain; induction fuel as [|fuel IH]; intros id chain Hc Hf; [lia|].
  cbn [follow Nat.add]. destruct (index !! id) as [i|]; [|done].
  destruct (N.ltb_spec (nlen chain) (N.of_nat MAX_CHAIN)) as [Hlt|]; [|done].
  destruct (nget objects i) as [o|]; [|done]. cbn [context rbind].
  destruct (tag_target o.2) as [next|]; [|done]. cbn [rbind].
  unfold nlen, MAX_CHAIN in *. apply IH; rewrite length_app; cbn [length]; lia.
Qed.

(** The indexes of a chain's tag objects. *)
Definition indexes (chain : list N) (ds : list bytes) : Prop :=
  Forall2 (fun i d => nget objects i = Some (with_id d)) chain ds.

Lemma follow_sound fuel id chain chain' target :
  length chain <= MAX_CHAIN -> follow fuel objects index id chain = Ok (chain', target) ->
  exists suffix ds, chain' = chain ++ suffix /\ length chain' <= MAX_CHAIN /\ indexes suffix ds /\
    peels (ta_objects a) id ds target.
Proof.
  revert id chain; induction fuel as [|fuel IH]; intros id chain Hc; cbn [follow]; [done|].
  destruct (index !! id) as [i|] eqn:E.
  - apply index_Some in E as (d & Hi & -> & Hd). rewrite Hi. cbn [context rbind with_id snd].
    destruct (N.ltb_spec (nlen chain) (N.of_nat MAX_CHAIN)) as [Hlt|]; [|done].
    destruct (tag_target d) as [next|] eqn:Ht; [|done]. cbn [rbind]. intros H.
    apply IH in H as (suffix & ds & -> & Hlen' & Hix & Hp); [|unfold nlen, MAX_CHAIN in *; rewrite length_app; cbn [length]; lia].
    exists (i :: suffix), (d :: ds). rewrite <- app_assoc in *. split_and!; [done..|by constructor|by econstructor].
  - intros [= <- <-]. exists [], []. rewrite app_nil_r. split_and!; [done..|constructor|].
    constructor. by apply index_None.
Qed.

Lemma check_tag_sound t k :
  check_tag objects index t = Ok k ->
  kt_name k = t_name t /\ kt_object k = t_object t /\ validate_tag_name (kt_name k) = Ok tt /\
  kt_target k = (if bool_decide (t_peeled t = "") then t_object t else t_peeled t) /\
  parse_id (kt_target k) = Ok (kt_target_id k) /\ length (kt_chain k) <= MAX_CHAIN /\
  exists id ds, parse_id (kt_object k) = Ok id /\ indexes (kt_chain k) ds /\
    peels (ta_objects a) id ds (kt_target_id k).
Proof.
  unfold check_tag. intros H. apply rbind_ok in H as ([] & Hv & (id & Hid & H)%rbind_ok).
  case_bool_decide as Hp.
  - inv_ok H. breflect. cbn. split_and!; [done..|lia|]. exists id, [].
    split_and!; [done|constructor|]. constructor. by apply index_None.
  - apply rbind_ok in H as (peeled & Hpeel & ([chain target] & Hf & H)%rbind_ok). inv_ok H. breflect. subst.
    apply follow_sound in Hf as (suffix & ds & -> & Hl & Hix & Hps); [|cbn; lia]. cbn in *.
    split_and!; [done..|]. exists id, ds. done.
Qed.
End walk.

(** *** The checked tags *)
Definition kept_pair (k : KeptTag) : string * string := (kt_name k, kt_object k).
Definition tag_pair (t : Tag) : string * string := (t_name t, t_object t).

Lemma Forall2_sort_by {A B} (R : A -> B -> Prop) l k :
  Forall2 R l k -> forall l', l' ≡ₚ l -> exists k', k' ≡ₚ k /\ Forall2 R l' k'.
Proof.
  intros H l' Hp. symmetry in Hp. revert k H. induction Hp as [|x l l' _ IH|x y l|l1 l2 l3 _ IH1 _ IH2]; intros k H.
  - inversion H; subst. exists []. split; [done|constructor].
  - inversion H as [|? y ? k0 Hxy Hk]; subst. destruct (IH _ Hk) as (k' & Hp & Hk'). exists (y :: k').
    split; [by rewrite Hp|by constructor].
  - inversion H as [|? a ? k0 Ha Hk0]; subst. inversion Hk0 as [|? b ? k1 Hb Hk1]; subst.
    exists (b :: a :: k1). split; [apply Permutation_swap|by repeat constructor].
  - destruct (IH1 _ H) as (k1 & Hp1 & Hk1). destruct (IH2 _ Hk1) as (k2 & Hp2 & Hk2). exists k2.
    split; [by rewrite Hp2|done].
Qed.

Lemma strictly_sorted_names (ks : list KeptTag) :
  StronglySorted (fun x y => String.leb (kt_name x) (kt_name y) = true) ks -> NoDup (map kt_name ks) ->
  StronglySorted (fun x y => String.ltb x y = true) (map kt_name ks).
Proof.
  intros Hs Hnd. apply StronglySorted_map. induction Hs as [|x l Hl IH Hx]; [constructor|].
  apply NoDup_cons in Hnd as [Hn Hnd]. constructor; [by apply IH|]. rewrite Forall_forall in Hx. apply Forall_forall.
  intros y Hy. apply str_ltb_leb. split; [by apply Hx|]. intros Heq. apply Hn. apply elem_of_lmap. eauto.
Qed.

(** What [check] established of a kept tag and its chain. *)
Definition kept_ok (a : TagsArtifact) (k : KeptTag) (ds : list bytes) : Prop :=
  validate_tag_name (kt_name k) = Ok tt /\ length ds <= MAX_CHAIN /\
  parse_id (kt_target k) = Ok (kt_target_id k) /\
  exists id, parse_id (kt_object k) = Ok id /\ peels (ta_objects a) id ds (kt_target_id k).

Lemma check_chains a ts ks :
  (nlen (ta_objects a) <= 2 ^ 32)%N ->
  Forall2 (fun t k => check_tag (artifact_objects a) (index_of (artifact_objects a)) t = Ok k) ts ks ->
  map kept_pair ks = map tag_pair ts /\
  exists chains, Forall2 (fun k ds => kept_ok a k ds /\ indexes a (kt_chain k) ds) ks chains.
Proof.
  intros Hlen. induction 1 as [|t k ts ks Hk _ (Hp & chains & IH)]; [split; [done|by exists []]|].
  apply check_tag_sound in Hk as (Hn & Ho & Hv & _ & Ht & Hl & id & ds & Hid & Hix & Hps); [|done]. split.
  - cbn. rewrite Hp. unfold kept_pair, tag_pair. by rewrite Hn, Ho.
  - exists (ds :: chains). constructor; [|done]. split; [|done]. split_and!; [done| |done|eauto].
    by rewrite <- (Forall2_length _ _ _ Hix).
Qed.

(** The objects of the kept tags' chains. *)
Lemma kept_objects_chains a ks chains keep :
  Forall2 (fun k ds => indexes a (kt_chain k) ds) ks chains ->
  exists objs, Kept_objects (Kept_retain keep {| k_tags := ks; k_objects := artifact_objects a |}) = Some objs /\
    StronglySorted (fun x y => bytes_leb x.1 y.1 = true) objs /\ NoDup objs /\
    forall x, x ∈ objs <-> exists k ds d, (k, ds) ∈ zip ks chains /\ keep k = true /\ d ∈ ds /\ x = with_id d.
Proof.
  intros Hc. destruct (artifact_objects_spec a) as (Hos & Hond & _).
  assert (Hix : forall k i, k ∈ ks -> i ∈ kt_chain k ->
    exists ds d, (k, ds) ∈ zip ks chains /\ d ∈ ds /\ nget (artifact_objects a) i = Some (with_id d)).
  { intros k i (n & Hn)%list_elem_of_lookup Hi. destruct (Forall2_lookup_l _ _ _ _ _ Hc Hn) as (ds & Hds & Hix).
    destruct (Forall2_in_l _ _ _ i Hix Hi) as (d & Hd & Hnd). exists ds, d. split_and!; [|done..].
    eapply list_elem_of_lookup_2, lookup_zip_Some. eauto. }
  destruct (Kept_objects_spec (Kept_retain keep {| k_tags := ks; k_objects := artifact_objects a |}))
    as (objs & Ho & Hso & Hno & Hin).
  - cbn. intros k i [Hk _]%elem_of_lfilter Hi. destruct (Hix k i Hk Hi) as (_ & d & _ & _ & ->). eauto.
  - exact Hos.
  - eapply NoDup_fmap_1. exact Hond.
  - exists objs. split_and!; [done..|]. intros x. rewrite Hin. cbn. split.
    + intros (k & i & [Hk Hkeep]%elem_of_lfilter & Hi & Hx). destruct (Hix k i Hk Hi) as (ds & d & Hz & Hd & Hnx).
      exists k, ds, d. split_and!; [done..|congruence].
    + intros (k & ds & d & (n & [Hk Hds]%lookup_zip_Some)%list_elem_of_lookup & Hkeep & Hd & ->).
      cbn in *. pose proof (Forall2_lookup_lr _ _ _ _ _ _ Hc Hk Hds) as Hixs.
      destruct (Forall2_in_r _ _ _ d Hixs Hd) as (i & Hi & Hni). exists k, i. split_and!; [|done..].
      apply elem_of_lfilter. split; [by eapply list_elem_of_lookup_2|done].
Qed.

(** A tags artifact that [check] accepts is sound: its tags are kept, each
    once and sorted by name, under names git accepts; every tag's chain of tag
    objects, at most [MAX_CHAIN] of them and each found in the artifact under the
    id its content hashes to, leads from the object the ref names to the target
    kept for it; and whichever tags the clone keeps, the objects it writes are
    exactly those of the kept tags' chains, each once, sorted by id. *)
Lemma check_spec a kept :
  check a = Ok kept -> (nlen (ta_objects a) <= 2 ^ 32)%N ->
  StronglySorted (fun x y => String.ltb x y = true) (map kt_name (k_tags kept)) /\
  map kept_pair (k_tags kept) ≡ₚ map tag_pair (ta_tags a) /\
  exists chains, Forall2 (kept_ok a) (k_tags kept) chains /\
    forall keep, exists objs, Kept_objects (Kept_retain keep kept) = Some objs /\
      StronglySorted (fun x y => bytes_leb x.1 y.1 = true) objs /\ NoDup objs /\
      forall x, x ∈ objs <-> exists k ds d, (k, ds) ∈ zip (k_tags kept) chains /\ keep k = true /\ d ∈ ds /\ x = with_id d.
Proof.
  unfold Tags.check. intros H Hlen. apply rbind_ok in H as (tags & Htags%collect_ok & H). inv_ok H. cbn [k_tags].
  set (ks := sort_by _ tags) in *. apply check_chains in Htags as (Hp & chains & Hc); [|done].
  assert (Hks : ks ≡ₚ tags) by apply sort_by_perm.
  pose proof (sort_by_key_sorted String.leb kt_name str_leb_total str_leb_trans tags) as Hs. fold ks in Hs.
  apply (all_pairs_NoDup String.leb kt_name str_leb_total str_leb_trans str_leb_antisym) in E; [|done].
  destruct (Forall2_sort_by _ _ _ Hc ks Hks) as (chains' & _ & Hc'). split_and!.
  - by apply strictly_sorted_names.
  - by rewrite Hks, Hp.
  - exists chains'. split.
    + eapply Forall2_impl; [exact Hc'|]. by intros k ds [? _].
    + intros keep. apply kept_objects_chains. eapply Forall2_impl; [exact Hc'|]. by intros k ds [_ ?].
Qed.

(** ** The server's artifact passes the clone's check *)
Section repo.
Context (from_hex : string -> Result bytes)
  (find_header : bytes -> Result Kind) (find_object : bytes -> Result bytes) (decode_target : bytes -> Result bytes).
Local Abbreviation peel := (peel find_header find_object decode_target).
Local Abbreviation build_tag := (build_tag from_hex find_header find_object decode_target).
Local Abbreviation build_artifact := (build_artifact from_hex find_header find_object decode_target).

(** Git's object store: hex ids read back, a tag object is stored under the hash
    of its content, and its target is what its first line names. *)
Record StoreOk : Prop := {
  so_from_hex id : length id = 20 -> from_hex (hex_encode id) = Ok id;
  so_tag id data : find_header id = Ok KTag -> find_object id = Ok data -> tag_object_id data = id;
  so_target data next : decode_target data = Ok next -> tag_target data = Ok next;
}.
Context (Hstore : StoreOk).

(** The chain of tag objects of the store from an id to its target. *)
Inductive store_peels : bytes -> list bytes -> bytes -> Prop :=
  | store_end id kind : find_header id = Ok kind -> kind <> KTag -> store_peels id [] id
  | store_tag d next chain target :
      find_header (tag_object_id d) = Ok KTag -> find_object (tag_object_id d) = Ok d ->
      tag_target d = Ok next -> store_peels next chain target -> store_peels (tag_object_id d) (d :: chain) target.

Lemma tag_target_length d next : tag_target d = Ok next -> length next = 20.
Proof. unfold tag_target. intros H. apply rbind_ok in H as (id & _ & H). inv_ok H. by apply parse_id_ok in H as [? _]. Qed.
Lemma store_peels_length id ds target : length id = 20 -> store_peels id ds target -> length target = 20.
Proof. intros Hid. induction 1 as [|??????? _ IH]; [done|]. eauto using tag_target_length. Qed.
Lemma store_peels_target id ds target : store_peels id ds target -> exists k, find_header target = Ok k /\ k <> KTag.
Proof. induction 1; eauto. Qed.

Definition chain_entry (d : bytes) : string * bytes := (hex_encode (tag_object_id d), d).
Lemma peel_spec n id chain chain' target :
  peel n id chain = Ok (chain', Some target) ->
  exists ds, chain' = chain ++ map chain_entry ds /\ length ds < n /\ store_peels id ds target.
Proof.
  revert id chain; induction n as [|n IH]; intros id chain; cbn [Tags.peel]; [done|].
  destruct (find_header id) as [kind|] eqn:Ek; [|done]. cbn [rbind]. case_bool_decide as Hk.
  - subst. destruct (find_object id) as [d|] eqn:Ed; [|done]. cbn [rbind].
    destruct (decode_target d) as [next|] eqn:En; [|done]. cbn [rbind].
    intros (ds & -> & Hn & Hp)%IH. pose proof (so_tag Hstore _ _ Ek Ed) as <-.
    exists (d :: ds). rewrite <- app_assoc. split_and!; [done|cbn; lia|].
    econstructor; [done..|by apply (so_target Hstore)|done].
  - intros [= <- <-]. exists []. rewrite app_nil_r. split_and!; [done|cbn; lia|]. by econstructor.
Qed.

(** What the artifact says of a listed tag: nothing when the tag is too deep. *)
Definition peeled (t : string * string) : Result (option (list (string * bytes) * bytes)) :=
  let? current := from_hex t.2 in
  let? (chain, target) := peel (S MAX_CHAIN) current [] in
  Ok (pair chain <$> target).
Definition expected (t : string * string) : option (string * (string * string)) :=
  match peeled t with
  | Ok (Some (_, target)) => Some (t.1, (t.2, hex_encode target))
  | _ => None
  end.

(** The tag objects gathered so far are the store's, under their own ids. *)
Definition gathered (objects : gmap string bytes) : Prop :=
  forall k d, objects !! k = Some d ->
    k = hex_encode (tag_object_id d) /\ find_header (tag_object_id d) = Ok KTag /\ find_object (tag_object_id d) = Ok d.
Lemma store_peels_in id ds target d : store_peels id ds target -> d ∈ ds ->
  find_header (tag_object_id d) = Ok KTag /\ find_object (tag_object_id d) = Ok d.
Proof. induction 1; [set_solver|]. intros [->|?]%elem_of_cons; auto. Qed.

Lemma extend_gathered objects id ds target :
  gathered objects -> store_peels id ds target ->
  gathered (extend objects (map chain_entry ds)) /\
  (forall k d, objects !! k = Some d -> extend objects (map chain_entry ds) !! k = Some d) /\
  (forall d, d ∈ ds -> extend objects (map chain_entry ds) !! hex_encode (tag_object_id d) = Some d).
Proof.
  intros Hg Hp. revert objects Hg. induction Hp as [|d next ds target Hh Ho Ht Hp IH]; intros objects Hg.
  - split_and!; [done..|set_solver].
  - cbn. assert (Hg' : gathered (<[hex_encode (tag_object_id d) := d]> objects)).
    { intros k d' [[<- <-]|[_ H]]%lookup_insert_Some; [done|auto]. }
    destruct (IH _ Hg') as (H1 & H2 & H3). unfold extend in *. split_and!; [done| |].
    + intros k d' Hk. apply H2. destruct (decide (k = hex_encode (tag_object_id d))) as [->|Hne].
      * pose proof (Hg _ _ Hk) as (Heq%hex_encode_inj & _ & Ho'). rewrite <- Heq, Ho in Ho'.
        injection Ho' as ->. by rewrite lookup_insert_eq.
      * by rewrite lookup_insert_ne.
    + intros d' [->|Hd]%elem_of_cons; [|auto]. apply H2. by rewrite lookup_insert_eq.
Qed.

Lemma elem_of_into_values {V} (m : gmap string V) v : v ∈ into_values m <-> exists k, m !! k = Some v.
Proof.
  unfold into_values. rewrite elem_of_lmap. setoid_rewrite elem_of_sort_by. split.
  - intros ([k v'] & -> & H%elem_of_map_to_list). eauto.
  - intros (k & H). exists (k, v). by rewrite elem_of_map_to_list.
Qed.

(** A tag of the artifact, against what is expected of the listed one. *)
Definition tag_built (objects : gmap string bytes) (l : string * (string * string)) (t : Tag) : Prop :=
  exists id ds target, length id = 20 /\ length ds <= MAX_CHAIN /\ store_peels id ds target /\
    (forall d, d ∈ ds -> objects !! hex_encode (tag_object_id d) = Some d) /\
    l = (t_name t, (hex_encode id, hex_encode target)) /\ t_object t = hex_encode id /\
    t_peeled t = (if bool_decide (hex_encode target = hex_encode id) then "" else hex_encode target).
Definition is_listed (t : string * string) : Prop := exists id, length id = 20 /\ t.2 = hex_encode id.

Lemma tag_built_mono objects objects' l t :
  (forall k d, objects !! k = Some d -> objects' !! k = Some d) -> tag_built objects l t -> tag_built objects' l t.
Proof. intros H (id & ds & target & ?). exists id, ds, target. naive_solver. Qed.

Lemma build_tag_spec objects out t objects' out' :
  is_listed t -> gathered objects -> build_tag (objects, out) t = Ok (objects', out') ->
  gathered objects' /\ (forall k d, objects !! k = Some d -> objects' !! k = Some d) /\
  exists new, out' = out ++ new /\ Forall2 (tag_built objects') (omap expected [t]) new.
Proof.
  destruct t as [name hex]. intros (id & Hid & E) Hg. cbn in E. subst hex. cbn [omap list_omap].
  unfold Tags.build_tag, expected, peeled. cbn [fst snd].
  rewrite (so_from_hex Hstore id Hid). cbn [rbind].
  destruct (peel (S MAX_CHAIN) id []) as [[chain [target|]]|] eqn:Ep; cbn [rbind fmap option_fmap option_map]; [| |done].
  - intros [= <- <-]. apply peel_spec in Ep as (ds & -> & Hn & Hp). cbn [app].
    destruct (extend_gathered _ _ _ _ Hg Hp) as (H1 & H2 & H3). split_and!; [done..|].
    eexists. split; [done|]. constructor; [|constructor]. exists id, ds, target. split_and!; try done. lia.
  - intros [= <- <-]. split_and!; [done..|]. exists []. rewrite app_nil_r. by split; [|constructor].
Qed.

Lemma build_tags_spec tags objects out objects' out' :
  Forall is_listed tags -> gathered objects -> try_fold build_tag (objects, out) tags = Ok (objects', out') ->
  gathered objects' /\ (forall k d, objects !! k = Some d -> objects' !! k = Some d) /\
  exists new, out' = out ++ new /\ Forall2 (tag_built objects') (omap expected tags) new.
Proof.
  intros Hl. revert objects out. induction Hl as [|t tags Ht _ IH]; intros objects out Hg; cbn [try_fold].
  - intros [= <- <-]. split_and!; [done..|]. exists []. rewrite app_nil_r. by split; [|constructor].
  - intros ([objects1 out1] & H1 & H)%rbind_ok.
    apply build_tag_spec in H1 as (Hg1 & Hm1 & new1 & -> & Hb1); [|done..].
    apply IH in H as (Hg2 & Hm2 & new2 & -> & Hb2); [|done]. split_and!; [done|auto|].
    exists (new1 ++ new2). split; [by rewrite app_assoc|].
    change (t :: tags) with ([t] ++ tags). rewrite omap_app. apply Forall2_app; [|done].
    eapply Forall2_impl; [exact Hb1|]. intros l t'. by apply tag_built_mono.
Qed.

(** *** The clone follows the same chains *)
Definition kept_triple (k : KeptTag) : string * (string * string) := (kt_name k, (kt_object k, kt_target k)).

Section checked.
Context (a : TagsArtifact) (Hlen : (nlen (ta_objects a) <= 2 ^ 32)%N).
Context (Hobjects : forall d, d ∈ ta_objects a ->
  find_header (tag_object_id d) = Ok KTag /\ find_object (tag_object_id d) = Ok d).
Let objects := artifact_objects a.
Let index := index_of objects.

Lemma follow_complete id ds target : store_peels id ds target -> (forall d, d ∈ ds -> d ∈ ta_objects a) ->
  forall fuel chain, length ds < fuel -> length chain + length ds <= MAX_CHAIN ->
  exists chain', follow fuel objects index id chain = Ok (chain ++ chain', target) /\ length chain' = length ds.
Proof.
  induction 1 as [id kind Hk Hne|d next ds target Hh Ho Ht Hp IH]; intros Hin [|fuel] chain Hf Hc; try lia.
  - exists []. rewrite app_nil_r. cbn [follow]. split; [|done].
    replace (index !! id) with (None : option N); [done|]. symmetry. apply index_None; [done|].
    intros d [Hd _]%Hobjects <-. congruence.
  - cbn [follow]. destruct (index_of_object a Hlen d) as (i & d' & Hi & Hn & Heq & Hd'); [set_solver|].
    fold objects index in Hi, Hn. rewrite Hi.
    assert (d' = d) as -> by (apply Hobjects in Hd' as [_ Hd']; rewrite Heq, Ho in Hd'; congruence).
    destruct (N.ltb_spec (nlen chain) (N.of_nat MAX_CHAIN)) as [_|Hge];
      [|unfold nlen, MAX_CHAIN in *; cbn [length] in *; lia].
    rewrite Hn. cbn [context rbind with_id snd]. rewrite Ht. cbn [rbind].
    destruct (IH ltac:(set_solver) fuel (chain ++ [i])) as (chain' & -> & Hl);
      [cbn [length] in *; lia|rewrite length_app; cbn [length] in *; lia|].
    exists (i :: chain'). rewrite <- app_assoc. cbn. split; [done|by rewrite Hl].
Qed.

Lemma check_tag_built m l t :
  ta_objects a = into_values m -> tag_built m l t -> validate_tag_name (t_name t) = Ok tt ->
  exists k, check_tag objects index t = Ok k /\ kept_triple k = l.
Proof.
  intros Hm (id & ds & target & Hid & Hl & Hp & Hds & -> & Ho & Hpe) Hv. unfold check_tag. rewrite Hv. cbn [rbind].
  assert (Hin : forall d, d ∈ ds -> d ∈ ta_objects a).
  { intros d Hd. rewrite Hm. apply elem_of_into_values. eauto. }
  rewrite Ho, parse_id_hex by done. cbn [rbind]. rewrite Hpe.
  pose proof (store_peels_length _ _ _ Hid Hp) as Htl.
  destruct (follow_complete _ _ _ Hp Hin (MAX_CHAIN + 2) []) as (chain & Hf & Hcl); [lia|cbn; lia|].
  case_bool_decide as Heq.
  - apply hex_encode_inj in Heq as ->. rewrite bool_decide_eq_true_2 by done.
    replace (index !! id) with (None : option N).
    { rewrite bool_decide_eq_true_2 by done. eexists. split; done. }
    symmetry. apply index_None; [done|]. intros d [Hd _]%Hobjects <-.
    destruct (store_peels_target _ _ _ Hp) as (k & Hk & Hne). congruence.
  - rewrite bool_decide_eq_false_2 by (intros E; apply (f_equal str_len) in E; rewrite str_len_hex in E; unfold nlen in E;
      rewrite Htl in E; done).
    rewrite parse_id_hex by done. cbn [rbind]. rewrite Hf. cbn [rbind app].
    rewrite (bool_decide_eq_true_2 (target = target)) by done.
    destruct chain as [|i chain].
    + exfalso. apply Heq. destruct ds; [|done]. by inversion Hp.
    + eexists. split; done.
Qed.
Lemma check_tags_built m ls ts :
  ta_objects a = into_values m -> Forall2 (tag_built m) ls ts -> Forall (fun l => validate_tag_name l.1 = Ok tt) ls ->
  exists ks, collect (check_tag objects index) ts = Ok ks /\ map kept_triple ks = ls.
Proof.
  intros Hm. induction 1 as [|l t ls ts Hlt _ IH]; [by exists []|]. intros [Hv Hvs]%Forall_cons.
  assert (Hv' : validate_tag_name (t_name t) = Ok tt) by (destruct Hlt as (? & ? & ? & _ & _ & _ & _ & -> & _); exact Hv).
  destruct (check_tag_built m l t Hm Hlt Hv') as (k & Hk & <-). destruct (IH Hvs) as (ks & Hks & <-).
  exists (k :: ks). split; [|done]. cbn [collect]. rewrite Hk. cbn [rbind]. by rewrite Hks.
Qed.
End checked.

(** *** Listing *)
Lemma pair_le_spec a b : pair_le a b = true <->
  (String.leb a.1 b.1 = true /\ a.1 <> b.1) \/ (a.1 = b.1 /\ String.leb a.2 b.2 = true).
Proof. unfold pair_le. rewrite orb_true_iff, andb_true_iff, bool_decide_eq_true, str_ltb_leb. done. Qed.
Lemma pair_le_total a b : pair_le a b = true \/ pair_le b a = true.
Proof.
  rewrite !pair_le_spec. destruct (decide (a.1 = b.1)) as [E|E].
  - destruct (str_leb_total a.2 b.2); auto.
  - destruct (str_leb_total a.1 b.1); auto 6.
Qed.
Lemma pair_le_trans a b c : pair_le a b = true -> pair_le b c = true -> pair_le a c = true.
Proof.
  rewrite !pair_le_spec. intros [[H1 N1]|[E1 H1]] [[H2 N2]|[E2 H2]].
  - left. split; [eauto with rust|]. intros E. rewrite <- E in H2, N2. apply N2. by apply str_leb_antisym.
  - left. by rewrite <- E2.
  - left. by rewrite E1.
  - right. rewrite E1. eauto with rust.
Qed.
Lemma pair_le_antisym a b : pair_le a b = true -> pair_le b a = true -> a = b.
Proof.
  rewrite !pair_le_spec. destruct a as [a1 a2], b as [b1 b2]; cbn.
  intros [[H1 N1]|[E1 H1]] [[H2 N2]|[E2 H2]]; try congruence.
  - destruct N1. by apply str_leb_antisym.
  - subst. f_equal. by apply str_leb_antisym.
Qed.
Lemma pair_le_names l :
  StronglySorted (fun x y => pair_le x y = true) l -> StronglySorted (fun x y => String.leb x.1 y.1 = true) l.
Proof. apply StronglySorted_impl_in. intros x y _ _ [[? _]|[-> _]]%pair_le_spec; auto with rust. Qed.

Lemma list_tag_Some r t : list_tag r = Some t -> r = (t.1, Some t.2) /\ validate_tag_name t.1 = Ok tt.
Proof.
  destruct r as [name [id|]]; cbn; [|done]. destruct (validate_tag_name name) as [[]|] eqn:E; [|done].
  by intros [= <-].
Qed.
Lemma omap_NoDup_fst {A B C} (f : A * B -> option (A * C)) l :
  (forall x y, f x = Some y -> y.1 = x.1) -> NoDup (map fst l) -> NoDup (map fst (omap f l)).
Proof.
  intros Hf. induction l as [|x l IH]; cbn; [done|]. intros [Hx Hl]%NoDup_cons.
  destruct (f x) as [y|] eqn:E; cbn; [|by apply IH]. constructor; [|by apply IH].
  intros (z & Hz & Hin)%elem_of_lmap. apply list_elem_of_omap in Hin as (w & Hw & Hwz).
  apply Hx, elem_of_lmap. exists w. rewrite <- (Hf _ _ E), Hz, (Hf _ _ Hwz). done.
Qed.
Lemma omap_sorted_fst {A B C} (le : A -> A -> bool) (f : A * B -> option (A * C)) l :
  (forall x y, f x = Some y -> y.1 = x.1) -> StronglySorted (fun x y => le x.1 y.1 = true) l ->
  StronglySorted (fun x y => le x.1 y.1 = true) (omap f l).
Proof.
  intros Hf. induction 1 as [|x l Hl IH Hx]; cbn; [constructor|].
  destruct (f x) as [y|] eqn:E; cbn; [|done]. constructor; [done|].
  rewrite Forall_forall in Hx. apply Forall_forall. intros z (w & Hw & Hwz)%list_elem_of_omap.
  rewrite (Hf _ _ E), (Hf _ _ Hwz). by apply Hx.
Qed.

Lemma listing_spec cas_hash references tags hash :
  NoDup (map fst references) -> listing cas_hash references = (tags, hash) ->
  tags ≡ₚ omap list_tag references /\ NoDup (map fst tags) /\
  StronglySorted (fun x y => String.leb x.1 y.1 = true) tags /\
  Forall (fun t => validate_tag_name t.1 = Ok tt) tags /\ hash = cas_hash (listing_text tags).
Proof.
  intros Hnd [= <- <-].
  assert (Hp : sort_by pair_le (omap list_tag references) ≡ₚ omap list_tag references) by apply sort_by_perm.
  split_and!; [done| | | |done].
  - rewrite Hp. apply omap_NoDup_fst; [|done]. by intros x y [-> _]%list_tag_Some.
  - apply pair_le_names. apply (sort_by_sorted _ pair_le_total pair_le_trans).
  - rewrite Hp. apply Forall_forall. intros t (r & _ & [_ Hv]%list_tag_Some)%list_elem_of_omap. done.
Qed.

Lemma expected_name t e : expected t = Some e -> e.1 = t.1.
Proof. unfold expected. destruct (peeled t) as [[[? ?]|]|]; [|done..]. by intros [= <-]. Qed.

Lemma artifact_checks tags a :
  Forall is_listed tags -> NoDup (map fst tags) -> StronglySorted (fun x y => String.leb x.1 y.1 = true) tags ->
  Forall (fun t => validate_tag_name t.1 = Ok tt) tags ->
  build_artifact tags = Ok a -> (nlen (ta_objects a) <= 2 ^ 32)%N ->
  exists kept, check a = Ok kept /\ map kept_triple (k_tags kept) = omap expected tags.
Proof.
  intros Hl Hnd Hs Hv H Hlen. apply rbind_ok in H as ([m out] & H & [= <-]).
  apply build_tags_spec in H as (Hg & _ & new & -> & Hb); [|done|by intros ?]. cbn [app] in *.
  destruct (check_tags_built _ Hlen) with (3 := Hb) as (ks & Hks & Hmap).
  - intros d (k & Hk)%elem_of_into_values. by apply Hg in Hk as (_ & ? & ?).
  - done.
  - apply Forall_forall. intros e (t & Ht & He%expected_name)%list_elem_of_omap. rewrite He.
    rewrite Forall_forall in Hv. by apply Hv.
  - cbn [ta_tags] in *. unfold Tags.check. cbn [ta_tags]. rewrite Hks. cbn [rbind].
    assert (Hsorted : StronglySorted (fun x y => String.leb (kt_name x) (kt_name y) = true) ks).
    { apply (StronglySorted_map kept_triple (fun x y => String.leb x.1 y.1 = true)). rewrite Hmap.
      apply omap_sorted_fst; [apply expected_name|done]. }
    rewrite (sort_by_sorted_id _ _ Hsorted).
    assert (Hpairs : all_pairs (fun x y => negb (bool_decide (kt_name x = kt_name y))) ks = true).
    { apply (all_pairs_NoDup String.leb kt_name str_leb_total str_leb_trans str_leb_antisym); [done|].
      change (map kt_name ks) with (map (fun k => (kept_triple k).1) ks). rewrite <- (map_map kept_triple fst), Hmap.
      apply omap_NoDup_fst; [apply expected_name|done]. }
    rewrite Hpairs. eexists. split; [done|]. exact Hmap.
Qed.

(** *** Through the encodings *)
Section encoded.
Context (cas_hash : string -> string) (encode_to_vec : TagsArtifact -> bytes) (message_decode : bytes -> Result TagsArtifact)
  (encode_all decode_all : bytes -> Result bytes).
(** What [prost] and [zstd] encode decodes back. *)
Context (Hmessage : forall a, message_decode (encode_to_vec a) = Ok a).
Context (Hzstd : forall raw c, encode_all raw = Ok c -> decode_all c = Ok raw).

(** C36: the artifact a server builds from its mirror's tags passes every clone's
    check and keeps each tag of the listing under its name, object and peeled
    target, in the listing's order; only the tags whose chain is longer than
    [MAX_CHAIN] are left out. The listing holds the references that name an object
    under a name git accepts, sorted, whatever order they were read in, so the
    same references give the same bytes and the same hash. *)
Theorem tags_roundtrip references tags hash b :
  NoDup (map fst references) ->
  (forall name hex, (name, Some hex) ∈ references -> exists id, length id = 20 /\ hex = hex_encode id) ->
  listing cas_hash references = (tags, hash) ->
  build from_hex find_header find_object decode_target encode_to_vec encode_all tags = Ok b ->
  (forall a, build_artifact tags = Ok a -> (nlen (ta_objects a) <= 2 ^ 32)%N) ->
  (exists a kept, decode message_decode decode_all b = Ok a /\ check a = Ok kept /\
    map kept_triple (k_tags kept) = omap expected tags) /\
  tags ≡ₚ omap list_tag references /\
  (forall references', references' ≡ₚ references -> listing cas_hash references' = (tags, hash)).
Proof.
  intros Hnd Hids Hlist Hb Hlen. pose proof Hlist as (Hp & Hndt & Hs & Hv & _)%listing_spec; [|done]. split_and!.
  - apply rbind_ok in Hb as (a & Ha & Hb). destruct (artifact_checks tags a) as (kept & Hk & Hmap); [|done..|auto|].
    { rewrite Hp. apply Forall_forall. intros t (r & Hr & [-> _]%list_tag_Some)%list_elem_of_omap. by apply Hids in Hr. }
    exists a, kept. split_and!; [|done..]. unfold decode. rewrite (Hzstd _ _ Hb). cbn [rbind]. apply Hmessage.
  - done.
  - intros references' Hr. rewrite <- Hlist. unfold listing.
    assert (sort_by pair_le (omap list_tag references') = sort_by pair_le (omap list_tag references)) as ->; [|done].
    apply sort_by_unique; [apply pair_le_total|apply pair_le_trans|apply pair_le_antisym|by rewrite Hr].
Qed.
End encoded.
End repo.
End thms.

(** ** Witnesses

    A mirror with a commit, an annotated tag of it, a tag of that tag and a
    lightweight tag. [sha1] is a stand-in that tells these two tag objects apart. *)
Module TagsExample.
Definition commit : bytes := repeat Byte.x11 20.
Definition inner_data : bytes := String.list_byte_of_string ("object " +:+ hex_encode commit +:+ String "010" "tag v1").
Definition sha1 (b : bytes) : bytes := repeat (byte_of (nlen b)) 20.
Definition inner : bytes := tag_object_id sha1 inner_data.
Definition outer_data : bytes := String.list_byte_of_string ("object " +:+ hex_encode inner +:+ String "010" "tag again").
Definition outer : bytes := tag_object_id sha1 outer_data.

Definition find_header (id : bytes) : Result Kind :=
  if bool_decide (id = inner) || bool_decide (id = outer) then Ok KTag
  else if bool_decide (id = commit) then Ok KCommit else Err "object not found".
Definition find_object (id : bytes) : Result bytes :=
  if bool_decide (id = inner) then Ok inner_data else if bool_decide (id = outer) then Ok outer_data else Err "object not found".

#[global] Instance tag_eq_dec : EqDecision Tag.
Proof. solve_decision. Defined.
#[global] Instance artifact_eq_dec : EqDecision TagsArtifact.
Proof. solve_decision. Defined.
#[global] Instance tag_countable : Countable Tag :=
  inj_countable' (fun t => (t_name t, t_object t, t_peeled t))
    (fun p => {| t_name := p.1.1; t_object := p.1.2; t_peeled := p.2 |}) (fun t => match t with Build_Tag _ _ _ => eq_refl end).
#[global] Instance artifact_countable : Countable TagsArtifact :=
  inj_countable' (fun a => (ta_tags a, ta_objects a)) (fun p => {| ta_tags := p.1; ta_objects := p.2 |})
    (fun a => match a with Build_TagsArtifact _ _ => eq_refl end).

Definition references : list (string * option string) :=
  [("v2", Some (hex_encode outer)); ("light", Some (hex_encode commit)); ("sym", None); ("v1", Some (hex_encode inner));
   ("bad..name", Some (hex_encode commit))].
Definition tags : list (string * string) :=
  [("light", hex_encode commit); ("v1", hex_encode inner); ("v2", hex_encode outer)].
Definition artifact : TagsArtifact :=
  {| ta_tags := [{| t_name := "light"; t_object := hex_encode commit; t_peeled := "" |};
                 {| t_name := "v1"; t_object := hex_encode inner; t_peeled := hex_encode commit |};
                 {| t_name := "v2"; t_object := hex_encode outer; t_peeled := hex_encode commit |}];
     ta_objects := [inner_data; outer_data] |}.

Lemma references_listed :
  Forall (fun r => match r.2 with Some hex => exists id, length id = 20 /\ hex = hex_encode id | None => True end) references.
Proof.
  apply Forall_cons; split; [by exists outer|]. apply Forall_cons; split; [by exists commit|].
  apply Forall_cons; split; [done|]. apply Forall_cons; split; [by exists inner|].
  apply Forall_cons; split; [by exists commit|]. constructor.
Qed.
Lemma store_ok : StoreOk sha1 parse_id find_header find_object tag_target.
Proof.
  constructor.
  - apply parse_id_hex.
  - intros id data _. unfold find_object. repeat case_bool_decide; try done; subst; by intros [= <-].
  - done.
Qed.
End TagsExample.

Lemma check_spec_witness :
  exists kept, check TagsExample.sha1 TagsExample.artifact = Ok kept /\
    StronglySorted (fun x y => String.ltb x y = true) (map kt_name (k_tags kept)).
Proof.
  destruct (check TagsExample.sha1 TagsExample.artifact) as [kept|] eqn:E; [|exfalso; by vm_compute in E].
  exists kept. split; [done|].
  destruct (check_spec TagsExample.sha1 TagsExample.artifact kept E ltac:(by vm_compute)) as [H _]. exact H.
Defined.

Lemma tags_roundtrip_witness :
  exists b a kept, decode (of_wire (A := TagsArtifact)) Ok b = Ok a /\ check TagsExample.sha1 a = Ok kept /\
    map kt_name (k_tags kept) = ["light"; "v1"; "v2"] /\ map kt_target (k_tags kept) = repeat (hex_encode TagsExample.commit) 3.
Proof.
  assert (Hb : build_artifact parse_id TagsExample.find_header TagsExample.find_object tag_target TagsExample.tags
    = Ok TagsExample.artifact) by (by vm_compute).
  destruct (tags_roundtrip TagsExample.sha1 parse_id TagsExample.find_header TagsExample.find_object tag_target
    TagsExample.store_ok (fun s => s) to_wire of_wire Ok Ok of_to_wire
    ltac:(by intros raw c [= <-]) TagsExample.references TagsExample.tags (listing_text TagsExample.tags)
    (to_wire TagsExample.artifact)) as [(a & kept & Hd & Hc & Hm) _].
  - apply (bool_decide_unpack (NoDup _)). by vm_compute.
  - intros name hex Hin. exact (proj1 (Forall_forall _ _) TagsExample.references_listed _ Hin).
  - by vm_compute.
  - unfold build. rewrite Hb. done.
  - rewrite Hb. intros a [= <-]. by vm_compute.
  - exists (to_wire TagsExample.artifact), a, kept. split_and!; [done..| |].
    + apply (f_equal (map fst)) in Hm. rewrite map_map in Hm. etransitivity; [exact Hm|]. by vm_compute.
    + apply (f_equal (map (fun t => t.2.2))) in Hm. rewrite map_map in Hm. etransitivity; [exact Hm|]. by vm_compute.
Defined.
