(* ===== verification/TagPack.v ===== *)
(** What a clone writes for its tags ([write], [write_target_refs], [pack] and
    [stored_zlib] of [rust/src/tags.rs]): a pack of tag objects, its idx and
    [packed-refs].

    SHA-1 and the CRC-32 of [flate2] are parameters. The [.git] directory is a map
    of its files; a write to it that the disk refuses is not modelled. *)

From S2P Require Import Prelude Bytes Validation Pack Tags.

Definition OBJ_TAG : N := 4.
Definition ascii_bytes (s : string) : bytes := String.list_byte_of_string s.

(** ** Deflate, stored *)

(** [data.chunks(size)]; [fuel] is the length of the data. *)
Fixpoint chunks_in (fuel : nat) (size : N) (data : bytes) : list bytes :=
  match fuel, data with
  | S fuel, _ :: _ => take (N.to_nat size) data :: chunks_in fuel size (drop (N.to_nat size) data)
  | _, _ => []
  end.
Definition chunks (size : N) (data : bytes) : list bytes := chunks_in (length data) size data.

(** The loop over the blocks: the last one is marked. *)
Fixpoint stored_blocks (blocks : list bytes) : bytes :=
  match blocks with
  | [] => []
  | block :: rest =>
      let len := (nlen block mod 65536)%N in
      byte_of (if bool_decide (rest = []) then 1 else 0) :: to_le_bytes 2 len ++ to_le_bytes 2 (N.lxor len 65535)
      ++ block ++ stored_blocks rest
  end.

(** Adler-32 in [u32]s: the sums of one run, then of all runs. *)
Definition u32_add (a b : N) : N := ((a + b) mod 2 ^ 32)%N.
Definition u32_step (s : N * N) (byte : Byte.byte) : N * N :=
  let '(a, b) := s in let a := u32_add a (Byte.to_N byte) in (a, u32_add b a).
Definition adler_run (s : N * N) (run : bytes) : N * N :=
  let '(a, b) := foldl u32_step s run in
  (a mod 65521, b mod 65521)%N.
Definition adler_runs (data : bytes) : N :=
  let '(a, b) := foldl adler_run (1, 0)%N (chunks 5552 data) in
  N.lor (N.shiftl b 16 mod 2 ^ 32) a.

Definition stored_zlib (data : bytes) : bytes :=
  let blocks := chunks 65535 data in
  [Byte.x78; Byte.x01]
  ++ (if bool_decide (blocks = []) then [Byte.x01; Byte.x00; Byte.x00; Byte.xff; Byte.xff] else stored_blocks blocks)
  ++ to_be_bytes 4 (adler_runs data).

(** ** The pack and its idx *)

(** The size bytes of an entry; a [usize] has at most ten of them. *)
Fixpoint size_bytes (fuel : nat) (byte size : N) : bytes :=
  match fuel with
  | O => []
  | S fuel =>
      if (size =? 0)%N then [byte_of byte]
      else byte_of (N.lor byte 128) :: size_bytes fuel (N.land size 127) (N.shiftr size 7)
  end.
Definition entry_header (size : N) : bytes :=
  size_bytes 10 (N.lor (N.shiftl OBJ_TAG 4) (N.land size 15)) (N.shiftr size 4).

Section pack.
Context (sha1 : bytes -> bytes) (crc32 : bytes -> N).

(** The loop over the objects: the pack so far, and each entry's offset and
    checksum. *)
Definition pack_step (acc : bytes * list (N * N)) (object : bytes * bytes) : bytes * list (N * N) :=
  let '(out, entries) := acc in
  let entry := entry_header (nlen object.2) ++ stored_zlib object.2 in
  (out ++ entry, entries ++ [(nlen out, crc32 entry)]).

(** [fanout[id[0]] += 1], and the running totals. The totals are at most the
    count, a [u32]. *)
Definition count_first (fanout : list N) (object : bytes * bytes) : list N :=
  alter (fun n => n + 1)%N (N.to_nat (Byte.to_N (default Byte.x00 (head object.1)))) fanout.
Fixpoint running_totals (total : N) (slots : list N) : list N :=
  match slots with
  | [] => []
  | slot :: slots => (total + slot)%N :: running_totals (total + slot) slots
  end.

(** The loop over the offsets: the small ones, and the large ones they index. *)
Definition offset_step (acc : list N * list N) (entry : N * N) : Result (list N * list N) :=
  let '(small, large) := acc in
  let '(offset, _) := entry in
  if (offset <? 2147483648)%N then Ok (small ++ [offset], large)
  else
    let? index := context (try_from u32_max (nlen large)) "too many large offsets" in
    Ok (small ++ [N.lor 2147483648 index], large ++ [offset]).

Definition pack (objects : list (bytes * bytes)) : Result (bytes * bytes * string) :=
  let? count := context (try_from u32_max (nlen objects)) "too many tag objects" in
  let '(out, entries) := foldl pack_step (ascii_bytes "PACK" ++ to_be_bytes 4 2 ++ to_be_bytes 4 count, []) objects in
  let checksum := sha1 out in
  let fanout := foldl count_first (repeat 0%N 256) objects in
  let? (small, large) := try_fold offset_step ([], []) entries in
  let idx := (Byte.xff :: ascii_bytes "tOc") ++ to_be_bytes 4 2
    ++ concat (map (to_be_bytes 4) (running_totals 0 fanout))
    ++ concat (map fst objects)
    ++ concat (map (fun entry => to_be_bytes 4 entry.2) entries)
    ++ concat (map (to_be_bytes 4) small)
    ++ concat (map (to_be_bytes 8) large)
    ++ checksum in
  Ok (out ++ checksum, idx ++ sha1 idx, hex_encode checksum).

(** ** [packed-refs] and the clone's files *)
Definition packed_refs (refs : list (string * string)) : string :=
  "# pack-refs with: sorted " +:+ String "010" ""
  +:+ foldr (fun r text => (r.2 +:+ " " +:+ r.1 +:+ String "010" "") +:+ text) "" refs.

(** The files of [git_dir], by their path below it. *)
Definition Files : Type := gmap string bytes.
Definition write_file (path : string) (content : bytes) : Stateful Files unit := fun files =>
  (<[path := content]> files, Ok tt).
Definition write_packed_refs (refs : list (string * string)) : Stateful Files unit :=
  write_file "packed-refs" (ascii_bytes (packed_refs refs)).
Definition get_files : Stateful Files Files := fun files => (files, Ok files).

Definition written_refs (kept : Kept) (remotes : list (string * string)) : list (string * string) :=
  map (fun r => ("refs/remotes/origin/" +:+ r.1, r.2)) remotes
  ++ map (fun t => ("refs/tags/" +:+ kt_name t, kt_object t)) (k_tags kept).

Definition write (kept : Kept) (remotes : list (string * string)) (present : bytes -> bool) : Stateful Files unit :=
  if bool_decide (k_tags kept = []) && bool_decide (remotes = []) then sret tt
  else
    let! files := get_files in
    if bool_decide (is_Some (files !! "packed-refs")) then sfail "packed-refs already exists"
    else
      let! objects := lift (context (Kept_objects kept) "index out of bounds") in
      let objects := List.filter (fun o => negb (present o.1)) objects in
      let! _ :=
        if bool_decide (objects = []) then sret tt
        else
          let! (pack, idx, checksum) := lift (pack objects) in
          let! _ := write_file ("objects/pack/pack-" +:+ checksum +:+ ".pack") pack in
          write_file ("objects/pack/pack-" +:+ checksum +:+ ".idx") idx in
      write_packed_refs (written_refs kept remotes).

Definition write_target_refs (kept : Kept) : Stateful Files unit :=
  write_packed_refs (map (fun t => ("refs/tags/" +:+ kt_name t, kt_target t)) (k_tags kept)).
End pack.

(** ** Readers

    What reads these files: inflating stored blocks (RFC 1950 and 1951) and an
    entry of a pack (git's pack format). *)
Definition ref_step (s : N * N) (byte : Byte.byte) : N * N :=
  let '(a, b) := s in let a := ((a + Byte.to_N byte) mod 65521)%N in (a, (b + a) mod 65521)%N.
Definition adler32 (data : bytes) : N :=
  let '(a, b) := foldl ref_step (1, 0)%N data in (b * 65536 + a)%N.

(** The stored blocks up to the last one, and the bytes after it. *)
Fixpoint inflate_stored (fuel : nat) (b : bytes) : option (bytes * bytes) :=
  match fuel, b with
  | S fuel, last :: l0 :: l1 :: n0 :: n1 :: b =>
      let len := from_le_bytes [l0; l1] in
      if (Byte.to_N last <=? 1)%N && (from_le_bytes [n0; n1] =? 65535 - len)%N then
        data ← get_range b 0 len;
        let rest := slice b len (nlen b) in
        if (Byte.to_N last =? 1)%N then Some (data, rest)
        else '(data', rest) ← inflate_stored fuel rest; Some (data ++ data', rest)
      else None
  | _, _ => None
  end.
Definition inflate (b : bytes) : option (bytes * bytes) :=
  match b with
  | Byte.x78 :: Byte.x01 :: b =>
      '(data, b) ← inflate_stored (length b) b;
      sum ← get_range b 0 4;
      if (from_be_bytes sum =? adler32 data)%N then Some (data, slice b 4 (nlen b)) else None
  | _ => None
  end.

(** The size's continuation bytes, the least significant first. *)
Fixpoint read_size (b : bytes) : option (N * bytes) :=
  match b with
  | [] => None
  | x :: b =>
      let v := (Byte.to_N x mod 128)%N in
      if (Byte.to_N x <? 128)%N then Some (v, b)
      else '(w, b) ← read_size b; Some (v + 128 * w, b)%N
  end.
(** An entry's kind, content and the bytes after it. *)
Definition read_entry (b : bytes) : option (N * bytes * bytes) :=
  match b with
  | [] => None
  | x :: b =>
      let kind := (Byte.to_N x / 16 mod 8)%N in
      let low := (Byte.to_N x mod 16)%N in
      '(size, b) ← (if (Byte.to_N x <? 128)%N then Some (low, b)
                    else '(high, b) ← read_size b; Some (low + 16 * high, b)%N);
      '(data, b) ← inflate b;
      if (nlen data =? size)%N then Some (kind, data, b) else None
  end.

(** ** Lemmas on chunks *)
Lemma chunks_in_spec fuel size data : (0 < size)%N -> length data <= fuel ->
  concat (chunks_in fuel size data) = data /\ Forall (fun c => 0 < nlen c <= size)%N (chunks_in fuel size data).
Proof.
  intros Hs. revert data; induction fuel as [|fuel IH]; intros [|x data] Hf; cbn [length] in Hf; try lia;
    [split; [done|constructor]..|].
  cbn [chunks_in]. destruct (IH (drop (N.to_nat size) (x :: data))) as (Hc & Hl).
  { rewrite length_drop. cbn [length]. lia. }
  split.
  - cbn [concat]. rewrite Hc. apply take_drop.
  - constructor; [|done]. unfold nlen. rewrite length_take. cbn [length]. lia.
Qed.
Lemma chunks_spec size data : (0 < size)%N ->
  concat (chunks size data) = data /\ Forall (fun c => 0 < nlen c <= size)%N (chunks size data).
Proof. intros. by apply chunks_in_spec. Qed.

(** ** Adler-32: the [u32] sums of a run cannot overflow *)
Lemma u32_add_small a b : (a + b < 2 ^ 32)%N -> u32_add a b = (a + b)%N.
Proof. apply N.mod_small. Qed.

(** [n] bytes into a run the sums are below these bounds. *)
Definition run_bounds (n : N) (s : N * N) : Prop :=
  (s.1 <= 65520 + 255 * n /\ 2 * s.2 <= 131040 + 131040 * n + 255 * (n * (n + 1)))%N.
Definition adler_mod (s : N * N) : N * N := (s.1 mod 65521, s.2 mod 65521)%N.


Lemma u32_step_spec n s byte :
  run_bounds n s -> (n < 5552)%N ->
  run_bounds (n + 1) (u32_step s byte) /\ adler_mod (u32_step s byte) = ref_step (adler_mod s) byte.
Proof.
  destruct s as [a b]. intros [Ha Hb] Hn. cbn [fst snd] in *. pose proof (to_N_bound byte) as Hx.
  assert (n * (n + 1) <= 5551 * 5552)%N by (apply N.mul_le_mono; lia).
  assert (n * (n + 1) + 2 * (n + 1) = (n + 1) * (n + 1 + 1))%N by lia.
  unfold u32_step. rewrite (u32_add_small a) by lia. rewrite u32_add_small by lia.
  split; [split; cbn [fst snd]; lia|]. unfold adler_mod, ref_step. cbn [fst snd].
  rewrite !N.Div0.add_mod_idemp_l. f_equal. rewrite N.Div0.add_mod_idemp_r. done.
Qed.
Lemma u32_steps_spec run n s :
  run_bounds n s -> (n + nlen run <= 5552)%N ->
  adler_mod (foldl u32_step s run) = foldl ref_step (adler_mod s) run.
Proof.
  revert n s; induction run as [|x run IH]; intros n s Hs Hn; [done|]. rewrite nlen_cons in Hn. cbn [foldl].
  destruct (u32_step_spec n s x Hs ltac:(lia)) as [Hs' <-]. apply (IH (n + 1)%N); [done|lia].
Qed.
Lemma adler_run_spec s run :
  (s.1 < 65521)%N -> (s.2 < 65521)%N -> (nlen run <= 5552)%N -> adler_run s run = foldl ref_step s run.
Proof.
  intros Ha Hb Hl. assert (Hm : adler_mod s = s)
    by (destruct s; unfold adler_mod; cbn [fst snd] in *; by rewrite !N.mod_small by lia).
  pose proof (u32_steps_spec run 0 s) as E. rewrite Hm in E. rewrite <- E; [|split; lia|lia].
  unfold adler_run. by destruct (foldl u32_step s run).
Qed.
Lemma ref_steps_bound data s : (s.1 < 65521)%N -> (s.2 < 65521)%N ->
  ((foldl ref_step s data).1 < 65521 /\ (foldl ref_step s data).2 < 65521)%N.
Proof.
  revert s; induction data as [|x data IH]; intros [a b] Ha Hb; [done|]. cbn [foldl]. apply IH; by apply N.mod_lt.
Qed.

(** The Adler-32 of [stored_zlib], computed in [u32]s and reduced once every
    5552 bytes, never overflows: it is the checksum that reduces after every byte,
    and its two halves do not overlap. *)
Lemma adler_runs_spec data : adler_runs data = adler32 data.
Proof.
  destruct (chunks_spec 5552 data ltac:(lia)) as (Hc & Hl).
  assert (H : foldl adler_run (1, 0)%N (chunks 5552 data) = foldl ref_step (1, 0)%N data).
  { rewrite <- Hc at 2. clear Hc. assert (H1 : ((1, 0)%N.1 < 65521)%N /\ ((1, 0)%N.2 < 65521)%N) by done.
    revert H1. generalize (1, 0)%N. induction Hl as [|run runs Hrun _ IH]; intros s [Ha Hb]; [done|].
    cbn [foldl concat]. rewrite foldl_app, adler_run_spec by (done || lia). apply IH. by apply ref_steps_bound. }
  unfold adler_runs, adler32. rewrite H.
  destruct (ref_steps_bound data (1, 0)%N) as [Ha Hb]; [done..|].
  destruct (foldl ref_step (1, 0)%N data) as [a b]. cbn [fst snd] in *.
  rewrite N.shiftl_mul_pow2, N.mod_small by (change (2 ^ 16)%N with 65536%N; change (2 ^ 32)%N with 4294967296%N; lia).
  change (2 ^ 16)%N with 65536%N.
  apply (lor_disjoint_add 16). change (2 ^ 16)%N with 65536%N. lia.
Qed.

(** ** The deflate stream reads back *)
Lemma get_range_app_l {A} (l k : list A) : get_range (l ++ k) 0 (nlen l) = Some l.
Proof.
  apply get_range_Some. rewrite nlen_app. split_and!; [lia|lia|]. rewrite slice_app_l by lia. by rewrite slice_all.
Qed.
Lemma slice_app_rest {A} (l k : list A) : slice (l ++ k) (nlen l) (nlen (l ++ k)) = k.
Proof. rewrite slice_app_r by lia. rewrite nlen_app, N.sub_diag. replace (nlen l + nlen k - nlen l)%N with (nlen k) by lia. apply slice_all. Qed.

Lemma get_range_app_l_len {A} (l k : list A) n : nlen l = n -> get_range (l ++ k) 0 n = Some l.
Proof. intros <-. apply get_range_app_l. Qed.
Lemma slice_app_rest_len {A} (l k : list A) n : nlen l = n -> slice (l ++ k) n (nlen (l ++ k)) = k.
Proof. intros <-. apply slice_app_rest. Qed.

Lemma lxor_65535 n : (n <= 65535)%N -> N.lxor n 65535 = (65535 - n)%N.
Proof.
  intros H. change 65535%N with (N.ones 16) at 1. change (N.lxor n (N.ones 16)) with (N.lnot n 16).
  apply N.lnot_sub_low. destruct (N.eq_dec n 0%N) as [->|Hz]; [done|]. apply N.log2_lt_pow2; [lia|].
  change (2 ^ 16)%N with 65536%N. lia.
Qed.

Lemma inflate_block fuel (last : N) block k :
  (last <= 1)%N -> (nlen block <= 65535)%N ->
  inflate_stored (S fuel) (byte_of last :: to_le_bytes 2 (nlen block mod 65536)
    ++ to_le_bytes 2 (N.lxor (nlen block mod 65536) 65535) ++ block ++ k)
  = if (last =? 1)%N then Some (block, k)
    else '(data', rest) ← inflate_stored fuel k; Some (block ++ data', rest).
Proof.
  intros Hlast Hlen. rewrite (N.mod_small (nlen block)) by lia. rewrite lxor_65535 by done.
  cbn [to_le_bytes app inflate_stored].
  pose proof (from_to_le_bytes 2 (nlen block)) as H1. pose proof (from_to_le_bytes 2 (65535 - nlen block)) as H2.
  cbn [to_le_bytes] in H1, H2. rewrite H1, H2. change (256 ^ N.of_nat 2)%N with 65536%N.
  rewrite !(N.mod_small _ 65536) by lia. rewrite to_N_byte_of, (N.mod_small last) by lia.
  replace (last <=? 1)%N with true by (symmetry; by apply N.leb_le). rewrite N.eqb_refl. cbn [andb].
  rewrite get_range_app_l. cbn [mbind option_bind]. by rewrite slice_app_rest.
Qed.

Lemma stored_blocks_length blocks : length blocks <= length (stored_blocks blocks).
Proof. induction blocks as [|b bs IH]; cbn [stored_blocks length]; [lia|]. rewrite !length_app. lia. Qed.

Lemma inflate_stored_blocks blocks k fuel :
  blocks <> [] -> Forall (fun c => 0 < nlen c <= 65535)%N blocks -> length blocks <= fuel ->
  inflate_stored fuel (stored_blocks blocks ++ k) = Some (concat blocks, k).
Proof.
  intros Hne Hl. revert fuel. induction Hl as [|block blocks Hb Hl IH]; intros [|fuel] Hf; [done..|cbn in Hf; lia|].
  cbn [stored_blocks concat]. rewrite <- app_comm_cons, <- !app_assoc.
  rewrite inflate_block by (try case_bool_decide; lia). case_bool_decide as E.
  - subst. cbn. by rewrite app_nil_r.
  - cbn [N.eqb Pos.eqb]. rewrite IH; [done..|cbn in Hf; lia].
Qed.

Lemma adler32_bound data : (adler32 data < 2 ^ 32)%N.
Proof.
  unfold adler32. destruct (ref_steps_bound data (1, 0)%N) as [Ha Hb]; [done..|].
  destruct (foldl ref_step (1, 0)%N data). cbn in *. change (2 ^ 32)%N with 4294967296%N. lia.
Qed.

(** [stored_zlib] is a zlib stream of its data, whatever follows it. *)
Lemma inflate_stored_zlib data k : inflate (stored_zlib data ++ k) = Some (data, k).
Proof.
  destruct (chunks_spec 65535 data ltac:(done)) as [Hc Hl]. unfold stored_zlib.
  set (body := if bool_decide (chunks 65535 data = []) then _ else _).
  assert (Hbody : forall rest fuel, length body <= fuel -> inflate_stored fuel (body ++ rest) = Some (data, rest)).
  { intros rest fuel Hf. unfold body in *. case_bool_decide as E.
    - rewrite E in Hc. cbn in Hc. subst data. destruct fuel as [|fuel]; [cbn in Hf; lia|].
      exact (inflate_block fuel 1 [] rest ltac:(done) ltac:(done)).
    - rewrite inflate_stored_blocks; [by rewrite Hc|done..|]. pose proof (stored_blocks_length (chunks 65535 data)). lia. }
  rewrite <- !app_assoc. cbn [app inflate]. rewrite Hbody by (rewrite !length_app; lia). cbn [mbind option_bind].
  rewrite (get_range_app_l_len _ _ 4), (slice_app_rest_len _ _ 4) by apply nlen_to_be_bytes. cbn [mbind option_bind].
  by rewrite from_to_be_bytes, adler_runs_spec, N.mod_small, N.eqb_refl by (apply adler32_bound).
Qed.

(** ** An entry reads back *)
Lemma size_bytes_cont fuel byte size : (byte < 128)%N ->
  size_bytes (S fuel) byte size
  = if (size =? 0)%N then [byte_of byte] else byte_of (byte + 128) :: size_bytes fuel (size mod 128) (size / 128).
Proof.
  intros H. cbn [size_bytes]. destruct (size =? 0)%N; [done|]. f_equal.
  - rewrite N.lor_comm. change 128%N with (1 * 2 ^ 7)%N at 1. rewrite lor_disjoint_add by done. by rewrite N.add_comm.
  - f_equal; [by apply (N.land_ones _ 7)|]. by rewrite N.shiftr_div_pow2.
Qed.
Lemma read_size_bytes fuel byte size k :
  (byte < 128)%N -> (size < 128 ^ N.of_nat fuel)%N ->
  read_size (size_bytes (S fuel) byte size ++ k) = Some (byte + 128 * size, k)%N.
Proof.
  revert byte size; induction fuel as [|fuel IH]; intros byte size Hb Hs; rewrite size_bytes_cont by done.
  - cbn in Hs. assert (size = 0)%N as -> by lia. cbn [N.eqb app read_size].
    rewrite to_N_byte_of, (N.mod_small byte 256) by lia. apply N.ltb_lt in Hb as Hlt. rewrite Hlt, N.mod_small by done.
    by rewrite N.mul_0_r, N.add_0_r.
  - destruct (N.eqb_spec size 0) as [->|Hz].
    + cbn [app read_size].
      rewrite to_N_byte_of, (N.mod_small byte 256) by lia. apply N.ltb_lt in Hb as Hlt. rewrite Hlt, N.mod_small by done.
      by rewrite N.mul_0_r, N.add_0_r.
    + cbn [app]. change (byte_of (byte + 128) :: ?l ++ k) with ((byte_of (byte + 128) :: l) ++ k).
      cbn [app read_size]. rewrite to_N_byte_of, (N.mod_small (byte + 128) 256) by lia.
      replace (byte + 128 <? 128)%N with false by (symmetry; apply N.ltb_ge; lia).
      rewrite IH; [|by apply N.mod_lt|].
      * cbn [mbind option_bind]. replace ((byte + 128) mod 128)%N with byte.
        { do 2 f_equal. pose proof (N.div_mod size 128 ltac:(done)). lia. }
        rewrite <- (N.mul_1_l 128) at 1. rewrite N.Div0.mod_add. by rewrite N.mod_small.
      * apply N.Div0.div_lt_upper_bound. by rewrite Nat2N.inj_succ, N.pow_succ_r' in Hs.
Qed.

Lemma mod_16_low hi lo : (lo < 16)%N -> ((hi * 16 + lo) mod 16 = lo)%N.
Proof. intros. by rewrite N.add_comm, N.Div0.mod_add, N.mod_small. Qed.
Lemma div_16_high hi lo : (lo < 16)%N -> ((hi * 16 + lo) / 16 mod 8 = hi mod 8)%N.
Proof. intros. by rewrite N.div_add_l, (N.div_small lo), N.add_0_r. Qed.

Lemma read_entry_spec data k :
  (nlen data < 2 ^ 64)%N -> read_entry (entry_header (nlen data) ++ stored_zlib data ++ k) = Some (OBJ_TAG, data, k).
Proof.
  intros Hlen. unfold entry_header, OBJ_TAG. set (size := nlen data) in *.
  pose proof (N.mod_lt size 16 ltac:(done)) as Hlow.
  assert (Hb : N.lor (N.shiftl 4 4) (N.land size 15) = (64 + size mod 16)%N).
  { change 15%N with (N.ones 4). rewrite N.land_ones. change (2 ^ 4)%N with 16%N. by rewrite lor_nibbles. }
  rewrite Hb, N.shiftr_div_pow2. change (2 ^ 4)%N with 16%N.
  pose proof (N.div_mod size 16 ltac:(done)) as Hdm.
  rewrite size_bytes_cont by lia. destruct (N.eqb_spec (size / 16) 0) as [Hz|Hz].
  - cbn [app read_entry]. rewrite to_N_byte_of, (N.mod_small (64 + _)) by lia.
    replace (64 + size mod 16 <? 128)%N with true by (symmetry; apply N.ltb_lt; lia).
    rewrite (mod_16_low 4), (div_16_high 4) by done.
    replace (size mod 16)%N with size by lia.
    cbn [mbind option_bind]. rewrite inflate_stored_zlib. cbn [mbind option_bind]. fold size. by rewrite N.eqb_refl.
  - rewrite <- app_comm_cons. cbn [read_entry]. rewrite to_N_byte_of, (N.mod_small (64 + _ + _)) by lia.
    replace (64 + size mod 16 + 128 <? 128)%N with false by (symmetry; apply N.ltb_ge; lia).
    replace (64 + size mod 16 + 128)%N with (12 * 16 + size mod 16)%N by lia.
    rewrite (mod_16_low 12), (div_16_high 12) by done.
    rewrite read_size_bytes; [|by apply N.mod_lt|].
    + cbn [mbind option_bind]. rewrite inflate_stored_zlib. cbn [mbind option_bind].
      replace (size mod 16 + 16 * ((size / 16) mod 128 + 128 * (size / 16 / 128)))%N with size
        by (pose proof (N.div_mod (size / 16) 128 ltac:(done)); lia).
      fold size. by rewrite N.eqb_refl.
    + apply N.Div0.div_lt_upper_bound, N.Div0.div_lt_upper_bound.
      change (128 ^ N.of_nat 8)%N with 72057594037927936%N. change (2 ^ 64)%N with 18446744073709551616%N in Hlen. lia.
Qed.

(** ** Arrays of fixed-width items in a file *)
Lemma get_range_mid {A} (l x k : list A) : get_range (l ++ x ++ k) (nlen l) (nlen l + nlen x) = Some x.
Proof.
  apply get_range_Some. rewrite !nlen_app. split_and!; [lia|lia|].
  rewrite slice_app_r, N.sub_diag by lia. replace (nlen l + nlen x - nlen l)%N with (nlen x) by lia.
  by rewrite slice_app_l, slice_all by lia.
Qed.
Lemma nlen_concat {A} (ls : list (list A)) k : Forall (fun b => nlen b = k) ls -> nlen (concat ls) = (nlen ls * k)%N.
Proof. induction 1 as [|b ls Hb _ IH]; cbn [concat]; [done|]. rewrite nlen_app, nlen_cons, Hb, IH. lia. Qed.
Lemma get_range_concat {A} (l k : list A) (ls : list (list A)) w i x :
  Forall (fun b => nlen b = w) ls -> nget ls i = Some x ->
  get_range (l ++ concat ls ++ k) (nlen l + i * w) (nlen l + i * w + w) = Some x.
Proof.
  intros Hls Hi. unfold nget in Hi. pose proof (list_elem_of_split_length _ _ _ Hi) as (l1 & l2 & -> & Hlen).
  apply Forall_app in Hls as [H1 H2]. apply Forall_cons in H2 as [Hx _]. rewrite concat_app. cbn [concat].
  replace (l ++ (concat l1 ++ x ++ concat l2) ++ k) with ((l ++ concat l1) ++ x ++ concat l2 ++ k) by (by rewrite <- !app_assoc).
  pose proof (get_range_mid (l ++ concat l1) x (concat l2 ++ k)) as H.
  rewrite nlen_app, (nlen_concat _ _ H1), Hx in H. unfold nlen in H. rewrite <- Hlen, N2Nat.id in H. exact H.
Qed.
Lemma get_range_slice {A} (l : list A) lo hi x : get_range l lo hi = Some x -> slice l lo hi = x.
Proof. by intros (_ & _ & ->)%get_range_Some. Qed.

Lemma chunks_exact_concat size (ls : list bytes) :
  Forall (fun b => length b = size) ls -> chunks_exact size (length ls) (concat ls) = ls.
Proof.
  induction 1 as [|b ls Hb _ IH]; [done|]. cbn [length chunks_exact concat]. rewrite length_app, Hb.
  replace (size <=? size + length (concat ls)) with true by (symmetry; apply Nat.leb_le; lia).
  rewrite take_app_length', drop_app_length' by done. by rewrite IH.
Qed.

(** ** The pack's entries *)
Section pack_thms.
Context (sha1 : bytes -> bytes) (crc32 : bytes -> N).
Context (Hsha1 : forall b, length (sha1 b) = 20).

Definition entry (o : bytes * bytes) : bytes := entry_header (nlen o.2) ++ stored_zlib o.2.
Lemma nlen_stored_blocks blocks : (nlen (concat blocks) <= nlen (stored_blocks blocks))%N.
Proof.
  induction blocks as [|b bs IH]; [done|]. cbn [concat stored_blocks]. rewrite nlen_cons, !nlen_app. lia.
Qed.
Lemma nlen_entry o : (nlen o.2 <= nlen (entry o))%N.
Proof.
  destruct (chunks_spec 65535 o.2 ltac:(done)) as [Hc _].
  unfold entry, stored_zlib. rewrite !nlen_app. case_bool_decide as E.
  - rewrite E in Hc. cbn in Hc. rewrite <- Hc, nlen_nil. lia.
  - pose proof (nlen_stored_blocks (chunks 65535 o.2)). rewrite Hc in *. lia.
Qed.
Fixpoint entries_from (at_ : N) (objects : list (bytes * bytes)) : list (N * N) :=
  match objects with
  | [] => []
  | o :: objects => (at_, crc32 (entry o)) :: entries_from (at_ + nlen (entry o)) objects
  end.
Lemma pack_steps objects out entries :
  foldl (pack_step crc32) (out, entries) objects
  = (out ++ concat (map entry objects), entries ++ entries_from (nlen out) objects).
Proof.
  revert out entries; induction objects as [|o objects IH]; intros out entries.
  - cbn. by rewrite !app_nil_r.
  - cbn [foldl map concat entries_from]. unfold pack_step at 2. fold (entry o). rewrite IH, nlen_app, <- !app_assoc. done.
Qed.
Lemma entries_from_length at_ objects : length (entries_from at_ objects) = length objects.
Proof. revert at_; induction objects as [|o objects IH]; intros at_; cbn; [done|by rewrite IH]. Qed.
Lemma entries_from_lookup at_ objects i o :
  objects !! i = Some o ->
  exists pre post, map entry objects = pre ++ entry o :: post /\
    entries_from at_ objects !! i = Some (at_ + nlen (concat pre), crc32 (entry o))%N.
Proof.
  revert at_ i; induction objects as [|o' objects IH]; intros at_ [|i]; [done..| |].
  - intros [= ->]. exists [], (map entry objects). cbn [concat nlen length]. by rewrite N.add_0_r.
  - intros Hi. destruct (IH (at_ + nlen (entry o'))%N i Hi) as (pre & post & Hm & He).
    exists (entry o' :: pre), post. cbn [map]. rewrite Hm. split; [done|].
    change (entries_from at_ (o' :: objects) !! S i) with (entries_from (at_ + nlen (entry o'))%N objects !! i).
    rewrite He. cbn [concat]. rewrite nlen_app. do 2 f_equal. lia.
Qed.

(** ** The fanout table *)
Definition first_byte (o : bytes * bytes) : nat := N.to_nat (Byte.to_N (default Byte.x00 (head o.1))).
Definition upto (k : nat) (objects : list (bytes * bytes)) : N :=
  nlen (List.filter (fun o => first_byte o <=? k) objects).

Lemma nsum_alter (f : list N) j k :
  j < length f -> nsum (take (S k) (alter (fun n => n + 1)%N j f)) = (nsum (take (S k) f) + if (j <=? k)%nat then 1 else 0)%N.
Proof.
  revert j k; induction f as [|x f IH]; intros [|j] k Hj; cbn [length] in Hj; try lia.
  - unfold nsum. change (alter (fun n => n + 1)%N 0 (x :: f)) with ((x + 1)%N :: f). change (0 <=? k) with true. cbn [take foldr]. lia.
  - change (alter (fun n => n + 1)%N (S j) (x :: f)) with (x :: alter (fun n => n + 1)%N j f).
    destruct k as [|k]; [change (S j <=? 0) with false; unfold nsum; cbn [take foldr]; rewrite !take_0; lia|]. cbn [take]. unfold nsum in *. cbn [foldr]. rewrite IH by lia.
    change (S j <=? S k) with (j <=? k). lia.
Qed.
Lemma fanout_spec objects : forall f, length f = 256 ->
  length (foldl count_first f objects) = 256 /\
  forall k, nsum (take (S k) (foldl count_first f objects)) = (nsum (take (S k) f) + upto k objects)%N.
Proof.
  induction objects as [|o objects IH]; intros f Hf; [split; [done|intros k; unfold upto; cbn [foldl List.filter]; rewrite nlen_nil; lia]|].
  cbn [foldl]. destruct (IH (count_first f o)) as [Hl Hk]; [unfold count_first; by rewrite length_alter|].
  split; [done|]. intros k. rewrite Hk. unfold count_first, upto. fold (first_byte o). cbn [List.filter].
  rewrite nsum_alter by (rewrite Hf; unfold first_byte; pose proof (to_N_bound (default Byte.x00 (head o.1))); lia).
  destruct (first_byte o <=? k); rewrite ?nlen_cons; lia.
Qed.
Lemma running_totals_lookup total slots k x :
  running_totals total slots !! k = Some x -> x = (total + nsum (take (S k) slots))%N.
Proof.
  revert total k; induction slots as [|s slots IH]; intros total [|k]; cbn [running_totals]; try done.
  - intros [= <-]. unfold nsum. cbn [take foldr]. rewrite take_0. cbn [foldr]. lia.
  - intros H%IH. rewrite H. unfold nsum. cbn [take foldr]. lia.
Qed.
Lemma running_totals_length total slots : length (running_totals total slots) = length slots.
Proof. revert total; induction slots as [|s slots IH]; intros total; cbn; [done|by rewrite IH]. Qed.
Lemma nsum_repeat_0 n k : nsum (take k (repeat 0%N n)) = 0%N.
Proof. revert k; induction n as [|n IH]; intros [|k]; cbn; try done. apply IH. Qed.
Lemma upto_le k objects : (upto k objects <= nlen objects)%N.
Proof. unfold upto, nlen. pose proof (List.filter_length_le (fun o => first_byte o <=? k) objects). lia. Qed.
Lemma upto_all objects : upto 255 objects = nlen objects.
Proof.
  unfold upto. f_equal. induction objects as [|o objects IH]; [done|]. cbn [List.filter].
  replace (first_byte o <=? 255) with true; [by rewrite IH|]. symmetry. apply Nat.leb_le. unfold first_byte.
  pose proof (to_N_bound (default Byte.x00 (head o.1))). lia.
Qed.

(** ** The offsets *)
Definition offset_ok (large : list N) (offset small : N) : Prop :=
  (small = offset /\ offset < 2 ^ 31)%N \/
  exists j, (small = 2 ^ 31 + j /\ j < 2 ^ 31)%N /\ nget large j = Some offset.
Lemma offset_ok_app large more offset small : offset_ok large offset small -> offset_ok (large ++ more) offset small.
Proof.
  intros [?|(j & Hj & Hl)]; [by left|right]. exists j. split; [done|]. unfold nget in *. by apply lookup_app_l_Some.
Qed.
Lemma offsets_spec entries small0 large0 small large :
  try_fold offset_step (small0, large0) entries = Ok (small, large) ->
  (nlen large0 + nlen entries <= 2 ^ 31)%N ->
  exists new more, small = small0 ++ new /\ large = large0 ++ more /\
    Forall2 (fun e s => offset_ok large e.1 s) entries new.
Proof.
  revert small0 large0; induction entries as [|[o c] entries IH]; intros small0 large0; cbn [try_fold].
  - intros [= <- <-] _. exists [], []. rewrite !app_nil_r. split_and!; [done..|constructor].
  - unfold offset_step at 1. rewrite nlen_cons. destruct (N.ltb_spec o 2147483648) as [Ho|Ho]; cbn [rbind]; intros H Hlen.
    + apply IH in H as (new & more & -> & -> & Hf); [|lia]. exists (o :: new), more. rewrite <- app_assoc.
      split_and!; [done..|]. constructor; [|done]. by left.
    + destruct (try_from u32_max (nlen large0)) as [j|] eqn:E; [|done]. apply try_from_Some in E as [-> _].
      cbn [context rbind] in H. apply IH in H as (new & more & -> & -> & Hf); [|rewrite nlen_app, nlen_cons, nlen_nil; lia].
      exists (N.lor 2147483648 (nlen large0) :: new), ([o] ++ more). rewrite <- !app_assoc in *. split_and!; [done..|].
      constructor; [|done]. right. exists (nlen large0). split.
      * split; [|lia]. change 2147483648%N with (1 * 2 ^ 31)%N. rewrite lor_disjoint_add by lia. lia.
      * unfold nget, nlen. rewrite Nat2N.id. apply list_lookup_middle. done.
Qed.

(** The top bit marks a large offset. *)
Lemma land_low n : (n < 2 ^ 31)%N -> (N.land n 2147483648 =? 0)%N = true.
Proof.
  intros H. apply N.eqb_eq. change 2147483648%N with (1 * 2 ^ 31)%N. apply N.bits_inj_0. intros i. rewrite N.land_spec.
  destruct (N.lt_ge_cases i 31) as [Hi|Hi].
  - by rewrite N.mul_pow2_bits_low, andb_false_r.
  - rewrite <- (N.mod_small n (2 ^ 31)) by done. by rewrite N.mod_pow2_bits_high.
Qed.
Lemma land_high n : (n < 2 ^ 31)%N -> (N.land (2 ^ 31 + n) 2147483648 =? 0)%N = false.
Proof.
  intros H. apply N.eqb_neq. intros E. apply (f_equal (fun x => N.testbit x 31)) in E. rewrite N.land_spec in E.
  change (2 ^ 31 + n)%N with (1 * 2 ^ 31 + n)%N in E. rewrite <- lor_disjoint_add, N.lor_spec in E by done. done.
Qed.
Lemma land_low_bits n : (n < 2 ^ 31)%N -> N.land (2 ^ 31 + n) 2147483647 = n.
Proof.
  intros H. change 2147483647%N with (N.ones 31). rewrite N.land_ones, N.add_comm.
  change (n + 2 ^ 31)%N with (n + 1 * 2 ^ 31)%N. by rewrite N.Div0.mod_add, N.mod_small.
Qed.

(** ** The idx, read by [pack.rs] *)
Definition idx_file (totals : list N) (ids : list bytes) (crcs small large : list N) (trailer : bytes) : bytes :=
  idx_magic ++ concat (map (to_be_bytes 4) totals) ++ concat ids ++ concat (map (to_be_bytes 4) crcs)
  ++ concat (map (to_be_bytes 4) small) ++ concat (map (to_be_bytes 8) large) ++ trailer.

Lemma Forall_be_bytes w k l : w = N.of_nat k -> Forall (fun b => nlen b = w) (map (to_be_bytes k) l).
Proof. intros ->. induction l; cbn; constructor; [apply nlen_to_be_bytes|done]. Qed.
Lemma from_be_small k n : (n < 256 ^ N.of_nat k)%N -> from_be_bytes (to_be_bytes k n) = n.
Proof. intros. by rewrite from_to_be_bytes, N.mod_small. Qed.

Section idx.
Context (totals : list N) (ids : list bytes) (crcs small large : list N) (trailer : bytes) (n : N).
Context (Htotals : length totals = 256) (Hids : Forall (fun b => length b = 20) ids).
Context (Hnids : nlen ids = n) (Hncrcs : nlen crcs = n) (Hnsmall : nlen small = n).
Let idx := idx_file totals ids crcs small large trailer.

Lemma idx_fanout k x :
  totals !! k = Some x -> (x < 2 ^ 32)%N -> from_be_bytes (slice idx (8 + N.of_nat k * 4) (8 + N.of_nat k * 4 + 4)) = x.
Proof.
  intros Hk Hx. erewrite get_range_slice; [apply (from_be_small 4); exact Hx|].
  unfold idx, idx_file. refine (get_range_concat idx_magic _ (map (to_be_bytes 4) totals) 4 (N.of_nat k) _ _ _).
  - by apply Forall_be_bytes.
  - unfold nget. rewrite Nat2N.id, list_lookup_fmap, Hk. done.
Qed.
Lemma idx_reassoc1 : idx = (idx_magic ++ concat (map (to_be_bytes 4) totals)) ++ concat ids
  ++ (concat (map (to_be_bytes 4) crcs) ++ concat (map (to_be_bytes 4) small) ++ concat (map (to_be_bytes 8) large) ++ trailer).
Proof. unfold idx, idx_file. by rewrite <- !app_assoc. Qed.
Lemma idx_head_len : nlen (idx_magic ++ concat (map (to_be_bytes 4) totals)) = 1032%N.
Proof.
  rewrite nlen_app, (nlen_concat _ 4) by (by apply Forall_be_bytes). rewrite nlen_map. unfold nlen. by rewrite Htotals.
Qed.
Lemma Hids_nlen : Forall (fun b => nlen b = 20%N) ids.
Proof. eapply Forall_impl; [exact Hids|]. intros b Hb. unfold nlen. by rewrite Hb. Qed.
Lemma ids_len : nlen (concat ids) = (n * 20)%N.
Proof. rewrite (nlen_concat _ 20); [by rewrite Hnids|apply Hids_nlen]. Qed.

Lemma idx_ids : totals !! 255 = Some n -> (n < 2 ^ 32)%N -> idx_object_ids idx = Ok (map hex_encode ids).
Proof.
  intros Hlast Hn. unfold idx_object_ids, HEADER, FANOUT.
  pose proof (idx_fanout 255 n Hlast Hn) as Hcount. change (8 + N.of_nat 255 * 4)%N with 1028%N in Hcount. change (1028 + 4)%N with 1032%N in Hcount.
  change (8 + 1024)%N with 1032%N. change (1032 - 4)%N with 1028%N.
  replace (slice idx 0 8) with idx_magic by (unfold idx, idx_file; by rewrite slice_app_l by done).
  replace (1032 <=? nlen idx)%N with true.
  2:{ symmetry. apply N.leb_le. rewrite idx_reassoc1, !nlen_app. rewrite <- nlen_app, idx_head_len. lia. }
  rewrite bool_decide_eq_true_2 by done. cbn [andb]. rewrite Hcount.
  replace (get_range idx 1032 (1032 + n * 20)) with (Some (concat ids)).
  2:{ symmetry. rewrite idx_reassoc1, <- idx_head_len, <- ids_len. apply get_range_mid. }
  cbn [context rbind]. pose proof ids_len as Hl. unfold nlen in Hl, Hnids.
  replace (length (concat ids)) with (length ids * 20) by lia. rewrite Nat.div_mul by done.
  by rewrite chunks_exact_concat.
Qed.

Lemma idx_offsets_at : exists pre rest, idx = pre ++ concat (map (to_be_bytes 4) small) ++ rest /\
  nlen pre = (8 + 256 * 4 + n * (20 + 4))%N /\ rest = concat (map (to_be_bytes 8) large) ++ trailer.
Proof.
  exists ((idx_magic ++ concat (map (to_be_bytes 4) totals)) ++ concat ids ++ concat (map (to_be_bytes 4) crcs)).
  eexists. split_and!; [|clear idx|done].
  - unfold idx, idx_file. by rewrite <- !app_assoc.
  - rewrite nlen_app, idx_head_len, nlen_app, ids_len, (nlen_concat (map (to_be_bytes 4) crcs) 4) by (by apply Forall_be_bytes).
    rewrite nlen_map, Hncrcs. lia.
Qed.

Lemma idx_offset_read i s offset :
  nget small i = Some s -> offset_ok large offset s -> (offset < 2 ^ 64)%N -> idx_offset idx n i = Ok offset.
Proof.
  intros Hi Hok Hoff. destruct idx_offsets_at as (pre & rest & Hidx & Hpre & Hrest). unfold idx_offset.
  rewrite <- Hpre. rewrite Hidx at 1.
  assert (Hs : nget (map (to_be_bytes 4) small) i = Some (to_be_bytes 4 s)) by (unfold nget in *; by rewrite list_lookup_fmap, Hi).
  rewrite (get_range_concat _ _ _ _ _ _ (Forall_be_bytes 4 4 small eq_refl) Hs). cbn [context rbind].
  destruct Hok as [[-> Hlt]|(j & [-> Hj] & Hjl)].
  - rewrite from_be_small by (change (256 ^ N.of_nat 4)%N with (2 ^ 32)%N; lia).
    rewrite land_low by done. done.
  - rewrite from_be_small by (change (256 ^ N.of_nat 4)%N with (2 ^ 32)%N; lia).
    rewrite land_high, land_low_bits by done. cbn [N.eqb].
    assert (Hl : nget (map (to_be_bytes 8) large) j = Some (to_be_bytes 8 offset))
      by (unfold nget in *; by rewrite list_lookup_fmap, Hjl).
    rewrite Hidx, Hrest, app_assoc.
    replace (nlen pre + n * 4)%N with (nlen (pre ++ concat (map (to_be_bytes 4) small)))
      by (rewrite nlen_app, (nlen_concat _ 4) by (by apply Forall_be_bytes); by rewrite nlen_map, Hnsmall).
    rewrite (get_range_concat _ _ _ _ _ _ (Forall_be_bytes 8 8 large eq_refl) Hl). cbn [context rbind].
    by rewrite from_be_small by (change (256 ^ N.of_nat 8)%N with (2 ^ 64)%N; done).
Qed.
End idx.

Lemma pack_layout objects p idx checksum :
  pack sha1 crc32 objects = Ok (p, idx, checksum) ->
  exists body small large, body = (ascii_bytes "PACK" ++ to_be_bytes 4 2 ++ to_be_bytes 4 (nlen objects)) ++ concat (map entry objects) /\
    p = body ++ sha1 body /\ checksum = hex_encode (sha1 body) /\ (nlen objects <= u32_max)%N /\
    try_fold offset_step ([], []) (entries_from 12 objects) = Ok (small, large) /\
    idx = idx_file (running_totals 0 (foldl count_first (repeat 0%N 256) objects)) (map fst objects)
            (map snd (entries_from 12 objects)) small large
            (sha1 body ++ sha1 (idx_file (running_totals 0 (foldl count_first (repeat 0%N 256) objects)) (map fst objects)
              (map snd (entries_from 12 objects)) small large (sha1 body))).
Proof.
  unfold pack. intros H. apply rbind_ok in H as (count & [-> Hcount]%context_ok%try_from_Some & H).
  rewrite pack_steps in H. cbn [app] in H. set (head_ := ascii_bytes "PACK" ++ _) in *.
  assert (Hh : nlen head_ = 12%N) by done. rewrite Hh in H.
  apply rbind_ok in H as ([small large] & Hs & [= <- <- <-]).
  eexists _, small, large. split_and!; [done..|]. unfold idx_file. rewrite !(map_map snd (to_be_bytes 4)). rewrite <- !app_assoc. done.
Qed.

Lemma pack_entry_at objects i o body p :
  body = (ascii_bytes "PACK" ++ to_be_bytes 4 2 ++ to_be_bytes 4 (nlen objects)) ++ concat (map entry objects) ->
  p = body ++ sha1 body -> (nlen p < 2 ^ 64)%N -> objects !! i = Some o ->
  exists offset rest, entries_from 12 objects !! i = Some (offset, crc32 (entry o)) /\ (offset < nlen p)%N /\
    read_entry (slice p offset (nlen p)) = Some (OBJ_TAG, o.2, rest).
Proof.
  intros Hbody Hpb Hp Hi. destruct (entries_from_lookup 12 objects i _ Hi) as (pre & post & Hm & He).
  set (h := ascii_bytes "PACK" ++ to_be_bytes 4 2 ++ to_be_bytes 4 (nlen objects)) in *.
  assert (Hpl : p = (h ++ concat pre) ++ entry o ++ concat post ++ sha1 body).
  { rewrite Hpb at 1. rewrite Hbody at 1. rewrite Hm, concat_app. cbn [concat]. by rewrite <- !app_assoc. }
  assert (Hpre : nlen (h ++ concat pre) = (12 + nlen (concat pre))%N) by (by rewrite nlen_app).
  pose proof (nlen_entry o) as Hentry. pose proof (f_equal nlen Hpl) as Hplen.
  assert (Hsum : nlen (sha1 body) = 20%N) by (unfold nlen; by rewrite Hsha1).
  rewrite nlen_app, Hpre, !nlen_app, Hsum in Hplen.
  exists (12 + nlen (concat pre))%N, (concat post ++ sha1 body). split_and!; [done|lia|].
  rewrite Hplen. rewrite Hpl at 1. rewrite slice_app_r, Hpre, N.sub_diag by lia.
  replace (12 + nlen (concat pre) + (nlen (entry o) + (nlen (concat post) + 20)) - (12 + nlen (concat pre)))%N
    with (nlen (entry o ++ concat post ++ sha1 body)) by (rewrite !nlen_app, Hsum; lia).
  rewrite slice_all. unfold entry at 1. rewrite <- app_assoc. apply read_entry_spec. lia.
Qed.

(** C37: the pack a clone writes for its tag objects reads back. Its idx lists
    exactly the objects, in order; the fanout slot of a byte counts the ids that
    start with at most that byte; and at the offset the idx gives for an object,
    large or small, the pack holds an entry of kind tag that inflates to the
    object's content. The pack ends with its own checksum, which names the files. *)
Theorem pack_readable objects p idx checksum :
  pack sha1 crc32 objects = Ok (p, idx, checksum) ->
  Forall (fun o => length o.1 = 20) objects -> (nlen objects <= 2 ^ 31)%N -> (nlen p < 2 ^ 64)%N ->
  idx_object_ids idx = Ok (map (fun o => hex_encode o.1) objects) /\
  (forall k, k < 256 -> from_be_bytes (slice idx (8 + N.of_nat k * 4) (8 + N.of_nat k * 4 + 4)) = upto k objects) /\
  (forall i id data, objects !! i = Some (id, data) ->
     exists offset rest, idx_offset idx (nlen objects) (N.of_nat i) = Ok offset /\ (offset < nlen p)%N /\
       read_entry (slice p offset (nlen p)) = Some (OBJ_TAG, data, rest)) /\
  exists body, p = body ++ sha1 body /\ checksum = hex_encode (sha1 body) /\
    slice p 0 12 = ascii_bytes "PACK" ++ to_be_bytes 4 2 ++ to_be_bytes 4 (nlen objects).
Proof.
  intros H Hids Hn Hp. apply pack_layout in H as (body & small & large & Hbody & Hpb & -> & _ & Hs & ->).
  destruct (fanout_spec objects (repeat 0%N 256) (repeat_length _ _)) as [Hfl Hft].
  assert (Htot : forall k, k < 256 ->
    running_totals 0 (foldl count_first (repeat 0%N 256) objects) !! k = Some (upto k objects)).
  { intros k Hk. destruct (lookup_lt_is_Some_2 (running_totals 0 (foldl count_first (repeat 0%N 256) objects)) k) as [x Hx].
    { by rewrite running_totals_length, Hfl. }
    rewrite Hx. apply running_totals_lookup in Hx. by rewrite Hx, Hft, nsum_repeat_0. }
  assert (Htl : length (running_totals 0 (foldl count_first (repeat 0%N 256) objects)) = 256) by (by rewrite running_totals_length).
  assert (Hids' : Forall (fun b => length b = 20) (map fst objects)) by (by apply List.Forall_map).
  assert (Hel : nlen (entries_from 12 objects) = nlen objects) by (unfold nlen; by rewrite entries_from_length).
  apply offsets_spec in Hs as (new & more & Hnew & Hmore & Hoff); [|rewrite Hel, nlen_nil; lia]. cbn [app] in Hnew, Hmore. subst new more.
  assert (Hsl : nlen small = nlen objects) by (rewrite <- Hel; unfold nlen; by rewrite (Forall2_length _ _ _ Hoff)).
  pose proof (upto_le) as Hle. split_and!.
  - rewrite (idx_ids _ _ _ _ _ _ (nlen objects)); [by rewrite map_map|done|done|by rewrite nlen_map|by rewrite nlen_map, Hel|done| |lia].
    rewrite Htot by lia. by rewrite upto_all.
  - intros k Hk. apply idx_fanout; [by apply Htot|]. specialize (Hle k objects). lia.
  - intros i id data Hi. destruct (pack_entry_at _ _ _ _ _ Hbody Hpb Hp Hi) as (offset & rest & He & Hlt & Hread).
    destruct (Forall2_lookup_l _ _ _ _ _ Hoff He) as (s & Hsi & Hok). cbn [fst] in Hok.
    exists offset, rest. split_and!; [|done..].
    apply (idx_offset_read _ _ _ small large) with (s := s); try done; [by rewrite nlen_map|by rewrite nlen_map, Hel| |lia].
    unfold nget. by rewrite Nat2N.id.
  - exists body. split_and!; [done..|]. rewrite Hpb, Hbody, <- app_assoc, slice_app_l by done. done.
Qed.
End pack_thms.

(** ** [packed-refs] reads back *)

(** A line [<id> <name>]; a comment is none. *)
Definition read_ref_line (line : string) : option (string * string) :=
  if starts_with "#" line then None else '(id, name) ← split_once " " line; Some (name, id).
Definition read_packed_refs (text : string) : list (string * string) := omap read_ref_line (split_on newline_char text).

(** What a line needs to read back. *)
Definition ref_ok (r : string * string) : Prop :=
  contains_char newline_char r.1 = false /\ exists id, parse_id r.2 = Ok id.

Lemma hex_no_char c b : nibble c = None -> contains_char c (hex_encode b) = false.
Proof.
  intros Hc. unfold contains_char. induction b as [|x b IH]; [done|]. cbn [hex_encode str_any].
  pose proof (to_N_bound x). rewrite IH, orb_false_r.
  assert (Hd : forall n, (n < 16)%N -> Ascii.eqb c (hex_digit n) = false).
  { intros n Hn%nibble_hex_digit. apply Ascii.eqb_neq. intros ->. congruence. }
  rewrite !Hd; [done|by apply N.mod_lt|by apply N.Div0.div_lt_upper_bound].
Qed.
Lemma id_no_char c s id : nibble c = None -> parse_id s = Ok id -> contains_char c s = false.
Proof. intros Hc [_ <-]%parse_id_ok. by apply hex_no_char. Qed.
Lemma id_not_comment s id t : parse_id s = Ok id -> starts_with "#" (s +:+ t) = false.
Proof.
  intros H. pose proof (id_no_char "#" s id eq_refl H) as Hn. apply parse_id_ok in H as [Hl <-].
  destruct id as [|x id]; [done|]. cbn [hex_encode] in *. generalize dependent (hex_digit (Byte.to_N x / 16)). intros d Hn.
  unfold contains_char in Hn. cbn [str_any] in Hn. apply orb_false_iff in Hn as [Hn _].
  unfold starts_with. cbn [String.append strip_prefix]. by rewrite Hn.
Qed.
Lemma read_packed_refs_spec refs : Forall ref_ok refs -> read_packed_refs (packed_refs refs) = refs.
Proof.
  intros H. unfold read_packed_refs, packed_refs.
  change ("# pack-refs with: sorted " +:+ String "010" "" +:+ ?t) with ("# pack-refs with: sorted " +:+ String newline_char t).
  rewrite split_on_line by done. cbn [omap list_omap read_ref_line]. change (read_ref_line "# pack-refs with: sorted ") with (@None (string * string)).
  induction H as [|[name hex] refs [Hn (id & Hid)] _ IH]; [done|]. cbn [fst snd] in *. cbn [foldr fst snd].
  rewrite !string_app_assoc.
  change (String "010" "" +:+ ?t) with (String newline_char t).
  replace (hex +:+ " " +:+ name +:+ String newline_char (foldr (fun r text => (r.2 +:+ " " +:+ r.1 +:+ String "010" "") +:+ text) "" refs))
    with ((hex +:+ " " +:+ name) +:+ String newline_char (foldr (fun r text => (r.2 +:+ " " +:+ r.1 +:+ String "010" "") +:+ text) "" refs))
    by (by rewrite !string_app_assoc).
  rewrite split_on_line by (rewrite !contains_char_app, Hn, (id_no_char newline_char _ _ eq_refl Hid); done).
  cbn [omap list_omap]. unfold read_ref_line at 1. rewrite (id_not_comment _ _ _ Hid).
  change (" " +:+ name) with (String " " name). rewrite (split_once_app " " hex name) by (eapply id_no_char; [|exact Hid]; done). cbn [mbind option_bind]. f_equal. exact IH.
Qed.

Lemma str_ltb_app p s t : String.ltb (p +:+ s) (p +:+ t) = String.ltb s t.
Proof.
  induction p as [|a p IH]; [done|]. rewrite <- IH. cbn. unfold String.ltb. cbn [String.compare].
  assert (Ascii.compare a a = Eq) as -> by (unfold Ascii.compare; by rewrite N.compare_refl). done.
Qed.

(** ** The clone's files *)
Section write_thms.
Context (sha1 : bytes -> bytes) (crc32 : bytes -> N).

(** Remotes as [branches::decode] gives them. *)
Definition remotes_ok (remotes : list (string * string)) : Prop :=
  StronglySorted (fun x y => String.ltb x y = true) (map fst remotes) /\
  Forall (fun r => validate_checkout_name r.1 = Ok tt /\ exists id, parse_id r.2 = Ok id) remotes.
Definition kept_names_ok (k : Kept) : Prop :=
  StronglySorted (fun x y => String.ltb x y = true) (map kt_name (k_tags k)) /\
  Forall (fun t => validate_tag_name (kt_name t) = Ok tt /\ exists id, parse_id (kt_object t) = Ok id) (k_tags k).

Lemma ref_name_no_newline prefix name id :
  contains_char newline_char prefix = false -> validate_ref_name name = Ok tt -> (exists i, parse_id id = Ok i) ->
  ref_ok (prefix +:+ name, id).
Proof.
  intros Hp (_ & _ & _ & _ & _ & Hc & _)%validate_ref_name_ok Hid. split; [|done]. cbn [fst].
  rewrite contains_char_app, Hp. cbn [orb]. revert Hc. apply str_any_impl. by intros c <-%Ascii.eqb_eq.
Qed.
Lemma StronglySorted_prefix {A} (f : A -> string) p l :
  StronglySorted (fun x y => String.ltb x y = true) (map f l) ->
  StronglySorted (fun x y => String.ltb x y = true) (map (fun x => p +:+ f x) l).
Proof.
  intros H. apply StronglySorted_map in H. apply StronglySorted_map.
  eapply StronglySorted_impl_in; [|exact H]. intros x y _ _. by rewrite str_ltb_app.
Qed.
Lemma StronglySorted_app_lt {A} (R : A -> A -> Prop) l k :
  StronglySorted R l -> StronglySorted R k -> (forall x y, x ∈ l -> y ∈ k -> R x y) -> StronglySorted R (l ++ k).
Proof.
  intros Hl Hk H. induction Hl as [|x l Hl IH Hx]; [done|]. cbn. constructor; [apply IH; set_solver|].
  apply Forall_app. split; [done|]. apply Forall_forall. intros y Hy. apply H; [set_solver|done].
Qed.

Lemma written_refs_spec k remotes :
  kept_names_ok k -> remotes_ok remotes ->
  StronglySorted (fun x y => String.ltb x y = true) (map fst (written_refs k remotes)) /\
  Forall ref_ok (written_refs k remotes).
Proof.
  intros [Hks Hkn] [Hrs Hrn]. unfold written_refs. rewrite map_app, !map_map. cbn [fst]. split.
  - apply StronglySorted_app_lt; [by apply StronglySorted_prefix..|].
    intros x y (r & -> & _)%elem_of_lmap (t & -> & _)%elem_of_lmap. done.
  - apply Forall_app. split; apply List.Forall_map; (eapply Forall_impl; [eassumption|]); intros x [Hv Hid];
      by apply ref_name_no_newline.
Qed.

Lemma filter_sorted {A} (R : A -> A -> Prop) (p : A -> bool) l : StronglySorted R l -> StronglySorted R (List.filter p l).
Proof.
  induction 1 as [|x l Hl IH Hx]; cbn; [constructor|]. destruct (p x); [|done]. constructor; [done|].
  rewrite Forall_forall in Hx. apply Forall_forall. intros y [Hy _]%elem_of_lfilter. by apply Hx.
Qed.
Lemma check_names_ok a kept keep :
  check sha1 a = Ok kept -> (nlen (ta_objects a) <= 2 ^ 32)%N -> kept_names_ok (Kept_retain keep kept).
Proof.
  unfold check. intros H Hlen. apply rbind_ok in H as (tags & Htags%collect_ok & H). inv_ok H.
  assert (Hs : StronglySorted (fun x y => String.leb (kt_name x) (kt_name y) = true)
    (sort_by (fun x y => String.leb (kt_name x) (kt_name y)) tags))
    by apply (sort_by_key_sorted String.leb kt_name str_leb_total str_leb_trans).
  apply (all_pairs_NoDup String.leb kt_name str_leb_total str_leb_trans str_leb_antisym) in E; [|done].
  split; cbn [Kept_retain k_tags].
  - apply strictly_sorted_names; [by apply filter_sorted|by apply NoDup_map_filter].
  - apply Forall_forall. intros k [Hk%elem_of_sort_by _]%elem_of_lfilter.
    destruct (Forall2_in_r _ _ _ k Htags Hk) as (t & _ & Ht).
    apply check_tag_sound in Ht as (_ & _ & Hv & _ & _ & _ & id & _ & Hid & _); eauto.
Qed.

(** [write] leaves a clone's refs complete and readable, or changes nothing.
    [packed-refs] reads back as the remote branches and then the kept tags, sorted
    by name as its header says; the tag objects the clone lacks, and no others, go
    into one pack and idx; files already there stay. It never replaces a
    [packed-refs], and an error leaves every file as it was. *)
Lemma write_spec a kept keep remotes present files files' r :
  check sha1 a = Ok kept -> (nlen (ta_objects a) <= 2 ^ 32)%N -> remotes_ok remotes ->
  write sha1 crc32 (Kept_retain keep kept) remotes present files = (files', r) ->
  let k := Kept_retain keep kept in
  match r with
  | Err _ => files' = files
  | Ok _ =>
      (k_tags k = [] /\ remotes = [] /\ files' = files) \/
      exists objs text before,
        files !! "packed-refs" = None /\ files' = <["packed-refs" := ascii_bytes text]> before /\
        read_packed_refs text = written_refs k remotes /\
        StronglySorted (fun x y => String.ltb x y = true) (map fst (written_refs k remotes)) /\
        Kept_objects k = Some objs /\
        let new := List.filter (fun o => negb (present o.1)) objs in
        (new = [] /\ before = files) \/
        (new <> [] /\ exists p idx checksum, pack sha1 crc32 new = Ok (p, idx, checksum) /\
          before = <["objects/pack/pack-" +:+ checksum +:+ ".idx" := idx]>
                     (<["objects/pack/pack-" +:+ checksum +:+ ".pack" := p]> files))
  end.
Proof.
  intros Hc Hlen Hr H k. pose proof (check_names_ok a kept keep Hc Hlen) as Hk. fold k in Hk, H.
  destruct (written_refs_spec k remotes Hk Hr) as [Hs Hok]. apply read_packed_refs_spec in Hok.
  unfold write in H. destruct (bool_decide (k_tags k = []) && bool_decide (remotes = [])) eqn:Eb.
  { injection H as <- <-. breflect. by left. }
  unfold sbind, get_files, lift, sfail, sret, write_packed_refs, write_file in H. case_bool_decide as Ep.
  { by injection H as <- <-. }
  apply eq_None_not_Some in Ep. destruct (Kept_objects k) as [objs|] eqn:Eo; cbn [context] in H; [|by injection H as <- <-].
  set (new := List.filter _ objs) in *. case_bool_decide as En.
  - injection H as <- <-. right. exists objs, (packed_refs (written_refs k remotes)), files. fold new. split_and!; [done..|by left].
  - destruct (pack sha1 crc32 new) as [[[p idx] checksum]|] eqn:Epk; [|by injection H as <- <-].
    injection H as <- <-. right. exists objs, (packed_refs (written_refs k remotes)). eexists. fold new.
    split_and!; [done..|]. right. split; [done|]. exists p, idx, checksum. done.
Qed.
End write_thms.

(** ** Witnesses *)
Definition example_objects : list (bytes * bytes) :=
  [(TagsExample.inner, TagsExample.inner_data); (TagsExample.outer, TagsExample.outer_data)].

Lemma pack_readable_witness :
  exists p idx checksum offset rest,
    pack TagsExample.sha1 nlen example_objects = Ok (p, idx, checksum) /\
    idx_offset idx 2 1 = Ok offset /\ read_entry (slice p offset (nlen p)) = Some (OBJ_TAG, TagsExample.outer_data, rest).
Proof.
  destruct (pack TagsExample.sha1 nlen example_objects) as [[[p idx] checksum]|] eqn:E; [|exfalso; by vm_compute in E].
  assert (Hp : (nlen p < 2 ^ 64)%N).
  { apply N.ltb_lt. transitivity (match pack TagsExample.sha1 nlen example_objects with
      | Ok (p, _, _) => nlen p <? 2 ^ 64 | Err _ => false end)%N; [by rewrite E|by vm_compute]. }
  destruct (pack_readable TagsExample.sha1 nlen ltac:(done) example_objects p idx checksum E) as (_ & _ & H & _);
    [by repeat constructor|done|exact Hp|].
  destruct (H 1 TagsExample.outer TagsExample.outer_data eq_refl) as (offset & rest & Ho & _ & Hr).
  exists p, idx, checksum, offset, rest. exact (conj eq_refl (conj Ho Hr)).
Defined.

Lemma write_spec_witness :
  exists text (files' : Files), files' !! "packed-refs" = Some (ascii_bytes text) /\
    map fst (read_packed_refs text) = ["refs/remotes/origin/main"; "refs/tags/light"; "refs/tags/v1"; "refs/tags/v2"].
Proof.
  destruct (check TagsExample.sha1 TagsExample.artifact) as [kept|] eqn:E; [|exfalso; by vm_compute in E].
  set (remotes := [("main", hex_encode TagsExample.commit)]).
  destruct (write TagsExample.sha1 nlen (Kept_retain (fun _ => true) kept) remotes (fun _ => false) ∅) as [files' r] eqn:Ew.
  assert (Hr : is_ok r = true /\ map fst (written_refs (Kept_retain (fun _ => true) kept) remotes)
      = ["refs/remotes/origin/main"; "refs/tags/light"; "refs/tags/v1"; "refs/tags/v2"]).
  { vm_compute in E. injection E as <-. split; [|by vm_compute]. apply (f_equal (fun x => is_ok x.2)) in Ew. cbn [snd] in Ew.
    rewrite <- Ew. by vm_compute. }
  destruct Hr as [Hr Hnames].
  assert (Hm : remotes_ok remotes).
  { split; [by repeat constructor|]. repeat constructor. by exists TagsExample.commit. }
  pose proof (write_spec TagsExample.sha1 nlen TagsExample.artifact kept (fun _ => true) remotes (fun _ => false) ∅ files' r
    E ltac:(by vm_compute) Hm Ew) as H.
  destruct r as [u|]; [|done]. destruct H as [(_ & H & _)|(objs & text & before & _ & -> & Ht & _)]; [done|].
  exists text, (<["packed-refs" := ascii_bytes text]> before). split; [apply lookup_insert_eq|]. by rewrite Ht.
Defined.
