(* ===== verification/Refs.v ===== *)
(** Upstream's refs and the mirror's: the [ls-refs] request and answer
    ([rust/src/ls_refs.rs]), the listing the poller reads from it
    ([parse_upstream_refs] of [rust/src/git.rs]), and the mirror's refs with the
    branches artifact built from them ([rust/src/branches.rs]).

    The CAS hash, the protobuf and zstd encodings, the user agent and what [gix]
    lists are parameters. *)

From S2P Require Import Prelude Bytes Validation Tags.

(** ** Text *)
Definition tab : ascii := "009".
Fixpoint str_take (n : nat) (s : string) : string :=
  match n, s with S n, String a s => String a (str_take n s) | _, _ => "" end.
Fixpoint str_drop (n : nat) (s : string) : string :=
  match n, s with S n, String _ s => str_drop n s | O, s => s | _, EmptyString => "" end.
(** [s.get(lo..hi)] of bytes. *)
Definition str_get (s : string) (lo hi : N) : option string :=
  if (lo <=? hi)%N && (hi <=? str_len s)%N then Some (str_take (N.to_nat (hi - lo)) (str_drop (N.to_nat lo) s)) else None.
(** [s.strip_suffix(c)] of one character. *)
Definition strip_suffix_char (c : ascii) (s : string) : option string :=
  match rsplit_once c s with Some (l, EmptyString) => Some l | _ => None end.
(** [s.trim_end_matches(suffix)]; each turn drops one suffix. *)
Fixpoint trim_end_suffix (fuel : nat) (suffix s : string) : string :=
  match fuel with
  | O => s
  | S fuel =>
      if ends_with suffix s then trim_end_suffix fuel suffix (str_take (String.length s - String.length suffix) s) else s
  end.

(** [str::lines]. *)
Fixpoint lines_of (parts : list string) : list string :=
  match parts with
  | [] => []
  | [last] => if bool_decide (last = "") then [] else [last]
  | line :: parts => default line (strip_suffix_char "013" line) :: lines_of parts
  end.
Definition lines (s : string) : list string := lines_of (split_on newline_char s).

(** ** pkt-lines *)

(** [{:04x}]: hex digits, the last ones first, padded to four. *)
Fixpoint hex_rev (fuel : nat) (n : N) : list ascii :=
  match fuel with
  | O => []
  | S fuel => hex_digit (n mod 16) :: (if (n / 16 =? 0)%N then [] else hex_rev fuel (n / 16))
  end.
Definition format_04x (n : N) : string :=
  let digits := hex_rev 16 n in
  String.string_of_list_ascii (repeat "0"%char (4 - length digits) ++ reverse digits).
Definition pkt_line (payload : string) : string := format_04x (str_len payload + 4) +:+ payload.

(** [request_body]: [agent] is the crate's name and version. *)
Fixpoint ref_prefixes (seen : list string) (prefixes : list string) : string :=
  match prefixes with
  | [] => ""
  | prefix :: prefixes =>
      let prefix := trim_end_suffix (String.length prefix) "^{}" prefix in
      if bool_decide (prefix ∈ seen) then ref_prefixes seen prefixes
      else pkt_line ("ref-prefix " +:+ prefix +:+ String newline_char "") +:+ ref_prefixes (seen ++ [prefix]) prefixes
  end.
Definition request_body (agent : string) (prefixes : list string) : string :=
  pkt_line ("command=ls-refs" +:+ String newline_char "")
  +:+ pkt_line ("agent=" +:+ agent +:+ String newline_char "")
  +:+ pkt_line ("object-format=sha1" +:+ String newline_char "")
  +:+ "0001"
  +:+ pkt_line ("peel" +:+ String newline_char "")
  +:+ pkt_line ("symrefs" +:+ String newline_char "")
  +:+ ref_prefixes [] prefixes
  +:+ "0000".

(** [usize::from_str_radix(s, 16)] of a short text: an optional [+], then hex
    digits of either case. *)
Definition hex_value (c : ascii) : option N :=
  match nibble c with
  | Some n => Some n
  | None => if byte_in 65 70 c then Some (N_of_ascii c - 65 + 10)%N else None
  end.
Fixpoint hex_number (acc : N) (s : string) : option N :=
  match s with
  | EmptyString => Some acc
  | String c s => d ← hex_value c; hex_number (acc * 16 + d) s
  end.
Definition from_str_radix_16 (s : string) : option N :=
  match s with
  | EmptyString => None
  | String "+" EmptyString => None
  | String "+" s => hex_number 0 s
  | s => hex_number 0 s
  end.

(** The loop over a line's attributes: the lines so far and the peeled id. *)
Definition attribute_step (name : string) (acc : option (string * option string)) (attribute : string)
    : option (string * option string) :=
  '(out, peeled) ← acc;
  match strip_prefix "symref-target:" attribute with
  | Some target => Some (out +:+ "ref: " +:+ target +:+ String tab (name +:+ String newline_char ""), peeled)
  | None =>
      match strip_prefix "peeled:" attribute with
      | Some oid => if is_ok (validate_object_id oid) then Some (out, Some oid) else None
      | None => Some (out, peeled)
      end
  end.
Definition listing_line (oid name : string) : string := oid +:+ String tab (name +:+ String newline_char "").

(** One pkt-line's lines, and what is left; [None] at the end is the flush. *)
Definition read_pkt (rest : string) : option (option (string * string)) :=
  head ← str_get rest 0 4;
  if negb (str_utf8 head) then None
  else
    len ← from_str_radix_16 head;
    if (len =? 0)%N then if bool_decide (str_drop 4 rest = "") then Some None else None
    else
      line ← str_get rest 4 len;
      if negb (str_utf8 line) then None else Some (Some (line, str_drop (N.to_nat len) rest)).
Definition pkt_lines (line out : string) : option string :=
  match split_on " " (trim_end_matches newline_char line) with
  | oid :: name :: attributes =>
      if negb (is_ok (validate_object_id oid)) || bool_decide (name = "") then None
      else
        '(out, peeled) ← foldl (attribute_step name) (Some (out, None)) attributes;
        let out := out +:+ listing_line oid name in
        Some (match peeled with Some peeled => out +:+ listing_line peeled (name +:+ "^{}") | None => out end)
  | _ => None
  end.

(** The loop over the answer; each turn takes four bytes or more off it. *)
Fixpoint ls_remote_from (fuel : nat) (rest out : string) : option string :=
  match fuel with
  | O => None
  | S fuel =>
      pkt ← read_pkt rest;
      match pkt with
      | None => Some out
      | Some (line, rest) => out ← pkt_lines line out; ls_remote_from fuel rest out
      end
  end.
Definition ls_remote_lines (answer : string) : option string := ls_remote_from (S (String.length answer)) answer "".

(** ** Upstream's refs *)

(** [Option::filter]. *)
Definition option_filter {A} (p : A -> bool) (o : option A) : option A :=
  match o with Some x => if p x then Some x else None | None => None end.

Record UpstreamRefs := {
  ur_default_branch : option string;
  ur_branches : list (string * string);
  ur_tags : list (string * string);
}.

(** The loop over the lines: [HEAD]'s branch, the branches and the tags. *)
Definition upstream_line (acc : option string * list (string * string) * list (string * string)) (line : string)
    : option string * list (string * string) * list (string * string) :=
  let '(head, branches, tags) := acc in
  match split_once tab line with
  | None => acc
  | Some (id, name) =>
      match strip_prefix "ref: " id with
      | Some target => if bool_decide (name = "HEAD") then (strip_prefix "refs/heads/" target, branches, tags) else acc
      | None =>
          if negb (is_ok (validate_object_id id)) then acc
          else
            match strip_prefix "refs/heads/" name with
            | Some branch =>
                if is_ok (validate_checkout_name branch) then (head, branches ++ [(branch, id)], tags) else acc
            | None =>
                match strip_prefix "refs/tags/" name with
                | Some tag =>
                    if negb (ends_with "^{}" tag) && is_ok (validate_tag_name tag) then (head, branches, tags ++ [(tag, id)])
                    else acc
                | None => acc
                end
            end
      end
  end.
Definition parse_upstream_refs (stdout : string) : UpstreamRefs :=
  let text := if str_utf8 stdout then stdout else "" in
  let '(head, branches, tags) := foldl upstream_line (None, [], []) (lines text) in
  let branches := sort_by pair_le branches in
  {| ur_default_branch := option_filter (fun head => bool_decide (head ∈ map fst branches)) head;
     ur_branches := branches; ur_tags := sort_by pair_le tags |}.

(** ** The mirror's refs *)
Record MirrorRefs := {
  mr_default_branch : option string;
  mr_branches : list (string * string);
  mr_tags : list (string * string);
  mr_tags_hash : string;
}.
Record Branch := { b_name : string; b_commit : string }.
Record BranchesArtifact := { ba_default_branch : string; ba_base : string; ba_branches : list Branch }.

Section refs.
Context (cas_hash : string -> string).

Definition refs_text (default_branch : option string) (branches tags : list (string * string)) : string :=
  "HEAD " +:+ default "" default_branch +:+ String newline_char ""
  +:+ foldr (fun b text => b.2 +:+ " refs/heads/" +:+ b.1 +:+ String newline_char text) "" branches
  +:+ foldr (fun t text => t.2 +:+ " refs/tags/" +:+ t.1 +:+ String newline_char text) "" tags.
Definition refs_hash (default_branch : option string) (branches tags : list (string * string)) : string :=
  cas_hash (refs_text default_branch branches tags).
Definition UpstreamRefs_hash (u : UpstreamRefs) : string :=
  refs_hash (ur_default_branch u) (ur_branches u) (ur_tags u).
Definition MirrorRefs_hash (m : MirrorRefs) : string :=
  refs_hash (mr_default_branch m) (mr_branches m) (mr_tags m).

(** [MirrorRefs::read]: the mirror's references by their full name, each with
    the id it names unless it is symbolic, and the reference [HEAD] names.
    [local_branches] and [tags] of [gix] are those below their prefix, and
    [shorten] drops it. *)
Definition below (prefix : string) (references : list (string * option string)) : list (string * option string) :=
  omap (fun r => name ← strip_prefix prefix r.1; Some (name, r.2)) references.
Definition list_branch (reference : string * option string) : option (string * string) :=
  match reference with
  | (_, None) => None
  | (name, Some id) => if is_ok (validate_checkout_name name) then Some (name, id) else None
  end.
Definition MirrorRefs_read (head : option string) (references : list (string * option string)) : MirrorRefs :=
  let '(tags, tags_hash) := listing cas_hash (below "refs/tags/" references) in
  let head := head ≫= strip_prefix "refs/heads/" in
  let branches := sort_by pair_le (omap list_branch (below "refs/heads/" references)) in
  {| mr_default_branch := option_filter (fun head => bool_decide (head ∈ map fst branches)) head;
     mr_branches := branches; mr_tags := tags; mr_tags_hash := tags_hash |}.

(** [branches.iter().find(|(name, _)| name == default)]. *)
Fixpoint find_branch (name : string) (branches : list (string * string)) : option string :=
  match branches with
  | [] => None
  | (n, id) :: branches => if bool_decide (n = name) then Some id else find_branch name branches
  end.
Definition MirrorRefs_base (m : MirrorRefs) : option string :=
  default_branch ← mr_default_branch m;
  find_branch default_branch (mr_branches m).

Definition side_tips (m : MirrorRefs) : list string :=
  dedup_by String.eqb
    (sort_by String.leb
       (map snd (List.filter (fun b => negb (bool_decide (Some b.1 = mr_default_branch m))) (mr_branches m) ++ mr_tags m))).
Definition side_tips_hash (m : MirrorRefs) : string := cas_hash (join_with newline_char (side_tips m)).

(** The encodings of the artifact. *)
Context (encode_to_vec : BranchesArtifact -> bytes) (message_decode : bytes -> Result BranchesArtifact)
  (encode_all decode_all : bytes -> Result bytes).
Definition MirrorRefs_artifact (m : MirrorRefs) : BranchesArtifact :=
  {| ba_default_branch := default "" (mr_default_branch m); ba_base := default "" (MirrorRefs_base m);
     ba_branches := map (fun b => {| b_name := b.1; b_commit := b.2 |}) (mr_branches m) |}.
Definition MirrorRefs_build (m : MirrorRefs) : Result bytes := encode_all (encode_to_vec (MirrorRefs_artifact m)).

Record Branches := { br_default_branch : option string; br_base : option string; br_branches : list (string * string) }.

Definition check_branch (b : Branch) : Result (string * string) :=
  let? _ := validate_checkout_name (b_name b) in
  let? _ := parse_id (b_commit b) in
  Ok (b_name b, b_commit b).
(** [Some(s).filter(|s| !s.is_empty())]. *)
Definition non_empty (s : string) : option string := if bool_decide (s = "") then None else Some s.
Definition branches_of_artifact (artifact : BranchesArtifact) : Result Branches :=
  let? branches := collect check_branch (ba_branches artifact) in
  let branches := sort_by pair_le branches in
  ensure! all_pairs (fun a b => negb (bool_decide (a.1 = b.1))) branches else "a branch is listed twice";
  let default_branch := non_empty (ba_default_branch artifact) in
  let base := non_empty (ba_base artifact) in
  let default_commit := d ← default_branch; find_branch d branches in
  ensure! bool_decide (default_branch = None) || bool_decide (is_Some default_commit)
    else "the default branch is not listed";
  ensure! bool_decide (base = default_commit) else "the base is not the default branch's commit";
  Ok {| br_default_branch := default_branch; br_base := base; br_branches := branches |}.
Definition branches_decode (b : bytes) : Result Branches :=
  let? raw := decode_all b in
  let? artifact := message_decode raw in
  branches_of_artifact artifact.
End refs.

(** ** pkt-lines read back *)
Lemma str_take_app s t : str_take (String.length s) (s +:+ t) = s.
Proof. induction s as [|a s IH]; cbn; [by destruct t|by rewrite IH]. Qed.
Lemma str_drop_app s t : str_drop (String.length s) (s +:+ t) = t.
Proof. induction s as [|a s IH]; cbn; [by destruct t|done]. Qed.
Lemma str_get_mid s t u n m : n = str_len s -> m = (str_len s + str_len t)%N ->
  str_get (s +:+ t +:+ u) n m = Some t.
Proof.
  intros -> ->. unfold str_get, str_len. rewrite !str_length_app.
  replace (N.of_nat (String.length s) <=? _)%N with true by (symmetry; apply N.leb_le; lia).
  replace (_ <=? N.of_nat (_ + (_ + _)))%N with true by (symmetry; apply N.leb_le; lia). cbn [andb].
  rewrite Nat2N.id, str_drop_app. replace (N.to_nat _) with (String.length t) by lia. by rewrite str_take_app.
Qed.

Lemma hex_number_app acc s t : hex_number acc (s +:+ t) = (n ← hex_number acc s; hex_number n t).
Proof. revert acc; induction s as [|c s IH]; intros acc; cbn; [done|]. destruct (hex_value c); cbn; [apply IH|done]. Qed.
Lemma hex_value_digit n : (n < 16)%N -> hex_value (hex_digit n) = Some n.
Proof. intros H. unfold hex_value. by rewrite nibble_hex_digit. Qed.
Lemma string_of_list_ascii_app l k :
  String.string_of_list_ascii (l ++ k) = String.string_of_list_ascii l +:+ String.string_of_list_ascii k.
Proof. induction l as [|a l IH]; cbn; [done|]. by rewrite IH. Qed.

Lemma hex_rev_number fuel n : (n < 16 ^ N.of_nat fuel)%N -> 0 < fuel ->
  hex_number 0 (String.string_of_list_ascii (reverse (hex_rev fuel n))) = Some n.
Proof.
  revert n; induction fuel as [|fuel IH]; intros n Hn Hf; [lia|]. cbn [hex_rev].
  pose proof (N.mod_lt n 16 ltac:(done)) as Hm. pose proof (N.div_mod n 16 ltac:(done)) as Hd.
  rewrite reverse_cons, string_of_list_ascii_app, hex_number_app.
  rewrite Nat2N.inj_succ, N.pow_succ_r' in Hn.
  destruct (N.eqb_spec (n / 16) 0) as [Hz|Hz].
  - rewrite reverse_nil. cbn [String.string_of_list_ascii hex_number mbind option_bind].
    rewrite hex_value_digit by done. cbn [mbind option_bind]. f_equal. lia.
  - rewrite IH; [| |destruct fuel; [exfalso; apply Hz, N.div_small; exact Hn|lia]].
    + cbn [String.string_of_list_ascii hex_number mbind option_bind].
      rewrite hex_value_digit by done. cbn [mbind option_bind]. f_equal. lia.
    + apply N.Div0.div_lt_upper_bound. lia.
Qed.
Lemma hex_rev_length fuel n k : (n < 16 ^ N.of_nat k)%N -> 0 < k -> length (hex_rev fuel n) <= k.
Proof.
  revert n k; induction fuel as [|fuel IH]; intros n [|k] Hn Hk; cbn [hex_rev length]; try lia.
  destruct (N.eqb_spec (n / 16) 0) as [Hz|Hz]; [cbn; lia|]. apply le_n_S.
  rewrite Nat2N.inj_succ, N.pow_succ_r' in Hn. destruct k as [|k].
  - exfalso. cbn in Hn. rewrite N.div_small in Hz; lia.
  - apply IH; [|lia]. apply N.Div0.div_lt_upper_bound. exact Hn.
Qed.
Lemma hex_rev_chars fuel n : Forall (fun c => exists d, (d < 16)%N /\ c = hex_digit d) (hex_rev fuel n).
Proof.
  revert n; induction fuel as [|fuel IH]; intros n; cbn [hex_rev]; constructor.
  - exists (n mod 16)%N. split; [by apply N.mod_lt|done].
  - destruct (n / 16 =? 0)%N; [constructor|apply IH].
Qed.

Lemma to_N_byte_of_ascii c : Byte.to_N (byte_of_ascii c) = N_of_ascii c.
Proof. apply Byte.to_of_N. symmetry. apply byte_of_ascii_via_N. Qed.

Lemma format_04x_spec n : (n < 65536)%N ->
  String.length (format_04x n) = 4 /\ str_utf8 (format_04x n) = true /\ from_str_radix_16 (format_04x n) = Some n.
Proof.
  intros Hn. unfold format_04x. set (digits := hex_rev 16 n).
  assert (Hl : length digits <= 4) by (apply hex_rev_length; [done|lia]).
  assert (Hnum : hex_number 0 (String.string_of_list_ascii (reverse digits)) = Some n).
  { apply hex_rev_number; [|lia]. change (16 ^ N.of_nat 16)%N with 18446744073709551616%N. lia. }
  assert (Hc : Forall (fun c => exists d, (d < 16)%N /\ c = hex_digit d) (repeat "0"%char (4 - length digits) ++ reverse digits)).
  { apply Forall_app. split; [|apply Forall_reverse, hex_rev_chars].
    apply Forall_forall. intros c Hc. apply list_elem_of_In, List.repeat_spec in Hc as ->. by exists 0%N. }
  assert (Hpad : hex_number 0 (String.string_of_list_ascii (repeat "0"%char (4 - length digits) ++ reverse digits)) = Some n).
  { rewrite string_of_list_ascii_app, hex_number_app. replace (hex_number 0 _) with (Some 0%N); [exact Hnum|].
    generalize (4 - length digits). intros k. induction k as [|k IH]; [done|]. cbn. exact IH. }
  assert (Hlen : length (repeat "0"%char (4 - length digits) ++ reverse digits) = 4)
    by (rewrite length_app, repeat_length, length_reverse; lia).
  set (l := repeat _ _ ++ _) in *. clearbody l. split_and!.
  - rewrite <- Hlen. clear. induction l; cbn; congruence.
  - apply ascii_utf8. unfold String.list_byte_of_string. rewrite String.list_ascii_of_string_of_list_ascii.
    apply List.Forall_map. eapply Forall_impl; [exact Hc|]. intros c (d & Hd & ->).
    rewrite to_N_byte_of_ascii. by apply hex_digit_ascii.
  - destruct l as [|c l]; [done|]. apply Forall_cons in Hc as [(d & Hd & ->) _]. cbn [String.string_of_list_ascii].
    rewrite <- Hpad. apply nibble_hex_digit in Hd. clear -Hd. unfold from_str_radix_16.
    by destruct (hex_digit d) as [[] [] [] [] [] [] [] []]; vm_compute in Hd.
Qed.

Lemma read_pkt_line payload rest :
  (str_len payload + 4 < 65536)%N -> str_utf8 payload = true ->
  read_pkt (pkt_line payload +:+ rest) = Some (Some (payload, rest)).
Proof.
  intros Hlen Hu. destruct (format_04x_spec _ Hlen) as (Hl & Hfu & Hn). unfold pkt_line, read_pkt.
  set (h := format_04x _) in *. rewrite string_app_assoc.
  pose proof (str_get_mid "" h (payload +:+ rest) 0 4 eq_refl) as H0. cbn [String.append] in H0.
  rewrite H0 by (unfold str_len; by rewrite Hl). cbn [mbind option_bind]. rewrite Hfu. cbn [negb].
  rewrite Hn. cbn [mbind option_bind]. destruct (N.eqb_spec (str_len payload + 4) 0) as [E|_]; [lia|].
  rewrite (str_get_mid h payload rest) by (unfold str_len in *; rewrite ?Hl; lia). cbn [mbind option_bind]. rewrite Hu. cbn [negb].
  do 3 f_equal. rewrite <- string_app_assoc.
  replace (N.to_nat (str_len payload + 4)) with (String.length (h +:+ payload)) by (unfold str_len; rewrite str_length_app, Hl; lia).
  apply str_drop_app.
Qed.

(** ** An upstream's answer

    What a git server sends for one reference: its id and full name, the
    reference it stands for when it is symbolic, and the peeled id of an
    annotated tag. *)
Record Advertised := { ad_name : string; ad_oid : string; ad_symref : option string; ad_peeled : option string }.

Definition attribute (key : string) (value : option string) : string :=
  match value with Some v => String " " (key +:+ v) | None => "" end.
Definition advert_line (r : Advertised) : string :=
  ad_oid r +:+ String " " (ad_name r +:+ attribute "symref-target:" (ad_symref r) +:+ attribute "peeled:" (ad_peeled r)).
Definition advertisement (refs : list Advertised) : string :=
  foldr (fun r text => pkt_line (advert_line r +:+ String newline_char "") +:+ text) "0000" refs.

(** A token of a line: no separator, control or carriage return in it. *)
Definition token (s : string) : Prop :=
  str_utf8 s = true /\ contains_char " " s = false /\ contains_char tab s = false /\
  contains_char newline_char s = false /\ contains_char "013" s = false.
Definition advert_ok (r : Advertised) : Prop :=
  validate_object_id (ad_oid r) = Ok tt /\ token (ad_name r) /\ ad_name r <> "" /\
  (forall t, ad_symref r = Some t -> token t) /\ (forall p, ad_peeled r = Some p -> validate_object_id p = Ok tt) /\
  (str_len (advert_line r) + 5 < 65536)%N.

(** The lines of [git ls-remote --symref] for it. *)
Definition remote_lines (r : Advertised) : list string :=
  match ad_symref r with Some t => ["ref: " +:+ t +:+ String tab (ad_name r)] | None => [] end
  ++ [ad_oid r +:+ String tab (ad_name r)]
  ++ match ad_peeled r with Some p => [p +:+ String tab (ad_name r +:+ "^{}")] | None => [] end.
Definition unlines (l : list string) : string := foldr (fun line text => line +:+ String newline_char text) "" l.

Lemma unlines_app l k : unlines (l ++ k) = unlines l +:+ unlines k.
Proof. unfold unlines. induction l as [|x l IH]; cbn; [done|]. by rewrite IH, string_app_assoc. Qed.

(** An object id is a token. *)
Lemma lower_hex_plain c : is_lower_hex c = true -> (N_of_ascii c < 128)%N /\
  Ascii.eqb " " c = false /\ Ascii.eqb tab c = false /\ Ascii.eqb newline_char c = false /\ Ascii.eqb "013" c = false.
Proof. by destruct c as [[] [] [] [] [] [] [] []]; vm_compute. Qed.
Lemma object_id_token id : validate_object_id id = Ok tt -> token id.
Proof.
  unfold validate_object_id. intros H. inv_ok H. breflect.
  match goal with Ha : str_all is_lower_hex id = true |- _ => rename Ha into Hall end. rewrite str_all_true in Hall.
  unfold token, contains_char. rewrite !str_any_false.
  split_and!; try (intros c Hc; destruct (lower_hex_plain c (Hall c Hc)) as (_ & ? & ? & ? & ?); done).
  apply ascii_utf8. unfold String.list_byte_of_string. apply List.Forall_map, Forall_forall. intros c Hc.
  rewrite to_N_byte_of_ascii. by apply lower_hex_plain, Hall.
Qed.

Lemma split_on_token c s : contains_char c s = false -> split_on c s = [s].
Proof.
  induction s as [|a s IH]; cbn; [done|]. unfold contains_char in *. cbn. intros [Ha Hs]%orb_false_iff.
  rewrite Ascii.eqb_sym in Ha. by rewrite Ha, IH.
Qed.
Lemma split_on_join c l : l <> [] -> Forall (fun s => contains_char c s = false) l -> split_on c (join_with c l) = l.
Proof.
  intros Hne H. destruct H as [|s l Hs Hl]; [done|]. clear Hne. revert s Hs.
  induction Hl as [|s' l Hs' _ IH]; intros s Hs; [by apply split_on_token|].
  change (join_with c (s :: s' :: l)) with (s +:+ String c (join_with c (s' :: l))).
  by rewrite split_on_line, IH.
Qed.

(** The attributes of a line, split. *)
Definition attributes (r : Advertised) : list string :=
  match ad_symref r with Some t => ["symref-target:" +:+ t] | None => [] end
  ++ match ad_peeled r with Some p => ["peeled:" +:+ p] | None => [] end.
Lemma advert_split r : advert_ok r -> split_on " " (advert_line r) = ad_oid r :: ad_name r :: attributes r.
Proof.
  intros (Hoid%object_id_token & Hname & _ & Hsym & Hpeel & _). destruct Hoid as (_ & Ho & _). destruct Hname as (_ & Hn & _).
  rewrite <- (split_on_join " " (ad_oid r :: ad_name r :: attributes r)); [|done|].
  - f_equal. unfold advert_line, attributes, attribute.
    destruct (ad_symref r); destruct (ad_peeled r); cbn [app join_with]; by rewrite ?string_app_nil.
  - repeat constructor; try done. unfold attributes. apply Forall_app.
    destruct (ad_symref r) as [t|]; destruct (ad_peeled r) as [p|]; split; repeat constructor;
      rewrite contains_char_app; cbn; try (by destruct (Hsym _ eq_refl) as (_ & ? & _));
      by destruct (object_id_token _ (Hpeel _ eq_refl)) as (_ & ? & _).
Qed.

Lemma strip_prefix_app p s : strip_prefix p (p +:+ s) = Some s.
Proof. by apply strip_prefix_Some. Qed.

Lemma attributes_spec r out : advert_ok r ->
  foldl (attribute_step (ad_name r)) (Some (out, None)) (attributes r)
  = Some (out +:+ unlines (match ad_symref r with Some t => ["ref: " +:+ t +:+ String tab (ad_name r)] | None => [] end), ad_peeled r).
Proof.
  intros (_ & _ & _ & _ & Hpeel & _). unfold attributes. rewrite foldl_app.
  assert (Hp : forall o, foldl (attribute_step (ad_name r)) (Some (o, None))
    (match ad_peeled r with Some p => ["peeled:" +:+ p] | None => [] end) = Some (o, ad_peeled r)).
  { intros o. destruct (ad_peeled r) as [p|]; [|done]. cbn [foldl]. unfold attribute_step. cbn [mbind option_bind].
    replace (strip_prefix "symref-target:" ("peeled:" +:+ p)) with (@None string) by done.
    by rewrite strip_prefix_app, (Hpeel p eq_refl). }
  destruct (ad_symref r) as [t|]; cbn [foldl]; rewrite ?Hp.
  - unfold attribute_step. cbn [mbind option_bind]. rewrite strip_prefix_app, Hp. unfold unlines. cbn [foldr].
    by rewrite !string_app_assoc.
  - cbn. by rewrite string_app_nil.
Qed.

Lemma advert_no_newline r : advert_ok r -> contains_char newline_char (advert_line r) = false.
Proof.
  intros (Hoid%object_id_token & Hname & _ & Hsym & Hpeel & _).
  destruct Hoid as (_ & _ & _ & Ho & _). destruct Hname as (_ & _ & _ & Hn & _).
  unfold advert_line, attribute. rewrite contains_char_app, Ho. cbn [orb]. unfold contains_char. cbn [str_any].
  fold (contains_char newline_char). change (Ascii.eqb newline_char " ") with false. cbn [orb].
  change (str_any (Ascii.eqb newline_char) ?s) with (contains_char newline_char s). rewrite !contains_char_app, Hn. cbn [orb].
  apply orb_false_iff; split.
  - destruct (ad_symref r) as [t|]; [|done]. destruct (Hsym t eq_refl) as (_ & _ & _ & Ht & _). exact Ht.
  - destruct (ad_peeled r) as [p|]; [|done]. destruct (object_id_token p (Hpeel p eq_refl)) as (_ & _ & _ & Hp & _). exact Hp.
Qed.

Lemma advert_utf8 r : advert_ok r -> str_utf8 (advert_line r +:+ String newline_char "") = true.
Proof.
  intros (Hoid%object_id_token & (Hn & _) & _ & Hsym & Hpeel & _). destruct Hoid as (Ho & _).
  unfold advert_line, attribute. rewrite string_app_assoc, str_utf8_app by done. cbn [String.append].
  change (str_utf8 (String " " ?s)) with (str_utf8 s). rewrite !string_app_assoc, str_utf8_app by done.
  assert (Htail : str_utf8 (match ad_peeled r with Some v => String " " ("peeled:" +:+ v) | None => "" end +:+ String newline_char "") = true).
  { destruct (ad_peeled r) as [p|]; [|done]. destruct (object_id_token p (Hpeel p eq_refl)) as (Hp & _).
    change (str_utf8 (p +:+ String newline_char "") = true). by rewrite str_utf8_app. }
  destruct (ad_symref r) as [t|]; [|exact Htail]. destruct (Hsym t eq_refl) as (Ht & _).
  change (str_utf8 ((t +:+ match ad_peeled r with Some v => String " " ("peeled:" +:+ v) | None => "" end +:+ String newline_char "")) = true).
  by rewrite str_utf8_app.
Qed.

Lemma pkt_lines_spec r out : advert_ok r ->
  pkt_lines (advert_line r +:+ String newline_char "") out = Some (out +:+ unlines (remote_lines r)).
Proof.
  intros Hok. unfold pkt_lines. rewrite trim_end_one by (by apply advert_no_newline). rewrite (advert_split r Hok).
  rewrite attributes_spec by done. destruct Hok as (Hoid & _ & Hne & _). rewrite Hoid. rewrite bool_decide_eq_false_2 by done.
  cbn [is_ok negb orb mbind option_bind]. unfold remote_lines. rewrite !unlines_app, <- !string_app_assoc. f_equal.
  destruct (ad_peeled r) as [p|]; unfold unlines, listing_line; cbn [foldr].
  - rewrite !string_app_assoc. cbn [String.append]. by rewrite !string_app_assoc.
  - by rewrite !string_app_nil, !string_app_assoc.
Qed.

Lemma ls_remote_from_spec refs : Forall advert_ok refs ->
  forall fuel out, length refs < fuel ->
  ls_remote_from fuel (advertisement refs) out = Some (out +:+ unlines (concat (map remote_lines refs))).
Proof.
  induction 1 as [|r refs Hr _ IH]; intros [|fuel] out Hf; [lia| |cbn in Hf; lia|].
  - cbn. by rewrite string_app_nil.
  - cbn [ls_remote_from advertisement foldr map concat]. fold (advertisement refs).
    rewrite read_pkt_line.
    + cbn [mbind option_bind]. rewrite pkt_lines_spec by done. cbn [mbind option_bind].
      rewrite IH by (cbn in Hf; lia). by rewrite unlines_app, string_app_assoc.
    + destruct Hr as (_ & _ & _ & _ & _ & Hl). unfold str_len in *. rewrite str_length_app. cbn. lia.
    + by apply advert_utf8.
Qed.
Lemma ls_remote_lines_spec refs : Forall advert_ok refs ->
  ls_remote_lines (advertisement refs) = Some (unlines (concat (map remote_lines refs))).
Proof.
  intros H. apply (ls_remote_from_spec refs H _ ""). clear. induction refs as [|r refs IH]; [cbn; lia|].
  cbn [advertisement foldr length]. fold (advertisement refs). unfold pkt_line. rewrite !str_length_app. cbn [String.length]. lia.
Qed.

(** ** The listing read from the answer *)
Definition line_ok (s : string) : Prop := contains_char newline_char s = false /\ contains_char "013" s = false.
Lemma rsplit_once_None c s : contains_char c s = false -> rsplit_once c s = None.
Proof.
  induction s as [|a s IH]; cbn; [done|]. unfold contains_char in *. cbn. intros [Ha Hs]%orb_false_iff.
  rewrite IH by done. rewrite Ascii.eqb_sym in Ha. by rewrite Ha.
Qed.
Lemma split_on_unlines ls : Forall line_ok ls -> split_on newline_char (unlines ls) = ls ++ [""].
Proof. induction 1 as [|l ls [Hl _] _ IH]; [done|]. cbn [unlines foldr]. fold (unlines ls). by rewrite split_on_line, IH. Qed.
Lemma lines_unlines ls : Forall line_ok ls -> lines (unlines ls) = ls.
Proof.
  intros H. unfold lines. rewrite split_on_unlines by done. induction H as [|l ls [_ Hl] _ IH]; [done|].
  cbn [app]. destruct (ls ++ [""]) as [|x xs] eqn:E; [by destruct ls|]. cbn [lines_of]. unfold strip_suffix_char at 1.
  rewrite rsplit_once_None by done. cbn [default]. f_equal. exact IH.
Qed.

Lemma token_line s : token s -> line_ok s.
Proof. intros (_ & _ & _ & ? & ?). done. Qed.
Lemma contains_char_cons c a s : contains_char c (String a s) = Ascii.eqb c a || contains_char c s.
Proof. done. Qed.
Lemma line_ok_app s t : line_ok s -> line_ok t -> line_ok (s +:+ t).
Proof. intros [H1 H2] [H3 H4]. split; by rewrite contains_char_app, ?H1, ?H2. Qed.
Lemma remote_lines_ok r : advert_ok r -> Forall line_ok (remote_lines r).
Proof.
  intros (Ho%object_id_token%token_line & Hn%token_line & _ & Hsym & Hpeel & _).
  assert (Htab : forall s t, line_ok s -> line_ok t -> line_ok (s +:+ String tab t)).
  { intros s t Hs Ht. apply line_ok_app; [done|]. by split; rewrite contains_char_cons; apply Ht. }
  unfold remote_lines. repeat (apply Forall_app; split).
  - destruct (ad_symref r) as [t|]; [|constructor]. constructor; [|constructor].
    apply (Htab ("ref: " +:+ t) (ad_name r)); [|done]. apply line_ok_app; [done|]. by apply token_line, Hsym.
  - constructor; [|constructor]. by apply Htab.
  - destruct (ad_peeled r) as [p|]; [|constructor]. constructor; [|constructor].
    apply Htab; [by apply token_line, object_id_token, Hpeel|]. by apply line_ok_app.
Qed.

(** A name with [^] in it is refused. *)
Lemma caret_refused s t : is_ok (validate_ref_name (s +:+ String "^" t)) = false.
Proof.
  destruct (validate_ref_name _) as [[]|] eqn:E; [|done]. apply validate_ref_name_ok in E as (_ & _ & _ & _ & _ & _ & H & _).
  rewrite str_any_app in H. apply orb_false_iff in H as [_ H]. done.
Qed.
Lemma ends_with_app suf s : ends_with suf s = true -> exists t, s = t +:+ suf.
Proof.
  induction s as [|a s IH]; cbn; rewrite orb_true_iff, bool_decide_eq_true.
  - intros [<-|]; [by exists ""|done].
  - intros [<-|H]; [by exists ""|]. destruct (IH H) as [t ->]. by exists (String a t).
Qed.
Lemma valid_tag_not_peeled tag : is_ok (validate_tag_name tag) = true -> ends_with "^{}" tag = false.
Proof.
  intros H. apply not_true_iff_false. intros (t & ->)%ends_with_app. unfold validate_tag_name in H. by rewrite caret_refused in H.
Qed.

(** What the loop keeps of one reference. *)
Definition direct (r : Advertised) : string * option string := (ad_name r, Some (ad_oid r)).
Definition head_of (head : option string) (r : Advertised) : option string :=
  match ad_symref r with
  | Some t => if bool_decide (ad_name r = "HEAD") then strip_prefix "refs/heads/" t else head
  | None => head
  end.

Lemma oid_no_ref id : validate_object_id id = Ok tt -> strip_prefix "ref: " id = None.
Proof.
  intros (_ & H & _)%object_id_token. destruct (strip_prefix "ref: " id) as [t|] eqn:E; [|done].
  apply strip_prefix_Some in E as ->. by rewrite contains_char_app in H.
Qed.
Lemma strip_prefix_app_l p s t u : strip_prefix p s = Some u -> strip_prefix p (s +:+ t) = Some (u +:+ t).
Proof. intros ->%strip_prefix_Some. apply strip_prefix_Some. by rewrite string_app_assoc. Qed.
Lemma contains_strip c p s u : strip_prefix p s = Some u -> contains_char c s = false -> contains_char c u = false.
Proof. intros ->%strip_prefix_Some. rewrite contains_char_app. by intros [_ ?]%orb_false_iff. Qed.

Lemma split_tab s t : contains_char tab s = false -> split_once tab (s +:+ String tab t) = Some (s, t).
Proof. apply split_once_app. Qed.

Lemma upstream_oid_line head branches tags oid name :
  validate_object_id oid = Ok tt -> contains_char tab oid = false ->
  upstream_line (head, branches, tags) (oid +:+ String tab name)
  = (head, branches ++ omap list_branch (below "refs/heads/" [(name, Some oid)]),
     tags ++ omap list_tag (below "refs/tags/" [(name, Some oid)])).
Proof.
  intros Hv Ht. unfold upstream_line. rewrite split_tab, oid_no_ref, Hv by done. cbn [is_ok negb].
  unfold below. cbn [omap list_omap fst snd].
  destruct (strip_prefix "refs/heads/" name) as [b|] eqn:Eb; cbn [mbind option_bind].
  - assert (strip_prefix "refs/tags/" name = None) as ->.
    { apply strip_prefix_Some in Eb as ->. done. }
    cbn [mbind option_bind omap list_omap list_branch]. rewrite app_nil_r.
    destruct (validate_checkout_name b) as [[]|]; cbn; by rewrite ?app_nil_r.
  - destruct (strip_prefix "refs/tags/" name) as [t|] eqn:Et; cbn [mbind option_bind omap list_omap list_tag].
    + destruct (is_ok (validate_tag_name t)) eqn:Ev.
      * rewrite valid_tag_not_peeled by done. cbn. by rewrite app_nil_r.
      * rewrite andb_false_r. cbn. by rewrite !app_nil_r.
    + by rewrite !app_nil_r.
Qed.
Lemma strip_prefix_caret p name t u :
  contains_char "^" p = false -> strip_prefix p (name +:+ String "^" t) = Some u -> exists u', u = u' +:+ String "^" t.
Proof.
  revert name; induction p as [|a p IH]; intros name; [intros _ [= <-]; by exists name|].
  rewrite contains_char_cons. intros [Ha Hp]%orb_false_iff. destruct name as [|b name]; cbn.
  - rewrite Ascii.eqb_sym in Ha. by rewrite Ha.
  - destruct (Ascii.eqb a b); [by apply IH|done].
Qed.
Lemma below_peeled name oid : omap list_branch (below "refs/heads/" [(name +:+ "^{}", Some oid)]) = [] /\
  omap list_tag (below "refs/tags/" [(name +:+ "^{}", Some oid)]) = [].
Proof.
  unfold below. cbn [omap list_omap fst snd].
  split; destruct (strip_prefix _ _) as [u|] eqn:E; cbn [mbind option_bind omap list_omap list_branch list_tag]; try done;
    apply strip_prefix_caret in E as (u' & ->); try done;
    unfold validate_checkout_name, validate_tag_name; by rewrite caret_refused.
Qed.

Definition upstream_step (acc : option string * list (string * string) * list (string * string)) (r : Advertised) :=
  let '(head, branches, tags) := acc in
  (head_of head r, branches ++ omap list_branch (below "refs/heads/" [direct r]),
   tags ++ omap list_tag (below "refs/tags/" [direct r])).
Lemma upstream_ref acc r : advert_ok r -> foldl upstream_line acc (remote_lines r) = upstream_step acc r.
Proof.
  destruct acc as [[head branches] tags]. intros (Ho & Hn & _ & Hsym & Hpeel & _).
  unfold remote_lines, upstream_step. rewrite !foldl_app.
  assert (Hs : foldl upstream_line (head, branches, tags)
    (match ad_symref r with Some t => ["ref: " +:+ t +:+ String tab (ad_name r)] | None => [] end)
    = (head_of head r, branches, tags)).
  { unfold head_of. destruct (ad_symref r) as [t|]; [|done]. destruct (Hsym t eq_refl) as (_ & _ & Ht & _).
    cbn [foldl]. unfold upstream_line. rewrite <- string_app_assoc, split_tab by (by rewrite contains_char_app).
    rewrite strip_prefix_app. by case_bool_decide. }
  rewrite Hs. cbn [foldl]. rewrite upstream_oid_line by (done || by apply object_id_token in Ho as (_ & _ & ? & _)).
  fold (direct r). destruct (ad_peeled r) as [p|]; [|done]. cbn [foldl]. pose proof (Hpeel p eq_refl) as Hp.
  rewrite upstream_oid_line by (done || by apply object_id_token in Hp as (_ & _ & ? & _)).
  destruct (below_peeled (ad_name r) p) as [-> ->]. by rewrite !app_nil_r.
Qed.
Lemma below_app p l k : below p (l ++ k) = below p l ++ below p k.
Proof. apply omap_app. Qed.
Lemma upstream_refs refs : Forall advert_ok refs -> forall head branches tags,
  foldl upstream_line (head, branches, tags) (concat (map remote_lines refs))
  = (foldl head_of head refs, branches ++ omap list_branch (below "refs/heads/" (map direct refs)),
     tags ++ omap list_tag (below "refs/tags/" (map direct refs))).
Proof.
  induction 1 as [|r refs Hr _ IH]; intros head branches tags; cbn [map concat foldl].
  - cbn. by rewrite !app_nil_r.
  - rewrite foldl_app, upstream_ref by done. unfold upstream_step. rewrite IH.
    change (direct r :: map direct refs) with ([direct r] ++ map direct refs). by rewrite !below_app, !omap_app, <- !app_assoc.
Qed.

Lemma unlines_utf8 ls : Forall (fun l => str_utf8 l = true) ls -> str_utf8 (unlines ls) = true.
Proof.
  induction 1 as [|l ls Hl _ IH]; [done|]. cbn [unlines foldr]. fold (unlines ls). by rewrite str_utf8_app.
Qed.
Lemma remote_lines_utf8 r : advert_ok r -> Forall (fun l => str_utf8 l = true) (remote_lines r).
Proof.
  intros (Ho%object_id_token & Hn & _ & Hsym & Hpeel & _). destruct Ho as (Ho & _), Hn as (Hn & _).
  assert (Htab : forall s t, str_utf8 s = true -> str_utf8 t = true -> str_utf8 (s +:+ String tab t) = true)
    by (intros s t Hs Ht; by rewrite str_utf8_app).
  unfold remote_lines. repeat (apply Forall_app; split).
  - destruct (ad_symref r) as [t|]; [|constructor]. constructor; [|constructor]. destruct (Hsym t eq_refl) as (Ht & _).
    by apply Htab.
  - constructor; [|constructor]. by apply Htab.
  - destruct (ad_peeled r) as [p|]; [|constructor]. constructor; [|constructor].
    destruct (object_id_token p (Hpeel p eq_refl)) as (Hp & _). apply Htab; [done|]. by rewrite str_utf8_app.
Qed.

Lemma parse_upstream_spec refs : Forall advert_ok refs ->
  parse_upstream_refs (unlines (concat (map remote_lines refs))) =
  let branches := sort_by pair_le (omap list_branch (below "refs/heads/" (map direct refs))) in
  {| ur_default_branch := option_filter (fun head => bool_decide (head ∈ map fst branches)) (foldl head_of None refs);
     ur_branches := branches; ur_tags := sort_by pair_le (omap list_tag (below "refs/tags/" (map direct refs))) |}.
Proof.
  intros H. unfold parse_upstream_refs. rewrite unlines_utf8, lines_unlines, upstream_refs; [done|done| |].
  - apply Forall_concat, List.Forall_map. eapply Forall_impl; [exact H|]. apply remote_lines_ok.
  - apply Forall_concat, List.Forall_map. eapply Forall_impl; [exact H|]. apply remote_lines_utf8.
Qed.

(** ** The hash of a listing tells listings apart *)
Definition named_ok (l : list (string * string)) : Prop :=
  Forall (fun p => validate_ref_name p.1 = Ok tt /\ validate_object_id p.2 = Ok tt) l.
Definition default_ok (d : option string) : Prop := forall name, d = Some name -> validate_ref_name name = Ok tt.

Definition branch_line (b : string * string) : string := b.2 +:+ String " " ("refs/heads/" +:+ b.1).
Definition tag_line (t : string * string) : string := t.2 +:+ String " " ("refs/tags/" +:+ t.1).
Definition read_line (line : string) : option ((string * string) + (string * string)) :=
  '(id, name) ← split_once " " line;
  match strip_prefix "refs/heads/" name with
  | Some branch => Some (inl (branch, id))
  | None => tag ← strip_prefix "refs/tags/" name; Some (inr (tag, id))
  end.

Lemma refs_text_lines d b t :
  refs_text d b t = unlines (("HEAD " +:+ default "" d) :: map branch_line b ++ map tag_line t).
Proof.
  unfold refs_text. cbn [unlines foldr]. fold (unlines (map branch_line b ++ map tag_line t)). rewrite unlines_app.
  change ("HEAD " +:+ default "" d +:+ String newline_char "" +:+ ?x) with ("HEAD " +:+ (default "" d +:+ (String newline_char x))).
  change (("HEAD " +:+ default "" d) +:+ ?x) with ("HEAD " +:+ (default "" d +:+ x)). do 4 f_equal.
  - unfold unlines. induction b as [|x b IH]; [done|]. cbn [foldr map]. rewrite IH. unfold branch_line. by rewrite !string_app_assoc.
  - unfold unlines. induction t as [|x t IH]; [done|]. cbn [foldr map]. rewrite IH. unfold tag_line. by rewrite !string_app_assoc.
Qed.
Lemma read_branch_line b : validate_object_id b.2 = Ok tt -> read_line (branch_line b) = Some (inl b).
Proof.
  intros (_ & H & _)%object_id_token. unfold read_line, branch_line. rewrite split_once_app by done. cbn [mbind option_bind].
  rewrite strip_prefix_app. by destruct b.
Qed.
Lemma read_tag_line t : validate_object_id t.2 = Ok tt -> read_line (tag_line t) = Some (inr t).
Proof.
  intros (_ & H & _)%object_id_token. unfold read_line, tag_line. rewrite split_once_app by done. cbn [mbind option_bind].
  change (strip_prefix "refs/heads/" ("refs/tags/" +:+ t.1)) with (@None string). rewrite strip_prefix_app. by destruct t.
Qed.
Lemma omap_read_lines b t : named_ok b -> named_ok t ->
  omap read_line (map branch_line b ++ map tag_line t) = map inl b ++ map inr t.
Proof.
  intros Hb Ht. rewrite omap_app. f_equal.
  - induction Hb as [|x b [_ Hx] _ IH]; [done|]. cbn [map omap list_omap]. by rewrite read_branch_line, <- IH.
  - induction Ht as [|x t [_ Hx] _ IH]; [done|]. cbn [map omap list_omap]. by rewrite read_tag_line, <- IH.
Qed.
Lemma name_no_newline name : validate_ref_name name = Ok tt -> contains_char newline_char name = false.
Proof.
  intros (_ & _ & _ & _ & _ & Hc & _)%validate_ref_name_ok. revert Hc. apply str_any_impl. by intros c <-%Ascii.eqb_eq.
Qed.
Lemma refs_lines_no_newline d b t : default_ok d -> named_ok b -> named_ok t ->
  Forall (fun l => contains_char newline_char l = false) (("HEAD " +:+ default "" d) :: map branch_line b ++ map tag_line t).
Proof.
  intros Hd Hb Ht. constructor.
  - rewrite contains_char_app. destruct d as [d|]; [|done]. by apply name_no_newline, Hd.
  - assert (Hl : forall p x, contains_char newline_char p = false -> validate_ref_name x.1 = Ok tt /\ validate_object_id x.2 = Ok tt ->
      contains_char newline_char (x.2 +:+ String " " (p +:+ x.1)) = false).
    { intros p x Hp [Hn (_ & _ & _ & Hi & _)%object_id_token].
      rewrite contains_char_app, Hi, contains_char_cons, contains_char_app, Hp. by apply name_no_newline. }
    apply Forall_app. split; apply List.Forall_map; (eapply Forall_impl; [eassumption|]); intros x Hx; by apply Hl.
Qed.
Lemma split_on_unlines_no_newline ls : Forall (fun l => contains_char newline_char l = false) ls ->
  split_on newline_char (unlines ls) = ls ++ [""].
Proof. induction 1 as [|l ls Hl _ IH]; [done|]. cbn [unlines foldr]. fold (unlines ls). by rewrite split_on_line, IH. Qed.

Lemma default_inj d d' : default_ok d -> default_ok d' -> default "" d = default "" d' -> d = d'.
Proof.
  intros Hd Hd'. destruct d as [d|], d' as [d'|]; cbn; [congruence| | |done].
  - intros ->. by pose proof (Hd "" eq_refl).
  - intros <-. by pose proof (Hd' "" eq_refl).
Qed.
Lemma refs_text_inj d b t d' b' t' :
  default_ok d -> named_ok b -> named_ok t -> default_ok d' -> named_ok b' -> named_ok t' ->
  refs_text d b t = refs_text d' b' t' -> d = d' /\ b = b' /\ t = t'.
Proof.
  intros Hd Hb Ht Hd' Hb' Ht' H. rewrite !refs_text_lines in H. apply (f_equal (split_on newline_char)) in H.
  rewrite !split_on_unlines_no_newline in H by (by apply refs_lines_no_newline).
  apply app_inj_tail in H as [[= H1 H2] _].
  assert (Hhead : default "" d = default "" d') by (by apply H1 || exact H1 || congruence).
  apply (f_equal (omap read_line)) in H2. rewrite !omap_read_lines in H2 by done.
  split; [by apply default_inj|].
  pose proof (f_equal (omap (fun x => match x with inl y => Some y | inr _ => None end)) H2) as Hl.
  pose proof (f_equal (omap (fun x => match x with inl _ => None | inr y => Some y end)) H2) as Hr.
  rewrite !omap_app in Hl, Hr.
  assert (E : forall (l : list (string * string)), omap (fun x : _ + (string * string) => match x with inl y => Some y | inr _ => None end) (map inl l) = l
    /\ omap (fun x : (string * string) + _ => match x with inl _ => None | inr y => Some y end) (map inr l) = l
    /\ omap (fun x : (string * string) + (string * string) => match x with inl y => Some y | inr _ => None end) (map inr l) = []
    /\ omap (fun x : (string * string) + (string * string) => match x with inl _ => None | inr y => Some y end) (map inl l) = []).
  { intros l. induction l as [|x l (I1 & I2 & I3 & I4)]; [done|]. cbn in *. by rewrite I1, I2, I3, I4. }
  destruct (E b) as (B1 & _ & _ & B4), (E t) as (_ & T2 & T3 & _), (E b') as (B1' & _ & _ & B4'), (E t') as (_ & T2' & T3' & _).
  rewrite B1, T3, B1', T3', !app_nil_r in Hl. rewrite B4, T2, B4', T2' in Hr. done.
Qed.

(** ** Listed names are valid *)
Lemma list_branch_Some r b : list_branch r = Some b -> r = (b.1, Some b.2) /\ validate_checkout_name b.1 = Ok tt.
Proof.
  destruct r as [name [id|]]; cbn; [|done]. destruct (validate_checkout_name name) as [[]|] eqn:E; [|done]. by intros [= <-].
Qed.
(** The ids a mirror's references name. *)
Definition ids_ok (references : list (string * option string)) : Prop :=
  forall name id, (name, Some id) ∈ references -> validate_object_id id = Ok tt.
Lemma below_in p references name o : (name, o) ∈ below p references -> (p +:+ name, o) ∈ references.
Proof.
  intros ([n o'] & Hr & H)%list_elem_of_omap. cbn in H. destruct (strip_prefix p n) as [u|] eqn:E; [|done].
  injection H as -> ->. by apply strip_prefix_Some in E as <-.
Qed.
Lemma branches_named_ok references : ids_ok references -> named_ok (sort_by pair_le (omap list_branch (below "refs/heads/" references))).
Proof.
  intros Hids. apply Forall_forall. intros b Hb%elem_of_sort_by. apply list_elem_of_omap in Hb as (r & Hr & [-> Hv]%list_branch_Some).
  split; [exact Hv|]. by apply below_in, Hids in Hr.
Qed.
Lemma tags_named_ok references : ids_ok references -> named_ok (sort_by pair_le (omap list_tag (below "refs/tags/" references))).
Proof.
  intros Hids. apply Forall_forall. intros b Hb%elem_of_sort_by. apply list_elem_of_omap in Hb as (r & Hr & [-> Hv]%list_tag_Some).
  split; [exact Hv|]. by apply below_in, Hids in Hr.
Qed.
Lemma option_filter_Some {A} (p : A -> bool) o x : option_filter p o = Some x <-> o = Some x /\ p x = true.
Proof.
  destruct o as [y|]; cbn; [|by split; [|intros [? _]]]. destruct (p y) eqn:E; (split; [intros [=]; by subst|intros [[= ->] H]; congruence]).
Qed.
Lemma default_listed head branches : named_ok branches ->
  default_ok (option_filter (fun head => bool_decide (head ∈ map fst branches)) head).
Proof.
  intros Hn name [_ Hin%bool_decide_eq_true]%option_filter_Some. apply elem_of_lmap in Hin as (b & -> & Hb).
  unfold named_ok in Hn. rewrite Forall_forall in Hn. by apply Hn.
Qed.
Lemma direct_ids_ok refs : Forall advert_ok refs -> ids_ok (map direct refs).
Proof.
  intros H name id Hin. apply elem_of_lmap in Hin as (r & [= -> ->] & Hr). rewrite Forall_forall in H.
  by destruct (H r Hr) as (? & _).
Qed.

(** C35: the poller and the mirror agree. What it reads from an upstream's [ls-refs]
    answer holds every branch and tag of it under a name git accepts, and the
    default branch; a mirror with the same branches, tags and [HEAD], listed in any
    order, has the same ones and the same hash; and when the hashes agree, so do
    the default branch, the branches and the tags. *)
Theorem upstream_listing_agrees cas_hash refs head references :
  Forall advert_ok refs -> ids_ok references -> (forall a b, cas_hash a = cas_hash b -> a = b) ->
  exists listing, ls_remote_lines (advertisement refs) = Some listing /\
    let u := parse_upstream_refs listing in
    let m := MirrorRefs_read cas_hash head references in
    let same := ur_default_branch u = mr_default_branch m /\ ur_branches u = mr_branches m /\ ur_tags u = mr_tags m in
    ur_branches u ≡ₚ omap list_branch (below "refs/heads/" (map direct refs)) /\
    ur_tags u ≡ₚ omap list_tag (below "refs/tags/" (map direct refs)) /\
    (below "refs/heads/" references ≡ₚ below "refs/heads/" (map direct refs) ->
     below "refs/tags/" references ≡ₚ below "refs/tags/" (map direct refs) ->
     head ≫= strip_prefix "refs/heads/" = foldl head_of None refs -> same) /\
    (UpstreamRefs_hash cas_hash u = MirrorRefs_hash cas_hash m <-> same).
Proof.
  intros Hrefs Hids Hinj. exists (unlines (concat (map remote_lines refs))). split.
  { by apply ls_remote_lines_spec. }
  rewrite (parse_upstream_spec refs Hrefs). cbv zeta. cbn [ur_default_branch ur_branches ur_tags].
  pose proof (direct_ids_ok _ Hrefs) as Hdir.
  pose proof (branches_named_ok _ Hdir) as Hub. pose proof (tags_named_ok _ Hdir) as Hut.
  pose proof (branches_named_ok _ Hids) as Hmb. pose proof (tags_named_ok _ Hids) as Hmt. split_and!.
  - apply sort_by_perm.
  - apply sort_by_perm.
  - intros Hb Ht Hh. unfold MirrorRefs_read, listing. cbn [mr_default_branch mr_branches mr_tags].
    assert (Eb : sort_by pair_le (omap list_branch (below "refs/heads/" (map direct refs)))
      = sort_by pair_le (omap list_branch (below "refs/heads/" references)))
      by (apply sort_by_unique; [apply pair_le_total|apply pair_le_trans|apply pair_le_antisym|by rewrite Hb]).
    assert (Et : sort_by pair_le (omap list_tag (below "refs/tags/" (map direct refs)))
      = sort_by pair_le (omap list_tag (below "refs/tags/" references)))
      by (apply sort_by_unique; [apply pair_le_total|apply pair_le_trans|apply pair_le_antisym|by rewrite Ht]).
    by rewrite Eb, Et, Hh.
  - unfold UpstreamRefs_hash, MirrorRefs_hash, refs_hash. cbn. split; [|by intros (-> & -> & ->)].
    intros E%Hinj. apply refs_text_inj in E; [done|first [done | by apply default_listed]..].
Qed.

(** ** The branches artifact *)
Lemma find_branch_Some name branches id : find_branch name branches = Some id -> (name, id) ∈ branches.
Proof.
  induction branches as [|[n i] branches IH]; cbn; [done|]. case_bool_decide; [intros [= ->]; subst; set_solver|]. set_solver.
Qed.
Lemma find_branch_in name branches : name ∈ map fst branches -> is_Some (find_branch name branches).
Proof.
  intros (b & -> & Hb)%elem_of_lmap. induction branches as [|[n i] branches IH]; [set_solver|]. cbn.
  case_bool_decide; [eauto|]. apply IH. set_solver.
Qed.
Lemma below_NoDup p references : NoDup (map fst references) -> NoDup (map fst (below p references)).
Proof.
  induction references as [|[n o] l IH]; [constructor|]. intros [Hn Hl]%NoDup_cons. unfold below in *. cbn [omap list_omap fst snd].
  destruct (strip_prefix p n) as [u|] eqn:E; cbn [mbind option_bind]; [|by apply IH].
  cbn [map]. constructor; [|by apply IH]. intros ([u' o'] & Hu & Hin)%elem_of_lmap. cbn in Hu. subst u'. apply Hn.
  apply below_in in Hin. apply strip_prefix_Some in E as ->. apply elem_of_lmap. by exists (p +:+ u, o').
Qed.
(** What a listing of the mirror's references holds. *)
Lemma read_branches cas_hash head references :
  NoDup (map fst references) ->
  let m := MirrorRefs_read cas_hash head references in
  NoDup (map fst (mr_branches m)) /\ StronglySorted (fun x y => pair_le x y = true) (mr_branches m) /\
  (forall b, b ∈ mr_branches m -> validate_checkout_name b.1 = Ok tt /\ ("refs/heads/" +:+ b.1, Some b.2) ∈ references) /\
  (forall name, mr_default_branch m = Some name -> exists id, MirrorRefs_base m = Some id /\ (name, id) ∈ mr_branches m).
Proof.
  intros Hnd m. set (bs := sort_by pair_le (omap list_branch (below "refs/heads/" references))).
  assert (Hbs : mr_branches m = bs) by done. rewrite !Hbs. split_and!.
  - unfold bs. rewrite sort_by_perm. apply omap_NoDup_fst; [by intros x y [-> _]%list_branch_Some|]. by apply below_NoDup.
  - apply (sort_by_sorted _ pair_le_total pair_le_trans).
  - intros x Hx%elem_of_sort_by. apply list_elem_of_omap in Hx as (r & Hr & [-> Hv]%list_branch_Some).
    by apply below_in in Hr.
  - intros name Hn. unfold MirrorRefs_base. rewrite Hn, Hbs. cbn [mbind option_bind].
    apply option_filter_Some in Hn as [_ Hl%bool_decide_eq_true]. apply find_branch_in in Hl as [id Hid].
    exists id. split; [done|]. by apply find_branch_Some.
Qed.

Section artifact.
Context (cas_hash : string -> string) (encode_to_vec : BranchesArtifact -> bytes)
  (message_decode : bytes -> Result BranchesArtifact) (encode_all decode_all : bytes -> Result bytes).
Context (Hmessage : forall a, message_decode (encode_to_vec a) = Ok a).
Context (Hzstd : forall raw c, encode_all raw = Ok c -> decode_all c = Ok raw).

Lemma non_empty_default o : (forall s, o = Some s -> s <> "") -> non_empty (default "" o) = o.
Proof. unfold non_empty. destruct o as [s|]; cbn; intros H; [by rewrite bool_decide_eq_false_2 by auto|done]. Qed.

Lemma collect_check_branch bs :
  (forall b, b ∈ bs -> validate_checkout_name b.1 = Ok tt /\ exists i, parse_id b.2 = Ok i) ->
  collect check_branch (map (fun b => {| b_name := b.1; b_commit := b.2 |}) bs) = Ok bs.
Proof.
  intros Hin. induction bs as [|x bs IH]; [done|]. cbn [map collect]. destruct (Hin x) as (Hv & i & Hi); [set_solver|].
  unfold check_branch at 1. cbn [b_name b_commit]. rewrite Hv. cbn [rbind]. rewrite Hi. cbn [rbind].
  rewrite IH by (intros; apply Hin; set_solver). by destruct x.
Qed.

(** Every check of [decode] passes on what [build] wrote. *)
Lemma branches_decode_build head references b :
  let m := MirrorRefs_read cas_hash head references in
  NoDup (map fst references) ->
  (forall name id, (name, Some id) ∈ references -> exists i, parse_id id = Ok i) ->
  MirrorRefs_build encode_to_vec encode_all m = Ok b ->
  branches_decode message_decode decode_all b
  = Ok {| br_default_branch := mr_default_branch m; br_base := MirrorRefs_base m; br_branches := mr_branches m |}.
Proof.
  cbv zeta. intros Hnd Hids Hb. destruct (read_branches cas_hash head references Hnd) as (Hndb & Hsorted & Hrefs & Hdef).
  set (m := MirrorRefs_read cas_hash head references) in *.
  assert (Hin : forall b, b ∈ mr_branches m -> validate_checkout_name b.1 = Ok tt /\ exists i, parse_id b.2 = Ok i)
    by (intros x [Hv Hx]%Hrefs; eauto).
  unfold branches_decode, MirrorRefs_build in *. rewrite (Hzstd _ _ Hb). cbn [rbind].
  rewrite Hmessage. cbn [rbind]. unfold branches_of_artifact, MirrorRefs_artifact. cbn [ba_branches ba_default_branch ba_base].
  rewrite collect_check_branch by done. cbn [rbind]. rewrite sort_by_sorted_id by done.
  assert (Hp : all_pairs (fun x y => negb (bool_decide (x.1 = y.1))) (mr_branches m) = true).
  { apply (all_pairs_NoDup String.leb fst str_leb_total str_leb_trans str_leb_antisym); [by apply pair_le_names|done]. }
  rewrite Hp. rewrite !non_empty_default.
  - destruct (mr_default_branch m) as [name|] eqn:En; cbn [mbind option_bind].
    + destruct (Hdef name eq_refl) as (id & Hbase & Hid). unfold MirrorRefs_base in *. rewrite En in Hbase |- *. cbn [mbind option_bind] in *.
      rewrite Hbase. rewrite (bool_decide_eq_true_2 (is_Some (Some id))) by eauto. rewrite orb_true_r.
      by rewrite (bool_decide_eq_true_2 (Some id = Some id)).
    + unfold MirrorRefs_base. rewrite En. done.
  - intros s Hs. destruct (mr_default_branch m) as [name|] eqn:En; [|unfold MirrorRefs_base in Hs; by rewrite En in Hs].
    destruct (Hdef name eq_refl) as (id & Hbase & Hid). rewrite Hs in Hbase. injection Hbase as ->.
    destruct (Hin _ Hid) as (_ & i & Hi). cbn [snd] in Hi. apply parse_id_ok in Hi as [Hl Hhex]. intros ->.
    apply (f_equal str_len) in Hhex. rewrite str_len_hex in Hhex. unfold nlen in Hhex. by rewrite Hl in Hhex.
  - intros s Hs. destruct (Hdef s Hs) as (id & _ & Hid). apply Hin in Hid as [Hv _]. intros ->. done.
Qed.

(** A clone that downloads the branches artifact reads exactly the mirror's
    branches, sorted by name, its default branch and that branch's commit, which is
    the one the list gives that branch: every check of [decode] passes on what
    [build] wrote. *)
Lemma branches_roundtrip head references b :
  let m := MirrorRefs_read cas_hash head references in
  NoDup (map fst references) ->
  (forall name id, (name, Some id) ∈ references -> exists i, parse_id id = Ok i) ->
  MirrorRefs_build encode_to_vec encode_all m = Ok b ->
  branches_decode message_decode decode_all b
  = Ok {| br_default_branch := mr_default_branch m; br_base := MirrorRefs_base m; br_branches := mr_branches m |} /\
  mr_branches m ≡ₚ omap list_branch (below "refs/heads/" references) /\
  (forall name, mr_default_branch m = Some name -> exists id, MirrorRefs_base m = Some id /\ (name, id) ∈ mr_branches m).
Proof.
  intros m Hnd Hids Hb. split_and!; [by apply branches_decode_build|apply sort_by_perm|by apply (read_branches cas_hash head references)].
Qed.
End artifact.

(** ** Witnesses *)
Module RefsExample.
Definition one : string := "1111111111111111111111111111111111111111".
Definition two : string := "2222222222222222222222222222222222222222".
Definition three : string := "3333333333333333333333333333333333333333".
Definition adverts : list Advertised :=
  [{| ad_name := "HEAD"; ad_oid := one; ad_symref := Some "refs/heads/main"; ad_peeled := None |};
   {| ad_name := "refs/heads/main"; ad_oid := one; ad_symref := None; ad_peeled := None |};
   {| ad_name := "refs/heads/side"; ad_oid := two; ad_symref := None; ad_peeled := None |};
   {| ad_name := "refs/tags/v1"; ad_oid := three; ad_symref := None; ad_peeled := Some one |}].
Definition references : list (string * option string) :=
  [("refs/tags/v1", Some three); ("refs/heads/side", Some two); ("refs/heads/main", Some one)].

Lemma adverts_ok : Forall advert_ok adverts.
Proof.
  repeat (apply Forall_cons; split); try apply Forall_nil_2;
    (split_and!; [by vm_compute|by vm_compute|done|intros t [=]; subst; by vm_compute|intros t [=]; subst; by vm_compute|by vm_compute]).
Qed.
Lemma references_in name o : (name, o) ∈ references -> o = Some one \/ o = Some two \/ o = Some three.
Proof.
  unfold references. intros H.
  repeat (apply elem_of_cons in H as [H|H]; [injection H as _ ->; auto|]). by apply elem_of_nil in H.
Qed.
End RefsExample.

Lemma upstream_listing_agrees_witness :
  exists listing, ls_remote_lines (advertisement RefsExample.adverts) = Some listing /\
    UpstreamRefs_hash (fun s => s) (parse_upstream_refs listing)
    = MirrorRefs_hash (fun s => s) (MirrorRefs_read (fun s => s) (Some "refs/heads/main") RefsExample.references).
Proof.
  destruct (upstream_listing_agrees (fun s => s) RefsExample.adverts (Some "refs/heads/main") RefsExample.references
    RefsExample.adverts_ok) as (listing & Hl & _ & _ & Hsame & Hhash).
  - intros name id Hin. destruct (RefsExample.references_in _ _ Hin) as [[= ->]|[[= ->]|[= ->]]]; by vm_compute.
  - done.
  - exists listing. split; [exact Hl|]. apply Hhash, Hsame.
    + vm_compute. apply Permutation_swap.
    + by vm_compute.
    + by vm_compute.
Defined.

#[global] Instance branch_eq_dec : EqDecision Branch.
Proof. solve_decision. Defined.
#[global] Instance branches_artifact_eq_dec : EqDecision BranchesArtifact.
Proof. solve_decision. Defined.
#[global] Instance branch_countable : Countable Branch :=
  inj_countable' (fun b => (b_name b, b_commit b)) (fun p => {| b_name := p.1; b_commit := p.2 |})
    (fun b => match b with Build_Branch _ _ => eq_refl end).
#[global] Instance branches_artifact_countable : Countable BranchesArtifact :=
  inj_countable' (fun a => (ba_default_branch a, ba_base a, ba_branches a))
    (fun p => {| ba_default_branch := p.1.1; ba_base := p.1.2; ba_branches := p.2 |})
    (fun a => match a with Build_BranchesArtifact _ _ _ => eq_refl end).

Lemma branches_roundtrip_witness :
  exists b branches, MirrorRefs_build to_wire Ok (MirrorRefs_read (fun s => s) (Some "refs/heads/main") RefsExample.references) = Ok b /\
    branches_decode of_wire Ok b = Ok branches /\ br_base branches = Some RefsExample.one.
Proof.
  set (m := MirrorRefs_read (fun s => s) (Some "refs/heads/main") RefsExample.references).
  exists (to_wire (MirrorRefs_artifact m)).
  destruct (branches_roundtrip (fun s => s) to_wire of_wire Ok Ok of_to_wire ltac:(by intros raw c [= <-])
    (Some "refs/heads/main") RefsExample.references (to_wire (MirrorRefs_artifact m))) as [H _].
  - apply (bool_decide_unpack (NoDup _)). by vm_compute.
  - intros name id Hin. destruct (RefsExample.references_in _ _ Hin) as [[= ->]|[[= ->]|[= ->]]]; eexists; by vm_compute.
  - done.
  - eexists. split; [done|]. split; [exact H|]. cbn. by vm_compute.
Defined.
