(* ===== verification/RefsPublish.v ===== *)
(** A repository's published refs ([rust/src/server/refs.rs]): the tags artifact,
    the branches artifact and its side pack, built from the mirror and named by the
    control store; the side pack of [rust/src/branches.rs]; and when the poller
    refreshes them.

    Git ([pack-objects], ancestry), the CAS hash, the upload and the artifacts'
    encodings are parameters. The locks that keep publishes of one repository apart
    make a publish one step; the background refresh it may ask for is part of its
    result. *)

From S2P Require Import Prelude Bytes Provider Validation Outputs Control ControlInv ControlThms Worker Tags Refs.

(** The server's state a publish reads and writes: the control store, the
    artifacts stored, and each mirror's [ripclone-side-tips] file. *)
Record World {S : Serde} := { w_store : Store; w_storage : gmap string bytes; w_tips : gmap string string }.
#[global] Arguments World : clear implicits.

#[export] Instance side_pack_eq_dec : EqDecision SidePack.
Proof. solve_decision. Defined.
#[export] Instance published_tags_eq_dec : EqDecision PublishedTags.
Proof. solve_decision. Defined.
#[export] Instance repo_branches_eq_dec : EqDecision RepoBranches.
Proof. solve_decision. Defined.
#[export] Instance repo_refs_eq_dec : EqDecision RepoRefs.
Proof. solve_decision. Defined.

Definition SIDE_LAYERS : nat := 8.

(** What a publish rebuilds. *)
Inductive Scope := TagsOnly | All.

Section refs_publish.
Context {S : Serde} (hash : bytes -> string).
Definition hash_text (s : string) : string := hash (String.list_byte_of_string s).
(** [put_file_async], [git pack-objects] of the tips but not the excluded, giving
    a pack and its idx, [is_ancestor], and the artifacts' bytes. *)
Context (upload : string -> bytes -> Result unit)
  (pack_objects_excluding : list string -> list string -> Result (bytes * bytes))
  (is_ancestor : string -> string -> Result bool)
  (tags_build : list (string * string) -> Result bytes) (branches_build : MirrorRefs -> Result bytes).
(** The size of a stored artifact, when it can be read; whether the side tips file
    can be written. *)
Context (size_of : string -> option N) (can_write_tips : bool).

(** [MirrorRefs::side_pack]. A pack of no objects is its header and checksum. *)
Definition side_pack_of (m : MirrorRefs) (older : list string) : Result (option (bytes * bytes)) :=
  match MirrorRefs_base m with
  | None => Ok None
  | Some base =>
      let tips := List.filter (fun id => negb (bool_decide (id = base)) && negb (bool_decide (id ∈ older))) (side_tips m) in
      if bool_decide (tips = []) then Ok None
      else
        let? (pack, idx) := pack_objects_excluding tips (base :: older) in
        if (nlen pack <=? 32)%N then Ok None else Ok (Some (pack, idx))
  end.

(** [put_bytes] and [put_file]. *)
Definition put (b : bytes) : Stateful (World S) (string * N) := fun w =>
  match upload (hash b) b with
  | Ok _ => ({| w_store := w_store w; w_storage := <[hash b := b]> (w_storage w); w_tips := w_tips w |}, Ok (hash b, nlen b))
  | Err e => (w, Err e)
  end.

Definition build_tags (refs : MirrorRefs) : Stateful (World S) PublishedTags :=
  let! bytes := lift (tags_build (mr_tags refs)) in
  let! (artifact, len) := put bytes in
  sret {| pt_artifact := artifact; pt_len := len; pt_count := nlen (mr_tags refs); pt_hash := mr_tags_hash refs |}.

Definition build_side_pack (refs : MirrorRefs) (older : list string) : Stateful (World S) (option SidePack) :=
  let! files := lift (side_pack_of refs older) in
  match files with
  | None => sret None
  | Some (pack, idx) =>
      let! (pack, pack_len) := put pack in
      let! (idx, idx_len) := put idx in
      sret (Some {| side_pack := pack; side_pack_len := pack_len; side_idx := idx; side_idx_len := idx_len |})
  end.
Definition whole_side_pack (refs : MirrorRefs) : Stateful (World S) (list SidePack) :=
  let! layer := build_side_pack refs [] in
  sret (option_list layer).

(** The side tips the mirror's file lists, when they are the ones [expected]
    names. *)
Definition read_side_tips (repo : RepoId) (expected : string) : Stateful (World S) (option (list string)) := fun w =>
  (w, Ok (listed ← w_tips w !! storage_key repo;
          if str_utf8 listed && bool_decide (hash_text listed = expected) then Some (lines listed) else None)).
Definition write_side_tips (repo : RepoId) (tips : list string) : Stateful (World S) unit := fun w =>
  (if can_write_tips
   then {| w_store := w_store w; w_storage := w_storage w;
           w_tips := <[storage_key repo := join_with newline_char tips]> (w_tips w) |}
   else w, Ok tt).

(** Whether the default branch only moved forward since [previous]. *)
Definition moved_forward (previous : option RepoBranches) (base : option string) : Result bool :=
  match previous, base with
  | Some previous, Some base =>
      match rb_side_base previous with Some side_base => is_ancestor side_base base | None => Ok false end
  | _, _ => Ok false
  end.

(** The side pack of [refs]: kept, with one more layer, or whole. *)
Definition side_layers (repo : RepoId) (refs : MirrorRefs) (previous : option RepoBranches)
    : Stateful (World S) (option string * list SidePack) :=
  let base := MirrorRefs_base refs in
  let whole := let! layers := whole_side_pack refs in sret (base, layers) in
  match previous with
  | Some previous =>
      if bool_decide (rb_side_tips previous = side_tips_hash hash_text refs)
      then sret (rb_side_base previous, rb_side_packs previous)
      else if length (rb_side_packs previous) <? SIDE_LAYERS then
        let! older := read_side_tips repo (rb_side_tips previous) in
        match older with
        | Some older =>
            let! layer := stry (build_side_pack refs older) in
            match layer with
            | Ok layer => sret (base, rb_side_packs previous ++ option_list layer)
            | Err _ => whole
            end
        | None => whole
        end
      else whole
  | None => whole
  end.

Definition publish_branches (repo : RepoId) (refs : MirrorRefs) (previous : option RepoBranches) (tags : PublishedTags)
    : Stateful (World S) RepoBranches :=
  let! built := lift (branches_build refs) in
  let! (artifact, len) := put built in
  let! forward := lift (moved_forward previous (MirrorRefs_base refs)) in
  let! (side_base, side_packs) := side_layers repo refs (if forward then previous else None) in
  let! _ := write_side_tips repo (side_tips refs) in
  sret {| rb_artifact := artifact; rb_len := len; rb_refs_hash := MirrorRefs_hash hash_text refs;
          rb_default_branch := mr_default_branch refs; rb_base := MirrorRefs_base refs; rb_side_base := side_base;
          rb_side_tips := side_tips_hash hash_text refs; rb_side_packs := side_packs; rb_tags := tags |}.

(** ** Reading and writing the control store *)
Definition on_store {A} (f : Store -> Store * Result A) : Stateful (World S) A := fun w =>
  let '(st, r) := f (w_store w) in ({| w_store := st; w_storage := w_storage w; w_tips := w_tips w |}, r).
Definition read_refs_row (repo : RepoId) : Stateful (World S) (option RepoRefs) := on_store (fun st => (st, get_refs repo st)).

(** [RepoRefs::default]. *)
Definition RepoRefs_default : RepoRefs :=
  {| tags_artifact := ""; tags_len := 0; tags_count := 0; tags_hash := ""; branches := None; ready_ := None |}.

Definition full_ready (repo : RepoId) (commit : option string) : Stateful (World S) bool :=
  match commit with
  | None => sret false
  | Some commit =>
      on_store (fun st => (st, let? row := status repo commit st in
        Ok match row with Some row => bool_decide (is_Some (Out_ready (br_full row))) | None => false end))
  end.

(** The branches of a publish of everything. *)
Definition new_branches (repo : RepoId) (refs : MirrorRefs) : Stateful (World S) RepoBranches :=
  let! stored := read_refs_row repo in
  let stored := default RepoRefs_default stored in
  let rebuild previous :=
    let! tags :=
      if bool_decide (tags_hash stored = mr_tags_hash refs)
      then sret {| pt_artifact := tags_artifact stored; pt_len := tags_len stored; pt_count := tags_count stored;
                   pt_hash := tags_hash stored |}
      else build_tags refs in
    publish_branches repo refs previous tags in
  match branches stored with
  | Some previous =>
      if bool_decide (rb_refs_hash previous = MirrorRefs_hash hash_text refs) then sret previous else rebuild (Some previous)
  | None => rebuild None
  end.

(** The row's tags, as the publish leaves them. *)
Definition set_tags (row : RepoRefs) (tags : PublishedTags) (hash : string) : RepoRefs :=
  {| tags_artifact := pt_artifact tags; tags_len := pt_len tags; tags_count := pt_count tags; tags_hash := hash;
     branches := branches row; ready_ := ready_ row |}.
Definition row_tags (stored : option RepoRefs) (refs : MirrorRefs) (published : option RepoBranches)
    : Stateful (World S) RepoRefs :=
  let row := default RepoRefs_default stored in
  if bool_decide (stored = None) || negb (bool_decide (tags_hash row = mr_tags_hash refs)) then
    let! tags :=
      match published with
      | Some b => if bool_decide (pt_hash (rb_tags b) = mr_tags_hash refs) then sret (rb_tags b) else build_tags refs
      | None => build_tags refs
      end in
    sret (set_tags row tags (mr_tags_hash refs))
  else sret row.
Definition set_branches (row : RepoRefs) (b r : option RepoBranches) : RepoRefs :=
  {| tags_artifact := tags_artifact row; tags_len := tags_len row; tags_count := tags_count row; tags_hash := tags_hash row;
     branches := b; ready_ := r |}.
(** Branches it replaces stay as ready when their base's Full is ready. *)
Definition row_branches (repo : RepoId) (row : RepoRefs) (published : option RepoBranches) : Stateful (World S) RepoRefs :=
  match published with
  | Some b =>
      if bool_decide (branches row = Some b) then sret row
      else
        match branches row with
        | Some replaced =>
            let! ready := full_ready repo (rb_base replaced) in
            sret (set_branches row (Some b) (if ready then Some replaced else ready_ row))
        | None => sret (set_branches row (Some b) (ready_ row))
        end
  | None => sret row
  end.

(** [publish_pinned]: [refs1] are the mirror's refs read before the lock of a
    publish of everything, [refs2] those read under it. The artifacts the refs name
    afterwards, and whether a refresh is started for a first build. *)
Definition publish_pinned (repo : RepoId) (scope : Scope) (refs1 refs2 : MirrorRefs) : Stateful (World S) (Hashes * bool) :=
  let! published :=
    match scope with TagsOnly => sret None | All => let! b := new_branches repo refs1 in sret (Some b) end in
  let! stored := read_refs_row repo in
  let! row := row_tags stored refs2 published in
  let! row := row_branches repo row published in
  let! written :=
    if bool_decide (stored = Some row) then sret true
    else
      let! _ := on_store (fun st => (record_artifact_sizes size_of (RepoRefs_artifacts row) st, Ok tt)) in
      on_store (set_refs repo row) in
  if (written : bool) then sret (RepoRefs_artifacts row, bool_decide (branches row = None)) else sret (∅, false).

(** The poller's question. *)
Definition changed (repo : RepoId) (upstream : UpstreamRefs) (st : Store) : Result bool :=
  let? stored := get_refs repo st in
  match stored ≫= branches with
  | None => Ok true
  | Some b =>
      let kept := option_filter (fun kept => bool_decide (kept ∈ map fst (ur_branches upstream))) (rb_default_branch b) in
      let default_branch := match ur_default_branch upstream with Some d => Some d | None => kept end in
      Ok (negb (bool_decide (rb_refs_hash b = refs_hash hash_text default_branch (ur_branches upstream) (ur_tags upstream))))
  end.
End refs_publish.

(** ** Side tips *)
Lemma elem_of_side_tips m id :
  id ∈ side_tips m <->
  (exists name, (name, id) ∈ mr_branches m /\ mr_default_branch m <> Some name) \/ (exists name, (name, id) ∈ mr_tags m).
Proof.
  unfold side_tips. rewrite (dedup_by_ext _ (fun x y => bool_decide (x = y))).
  2:{ intros x y. destruct (String.eqb_spec x y); symmetry; [by apply bool_decide_eq_true_2|by apply bool_decide_eq_false_2]. }
  set (l := map snd _).
  pose proof (dedup_by_spec String.leb (fun s => s) str_leb_total str_leb_trans str_leb_antisym (sort_by String.leb l)
    (sort_by_key_sorted String.leb (fun s => s) str_leb_total str_leb_trans l)) as (_ & _ & Hin & Hall).
  transitivity (id ∈ l).
  { split; [by intros H%Hin%elem_of_sort_by|]. intros H. destruct (Hall id) as (y & Hy & ->); [by apply elem_of_sort_by|done]. }
  unfold l. rewrite elem_of_lmap. setoid_rewrite elem_of_app. setoid_rewrite elem_of_lfilter. split.
  - intros ([name i] & -> & [[Hb Hd]|Ht]); [left|right; eauto]. exists name. split; [done|]. cbn in Hd.
    apply negb_true_iff, bool_decide_eq_false in Hd. congruence.
  - intros [(name & Hb & Hd)|(name & Ht)]; (exists (name, id); split; [done|]); [left|by right].
    split; [done|]. cbn. apply negb_true_iff, bool_decide_eq_false. congruence.
Qed.

Lemma NoDup_fst_inj {A B} (l : list (A * B)) x y z : NoDup (map fst l) -> (x, y) ∈ l -> (x, z) ∈ l -> y = z.
Proof.
  induction l as [|[a b] l IH]; [by intros _ ?%elem_of_nil|]. intros [Hn Hl]%NoDup_cons [[= -> ->]|H]%elem_of_cons [[= E]|H']%elem_of_cons.
  - done.
  - destruct Hn. apply elem_of_lmap. by exists (a, z).
  - subst a z. destruct Hn. apply elem_of_lmap. by exists (x, y).
  - by apply IH.
Qed.

(** Texts of ids are read back. *)
Definition is_id (s : string) : Prop := validate_object_id s = Ok tt.
Lemma hex_digit_lower n : (n < 16)%N -> is_lower_hex (hex_digit n) = true.
Proof. intros H%nibble_hex_digit. by destruct (hex_digit n) as [[] [] [] [] [] [] [] []]; vm_compute in H |- *. Qed.
Lemma hex_encode_lower b : str_all is_lower_hex (hex_encode b) = true.
Proof.
  induction b as [|x b IH]; [done|]. pose proof (Byte.to_N_bounded x) as Hx. unfold str_all in *. cbn -[is_lower_hex hex_digit].
  rewrite !hex_digit_lower; [exact IH|apply N.mod_lt; lia|apply N.Div0.div_lt_upper_bound; lia].
Qed.
Lemma id_of_parse s : (exists i, parse_id s = Ok i) -> is_id s.
Proof.
  intros (i & [Hl <-]%parse_id_ok). unfold is_id, validate_object_id. rewrite str_len_hex. unfold nlen. rewrite Hl.
  cbn [N.of_nat N.mul N.eqb negb andb]. by rewrite hex_encode_lower.
Qed.
Lemma id_not_empty s : is_id s -> s <> "".
Proof. by intros H ->. Qed.
Lemma ids_no_newline tips : Forall is_id tips -> Forall (fun s => contains_char newline_char s = false) tips.
Proof. intros H. eapply Forall_impl; [exact H|]. by intros s (_ & _ & _ & ? & _)%object_id_token. Qed.
Lemma join_ids_inj tips tips' : Forall is_id tips -> Forall is_id tips' ->
  join_with newline_char tips = join_with newline_char tips' -> tips = tips'.
Proof.
  intros H H' E. apply (f_equal (split_on newline_char)) in E.
  assert (Hs : forall l, Forall is_id l -> l <> [] -> split_on newline_char (join_with newline_char l) = l)
    by (intros l Hl Hne; apply split_on_join; [done|by apply ids_no_newline]).
  destruct tips as [|t tips], tips' as [|t' tips']; [done|..].
  - rewrite (Hs (t' :: tips')) in E by done. cbn in E. injection E as <- _. apply Forall_cons in H' as [H' _]. by destruct (id_not_empty _ H').
  - rewrite (Hs (t :: tips)) in E by done. cbn in E. injection E as -> _. apply Forall_cons in H as [H _]. by destruct (id_not_empty _ H).
  - by rewrite !Hs in E.
Qed.
Lemma lines_join_ids tips : Forall is_id tips -> lines (join_with newline_char tips) = tips.
Proof.
  intros H. destruct tips as [|t tips]; [done|]. unfold lines. rewrite split_on_join by (done || by apply ids_no_newline).
  induction H as [|x l Hx Hl IH]; [done|]. destruct l as [|y l].
  - cbn. rewrite bool_decide_eq_false_2; [done|by apply id_not_empty].
  - cbn [lines_of]. unfold strip_suffix_char at 1.
    rewrite rsplit_once_None by (by apply object_id_token in Hx as (_ & _ & _ & _ & ?)). cbn [default]. f_equal. exact IH.
Qed.

(** ** What a publish promises *)
Section complete.
Context {S : Serde} {SOk : SerdeOk S} (cfg : StoreConfig) (hash : bytes -> string).
Context (upload : string -> bytes -> Result unit)
  (pack_objects_excluding : list string -> list string -> Result (bytes * bytes))
  (is_ancestor : string -> string -> Result bool)
  (tags_build : list (string * string) -> Result bytes) (branches_build : MirrorRefs -> Result bytes)
  (size_of : string -> option N) (can_write_tips : bool).

(** Which objects an id reaches, and which a pack holds. *)
Context (reach : string -> string -> Prop) (pack_holds : bytes -> string -> Prop).
(** Git, and a hash with no collisions: [pack-objects] packs what the tips reach and
    the excluded do not; a pack of objects is larger than an empty one; an ancestor's
    history is in its descendant's. *)
Record GitOk : Prop := {
  go_pack tips excluded pack idx : pack_objects_excluding tips excluded = Ok (pack, idx) ->
    forall t o, t ∈ tips -> reach t o -> (exists e, e ∈ excluded /\ reach e o) \/ pack_holds pack o;
  go_small pack o : pack_holds pack o -> (32 < nlen pack)%N;
  go_ancestor old new : is_ancestor old new = Ok true -> forall o, reach old o -> reach new o;
  go_hash a b : hash a = hash b -> a = b;
}.
Context (Hgit : GitOk).
Local Abbreviation hash_text := (hash_text hash).
Local Abbreviation World := (World S).

(** Stored artifacts are stored under their hash. *)
Definition addressed (storage : gmap string bytes) : Prop := forall h b, storage !! h = Some b -> hash b = h.
(** What a step of a publish does to the artifacts. *)
Definition grows (w w' : World) : Prop :=
  w_store w' = w_store w /\ (addressed (w_storage w) -> w_storage w ⊆ w_storage w' /\ addressed (w_storage w')).
#[global] Instance grows_preorder : PreOrder grows.
Proof.
  split; [by intros w|]. intros a b c [H1 H2] [H3 H4]. split; [congruence|]. intros Ha.
  destruct (H2 Ha) as [Hab Hb]. destruct (H4 Hb) as [Hbc Hc]. split; [by etransitivity|done].
Qed.

Definition layers_hold (storage : gmap string bytes) (layers : list SidePack) (o : string) : Prop :=
  exists l pack, l ∈ layers /\ storage !! side_pack l = Some pack /\ pack_holds pack o.
(** What the tips reach is in the history of [base] or in the layers. *)
Definition complete (storage : gmap string bytes) (base : string) (tips : list string) (layers : list SidePack) : Prop :=
  forall t o, t ∈ tips -> reach t o -> reach base o \/ layers_hold storage layers o.

(** What the mirror's references list: names are unique, and ids SHA-1. *)
Definition mirror_ok (m : MirrorRefs) : Prop :=
  exists head references, NoDup (map fst references) /\
    (forall name id, (name, Some id) ∈ references -> exists i, parse_id id = Ok i) /\
    m = MirrorRefs_read hash_text head references.

(** Published branches: the artifact of some state of the mirror is stored, and with
    the layers' packs the default branch's history completes every ref of it. *)
Definition branches_ok (storage : gmap string bytes) (b : RepoBranches) : Prop :=
  exists m artifact, mirror_ok m /\ branches_build m = Ok artifact /\ storage !! rb_artifact b = Some artifact /\
    rb_refs_hash b = MirrorRefs_hash hash_text m /\ rb_default_branch b = mr_default_branch m /\ rb_base b = MirrorRefs_base m /\
    rb_side_tips b = side_tips_hash hash_text m /\
    (forall s, rb_side_base b = Some s -> complete storage s (side_tips m) (rb_side_packs b)) /\
    (forall base, rb_base b = Some base -> exists s, rb_side_base b = Some s /\ forall o, reach s o -> reach base o).

Lemma layers_hold_mono storage storage' layers o :
  storage ⊆ storage' -> layers_hold storage layers o -> layers_hold storage' layers o.
Proof. intros Hs (l & pack & Hl & Hp & Ho). exists l, pack. split_and!; [done| |done]. by eapply lookup_weaken. Qed.
Lemma branches_ok_mono storage storage' b : storage ⊆ storage' -> branches_ok storage b -> branches_ok storage' b.
Proof.
  intros Hs (m & a & H1 & H2 & H3 & Hr & Hd & H4 & H5 & H6 & H7). exists m, a. split_and!; [done..| |done|done|done|done| |done].
  - by eapply lookup_weaken.
  - intros s Hsb t o Ht Ho. destruct (H6 s Hsb t o Ht Ho); [by left|right]. by eapply layers_hold_mono.
Qed.

Lemma mirror_ids m name id : mirror_ok m -> (name, id) ∈ mr_branches m ++ mr_tags m -> is_id id.
Proof.
  intros (head & references & Hnd & Hids & ->) [H|H]%elem_of_app.
  - apply (read_branches hash_text head references Hnd) in H as [_ H]. by eapply id_of_parse, Hids.
  - cbn in H. apply elem_of_sort_by, list_elem_of_omap in H as (r & Hr & [-> _]%list_tag_Some). apply below_in in Hr.
    by eapply id_of_parse, Hids.
Qed.
Lemma side_tips_ids m : mirror_ok m -> Forall is_id (side_tips m).
Proof.
  intros Hm. apply Forall_forall. intros id [(name & Hn & _)|(name & Hn)]%elem_of_side_tips; (eapply (mirror_ids m name); [done|]); apply elem_of_app; auto.
Qed.
Lemma side_tips_hash_inj m m' : mirror_ok m -> mirror_ok m' ->
  side_tips_hash hash_text m = side_tips_hash hash_text m' -> side_tips m = side_tips m'.
Proof.
  intros Hm Hm' H%(go_hash Hgit). apply join_ids_inj; [by apply side_tips_ids..|].
  apply (f_equal String.string_of_list_byte) in H. by rewrite !String.string_of_list_byte_of_string in H.
Qed.

(** *** Storing *)
Lemma put_spec b w :
  spec (put hash upload b) w (fun w' r => grows w w' /\ r.1 = hash b /\ w_storage w' !! r.1 = Some b) (grows w).
Proof.
  unfold spec, put. destruct (upload (hash b) b); [|done]. split_and!; [|done|apply lookup_insert_eq].
  split; [done|]. intros Ha. cbn. split.
  - apply map_subseteq_spec. intros h b' Hb. pose proof (Ha h b' Hb) as <-.
    destruct (decide (hash b = hash b')) as [E|E]; [|by rewrite lookup_insert_ne].
    rewrite E, lookup_insert_eq. by rewrite (go_hash Hgit _ _ E).
  - intros h b' [[<- <-]|[_ Hb]]%lookup_insert_Some; [done|]. by apply Ha.
Qed.

(** What the pack of a layer holds, with the tips it builds on. *)
Lemma side_pack_of_spec m older :
  match side_pack_of pack_objects_excluding m older with
  | Ok files => forall base, MirrorRefs_base m = Some base -> forall t o, t ∈ side_tips m -> reach t o ->
      reach base o \/ (exists t', t' ∈ older /\ reach t' o) \/ (exists pack idx, files = Some (pack, idx) /\ pack_holds pack o)
  | Err _ => True
  end.
Proof.
  unfold side_pack_of. destruct (MirrorRefs_base m) as [base|]; [|done]. set (tips := List.filter _ _).
  assert (Htips : forall t, t ∈ side_tips m -> t = base \/ t ∈ older \/ t ∈ tips).
  { intros t Ht. destruct (decide (t = base)); [by left|]. destruct (decide (t ∈ older)); [by right; left|]. right; right.
    apply elem_of_lfilter. split; [done|]. by rewrite !bool_decide_eq_false_2. }
  case_bool_decide as Hnil.
  - intros b [= <-] t o [->|[Ht|Ht]]%Htips Ho; [by left|right; left; eauto|]. rewrite Hnil in Ht. by apply elem_of_nil in Ht.
  - destruct (pack_objects_excluding tips (base :: older)) as [[pack idx]|] eqn:E; [|done]. cbn [rbind].
    pose proof (go_pack Hgit _ _ _ _ E) as Hp.
    assert (Hcase : forall t o, t ∈ side_tips m -> reach t o ->
      reach base o \/ (exists t', t' ∈ older /\ reach t' o) \/ pack_holds pack o).
    { intros t o [->|[Ht|Ht]]%Htips Ho; [by left|right; left; eauto|].
      destruct (Hp t o Ht Ho) as [(e & [->|He]%elem_of_cons & Heo)|Hh]; [by left|right; left; eauto|by right; right]. }
    destruct (N.leb_spec (nlen pack) 32) as [Hsmall|_]; intros b [= <-] t o Ht Ho;
      destruct (Hcase t o Ht Ho) as [?|[?|Hh]]; auto; [|right; right; eauto].
    apply (go_small Hgit) in Hh. lia.
Qed.

Lemma build_side_pack_spec m older w :
  spec (build_side_pack hash upload pack_objects_excluding m older) w
    (fun w' layer => grows w w' /\ (addressed (w_storage w) -> forall base, MirrorRefs_base m = Some base -> forall t o, t ∈ side_tips m -> reach t o ->
       reach base o \/ (exists t', t' ∈ older /\ reach t' o) \/ layers_hold (w_storage w') (option_list layer) o))
    (grows w).
Proof.
  unfold build_side_pack. eapply spec_bind; [apply (spec_lift _ _ (fun w' files => w' = w /\ side_pack_of pack_objects_excluding m older = Ok files)); [done|done]|].
  intros w1 files [-> Hf]. pose proof (side_pack_of_spec m older) as Hs. rewrite Hf in Hs.
  destruct files as [[pack idx]|].
  - eapply spec_bind; [apply put_spec|]. intros w1 [h len] (Hg1 & Hh & Hst). cbn [fst] in *.
    eapply spec_bind; [eapply spec_weaken; [apply put_spec| |]|].
    + intros w2 r (Hg2 & Hr). exact (conj Hg2 Hr).
    + intros w2 Hg2. by etransitivity.
    + intros w2 [hi leni] (Hg2 & _). apply spec_ret. split; [by etransitivity|]. intros Ha base Hb t o Ht Ho.
      destruct (Hs base Hb t o Ht Ho) as [?|[?|(p & i & [= <- <-] & Hp)]]; auto. right; right.
      exists {| side_pack := h; side_pack_len := len; side_idx := hi; side_idx_len := leni |}, pack.
      split_and!; [cbn; set_solver| |done]. cbn. destruct Hg1 as [_ Hg1], Hg2 as [_ Hg2]. destruct (Hg1 Ha) as [_ Ha1].
      destruct (Hg2 Ha1) as [Hsub _]. by eapply lookup_weaken.
  - apply spec_ret. split; [done|]. intros _ base Hb t o Ht Ho. destruct (Hs base Hb t o Ht Ho) as [?|[?|(? & ? & ? & _)]]; auto; done.
Qed.

(** *** The layers *)
(** What the layers of [refs] are, given the branches they build on. *)
Definition layered (refs : MirrorRefs) (storage : gmap string bytes) (r : option string * list SidePack) : Prop :=
  (forall s, r.1 = Some s -> complete storage s (side_tips refs) r.2) /\
  (forall base, MirrorRefs_base refs = Some base -> exists s, r.1 = Some s /\ forall o, reach s o -> reach base o).
Definition after (w : World) (Q : World -> Prop) (w' : World) : Prop := grows w w' /\ (addressed (w_storage w) -> Q w').

Lemma read_side_tips_spec repo m w : mirror_ok m ->
  spec (read_side_tips hash repo (side_tips_hash hash_text m)) w
    (fun w' older => w' = w /\ (older = None \/ older = Some (side_tips m))) (fun _ => False).
Proof.
  intros Hm. unfold spec, read_side_tips. split; [done|].
  destruct (w_tips w !! storage_key repo) as [listed|]; [|by left]. cbn [mbind option_bind].
  destruct (str_utf8 listed); cbn [andb]; [|by left]. case_bool_decide as E; [|by left]. right.
  apply (go_hash Hgit) in E. apply (f_equal String.string_of_list_byte) in E.
  rewrite !String.string_of_list_byte_of_string in E. subst listed. by rewrite lines_join_ids by by apply side_tips_ids.
Qed.

Lemma whole_spec refs w :
  spec (let! layers := whole_side_pack hash upload pack_objects_excluding refs in sret (MirrorRefs_base refs, layers)) w
    (fun w' r => after w (fun w' => layered refs (w_storage w') r) w') (grows w).
Proof.
  pose proof (build_side_pack_spec refs [] w) as H. unfold spec, whole_side_pack, sbind in *.
  destruct (build_side_pack _ _ _ refs [] w) as [w1 [layer|e]]; [|done]. destruct H as [Hg Hl]. split; [done|].
  intros Ha. split; cbn [fst snd].
  - intros s Hs t o Ht Ho. destruct (Hl Ha s Hs t o Ht Ho) as [?|[(t' & Ht' & _)|?]]; auto. by apply elem_of_nil in Ht'.
  - intros base Hb. eauto.
Qed.

Lemma layers_hold_app storage layers layers' o :
  layers_hold storage layers o \/ layers_hold storage layers' o -> layers_hold storage (layers ++ layers') o.
Proof. intros [(l & p & Hl & H)|(l & p & Hl & H)]; exists l, p; split; try done; apply elem_of_app; auto. Qed.

Lemma side_layers_spec repo refs previous w : mirror_ok refs ->
  (forall p, previous = Some p -> branches_ok (w_storage w) p /\
     exists s base, rb_side_base p = Some s /\ MirrorRefs_base refs = Some base /\ is_ancestor s base = Ok true) ->
  spec (side_layers hash upload pack_objects_excluding repo refs previous) w
    (fun w' r => after w (fun w' => layered refs (w_storage w') r) w') (grows w).
Proof.
  intros Hm Hp. unfold side_layers. destruct previous as [p|]; [|apply whole_spec].
  destruct (Hp p eq_refl) as [(m & artifact & Hm0 & _ & _ & _ & _ & _ & Htips & Hc & _) (s & base & Hs & Hb & Hf)].
  pose proof (go_ancestor Hgit _ _ Hf) as Hreach. specialize (Hc s Hs). rewrite Htips. case_bool_decide as E.
  - apply spec_ret. split; [done|]. intros _. apply side_tips_hash_inj in E; [|done..]. split; cbn [fst snd].
    + intros s'. rewrite Hs. intros [= <-]. by rewrite <- E.
    + intros base'. rewrite Hb. intros [= <-]. eauto.
  - destruct (length (rb_side_packs p) <? SIDE_LAYERS); [|apply whole_spec].
    eapply spec_bind; [eapply spec_weaken; [by apply read_side_tips_spec|intros w' x H; exact H|done]|].
    intros w' older [-> [->| ->]]; [apply whole_spec|].
    eapply spec_bind; [apply (spec_try _ w (fun w' r => grows w w' /\ forall layer, r = Ok layer -> addressed (w_storage w) -> forall base, MirrorRefs_base refs = Some base ->
      forall t o, t ∈ side_tips refs -> reach t o ->
      reach base o \/ (exists t', t' ∈ side_tips m /\ reach t' o) \/ layers_hold (w_storage w') (option_list layer) o))|].
    + eapply spec_weaken; [apply build_side_pack_spec| |].
      * intros w' layer [Hg Hl]. split; [done|]. intros ? [= <-]. exact Hl.
      * intros w' Hg e. by split.
    + intros w1 [layer|e] [Hg Hl]; [specialize (Hl layer eq_refl)|].
      * apply spec_ret. split; [done|]. intros Ha. destruct (proj2 Hg Ha) as [Hsub _]. split; cbn [fst snd].
        -- rewrite Hb. intros ? [= <-] t o Ht Ho.
           destruct (Hl Ha base Hb t o Ht Ho) as [?|[(t' & Ht' & Ho')|?]]; [by left| |right; apply layers_hold_app; by right].
           destruct (Hc t' o Ht' Ho') as [?|?]; [left; by apply Hreach|right; apply layers_hold_app; left].
           by eapply layers_hold_mono.
        -- intros b Hb'. eauto.
      * eapply spec_weaken; [apply whole_spec| |].
        -- intros w' r [Hg' Hr]. split; [by etransitivity|]. intros Ha. apply Hr. by apply (proj2 Hg Ha).
        -- intros w' Hg'. by etransitivity.
Qed.

(** *** The branches *)
Lemma grows_tips w tips : grows w {| w_store := w_store w; w_storage := w_storage w; w_tips := tips |}.
Proof. by split. Qed.
Lemma publish_branches_spec repo refs previous tags w : mirror_ok refs ->
  (forall p, previous = Some p -> branches_ok (w_storage w) p) -> addressed (w_storage w) ->
  spec (publish_branches hash upload pack_objects_excluding is_ancestor branches_build can_write_tips repo refs previous tags) w
    (fun w' b => grows w w' /\ branches_ok (w_storage w') b /\ rb_refs_hash b = MirrorRefs_hash hash_text refs) (grows w).
Proof.
  intros Hm Hp Ha. unfold publish_branches.
  eapply spec_bind; [apply (spec_lift _ _ (fun w' built => w' = w /\ branches_build refs = Ok built)); done|].
  intros w1 built [-> Hbuilt]. eapply spec_bind; [apply put_spec|]. intros w1 [artifact len] (Hg1 & _ & Hst). cbn [fst] in Hst.
  destruct (proj2 Hg1 Ha) as [Hsub1 Ha1].
  eapply spec_bind; [apply (spec_lift _ _ (fun w' f => w' = w1 /\ moved_forward is_ancestor previous (MirrorRefs_base refs) = Ok f)); done|].
  intros w2 forward [-> Hf]. eapply spec_bind; [eapply spec_weaken; [apply side_layers_spec; [done|]| |]|].
  - intros p. destruct forward; [|done]. intros ->. split.
    { eapply branches_ok_mono; [exact Hsub1|]. by apply Hp. }
    unfold moved_forward in Hf. destruct (MirrorRefs_base refs) as [base|]; [|done].
    destruct (rb_side_base p) as [s|]; [|done]. eauto.
  - intros w' r H. exact H.
  - intros w' H. by etransitivity.
  - intros w2 [side_base side_packs] [Hg2 Hl]. destruct (proj2 Hg2 Ha1) as [Hsub2 Ha2]. destruct (Hl Ha1) as [Hl1 Hl2].
    assert (Hg : forall w3, w_store w3 = w_store w2 -> w_storage w3 = w_storage w2 -> grows w w3).
    { intros w3 E1 E2. transitivity w1; [done|]. transitivity w2; [done|]. split; [done|]. rewrite E2. done. }
    unfold sbind, spec, write_side_tips. destruct can_write_tips; cbn.
    all: split_and!; [by apply Hg| |done]; exists refs, built; split_and!; try done; by eapply lookup_weaken.
Qed.

(** *** The control store's row *)
Definition row_names (row : RepoRefs) (b : RepoBranches) : Prop := branches row = Some b \/ ready_ row = Some b.
Definition row_ok (storage : gmap string bytes) (row : RepoRefs) : Prop := forall b, row_names row b -> branches_ok storage b.
Definition world_ok (w : World) : Prop :=
  addressed (w_storage w) /\ forall repo row, get_refs repo (w_store w) = Ok (Some row) -> row_ok (w_storage w) row.

Lemma world_ok_grows w w' : grows w w' -> world_ok w -> world_ok w'.
Proof.
  intros [Hs Hg] [Ha Hr]. destruct (Hg Ha) as [Hsub Ha']. split; [done|]. intros repo row. rewrite Hs.
  intros H%Hr b Hb. eapply branches_ok_mono; [exact Hsub|]. by apply H.
Qed.
Lemma row_ok_grows w w' row : grows w w' -> addressed (w_storage w) -> row_ok (w_storage w) row -> row_ok (w_storage w') row.
Proof. intros [_ Hg] Ha H b Hb. destruct (Hg Ha) as [Hsub _]. eapply branches_ok_mono; [exact Hsub|]. by apply H. Qed.

(** A read leaves the world as it is. *)
Lemma read_spec {A} (f : Store -> Result A) w :
  spec (on_store (fun st => (st, f st))) w (fun w' x => w' = w /\ f (w_store w) = Ok x) (eq w).
Proof. unfold spec, on_store. destruct w. cbn. by destruct (f _). Qed.

Lemma build_tags_published refs w :
  spec (build_tags hash upload tags_build refs) w (fun w' t => grows w w' /\ pt_hash t = mr_tags_hash refs) (grows w).
Proof.
  unfold build_tags. eapply spec_bind; [apply (spec_lift _ _ (fun w' _ => w' = w)); done|]. intros ? built ->.
  eapply spec_bind; [apply put_spec|]. intros w1 [a len] [Hg _]. by apply spec_ret.
Qed.

Lemma stored_ok repo w (stored : option RepoRefs) :
  world_ok w -> get_refs repo (w_store w) = Ok stored -> row_ok (w_storage w) (default RepoRefs_default stored).
Proof. intros [_ Hr] H. destruct stored as [row|]; [by apply (Hr repo)|]. by intros b [?|?]. Qed.

Lemma new_branches_spec repo refs w : mirror_ok refs -> world_ok w ->
  spec (new_branches hash upload pack_objects_excluding is_ancestor tags_build branches_build can_write_tips repo refs) w
    (fun w' b => grows w w' /\ branches_ok (w_storage w') b /\ rb_refs_hash b = MirrorRefs_hash hash_text refs) (grows w).
Proof.
  intros Hm Hw. unfold new_branches.
  eapply spec_bind; [eapply spec_weaken; [apply (read_spec (get_refs repo))|intros w' x H; exact H|by intros w' <-]|].
  intros w1 stored [-> Hs]. pose proof (stored_ok _ _ _ Hw Hs) as Hrow. set (row := default RepoRefs_default stored) in *.
  assert (Hre : forall previous, (forall p, previous = Some p -> branches_ok (w_storage w) p) ->
    spec (let! tags := if bool_decide (tags_hash row = mr_tags_hash refs)
            then sret {| pt_artifact := tags_artifact row; pt_len := tags_len row; pt_count := tags_count row; pt_hash := tags_hash row |}
            else build_tags hash upload tags_build refs in
          publish_branches hash upload pack_objects_excluding is_ancestor branches_build can_write_tips repo refs previous tags) w
      (fun w' b => grows w w' /\ branches_ok (w_storage w') b /\ rb_refs_hash b = MirrorRefs_hash hash_text refs) (grows w)).
  { intros previous Hp. eapply (spec_bind _ _ _ (fun w' _ => grows w w')).
    - case_bool_decide; [by apply spec_ret|]. eapply spec_weaken; [apply build_tags_published| |done]. by intros w' t [Hg _].
    - intros w2 tags Hg. destruct (world_ok_grows _ _ Hg Hw) as [Ha2 _]. eapply spec_weaken; [apply publish_branches_spec| |]; try done.
      + intros p Hp'. eapply branches_ok_mono; [apply (proj2 Hg), Hw|by apply Hp].
      + intros w' b (Hg' & H). split; [by etransitivity|exact H].
      + intros w' Hg'. by etransitivity. }
  destruct (branches row) as [p|] eqn:Eb; [|by apply Hre].
  destruct (bool_decide (rb_refs_hash p = _)) eqn:Eh; [|apply Hre; intros ? [= <-]; apply Hrow; by left].
  apply bool_decide_eq_true in Eh. apply spec_ret. split_and!; [done| |done]. apply Hrow. by left.
Qed.

Lemma row_tags_spec stored refs published w :
  spec (row_tags hash upload tags_build stored refs published) w
    (fun w' row => grows w w' /\ tags_hash row = mr_tags_hash refs /\
       branches row = branches (default RepoRefs_default stored) /\ ready_ row = ready_ (default RepoRefs_default stored)) (grows w).
Proof.
  unfold row_tags. destruct (bool_decide (stored = None) || negb (bool_decide (tags_hash (default RepoRefs_default stored) = mr_tags_hash refs))) eqn:E.
  - eapply (spec_bind _ _ _ (fun w' _ => grows w w')); [|intros w' t Hg; apply spec_ret; by split_and!].
    assert (Hb : spec (build_tags hash upload tags_build refs) w (fun w' _ => grows w w') (grows w))
      by (eapply spec_weaken; [apply build_tags_published|by intros w' t [Hg _]|done]).
    destruct published as [b|]; [|exact Hb].
    destruct (bool_decide (pt_hash (rb_tags b) = _)); [by apply spec_ret|exact Hb].
  - apply spec_ret. apply orb_false_iff in E as [_ E%negb_false_iff%bool_decide_eq_true]. by split_and!.
Qed.

Lemma row_branches_spec repo row published w :
  spec (row_branches repo row published) w
    (fun w' r => w' = w /\ tags_hash r = tags_hash row /\
       (forall b, row_names r b -> row_names row b \/ published = Some b) /\
       (forall b, published = Some b -> branches r = Some b)) (eq w).
Proof.
  unfold row_branches. destruct published as [b|]; [|apply spec_ret; naive_solver].
  case_bool_decide as E; [apply spec_ret; unfold row_names; naive_solver|].
  destruct (branches row) as [old|] eqn:Eo; [|apply spec_ret; unfold row_names; cbn; naive_solver].
  eapply (spec_bind _ _ _ (fun w' _ => w' = w)).
  - unfold full_ready. destruct (rb_base old) as [commit|]; [|by apply spec_ret].
    eapply spec_weaken; [apply (read_spec (fun st => _))|by intros w' x [-> _]|done].
  - intros w' ready ->. apply spec_ret. unfold row_names. destruct ready; cbn; naive_solver.
Qed.

Lemma same_rows_world_ok w w' : w_storage w' = w_storage w -> repo_refs (w_store w') = repo_refs (w_store w) ->
  world_ok w -> world_ok w'.
Proof.
  intros E1 E2 [Ha Hr]. unfold world_ok. rewrite E1. split; [done|]. intros repo row H. apply (Hr repo).
  revert H. unfold get_refs. by rewrite E2.
Qed.
Lemma set_refs_unknown repo row st : (set_refs repo row st).2 = Ok false -> known_repo (storage_key repo) st = false.
Proof.
  unfold set_refs. destruct (known_repo _ _) eqn:E; [cbn [negb]|done].
  by match goal with |- context [match ?x with _ => _ end] => destruct x end.
Qed.

(** Writing a row whose branches are complete. *)
Lemma set_refs_world repo row w : world_ok w -> row_ok (w_storage w) row ->
  spec (on_store (set_refs repo row)) w
    (fun w' written => world_ok w' /\
       if written then get_refs repo (w_store w') = Ok (Some row) else known_repo (storage_key repo) (w_store w') = false)
    world_ok.
Proof.
  intros Hw Hrow. unfold spec, on_store. pose proof (set_refs_unknown repo row (w_store w)) as Hun.
  destruct (set_refs_cases repo row (w_store w)) as [[Hs Hne]|(data & Hs & _ & _ & Hr & Hget)];
    destruct (set_refs repo row (w_store w)) as [st r]; cbn [fst snd] in *.
  - subst st. assert (Hw' : world_ok {| w_store := w_store w; w_storage := w_storage w; w_tips := w_tips w |}) by (by destruct w).
    destruct r as [[]|]; [done| |done]. by split; [|apply Hun].
  - subst r. split; [|done]. destruct Hw as [Ha Hold]. split; [done|]. cbn [w_store w_storage]. intros repo' row' H.
    destruct (decide (storage_key repo = storage_key repo')) as [Hk|Hk].
    + assert (row' = row) as ->; [|done]. revert H Hget. unfold get_refs. rewrite Hk. congruence.
    + apply (Hold repo'). revert H. rewrite Hs. unfold get_refs.
      cbn [record_refs repo_refs set_artifact_refs set_repo_refs]. by rewrite lookup_insert_ne.
Qed.

Definition published_refs (repo : RepoId) (scope : Scope) (refs1 refs2 : MirrorRefs) (st : Store) (r : Hashes * bool) : Prop :=
  (known_repo (storage_key repo) st = false /\ r = (∅, false)) \/
  exists row, get_refs repo st = Ok (Some row) /\ r = (RepoRefs_artifacts row, bool_decide (branches row = None)) /\
    tags_hash row = mr_tags_hash refs2 /\
    (scope = All -> exists b, branches row = Some b /\ rb_refs_hash b = MirrorRefs_hash hash_text refs1).

Lemma publish_pinned_ok repo scope refs1 refs2 w : mirror_ok refs1 -> world_ok w ->
  spec (publish_pinned hash upload pack_objects_excluding is_ancestor tags_build branches_build size_of can_write_tips
          repo scope refs1 refs2) w
    (fun w' r => world_ok w' /\ published_refs repo scope refs1 refs2 (w_store w') r) world_ok.
Proof.
  intros Hm Hw. unfold publish_pinned. assert (Hgrow : forall w', grows w w' -> world_ok w') by eauto using world_ok_grows.
  eapply (spec_bind _ _ _ (fun w' published => grows w w' /\ (forall b, published = Some b -> branches_ok (w_storage w') b) /\
    (scope = All -> exists b, published = Some b /\ rb_refs_hash b = MirrorRefs_hash hash_text refs1))).
  { destruct scope; [by apply spec_ret|]. eapply spec_bind; [eapply spec_weaken; [by apply new_branches_spec|intros w' b H; exact H|exact Hgrow]|].
    intros w1 b (Hg & Hb & Hh). apply spec_ret. split_and!; [done| |eauto]. by intros ? [= <-]. }
  intros w1 published (Hg1 & Hpub & Hscope). pose proof (Hgrow _ Hg1) as Hw1.
  eapply spec_bind; [eapply spec_weaken; [apply (read_spec (get_refs repo))|intros w' x H; exact H|by intros w' <-]|].
  intros ? stored [-> Hstored]. pose proof (stored_ok _ _ _ Hw1 Hstored) as Hrow.
  eapply spec_bind; [eapply spec_weaken; [apply row_tags_spec|intros w' x H; exact H|intros w' Hg; by eapply world_ok_grows]|].
  intros w2 row2 (Hg2 & Htags & Hb2 & Hr2). pose proof (world_ok_grows _ _ Hg2 Hw1) as Hw2. destruct Hw1 as [Ha1 _].
  eapply spec_bind; [eapply spec_weaken; [apply row_branches_spec|intros w' x H; exact H|by intros w' <-]|].
  intros ? row (-> & Htags' & Hnames & Hpubd).
  assert (Hok : row_ok (w_storage w2) row).
  { intros b [Hb| ->]%Hnames.
    - assert (row_names (default RepoRefs_default stored) b) as Hb' by (unfold row_names in *; by rewrite <- Hb2, <- Hr2).
      by apply (row_ok_grows _ _ _ Hg2 Ha1 Hrow).
    - eapply branches_ok_mono; [by apply (proj2 Hg2)|by apply Hpub]. }
  eapply (spec_bind _ _ _ (fun w' written => world_ok w' /\
    if (written : bool) then get_refs repo (w_store w') = Ok (Some row) else known_repo (storage_key repo) (w_store w') = false)).
  - case_bool_decide as Es.
    + apply spec_ret. split; [done|]. destruct Hg2 as [-> _]. by rewrite Hstored, Es.
    + eapply (spec_bind _ _ _ (fun w' _ => world_ok w' /\ w_storage w' = w_storage w2)).
      * unfold spec, on_store. split; [|done]. destruct (record_artifact_sizes_same size_of (RepoRefs_artifacts row) (w_store w2)) as [m Hm'].
        eapply same_rows_world_ok; [| |exact Hw2]; cbn; [done|by rewrite Hm'].
      * intros w3 _ [Hw3 Est]. apply set_refs_world; [done|by rewrite Est].
  - intros w3 written [Hw3 Hwr]. destruct written; apply spec_ret; (split; [done|]); [right|by left].
    exists row. split_and!; [done|done|congruence|]. intros (b & Hb & Hh)%Hscope. eauto.
Qed.

(** What the branches promise of every branch and tag. *)
Lemma branches_ok_refs storage b : branches_ok storage b ->
  exists m artifact, mirror_ok m /\ branches_build m = Ok artifact /\ storage !! rb_artifact b = Some artifact /\
    rb_refs_hash b = MirrorRefs_hash hash_text m /\ rb_default_branch b = mr_default_branch m /\ rb_base b = MirrorRefs_base m /\
    forall base, rb_base b = Some base -> forall name t o, (name, t) ∈ mr_branches m ++ mr_tags m -> reach t o ->
      reach base o \/ layers_hold storage (rb_side_packs b) o.
Proof.
  intros (m & a & Hm & Ha & Hst & Hh & Hdb & Hb & _ & Hc & Hs). exists m, a. split_and!; try done.
  intros base Hbase name t o Hin Ho. destruct (Hs base Hbase) as (s & Hsb & Hreach). rewrite Hb in Hbase.
  assert (Hcase : t = base \/ t ∈ side_tips m).
  { rewrite elem_of_side_tips. apply elem_of_app in Hin as [Hin|Hin]; [|eauto].
    destruct (decide (mr_default_branch m = Some name)) as [Hd|Hd]; [left|eauto].
    destruct Hm as (head & references & Hnd & _ & ->). destruct (read_branches hash_text head references Hnd) as (Hndb & _ & _ & Hdef).
    destruct (Hdef name Hd) as (id & Hid & Hin'). rewrite Hbase in Hid. injection Hid as ->.
    by eapply NoDup_fst_inj. }
  destruct Hcase as [->|Ht]; [by left|]. destruct (Hc s Hsb t o Ht Ho); [left; by apply Hreach|by right].
Qed.
End complete.

(** Every operation of the control store but [set_refs] leaves the refs of each
    repository as they are, or deletes them. *)
Lemma step_refs {S : Serde} cfg (st st' : Store) : step cfg st st' ->
  repo_refs st' ⊆ repo_refs st \/ exists repo refs, st' = (set_refs repo refs st).1.
Proof.
  destruct 1; [..|by right; eauto|left|left]; try (left; done).
  - left. unfold admit_build. repeat case_match; done.
  - left. unfold claim. repeat case_match; done.
  - left. destruct (publish_cases c output st) as [->|(? & ? & _ & _ & _ & _ & _ & _ & ->)]; done.
  - left. unfold add_repo. repeat case_match; done.
  - left. apply delete_subseteq.
  - done.
  - done.
Qed.

(** ** The server's worlds *)
Section worlds.
Context {S : Serde} {SOk : SerdeOk S} (cfg : StoreConfig) (hash : bytes -> string).
Context (tags_build : list (string * string) -> Result bytes).
Context (encode_to_vec : BranchesArtifact -> bytes) (message_decode : bytes -> Result BranchesArtifact)
  (encode_all decode_all : bytes -> Result bytes).
Context (reach : string -> string -> Prop) (pack_holds : bytes -> string -> Prop).
Local Abbreviation World := (World S).
Local Abbreviation branches_build := (MirrorRefs_build encode_to_vec encode_all).

(** What changes them: a publish of any repository, whose mirror, git and storage
    answer as they may; any other operation of the control store; any other upload;
    the deletion of an artifact no refs name; and anything that happens to the
    mirrors' side tips files. *)
Inductive world_step : World -> World -> Prop :=
  | ws_publish upload pack_objects_excluding is_ancestor size_of can_write_tips repo scope refs1 refs2 w :
      GitOk hash pack_objects_excluding is_ancestor reach pack_holds ->
      mirror_ok hash refs1 -> mirror_ok hash refs2 ->
      world_step w (publish_pinned hash upload pack_objects_excluding is_ancestor tags_build branches_build size_of
                      can_write_tips repo scope refs1 refs2 w).1
  | ws_control st w : step cfg (w_store w) st -> repo_refs st ⊆ repo_refs (w_store w) ->
      world_step w {| w_store := st; w_storage := w_storage w; w_tips := w_tips w |}
  | ws_upload b w : w_storage w !! hash b = None ->
      world_step w {| w_store := w_store w; w_storage := <[hash b := b]> (w_storage w); w_tips := w_tips w |}
  | ws_delete h w : h <> "" -> (forall repo row, get_refs repo (w_store w) = Ok (Some row) -> h ∉ RepoRefs_artifacts row) ->
      world_step w {| w_store := w_store w; w_storage := delete h (w_storage w); w_tips := w_tips w |}
  | ws_tips tips w : world_step w {| w_store := w_store w; w_storage := w_storage w; w_tips := tips |}.

Definition empty_world : World := {| w_store := empty_store; w_storage := ∅; w_tips := ∅ |}.
Definition reachable_world (w : World) : Prop := rtc world_step empty_world w.
Local Abbreviation world_ok := (world_ok hash branches_build reach pack_holds).
Local Abbreviation branches_ok := (branches_ok hash branches_build reach pack_holds).

Lemma row_names_artifacts row b h : row_names row b -> h <> "" ->
  h = rb_artifact b \/ (exists l, l ∈ rb_side_packs b /\ h = side_pack l) -> h ∈ RepoRefs_artifacts row.
Proof.
  intros Hb Hne Hh. unfold RepoRefs_artifacts. apply elem_of_named. split; [|done]. apply elem_of_cons. right.
  apply list_elem_of_In, in_flat_map. exists b. split.
  - apply list_elem_of_In, elem_of_app. destruct Hb as [-> | ->]; [left|right]; apply elem_of_cons; by left.
  - apply list_elem_of_In. destruct Hh as [->|(l & Hl & ->)]; [apply elem_of_cons; by left|]. do 2 (apply elem_of_cons; right).
    apply list_elem_of_In, in_flat_map. exists l. split; [by apply list_elem_of_In|by left].
Qed.
Lemma branches_ok_delete h storage b : h <> rb_artifact b -> (forall l, l ∈ rb_side_packs b -> h <> side_pack l) ->
  branches_ok storage b -> branches_ok (delete h storage) b.
Proof.
  intros Ha Hl (m & a & H1 & H2 & H3 & H4 & Hd & H5 & H6 & H7 & H8). exists m, a. split_and!; try done; [by rewrite lookup_delete_ne|].
  intros s Hs t o Ht Ho. destruct (H7 s Hs t o Ht Ho) as [?|(l & p & Hin & Hp & Hh)]; [by left|right].
  exists l, p. split_and!; [done| |done]. rewrite lookup_delete_ne; [done|by apply Hl].
Qed.

Lemma world_step_ok w w' : world_step w w' -> world_ok w -> world_ok w'.
Proof.
  destruct 1 as [upload pack anc size_of can repo scope refs1 refs2 w Hgit Hm1 Hm2|st w Hs Hsub|b w Hnew|h w Hne Hun|tips w];
    intros Hw; [|destruct Hw as [Ha Hr]..].
  - pose proof (publish_pinned_ok hash upload pack anc tags_build branches_build size_of can reach pack_holds Hgit
      repo scope refs1 refs2 w Hm1 Hw) as H. unfold spec in H. destruct (publish_pinned _ _ _ _ _ _ _ _ _ _ _ _ w) as [w' [r|e]]; [apply H|exact H].
  - split; [done|]. intros repo row H. apply (Hr repo). cbn in H. revert H. unfold get_refs.
    destruct (repo_refs st !! storage_key repo) as [data|] eqn:E; [|done]. by rewrite (lookup_weaken _ _ _ _ E Hsub).
  - assert (Hsub : w_storage w ⊆ <[hash b := b]> (w_storage w)) by by apply insert_subseteq. split; cbn.
    + intros h b' [[<- <-]|[_ H]]%lookup_insert_Some; [done|by apply Ha].
    + intros repo row H b' Hb. eapply branches_ok_mono; [exact Hsub|]. by eapply Hr.
  - split; cbn.
    + intros h' b [_ H]%lookup_delete_Some. by apply Ha.
    + intros repo row H b Hb. pose proof (Hun repo row H) as Hn. apply branches_ok_delete; [| |by eapply Hr].
      * intros ->. by eapply Hn, row_names_artifacts; [| |left].
      * intros l Hl ->. eapply Hn, row_names_artifacts; [done|done|right; eauto].
  - by split.
Qed.
Lemma reachable_world_ok w : reachable_world w -> world_ok w.
Proof.
  intros H. unfold reachable_world in H. remember empty_world as w0 eqn:E.
  assert (world_ok w0) as H0 by (subst; split; [by intros h b ?|by intros repo row ?]). clear E.
  induction H; eauto using world_step_ok.
Qed.

(** C33: whatever was pushed, published, built, deleted or lost before: the branches a
    repository's refs name, and those kept as ready while the new ones' Full is
    built, have their artifact stored. A clone decodes it to branches and the
    commit of the default one, with the refs hash the poller compares; and what
    any of these branches or tags reaches is in that commit's history or in a
    stored pack of the side layers. So a full clone has every object its refs
    need, when the layers were kept, added to or built whole. *)
Theorem side_packs_complete w repo row b :
  (forall a, message_decode (encode_to_vec a) = Ok a) -> (forall raw c, encode_all raw = Ok c -> decode_all c = Ok raw) ->
  reachable_world w -> get_refs repo (w_store w) = Ok (Some row) -> row_names row b ->
  exists artifact refs tags, w_storage w !! rb_artifact b = Some artifact /\
    branches_decode message_decode decode_all artifact = Ok refs /\ br_base refs = rb_base b /\
    rb_refs_hash b = refs_hash (hash_text hash) (br_default_branch refs) (br_branches refs) tags /\
    forall base, br_base refs = Some base -> forall name t o, (name, t) ∈ br_branches refs ++ tags -> reach t o ->
      reach base o \/ layers_hold pack_holds (w_storage w) (rb_side_packs b) o.
Proof.
  intros Hmsg Hz [_ Hw]%reachable_world_ok Hrow Hb. pose proof (Hw repo row Hrow b Hb) as Hok.
  apply branches_ok_refs in Hok as (m & artifact & (head & references & Hnd & Hids & ->) & Ha & Hst & Hh & _ & Hbase & Hc).
  exists artifact, {| br_default_branch := mr_default_branch (MirrorRefs_read (hash_text hash) head references);
    br_base := MirrorRefs_base (MirrorRefs_read (hash_text hash) head references);
    br_branches := mr_branches (MirrorRefs_read (hash_text hash) head references) |},
    (mr_tags (MirrorRefs_read (hash_text hash) head references)).
  split_and!; [done| |done|exact Hh|].
  - by apply (branches_decode_build (hash_text hash) encode_to_vec message_decode encode_all decode_all Hmsg Hz).
  - intros base. cbn [br_base]. rewrite <- Hbase. apply Hc.
Qed.

(** A publish names in the control store exactly the artifacts it returns to be
    kept: the tags of the mirror as it is under the lock, and, in a publish of
    everything, the branches it read before it. It returns none when the repository
    was purged meanwhile, and it asks for a refresh when the repository has no
    branches yet. *)
Lemma publish_names upload pack_objects_excluding is_ancestor size_of can_write_tips repo scope refs1 refs2 w w' r :
  GitOk hash pack_objects_excluding is_ancestor reach pack_holds -> mirror_ok hash refs1 -> reachable_world w ->
  publish_pinned hash upload pack_objects_excluding is_ancestor tags_build branches_build size_of can_write_tips
    repo scope refs1 refs2 w = (w', Ok r) ->
  (known_repo (storage_key repo) (w_store w') = false /\ r = (∅, false)) \/
  exists row, get_refs repo (w_store w') = Ok (Some row) /\ r = (RepoRefs_artifacts row, bool_decide (branches row = None)) /\
    tags_hash row = mr_tags_hash refs2 /\
    (scope = All -> exists b, branches row = Some b /\ rb_refs_hash b = MirrorRefs_hash (hash_text hash) refs1).
Proof.
  intros Hgit Hm Hw%reachable_world_ok H.
  pose proof (publish_pinned_ok hash upload pack_objects_excluding is_ancestor tags_build branches_build size_of
    can_write_tips reach pack_holds Hgit repo scope refs1 refs2 w Hm Hw) as Hs.
  unfold spec in Hs. rewrite H in Hs. apply Hs.
Qed.

(** The poller refreshes exactly when it must. When the repository has no
    branches it does; otherwise it does not just when upstream's branches and tags
    are those of the stored artifact and of its refs hash, and upstream's default
    branch is that artifact's or is not named by the listing. *)
Lemma poller_changed_spec w repo upstream row :
  (forall a, message_decode (encode_to_vec a) = Ok a) -> (forall raw c, encode_all raw = Ok c -> decode_all c = Ok raw) ->
  (forall a b, hash a = hash b -> a = b) -> reachable_world w ->
  default_ok (ur_default_branch upstream) -> named_ok (ur_branches upstream) -> named_ok (ur_tags upstream) ->
  get_refs repo (w_store w) = Ok (Some row) ->
  match branches row with
  | None => changed hash repo upstream (w_store w) = Ok true
  | Some b =>
      exists artifact refs tags, w_storage w !! rb_artifact b = Some artifact /\
        branches_decode message_decode decode_all artifact = Ok refs /\
        rb_refs_hash b = refs_hash (hash_text hash) (br_default_branch refs) (br_branches refs) tags /\
        exists again, changed hash repo upstream (w_store w) = Ok again /\
          (again = false <-> ur_branches upstream = br_branches refs /\ ur_tags upstream = tags /\
             (ur_default_branch upstream = None \/ ur_default_branch upstream = br_default_branch refs))
  end.
Proof.
  intros Hmsg Hz Hinj [_ Hw]%reachable_world_ok Hd Hbr Htg Hrow. unfold changed. rewrite Hrow. cbn [rbind mbind option_bind].
  destruct (branches row) as [b|] eqn:Eb; [|done]. pose proof (Hw repo row Hrow b (or_introl Eb)) as Hok.
  apply branches_ok_refs in Hok as (m & artifact & (head & references & Hnd & Hids & Em) & Ha & Hst & Hh & Hdb & _ & _).
  exists artifact, {| br_default_branch := mr_default_branch m; br_base := MirrorRefs_base m; br_branches := mr_branches m |}, (mr_tags m).
  split_and!; [done| |exact Hh|].
  { subst m. by apply (branches_decode_build (hash_text hash) encode_to_vec message_decode encode_all decode_all Hmsg Hz). }
  eexists. split; [done|]. rewrite negb_false_iff, bool_decide_eq_true, Hh, Hdb. cbn [br_default_branch br_branches].
  assert (Hids' : ids_ok references) by (intros n i H; by eapply id_of_parse, Hids).
  assert (Hmb : named_ok (mr_branches m)) by (subst m; by apply branches_named_ok).
  assert (Hmt : named_ok (mr_tags m)) by (subst m; by apply tags_named_ok).
  assert (Hmd : default_ok (mr_default_branch m)) by (subst m; by apply default_listed, branches_named_ok).
  assert (Hin : forall d, mr_default_branch m = Some d -> d ∈ map fst (mr_branches m)).
  { intros d. subst m. by intros [_ ?%bool_decide_eq_true]%option_filter_Some. }
  set (kept := option_filter _ _). assert (Hkept : kept = None \/ kept = mr_default_branch m).
  { unfold kept, option_filter. destruct (mr_default_branch m); [|by left]. case_match; auto. }
  unfold MirrorRefs_hash, refs_hash, hash_text. split.
  - intros E%Hinj. apply (f_equal String.string_of_list_byte) in E. rewrite !String.string_of_list_byte_of_string in E.
    apply refs_text_inj in E; [|done..|destruct (ur_default_branch upstream); [done|by destruct Hkept as [->| ->]]|done|done].
    destruct E as (E & -> & ->). split_and!; [done..|]. destruct (ur_default_branch upstream); auto.
  - intros (E1 & E2 & E3). rewrite E1, E2. do 3 f_equal. destruct (ur_default_branch upstream) as [d|]; [by destruct E3|].
    unfold kept, option_filter. destruct (mr_default_branch m) as [d|] eqn:Ed; [|done].
    rewrite bool_decide_eq_true_2; [done|]. rewrite E1. by apply Hin.
Qed.
End worlds.

(** ** Witnesses *)
Module PublishExample.
Import ControlThms.Example RefsExample.

(** A hash with no collisions; packs that list the tips they hold, of which each
    reaches itself. *)
Definition cas_hash (b : bytes) : string := String.string_of_list_byte b.
Definition pack_of (tips : list string) : bytes := replicate 40 Byte.x00 ++ to_wire tips.
Definition reach (t o : string) : Prop := t = o.
Definition pack_holds (pack : bytes) (o : string) : Prop := exists tips, pack = pack_of tips /\ o ∈ tips.
Definition pack_objects_excluding (tips excluded : list string) : Result (bytes * bytes) := Ok (pack_of tips, to_wire tips).
Definition is_ancestor (old new : string) : Result bool := Ok (bool_decide (old = new)).
Definition upload (h : string) (b : bytes) : Result unit := Ok tt.
Definition tags_build (tags : list (string * string)) : Result bytes := Ok (to_wire tags).
Definition mirror (references : list (string * option string)) : MirrorRefs :=
  MirrorRefs_read (hash_text cas_hash) (Some "refs/heads/main") references.

Lemma git_ok : GitOk cas_hash pack_objects_excluding is_ancestor reach pack_holds.
Proof.
  constructor.
  - intros tips excluded pack idx [= <- _] t o Ht <-. right. by exists tips.
  - intros pack o (tips & -> & _). unfold nlen, pack_of. rewrite length_app, length_replicate. lia.
  - intros old new [= ->%bool_decide_eq_true]. done.
  - intros a b H. apply (f_equal String.list_byte_of_string) in H. by rewrite !String.list_byte_of_string_of_list_byte in H.
Qed.
Lemma mirror_is_ok references : NoDup (map fst references) ->
  (forall name o, (name, o) ∈ references -> o = Some one \/ o = Some two \/ o = Some three) ->
  mirror_ok cas_hash (mirror references).
Proof.
  intros Hnd Hin. exists (Some "refs/heads/main"), references. split_and!; [done| |done].
  intros name id H. destruct (Hin _ _ H) as [[= ->]|[[= ->]|[= ->]]]; eexists; by vm_compute.
Qed.

(** The first publish of everything, and one after a push to a side branch, which
    adds a layer. *)
Definition fewer : list (string * option string) := [("refs/heads/side", Some two); ("refs/heads/main", Some one)].
Definition publish_all (refs : MirrorRefs) : Stateful (World serde) (Hashes * bool) :=
  publish_pinned cas_hash upload pack_objects_excluding is_ancestor tags_build (MirrorRefs_build to_wire Ok)
    (fun _ => None) true repo All refs refs.
Definition world0 : World serde := {| w_store := admitted; w_storage := ∅; w_tips := ∅ |}.
Definition world1 : World serde := (publish_all (mirror fewer) world0).1.
Definition world2 : World serde := (publish_all (mirror references) world1).1.
Local Abbreviation step := (world_step cfg cas_hash tags_build to_wire Ok reach pack_holds).

Lemma fewer_ok : mirror_ok cas_hash (mirror fewer).
Proof.
  apply mirror_is_ok; [apply (bool_decide_unpack (NoDup _)); by vm_compute|].
  intros name o H. apply (references_in name o). unfold references, fewer in *. apply elem_of_cons. by right.
Qed.
Lemma references_ok : mirror_ok cas_hash (mirror references).
Proof. apply mirror_is_ok; [apply (bool_decide_unpack (NoDup _)); by vm_compute|apply references_in]. Qed.
Lemma publish_step refs w : mirror_ok cas_hash refs -> step w (publish_all refs w).1.
Proof.
  intros H. exact (ws_publish cfg cas_hash tags_build to_wire Ok reach pack_holds upload pack_objects_excluding is_ancestor
    (fun _ => None) true repo All refs refs w git_ok H H).
Qed.
Lemma reachable_world2 : reachable_world cfg cas_hash tags_build to_wire Ok reach pack_holds world2.
Proof.
  apply (rtc_l _ _ world0).
  { apply (ws_control cfg cas_hash tags_build to_wire Ok reach pack_holds admitted empty_world).
    - apply step_admit. by vm_compute.
    - done. }
  apply (rtc_l _ _ world1); [|apply rtc_once].
  - exact (publish_step _ world0 fewer_ok).
  - exact (publish_step _ world1 references_ok).
Qed.
(** The row names the second publish's branches, with two layers; one more publish
    leaves the repository known. *)
Definition layers_of (row : Result (option RepoRefs)) : nat :=
  match row with Ok (Some row) => match branches row with Some b => length (rb_side_packs b) | None => 0 end | _ => 0 end.
Lemma layers2 : layers_of (get_refs repo (w_store world2)) = 2.
Proof. by vm_compute. Qed.
Lemma row2 : exists row b, get_refs repo (w_store world2) = Ok (Some row) /\ branches row = Some b /\ length (rb_side_packs b) = 2.
Proof.
  pose proof layers2 as H. unfold layers_of in H. destruct (get_refs repo (w_store world2)) as [[row|]|]; [|done..].
  destruct (branches row) as [b|] eqn:E; [|done]. by exists row, b.
Qed.
Definition again : World serde * Result (Hashes * bool) := publish_all (mirror references) world2.
Lemma again_ok : is_ok again.2 && known_repo (storage_key repo) (w_store again.1) = true.
Proof. by vm_compute. Qed.
(** Upstream as it was published. *)
Definition upstream : UpstreamRefs :=
  {| ur_default_branch := None; ur_branches := mr_branches (mirror references); ur_tags := mr_tags (mirror references) |}.
Lemma references_ids : ids_ok references.
Proof. intros name id H. destruct (references_in _ _ H) as [[= ->]|[[= ->]|[= ->]]]; by vm_compute. Qed.
Lemma unchanged : match changed cas_hash repo upstream (w_store world2) with Ok again => negb again | Err _ => false end = true.
Proof. by vm_compute. Qed.
End PublishExample.

Import ControlThms.Example.

Lemma side_packs_complete_witness :
  exists row b artifact refs tags, get_refs repo (w_store PublishExample.world2) = Ok (Some row) /\ branches row = Some b /\
    length (rb_side_packs b) = 2 /\ w_storage PublishExample.world2 !! rb_artifact b = Some artifact /\
    branches_decode of_wire Ok artifact = Ok refs /\
    forall base, br_base refs = Some base -> forall name t, (name, t) ∈ br_branches refs ++ tags ->
      t = base \/ layers_hold PublishExample.pack_holds (w_storage PublishExample.world2) (rb_side_packs b) t.
Proof.
  destruct PublishExample.row2 as (row & b & Hrow & Hb & Hlen).
  destruct (side_packs_complete cfg PublishExample.cas_hash PublishExample.tags_build to_wire of_wire Ok Ok
    PublishExample.reach PublishExample.pack_holds PublishExample.world2 repo row b of_to_wire ltac:(by intros raw c [= <-])
    PublishExample.reachable_world2 Hrow (or_introl Hb)) as (artifact & refs & tags & H1 & H2 & H3 & _ & H5).
  exists row, b, artifact, refs, tags. split_and!; [exact Hrow|exact Hb|exact Hlen|exact H1|exact H2|].
  intros base Hbase name t Ht. destruct (H5 base Hbase name t t Ht eq_refl) as [->|?]; [by left|by right].
Defined.

Lemma publish_names_witness :
  exists r row, PublishExample.again.2 = Ok r /\ get_refs repo (w_store PublishExample.again.1) = Ok (Some row) /\
    r.1 = RepoRefs_artifacts row.
Proof.
  pose proof PublishExample.again_ok as [Hok Hk]%andb_true_iff.
  destruct (PublishExample.again) as [w' [r|e]] eqn:E; [|discriminate Hok].
  destruct (publish_names cfg PublishExample.cas_hash PublishExample.tags_build to_wire Ok
    PublishExample.reach PublishExample.pack_holds PublishExample.upload PublishExample.pack_objects_excluding
    PublishExample.is_ancestor (fun _ => None) true repo All
    (PublishExample.mirror RefsExample.references) (PublishExample.mirror RefsExample.references) PublishExample.world2 w' r
    PublishExample.git_ok PublishExample.references_ok PublishExample.reachable_world2 E) as [[Hn _]|(row & Hrow & -> & _)].
  - cbn [fst] in Hk. rewrite Hk in Hn. discriminate Hn.
  - eexists _, row. split; [reflexivity|]. split; [exact Hrow|reflexivity].
Defined.

(** Nothing changed since the two publishes: the stored artifact has upstream's
    branches. *)
Lemma poller_changed_spec_witness :
  changed PublishExample.cas_hash repo PublishExample.upstream (w_store PublishExample.world2) = Ok false /\
  exists artifact refs, branches_decode of_wire Ok artifact = Ok refs /\
    br_branches refs = mr_branches (PublishExample.mirror RefsExample.references).
Proof.
  destruct PublishExample.row2 as (row & b & Hrow & Hb & _).
  pose proof (poller_changed_spec cfg PublishExample.cas_hash PublishExample.tags_build to_wire of_wire Ok Ok
    PublishExample.reach PublishExample.pack_holds PublishExample.world2 repo PublishExample.upstream row
    of_to_wire ltac:(by intros raw c [= <-]) (go_hash _ _ _ _ _ PublishExample.git_ok) PublishExample.reachable_world2
    ltac:(done) (branches_named_ok _ PublishExample.references_ids) (tags_named_ok _ PublishExample.references_ids) Hrow) as H.
  rewrite Hb in H. destruct H as (artifact & refs & tags & _ & Hdec & _ & again & Hc & Hagain).
  pose proof PublishExample.unchanged as Hun. rewrite Hc in Hun. apply negb_true_iff in Hun. subst again.
  split; [exact Hc|]. exists artifact, refs. split; [exact Hdec|]. symmetry. by apply Hagain.
Defined.
