(* ===== verification/LsRemote.v ===== *)
(** Upstream access ([rust/src/git.rs]): the URL and git arguments of an upstream,
    what a selector's name asks of [ls-remote] and how its answer resolves, how a
    failed git operation is classified and what of its message is kept.

    Running git and the HTTP request are parameters. *)

From S2P Require Import Prelude Bytes Provider Validation Tags Refs.

(** ** Text *)

(** [String::from_utf8_lossy]: each maximal ill-formed part becomes U+FFFD. *)
Definition replacement : bytes := [Byte.xef; Byte.xbf; Byte.xbd].
Fixpoint utf8_lossy (b : bytes) : bytes :=
  match b with
  | [] => []
  | x :: b =>
      let n := Byte.to_N x in
      if (n <? 128)%N then x :: utf8_lossy b
      else if byte_between 194 223 x then
        match b with
        | y :: b' => if continuation y then x :: y :: utf8_lossy b' else replacement ++ utf8_lossy b
        | [] => replacement
        end
      else if byte_between 224 239 x then
        match b with
        | y :: b' =>
            if byte_between (if (n =? 224)%N then 160 else 128) (if (n =? 237)%N then 159 else 191) y then
              match b' with
              | z :: b'' => if continuation z then x :: y :: z :: utf8_lossy b'' else replacement ++ utf8_lossy b'
              | [] => replacement
              end
            else replacement ++ utf8_lossy b
        | [] => replacement
        end
      else if byte_between 240 244 x then
        match b with
        | y :: b' =>
            if byte_between (if (n =? 240)%N then 144 else 128) (if (n =? 244)%N then 143 else 191) y then
              match b' with
              | z :: b'' =>
                  if continuation z then
                    match b'' with
                    | w :: b''' => if continuation w then x :: y :: z :: w :: utf8_lossy b''' else replacement ++ utf8_lossy b''
                    | [] => replacement
                    end
                  else replacement ++ utf8_lossy b'
              | [] => replacement
              end
            else replacement ++ utf8_lossy b
        | [] => replacement
        end
      else replacement ++ utf8_lossy b
  end.
Definition from_utf8_lossy (s : string) : string :=
  String.string_of_list_byte (utf8_lossy (String.list_byte_of_string s)).

(** The characters of [char::is_whitespace], in UTF-8, and [str::trim]. *)
Definition utf8_char (l : list Byte.byte) : string := String.string_of_list_byte l.
Definition whitespace : list string :=
  map (fun b => utf8_char [b]) [Byte.x09; Byte.x0a; Byte.x0b; Byte.x0c; Byte.x0d; Byte.x20]
  ++ map utf8_char [[Byte.xc2; Byte.x85]; [Byte.xc2; Byte.xa0]; [Byte.xe1; Byte.x9a; Byte.x80]]
  ++ map (fun b => utf8_char [Byte.xe2; Byte.x80; b])
       [Byte.x80; Byte.x81; Byte.x82; Byte.x83; Byte.x84; Byte.x85; Byte.x86; Byte.x87; Byte.x88; Byte.x89; Byte.x8a;
        Byte.xa8; Byte.xa9; Byte.xaf]
  ++ map utf8_char [[Byte.xe2; Byte.x81; Byte.x9f]; [Byte.xe3; Byte.x80; Byte.x80]].
Definition strip_suffix (suffix s : string) : option string :=
  if ends_with suffix s then Some (str_take (String.length s - String.length suffix) s) else None.
Fixpoint first_some {A B} (f : A -> option B) (l : list A) : option B :=
  match l with [] => None | x :: l => match f x with Some y => Some y | None => first_some f l end end.
Fixpoint trim_with (fuel : nat) (strip : string -> string -> option string) (s : string) : string :=
  match fuel with
  | O => s
  | S fuel => match first_some (fun w => strip w s) whitespace with Some s => trim_with fuel strip s | None => s end
  end.
(** Each turn drops a character. *)
Definition trim (s : string) : string :=
  let s := trim_with (String.length s) strip_prefix s in trim_with (String.length s) strip_suffix s.

(** ** A failed git operation *)

(** [s.split(pat)] of a nonempty [pat]: each turn drops at least one character. *)
Fixpoint split_str_from (fuel : nat) (pat part s : string) : list string :=
  match fuel with
  | O => [part]
  | S fuel =>
      match strip_prefix pat s with
      | Some rest => part :: split_str_from fuel pat "" rest
      | None =>
          match s with
          | EmptyString => [part]
          | String c s => split_str_from fuel pat (part +:+ String c "") s
          end
      end
  end.
Definition split_str (pat s : string) : list string := split_str_from (S (String.length s)) pat "" s.
(** [parse::<u16>] of three bytes, the first of which can be a sign. *)
Definition parse_status (s : string) : option N :=
  match s with
  | String a (String b (String c EmptyString)) =>
      y ← digit_of b; z ← digit_of c;
      if Ascii.eqb a "+" then Some (10 * y + z)%N else x ← digit_of a; Some (100 * x + 10 * y + z)%N
  | _ => None
  end.
Definition terminal_needles : list string :=
  ["authentication failed"; "invalid username or password"; "could not read username"; "repository not found";
   "does not appear to be a git repository"; "not our ref"; "unadvertised object"; "couldn't find remote ref";
   "remote ref does not exist"; "invalid refspec"; "invalid ref name"].
Definition transport_needles : list string :=
  ["operation timed out"; "connection timed out"; "connection reset"; "failed to connect"; "could not resolve host";
   "couldn't connect to server"; "remote end hung up unexpectedly"; "http/2 stream"; "internal_error";
   "tls connection was non-properly terminated"; "tls connection terminated unexpectedly"; "empty reply from server";
   "failure receiving data from the peer"; "recv failure"; "ssl_error_syscall"].
Definition upstream_failure_is_retryable (stderr : string) : bool :=
  let detail := str_to_ascii_lowercase (from_utf8_lossy stderr) in
  let statuses := omap (fun suffix => status ← str_get suffix 0 3; parse_status status)
    (tail (split_str "returned error: " detail)) in
  if existsb (fun s => (s =? 408)%N || (s =? 429)%N || ((500 <=? s)%N && (s <? 600)%N)) statuses then true
  else if existsb (fun s => (400 <=? s)%N && (s <? 500)%N) statuses then false
  else if existsb (fun needle => contains needle detail) terminal_needles then false
  else if existsb (fun rest => contains "' not found" rest) (tail (split_str "repository '" detail)) then false
  else if existsb (fun needle => contains needle detail) transport_needles then true
  else true.

(** [s.chars().take(n)]: a character and the continuation bytes after it. *)
Fixpoint take_chars (n : nat) (s : string) : string :=
  match s with
  | EmptyString => ""
  | String c s =>
      if byte_in 128 191 c then String c (take_chars n s)
      else match n with O => "" | S n => String c (take_chars n s) end
  end.
(** [[_].join("; ")]. *)
Fixpoint join_str (sep : string) (l : list string) : string :=
  match l with [] => "" | [s] => s | s :: l => s +:+ sep +:+ join_str sep l end.
Definition ellipsis : string := utf8_char [Byte.xe2; Byte.x80; Byte.xa6].
Definition DETAIL_MAX : nat := 400.
Definition sanitize_git_stderr (stderr : string) (auth_header : option (string * string)) : option string :=
  let text := from_utf8_lossy stderr in
  let text := match auth_header with
    | Some (_, value) => if negb (bool_decide (value = "")) then replace_str value "***" text else text
    | None => text
    end in
  let tail := List.filter (fun l => negb (bool_decide (l = ""))) (map trim (lines text)) in
  let joined := join_str "; " (drop (length tail - 3) tail) in
  if bool_decide (joined = "") then None
  else if (DETAIL_MAX <? String.length joined)%nat then Some (take_chars DETAIL_MAX joined +:+ ellipsis)
  else Some joined.
Record UpstreamGitError := { ug_op : string; ug_retryable : bool; ug_detail : option string }.
Definition with_detail (op : string) (retryable : bool) (detail : option string) : UpstreamGitError :=
  {| ug_op := op; ug_retryable := retryable; ug_detail := detail |}.
Definition upstream_git_error (op : string) (auth_header : option (string * string)) (stderr : string) : UpstreamGitError :=
  with_detail op (upstream_failure_is_retryable stderr) (sanitize_git_stderr stderr auth_header).
Definition error_message (e : UpstreamGitError) : string :=
  match ug_detail e with Some detail => ug_op e +:+ " failed: " +:+ detail | None => ug_op e +:+ " failed" end.
(** What the error of a git operation can be downcast to. *)
Inductive GitError := GUpstream (e : UpstreamGitError) | GOther (m : string).
Definition Git (A : Type) : Type := (A + GitError)%type.
Definition of_result {A} (r : Result A) : Git A := match r with Ok x => inl x | Err e => inr (GOther e) end.
Definition gbind {A B} (m : Git A) (k : A -> Git B) : Git B := match m with inl x => k x | inr e => inr e end.

(** ** The upstream's URL and credentials *)
Definition upstream_url_with (prov : ProviderInstance) (repo_id : RepoId) (origin_base : option string) : string :=
  let base := if RepoId_is_github_default repo_id then option_filter (fun b => negb (bool_decide (b = ""))) origin_base else None in
  match base with
  | Some base => trim_end_matches "/" base +:+ "/" +:+ path repo_id +:+ ".git"
  | None => clone_url prov (path repo_id)
  end.
Section auth.
Context (base64_encode : string -> string).
Definition upstream_auth_header (prov : ProviderInstance) (credential : option string) : option (string * string) :=
  credential ≫= auth_header base64_encode prov.
Definition upstream_url_and_auth (prov : ProviderInstance) (repo_id : RepoId) (credential origin_base : option string)
    : string * list string :=
  (upstream_url_with prov repo_id origin_base,
   match upstream_auth_header prov credential with
   | Some (name, value) => ["-c"; "http.extraHeader=" +:+ name +:+ ": " +:+ value; "-c"; "http.followRedirects=false"]
   | None => []
   end).

(** ** Resolving a name *)
Record RemoteTip := { tip_commit : string; tip_ref_name : string; tip_default_branch : option string }.
#[export] Instance remote_tip_eq_dec : EqDecision RemoteTip.
Proof. solve_decision. Defined.

Definition candidates_of (ref_name : string) : list string :=
  if bool_decide (ref_name = "HEAD") || starts_with "refs/" ref_name then [ref_name]
  else ["refs/heads/" +:+ ref_name; "refs/tags/" +:+ ref_name +:+ "^{}"; "refs/tags/" +:+ ref_name].
(** An empty URL asks nothing: a pattern names no ref. *)
Definition prepare_ls_remote (prov : ProviderInstance) (repo_id : RepoId) (ref_name : string)
    (credential origin_base : option string) : Result (string * list string * option (string * string) * list string) :=
  let? _ := validate_repo_path prov repo_id in
  let? _ := if bool_decide (ref_name = "HEAD") then Ok tt else validate_git_rev ref_name in
  if negb (bool_decide (ref_name = "HEAD")) && str_any (fun c => contains_char c "*?[") ref_name
  then Ok ("", [], None, [])
  else
    let '(url, git_args) := upstream_url_and_auth prov repo_id credential origin_base in
    Ok (url, git_args, upstream_auth_header prov credential, candidates_of ref_name).

(** The branch of symbolic [HEAD]. *)
Definition symbolic_head (line : string) : option string :=
  symbolic ← strip_prefix "ref: refs/heads/" line;
  branch ← match strip_suffix (String tab "HEAD") symbolic with Some b => Some b | None => strip_suffix " HEAD" symbolic end;
  if negb (bool_decide (branch = "")) && is_ok (validate_git_rev branch) then Some branch else None.
Definition tip_line (acc : option string * list (string * string)) (line : string)
    : Result (option string * list (string * string)) :=
  let '(default_branch, advertised) := acc in
  match symbolic_head line with
  | Some branch => Ok (Some branch, advertised)
  | None =>
      bail_if! starts_with "ref: " line with "git ls-remote returned malformed symbolic ref";
      let? (sha, remote_ref) := context (split_once tab line) "git ls-remote returned malformed advertisement" in
      let sha := trim sha in
      ensure! is_ok (validate_object_id sha) else "git ls-remote returned malformed object id";
      Ok (default_branch, advertised ++ [(trim remote_ref, sha)])
  end.
Definition find_tip (default_branch : option string) (advertised : list (string * string)) (candidate : string) : option RemoteTip :=
  match List.find (fun a => bool_decide (a.1 = candidate)) advertised with
  | Some (_, sha) =>
      Some {| tip_commit := sha; tip_ref_name := trim_end_suffix (String.length candidate) "^{}" candidate;
              tip_default_branch := default_branch |}
  | None => None
  end.
Definition parse_ls_remote_output (stdout : string) (candidates : list string) : Result (option RemoteTip) :=
  let? (default_branch, advertised) := try_fold tip_line (None, []) (lines (from_utf8_lossy stdout)) in
  Ok (first_some (find_tip default_branch advertised) candidates).

(** What became of [git <args> ls-remote --symref -- <url> <patterns>], and the answer
    of an [ls-refs] request. *)
Inductive LsRemoteRun := Exited (success : bool) (stdout stderr : string) | TimedOut | Unrun (error : string).
Context (git_ls_remote : list string -> string -> list string -> LsRemoteRun)
  (ls_refs : string -> option (string * string) -> list string -> option string).

Definition run_ls_remote (url : string) (git_args : list string) (auth_header : option (string * string)) (patterns : list string)
    : Git string :=
  match git_ls_remote git_args url patterns with
  | Exited true stdout _ => inl stdout
  | Exited false _ stderr => inr (GUpstream (upstream_git_error "ls-remote" auth_header stderr))
  | TimedOut => inr (GOther "git ls-remote timed out")
  | Unrun e => inr (GOther e)
  end.

(** [ls_remote_tip_async_with]. *)
Definition ls_remote_tip (prov : ProviderInstance) (repo_id : RepoId) (ref_name : string) (credential origin_base : option string)
    (use_ls_refs : bool) : Git (option RemoteTip) :=
  gbind (of_result (prepare_ls_remote prov repo_id ref_name credential origin_base)) (fun '(url, git_args, auth, candidates) =>
  if bool_decide (url = "") then inl None
  else
    match (if use_ls_refs then ls_refs url auth candidates else None) with
    | Some lines => of_result (parse_ls_remote_output lines candidates)
    | None =>
        gbind (run_ls_remote url git_args auth candidates) (fun stdout => of_result (parse_ls_remote_output stdout candidates))
    end).

(** [ls_remote_refs]: what the poller asks. *)
Definition ls_remote_refs (prov : ProviderInstance) (repo_id : RepoId) (credential origin_base : option string)
    : Git (option RemoteTip * UpstreamRefs) :=
  gbind (of_result (validate_repo_path prov repo_id)) (fun _ =>
  let '(url, git_args) := upstream_url_and_auth prov repo_id credential origin_base in
  gbind (run_ls_remote url git_args (upstream_auth_header prov credential) ["HEAD"; "refs/heads/*"; "refs/tags/*"]) (fun stdout =>
  gbind (of_result (parse_ls_remote_output stdout ["HEAD"])) (fun tip => inl (tip, parse_upstream_refs stdout)))).
End auth.


(** ** Lemmas *)
Lemma utf8_lossy_valid b : utf8_valid b = true -> utf8_lossy b = b.
Proof.
  remember (length b) as n eqn:Hn. assert (Hle : length b <= n) by lia. clear Hn. revert b Hle.
  induction n as [|n IH]; intros [|x b] Hle; cbn [length] in Hle; try done; try lia.
  cbn [utf8_valid utf8_lossy]. destruct (Byte.to_N x <? 128)%N; [intros; rewrite IH by (done || lia); done|].
  destruct (byte_between 194 223 x).
  { destruct b as [|y b]; [done|]. cbn [length] in Hle. intros [-> H]%andb_true_iff. rewrite IH by (done || lia). done. }
  destruct (byte_between 224 239 x).
  { destruct b as [|y [|z b]]; [done..|]. cbn [length] in Hle. intros [[-> ->]%andb_true_iff H]%andb_true_iff.
    rewrite IH by (done || lia). done. }
  destruct (byte_between 240 244 x); [|done].
  destruct b as [|y [|z [|w b]]]; [done..|]. cbn [length] in Hle.
  intros [[[-> ->]%andb_true_iff ->]%andb_true_iff H]%andb_true_iff. rewrite IH by (done || lia). done.
Qed.
Lemma from_utf8_lossy_valid s : str_utf8 s = true -> from_utf8_lossy s = s.
Proof.
  unfold str_utf8, from_utf8_lossy. intros H. rewrite utf8_lossy_valid by done. apply String.string_of_list_byte_of_string.
Qed.

Lemma first_some_None {A B} (f : A -> option B) l : (forall x, x ∈ l -> f x = None) -> first_some f l = None.
Proof. induction l as [|x l IH]; cbn; intros H; [done|]. rewrite H by (apply elem_of_cons; by left). apply IH. intros y Hy. apply H. apply elem_of_cons. by right. Qed.
Lemma strip_suffix_app s suf : strip_suffix suf (s +:+ suf) = Some s.
Proof.
  unfold strip_suffix. assert (Hs : ends_with suf (s +:+ suf) = true).
  { induction s as [|a s IH]; cbn; [|by rewrite IH, orb_true_r]. destruct suf; cbn; by rewrite bool_decide_eq_true_2. }
  rewrite Hs, str_length_app, Nat.add_sub. by rewrite str_take_app.
Qed.
Lemma strip_suffix_Some s suf t : strip_suffix suf s = Some t -> s = t +:+ suf.
Proof.
  unfold strip_suffix. destruct (ends_with suf s) eqn:E; [|done]. apply ends_with_app in E as [u ->].
  rewrite str_length_app, Nat.add_sub, str_take_app. by intros [= ->].
Qed.
(** Text of characters of [p], of which no whitespace is made, is not trimmed. *)
Lemma trim_plain p s : forallb (fun w => negb (str_all p w)) whitespace = true -> str_all p s = true -> trim s = s.
Proof.
  intros Hw Hs. rewrite forallb_forall in Hw.
  assert (Hp : forall w, w ∈ whitespace -> str_all p w = false) by (intros w Hin%list_elem_of_In%Hw; by apply negb_true_iff).
  assert (Hn : forall fuel strip, (forall w t u, strip w t = Some u -> t = w +:+ u \/ t = u +:+ w) -> trim_with fuel strip s = s).
  { intros [|fuel] strip Hstrip; [done|]. cbn [trim_with]. rewrite first_some_None; [done|]. intros w Hin.
    destruct (strip w s) as [u|] eqn:E; [|done]. pose proof (Hp w Hin) as Hf.
    apply Hstrip in E as [-> | ->]; rewrite str_all_app, Hf in Hs; by rewrite ?andb_false_r in Hs. }
  unfold trim. rewrite !Hn; [done|intros w t u H%strip_suffix_Some; by right|intros w t u H%strip_prefix_Some; by left].
Qed.
Lemma trim_id id : validate_object_id id = Ok tt -> trim id = id.
Proof. unfold validate_object_id. intros H. inv_ok H. breflect. by eapply (trim_plain is_lower_hex). Qed.

(** ** Resolving a name in an advertisement *)
(** The names git gives refs, read without loss, and symbolic refs: only [HEAD], of
    a branch. *)
Definition resolvable (r : Advertised) : Prop :=
  trim (ad_name r) = ad_name r /\ trim (ad_name r +:+ "^{}") = ad_name r +:+ "^{}" /\ contains_char "^" (ad_name r) = false /\
  forall t, ad_symref r = Some t ->
    ad_name r = "HEAD" /\ exists b, t = "refs/heads/" +:+ b /\ b <> "" /\ validate_git_rev b = Ok tt.

Lemma oid_not_ref oid t : validate_object_id oid = Ok tt -> strip_prefix "ref: refs/heads/" (oid +:+ t) = None /\ starts_with "ref: " (oid +:+ t) = false.
Proof.
  unfold validate_object_id. intros H. inv_ok H. breflect. destruct oid as [|a oid]; [by destruct E|].
  assert (Ha : is_lower_hex a = true) by (apply (str_all_true is_lower_hex (String a oid)); [done|]; apply elem_of_cons; by left).
  unfold starts_with. cbn [String.append strip_prefix]. by destruct (Ascii.eqb_spec "r" a) as [<-|_]; [vm_compute in Ha|].
Qed.
Lemma tip_oid_line d adv oid name : validate_object_id oid = Ok tt -> contains_char tab oid = false -> trim name = name ->
  tip_line (d, adv) (oid +:+ String tab name) = Ok (d, adv ++ [(name, oid)]).
Proof.
  intros Hv Ht Hn. unfold tip_line, symbolic_head. destruct (oid_not_ref oid (String tab name) Hv) as [-> ->].
  cbn [mbind option_bind]. rewrite split_tab by done. cbn [context rbind]. by rewrite trim_id, Hv, Hn.
Qed.
Definition listed (r : Advertised) : list (string * string) :=
  (ad_name r, ad_oid r) :: match ad_peeled r with Some p => [(ad_name r +:+ "^{}", p)] | None => [] end.
Lemma tip_ref d adv r : advert_ok r -> resolvable r ->
  try_fold tip_line (d, adv) (remote_lines r) = Ok (head_of d r, adv ++ listed r).
Proof.
  intros (Ho & Hn & _ & Hsym & Hpeel & _) (Ht1 & Ht2 & _ & Href). pose proof (object_id_token _ Ho) as (_ & _ & Hto & _).
  unfold remote_lines, listed.
  assert (Hrest : forall d adv, try_fold tip_line (d, adv) ([ad_oid r +:+ String tab (ad_name r)]
      ++ match ad_peeled r with Some p => [p +:+ String tab (ad_name r +:+ "^{}")] | None => [] end)
    = Ok (d, adv ++ listed r)).
  { intros d0 adv0. unfold listed. cbn [app try_fold]. rewrite tip_oid_line by done. cbn [rbind].
    destruct (ad_peeled r) as [p|]; [|done]. cbn [try_fold]. pose proof (Hpeel p eq_refl) as Hp.
    rewrite tip_oid_line by (done || by apply object_id_token in Hp as (_ & _ & ? & _)). cbn [rbind]. by rewrite <- app_assoc. }
  unfold head_of. destruct (ad_symref r) as [t|]; [|apply Hrest]. destruct (Href t eq_refl) as (Hname & b & -> & Hb & Hrev).
  assert (Hstep : tip_line (d, adv) ("ref: " +:+ ("refs/heads/" +:+ b) +:+ String tab (ad_name r)) = Ok (Some b, adv)).
  { rewrite Hname. unfold tip_line, symbolic_head.
    change ("ref: " +:+ ("refs/heads/" +:+ b) +:+ String tab "HEAD") with ("ref: refs/heads/" +:+ (b +:+ String tab "HEAD")).
    rewrite strip_prefix_app. cbn [mbind option_bind]. rewrite strip_suffix_app. cbn [mbind option_bind].
    by rewrite bool_decide_eq_false_2, Hrev by done. }
  rewrite bool_decide_eq_true_2, strip_prefix_app by done. cbn [app try_fold]. rewrite Hstep. cbn [rbind]. apply Hrest.
Qed.
Lemma try_fold_app {A B} (f : B -> A -> Result B) acc l k :
  try_fold f acc (l ++ k) = let? acc := try_fold f acc l in try_fold f acc k.
Proof. revert acc; induction l as [|x l IH]; intros acc; cbn; [done|]. destruct (f acc x); cbn; [apply IH|done]. Qed.
Lemma tip_refs refs : Forall advert_ok refs -> Forall resolvable refs -> forall d adv,
  try_fold tip_line (d, adv) (concat (map remote_lines refs)) = Ok (foldl head_of d refs, adv ++ concat (map listed refs)).
Proof.
  induction 1 as [|r refs Hr _ IH]; intros Hres d adv; cbn [map concat foldl].
  - by rewrite app_nil_r.
  - apply Forall_cons in Hres as [Hr' Hres]. rewrite try_fold_app, tip_ref by done. cbn [rbind]. rewrite IH by done.
    by rewrite <- app_assoc.
Qed.

Lemma string_app_cancel s t u : s +:+ u = t +:+ u -> s = t.
Proof.
  intros H. assert (Hl : String.length s = String.length t)
    by (apply (f_equal String.length) in H; rewrite !str_length_app in H; lia).
  apply (f_equal (str_take (String.length s))) in H. rewrite str_take_app in H. by rewrite Hl, str_take_app in H.
Qed.
(** The entry of a name, and of its peeled line. *)
Definition named_by (name : string) (r : Advertised) : bool := bool_decide (ad_name r = name).
Lemma find_listed refs name : Forall resolvable refs -> contains_char "^" name = false ->
  List.find (fun a => bool_decide (a.1 = name)) (concat (map listed refs))
  = (fun r => (ad_name r, ad_oid r)) <$> List.find (named_by name) refs.
Proof.
  intros H Hc. induction H as [|r refs (_ & _ & Hr & _) _ IH]; [done|]. cbn [map concat]. unfold listed at 1. cbn [app List.find fst].
  unfold named_by at 1. case_bool_decide; [done|]. destruct (ad_peeled r) as [p|]; [|exact IH]. cbn [app List.find fst].
  rewrite bool_decide_eq_false_2; [exact IH|]. intros <-. rewrite contains_char_app in Hc. by apply orb_false_iff in Hc as [_ Hc].
Qed.
Lemma find_peeled refs name : NoDup (map ad_name refs) -> Forall resolvable refs ->
  List.find (fun a => bool_decide (a.1 = name +:+ "^{}")) (concat (map listed refs))
  = r ← List.find (named_by name) refs; p ← ad_peeled r; Some (name +:+ "^{}", p).
Proof.
  intros Hnd H. induction H as [|r refs (_ & _ & Hr & _) Hrs IH]; [done|]. apply NoDup_cons in Hnd as [Hn Hnd].
  cbn [map concat]. unfold listed at 1. cbn [app List.find fst].
  rewrite bool_decide_eq_false_2 by (intros E; rewrite E, contains_char_app in Hr; by apply orb_false_iff in Hr as [_ Hr]).
  unfold named_by at 1. case_bool_decide as En; cbn [mbind option_bind].
  - rewrite En. destruct (ad_peeled r) as [p|]; cbn [app List.find fst mbind option_bind].
    + by rewrite bool_decide_eq_true_2.
    + rewrite IH by done. destruct (List.find (named_by name) refs) as [r'|] eqn:E; [|done]. exfalso.
      apply find_some in E as [Hin Hn'%bool_decide_eq_true]. apply Hn. rewrite En, <- Hn'. apply elem_of_lmap.
      exists r'. split; [done|]. by apply list_elem_of_In.
  - destruct (ad_peeled r) as [p|]; [|by apply IH]. cbn [app List.find fst].
    rewrite bool_decide_eq_false_2; [by apply IH|]. intros E. apply En. by apply string_app_cancel in E.
Qed.

(** What a name resolves to: an exact ref, or a branch before a tag, of which an
    annotated one gives the commit it peels to. *)
Definition resolution (refs : list Advertised) (name : string) : option (string * string) :=
  let find name := List.find (named_by name) refs in
  if bool_decide (name = "HEAD") || starts_with "refs/" name then (fun r => (ad_oid r, name)) <$> find name
  else
    match find ("refs/heads/" +:+ name) with
    | Some r => Some (ad_oid r, "refs/heads/" +:+ name)
    | None => (fun r => (default (ad_oid r) (ad_peeled r), "refs/tags/" +:+ name)) <$> find ("refs/tags/" +:+ name)
    end.

Lemma trim_peeled s : contains_char "^" s = false ->
  trim_end_suffix (String.length s) "^{}" s = s /\ trim_end_suffix (String.length (s +:+ "^{}")) "^{}" (s +:+ "^{}") = s.
Proof.
  intros Hc. assert (Hn : forall fuel, trim_end_suffix fuel "^{}" s = s).
  { intros [|fuel]; [done|]. cbn [trim_end_suffix]. destruct (ends_with "^{}" s) eqn:E; [|done].
    apply ends_with_app in E as [t ->]. rewrite contains_char_app in Hc. by apply orb_false_iff in Hc as [_ Hc]. }
  split; [apply Hn|]. destruct (String.length (s +:+ "^{}")) as [|n] eqn:E; [by rewrite str_length_app, Nat.add_comm in E|].
  cbn [trim_end_suffix]. pose proof (strip_suffix_app s "^{}") as H. unfold strip_suffix in H.
  destruct (ends_with "^{}" (s +:+ "^{}")); [|done]. clear H.
  rewrite str_length_app, Nat.add_sub, str_take_app. apply Hn.
Qed.
Lemma find_filter {A} (p q : A -> bool) l : (forall x, x ∈ l -> p x = true -> q x = true) ->
  List.find p (List.filter q l) = List.find p l.
Proof.
  induction l as [|x l IH]; intros H; [done|]. cbn.
  destruct (q x) eqn:Eq; cbn; destruct (p x) eqn:Ep; try done; try (apply IH; intros y Hy; apply H; apply elem_of_cons; by right).
  exfalso. rewrite (H x) in Eq; [done|apply elem_of_cons; by left|done].
Qed.

Definition advertised_listing (refs : list Advertised) : string := unlines (concat (map remote_lines refs)).
Lemma parse_tip refs name : Forall advert_ok refs -> Forall resolvable refs -> NoDup (map ad_name refs) ->
  contains_char "^" name = false ->
  parse_ls_remote_output (advertised_listing refs) (candidates_of name)
  = Ok ((fun x => {| tip_commit := x.1; tip_ref_name := x.2; tip_default_branch := foldl head_of None refs |}) <$> resolution refs name).
Proof.
  intros Hok Hres Hnd Hc. unfold parse_ls_remote_output, advertised_listing. rewrite from_utf8_lossy_valid, lines_unlines, tip_refs; [|done|done| |].
  2:{ apply Forall_concat, List.Forall_map. eapply Forall_impl; [exact Hok|]. apply remote_lines_ok. }
  2:{ apply unlines_utf8, Forall_concat, List.Forall_map. eapply Forall_impl; [exact Hok|]. apply remote_lines_utf8. }
  cbn [rbind app]. f_equal. unfold candidates_of, resolution.
  assert (Hexact : forall n, contains_char "^" n = false ->
    find_tip (foldl head_of None refs) (concat (map listed refs)) n
    = (fun x => {| tip_commit := x.1; tip_ref_name := x.2; tip_default_branch := foldl head_of None refs |})
        <$> ((fun r => (ad_oid r, n)) <$> List.find (named_by n) refs)).
  { intros n Hn. unfold find_tip. rewrite find_listed by done. destruct (List.find (named_by n) refs); [|done].
    cbn. by rewrite (proj1 (trim_peeled n Hn)). }
  destruct (bool_decide (name = "HEAD") || starts_with "refs/" name).
  { cbn [first_some]. rewrite Hexact by done. by destruct (List.find _ _). }
  cbn [first_some]. rewrite !Hexact by (by rewrite contains_char_app).
  destruct (List.find (named_by ("refs/heads/" +:+ name)) refs) as [r|] eqn:Eb; [done|]. cbn [fmap option_fmap option_map].
  assert (Ht : contains_char "^" ("refs/tags/" +:+ name) = false) by (by rewrite contains_char_app).
  change ("refs/tags/" +:+ name +:+ "^{}") with ("refs/tags/" +:+ (name +:+ "^{}")).
  rewrite <- (string_app_assoc "refs/tags/" name "^{}"). set (tag := "refs/tags/" +:+ name) in *. clearbody tag.
  rewrite (Hexact tag Ht). unfold find_tip. rewrite find_peeled, (proj2 (trim_peeled _ Ht)) by done.
  destruct (List.find (named_by tag) refs) as [r|]; [|done]. cbn. by destruct (ad_peeled r).
Qed.

Lemma upstream_url_nonempty prov repo base : upstream_url_with prov repo base <> "".
Proof.
  unfold upstream_url_with. intros H. apply (f_equal String.length) in H. destruct (if RepoId_is_github_default repo then _ else _).
  - rewrite !str_length_app in H. cbn in H. lia.
  - unfold clone_url in H. destruct (_ || _); rewrite !str_length_app in H; cbn in H; lia.
Qed.

(** A selector's name resolves to what upstream has under it, whether the
    [ls-refs] request answered or [git ls-remote] did, and however much more than
    the names asked for the answer lists: an exact ref, or the branch before the
    tag, an annotated tag giving the commit it peels to; nothing when there is no
    such ref; with [HEAD]'s branch, when it is asked for. *)
Lemma ls_remote_tip_spec base64_encode prov repo name credential base ls_refs git_ls_remote asked use_ls_refs refs :
  validate_repo_path prov repo = Ok tt -> name = "HEAD" \/ validate_checkout_name name = Ok tt ->
  Forall advert_ok refs -> Forall resolvable refs -> NoDup (map ad_name refs) ->
  (forall cands r, r ∈ refs -> (exists c, c ∈ cands /\ (c = ad_name r \/ c = ad_name r +:+ "^{}")) -> asked cands r = true) ->
  (forall url auth cands, ls_refs url auth cands = None \/
    ls_refs url auth cands = ls_remote_lines (advertisement (List.filter (asked cands) refs))) ->
  (forall args url cands, exists stderr,
    git_ls_remote args url cands = Exited true (advertised_listing (List.filter (asked cands) refs)) stderr) ->
  exists tip, ls_remote_tip base64_encode git_ls_remote ls_refs prov repo name credential base use_ls_refs = inl tip /\
    (fun t => (tip_commit t, tip_ref_name t)) <$> tip = resolution refs name /\
    (name = "HEAD" -> forall t, tip = Some t -> tip_default_branch t = foldl head_of None refs).
Proof.
  intros Hrepo Hname Hok Hres Hnd Hasked Hls Hrun. unfold ls_remote_tip, prepare_ls_remote. rewrite Hrepo. cbn [rbind].
  assert (Hvalid : (if bool_decide (name = "HEAD") then Ok tt else validate_git_rev name) = Ok tt /\
    negb (bool_decide (name = "HEAD")) && str_any (fun c => contains_char c "*?[") name = false /\ contains_char "^" name = false).
  { destruct (decide (name = "HEAD")) as [->|Hne]; [done|]. destruct Hname as [?|Hv]; [done|]. rewrite bool_decide_eq_false_2 by done.
    split; [by apply validate_ref_name_git_rev|]. apply validate_ref_name_ok in Hv as (_ & _ & _ & _ & _ & _ & Hf & _). split.
    - cbn [negb andb]. revert Hf. apply str_any_impl. intros c [Hc|[Hc|[Hc|Hc]%orb_true_iff]%orb_true_iff]%orb_true_iff;
        [apply Ascii.eqb_eq in Hc as ->; done..|done].
    - revert Hf. apply str_any_impl. by intros c <-%Ascii.eqb_eq. }
  destruct Hvalid as (-> & -> & Hc). cbn [rbind]. unfold upstream_url_and_auth. cbn [rbind of_result gbind].
  rewrite bool_decide_eq_false_2 by apply upstream_url_nonempty. set (url := upstream_url_with prov repo base).
  set (answered := List.filter (asked (candidates_of name)) refs).
  assert (Hsub : Forall advert_ok answered /\ Forall resolvable answered /\ NoDup (map ad_name answered)).
  { assert (Hf : forall P : Advertised -> Prop, Forall P refs -> Forall P answered)
      by (intros P; rewrite !Forall_forall; intros H r [Hr _]%elem_of_lfilter; by apply H).
    split; [by apply Hf|]. split; [by apply Hf|]. by apply NoDup_map_filter. }
  destruct Hsub as (Hok' & Hres' & Hnd').
  set (args := match upstream_auth_header base64_encode prov credential with Some _ => _ | None => _ end).
  set (auth := upstream_auth_header base64_encode prov credential) in *.
  assert (Hparse : match (if use_ls_refs then ls_refs url auth (candidates_of name) else None) with
    | Some lines => of_result (parse_ls_remote_output lines (candidates_of name))
    | None => gbind (run_ls_remote git_ls_remote url args auth (candidates_of name))
        (fun stdout => of_result (parse_ls_remote_output stdout (candidates_of name)))
    end = of_result (parse_ls_remote_output (advertised_listing answered) (candidates_of name))).
  { unfold run_ls_remote. destruct (Hrun args url (candidates_of name)) as [stderr ->]. cbn [gbind].
    destruct use_ls_refs; [|done]. destruct (Hls url auth (candidates_of name)) as [->| ->]; [done|].
    by rewrite ls_remote_lines_spec. }
  rewrite Hparse, parse_tip by done. cbn [of_result]. eexists. split; [done|].
  assert (Hfind : forall n, (exists c, c ∈ candidates_of name /\ (c = n \/ c = n +:+ "^{}")) ->
    List.find (named_by n) answered = List.find (named_by n) refs).
  { intros n Hn. apply find_filter. intros r Hr Hnr%bool_decide_eq_true. apply Hasked; [done|]. by rewrite Hnr. }
  split.
  - assert (resolution answered name = resolution refs name) as ->; [|by destruct (resolution refs name) as [[c f]|]].
    unfold resolution, candidates_of in *. destruct (bool_decide (name = "HEAD") || starts_with "refs/" name).
    + rewrite Hfind; [done|]. exists name. split; [apply elem_of_cons; by left|by left].
    + rewrite !Hfind; [done|..].
      * exists ("refs/tags/" +:+ name). split; [by repeat (apply elem_of_cons; (by left) || right)|by left].
      * exists ("refs/heads/" +:+ name). split; [by repeat (apply elem_of_cons; (by left) || right)|by left].
  - intros -> t Ht. destruct (resolution answered "HEAD") as [[c f]|]; [|done]. cbn in Ht. injection Ht as <-. cbn.
    assert (Hh : forall r, r ∈ refs -> ad_name r <> "HEAD" -> forall d, head_of d r = d).
    { intros r Hr Hn d. unfold head_of. destruct (ad_symref r); [|done]. by rewrite bool_decide_eq_false_2. }
    assert (forall r, r ∈ refs -> ad_name r = "HEAD" -> asked (candidates_of "HEAD") r = true) as Hhead.
    { intros r Hr Hn. apply Hasked; [done|]. exists "HEAD". split; [apply elem_of_cons; by left|]. left. by rewrite Hn. }
    unfold answered. clear -Hh Hhead. generalize (@None string). induction refs as [|r refs IH]; intros d; [done|]. cbn [List.filter foldl].
    assert (forall r, r ∈ refs -> r ∈ r :: refs) by (intros; apply elem_of_cons; by right).
    destruct (asked (candidates_of "HEAD") r) eqn:Ea; cbn [foldl].
    + apply IH; intros x Hx; [apply Hh|apply Hhead]; apply elem_of_cons; by right.
    + rewrite (Hh r); [|apply elem_of_cons; by left|intros Hn; by rewrite Hhead in Ea; [|apply elem_of_cons; left|]].
      apply IH; intros x Hx; [apply Hh|apply Hhead]; apply elem_of_cons; by right.
Qed.

Lemma ls_remote_tip_spec_witness :
  exists tip, ls_remote_tip (fun s => s) (fun _ _ _ => Exited true (advertised_listing RefsExample.adverts) "") (fun _ _ _ => None)
      auth_example {| provider := "gitea"; path := "o/r" |} "v1" None None true = inl (Some tip) /\
    tip_commit tip = RefsExample.one /\ tip_ref_name tip = "refs/tags/v1".
Proof.
  destruct (ls_remote_tip_spec (fun s => s) auth_example {| provider := "gitea"; path := "o/r" |} "v1" None None
    (fun _ _ _ => None) (fun _ _ _ => Exited true (advertised_listing RefsExample.adverts) "") (fun _ _ => true) true RefsExample.adverts)
    as (tip & Htip & Hr & _).
  - by vm_compute.
  - right. by vm_compute.
  - apply RefsExample.adverts_ok.
  - repeat (apply Forall_cons; split); try apply Forall_nil_2; unfold resolvable; (split; [by vm_compute|]);
      (split; [by vm_compute|]); (split; [by vm_compute|]); intros t [=]. subst t. split; [done|]. exists "main". by vm_compute.
  - apply (bool_decide_unpack _). by vm_compute.
  - done.
  - intros _ _ _. by left.
  - intros _ _ _. by exists "".
  - destruct tip as [tip|]; [|by vm_compute in Hr]. exists tip. split; [exact Htip|]. vm_compute in Hr. injection Hr as Hc Hn. by split.
Defined.

(** A branch that is a symbolic ref of another fails every listing with it, though
    reading its refs does not. *)
Definition alias_adverts : list Advertised :=
  RefsExample.adverts ++ [{| ad_name := "refs/heads/alias"; ad_oid := RefsExample.one; ad_symref := Some "refs/heads/main"; ad_peeled := None |}].
Lemma symbolic_branch_refused :
  Forall advert_ok alias_adverts /\
  parse_ls_remote_output (advertised_listing alias_adverts) ["HEAD"] = Err "git ls-remote returned malformed symbolic ref" /\
  ur_branches (parse_upstream_refs (advertised_listing alias_adverts))
  = [("alias", RefsExample.one); ("main", RefsExample.one); ("side", RefsExample.two)].
Proof.
  split; [|by vm_compute]. apply Forall_app. split; [apply RefsExample.adverts_ok|]. apply Forall_singleton.
  split_and!; [by vm_compute|by vm_compute|done|intros t [= <-]; by vm_compute|done|by vm_compute].
Qed.

(** ** What of a failed operation's output is kept *)
Lemma contains_part v l s r : contains v (l +:+ s +:+ r) = false -> contains v s = false.
Proof.
  rewrite <- !not_true_iff_false, !contains_true. intros H (a & b & ->). apply H. exists (l +:+ a), (b +:+ r).
  by rewrite !string_app_assoc.
Qed.
(** A value whose first character a separator does not end with, and which has none
    of the characters the snippet's own text is made of. *)
Definition redactable (v : string) : Prop :=
  v <> "" /\ starts_with " " v = false /\ str_any (fun c => contains_char c "*:;" || byte_in 128 255 c) v = false.
Lemma strip_prefix_char c v s : strip_prefix v (String c s) <> None -> v <> "" -> c ∈ String.list_ascii_of_string v.
Proof.
  destruct v as [|a v]; [done|]. cbn. destruct (Ascii.eqb_spec a c) as [->|]; [|done]. intros _ _. apply elem_of_cons. by left.
Qed.
(** No character of [sep] but the last is in [v], which does not start with it. *)
Lemma contains_sep v l sep r : v <> "" -> contains v l = false -> contains v r = false ->
  (forall c s, c ∈ String.list_ascii_of_string sep -> starts_with v (String c s) = false) ->
  (exists c, starts_with (String c "") sep = true /\ c ∉ String.list_ascii_of_string v) ->
  contains v (l +:+ sep +:+ r) = false.
Proof.
  intros Hv Hl Hr Hsep (c & Hc & Hnc).
  apply starts_with_true in Hc as [sep' ->]. cbn [String.append] in *.
  assert (Hs : contains v (String c (sep' +:+ r)) = false).
  { clear Hl Hnc. change (String c (sep' +:+ r)) with ((String c sep') +:+ r). revert Hsep. generalize (String c sep') as s. clear c sep'.
    induction s as [|c s IH]; intros Hsep; [done|]. cbn [String.append contains]. rewrite Hsep by (apply elem_of_cons; by left).
    apply IH. intros c' u Hc'. apply Hsep. apply elem_of_cons. by right. }
  induction l as [|a l IH]; [exact Hs|]. cbn [String.append contains] in *. apply orb_false_iff in Hl as [Ha Hl].
  rewrite (IH Hl), orb_false_r. clear -Ha Hnc Hv. unfold starts_with in *.
  revert Ha. change (String a (l +:+ String c (sep' +:+ r))) with ((String a l) +:+ String c (sep' +:+ r)).
  generalize (String a l) as t. revert Hnc. clear Hv. induction v as [|b v IH]; intros Hnc t; [by destruct t|].
  destruct t as [|d t]; cbn.
  - destruct (Ascii.eqb_spec b c) as [->|]; [|done]. exfalso. apply Hnc. apply elem_of_cons. by left.
  - destruct (Ascii.eqb b d); [|done]. intros H. apply IH; [|done]. intros Hin. apply Hnc. apply elem_of_cons. by right.
Qed.

Lemma redactable_char v c s : redactable v -> starts_with v (String c s) = true ->
  c <> " "%char /\ contains_char c "*:;" = false /\ byte_in 128 255 c = false.
Proof.
  intros (Hv & Hsp & Hall). destruct v as [|a v]; [done|]. unfold starts_with. cbn. destruct (Ascii.eqb_spec a c) as [->|]; [|done].
  intros _. cbn in Hall. apply orb_false_iff in Hall as [[H1 H2]%orb_false_iff _]. split; [|done]. by intros ->.
Qed.
Lemma redactable_join v l : redactable v -> Forall (fun s => contains v s = false) l -> contains v (join_str "; " l) = false.
Proof.
  intros Hv. assert (Hne : v <> "") by apply Hv. induction 1 as [|s l Hs Hl IH]; [by destruct v|].
  destruct l as [|s' l]; [done|]. change (join_str "; " (s :: s' :: l)) with (s +:+ "; " +:+ join_str "; " (s' :: l)).
  apply contains_sep; [done..| |].
  - intros c u Hc. apply not_true_iff_false. intros Hst. apply (redactable_char v c u Hv) in Hst as (Hsp & Hch & _).
    cbn in Hc. apply elem_of_cons in Hc as [->|Hc]; [done|]. apply elem_of_cons in Hc as [->|Hc]; [done|by apply elem_of_nil in Hc].
  - exists ";"%char. split; [done|]. intros Hin. destruct Hv as (_ & _ & Hall). rewrite str_any_false in Hall. by specialize (Hall _ Hin).
Qed.
(** A prefix of replaced text without [*] is a prefix of the text. *)
Lemma replaced_prefix p fuel v s t : str_any (fun c => Ascii.eqb c "*") p = false ->
  strip_prefix p (replace_str_fuel fuel v "***" s) = Some t -> strip_prefix p s <> None.
Proof.
  revert fuel s. induction p as [|a p IH]; intros fuel s Hp H; [done|]. cbn in Hp. apply orb_false_iff in Hp as [Ha Hp].
  destruct fuel as [|fuel]; cbn [replace_str_fuel] in H; [by rewrite H|]. destruct (strip_prefix v s).
  { cbn in H. by rewrite Ha in H. }
  destruct s as [|c s]; [done|]. cbn in *. destruct (Ascii.eqb a c); [by eapply IH|done].
Qed.
Lemma replaced v s : redactable v -> contains v (replace_str v "***" s) = false.
Proof.
  intros Hv. assert (Hst : str_any (fun c => Ascii.eqb c "*") v = false).
  { destruct Hv as (_ & _ & Hall). revert Hall. rewrite !str_any_false. intros H c Hc. specialize (H c Hc).
    apply orb_false_iff in H as [H _]. destruct (Ascii.eqb_spec c "*") as [->|]; done. }
  assert (Hne : v <> "") by apply Hv. unfold replace_str.
  assert (Hf : String.length s < S (String.length s)) by lia. revert Hf. generalize (S (String.length s)) as fuel.
  intros fuel. revert s. induction fuel as [|fuel IH]; intros s Hf; [lia|]. cbn [replace_str_fuel].
  destruct (strip_prefix v s) as [rest|] eqn:E.
  - assert (Hr : String.length rest < fuel) by (apply strip_prefix_Some in E as ->; rewrite str_length_app in Hf; destruct v; [done|cbn in Hf; lia]).
    change ("***" +:+ replace_str_fuel fuel v "***" rest) with ("" +:+ "***" +:+ replace_str_fuel fuel v "***" rest).
    assert (Hstar : "*"%char ∉ String.list_ascii_of_string v) by (intros Hin; rewrite str_any_false in Hst; by specialize (Hst _ Hin)).
    apply contains_sep; [done|by destruct v|by apply IH| |by exists "*"%char].
    intros c u Hc. apply not_true_iff_false. intros (_ & Hch & _)%(redactable_char v c u Hv). cbn in Hc.
    repeat (apply elem_of_cons in Hc as [->|Hc]; [done|]). by apply elem_of_nil in Hc.
  - destruct s as [|c s]; [by destruct v|]. cbn [contains]. rewrite IH by (cbn in Hf; lia). rewrite orb_false_r.
    unfold starts_with. destruct (strip_prefix v (String c (replace_str_fuel fuel v "***" s))) as [t|] eqn:Ep; [|done].
    destruct v as [|a v]; [done|]. cbn in Ep, E, Hst. apply orb_false_iff in Hst as [_ Hst].
    destruct (Ascii.eqb a c); [|done]. by apply replaced_prefix in Ep.
Qed.
(** [String::lines] and [str::trim] give parts of the text. *)
Definition part_of (s t : string) : Prop := exists l r, t = l +:+ s +:+ r.
#[export] Instance part_of_refl : Reflexive part_of.
Proof. intros s. exists "", "". by rewrite string_app_nil. Qed.
#[export] Instance part_of_trans : Transitive part_of.
Proof. intros s t u (a & b & ->) (c & d & ->). exists (c +:+ a), (b +:+ d). by rewrite !string_app_assoc. Qed.
Lemma part_of_l s t u : part_of s t -> part_of s (u +:+ t).
Proof. intros (l & r & ->). exists (u +:+ l), r. by rewrite string_app_assoc. Qed.
Lemma part_of_r s t u : part_of s t -> part_of s (t +:+ u).
Proof. intros (l & r & ->). exists l, (r +:+ u). by rewrite !string_app_assoc. Qed.
Lemma trim_part s : part_of (trim s) s.
Proof.
  assert (Hw : forall fuel strip, (forall w t u, strip w t = Some u -> part_of u t) -> forall s, part_of (trim_with fuel strip s) s).
  { intros fuel strip Hstrip. induction fuel as [|fuel IH]; intros t; cbn [trim_with]; [done|].
    destruct (first_some _ _) as [u|] eqn:E; [|done]. transitivity u; [apply IH|].
    revert E. induction whitespace as [|w l IHl]; [done|]. cbn. destruct (strip w t) eqn:E; [|exact IHl]. intros [= ->]. by eapply Hstrip. }
  unfold trim. cbv zeta. set (s' := trim_with _ strip_prefix s). transitivity s'; apply Hw; intros w t u.
  - intros ->%strip_suffix_Some. by apply part_of_r.
  - intros ->%strip_prefix_Some. by apply part_of_l.
Qed.
Lemma split_on_parts c s p : p ∈ split_on c s -> part_of p s.
Proof.
  assert (H : Forall (fun p => part_of p s) (split_on c s) /\ exists u, s = default "" (head (split_on c s)) +:+ u).
  { induction s as [|a s (IH & u & Hu)]; cbn; [split; [repeat constructor; done|by exists ""]|].
    assert (Hcons : forall t, part_of t s -> part_of t (String a s)) by (intros t; apply (part_of_l t s (String a ""))).
    destruct (Ascii.eqb a c).
    - split; [|by exists (String a s)]. constructor; [by exists "", (String a s)|]. by eapply Forall_impl.
    - pose proof (split_on_nonempty c s). destruct (split_on c s) as [|h t]; [done|]. cbn in *. split; [|exists u; by rewrite <- Hu].
      apply Forall_cons in IH as [_ IH]. constructor; [exists "", u; by rewrite Hu at 1|]. by eapply Forall_impl. }
  intros Hin. by eapply Forall_forall in Hin; [|apply H].
Qed.
Lemma rsplit_once_Some c s l r : rsplit_once c s = Some (l, r) -> s = l +:+ String c r.
Proof.
  revert l; induction s as [|a s IH]; intros l; cbn; [done|]. destruct (rsplit_once c s) as [[l' r']|].
  - intros [= <- ->]. cbn. by rewrite <- (IH l' eq_refl).
  - destruct (Ascii.eqb_spec a c) as [->|]; [|done]. by intros [= <- ->].
Qed.
Lemma lines_parts s p : p ∈ lines s -> part_of p s.
Proof.
  unfold lines. assert (H : forall l, Forall (fun p => part_of p s) l -> forall p, p ∈ lines_of l -> part_of p s).
  { induction 1 as [|x [|y l] Hx Hl IH]; intros q Hq; cbn [lines_of] in Hq.
    - by apply elem_of_nil in Hq.
    - destruct (bool_decide (x = "")); [by apply elem_of_nil in Hq|]. by apply list_elem_of_singleton in Hq as ->.
    - apply elem_of_cons in Hq as [->|Hq]; [|by apply IH]. transitivity x; [|done]. unfold strip_suffix_char.
      destruct (rsplit_once "013" x) as [[u [|]]|] eqn:E; try done. cbn. apply rsplit_once_Some in E as ->. by apply part_of_r. }
  intros Hp. eapply H; [|exact Hp]. apply Forall_forall. intros q. apply split_on_parts.
Qed.
Lemma take_chars_part n s : exists r, s = take_chars n s +:+ r.
Proof.
  revert n; induction s as [|c s IH]; intros n; cbn; [by exists ""|]. destruct (byte_in 128 191 c).
  - destruct (IH n) as [r Hr]. exists r. cbn. by rewrite <- Hr.
  - destruct n as [|n]; [by exists (String c s)|]. destruct (IH n) as [r Hr]. exists r. cbn. by rewrite <- Hr.
Qed.
Lemma no_part v s t : part_of s t -> contains v t = false -> contains v s = false.
Proof. intros (l & r & ->). apply contains_part. Qed.

(** The credential a request carried is in no error of the operation, whatever
    git printed. *)
Lemma credential_not_in_error op name v stderr :
  redactable v -> contains v (op +:+ " failed") = false ->
  contains v (error_message (upstream_git_error op (Some (name, v)) stderr)) = false.
Proof.
  intros Hv Hop. assert (Hne : v <> "") by apply Hv. unfold error_message, upstream_git_error, with_detail. cbn [ug_detail ug_op].
  destruct (sanitize_git_stderr stderr (Some (name, v))) as [d|] eqn:E; [|done].
  assert (Hd : contains v d = false).
  { unfold sanitize_git_stderr in E. rewrite (bool_decide_eq_false_2 (v = "")) in E by done. cbn [negb] in E.
    set (text := replace_str v "***" (from_utf8_lossy stderr)) in E. set (tl := List.filter _ _) in E.
    assert (Hj : contains v (join_str "; " (drop (length tl - 3) tl)) = false).
    { apply redactable_join; [done|]. apply Forall_drop, Forall_forall. intros p [Hp _]%elem_of_lfilter.
      apply elem_of_lmap in Hp as (q & -> & Hq%lines_parts). apply (no_part v _ text); [|by apply replaced].
      etransitivity; [apply trim_part|done]. }
    destruct (bool_decide _); [done|]. destruct (DETAIL_MAX <? _)%nat; [|by simplify_eq]. injection E as <-.
    destruct (take_chars_part DETAIL_MAX (join_str "; " (drop (length tl - 3) tl))) as [r Hr].
    rewrite Hr in Hj. change ellipsis with (ellipsis +:+ ""). apply contains_sep; [done| |by destruct v| |].
    - by apply (contains_part v "" _ r).
    - intros c u Hc. apply not_true_iff_false. intros (_ & _ & Hch)%(redactable_char v c u Hv). cbn in Hc.
      repeat (apply elem_of_cons in Hc as [->|Hc]; [done|]). by apply elem_of_nil in Hc.
    - exists (Ascii.ascii_of_byte Byte.xe2). split; [by vm_compute|]. intros Hin. destruct Hv as (_ & _ & Hall).
      rewrite str_any_false in Hall. specialize (Hall _ Hin). by vm_compute in Hall. }
  change (op +:+ " failed: " +:+ d) with (op +:+ (" failed" +:+ ": " +:+ d)). rewrite <- (string_app_assoc op).
  apply contains_sep; [done..| |].
  - intros c u Hc. apply not_true_iff_false. intros (Hsp & Hch & _)%(redactable_char v c u Hv). cbn in Hc.
    apply elem_of_cons in Hc as [->|Hc]; [done|]. apply elem_of_cons in Hc as [->|Hc]; [done|by apply elem_of_nil in Hc].
  - exists ":"%char. split; [done|]. intros Hin. destruct Hv as (_ & _ & Hall). rewrite str_any_false in Hall. by specialize (Hall _ Hin).
Qed.
Lemma credential_not_in_error_witness :
  let e := upstream_git_error "fetch" (Some ("Authorization", "Basic dG9rZW4=")) "fatal: Basic dG9rZW4= refused" in
  error_message e = "fetch failed: fatal: *** refused" /\ contains "Basic dG9rZW4=" (error_message e) = false.
Proof.
  split; [by vm_compute|]. apply (credential_not_in_error "fetch" "Authorization" "Basic dG9rZW4="); [by split; [|split]|by vm_compute].
Defined.
