(* ===== verification/Manifest.v ===== *)
(** Clonepack manifests and metadata chunks ([rust/proto/clonepack.proto],
    [rust/src/clonepack.rs], [rust/src/manifest.rs]): the frame and file tables of
    a working tree, their geometry check, their deltas, and where one table's
    frames are in another. Protobuf, zstd and the hash function are parameters. *)

From S2P Require Import Prelude Validation Outputs.

(** ** Messages of clonepack.proto *)
Record Fragment := { frame_index : N; frame_offset : N; fg_raw_len : N }.
Record FrameInfo := { chunk_index : N; chunk_offset : N; compressed_len : N; fi_raw_len : N }.
Record FileEntry := { fe_path : string; fe_mode : N; blob_sha1 : string; fragments : list Fragment }.
Record MetadataChunk := { frames : list FrameInfo; files : list FileEntry; gitlinks : list string }.
Record MetadataDelta := {
  md_frames : list FrameInfo;
  base_frames : list N;
  md_files : list FileEntry;
  removed : list string;
  md_gitlinks : list string;
}.
Record ChunkRef := { cr_hash : string; cr_len : N }.
Record PackEntry := {
  pe_pack : option ChunkRef;
  pe_idx : option ChunkRef;
  history_only : bool;
  idx_bundle_offset : option N;
}.
Record ClonepackManifest := {
  cm_commit : string;
  cm_parent_commit : option string;
  cm_metadata_chunk : option ChunkRef;
  cm_metadata_delta : option ChunkRef;
  cm_archive_chunks : list ChunkRef;
  cm_packs : list PackEntry;
  cm_midx : option ChunkRef;
  cm_idx_bundle : option ChunkRef;
}.

#[export] Instance Fragment_eq_dec : EqDecision Fragment.
Proof. solve_decision. Defined.
#[export] Instance FrameInfo_eq_dec : EqDecision FrameInfo.
Proof. solve_decision. Defined.
#[export] Instance FileEntry_eq_dec : EqDecision FileEntry.
Proof. solve_decision. Defined.

(** ** clonepack.rs *)

(** [FileEntry::checked_total_len]. *)
Definition checked_total_len (f : FileEntry) : Result N :=
  try_fold (fun total fragment =>
    context (checked_add u64_max total (fg_raw_len fragment)) "file fragment length total overflow")
    0%N (fragments f).

(** [manifest_chunk_refs]. *)
Definition manifest_chunk_refs (m : ClonepackManifest) : list ChunkRef :=
  option_list (cm_metadata_chunk m) ++ option_list (cm_metadata_delta m) ++ cm_archive_chunks m
  ++ flat_map (fun pack => option_list (pe_pack pack) ++ option_list (pe_idx pack)) (cm_packs m)
  ++ option_list (cm_midx m) ++ option_list (cm_idx_bundle m).

Section idx_bundle.
(** [cas::hash], in hex, and [hex::encode]. *)
Context (hash_bytes : list Byte.byte -> string) (hash_to_hex : string -> string).

(** [manifest_pack_idx_bytes]: a pack's idx out of the shared bundle. *)
Definition manifest_pack_idx_bytes (entry : PackEntry) (idx_bundle : list Byte.byte)
    : Result (list Byte.byte) :=
  let? idx_ref := context (pe_idx entry) "pack missing idx ref" in
  let? off := context (idx_bundle_offset entry) "pack's idx is not in the idx bundle" in
  let? end_ := context (checked_add usize_max off (cr_len idx_ref)) "idx bundle offset overflow" in
  match get_range idx_bundle off end_ with
  | None => Err "idx slice out of bundle range"
  | Some slice =>
      if negb (bool_decide (hash_bytes slice = hash_to_hex (cr_hash idx_ref)))
      then Err "idx bundle slice hash mismatch"
      else Ok slice
  end.
End idx_bundle.

(** [collect_manifest_hashes]: each ready output's manifest, once. *)
Definition collect_manifest_hashes (info : RefInfo) : list string :=
  let ready kind (manifest : option string) :=
    if exact_output_ready info kind (ri_commit info) then option_list manifest else [] in
  foldl (fun out hash => if bool_decide (hash = "") || bool_decide (hash ∈ out) then out else out ++ [hash]) []
    (ready Head ((fun r => ca_manifest (hr_clonepack r)) <$> ri_head info)
     ++ ready Full ((fun r => ca_manifest (fr_clonepack r)) <$> ri_full info)
     ++ ready Files ((fun r => ca_manifest (fs_clonepack r)) <$> ri_files info)).

(** ** Geometry *)
Definition ALLOWED_MODES : list N := [33188%N; 33261%N; 40960%N].  (* 0o100644, 0o100755, 0o120000 *)

Definition check_fragment (frames : list FrameInfo) (fragment : Fragment) : Result unit :=
  if (nlen frames <=? frame_index fragment)%N then Err "file fragment references missing frame"
  else
    let? frame := context (nget frames (frame_index fragment)) "file fragment references missing frame" in
    let? end_ := context (checked_add u32_max (frame_offset fragment) (fg_raw_len fragment))
                   "fragment bounds overflow" in
    bail_if! (fi_raw_len frame <? end_)%N with "file fragment extends past frame"; Ok tt.

Definition check_file (frames : list FrameInfo) (paths : Hashes) (entry : FileEntry) : Result Hashes :=
  bail_if! negb (bool_decide (fe_mode entry ∈ ALLOWED_MODES)) with "file has illegal mode";
  bail_if! bool_decide (fe_path entry = "") with "file has empty path";
  let? _ := validate_relative_path (fe_path entry) in
  bail_if! bool_decide (fe_path entry ∈ paths) with "duplicate file path";
  bail_if! negb (str_len (blob_sha1 entry) =? 20)%N with "file has invalid blob_sha1 length";
  bail_if! (match fragments entry with [] => true | _ => false end)
           && negb (match frames with [] => true | _ => false end) with "file has no fragments";
  let? _ := collect (check_fragment frames) (fragments entry) in
  Ok ({[ fe_path entry ]} ∪ paths).

Definition check_gitlink (paths : Hashes) (gitlink : string) : Result Hashes :=
  bail_if! bool_decide (gitlink = "") with "gitlink has empty path";
  let? _ := validate_relative_path gitlink in
  bail_if! bool_decide (gitlink ∈ paths) with "duplicate path";
  Ok ({[ gitlink ]} ∪ paths).

(** The frame loop's state: the previous frame's chunk and end. *)
Definition check_frame (prev : option N * N) (frame : FrameInfo) : Result (option N * N) :=
  let? end_ := context (checked_add u64_max (chunk_offset frame) (compressed_len frame))
                 "frame compressed bounds overflow" in
  let? _ :=
    match prev.1 with
    | None =>
        bail_if! negb (chunk_index frame =? 0)%N || negb (chunk_offset frame =? 0)%N
          with "first frame must start at archive chunk 0 offset 0"; Ok tt
    | Some previous =>
        if (chunk_index frame <? previous)%N then Err "frame moves archive chunk index backwards"
        else if (chunk_index frame =? previous)%N then
          bail_if! negb (chunk_offset frame =? prev.2)%N with "frame is not contiguous with archive chunk"; Ok tt
        else
          bail_if! negb (chunk_index frame =? saturating_add u32_max previous 1)%N
                   || negb (chunk_offset frame =? 0)%N
            with "frame starts a non-contiguous archive chunk"; Ok tt
    end in
  Ok (Some (chunk_index frame), end_).

Definition validate_geometry (m : MetadataChunk) : Result unit :=
  let? paths := try_fold (check_file (frames m)) ∅ (files m) in
  let? _ := try_fold check_gitlink paths (gitlinks m) in
  let? _ := try_fold check_frame (None, 0%N) (frames m) in
  Ok tt.

(** [fragments_by_frame]. *)
Definition fragments_by_frame (m : MetadataChunk) : gmap N (list (N * N)) :=
  foldl (fun map '(file_idx, entry) =>
    foldl (fun map '(frag_idx, fragment) =>
      <[frame_index fragment := default [] (map !! frame_index fragment) ++ [(file_idx, frag_idx)]]> map)
      map (enumerate (fragments entry)))
    ∅ (enumerate (files m)).

(** [archive_chunk_lengths]. *)
Definition chunk_length_step (lengths : list N) (frame : FrameInfo) : Result (list N) :=
  let idx := chunk_index frame in
  let? end_ := context (checked_add u64_max (chunk_offset frame) (compressed_len frame))
                 "archive chunk length overflow" in
  let? lengths :=
    (if (idx =? nlen lengths)%N then Ok (lengths ++ [0%N])
     else if (nlen lengths <? idx)%N then Err "archive chunk index is not contiguous"
     else Ok lengths) in
  let? len := context (nget lengths idx) "index out of bounds" in
  Ok (if (len <? end_)%N then <[N.to_nat idx := end_]> lengths else lengths).

Definition archive_chunk_lengths (m : MetadataChunk) : Result (list N) :=
  let? _ := validate_geometry m in
  try_fold chunk_length_step [] (frames m).

(** ** Decoding a stored chunk *)
Section stored.
Context (bytes : Type) (is_zstd : bytes -> bool) (zstd_decode : bytes -> Result bytes)
  (bytes_len : bytes -> N) (proto_decode : bytes -> Result MetadataChunk).
Definition MAX_METADATA_BYTES : N := 1073741824.

Definition decode_and_validate (stored : bytes) : Result MetadataChunk :=
  let? plain :=
    (if is_zstd stored then
       let? out := zstd_decode stored in
       ensure! (bytes_len out <=? MAX_METADATA_BYTES)%N else "metadata chunk is too large"; Ok out
     else Ok stored) in
  let? manifest := proto_decode plain in
  let? _ := validate_geometry manifest in
  Ok manifest.
End stored.

(** ** Frame maps *)

(** A [HashMap] of a list: a later entry of a key replaces an earlier one. *)
Definition hash_map {K V} `{Countable K} (l : list (K * V)) : gmap K V := list_to_map (reverse l).

Definition frame_key (bundles : list string) (frame : FrameInfo) : Result (string * N) :=
  let? bundle := context (nget bundles (chunk_index frame)) "frame names missing bundle" in
  Ok (bundle, chunk_offset frame).

Definition frame_map (from : list FrameInfo) (from_bundles : list string)
    (to : list FrameInfo) (to_bundles : list string) : Result (list N) :=
  let? at_ := collect (fun '(index, frame) =>
      let? slot := context (try_from u32_max (index + 1)) "too many frames" in
      let? key := frame_key to_bundles frame in
      Ok (key, slot)) (enumerate to) in
  let at_ := hash_map at_ in
  collect (fun frame => let? key := frame_key from_bundles frame in Ok (default 0%N (at_ !! key))) from.

Definition compose_frame_maps (first second : list N) : Result (list N) :=
  collect (fun slot => if (slot =? 0)%N then Ok 0%N
                       else context (nget second (slot - 1)) "frame map names a missing frame") first.

(** ** Deltas *)

(** [new.frame_index + 1] in [u32]. *)
Definition u32_succ (n : N) : N := ((n + 1) mod 4294967296)%N.

Definition same_fragment (base_frames : list N) (old new : Fragment) : bool :=
  bool_decide (nget base_frames (frame_index old) = Some (u32_succ (frame_index new)))
  && (frame_offset old =? frame_offset new)%N && (fg_raw_len old =? fg_raw_len new)%N.

Definition kept (base_files : gmap string FileEntry) (base_frames : list N) (entry : FileEntry) : bool :=
  match base_files !! fe_path entry with
  | None => false
  | Some old =>
      (fe_mode old =? fe_mode entry)%N && bool_decide (blob_sha1 old = blob_sha1 entry)
      && (nlen (fragments old) =? nlen (fragments entry))%N
      && forallb (fun '(old, new) => same_fragment base_frames old new)
           (zip (fragments old) (fragments entry))
  end.

Definition by_path (l : list FileEntry) : gmap string FileEntry := hash_map (map (fun f => (fe_path f, f)) l).

(** [MetadataDelta::between]. *)
Definition between (base : MetadataChunk) (map_ : list N) (table : MetadataChunk) : Result MetadataDelta :=
  ensure! (nlen map_ =? nlen (frames base))%N else "frame map does not match the base";
  let in_table : Hashes := list_to_set (map fe_path (files table)) in
  let base_files := by_path (files base) in
  Ok {| md_frames := frames table;
        md_files := List.filter (fun f => negb (kept base_files map_ f)) (files table);
        removed := map fe_path (List.filter (fun f => negb (bool_decide (fe_path f ∈ in_table))) (files base));
        md_gitlinks := gitlinks table;
        base_frames := map_ |}.

Definition set_fragments (l : list Fragment) (f : FileEntry) : FileEntry :=
  {| fe_path := fe_path f; fe_mode := fe_mode f; blob_sha1 := blob_sha1 f; fragments := l |}.

Definition remap_fragment (base_frames : list N) (fragment : Fragment) : Result Fragment :=
  let? slot := context (nget base_frames (frame_index fragment)) "base fragment names a missing frame" in
  ensure! negb (slot =? 0)%N else "file keeps a frame the delta drops";
  Ok {| frame_index := slot - 1; frame_offset := frame_offset fragment; fg_raw_len := fg_raw_len fragment |}.

(** One base entry of [apply]'s loop: the files, the placed paths and the
    removed paths seen so far. *)
Definition apply_entry (delta : MetadataDelta) (changed : gmap string FileEntry) (gone : Hashes)
    (acc : list FileEntry * Hashes * N) (entry : FileEntry) : Result (list FileEntry * Hashes * N) :=
  let '(out, placed, removed_seen) := acc in
  if bool_decide (fe_path entry ∈ gone) then Ok (out, placed, removed_seen + 1)%N
  else match changed !! fe_path entry with
       | Some new => Ok (out ++ [new], {[ fe_path entry ]} ∪ placed, removed_seen)
       | None =>
           let? l := collect (remap_fragment (base_frames delta)) (fragments entry) in
           Ok (out ++ [set_fragments l entry], placed, removed_seen)
       end.

(** [MetadataDelta::apply]. *)
Definition apply_delta (delta : MetadataDelta) (base : MetadataChunk) : Result MetadataChunk :=
  ensure! (nlen (base_frames delta) =? nlen (frames base))%N else "delta does not map the base's frames";
  let changed := by_path (md_files delta) in
  let gone : Hashes := list_to_set (removed delta) in
  let? (out, placed, removed_seen) := try_fold (apply_entry delta changed gone) ([], ∅, 0%N) (files base) in
  ensure! (removed_seen =? N.of_nat (size gone))%N else "delta removes a path its base lacks";
  let table :=
    {| frames := md_frames delta;
       files := out ++ List.filter (fun f => negb (bool_decide (fe_path f ∈ placed))) (md_files delta);
       gitlinks := md_gitlinks delta |} in
  let? _ := validate_geometry table in
  Ok table.

(** ** What a valid table is *)

(** A fragment lies inside its frame. *)
Definition fragment_ok (frames : list FrameInfo) (fragment : Fragment) : Prop :=
  exists frame, nget frames (frame_index fragment) = Some frame /\
    (frame_offset fragment + fg_raw_len fragment <= fi_raw_len frame)%N /\
    (frame_offset fragment + fg_raw_len fragment <= u32_max)%N.

Record file_ok (frames : list FrameInfo) (entry : FileEntry) : Prop := {
  fo_mode : fe_mode entry ∈ ALLOWED_MODES;
  fo_nonempty : fe_path entry <> "";
  fo_path : validate_relative_path (fe_path entry) = Ok tt;
  fo_blob : str_len (blob_sha1 entry) = 20%N;
  fo_present : frames <> [] -> fragments entry <> [];
  fo_fragments : Forall (fragment_ok frames) (fragments entry);
}.

Definition gitlink_ok (gitlink : string) : Prop :=
  gitlink <> "" /\ validate_relative_path gitlink = Ok tt.

(** The bytes the frames [l] put in chunk [c]. *)
Definition chunk_bytes (c : N) (l : list FrameInfo) : N :=
  nsum (map compressed_len (List.filter (fun f => (chunk_index f =? c)%N) l)).

(** Frames tile the chunks: chunks are numbered from 0 without a gap, and each
    frame starts where the earlier frames of its chunk end. *)
Definition frames_tile (l : list FrameInfo) : Prop :=
  forall l1 f l2, l = l1 ++ f :: l2 ->
    chunk_offset f = chunk_bytes (chunk_index f) l1 /\
    (chunk_offset f + compressed_len f <= u64_max)%N /\
    match last l1 with
    | None => chunk_index f = 0%N
    | Some g => chunk_index f = chunk_index g \/ chunk_index f = (chunk_index g + 1)%N
    end.

Record geometry_ok (m : MetadataChunk) : Prop := {
  geo_files : Forall (file_ok (frames m)) (files m);
  geo_gitlinks : Forall gitlink_ok (gitlinks m);
  geo_paths : NoDup (map fe_path (files m) ++ gitlinks m);
  geo_frames : frames_tile (frames m);
}.

(** The width of the proto field. *)
Definition chunk_indexes_fit (l : list FrameInfo) : Prop := Forall (fun f => (chunk_index f <= u32_max)%N) l.

(** ** Lemmas on the geometry check *)
Lemma try_fold_snoc {A B} (f : B -> A -> Result B) acc l x :
  try_fold f acc (l ++ [x]) = rbind (try_fold f acc l) (fun b => f b x).
Proof.
  revert acc; induction l as [|y l IH]; intros acc; cbn; [by destruct (f acc x)|].
  destruct (f acc y); cbn; auto.
Qed.

Lemma try_fold_paths {A} (f : Hashes -> A -> Result Hashes) (P : A -> Prop) (key : A -> string) l :
  (forall p e p', f p e = Ok p' <-> P e /\ key e ∉ p /\ p' = {[ key e ]} ∪ p) ->
  forall p p', try_fold f p l = Ok p' <->
    Forall P l /\ NoDup (map key l) /\ (forall x, x ∈ map key l -> x ∉ p) /\ p' = list_to_set (map key l) ∪ p.
Proof.
  intros Hf. induction l as [|x l IH]; intros p p'; cbn.
  - split; [intros [= <-]; split_and!; [done|constructor|set_solver|set_solver]|].
    intros (_ & _ & _ & ->). f_equal. set_solver.
  - rewrite rbind_ok. setoid_rewrite Hf. setoid_rewrite IH. split.
    + intros (q & (HP & Hx & ->) & Hl & Hnd & Hd & ->). rewrite Forall_cons, NoDup_cons.
      split_and!; try done; [|set_solver|set_solver]. intros Hin. specialize (Hd _ Hin). set_solver.
    + rewrite Forall_cons, NoDup_cons. intros ((HP & Hl) & (Hn & Hnd) & Hd & ->).
      exists ({[ key x ]} ∪ p). split_and!; try done; [set_solver| |set_solver].
      intros y Hy [->%elem_of_singleton|Hp]%elem_of_union; [done|]. eapply Hd; [|done]. set_solver.
Qed.

Lemma unit_result (r : Result unit) : (exists u, r = Ok u) <-> r = Ok tt.
Proof. split; [intros [[] H]; done|eauto]. Qed.

Lemma check_fragment_ok frames fragment :
  check_fragment frames fragment = Ok tt <-> fragment_ok frames fragment.
Proof.
  unfold check_fragment, fragment_ok. split.
  - intros H. inv_ok H. breflect. apply context_ok in E0, E1. apply checked_add_Some in E1 as [-> Hu].
    exists v. split; [done|]. lia.
  - intros (frame & Hf & Hl & Hu). unfold nget, nlen in *. pose proof (lookup_lt_Some _ _ _ Hf).
    rewrite (proj2 (N.leb_gt _ _)) by lia. rewrite Hf. cbn.
    unfold checked_add. rewrite (proj2 (N.leb_le _ _)) by done. cbn. by rewrite (proj2 (N.ltb_ge _ _)) by lia.
Qed.

Lemma check_file_ok frames paths entry paths' :
  check_file frames paths entry = Ok paths' <->
  file_ok frames entry /\ fe_path entry ∉ paths /\ paths' = {[ fe_path entry ]} ∪ paths.
Proof.
  assert (Hc : (exists l, collect (check_fragment frames) (fragments entry) = Ok l)
               <-> Forall (fragment_ok frames) (fragments entry)).
  { induction (fragments entry) as [|x l IH]; cbn; [naive_solver|].
    rewrite Forall_cons, <- IH, <- check_fragment_ok. destruct (check_fragment frames x) as [[]|]; cbn; [|naive_solver].
    destruct (collect _ l); cbn; naive_solver. }
  unfold check_file. split.
  - intros H. inv_ok H. breflect. destruct v.
    split_and!; try done. constructor; try done.
    + intros Hf Hn. rewrite Hn in E4. destruct frames; [done|]. by destruct E4.
    + apply Hc. eauto.
  - intros ([Hm Hne Hp Hb Hpr Hf] & Hn & ->).
    rewrite bool_decide_true, (bool_decide_false (fe_path entry = "")) by done. cbn.
    rewrite Hp. cbn. rewrite bool_decide_false by done. rewrite (proj2 (N.eqb_eq _ _)) by done. cbn.
    apply Hc in Hf as [l Hl]. rewrite Hl. destruct (fragments entry) as [|? ?] eqn:Ef; cbn; [|done].
    destruct frames; [done|]. by destruct Hpr.
Qed.

Lemma check_gitlink_ok paths g paths' :
  check_gitlink paths g = Ok paths' <-> gitlink_ok g /\ g ∉ paths /\ paths' = {[ g ]} ∪ paths.
Proof.
  unfold check_gitlink, gitlink_ok. split.
  - intros H. inv_ok H. breflect. by destruct v.
  - intros ((Hne & Hp) & Hn & ->). rewrite bool_decide_false by done. rewrite Hp. cbn.
    by rewrite bool_decide_false.
Qed.

(** ** Frames *)
Lemma chunk_bytes_snoc c l f :
  chunk_bytes c (l ++ [f]) = (chunk_bytes c l + if (chunk_index f =? c)%N then compressed_len f else 0)%N.
Proof.
  unfold chunk_bytes. rewrite List.filter_app, map_app, nsum_app. cbn. by destruct (_ =? _)%N; cbn; lia.
Qed.
Lemma chunk_bytes_later c l : Forall (fun f => (chunk_index f < c)%N) l -> chunk_bytes c l = 0%N.
Proof.
  unfold chunk_bytes. induction 1 as [|f l Hf Hl IH]; [done|]. cbn.
  by rewrite (proj2 (N.eqb_neq _ _)) by lia.
Qed.

(** The chunk the next frame may continue. *)
Definition last_chunk (l : list FrameInfo) : option N := chunk_index <$> last l.

Lemma frames_tile_snoc l f :
  frames_tile (l ++ [f]) <->
  frames_tile l /\ chunk_offset f = chunk_bytes (chunk_index f) l /\
  (chunk_offset f + compressed_len f <= u64_max)%N /\
  match last l with
  | None => chunk_index f = 0%N
  | Some g => chunk_index f = chunk_index g \/ chunk_index f = (chunk_index g + 1)%N
  end.
Proof.
  split.
  - intros H. split; [|by apply (H l f [])]. intros l1 x l2 ->. apply (H l1 x (l2 ++ [f])).
    by rewrite <- app_assoc.
  - intros [Hl Hf] l1 x l2 Heq. destruct l2 as [|y l2 _] using rev_ind.
    + apply app_inj_tail in Heq as [-> ->]. done.
    + rewrite app_comm_cons, app_assoc in Heq. apply app_inj_tail in Heq as [-> ->]. by apply (Hl l1 x l2).
Qed.

Lemma frames_tile_bound l : frames_tile l -> Forall (fun f => exists c, last_chunk l = Some c /\ (chunk_index f <= c)%N) l.
Proof.
  induction l as [|f l IH] using rev_ind; [done|]. intros [Hl (Hoff & Hb & Hc)]%frames_tile_snoc.
  unfold last_chunk in *. rewrite last_snoc. cbn. apply Forall_app. split; [|by repeat econstructor].
  eapply Forall_impl; [by apply IH|]. cbn. intros x (c & Hlast & Hx).
  destruct (last l) as [g|]; [|done]. cbn in Hlast. injection Hlast as <-. eexists; split; [done|]. lia.
Qed.

Lemma check_frames_ok l st :
  chunk_indexes_fit l ->
  try_fold check_frame (None, 0%N) l = Ok st <->
  frames_tile l /\ st = (last_chunk l, default 0%N ((fun c => chunk_bytes c l) <$> last_chunk l)).
Proof.
  revert st. induction l as [|f l IH] using rev_ind; intros st Hfit.
  - cbn. split; [intros [= <-]; split; [|done]; intros l1 f l2 H; by destruct l1|naive_solver].
  - apply Forall_app in Hfit as [Hfit [Hf _]%Forall_cons]. rewrite try_fold_snoc, rbind_ok, frames_tile_snoc.
    setoid_rewrite IH; [|done].
    assert (Hstep : frames_tile l ->
      check_frame (last_chunk l, default 0%N ((fun c => chunk_bytes c l) <$> last_chunk l)) f = Ok st <->
      (chunk_offset f = chunk_bytes (chunk_index f) l /\ (chunk_offset f + compressed_len f <= u64_max)%N /\
       match last l with
       | None => chunk_index f = 0%N
       | Some g => chunk_index f = chunk_index g \/ chunk_index f = (chunk_index g + 1)%N
       end) /\ st = (Some (chunk_index f), (chunk_offset f + compressed_len f)%N)).
    { clear IH. intros Hl. pose proof (frames_tile_bound l Hl) as Hbound. unfold check_frame, last_chunk in *.
      rewrite rbind_ok. setoid_rewrite context_ok. setoid_rewrite checked_add_Some. cbn [fst snd].
      destruct (last l) as [g|] eqn:Eg; cbn.
      - assert (Hg : (chunk_index g <= u32_max)%N).
        { rewrite Forall_forall in Hfit. apply Hfit. by apply last_Some_elem_of. }
        assert (Hlast : Forall (fun x => (chunk_index x <= chunk_index g)%N) l).
        { eapply Forall_impl; [exact Hbound|]. intros x (c & [= <-] & Hx). done. }
        assert (Hnew : chunk_bytes (chunk_index g + 1) l = 0%N).
        { apply chunk_bytes_later. eapply Forall_impl; [exact Hlast|]. cbn. lia. }
        unfold saturating_add. split.
        + intros (e & [-> Hu] & H). inv_ok H. inv_ok E; breflect.
          * split; [|done]. split_and!; [|done|by left]. cbn in *. congruence.
          * assert (chunk_index f = chunk_index g + 1)%N as Hi by lia.
            split; [|done]. split_and!; [by rewrite Hi, Hnew|done|by right].
        + intros [(Hoff & Hu & Hc) ->]. eexists. split; [done|].
          destruct Hc as [Hc|Hc].
          * rewrite (proj2 (N.ltb_ge _ _)) by lia. rewrite (proj2 (N.eqb_eq _ _)) by done.
            rewrite Hoff, Hc, N.eqb_refl. cbn. congruence.
          * rewrite (proj2 (N.ltb_ge _ _)) by lia. rewrite (proj2 (N.eqb_neq (chunk_index f) _)) by lia.
            rewrite (proj2 (N.eqb_eq (chunk_index f) _)) by lia. rewrite Hc, Hnew in Hoff. rewrite Hoff. done.
      - apply last_None in Eg as ->. split.
        + intros (e & [-> Hu] & H). inv_ok H. inv_ok E. breflect. done.
        + intros [(Hoff & Hu & Hc) ->]. eexists. split; [done|]. by rewrite Hc, Hoff. }
    split.
    + intros (q & (Hl & ->) & Hc). apply Hstep in Hc as [H1 ->]; [|done]. split; [done|].
      unfold last_chunk. rewrite last_snoc. cbn. rewrite chunk_bytes_snoc, N.eqb_refl. destruct H1 as (-> & _). done.
    + intros [(Hl & H1) ->]. eexists. split; [done|]. apply Hstep; [done|]. split; [done|].
      unfold last_chunk. rewrite last_snoc. cbn. rewrite chunk_bytes_snoc, N.eqb_refl. by destruct H1 as (-> & _).
Qed.

Lemma validate_geometry_ok m :
  chunk_indexes_fit (frames m) -> validate_geometry m = Ok tt <-> geometry_ok m.
Proof.
  intros Hfit. unfold validate_geometry. rewrite rbind_ok. split.
  - intros (p & H1 & H). apply rbind_ok in H as (q & H2 & H). apply rbind_ok in H as (st & H3 & _).
    apply (try_fold_paths _ (file_ok (frames m)) fe_path) in H1 as (Hf & Hnf & _ & ->); [|apply check_file_ok].
    apply (try_fold_paths _ gitlink_ok (fun g => g)) in H2 as (Hg & Hng & Hd & ->); [|apply check_gitlink_ok].
    rewrite map_id in *. apply check_frames_ok in H3 as [Ht _]; [|done]. constructor; try done.
    apply NoDup_app. split_and!; [done| |done]. intros x Hx Hg'. specialize (Hd x Hg'). set_solver.
  - intros [Hf Hg Hnd Ht]. apply NoDup_app in Hnd as (Hnf & Hd & Hng).
    eexists. split; [apply (try_fold_paths _ (file_ok (frames m)) fe_path); [apply check_file_ok|]; split_and!; try done; set_solver|].
    apply rbind_ok. eexists.
    split; [apply (try_fold_paths _ gitlink_ok (fun g => g)); [apply check_gitlink_ok|]; rewrite map_id; split_and!; try done|].
    + intros x Hx Hin. apply (Hd x); [set_solver|done].
    + apply rbind_ok. eexists. split; [apply check_frames_ok; done|done].
Qed.

(** ** Chunk lengths *)
Definition chunk_count (l : list FrameInfo) : N := match last_chunk l with Some c => c + 1 | None => 0 end.
Definition chunk_lengths (l : list FrameInfo) : list N :=
  (fun c => chunk_bytes (N.of_nat c) l) <$> seq 0 (N.to_nat (chunk_count l)).

Lemma chunk_lengths_length l : nlen (chunk_lengths l) = chunk_count l.
Proof. unfold chunk_lengths, nlen. rewrite length_fmap, length_seq. lia. Qed.
Lemma chunk_lengths_lookup l c : (c < chunk_count l)%N -> nget (chunk_lengths l) c = Some (chunk_bytes c l).
Proof.
  intros Hc. unfold nget, chunk_lengths. rewrite list_lookup_fmap, lookup_seq_lt by lia. cbn.
  by rewrite N2Nat.id.
Qed.
Lemma chunk_lengths_eq l k : nlen k = chunk_count l ->
  (forall c, (c < chunk_count l)%N -> nget k c = Some (chunk_bytes c l)) -> k = chunk_lengths l.
Proof.
  intros Hlen Hk. apply list_eq. intros i.
  destruct (decide (N.of_nat i < chunk_count l)%N) as [Hi|Hi].
  - specialize (Hk (N.of_nat i) Hi). pose proof (chunk_lengths_lookup l _ Hi) as Hl.
    unfold nget in *. rewrite Nat2N.id in *. congruence.
  - pose proof (chunk_lengths_length l) as Hl. unfold nlen in *. rewrite !lookup_ge_None_2; [done|lia..].
Qed.

Lemma chunk_length_fold l :
  frames_tile l -> try_fold chunk_length_step [] l = Ok (chunk_lengths l).
Proof.
  induction l as [|f l IH] using rev_ind; [done|].
  intros Ht. pose proof Ht as [Hl (Hoff & Hu & Hc)]%frames_tile_snoc.
  rewrite try_fold_snoc, IH by done. cbn [rbind]. unfold chunk_length_step.
  unfold checked_add. rewrite (proj2 (N.leb_le _ _)) by done. cbn [context rbind].
  rewrite chunk_lengths_length.
  assert (Hcount : chunk_count (l ++ [f]) = (chunk_index f + 1)%N).
  { unfold chunk_count, last_chunk. by rewrite last_snoc. }
  assert (Hidx : chunk_index f = chunk_count l /\ chunk_bytes (chunk_index f) l = 0%N \/
                 (chunk_index f + 1 = chunk_count l)%N).
  { pose proof (frames_tile_bound l Hl) as Hb. unfold chunk_count, last_chunk in *.
    destruct (last l) as [g|] eqn:Eg; cbn in *; [|apply last_None in Eg as ->; left; by rewrite Hc].
    destruct Hc as [->|Hc]; [by right|left]. split; [done|]. rewrite Hc. apply chunk_bytes_later.
    eapply Forall_impl; [exact Hb|]. intros x (c & [= <-] & Hx). lia. }
  set (k := if (chunk_index f =? chunk_count l)%N then chunk_lengths l ++ [0%N] else chunk_lengths l).
  assert (Hk : (if (chunk_index f =? chunk_count l)%N then Ok (chunk_lengths l ++ [0%N])
     else if (chunk_count l <? chunk_index f)%N then Err "archive chunk index is not contiguous"
     else Ok (chunk_lengths l)) = Ok k).
  { unfold k. destruct Hidx as [[-> _]|Hi]; [by rewrite N.eqb_refl|].
    by rewrite (proj2 (N.eqb_neq _ _)), (proj2 (N.ltb_ge _ _)) by lia. }
  rewrite Hk. cbn [rbind].
  assert (Hklen : nlen k = (chunk_index f + 1)%N).
  { unfold k. destruct Hidx as [[-> _]|Hi]; [rewrite N.eqb_refl|rewrite (proj2 (N.eqb_neq _ _)) by lia];
      rewrite ?nlen_app, chunk_lengths_length; [done|lia]. }
  assert (Hkget : forall c, (c <= chunk_index f)%N -> nget k c = Some (chunk_bytes c l)).
  { intros c Hle. unfold k. destruct Hidx as [[Hi H0]|Hi].
    - rewrite Hi, N.eqb_refl. unfold nget. destruct (decide (c = chunk_index f)) as [->|Hne].
      + pose proof (chunk_lengths_length l) as Hln. unfold nlen in Hln. rewrite list_lookup_middle by lia.
        by rewrite H0.
      + pose proof (chunk_lengths_length l) as Hln. unfold nlen in Hln. rewrite lookup_app_l by lia.
        apply chunk_lengths_lookup. lia.
    - rewrite (proj2 (N.eqb_neq _ _)) by lia. apply chunk_lengths_lookup. lia. }
  rewrite Hkget by done. cbn [context rbind]. f_equal.
  clearbody k. apply chunk_lengths_eq.
  - rewrite Hcount, <- Hklen. destruct (N.ltb (chunk_bytes (chunk_index f) l) (chunk_offset f + compressed_len f)); [|done]. unfold nlen. by rewrite length_insert.
  - intros c Hlt. rewrite Hcount in Hlt. rewrite chunk_bytes_snoc, Hoff.
    destruct (decide (c = chunk_index f)) as [->|Hne].
    + rewrite N.eqb_refl. destruct (N.ltb_spec (chunk_bytes (chunk_index f) l) (chunk_bytes (chunk_index f) l + compressed_len f)).
      * unfold nget. unfold nlen in Hklen. by rewrite list_lookup_insert_eq by lia.
      * rewrite Hkget by lia. f_equal. lia.
    + rewrite (proj2 (N.eqb_neq _ _)) by done. rewrite N.add_0_r.
      match goal with |- context [if ?b then _ else _] => destruct b end; [|by apply Hkget; lia].
      unfold nget. rewrite list_lookup_insert_ne by lia. apply Hkget. lia.
Qed.

(** C26: the geometry check accepts exactly the well-formed tables: every file has
    an allowed mode, a safe relative path and a 20 byte blob id, no two entries
    share a path, every fragment lies inside a frame that exists, no file of an
    archive is without fragments, and the frames tile their chunks without gap
    or overlap. *)
Theorem validate_geometry_sound_complete m :
  chunk_indexes_fit (frames m) -> validate_geometry m = Ok tt <-> geometry_ok m.
Proof. apply validate_geometry_ok. Qed.

(** For every table the check accepts, [archive_chunk_lengths] succeeds and
    gives each chunk's length: one entry per chunk, the sum of its frames'
    compressed lengths, so every frame lies inside its chunk. *)
Lemma archive_chunk_lengths_spec m :
  chunk_indexes_fit (frames m) -> validate_geometry m = Ok tt ->
  exists lengths, archive_chunk_lengths m = Ok lengths /\
    (forall c, nget lengths c = if (c <? chunk_count (frames m))%N then Some (chunk_bytes c (frames m)) else None) /\
    Forall (fun f => exists len, nget lengths (chunk_index f) = Some len /\
                       (chunk_offset f + compressed_len f <= len)%N) (frames m).
Proof.
  intros Hfit Hv. pose proof (proj1 (validate_geometry_ok m Hfit) Hv) as Hgeo. pose proof (geo_frames _ Hgeo) as Ht.
  exists (chunk_lengths (frames m)). unfold archive_chunk_lengths. rewrite Hv. cbn [rbind].
  split; [by apply chunk_length_fold|].
  assert (Hget : forall c, nget (chunk_lengths (frames m)) c
    = if (c <? chunk_count (frames m))%N then Some (chunk_bytes c (frames m)) else None).
  { intros c. destruct (N.ltb_spec c (chunk_count (frames m))); [by apply chunk_lengths_lookup|].
    pose proof (chunk_lengths_length (frames m)). unfold nget, nlen in *. apply lookup_ge_None_2. lia. }
  split; [exact Hget|]. apply Forall_forall. intros f Hf.
  pose proof (frames_tile_bound _ Ht) as Hb. rewrite Forall_forall in Hb. destruct (Hb f Hf) as (c & Hlast & Hc).
  exists (chunk_bytes (chunk_index f) (frames m)). rewrite Hget. unfold chunk_count. rewrite Hlast.
  rewrite (proj2 (N.ltb_lt _ _)) by lia. split; [done|].
  apply list_elem_of_split in Hf as (l1 & l2 & Heq). destruct (Ht l1 f l2 Heq) as (-> & _).
  rewrite Heq. unfold chunk_bytes. rewrite List.filter_app, map_app, nsum_app. cbn. rewrite N.eqb_refl. cbn. lia.
Qed.

(** ** Frame maps *)
Lemma hash_map_lookup {K V} `{Countable K} (l : list (K * V)) k v :
  hash_map l !! k = Some v -> (k, v) ∈ l.
Proof. unfold hash_map. intros H'%elem_of_list_to_map_2. by rewrite elem_of_reverse in H'. Qed.
Lemma hash_map_None {K V} `{Countable K} (l : list (K * V)) k :
  hash_map l !! k = None <-> k ∉ l.*1.
Proof.
  unfold hash_map. rewrite <- not_elem_of_list_to_map. by rewrite fmap_reverse, elem_of_reverse.
Qed.
Lemma hash_map_unique {K V} `{Countable K} (l : list (K * V)) k v :
  NoDup l.*1 -> hash_map l !! k = Some v <-> (k, v) ∈ l.
Proof.
  intros Hnd. unfold hash_map. rewrite <- elem_of_list_to_map; [by rewrite elem_of_reverse|].
  by rewrite fmap_reverse, reverse_Permutation.
Qed.

(** A slot of a frame map: the frame of [to] with the same bytes, or none. *)
Definition slot_ok (from_bundles : list string) (to : list FrameInfo) (to_bundles : list string)
    (frame : FrameInfo) (slot : N) : Prop :=
  exists key, frame_key from_bundles frame = Ok key /\
    if (slot =? 0)%N then forall f, f ∈ to -> frame_key to_bundles f <> Ok key
    else exists f, nget to (slot - 1) = Some f /\ frame_key to_bundles f = Ok key.

Lemma frame_map_ok from fb to tb m :
  frame_map from fb to tb = Ok m ->
  Forall2 (slot_ok fb to tb) from m /\ Forall (fun f => is_ok (frame_key tb f) = true) to /\
  (nlen to <= u32_max)%N.
Proof.
  unfold frame_map. intros H. apply rbind_ok in H as (at_ & Hat & H).
  apply collect_ok in Hat, H. split; [|split].
  - eapply Forall2_impl; [exact H|]. intros frame slot Hs. apply rbind_ok in Hs as (key & Hkey & Hs).
    injection Hs as <-. exists key. split; [done|].
    destruct (hash_map at_ !! key) as [slot|] eqn:E; cbn [default].
    + apply hash_map_lookup in E. destruct (Forall2_in_r _ _ _ _ Hat E) as ([i f] & Hin & Hf).
      apply elem_of_enumerate in Hin. apply rbind_ok in Hf as (s & Hs & Hf). apply rbind_ok in Hf as (key' & Hk' & Hf).
      injection Hf as -> ->. apply context_ok, try_from_Some in Hs as [-> Hle]. unfold id.
      rewrite (proj2 (N.eqb_neq _ _)) by lia. exists f. split; [|done]. by replace (i + 1 - 1)%N with i by lia.
    + cbn. intros f Hf Hfk. apply hash_map_None in E. apply E.
      apply list_elem_of_lookup in Hf as [i Hi].
      assert ((N.of_nat i, f) ∈ enumerate to) as Hin by (apply elem_of_enumerate; unfold nget; by rewrite Nat2N.id).
      destruct (Forall2_in_l _ _ _ _ Hat Hin) as ([k s] & Hks & Hf).
      apply rbind_ok in Hf as (s' & _ & Hf). apply rbind_ok in Hf as (key' & Hk' & Hf).
      injection Hf as <- <-. apply list_elem_of_fmap. exists (key', s'). split; [cbn; congruence|done].
  - apply Forall_forall. intros f Hf. apply list_elem_of_lookup in Hf as [i Hi].
    assert ((N.of_nat i, f) ∈ enumerate to) as Hin by (apply elem_of_enumerate; unfold nget; by rewrite Nat2N.id).
    destruct (Forall2_in_l _ _ _ _ Hat Hin) as ([k s] & Hks & Hf).
    apply rbind_ok in Hf as (s' & _ & Hf). apply rbind_ok in Hf as (key' & Hk' & Hf). by rewrite Hk'.
  - destruct to as [|f0 to'] using rev_ind; [done|]. clear IHto'.
    assert ((N.of_nat (length to'), f0) ∈ enumerate (to' ++ [f0])) as Hin.
    { apply elem_of_enumerate. unfold nget. rewrite Nat2N.id. by apply list_lookup_middle. }
    destruct (Forall2_in_l _ _ _ _ Hat Hin) as ([k s] & Hks & Hf).
    apply rbind_ok in Hf as (s' & Hs & _). apply context_ok, try_from_Some in Hs as [_ Hle].
    rewrite nlen_app. unfold nlen. cbn. lia.
Qed.

(** A frame map sends each frame to one with the same bytes (the same offset of
    the same bundle), or to 0 exactly when the other table has none; maps compose:
    the composition never fails, and a frame it finds has the same bytes. *)
Lemma frame_maps_compose a ab b bb c cb m1 m2 :
  frame_map a ab b bb = Ok m1 -> frame_map b bb c cb = Ok m2 ->
  Forall2 (slot_ok ab b bb) a m1 /\
  exists m3, compose_frame_maps m1 m2 = Ok m3 /\ nlen m3 = nlen a /\
    forall i frame slot, nget a i = Some frame -> nget m3 i = Some slot -> slot <> 0%N ->
      exists key f, frame_key ab frame = Ok key /\ nget c (slot - 1) = Some f /\ frame_key cb f = Ok key.
Proof.
  intros H1 H2. apply frame_map_ok in H1 as (H1 & _ & _), H2 as (H2 & _ & _). split; [done|].
  set (comp := fun slot => if (slot =? 0)%N then 0%N else default 0%N (nget m2 (slot - 1))).
  assert (Hslot : forall frame slot, slot_ok ab b bb frame slot -> slot <> 0%N -> exists key f s2,
    frame_key ab frame = Ok key /\ nget b (slot - 1) = Some f /\ frame_key bb f = Ok key /\
    nget m2 (slot - 1) = Some s2 /\ slot_ok bb c cb f s2).
  { intros frame slot (key & Hk & Hs) Hne. rewrite (proj2 (N.eqb_neq _ _)) in Hs by done.
    destruct Hs as (f & Hf & Hfk). destruct (Forall2_lookup_l _ _ _ _ _ H2 Hf) as (s2 & Hs2 & Hok).
    exists key, f, s2. done. }
  assert (Hcomp : compose_frame_maps m1 m2 = Ok (comp <$> m1)).
  { apply collect_total. apply Forall_forall. intros slot Hin. unfold comp.
    destruct (N.eqb_spec slot 0); [done|].
    destruct (Forall2_in_r _ _ _ _ H1 Hin) as (frame & _ & Hok).
    destruct (Hslot _ _ Hok n) as (key & f & s2 & _ & _ & _ & Hs2 & _). by rewrite Hs2. }
  exists (comp <$> m1). split; [done|]. split.
  { unfold nlen. rewrite length_fmap. by rewrite (Forall2_length _ _ _ H1). }
  intros i frame slot Hi Hs Hne. unfold nget in Hi, Hs. rewrite list_lookup_fmap in Hs.
  destruct (Forall2_lookup_l _ _ _ _ _ H1 Hi) as (s1 & Hs1 & Hok). rewrite Hs1 in Hs. cbn in Hs.
  injection Hs as <-. unfold comp in *. destruct (N.eqb_spec s1 0); [done|].
  destruct (Hslot _ _ Hok n) as (key & f & s2 & Hk & _ & Hfk & Hs2 & (key' & Hk' & Hf)).
  rewrite Hs2 in *. cbn in *. unfold id in *. rewrite (proj2 (N.eqb_neq _ _)) in Hf by done.
  destruct Hf as (f' & Hf' & Hfk'). exists key, f'. split_and!; try done. congruence.
Qed.

(** ** Deltas *)
Lemma by_path_lookup l p f :
  NoDup (map fe_path l) -> by_path l !! p = Some f <-> f ∈ l /\ fe_path f = p.
Proof.
  intros Hnd. unfold by_path. rewrite hash_map_unique.
  - rewrite list_elem_of_fmap. split; [intros (x & [= -> ->] & Hx); done|intros [Hf <-]; eauto].
  - rewrite <- list_fmap_compose. done.
Qed.
Lemma by_path_None l p : by_path l !! p = None <-> p ∉ map fe_path l.
Proof. unfold by_path. rewrite hash_map_None. by rewrite <- list_fmap_compose. Qed.

Lemma NoDup_filter_paths p (l : list FileEntry) : NoDup (map fe_path l) -> NoDup (map fe_path (List.filter p l)).
Proof.
  induction l as [|x l IH]; cbn; [done|]. intros [Hx Hl]%NoDup_cons. destruct (p x); cbn; [|auto].
  apply NoDup_cons. split; [|auto]. intros (y & Hy & Hin)%list_elem_of_fmap. apply Hx. rewrite Hy.
  apply list_elem_of_fmap_2. rewrite !list_elem_of_In in *. by apply List.filter_In in Hin as [? _].
Qed.
Section delta.
Context (base table : MetadataChunk) (fmap_ : list N).
Context (Hbase : NoDup (map fe_path (files base))) (Htable : NoDup (map fe_path (files table)))
  (Hlen : (nlen (frames table) <= u32_max)%N)
  (Hfrag : Forall (file_ok (frames table)) (files table)).

Let d : MetadataDelta :=
  {| md_frames := frames table;
     md_files := List.filter (fun f => negb (kept (by_path (files base)) fmap_ f)) (files table);
     removed := map fe_path (List.filter
       (fun f => negb (bool_decide (fe_path f ∈ (list_to_set (map fe_path (files table)) : Hashes)))) (files base));
     md_gitlinks := gitlinks table;
     base_frames := fmap_ |}.
Let changed := by_path (md_files d).
Let gone : Hashes := list_to_set (removed d).

Lemma in_table_spec e : fe_path e ∈ (list_to_set (map fe_path (files table)) : Hashes)
  <-> is_Some (by_path (files table) !! fe_path e).
Proof.
  rewrite elem_of_list_to_set. destruct (by_path (files table) !! fe_path e) as [f|] eqn:E.
  - apply by_path_lookup in E as [Hf <-]; [|done]. split; [eauto|]. intros _. by apply list_elem_of_fmap_2.
  - apply by_path_None in E. split; [done|]. by intros [].
Qed.

(** An entry the table keeps is the base's entry with its frames renamed. *)
Lemma kept_remaps e f :
  e ∈ files base -> f ∈ files table -> fe_path f = fe_path e ->
  kept (by_path (files base)) fmap_ f = true ->
  exists l, collect (remap_fragment fmap_) (fragments e) = Ok l /\ set_fragments l e = f.
Proof.
  intros He Hf Hp Hk. unfold kept in Hk. rewrite Hp in Hk.
  rewrite (proj2 (by_path_lookup _ _ e Hbase)) in Hk by done.
  rewrite !andb_true_iff in Hk. destruct Hk as (((Hm%N.eqb_eq & Hb%bool_decide_eq_true) & Hl%N.eqb_eq) & Hz).
  exists (fragments f). split.
  - rewrite Forall_forall in Hfrag. pose proof (fo_fragments _ _ (Hfrag f Hf)) as Hok.
    apply collect_ok. clear -Hl Hz Hok Hlen. revert Hl Hz Hok. generalize (fragments f). generalize (fragments e).
    induction l as [|x l IH]; intros [|y k]; cbn; intros Hl Hz Hok; [constructor|done|done|].
    apply andb_true_iff in Hz as [Hxy Hz]. apply Forall_cons in Hok as [Hy Hok].
    constructor; [|apply IH; [rewrite !nlen_cons in Hl; lia|done|done]].
    unfold same_fragment in Hxy. rewrite !andb_true_iff in Hxy.
    destruct Hxy as ((Hi%bool_decide_eq_true & Ho%N.eqb_eq) & Hr%N.eqb_eq).
    destruct Hy as (fr & Hfr & _). unfold nget in Hfr. apply lookup_lt_Some in Hfr. unfold nlen in Hlen.
    unfold u32_succ in Hi. assert (frame_index y + 1 < 4294967296)%N by (unfold u32_max in Hlen; lia).
    rewrite N.mod_small in Hi by done. unfold remap_fragment. rewrite Hi. cbn.
    rewrite (proj2 (N.eqb_neq _ _)) by lia. cbn. rewrite Ho, Hr. destruct y as [i o r]; cbn. do 2 f_equal. lia.
  - unfold set_fragments. destruct f, e; cbn in *. congruence.
Qed.

Lemma changed_spec e : changed !! fe_path e =
  match by_path (files table) !! fe_path e with
  | Some f => if kept (by_path (files base)) fmap_ f then None else Some f
  | None => None
  end.
Proof.
  assert (Hnd : NoDup (map fe_path (md_files d))) by by apply NoDup_filter_paths.
  destruct (by_path (files table) !! fe_path e) as [f|] eqn:E.
  - apply by_path_lookup in E as [Hf Hp]; [|done]. destruct (kept _ _ f) eqn:Ek.
    + apply by_path_None. intros (g & Hg & [Hin Hn]%elem_of_lfilter)%list_elem_of_fmap.
      assert (by_path (files table) !! fe_path e = Some g) as Eg by (apply by_path_lookup; done).
      assert (by_path (files table) !! fe_path e = Some f) as Ef by (apply by_path_lookup; done).
      rewrite Eg in Ef. injection Ef as ->. by rewrite Ek in Hn.
    + apply by_path_lookup; [done|]. split; [|done]. apply elem_of_lfilter. by rewrite Ek.
  - apply by_path_None in E. apply by_path_None. intros (g & Hg & [Hin _]%elem_of_lfilter)%list_elem_of_fmap.
    apply E. rewrite Hg. by apply list_elem_of_fmap_2.
Qed.

Lemma gone_spec e : e ∈ files base -> fe_path e ∈ gone <-> by_path (files table) !! fe_path e = None.
Proof.
  intros He. unfold gone, d. cbn [removed]. rewrite elem_of_list_to_set, elem_of_lmap. split.
  - intros (g & Hg & [_ Hn]%elem_of_lfilter). apply negb_true_iff, bool_decide_eq_false in Hn.
    rewrite in_table_spec, <- Hg in Hn. destruct (by_path _ !! _); [|done]. exfalso. eauto.
  - intros Hn. exists e. split; [done|]. apply elem_of_lfilter. split; [done|].
    apply negb_true_iff, bool_decide_eq_false. rewrite in_table_spec, Hn. by intros [].
Qed.

Definition in_changed (e : FileEntry) : bool := bool_decide (is_Some (changed !! fe_path e)).
Definition in_gone (e : FileEntry) : bool := bool_decide (fe_path e ∈ gone).
Let at_table (e : FileEntry) : option FileEntry := by_path (files table) !! fe_path e.

(** The loop's result over base entries. *)
Lemma apply_fold l out placed n :
  Forall (fun e => e ∈ files base) l ->
  try_fold (apply_entry d changed gone) (out, placed, n) l =
  Ok (out ++ omap at_table l,
      list_to_set (map fe_path (List.filter in_changed l)) ∪ placed,
      (n + nlen (List.filter in_gone l))%N).
Proof.
  revert out placed n. induction l as [|e l IH]; intros out placed n Hl.
  { cbn. rewrite app_nil_r, N.add_0_r. do 3 f_equal. set_solver. }
  apply Forall_cons in Hl as [He Hl]. cbn [try_fold].
  assert (Hstep : apply_entry d changed gone (out, placed, n) e =
    Ok (out ++ option_list (at_table e), (if in_changed e then {[ fe_path e ]} else ∅) ∪ placed,
        (n + if in_gone e then 1 else 0)%N)).
  { unfold apply_entry, in_gone, in_changed, at_table. rewrite changed_spec.
    destruct (by_path (files table) !! fe_path e) as [f|] eqn:E.
    - rewrite !(bool_decide_false (fe_path e ∈ gone)) by (rewrite gone_spec by done; congruence).
      destruct (kept _ _ f) eqn:Ek; cbn.
      + apply by_path_lookup in E as [Hf Hp]; [|done].
        destruct (kept_remaps e f He Hf Hp Ek) as (fl & Hfl & Hset). rewrite Hfl. cbn. rewrite Hset, N.add_0_r.
        do 3 f_equal. set_solver.
      + by rewrite N.add_0_r.
    - rewrite !bool_decide_true by (by rewrite gone_spec). cbn. rewrite app_nil_r. do 3 f_equal. set_solver. }
  rewrite Hstep. cbn [rbind]. rewrite IH by done. rewrite <- app_assoc. cbn [omap list_omap List.filter].
  f_equal. f_equal; [f_equal|].
  - f_equal. cbn. by destruct (at_table e).
  - destruct (in_changed e); cbn; set_solver.
  - destruct (in_gone e); rewrite ?nlen_cons; lia.
Qed.

Lemma gone_count : nlen (List.filter in_gone (files base)) = N.of_nat (size gone).
Proof.
  unfold gone, d. cbn [removed]. rewrite size_list_to_set by by apply NoDup_filter_paths.
  rewrite length_map. unfold nlen. do 2 f_equal. apply List.filter_ext_in. intros e He%list_elem_of_In.
  unfold in_gone. apply Bool.eq_true_iff_eq. rewrite negb_true_iff, bool_decide_eq_true, bool_decide_eq_false.
  by rewrite gone_spec, in_table_spec, eq_None_not_Some.
Qed.

Lemma at_table_NoDup l : NoDup (map fe_path l) -> NoDup (omap at_table l).
Proof.
  induction l as [|e l IH]; cbn; [constructor|]. intros [He Hl]%NoDup_cons.
  destruct (at_table e) as [f|] eqn:E; [|auto]. constructor; [|auto].
  intros (e' & He' & Hf)%list_elem_of_omap. apply by_path_lookup in E as [_ Hp], Hf as [_ Hp']; [|done..].
  apply He. rewrite <- Hp, Hp'. by apply list_elem_of_fmap_2.
Qed.

(** The files [apply] makes are the table's, in another order. *)
Lemma applied_files :
  omap at_table (files base)
  ++ List.filter (fun f => negb (bool_decide (fe_path f ∈
       (list_to_set (map fe_path (List.filter in_changed (files base))) ∪ ∅ : Hashes)))) (md_files d)
  ≡ₚ files table.
Proof.
  assert (Hrest : forall f, f ∈ List.filter (fun f => negb (bool_decide (fe_path f ∈
      (list_to_set (map fe_path (List.filter in_changed (files base))) ∪ ∅ : Hashes)))) (md_files d)
    <-> f ∈ files table /\ fe_path f ∉ map fe_path (files base)).
  { intros f. rewrite elem_of_lfilter, negb_true_iff, bool_decide_eq_false, union_empty_r_L, elem_of_list_to_set.
    unfold d. cbn [md_files]. rewrite elem_of_lfilter, negb_true_iff. split.
    - intros [[Hf Hk] Hn]. split; [done|]. intros (e & Hp & He)%list_elem_of_fmap. apply Hn, list_elem_of_fmap.
      exists e. split; [done|]. apply elem_of_lfilter. split; [done|]. unfold in_changed.
      apply bool_decide_eq_true. rewrite changed_spec.
      rewrite (proj2 (by_path_lookup _ _ f Htable)) by done. rewrite Hk. eauto.
    - intros [Hf Hn]. split; [split; [done|]|].
      + unfold kept. by rewrite (proj2 (by_path_None _ _) Hn).
      + intros (e & Hp & [He _]%elem_of_lfilter)%list_elem_of_fmap. apply Hn. rewrite Hp. by apply list_elem_of_fmap_2. }
  assert (Hout : forall f, f ∈ omap at_table (files base) <-> f ∈ files table /\ fe_path f ∈ map fe_path (files base)).
  { intros f. rewrite list_elem_of_omap. unfold at_table. split.
    - intros (e & He & [Hf Hp]%by_path_lookup); [|done]. split; [done|]. rewrite Hp. by apply list_elem_of_fmap_2.
    - intros [Hf (e & Hp & He)%list_elem_of_fmap]. exists e. split; [done|]. by apply by_path_lookup. }
  apply NoDup_Permutation.
  - apply NoDup_app. split_and!; [by apply at_table_NoDup| |].
    + intros f [_ Hin]%Hout [_ Hn]%Hrest. done.
    + apply (NoDup_fmap_1 fe_path). apply NoDup_filter_paths, NoDup_filter_paths, Htable.
  - by apply (NoDup_fmap_1 fe_path).
  - intros f. rewrite elem_of_app, Hout, Hrest. destruct (decide (fe_path f ∈ map fe_path (files base))); tauto.
Qed.
End delta.

(** C27: a delta makes its table again: between two valid tables, whatever frame map
    is given, the delta applied to its base yields a valid table with the frames,
    the gitlinks and, up to their order, the files of the original. *)
Theorem delta_roundtrip base map_ table d :
  chunk_indexes_fit (frames table) -> (nlen (frames table) <= u32_max)%N ->
  geometry_ok base -> geometry_ok table -> between base map_ table = Ok d ->
  exists t, apply_delta d base = Ok t /\ geometry_ok t /\
    frames t = frames table /\ gitlinks t = gitlinks table /\ files t ≡ₚ files table.
Proof.
  intros Hfit Hlen Hb Ht H. unfold between in H. inv_ok H. breflect.
  pose proof (proj1 (proj1 (NoDup_app _ _) (geo_paths _ Hb))) as Hnb.
  pose proof (proj1 (proj1 (NoDup_app _ _) (geo_paths _ Ht))) as Hnt.
  pose proof (applied_files base table map_ Hnb Hnt) as Hperm.
  unfold apply_delta. cbn [base_frames]. rewrite (proj2 (N.eqb_eq _ _)) by done.
  rewrite (apply_fold base table map_ Hnb Hnt Hlen (geo_files _ Ht)) by by apply Forall_forall.
  cbn [rbind app]. rewrite N.add_0_l, gone_count, N.eqb_refl by done.
  match goal with |- context [validate_geometry ?t] => set (t' := t) end.
  assert (Hgeo : geometry_ok t').
  { destruct Ht as [Hf Hg Hnd Htile]. constructor; try done.
    - cbn. by rewrite Hperm.
    - cbn. rewrite Hperm. done. }
  exists t'. rewrite (proj2 (validate_geometry_ok t' Hfit) Hgeo). cbn. done.
Qed.

(** ** The theorems at an example *)
Module ManifestExample.
Definition blob : string := "01234567890123456789".
Definition file (path : string) (frame offset len : N) : FileEntry :=
  {| fe_path := path; fe_mode := 33188; blob_sha1 := blob;
     fragments := [{| frame_index := frame; frame_offset := offset; fg_raw_len := len |}] |}.
Definition frame (chunk offset len raw : N) : FrameInfo :=
  {| chunk_index := chunk; chunk_offset := offset; compressed_len := len; fi_raw_len := raw |}.
(** Two bundles; the table keeps the base's second bundle as its first, changes
    one file, drops one and adds one. *)
Definition base : MetadataChunk :=
  {| frames := [frame 0 0 10 100; frame 0 10 5 50; frame 1 0 7 70];
     files := [file "a" 0 0 100; file "b" 1 0 50; file "src/c" 2 10 60]; gitlinks := ["vendor/x"] |}.
Definition table : MetadataChunk :=
  {| frames := [frame 0 0 7 70; frame 1 0 9 90];
     files := [file "a" 1 0 80; file "d" 1 80 10; file "src/c" 0 10 60]; gitlinks := ["vendor/x"] |}.
Definition base_bundles : list string := ["b0"; "b1"].
Definition table_bundles : list string := ["b1"; "b2"].
Definition the_map : list N := [0; 0; 1]%N.
Definition delta : MetadataDelta :=
  {| md_frames := frames table; md_files := [file "a" 1 0 80; file "d" 1 80 10]; removed := ["b"];
     md_gitlinks := gitlinks table; base_frames := the_map |}.

Lemma base_fits : chunk_indexes_fit (frames base).
Proof. by repeat (constructor; [done|]). Qed.
Lemma table_fits : chunk_indexes_fit (frames table).
Proof. by repeat (constructor; [done|]). Qed.
Lemma base_valid : validate_geometry base = Ok tt.
Proof. vm_compute. reflexivity. Qed.
Lemma table_valid : validate_geometry table = Ok tt.
Proof. vm_compute. reflexivity. Qed.
Lemma the_map_maps : frame_map (frames base) base_bundles (frames table) table_bundles = Ok the_map.
Proof. vm_compute. reflexivity. Qed.
Lemma delta_between : between base the_map table = Ok delta.
Proof. vm_compute. reflexivity. Qed.
End ManifestExample.
Import ManifestExample.

Lemma validate_geometry_sound_complete_witness : geometry_ok base.
Proof. exact (proj1 (validate_geometry_sound_complete base base_fits) base_valid). Defined.

Lemma archive_chunk_lengths_spec_witness :
  exists lengths, archive_chunk_lengths base = Ok lengths /\ nget lengths 1 = Some 7%N.
Proof.
  destruct (archive_chunk_lengths_spec base base_fits base_valid) as (lengths & H & Hget & _).
  exists lengths. split; [exact H|]. rewrite Hget. vm_compute. reflexivity.
Defined.

Lemma frame_maps_compose_witness :
  exists m3, compose_frame_maps the_map [1; 0]%N = Ok m3 /\ nlen m3 = 3%N.
Proof.
  destruct (frame_maps_compose (frames base) base_bundles (frames table) table_bundles
    [frame 0 0 7 70] ["b1"] the_map [1; 0]%N the_map_maps) as (_ & m3 & H1 & H2 & _);
    [vm_compute; reflexivity|]. exists m3. exact (conj H1 H2).
Defined.

Lemma delta_roundtrip_witness :
  exists t, apply_delta delta base = Ok t /\ files t ≡ₚ files table.
Proof.
  destruct (delta_roundtrip base the_map table delta table_fits) as (t & H1 & _ & _ & _ & H2).
  - vm_compute. discriminate.
  - apply (validate_geometry_ok base base_fits), base_valid.
  - apply (validate_geometry_ok table table_fits), table_valid.
  - exact delta_between.
  - exact (ex_intro _ t (conj H1 H2)).
Defined.

(** The check tells paths apart by their bytes, so it takes two spellings of one
    path, which name one file of the worktree. *)
Definition aliased : MetadataChunk :=
  {| frames := []; files := [
       {| fe_path := "a/b"; fe_mode := 33188; blob_sha1 := blob; fragments := [] |};
       {| fe_path := "a//b"; fe_mode := 33188; blob_sha1 := blob; fragments := [] |}]; gitlinks := [] |}.
Lemma geometry_takes_aliases :
  validate_geometry aliased = Ok tt /\ components "a/b" = components "a//b".
Proof. split; vm_compute; reflexivity. Qed.
