(* ===== verification/Wire.v ===== *)
(** The answers of the [/v1/repos] routes, as the server writes them and a client
    reads them ([rust/src/server/api.rs], [rust/src/branches.rs],
    [rust/src/client.rs]): [RefResponse] and its parts, a build's summary, and one
    body per state of an output.

    What [serde] derives from the types and their attributes is written out:
    [to_json] for the server's [Serialize], [of_json] for the client's
    [Deserialize]. A JSON object is a list of fields, read by name. A struct given
    as an array, which [serde] also reads, is refused. [serde_json]'s text is its
    value; it refuses text nested deeper than 128. *)

From S2P Require Import Prelude Provider Validation Outputs.

(** ** A request's method *)
Inductive Method := MGet | MPost | MDelete.

(** ** Headers

    A header's value is bytes; [HeaderValue::to_str] is their text when all of them
    are visible ASCII, space or tab. *)
Definition header_text (c : ascii) : bool := byte_in 32 126 c || byte_in 9 9 c.
Definition to_str (value : string) : option string := if str_all header_text value then Some value else None.

(** ** JSON values *)
Inductive Json :=
  | JNull
  | JBool (b : bool)
  | JNum (n : Z)
  | JStr (s : string)
  | JArr (l : list Json)
  | JObj (fields : list (string * Json)).

Fixpoint field (k : string) (l : list (string * Json)) : option Json :=
  match l with [] => None | (k', v) :: l => if String.eqb k' k then Some v else field k l end.
(** [value[k] = v]. *)
Fixpoint set_field (k : string) (v : Json) (l : list (string * Json)) : list (string * Json) :=
  match l with
  | [] => [(k, v)]
  | (k', v') :: l => if String.eqb k' k then (k, v) :: l else (k', v') :: set_field k v l
  end.
Definition index_set (k : string) (v : Json) (j : Json) : Json :=
  match j with JObj l => JObj (set_field k v l) | _ => j end.
(** The fields that are not skipped. *)
Definition fields_of (l : list (string * option Json)) : list (string * Json) :=
  omap (fun '(k, v) => v ← v; Some (k, v)) l.

(** *** Writing *)
Definition json_opt {A} (f : A -> Json) (o : option A) : Json := match o with Some x => f x | None => JNull end.
Definition json_list {A} (f : A -> Json) (l : list A) : Json := JArr (map f l).
Definition json_n (n : N) : Json := JNum (Z.of_N n).
(** [skip_serializing_if = "Option::is_none"], [String::is_empty] and
    [BTreeMap::is_empty]. *)
Definition skip_none {A} (f : A -> Json) (o : option A) : option Json := f <$> o.
Definition skip_empty (s : string) : option Json := if bool_decide (s = "") then None else Some (JStr s).
Definition json_map (m : gmap string string) : Json := JObj (map (fun '(k, v) => (k, JStr v)) (map_to_list m)).
Definition skip_empty_map (m : gmap string string) : option Json := if bool_decide (m = ∅) then None else Some (json_map m).

(** *** Reading *)
Definition Fields : Type := string -> option Json.
Definition as_string (j : Json) : Result string := match j with JStr s => Ok s | _ => Err "invalid type: expected a string" end.
Definition as_u64 (j : Json) : Result N :=
  match j with
  | JNum n => if (0 <=? n)%Z && (n <=? Z.of_N u64_max)%Z then Ok (Z.to_N n) else Err "invalid value: expected u64"
  | _ => Err "invalid type: expected u64"
  end.
Definition as_list {A} (f : Json -> Result A) (j : Json) : Result (list A) :=
  match j with JArr l => collect f l | _ => Err "invalid type: expected a sequence" end.
Definition as_option {A} (f : Json -> Result A) (j : Json) : Result (option A) :=
  match j with JNull => Ok None | _ => let? x := f j in Ok (Some x) end.
Definition as_object (j : Json) : Result Fields :=
  match j with JObj l => Ok (fun k => field k l) | _ => Err "invalid type: expected a map" end.
Definition as_map (j : Json) : Result (gmap string string) :=
  match j with
  | JObj l => let? l := collect (fun '(k, v) => let? s := as_string v in Ok (k, s)) l in Ok (list_to_map (reverse l))
  | _ => Err "invalid type: expected a map"
  end.
(** A field there must be, one with [serde(default)], and one of type [Option],
    which may be missing. *)
Definition req {A} (f : Json -> Result A) (g : Fields) (k : string) : Result A :=
  let? j := context (g k) ("missing field `" +:+ k +:+ "`") in f j.
Definition dflt {A} (f : Json -> Result A) (d : A) (g : Fields) (k : string) : Result A :=
  match g k with Some j => f j | None => Ok d end.
Definition opt {A} (f : Json -> Result A) (g : Fields) (k : string) : Result (option A) :=
  dflt (as_option f) None g k.

(** ** Kinds and packs *)
Definition kind_json (k : ExactResultKind) : Json :=
  JStr match k with Head => "head" | Full => "full" | Files => "files" end.
Definition as_kind (j : Json) : Result ExactResultKind :=
  let? s := as_string j in
  if bool_decide (s = "head") then Ok Head else if bool_decide (s = "full") then Ok Full
  else if bool_decide (s = "files") then Ok Files else Err "unknown variant".

Record SidePackRef := {
  sr_pack : string; sr_pack_len : N; sr_pack_url : option string;
  sr_idx : string; sr_idx_len : N; sr_idx_url : option string }.
Record BranchesRef := { bf_artifact : string; bf_artifact_url : option string; bf_side_packs : list SidePackRef }.
Record OwnHistoryRef := { ow_packs : list SidePackRef; ow_head_packs : list N }.

Definition SidePackRef_json (r : SidePackRef) : Json :=
  JObj [("pack", JStr (sr_pack r)); ("pack_len", json_n (sr_pack_len r)); ("pack_url", json_opt JStr (sr_pack_url r));
        ("idx", JStr (sr_idx r)); ("idx_len", json_n (sr_idx_len r)); ("idx_url", json_opt JStr (sr_idx_url r))].
Definition as_SidePackRef (j : Json) : Result SidePackRef :=
  let? g := as_object j in
  let? pack := req as_string g "pack" in
  let? pack_len := req as_u64 g "pack_len" in
  let? pack_url := opt as_string g "pack_url" in
  let? idx := req as_string g "idx" in
  let? idx_len := req as_u64 g "idx_len" in
  let? idx_url := opt as_string g "idx_url" in
  Ok {| sr_pack := pack; sr_pack_len := pack_len; sr_pack_url := pack_url; sr_idx := idx; sr_idx_len := idx_len; sr_idx_url := idx_url |}.
Definition BranchesRef_json (b : BranchesRef) : Json :=
  JObj [("artifact", JStr (bf_artifact b)); ("artifact_url", json_opt JStr (bf_artifact_url b));
        ("side_packs", json_list SidePackRef_json (bf_side_packs b))].
Definition as_BranchesRef (j : Json) : Result BranchesRef :=
  let? g := as_object j in
  let? artifact := req as_string g "artifact" in
  let? artifact_url := opt as_string g "artifact_url" in
  let? side_packs := req (as_list as_SidePackRef) g "side_packs" in
  Ok {| bf_artifact := artifact; bf_artifact_url := artifact_url; bf_side_packs := side_packs |}.
Definition OwnHistoryRef_json (o : OwnHistoryRef) : Json :=
  JObj [("packs", json_list SidePackRef_json (ow_packs o)); ("head_packs", json_list json_n (ow_head_packs o))].
Definition as_OwnHistoryRef (j : Json) : Result OwnHistoryRef :=
  let? g := as_object j in
  let? packs := req (as_list as_SidePackRef) g "packs" in
  let? head_packs := req (as_list as_u64) g "head_packs" in
  Ok {| ow_packs := packs; ow_head_packs := head_packs |}.

(** ** [RefResponse]

    The client's [result] is the server's [kind]. *)
Inductive RefResponse := mkRefResponse {
  rf_owner : string;
  rf_repo : string;
  rf_provider : string;
  rf_host : string;
  rf_origin_url : string;
  rf_commit : string;
  rf_parent_commit : option string;
  rf_clonepack_manifest : string;
  rf_clonepack_manifest_url : option string;
  rf_metadata_chunk : string;
  rf_metadata_chunk_url : option string;
  rf_metadata_delta : string;
  rf_metadata_delta_url : option string;
  rf_archive_chunk_urls : option (list (option string));
  rf_pack_chunk_urls : option (list (option string));
  rf_pack_idx_urls : option (list (option string));
  rf_midx_url : option string;
  rf_idx_bundle_url : option string;
  rf_tags_artifact : option string;
  rf_tags_artifact_url : option string;
  rf_branches : option BranchesRef;
  rf_refs_base : option RefResponse;
  rf_own_history : option OwnHistoryRef;
  rf_kind : ExactResultKind;
  rf_inline : gmap string string;
}.

Definition urls_json (l : list (option string)) : Json := json_list (json_opt JStr) l.
Fixpoint RefResponse_fields (r : RefResponse) : list (string * option Json) :=
  [("owner", Some (JStr (rf_owner r)));
   ("repo", Some (JStr (rf_repo r)));
   ("provider", Some (JStr (rf_provider r)));
   ("host", Some (JStr (rf_host r)));
   ("origin_url", Some (JStr (rf_origin_url r)));
   ("commit", Some (JStr (rf_commit r)));
   ("parent_commit", Some (json_opt JStr (rf_parent_commit r)));
   ("clonepack_manifest", Some (JStr (rf_clonepack_manifest r)));
   ("clonepack_manifest_url", skip_none JStr (rf_clonepack_manifest_url r));
   ("metadata_chunk", Some (JStr (rf_metadata_chunk r)));
   ("metadata_chunk_url", skip_none JStr (rf_metadata_chunk_url r));
   ("metadata_delta", skip_empty (rf_metadata_delta r));
   ("metadata_delta_url", skip_none JStr (rf_metadata_delta_url r));
   ("archive_chunk_urls", skip_none urls_json (rf_archive_chunk_urls r));
   ("pack_chunk_urls", skip_none urls_json (rf_pack_chunk_urls r));
   ("pack_idx_urls", skip_none urls_json (rf_pack_idx_urls r));
   ("midx_url", skip_none JStr (rf_midx_url r));
   ("idx_bundle_url", skip_none JStr (rf_idx_bundle_url r));
   ("tags_artifact", skip_none JStr (rf_tags_artifact r));
   ("tags_artifact_url", skip_none JStr (rf_tags_artifact_url r));
   ("branches", skip_none BranchesRef_json (rf_branches r));
   ("refs_base", match rf_refs_base r with Some base => Some (JObj (fields_of (RefResponse_fields base))) | None => None end);
   ("own_history", skip_none OwnHistoryRef_json (rf_own_history r));
   ("kind", Some (kind_json (rf_kind r)));
   ("inline", skip_empty_map (rf_inline r))].
Definition RefResponse_json (r : RefResponse) : Json := JObj (fields_of (RefResponse_fields r)).
(** [ReadyBody], which [state] and the response's fields are flattened into. *)
Definition ReadyBody_json (r : RefResponse) : Json := JObj (fields_of (("state", Some (JStr "ready")) :: RefResponse_fields r)).

Definition as_urls : Json -> Result (list (option string)) := as_list (as_option as_string).
Definition RefResponse_of (as_base : Json -> Result RefResponse) (g : Fields) : Result RefResponse :=
  let? owner := req as_string g "owner" in
  let? repo := req as_string g "repo" in
  let? provider := req as_string g "provider" in
  let? host := req as_string g "host" in
  let? origin_url := req as_string g "origin_url" in
  let? commit := req as_string g "commit" in
  let? parent_commit := opt as_string g "parent_commit" in
  let? clonepack_manifest := req as_string g "clonepack_manifest" in
  let? clonepack_manifest_url := opt as_string g "clonepack_manifest_url" in
  let? metadata_chunk := req as_string g "metadata_chunk" in
  let? metadata_chunk_url := opt as_string g "metadata_chunk_url" in
  let? metadata_delta := dflt as_string "" g "metadata_delta" in
  let? metadata_delta_url := opt as_string g "metadata_delta_url" in
  let? archive_chunk_urls := opt as_urls g "archive_chunk_urls" in
  let? pack_chunk_urls := opt as_urls g "pack_chunk_urls" in
  let? pack_idx_urls := opt as_urls g "pack_idx_urls" in
  let? midx_url := opt as_string g "midx_url" in
  let? idx_bundle_url := opt as_string g "idx_bundle_url" in
  let? tags_artifact := opt as_string g "tags_artifact" in
  let? tags_artifact_url := opt as_string g "tags_artifact_url" in
  let? branches := opt as_BranchesRef g "branches" in
  let? refs_base := opt as_base g "refs_base" in
  let? own_history := opt as_OwnHistoryRef g "own_history" in
  let? kind := req as_kind g "kind" in
  let? inline := dflt as_map ∅ g "inline" in
  Ok {| rf_owner := owner; rf_repo := repo; rf_provider := provider; rf_host := host; rf_origin_url := origin_url;
        rf_commit := commit; rf_parent_commit := parent_commit; rf_clonepack_manifest := clonepack_manifest;
        rf_clonepack_manifest_url := clonepack_manifest_url; rf_metadata_chunk := metadata_chunk;
        rf_metadata_chunk_url := metadata_chunk_url; rf_metadata_delta := metadata_delta;
        rf_metadata_delta_url := metadata_delta_url; rf_archive_chunk_urls := archive_chunk_urls;
        rf_pack_chunk_urls := pack_chunk_urls; rf_pack_idx_urls := pack_idx_urls; rf_midx_url := midx_url;
        rf_idx_bundle_url := idx_bundle_url; rf_tags_artifact := tags_artifact; rf_tags_artifact_url := tags_artifact_url;
        rf_branches := branches; rf_refs_base := refs_base; rf_own_history := own_history; rf_kind := kind;
        rf_inline := inline |}.
Fixpoint as_RefResponse (depth : nat) (j : Json) : Result RefResponse :=
  match depth with
  | O => Err "recursion limit exceeded"
  | S depth => let? g := as_object j in RefResponse_of (as_RefResponse depth) g
  end.
Definition RECURSION_LIMIT : nat := 128.

(** ** Summaries and outputs, as the client reads them *)
Record OutputState := { os_state : string; os_error : option string }.
Record BuildSummary := {
  bs_commit : string; bs_checkout_name : option string; bs_tag : option string;
  bs_head : OutputState; bs_files : OutputState; bs_full : OutputState }.
Record TopUpPlan := { tu_base_commit : string; tu_base : RefResponse }.
Inductive CommitOutput :=
  | CReady (output : RefResponse)
  | CPending (commit : string) (top_up : option TopUpPlan)
  | CFailed (commit error : string).

Definition as_OutputState (j : Json) : Result OutputState :=
  let? g := as_object j in
  let? state := req as_string g "state" in
  let? error := opt as_string g "error" in
  Ok {| os_state := state; os_error := error |}.
Definition as_BuildSummary (j : Json) : Result BuildSummary :=
  let? g := as_object j in
  let? commit := req as_string g "commit" in
  let? checkout_name := opt as_string g "checkout_name" in
  let? tag := opt as_string g "tag" in
  let? head := req as_OutputState g "head" in
  let? files := req as_OutputState g "files" in
  let? full := req as_OutputState g "full" in
  Ok {| bs_commit := commit; bs_checkout_name := checkout_name; bs_tag := tag; bs_head := head; bs_files := files; bs_full := full |}.
Definition as_TopUpPlan (j : Json) : Result TopUpPlan :=
  let? g := as_object j in
  let? base_commit := req as_string g "base_commit" in
  let? base := req (as_RefResponse RECURSION_LIMIT) g "base" in
  Ok {| tu_base_commit := base_commit; tu_base := base |}.
Definition as_CommitOutput (j : Json) : Result CommitOutput :=
  let? g := as_object j in
  let? state := req as_string g "state" in
  if bool_decide (state = "ready") then let? r := as_RefResponse RECURSION_LIMIT j in Ok (CReady r)
  else if bool_decide (state = "pending") then
    let? commit := req as_string g "commit" in
    let? top_up := opt as_TopUpPlan g "top_up" in
    Ok (CPending commit top_up)
  else if bool_decide (state = "failed") then
    let? commit := req as_string g "commit" in
    let? error := req as_string g "error" in
    Ok (CFailed commit error)
  else Err "unknown variant".
(** [Answer]: the summary, with the output asked for. *)
Definition as_Answer (j : Json) : Result (BuildSummary * option CommitOutput) :=
  let? g := as_object j in
  let? summary := as_BuildSummary j in
  let? output := opt as_CommitOutput g "output" in
  Ok (summary, output).

(** ** Lemmas *)
#[local] Arguments as_u64 : simpl never.
#[local] Arguments json_n : simpl never.
#[local] Arguments as_option : simpl never.
#[local] Arguments json_opt : simpl never.
#[local] Arguments as_list : simpl never.
#[local] Arguments json_list : simpl never.
#[local] Arguments as_map : simpl never.
#[local] Arguments json_map : simpl never.
#[local] Arguments as_urls : simpl never.
#[local] Arguments urls_json : simpl never.
#[local] Arguments as_kind : simpl never.
#[local] Arguments kind_json : simpl never.
#[local] Arguments skip_none : simpl never.
#[local] Arguments skip_empty : simpl never.
#[local] Arguments skip_empty_map : simpl never.
Fixpoint pick (k : string) (l : list (string * option Json)) : option Json :=
  match l with [] => None | (k', v) :: l => if String.eqb k' k then v else pick k l end.
Lemma field_of k l : NoDup (map fst l) -> field k (fields_of l) = pick k l.
Proof.
  assert (Hn : forall q, k ∉ map fst q -> field k (fields_of q) = None).
  { induction q as [|[k' v] l' IH]; [done|]. cbn. intros [Hne Hl]%not_elem_of_cons. destruct v as [v|]; [|by apply IH].
    cbn. destruct (String.eqb_spec k' k) as [E|]; [by destruct Hne|by apply IH]. }
  induction l as [|[k' v] l IH]; [done|]. cbn. intros [Hnin Hnd]%NoDup_cons.
  destruct (String.eqb_spec k' k) as [->|Hne].
  - destruct v as [v|]; cbn; [by rewrite String.eqb_refl|by apply Hn].
  - destruct v as [v|]; cbn; [|by apply IH]. destruct (String.eqb_spec k' k); [done|by apply IH].
Qed.

Lemma collect_map {A B} (f : A -> B) (g : B -> Result A) l : (forall x, x ∈ l -> g (f x) = Ok x) -> collect g (map f l) = Ok l.
Proof.
  induction l as [|x l IH]; intros H; [done|]. cbn. rewrite H by (apply elem_of_cons; by left). cbn [rbind].
  rewrite IH; [done|]. intros y Hy. apply H. apply elem_of_cons. by right.
Qed.
Lemma as_list_json {A} (f : A -> Json) g l : (forall x, x ∈ l -> g (f x) = Ok x) -> as_list g (json_list f l) = Ok l.
Proof. apply collect_map. Qed.
Lemma as_u64_json n : (n <= u64_max)%N -> as_u64 (json_n n) = Ok n.
Proof.
  intros H. unfold as_u64, json_n. assert (H' : ((0 <=? Z.of_N n) && (Z.of_N n <=? Z.of_N u64_max))%Z = true).
  { apply andb_true_iff. split; apply Z.leb_le; lia. }
  rewrite H'. f_equal. lia.
Qed.
Lemma as_option_json {A} (f : A -> Json) g o : (forall x, o = Some x -> g (f x) = Ok x /\ f x <> JNull) ->
  as_option g (json_opt f o) = Ok o.
Proof. destruct o as [x|]; [|done]. intros H. destruct (H x eq_refl) as [Hg Hn]. unfold as_option, json_opt. rewrite Hg. by destruct (f x). Qed.
Lemma as_option_string o : as_option as_string (json_opt JStr o) = Ok o.
Proof. by apply as_option_json. Qed.
Lemma as_kind_json k : as_kind (kind_json k) = Ok k.
Proof. by destruct k. Qed.
Lemma as_urls_json l : as_urls (urls_json l) = Ok l.
Proof. apply as_list_json. intros. apply as_option_string. Qed.
Lemma as_map_json m : as_map (json_map m) = Ok m.
Proof.
  unfold as_map, json_map. assert (H : forall l : list (string * string), collect (fun '(k, v) => let? s := as_string v in Ok (k, s))
    (map (fun '(k, v) => (k, JStr v)) l) = Ok l) by (induction l as [|[k v] l IH]; cbn; [done|by rewrite IH]).
  rewrite H. cbn [rbind]. f_equal. rewrite <- (list_to_map_to_list m) at 2. symmetry. apply list_to_map_proper.
  - apply NoDup_fst_map_to_list.
  - symmetry. apply reverse_Permutation.
Qed.

(** *** What is written is read back *)
Definition side_wf (r : SidePackRef) : Prop := (sr_pack_len r <= u64_max)%N /\ (sr_idx_len r <= u64_max)%N.
Definition parts_wf (r : RefResponse) : Prop :=
  (forall b s, rf_branches r = Some b -> s ∈ bf_side_packs b -> side_wf s) /\
  (forall o, rf_own_history r = Some o -> (forall s, s ∈ ow_packs o -> side_wf s) /\ (forall i, i ∈ ow_head_packs o -> (i <= u64_max)%N)).
Fixpoint ref_wf (depth : nat) (r : RefResponse) : Prop :=
  parts_wf r /\
  match rf_refs_base r, depth with
  | None, _ => True
  | Some _, O => False
  | Some base, S depth => ref_wf depth base
  end.

Lemma as_SidePackRef_json r : side_wf r -> as_SidePackRef (SidePackRef_json r) = Ok r.
Proof.
  intros [H1 H2]. destruct r as [p pl pu i il iu]. cbn in H1, H2. unfold as_SidePackRef, SidePackRef_json. cbn.
  by rewrite !as_u64_json, !as_option_string by done.
Qed.
Lemma as_BranchesRef_json b : (forall s, s ∈ bf_side_packs b -> side_wf s) -> as_BranchesRef (BranchesRef_json b) = Ok b.
Proof.
  intros H. destruct b as [a au l]. unfold as_BranchesRef, BranchesRef_json. cbn.
  rewrite as_option_string. cbn. rewrite as_list_json; [done|]. intros s Hs. by apply as_SidePackRef_json, H.
Qed.
Lemma as_OwnHistoryRef_json o : (forall s, s ∈ ow_packs o -> side_wf s) -> (forall i, i ∈ ow_head_packs o -> (i <= u64_max)%N) ->
  as_OwnHistoryRef (OwnHistoryRef_json o) = Ok o.
Proof.
  intros H H'. destruct o as [l ids]. unfold as_OwnHistoryRef, OwnHistoryRef_json. cbn.
  rewrite as_list_json; [|intros s Hs; by apply as_SidePackRef_json, H]. cbn. rewrite as_list_json; [done|].
  intros i Hi. by apply as_u64_json, H'.
Qed.

Lemma req_eq {A} (f : Json -> Result A) (g : Fields) k j : g k = Some j -> req f g k = f j.
Proof. unfold req. by intros ->. Qed.
Lemma opt_skip {A} (f : A -> Json) (h : Json -> Result A) (g : Fields) k o :
  g k = skip_none f o -> (forall x, o = Some x -> h (f x) = Ok x /\ f x <> JNull) -> opt h g k = Ok o.
Proof.
  unfold opt, dflt, skip_none. intros -> H. destruct o as [x|]; [|done]. cbn.
  pose proof (as_option_json f h (Some x) H) as E. exact E.
Qed.
Lemma opt_string_skip (g : Fields) k o : g k = skip_none JStr o -> opt as_string g k = Ok o.
Proof. intros H. by apply (opt_skip JStr). Qed.
Lemma opt_urls_skip (g : Fields) k o : g k = skip_none urls_json o -> opt as_urls g k = Ok o.
Proof. intros H. apply (opt_skip urls_json); [done|]. intros x _. split; [apply as_urls_json|done]. Qed.
Lemma dflt_empty (g : Fields) k s : g k = skip_empty s -> dflt as_string "" g k = Ok s.
Proof. unfold dflt, skip_empty. intros ->. by case_bool_decide; subst. Qed.
Lemma dflt_map (g : Fields) k m : g k = skip_empty_map m -> dflt as_map ∅ g k = Ok m.
Proof. unfold dflt, skip_empty_map. intros ->. case_bool_decide; [by subst|apply as_map_json]. Qed.
Lemma opt_present (g : Fields) k o : g k = Some (json_opt JStr o) -> opt as_string g k = Ok o.
Proof. unfold opt, dflt. intros ->. apply as_option_string. Qed.

(** Reading the fields [r] is written as. *)
Lemma RefResponse_of_fields as_base g r :
  (forall k, k <> "state" -> g k = pick k (RefResponse_fields r)) ->
  (forall b s, rf_branches r = Some b -> s ∈ bf_side_packs b -> side_wf s) ->
  (forall o, rf_own_history r = Some o -> (forall s, s ∈ ow_packs o -> side_wf s) /\ (forall i, i ∈ ow_head_packs o -> (i <= u64_max)%N)) ->
  (forall base, rf_refs_base r = Some base -> as_base (RefResponse_json base) = Ok base) ->
  RefResponse_of as_base g = Ok r.
Proof.
  intros Hg Hb Ho Hbase. destruct r. unfold RefResponse_of.
  repeat first
    [ erewrite (req_eq as_string g) by (rewrite Hg by done; reflexivity); cbn [rbind as_string]
    | erewrite (opt_string_skip g) by (rewrite Hg by done; reflexivity); cbn [rbind]
    | erewrite (opt_urls_skip g) by (rewrite Hg by done; reflexivity); cbn [rbind]
    | erewrite (opt_present g) by (rewrite Hg by done; reflexivity); cbn [rbind]
    | erewrite (dflt_empty g) by (rewrite Hg by done; reflexivity); cbn [rbind]
    | erewrite (dflt_map g) by (rewrite Hg by done; reflexivity); cbn [rbind] ].
  rewrite (opt_skip BranchesRef_json as_BranchesRef g "branches" rf_branches0).
  2:{ rewrite Hg by done. reflexivity. }
  2:{ intros b ->. split; [|done]. apply as_BranchesRef_json. intros s. by apply (Hb b). }
  cbn [rbind]. rewrite (opt_skip RefResponse_json as_base g "refs_base" rf_refs_base0).
  2:{ rewrite Hg by done. by destruct rf_refs_base0. }
  2:{ intros base ->. split; [|done]. by apply Hbase. }
  cbn [rbind]. rewrite (opt_skip OwnHistoryRef_json as_OwnHistoryRef g "own_history" rf_own_history0).
  2:{ rewrite Hg by done. reflexivity. }
  2:{ intros o ->. split; [|done]. destruct (Ho o eq_refl). by apply as_OwnHistoryRef_json. }
  cbn [rbind]. rewrite (req_eq as_kind g "kind" (kind_json rf_kind0)) by (rewrite Hg by done; reflexivity).
  by rewrite as_kind_json.
Qed.

Lemma fields_NoDup r : NoDup (map fst (("state", Some (JStr "ready")) :: RefResponse_fields r)).
Proof. destruct r. apply (bool_decide_unpack _). by vm_compute. Qed.
Lemma as_RefResponse_json depth r : ref_wf depth r -> as_RefResponse (S depth) (RefResponse_json r) = Ok r.
Proof.
  revert r. induction depth as [|depth IH]; intros r ((Hb & Ho) & Hbase); cbn [as_RefResponse]; unfold RefResponse_json; cbn [as_object rbind];
    (apply RefResponse_of_fields; [|done|done|]).
  1, 3: intros k _; apply field_of; pose proof (fields_NoDup r) as H; by apply NoDup_cons in H as [_ H].
  - intros base E. by rewrite E in Hbase.
  - intros base E. rewrite E in Hbase. by apply IH.
Qed.
Lemma as_RefResponse_ready depth r : ref_wf depth r -> as_RefResponse (S depth) (ReadyBody_json r) = Ok r.
Proof.
  intros H. assert (Hw : parts_wf r) by (destruct depth; apply H). cbn [as_RefResponse]. unfold ReadyBody_json. cbn [as_object rbind].
  apply RefResponse_of_fields; [|apply Hw..|].
  - intros k Hk. rewrite field_of by apply fields_NoDup. cbn [pick]. destruct (String.eqb_spec "state" k); [congruence|done].
  - intros base E. destruct depth; destruct H as [_ H]; rewrite E in H; [done|]. by apply as_RefResponse_json.
Qed.
Lemma ref_wf_mono depth depth' r : ref_wf depth r -> depth <= depth' -> ref_wf depth' r.
Proof.
  revert depth r. induction depth' as [|depth' IH]; intros [|depth] r [Hp Hb] Hle; try lia; (split; [done|]);
    destruct (rf_refs_base r); try done. apply (IH depth); [done|lia].
Qed.
Lemma read_ready r : ref_wf 1 r -> as_CommitOutput (ReadyBody_json r) = Ok (CReady r).
Proof.
  intros H. unfold as_CommitOutput. cbn [as_object ReadyBody_json rbind].
  rewrite (req_eq as_string _ "state" (JStr "ready")) by reflexivity. cbn [as_string rbind].
  rewrite bool_decide_eq_true_2 by done. unfold RECURSION_LIMIT. rewrite (as_RefResponse_ready 127); [done|].
  apply (ref_wf_mono 1); [done|lia].
Qed.
