(* ===== verification/Artifacts.v ===== *)
(** [GET /v1/artifacts/{hash}] ([rust/src/server/artifacts.rs]): a redirect to a
    signed URL, or the artifact's bytes, whole or in part.

    What the route needs of storage is the class [StorageBackend]; [LocalStorage]
    ([rust/src/storage/mod.rs]) is its instance over the content-addressed store.
    How many bytes a read of a file gives is the operating system's. Metrics are
    left out. *)

From S2P Require Import Prelude Bytes Validation Outputs Cas Wire.

(** ** Storage *)
Class StorageBackend := {
  sb_signed_url : string -> option string;
  sb_size : string -> Result N;
  sb_open_file : string -> Result (option bytes);  (* the file's bytes *)
  sb_get_range : string -> N -> N -> Result bytes;
}.
(** What the route may rely on: the bytes it serves are one artifact's. *)
Class StorageHolds (St : StorageBackend) (hash : string) (data : bytes) : Prop := {
  holds_size : sb_size hash = Ok (nlen data);
  holds_file : sb_open_file hash = Ok (Some data) \/
    sb_open_file hash = Ok None /\
    (forall start len, (start + len <= nlen data)%N -> sb_get_range hash start len = Ok (slice data start (start + len)));
}.

(** [LocalStorage]: [cas.path] of an id that is not one is no object's path. *)
Definition local_file (hash : string) (d : Disk) : option bytes :=
  if is_ok (object_path hash) then f_bytes <$> at_path d hash else None.
Definition LocalStorage (d : Disk) : StorageBackend := {|
  sb_signed_url _ := None;
  sb_size hash := context (nlen <$> local_file hash d) "stat CAS object";
  sb_open_file hash := let? file := context (local_file hash d) "open CAS object" in Ok (Some file);
  sb_get_range hash start len := Cas_get_range hash start len d;
|}.

(** ** Ranges *)
Definition parse_byte_range (range : string) (size : N) : option (N * N) :=
  range ← strip_prefix "bytes=" range;
  '(start_str, end_str) ← split_once "-" range;
  start ← parse_u64 start_str;
  if (size <=? start)%N then None
  else
    end_ ← (if bool_decide (end_str = "") then Some (size - 1)%N else n ← parse_u64 end_str; Some (N.min n (size - 1)));
    if (end_ <? start)%N then None else Some (start, end_).

(** ** Streaming *)
Definition ARTIFACT_STREAM_CHUNK_BYTES : N := 64 * 1024.
Inductive ArtifactBodySource :=
  | SourceFile (rest : bytes)  (* from the file's cursor *)
  | SourceRanges (hash : string) (offset : N).
(** A body: the chunks sent and the error that ended it. *)
Record Stream := { st_chunks : list bytes; st_error : option string }.
Definition chunk_then (c : bytes) (s : Stream) : Stream := {| st_chunks := c :: st_chunks s; st_error := st_error s |}.
Definition end_with (e : option string) : Stream := {| st_chunks := []; st_error := e |}.

Inductive Served :=
  | Redirect (location : string)
  | Refuse (status : N) (error : string)
  | Body (status : N) (content_range : option string) (content_length : N) (body : Stream).

Section serve.
Context {St : StorageBackend}.
(** How many of the [wanted] bytes a read gives after [sent] bytes. *)
Context (read_takes : N -> N -> N).

Definition read_source (source : ArtifactBodySource) (sent wanted : N) : Result bytes * ArtifactBodySource :=
  match source with
  | SourceFile rest =>
      let n := N.min wanted (N.max 1 (read_takes sent wanted)) in
      match slice rest 0 (N.min n (nlen rest)) with
      | [] => (Err "artifact file ended before its recorded length", source)
      | read => (Ok read, SourceFile (drop (length read) rest))
      end
  | SourceRanges hash offset =>
      match sb_get_range hash offset wanted with
      | Ok [] => (Err "artifact range ended before its recorded length", source)
      | Ok read => (Ok read, SourceRanges hash (offset + nlen read))
      | Err e => (Err e, source)
      end
  end.
(** The loop of [artifact_body], [fuel] turns at most. *)
Fixpoint artifact_body (fuel : nat) (source : ArtifactBodySource) (sent len : N) : Stream :=
  match fuel with
  | O => end_with None
  | S fuel =>
      if (sent <? len)%N then
        let wanted := N.min (len - sent) ARTIFACT_STREAM_CHUNK_BYTES in
        match read_source source sent wanted with
        | (Ok read, source) => chunk_then read (artifact_body fuel source (sent + nlen read) len)
        | (Err e, _) => end_with (Some e)
        end
      else end_with None
  end.

(** [Range] is the request's header, when it has one. *)
Definition serve_artifact (hash : string) (range : option string) : Served :=
  match sb_signed_url hash with
  | Some url => Redirect url
  | None =>
      match sb_size hash with
      | Err _ => Refuse 404 ("artifact not found: " +:+ hash)
      | Ok total_size =>
          let range := value ← range; text ← to_str value; parse_byte_range text total_size in
          if (total_size =? 0)%N then Body 200 None 0 (end_with None)
          else
            let '(start, end_, status) :=
              match range with Some (start, end_) => (start, end_, 206%N) | None => (0%N, (total_size - 1)%N, 200%N) end in
            let len := (end_ - start + 1)%N in
            match sb_open_file hash with
            | Err _ => Refuse 404 ("artifact not found: " +:+ hash)
            | Ok file =>
                let source := match file with Some file => SourceFile (drop (N.to_nat start) file) | None => SourceRanges hash start end in
                let body := artifact_body (N.to_nat len) source 0 len in
                if (status =? 206)%N
                then Body 206 (Some ("bytes " +:+ pretty start +:+ "-" +:+ pretty end_ +:+ "/" +:+ pretty total_size)) len body
                else Body status None len body
            end
      end
  end.
Definition get_artifact (hash : string) (range : option string) : Served :=
  match validate_artifact_id hash with
  | Err e => Refuse 400 e
  | Ok _ => serve_artifact hash range
  end.
End serve.

(** ** Streaming gives the range *)
Section stream.
Context {St : StorageBackend} (read_takes : N -> N -> N) (hash : string) (data : bytes).
Context {Hh : StorageHolds St hash data}.

(** What is left of a source. *)
Definition source_at (source : ArtifactBodySource) (rest : bytes) : Prop :=
  match source with
  | SourceFile f => f = rest
  | SourceRanges h offset => h = hash /\ sb_open_file hash = Ok None /\ (offset <= nlen data)%N /\ rest = drop (N.to_nat offset) data
  end.
Lemma read_source_spec source rest sent wanted :
  source_at source rest -> (0 < wanted)%N -> (wanted <= nlen rest)%N ->
  exists k source', (0 < k)%N /\ (k <= wanted)%N /\
    read_source read_takes source sent wanted = (Ok (take (N.to_nat k) rest), source') /\ source_at source' (drop (N.to_nat k) rest).
Proof.
  intros Hs Hw Hr. destruct source as [f|h offset]; cbn [read_source].
  - cbn in Hs. subst f. set (k := N.min (N.min wanted (N.max 1 (read_takes sent wanted))) (nlen rest)).
    assert (Hk : (0 < k)%N /\ (k <= wanted)%N /\ (k <= nlen rest)%N) by lia. clearbody k. destruct Hk as (Hk1 & Hk2 & Hk3).
    assert (slice rest 0 k = take (N.to_nat k) rest) as -> by (unfold slice; by rewrite N.sub_0_r).
    assert (length (take (N.to_nat k) rest) = N.to_nat k) as Hl by (rewrite length_take; unfold nlen in *; lia).
    exists k. destruct (take (N.to_nat k) rest) as [|x l] eqn:E; [cbn in Hl; lia|]. rewrite Hl. by eexists.
  - destruct Hs as (-> & Hf & Ho & ->).
    assert (Hg : sb_get_range hash offset wanted = Ok (take (N.to_nat wanted) (drop (N.to_nat offset) data))).
    { destruct holds_file as [H|[_ H]]; [congruence|]. unfold nlen in *. rewrite length_drop in Hr. rewrite H by lia.
      unfold slice. by replace (offset + wanted - offset)%N with wanted by lia. }
    rewrite Hg. assert (nlen (take (N.to_nat wanted) (drop (N.to_nat offset) data)) = wanted) as Hb
      by (unfold nlen in *; rewrite length_take; lia).
    exists wanted. destruct (take _ _) as [|x l]; [unfold nlen in Hb; cbn in Hb; lia|]. rewrite Hb. eexists.
    split_and!; [done|lia|done|]. cbn. split_and!; [done|done| |].
    + unfold nlen in *. rewrite length_drop in Hr. lia.
    + rewrite drop_drop. f_equal. lia.
Qed.
Lemma artifact_body_spec fuel source rest sent len :
  source_at source rest -> (len - sent <= nlen rest)%N -> N.to_nat (len - sent) <= fuel ->
  concat (st_chunks (artifact_body read_takes fuel source sent len)) = take (N.to_nat (len - sent)) rest /\
  st_error (artifact_body read_takes fuel source sent len) = None.
Proof.
  revert source rest sent; induction fuel as [|fuel IH]; intros source rest sent Hs Hr Hf; cbn [artifact_body].
  - replace (N.to_nat (len - sent)) with 0 by lia. done.
  - destruct (N.ltb_spec sent len) as [Hlt|Hge]; [|replace (N.to_nat (len - sent)) with 0 by lia; done].
    set (wanted := N.min (len - sent) ARTIFACT_STREAM_CHUNK_BYTES).
    assert (0 < wanted <= len - sent)%N as [Hw1 Hw2] by (unfold wanted, ARTIFACT_STREAM_CHUNK_BYTES; lia).
    destruct (read_source_spec source rest sent wanted Hs Hw1 ltac:(lia)) as (k & source' & Hk1 & Hk2 & -> & Hs').
    assert (nlen (take (N.to_nat k) rest) = k) as -> by (unfold nlen in *; rewrite length_take; lia).
    destruct (IH source' (drop (N.to_nat k) rest) (sent + k)%N Hs') as [Hc He].
    + unfold nlen in *. rewrite length_drop. lia.
    + lia.
    + cbn [chunk_then st_chunks st_error concat]. rewrite Hc, He. split; [|done].
      replace (N.to_nat (len - sent)) with (N.to_nat k + N.to_nat (len - (sent + k))) by lia. by rewrite take_take_drop.
Qed.
End stream.

(** ** Local storage *)
#[export] Instance LocalStorage_holds hash data d :
  object_path hash = Ok hash -> f_bytes <$> at_path d hash = Some data -> (nlen data <= u64_max)%N -> StorageHolds (LocalStorage d) hash data.
Proof.
  intros Hp Hf Hmax. assert (local_file hash d = Some data) as Hl by (unfold local_file; by rewrite Hp).
  split; cbn; rewrite Hl; cbn; auto.
Qed.
