(* ===== verification/S3Upload.v ===== *)
(** Artifacts in a bucket ([rust/src/storage/put_limit.rs] and
    [rust/src/storage/s3_storage.rs]): the limit on PUTs at once that follows the
    bucket's throttling, the tries of one PUT, a large object's parts, and the
    storage they make.

    [PutLimit]'s permits and its state are a step relation over whatever PUTs run at
    once; [tokio]'s semaphore is a count of free slots, and a waiter it has granted a
    slot to holds it. What the bucket answers is the class [Bucket], and what it makes
    of what it was asked is [BucketOk]. Parts are sent at once in the code; here each
    part's tries are listed together, in the order the parts were done, and the
    requests of parts in flight when another fails are left out. Logs, and
    [block_on]'s hop to another runtime, are left out. *)

From S2P Require Import Prelude Bytes Validation Outputs Artifacts.

(** ** The limit on PUTs at once *)
Record PutLimit := {
  slots : N;  (* the semaphore's free permits *)
  max : N;
  limit : N;
  successes : N;
  round : N;
  debt : N;
}.
Definition PutLimit_new (max : N) : PutLimit :=
  let max := N.max max 1 in {| slots := max; max := max; limit := max; successes := 0; round := 0; debt := 0 |}.
(** [slots.acquire]: a slot is granted. *)
Definition acquire (l : PutLimit) : option PutLimit :=
  if (0 <? slots l)%N
  then Some {| slots := slots l - 1; max := max l; limit := limit l; successes := successes l; round := round l; debt := debt l |}
  else None.
Definition add_permits (n : N) (l : PutLimit) : PutLimit :=
  {| slots := slots l + n; max := max l; limit := limit l; successes := successes l; round := round l; debt := debt l |}.
(** [drop] of a [PutPermit]. *)
Definition PutPermit_drop (l : PutLimit) : PutLimit :=
  if (0 <? debt l)%N
  then {| slots := slots l; max := max l; limit := limit l; successes := successes l; round := round l; debt := debt l - 1 |}
  else add_permits 1 l.
(** [succeeded] and [throttled], up to the drop of the permit. *)
Definition on_success (l : PutLimit) : PutLimit :=
  let successes := (successes l + 1)%N in
  if ((limit l <=? successes) && (limit l <? max l))%N then
    let raised := {| slots := slots l; max := max l; limit := limit l + 1; successes := 0; round := round l; debt := debt l |} in
    if (0 <? debt l)%N
    then {| slots := slots l; max := max l; limit := limit l + 1; successes := 0; round := round l; debt := debt l - 1 |}
    else add_permits 1 raised
  else {| slots := slots l; max := max l; limit := limit l; successes := successes; round := round l; debt := debt l |}.
Definition on_throttle (sent_round : N) (l : PutLimit) : PutLimit :=
  if (sent_round =? round l)%N then
    let limit' := N.max (limit l / 2) 1 in
    let cut := (limit l - limit')%N in
    let forgotten := N.min cut (slots l) in
    {| slots := slots l - forgotten; max := max l; limit := limit'; successes := 0; round := round l + 1;
       debt := debt l + (cut - forgotten) |}
  else l.
Definition succeeded (l : PutLimit) : PutLimit := PutPermit_drop (on_success l).
Definition throttled (sent_round : N) (l : PutLimit) : PutLimit * N :=
  let l := on_throttle sent_round l in (PutPermit_drop l, limit l).

(** PUTs at once: the limit, the slots granted to an [acquire] that has not gone on
    yet, and the rounds of the permits held. *)
Record Puts := { pu_limit : PutLimit; pu_granted : nat; pu_held : list N }.
Inductive put_step : Puts -> Puts -> Prop :=
  | step_grant p l : acquire (pu_limit p) = Some l ->
      put_step p {| pu_limit := l; pu_granted := S (pu_granted p); pu_held := pu_held p |}
  | step_acquired p n : pu_granted p = S n ->
      put_step p {| pu_limit := pu_limit p; pu_granted := n; pu_held := round (pu_limit p) :: pu_held p |}
  | step_cancelled p n : pu_granted p = S n ->  (* the semaphore takes the slot back *)
      put_step p {| pu_limit := add_permits 1 (pu_limit p); pu_granted := n; pu_held := pu_held p |}
  | step_succeeded p a r b : pu_held p = a ++ r :: b ->
      put_step p {| pu_limit := succeeded (pu_limit p); pu_granted := pu_granted p; pu_held := a ++ b |}
  | step_throttled p a r b : pu_held p = a ++ r :: b ->
      put_step p {| pu_limit := (throttled r (pu_limit p)).1; pu_granted := pu_granted p; pu_held := a ++ b |}
  | step_dropped p a r b : pu_held p = a ++ r :: b ->
      put_step p {| pu_limit := PutPermit_drop (pu_limit p); pu_granted := pu_granted p; pu_held := a ++ b |}.
Definition Puts_new (max : N) : Puts := {| pu_limit := PutLimit_new max; pu_granted := 0; pu_held := [] |}.
Definition in_flight (p : Puts) : N := (N.of_nat (pu_granted p) + nlen (pu_held p))%N.

(** ** The tries of a PUT *)
Definition STREAM_PUT_ATTEMPTS : N := 3.
Definition THROTTLED_PUT_ATTEMPTS : N := 8.
(** Milliseconds. *)
Definition STREAM_PUT_RETRY_DELAY : N := 1000.
Definition THROTTLE_DELAY : N := 1000.
Definition THROTTLE_MAX_DELAY : N := 10000.
(** One try: what it gave, the bucket throttling it (and the wait asked for), or failing. *)
Inductive Tried (T : Type) := Sent (value : T) | Slowed (asked : option N) (error : string) | Broken (error : string).
#[global] Arguments Sent {T} value.
#[global] Arguments Slowed {T} asked error.
#[global] Arguments Broken {T} error.
(** Up to half again, by a random number. *)
Definition spread (wait random : N) : N := (wait + wait * (random mod 1000) / 2000)%N.
Section send.
Context {T : Type} (send : nat -> Tried T) (random : nat -> N).
(** [send_put] from its [n]th try, [fuel] tries at most: its result and its waits. *)
Fixpoint send_put (fuel : nat) (n : nat) (failures throttles : N) : option (Result T * list N) :=
  match fuel with
  | O => None
  | S fuel =>
      let again wait failures throttles := '(r, waits) ← send_put fuel (S n) failures throttles; Some (r, wait :: waits) in
      match send n with
      | Sent value => Some (Ok value, [])
      | Slowed asked error =>
          let throttles := (throttles + 1)%N in
          if (THROTTLED_PUT_ATTEMPTS <=? throttles)%N then Some (Err error, [])
          else again (spread (N.min (default (THROTTLE_DELAY * N.shiftl 1 (throttles - 1))%N asked) THROTTLE_MAX_DELAY) (random n)) failures throttles
      | Broken error =>
          let failures := (failures + 1)%N in
          if (STREAM_PUT_ATTEMPTS <=? failures)%N then Some (Err error, [])
          else again (STREAM_PUT_RETRY_DELAY * N.shiftl 1 (failures - 1))%N failures throttles
      end
  end.
End send.
Definition SEND_TRIES : nat := 10.

(** ** A large object's parts *)
Definition MULTIPART_UPLOAD_PART_BYTES : N := 16 * 1024 * 1024.
Definition MULTIPART_UPLOAD_MAX_PART_BYTES : N := 5 * 1024 * 1024 * 1024.
Definition MULTIPART_UPLOAD_MAX_PARTS : N := 10000.
Definition MULTIPART_UPLOAD_MAX_OBJECT_BYTES : N := 5 * 1024 * 1024 * 1024 * 1024.
Definition EXISTS_CHECK_BYTES : N := 1024 * 1024.
Definition multipart_upload_part_bytes (len : N) : Result N :=
  bail_if! (MULTIPART_UPLOAD_MAX_OBJECT_BYTES <? len)%N with "object exceeds the S3 multipart object-size limit";
  let part_bytes := N.max MULTIPART_UPLOAD_PART_BYTES (div_ceil len MULTIPART_UPLOAD_MAX_PARTS) in
  bail_if! (MULTIPART_UPLOAD_MAX_PART_BYTES <? part_bytes)%N with "object exceeds the S3 multipart part-size limit";
  Ok part_bytes.
(** The file's bytes at a part, and its number. *)
Definition part_number (i : N) : N := (i + 1)%N.
Definition part_of (file : bytes) (part_bytes i : N) : bytes :=
  let offset := (i * part_bytes)%N in slice file offset (offset + N.min (nlen file - offset) part_bytes).

(** What the bucket answers: it starts an upload of a key, takes a part's bytes at a
    try and answers its etag, and puts the parts listed together. *)
Class Bucket := {
  bk_create : string -> Result string;
  bk_try_part : string -> N -> bytes -> nat -> Tried (option string);
  bk_complete : string -> string -> list (N * string) -> Result unit;
  bk_random : nat -> N;
}.
(** What the bucket was asked, and answered. *)
Inductive Asked :=
  | AskedCreate (key : string) (answer : Result string)
  | AskedPart (upload_id : string) (number : N) (data : bytes) (answer : Tried (option string))
  | AskedComplete (key upload_id : string) (listed : list (N * string)) (answer : Result unit)
  | AskedAbort (key upload_id : string).
Section multipart.
Context {Bk : Bucket}.
Definition upload_part (upload_id : string) (file : bytes) (part_bytes i : N) : list Asked * Result (N * string) :=
  let data := part_of file part_bytes i in
  let send := bk_try_part upload_id (part_number i) data in
  match send_put send bk_random SEND_TRIES 0 0 0 with
  | Some (r, waits) =>
      (map (fun j => AskedPart upload_id (part_number i) data (send j)) (seq 0 (S (length waits))),
       match r with
       | Ok (Some etag) => Ok (part_number i, etag)
       | Ok None => Err "S3 multipart part omitted ETag"
       | Err e => Err e
       end)
  | None => ([], Err "out of tries")
  end.
(** The parts done in the order [arrival]; a failed one stops the others. *)
Fixpoint upload_each (upload_id : string) (file : bytes) (part_bytes : N) (arrival : list N)
    : list Asked * Result (list (N * string)) :=
  match arrival with
  | [] => ([], Ok [])
  | i :: arrival =>
      match upload_part upload_id file part_bytes i with
      | (asked, Err e) => (asked, Err e)
      | (asked, Ok part) =>
          let '(more, r) := upload_each upload_id file part_bytes arrival in
          (asked ++ more, let? completed := r in Ok (part :: completed))
      end
  end.
(** The parts, and their completion. *)
Definition upload_parts (key upload_id : string) (file : bytes) (part_bytes : N) (arrival : list N) : list Asked * Result unit :=
  match upload_each upload_id file part_bytes arrival with
  | (asked, Err e) => (asked, Err e)
  | (asked, Ok completed) =>
      let listed := sort_by (fun a b => a.1 <=? b.1)%N completed in
      let answer := bk_complete key upload_id listed in
      (asked ++ [AskedComplete key upload_id listed answer], answer)
  end.
(** [multipart_put_file]: what it asked of the bucket, and its result. *)
Definition multipart_put_file (file : bytes) (key : string) (arrival : list N) : list Asked * Result unit :=
  match multipart_upload_part_bytes (nlen file) with
  | Err e => ([], Err e)
  | Ok part_bytes =>
      match bk_create key with
      | Err e => ([AskedCreate key (Err e)], Err e)
      | Ok upload_id =>
          match upload_parts key upload_id file part_bytes arrival with
          | (asked, Ok _) => (AskedCreate key (Ok upload_id) :: asked, Ok tt)
          | (asked, Err e) => (AskedCreate key (Ok upload_id) :: asked ++ [AskedAbort key upload_id], Err e)
          end
      end
  end.
Definition part_indexes (file : bytes) (part_bytes : N) : list N :=
  map N.of_nat (seq 0 (N.to_nat (div_ceil (nlen file) part_bytes))).
End multipart.

(** ** The storage *)
Definition MULTIPART_UPLOAD_THRESHOLD_BYTES : N := MULTIPART_UPLOAD_PART_BYTES.
(** The bucket's other requests: an object's [Content-Length]; its bytes, or those of
    a range, with the response's [Content-Length]; a try of a PUT; a deletion; a
    signed URL. *)
Class Objects := {
  ob_head : string -> Result (option N);
  ob_get : string -> option (N * N) -> Result (option N * bytes);
  ob_try_put : string -> bytes -> nat -> Tried unit;
  ob_delete : string -> Result unit;
  ob_presign : string -> option string;
}.
Section storage.
Context {Bk : Bucket} {Ob : Objects} (sha256 : bytes -> string) (prefix : string).
(** [S3Storage::key]. *)
Definition S3_key (hash : string) : Result string :=
  match validate_artifact_id hash with Ok _ => Ok (prefix +:+ hash) | Err _ => Err ("invalid S3 object id: " +:+ hash) end.
Definition has_object (key : string) (len : N) : bool :=
  match ob_head key with Ok length => bool_decide (length = Some len) | Err _ => false end.
Definition remote_size (hash : string) : Result N :=
  let? key := S3_key hash in
  let? output := ob_head key in
  context output "S3 head_object missing Content-Length".
Definition length_matches (content_length : option N) (data : bytes) : bool :=
  match content_length with Some expected => (nlen data =? expected)%N | None => true end.
Definition S3_get (hash : string) : Result bytes :=
  let? key := S3_key hash in
  let? (content_length, data) := ob_get key None in
  ensure! length_matches content_length data else "S3 object length mismatch";
  ensure! bool_decide (sha256 data = hash) else "S3 object hash mismatch";
  Ok data.
Definition S3_get_range (hash : string) (start len : N) : Result bytes :=
  if (len =? 0)%N then Ok []
  else
    let? key := S3_key hash in
    let? end_inclusive := Prelude.context (checked_add u64_max start (len - 1)) "S3 range end overflow" in
    let? (content_length, data) := ob_get key (Some (start, end_inclusive)) in
    ensure! length_matches content_length data else "S3 range length mismatch";
    Ok data.
(** [put_async]: one PUT, outside the limit. *)
Definition S3_put_async (hash : string) (data : bytes) : Result unit :=
  let? key := S3_key hash in
  match ob_try_put key data 0 with Sent _ => Ok tt | Slowed _ e | Broken e => Err e end.
(** [put_file_async] of a file of these bytes, the parts of a large one done in the
    order [arrival]. *)
Definition put_file_async (hash : string) (file : bytes) (arrival : list N) : Result unit :=
  let? key := S3_key hash in
  let len := nlen file in
  if (EXISTS_CHECK_BYTES <=? len)%N && has_object key len then Ok tt
  else if (MULTIPART_UPLOAD_THRESHOLD_BYTES <=? len)%N then
    let? _ := (multipart_put_file file key arrival).2 in Ok tt
  else
    match send_put (ob_try_put key file) bk_random SEND_TRIES 0 0 0 with
    | Some (r, _) => r
    | None => Err "out of tries"
    end.
Definition S3_delete (hash : string) : Result unit := let? key := S3_key hash in ob_delete key.
Definition S3_signed_url (hash : string) : option string := key ← ok (S3_key hash); ob_presign key.
(** What the artifact route uses of it. *)
Definition S3Storage : StorageBackend := {|
  sb_signed_url := S3_signed_url;
  sb_size := remote_size;
  sb_open_file _ := Ok None;
  sb_get_range := S3_get_range;
|}.
End storage.

(** ** The limit holds

    Every slot is free, granted or held; those there are make the limit and the debt. *)
Definition puts_ok (max_ : N) (p : Puts) : Prop :=
  let l := pu_limit p in
  max l = N.max max_ 1 /\ (1 <= limit l)%N /\ (limit l + debt l <= max l)%N /\
  (slots l + in_flight p = limit l + debt l)%N /\ Forall (fun r => r <= round l)%N (pu_held p).

Lemma half_bounds n : (1 <= n)%N -> (1 <= N.max (n / 2) 1 <= n)%N.
Proof. intros H. pose proof (N.div_lt n 2 ltac:(lia) ltac:(lia)). lia. Qed.
(** What the last part of a permit, its drop, comes to. *)
Lemma drop_spec l : (slots (PutPermit_drop l) + debt l = slots l + debt (PutPermit_drop l) + 1)%N /\
  limit (PutPermit_drop l) = limit l /\ max (PutPermit_drop l) = max l /\ round (PutPermit_drop l) = round l /\ (debt (PutPermit_drop l) <= debt l)%N.
Proof. unfold PutPermit_drop. destruct (N.ltb_spec 0 (debt l)); cbn; lia. Qed.
Lemma on_success_spec l : (limit l + debt l <= max l)%N ->
  (slots (on_success l) + limit l + debt l = slots l + limit (on_success l) + debt (on_success l))%N /\
  (limit l <= limit (on_success l))%N /\ (limit (on_success l) + debt (on_success l) <= max l)%N /\ max (on_success l) = max l /\ round (on_success l) = round l.
Proof.
  intros H. unfold on_success. destruct (_ && _) eqn:E; cbn; [|lia]. breflect. destruct (N.ltb_spec 0 (debt l)); cbn; lia.
Qed.
Lemma on_throttle_spec r l : (1 <= limit l)%N ->
  (slots (on_throttle r l) + limit l + debt l = slots l + limit (on_throttle r l) + debt (on_throttle r l))%N /\
  limit (on_throttle r l) = (if (r =? round l)%N then N.max (limit l / 2) 1 else limit l) /\
  (1 <= limit (on_throttle r l) <= limit l)%N /\ (limit (on_throttle r l) + debt (on_throttle r l) <= limit l + debt l)%N /\
  max (on_throttle r l) = max l /\ round (on_throttle r l) = (if (r =? round l)%N then round l + 1 else round l)%N.
Proof.
  intros H. unfold on_throttle. pose proof (half_bounds _ H). destruct (r =? round l)%N; cbn; lia.
Qed.
Lemma held_less p a r b : pu_held p = a ++ r :: b -> in_flight p = (N.of_nat (pu_granted p) + nlen (a ++ b) + 1)%N.
Proof. intros H. unfold in_flight, nlen. rewrite H, !length_app. cbn. lia. Qed.

Lemma put_step_ok max_ p p' : puts_ok max_ p -> put_step p p' -> puts_ok max_ p'.
Proof.
  intros (Hm & Hl & Hb & Hs & Hr) Hstep. unfold puts_ok.
  destruct Hstep as [p l Ha|p n Hn|p n Hn|p a r b Hh|p a r b Hh|p a r b Hh]; cbn [pu_limit pu_held].
  1: { unfold acquire in Ha. destruct (N.ltb_spec 0 (slots (pu_limit p))); [|done]. injection Ha as <-. unfold in_flight in *. cbn.
       split_and!; try done; cbn; lia. }
  1: { unfold in_flight, nlen in *. cbn. split_and!; try done; [lia|]. by constructor. }
  1: { unfold in_flight, nlen in *. cbn. split_and!; try done. lia. }
  all: rewrite (held_less _ _ _ _ Hh) in Hs; rewrite Hh in Hr; apply Forall_app in Hr as [Ha Hb'];
    apply Forall_cons in Hb' as [Hr Hb']; assert (forall q, (round (pu_limit p) <= q)%N -> Forall (fun r => r <= q)%N (a ++ b)) as Hround
      by (intros q Hq; apply Forall_app; split; eapply Forall_impl; eauto; cbn; intros; lia).
  - pose proof (on_success_spec _ Hb) as (H1 & H2 & H3 & H4 & H5). pose proof (drop_spec (on_success (pu_limit p))) as (D1 & D2 & D3 & D4 & D5).
    unfold succeeded, in_flight. cbn. split_and!; [lia|lia|lia|lia|]. apply Hround. lia.
  - pose proof (on_throttle_spec r _ Hl) as (H1 & _ & H2 & H3 & H4 & H5). pose proof (drop_spec (on_throttle r (pu_limit p))) as (D1 & D2 & D3 & D4 & D5).
    unfold throttled, in_flight. cbn. split_and!; [lia|lia|lia|lia|]. apply Hround. rewrite D4, H5. destruct (_ =? _)%N; lia.
  - pose proof (drop_spec (pu_limit p)) as (D1 & D2 & D3 & D4 & D5). unfold in_flight. cbn. split_and!; [lia|lia|lia|lia|]. apply Hround. lia.
Qed.
Lemma Puts_reachable_ok max_ p : rtc put_step (Puts_new max_) p -> puts_ok max_ p.
Proof.
  assert (forall q, puts_ok max_ q -> rtc put_step q p -> puts_ok max_ p) as Hi.
  { intros q Hq Hr. induction Hr as [|x y z Hxy _ IH]; [done|]. apply IH. by eapply put_step_ok. }
  apply Hi. unfold puts_ok, in_flight, nlen. cbn. split_and!; [done|lia|lia|lia|constructor].
Qed.

(** However PUTs are granted, cancelled, throttled and done, at most [max] are in
    flight and the limit stays between one and [max]; a slot is free when none is in
    flight; a throttled PUT halves the limit, and the others sent before that leave
    it there. *)
Lemma put_limit_bounds max_ p :
  rtc put_step (Puts_new max_) p ->
  let l := pu_limit p in
  (in_flight p <= max l)%N /\ max l = N.max max_ 1 /\ (1 <= limit l <= max l)%N /\
  (in_flight p = 0%N -> is_Some (acquire l)) /\
  forall a r b, pu_held p = a ++ r :: b ->
    (throttled r l).2 = (if (r =? round l)%N then N.max (limit l / 2) 1 else limit l) /\
    (r = round l -> forall r', r' ∈ a ++ b -> (throttled r' (throttled r l).1).2 = (throttled r l).2).
Proof.
  intros (Hm & Hl & Hb & Hs & Hr)%Puts_reachable_ok l. subst l. set (l := pu_limit p) in *. split_and!; try lia.
  - intros H0. unfold acquire. destruct (N.ltb_spec 0 (slots l)); [by eexists|lia].
  - intros a r b Hh. rewrite Hh in Hr. pose proof (on_throttle_spec r _ Hl) as (_ & H1 & _ & _ & _ & H2). split; [done|].
    intros -> r' Hr'. rewrite N.eqb_refl in H2.
    assert (r' <= round l)%N as Hle by (rewrite Forall_forall in Hr; apply Hr; set_solver).
    pose proof (drop_spec (on_throttle (round l) l)) as (_ & D2 & _ & D4 & _). unfold throttled at 1. cbn.
    unfold on_throttle at 1. rewrite D4, H2. rewrite (proj2 (N.eqb_neq _ _)) by lia. cbn. done.
Qed.

(** ** The tries of a PUT end *)
Definition is_slowed {T} (t : Tried T) : bool := match t with Slowed _ _ => true | _ => false end.
Definition is_broken {T} (t : Tried T) : bool := match t with Broken _ => true | _ => false end.
Definition count (p : nat -> bool) (n k : nat) : N := nlen (List.filter p (seq n k)).

Section send_facts.
Context {T : Type} (send : nat -> Tried T) (random : nat -> N).
Lemma spread_le w r : (spread w r <= w + w / 2)%N.
Proof.
  unfold spread. pose proof (N.mod_lt r 1000 ltac:(lia)) as H.
  assert (w * (r mod 1000) / 2000 <= w * 1000 / 2000)%N by (apply N.Div0.div_le_mono; nia).
  replace (w * 1000 / 2000)%N with (w / 2)%N in * by (replace 2000%N with (2 * 1000)%N by lia; by rewrite N.Div0.div_mul_cancel_r by lia). lia.
Qed.
(** From the [n]th try with [failures] and [throttles] behind it. *)
Lemma send_put_spec fuel n failures throttles :
  (failures < STREAM_PUT_ATTEMPTS)%N -> (throttles < THROTTLED_PUT_ATTEMPTS)%N ->
  (STREAM_PUT_ATTEMPTS + THROTTLED_PUT_ATTEMPTS <= N.of_nat fuel + failures + throttles + 1)%N ->
  exists r waits, send_put send random fuel n failures throttles = Some (r, waits) /\
    length waits < fuel /\ Forall (fun w => w <= 15000)%N waits /\
    let tries := length waits in
    (forall i, n <= i < n + tries -> match send i with Sent _ => False | _ => True end) /\
    match r with
    | Ok v => send (n + tries) = Sent v
    | Err _ => (failures + count (fun i => is_broken (send i)) n (S tries) = STREAM_PUT_ATTEMPTS)%N \/
               (throttles + count (fun i => is_slowed (send i)) n (S tries) = THROTTLED_PUT_ATTEMPTS)%N
    end.
Proof.
  revert n failures throttles; induction fuel as [|fuel IH]; intros n f t Hf Ht Hfuel; [lia|]. cbn [send_put].
  destruct (send n) as [v|asked e|e] eqn:E.
  - exists (Ok v), []. split_and!; [done|cbn; lia|constructor|cbn; lia|]. cbn. by rewrite Nat.add_0_r.
  - destruct (N.leb_spec THROTTLED_PUT_ATTEMPTS (t + 1)).
    + exists (Err e), []. split_and!; [done|cbn; lia|constructor|cbn; lia|]. right. unfold count. cbn. rewrite E. cbn. unfold nlen. cbn. lia.
    + destruct (IH (S n) f (t + 1)%N) as (r & waits & -> & Hl & Hw & Hs & Hr); [done|lia|lia|].
      eexists r, (_ :: waits). cbn [mbind option_bind]. split_and!; [done|cbn; lia| | |].
      * constructor; [|done]. etransitivity; [apply spread_le|]. set (w := N.min _ THROTTLE_MAX_DELAY).
        assert (w <= 10000)%N by (unfold w, THROTTLE_MAX_DELAY; lia). assert (w / 2 <= 10000 / 2)%N by (by apply N.Div0.div_le_mono).
        change (10000 / 2)%N with 5000%N in *. lia.
      * cbn. intros i Hi. destruct (decide (i = n)) as [->|]; [by rewrite E|]. apply Hs. lia.
      * cbn [length]. replace (n + S (length waits)) with (S n + length waits) by lia. destruct r; [done|].
        unfold count in *. cbn [seq List.filter] in *. rewrite E. cbn [is_broken is_slowed]. unfold nlen in *. cbn [length] in *. destruct Hr; [by left|right]. lia.
  - destruct (N.leb_spec STREAM_PUT_ATTEMPTS (f + 1)).
    + exists (Err e), []. split_and!; [done|cbn; lia|constructor|cbn; lia|]. left. unfold count. cbn. rewrite E. cbn. unfold nlen. cbn. lia.
    + destruct (IH (S n) (f + 1)%N t) as (r & waits & -> & Hl & Hw & Hs & Hr); [lia|done|lia|].
      eexists r, (_ :: waits). cbn [mbind option_bind]. split_and!; [done|cbn; lia| | |].
      * constructor; [|done]. unfold STREAM_PUT_RETRY_DELAY, STREAM_PUT_ATTEMPTS in *. replace (f + 1 - 1)%N with f by lia.
        assert (f = 0 \/ f = 1)%N as [-> | ->] by lia; by vm_compute.
      * cbn. intros i Hi. destruct (decide (i = n)) as [->|]; [by rewrite E|]. apply Hs. lia.
      * cbn [length]. replace (n + S (length waits)) with (S n + length waits) by lia. destruct r; [done|].
        unfold count in *. cbn [seq List.filter] in *. rewrite E. cbn [is_broken is_slowed]. unfold nlen in *. cbn [length] in *. destruct Hr; [left|by right]. lia.
Qed.
End send_facts.

(** ** The parts make the file *)
Lemma part_of_slice file pb i : (i * pb <= nlen file)%N -> part_of file pb i = slice file (N.min (i * pb) (nlen file)) (N.min ((i + 1) * pb) (nlen file)).
Proof.
  intros Hi. unfold part_of. rewrite N.mul_add_distr_r, (N.min_l (i * pb)) by done. f_equal. lia.
Qed.
Lemma parts_concat file pb : (0 < pb)%N -> concat (map (part_of file pb) (part_indexes file pb)) = file.
Proof.
  intros Hp. unfold part_indexes. destruct (div_ceil_spec (nlen file) pb Hp) as [Hk Hlt]. set (k := div_ceil (nlen file) pb) in *. clearbody k.
  assert (H : forall m i, i + m = N.to_nat k ->
    concat (map (part_of file pb) (map N.of_nat (seq i m))) = slice file (N.min (N.of_nat i * pb) (nlen file)) (nlen file)).
  { induction m as [|m IH]; intros i Hi; cbn [seq map concat].
    - replace (N.of_nat i) with k by lia. rewrite N.min_r by done. by rewrite slice_empty.
    - specialize (Hlt (N.of_nat i) ltac:(lia)). rewrite IH, part_of_slice by lia. replace (N.of_nat (S i)) with (N.of_nat i + 1)%N by lia.
      rewrite slice_app by lia. done. }
  rewrite H by lia. rewrite N.min_l by lia. apply slice_all.
Qed.
Lemma part_bytes_bounds len pb :
  multipart_upload_part_bytes len = Ok pb ->
  (MULTIPART_UPLOAD_PART_BYTES <= pb <= MULTIPART_UPLOAD_MAX_PART_BYTES)%N /\ (div_ceil len pb <= MULTIPART_UPLOAD_MAX_PARTS)%N.
Proof.
  unfold multipart_upload_part_bytes. intros H. inv_ok H. breflect. set (pb := N.max _ _) in *. split; [lia|].
  destruct (div_ceil_spec len MULTIPART_UPLOAD_MAX_PARTS ltac:(done)) as [Hc _].
  destruct (div_ceil_spec len pb ltac:(unfold pb, MULTIPART_UPLOAD_PART_BYTES; lia)) as [_ Hlt].
  destruct (N.le_gt_cases (div_ceil len pb) MULTIPART_UPLOAD_MAX_PARTS) as [|Hgt]; [done|exfalso].
  specialize (Hlt MULTIPART_UPLOAD_MAX_PARTS Hgt). assert (div_ceil len MULTIPART_UPLOAD_MAX_PARTS <= pb)%N as Hle by (unfold pb; lia).
  pose proof (N.mul_le_mono_l _ _ MULTIPART_UPLOAD_MAX_PARTS Hle). lia.
Qed.
Lemma numbers_sorted i m : StronglySorted N.le (map part_number (map N.of_nat (seq i m))).
Proof.
  revert i; induction m as [|m IH]; intros i; cbn [seq map]; constructor; [apply IH|].
  apply Forall_forall. intros x (y & -> & (j & -> & Hj)%list_elem_of_fmap)%list_elem_of_fmap. apply elem_of_seq in Hj. unfold part_number. lia.
Qed.
Lemma sorted_numbers (l : list (N * string)) : StronglySorted N.le (map fst (sort_by (fun a b => a.1 <=? b.1)%N l)).
Proof.
  assert (StronglySorted (fun x y : N * string => (x.1 <=? y.1)%N = true) (sort_by (fun a b => a.1 <=? b.1)%N l)) as H.
  { apply sort_by_sorted; intros; rewrite ?N.leb_le in *; lia. }
  induction H as [|x k _ IH Hx]; cbn; constructor; [done|]. apply Forall_map. eapply Forall_impl; [exact Hx|]. cbn. intros y. by rewrite N.leb_le.
Qed.
Lemma numbers_increase file pb : StronglySorted N.lt (map part_number (part_indexes file pb)).
Proof.
  unfold part_indexes. generalize (N.to_nat (div_ceil (nlen file) pb)) as m. generalize 0 as i.
  intros i m; revert i; induction m as [|m IH]; intros i; cbn [seq map]; constructor; [apply IH|].
  apply list.Forall_forall. intros x (y & -> & (j & -> & Hj)%list_elem_of_fmap)%list_elem_of_fmap. apply elem_of_seq in Hj. unfold part_number. lia.
Qed.
Lemma part_indexes_NoDup file pb : NoDup (part_indexes file pb).
Proof. apply NoDup_fmap_2; [by intros ?? ?%Nat2N.inj|apply NoDup_seq]. Qed.
Lemma part_indexes_bound file pb i : i ∈ part_indexes file pb -> (i < div_ceil (nlen file) pb)%N.
Proof. intros (j & -> & Hj%elem_of_seq)%elem_of_lmap. lia. Qed.

Section multipart_facts.
Context {Bk : Bucket}.
(** A PUT goes through at its [j]th try when that is not the last one it may have. *)
Definition goes_through {T} (send : nat -> Tried T) (j : nat) : Prop :=
  (count (fun i => is_broken (send i)) 0 j < STREAM_PUT_ATTEMPTS)%N /\ (count (fun i => is_slowed (send i)) 0 j < THROTTLED_PUT_ATTEMPTS)%N.
Lemma count_le p n j k : j <= k -> (count p n j <= count p n k)%N.
Proof.
  intros H. unfold count, nlen. replace k with (j + (k - j)) by lia. rewrite seq_app, List.filter_app, length_app. lia.
Qed.
Lemma send_put_total {T} (send : nat -> Tried T) random j v :
  goes_through send j -> send j = Sent v -> exists v' waits, send_put send random SEND_TRIES 0 0 0 = Some (Ok v', waits).
Proof.
  intros [Hb Ht] Hv. destruct (send_put_spec send random SEND_TRIES 0 0 0) as (r & waits & -> & _ & _ & Hs & Hr); [done..|].
  destruct r as [v'|e]; [by eexists _, _|exfalso]. cbn [Nat.add] in *.
  destruct (decide (j < length waits)) as [Hlt|Hge]; [specialize (Hs j ltac:(lia)); by rewrite Hv in Hs|].
  assert (Hend : forall p, p j = false -> (count p 0 (S (length waits)) <= count p 0 j)%N).
  { intros p Hp. destruct (decide (length waits = j)) as [<-|]; [|apply count_le; lia]. unfold count, nlen.
    rewrite seq_S, List.filter_app, length_app. cbn. rewrite Hp. cbn. lia. }
  pose proof (Hend (fun i => is_broken (send i)) ltac:(cbv beta; by rewrite Hv)).
  pose proof (Hend (fun i => is_slowed (send i)) ltac:(cbv beta; by rewrite Hv)). lia.
Qed.

(** A part is sent whole each time, at most [SEND_TRIES] times, and is done when the
    bucket answers its etag. *)
Lemma upload_part_spec upload_id file pb i asked r : upload_part upload_id file pb i = (asked, r) ->
  Forall (fun x => exists answer, x = AskedPart upload_id (part_number i) (part_of file pb i) answer) asked /\
  length asked <= SEND_TRIES /\
  (forall n etag, r = Ok (n, etag) -> n = part_number i /\ AskedPart upload_id n (part_of file pb i) (Sent (Some etag)) ∈ asked).
Proof.
  unfold upload_part. cbv zeta. set (send := bk_try_part _ _ _).
  destruct (send_put_spec send bk_random SEND_TRIES 0 0 0) as (res & waits & -> & Hl & _ & _ & Hr); [done..|].
  intros [<- <-]%pair_equal_spec. split; [apply list.Forall_forall; intros x (j & -> & _)%elem_of_lmap; by eexists|]. split; [rewrite length_map, length_seq; lia|].
  intros n etag. destruct res as [[e|]|]; intros [= <- <-]. split; [done|]. apply elem_of_lmap. exists (length waits).
  cbn [Nat.add] in Hr. split; [by rewrite Hr|]. apply elem_of_seq. lia.
Qed.
Lemma upload_part_total upload_id file pb i j etag :
  let send := bk_try_part upload_id (part_number i) (part_of file pb i) in
  goes_through send j -> send j = Sent (Some etag) -> (forall j, send j <> Sent None) ->
  exists asked part, upload_part upload_id file pb i = (asked, Ok part).
Proof.
  intros send Hj Hs Hn. destruct (send_put_total send bk_random j _ Hj Hs) as (v & waits & E). unfold upload_part. fold send. rewrite E.
  destruct (send_put_spec send bk_random SEND_TRIES 0 0 0) as (r & ws & E' & _ & _ & _ & Hr); [done..|].
  rewrite E in E'. injection E' as <- <-. destruct v as [e|]; [by eexists _, _|by apply Hn in Hr].
Qed.

Definition of_part (n : N) (x : Asked) : bool := match x with AskedPart _ n' _ _ => (n' =? n)%N | _ => false end.
Lemma filter_le {A} (p : A -> bool) l : length (List.filter p l) <= length l.
Proof. induction l as [|x l IH]; cbn; [lia|]. destruct (p x); cbn; lia. Qed.
Lemma upload_each_spec upload_id file pb arrival asked r : upload_each upload_id file pb arrival = (asked, r) -> NoDup arrival ->
  Forall (fun x => exists i answer, i ∈ arrival /\ x = AskedPart upload_id (part_number i) (part_of file pb i) answer) asked /\
  (forall n, length (List.filter (of_part n) asked) <= SEND_TRIES) /\
  (forall completed, r = Ok completed -> Forall2 (fun i part => part.1 = part_number i /\
  AskedPart upload_id part.1 (part_of file pb i) (Sent (Some part.2)) ∈ asked) arrival completed).
Proof.
  revert asked r. induction arrival as [|i arrival IH]; intros asked r H Hnd; cbn [upload_each] in H.
  { injection H as <- <-. split_and!; [constructor|intros n; cbn; lia|by intros ? [= <-]]. }
  apply NoDup_cons in Hnd as [Hi Hnd]. destruct (upload_part _ _ _ i) as [first part] eqn:Ep.
  apply upload_part_spec in Ep as (Hf & Hl & Hpart).
  assert (Hfirst : Forall (fun x => exists i' answer, i' ∈ i :: arrival /\ x = AskedPart upload_id (part_number i') (part_of file pb i') answer) first).
  { eapply Forall_impl; [exact Hf|]. intros x [answer ->]. exists i, answer. split; [by left|done]. }
  destruct part as [[n etag]|e].
  2: { injection H as <- <-. split_and!; [done|intros n; pose proof (filter_le (of_part n) first); lia|done]. }
  destruct (upload_each _ _ _ arrival) as [more r'] eqn:Em. injection H as <- <-. destruct (IH _ _ eq_refl Hnd) as (Ha & Hc & Hr).
  split_and!.
  - apply Forall_app. split; [done|]. eapply Forall_impl; [exact Ha|]. intros x (i' & answer & Hin & ->). exists i', answer. split; [by right|done].
  - intros m. rewrite List.filter_app, length_app. pose proof (filter_le (of_part m) first) as Hm. destruct (N.eqb_spec m (part_number i)) as [->|Hne].
    + assert (List.filter (of_part (part_number i)) more = []) as ->; [|cbn; lia]. clear -Ha Hi. induction more as [|x more IH]; [done|].
      apply Forall_cons in Ha as [(i' & answer & Hin & ->) Ha]. cbn. destruct (N.eqb_spec (part_number i') (part_number i)) as [E|]; [|by apply IH].
      unfold part_number in E. assert (i' = i) as -> by lia. done.
    + assert (List.filter (of_part m) first = []) as ->; [|by specialize (Hc m)]. clear -Hf Hne. induction Hf as [|x l [answer ->] _ IH]; [done|].
      cbn. destruct (N.eqb_spec (part_number i) m); [done|exact IH].
  - intros completed H. destruct r' as [ps|]; [|done]. cbn in H. injection H as <-. destruct (Hpart n etag eq_refl) as [-> Hin]. constructor.
    + split; [done|]. apply elem_of_app. by left.
    + eapply Forall2_impl; [by apply Hr|]. intros i' part [? ?]. split; [done|]. apply elem_of_app. by right.
Qed.
Lemma upload_each_total upload_id file pb arrival :
  (forall i, i ∈ arrival -> exists asked part, upload_part upload_id file pb i = (asked, Ok part)) ->
  exists asked completed, upload_each upload_id file pb arrival = (asked, Ok completed).
Proof.
  induction arrival as [|i arrival IH]; intros H; cbn [upload_each]; [by eexists _, _|].
  destruct (H i ltac:(by left)) as (asked & part & ->). destruct IH as (more & completed & ->); [intros i' Hi'; apply H; by right|].
  by eexists _, _.
Qed.
(** What completion lists: the parts in order, each with the etag of its bytes. *)
Lemma listed_parts file pb arrival upload_id (asked : list Asked) (completed : list (N * string)) :
  (0 < pb)%N -> arrival ≡ₚ part_indexes file pb ->
  Forall2 (fun i part => part.1 = part_number i /\ AskedPart upload_id part.1 (part_of file pb i) (Sent (Some part.2)) ∈ asked) arrival completed ->
  let listed := sort_by (fun a b => a.1 <=? b.1)%N completed in
  map fst listed = map part_number (part_indexes file pb) /\
  Forall2 (fun part d => AskedPart upload_id part.1 d (Sent (Some part.2)) ∈ asked) listed (map (part_of file pb) (part_indexes file pb)).
Proof.
  intros Hpb Ha H listed.
  assert (Hn : map fst completed = map part_number arrival) by (clear -H; induction H as [|i part l l' [Hp _] _ IH]; [done|]; cbn; by rewrite Hp, IH).
  assert (Hnum : map fst listed = map part_number (part_indexes file pb)).
  { apply (StronglySorted_unique N.le); [apply sorted_numbers|apply numbers_sorted|]. unfold listed.
    rewrite sort_by_perm, <- Ha. by rewrite Hn. }
  split; [done|].
  assert (Hall : Forall (fun part => AskedPart upload_id part.1 (part_of file pb (part.1 - 1)) (Sent (Some part.2)) ∈ asked) listed).
  { unfold listed. apply list.Forall_forall. intros part Hin%elem_of_sort_by. apply list_elem_of_lookup in Hin as [j Hj].
    destruct (Forall2_lookup_r _ _ _ _ _ H Hj) as (i & _ & Hp & Hi). rewrite Hp in *. unfold part_number at 2. by rewrite N.add_sub. }
  assert (Hdata : map (part_of file pb) (part_indexes file pb) = map (fun part => part_of file pb (part.1 - 1)) listed).
  { rewrite <- (map_map fst (fun n => part_of file pb (n - 1))), Hnum, map_map. apply map_ext. intros i. unfold part_number. by rewrite N.add_sub. }
  rewrite Hdata. clear -Hall. induction Hall as [|x l Hx _ IH]; constructor; done.
Qed.
End multipart_facts.

(** What the bucket makes of what it was asked: [object asked key] is what a reader of
    [key] is then given. S3 puts the parts that a completed upload lists together in
    ascending order, when it answered each one's etag for these bytes. *)
Record BucketOk (object : list Asked -> string -> option bytes) : Prop := {
  bo_complete asked key upload_id listed datas :
    (forall n etag d d', AskedPart upload_id n d (Sent (Some etag)) ∈ asked -> AskedPart upload_id n d' (Sent (Some etag)) ∈ asked -> d = d') ->
    StronglySorted N.lt (map fst listed) ->
    Forall2 (fun part d => AskedPart upload_id part.1 d (Sent (Some part.2)) ∈ asked) listed datas ->
    object (asked ++ [AskedComplete key upload_id listed (Ok tt)]) key = Some (concat datas);
}.
(** C40: a large file's upload, whatever the bucket answers and in whatever order its
    parts are done. When it returns well the bucket's object is the file, byte for byte;
    when it fails after the upload was started, the last thing asked is its abort. Each
    of at most 10,000 parts, none above S3's part size, is sent as the file's bytes at
    its place, at most ten times; and the upload does return well when the bucket
    starts it, completes it, and takes every part at a try before the third failed one
    and the eighth throttled one. *)
Theorem multipart_puts_file {Bk : Bucket} object file key arrival part_bytes :
  BucketOk object -> multipart_upload_part_bytes (nlen file) = Ok part_bytes -> arrival ≡ₚ part_indexes file part_bytes ->
  let '(asked, r) := multipart_put_file file key arrival in
  (r = Ok tt -> object asked key = Some file) /\
  (forall upload_id, bk_create key = Ok upload_id -> r <> Ok tt -> last asked = Some (AskedAbort key upload_id)) /\
  (forall n, length (List.filter (of_part n) asked) <= SEND_TRIES) /\
  (forall upload_id n data answer, AskedPart upload_id n data answer ∈ asked ->
     bk_create key = Ok upload_id /\ (1 <= n <= MULTIPART_UPLOAD_MAX_PARTS)%N /\ data = part_of file part_bytes (n - 1) /\
     (nlen data <= MULTIPART_UPLOAD_MAX_PART_BYTES)%N) /\
  (forall upload_id, bk_create key = Ok upload_id -> (forall listed, bk_complete key upload_id listed = Ok tt) ->
     (forall i, i ∈ arrival -> let send := bk_try_part upload_id (part_number i) (part_of file part_bytes i) in
        (exists j etag, goes_through send j /\ send j = Sent (Some etag)) /\ forall j, send j <> Sent None) ->
     r = Ok tt).
Proof.
  intros Hobj Hpb Ha. unfold multipart_put_file. rewrite Hpb. destruct (part_bytes_bounds _ _ Hpb) as [Hpb1 Hpb2].
  assert (Hpos : (0 < part_bytes)%N) by (unfold MULTIPART_UPLOAD_PART_BYTES in Hpb1; lia).
  assert (Hnd : NoDup arrival) by (rewrite Ha; apply part_indexes_NoDup).
  destruct (bk_create key) as [upload_id|e] eqn:Ec.
  2: { split_and!; [done|done|intros n; cbn; lia| |done]. by intros u n d a [[=]|[]%elem_of_nil]%elem_of_cons. }
  unfold upload_parts. destruct (upload_each upload_id file part_bytes arrival) as [asked r] eqn:Eu.
  destruct (upload_each_spec _ _ _ _ _ _ Eu Hnd) as (Hsent & Htries & Hdone).
  assert (Hpart : forall u n d a, AskedPart u n d a ∈ asked -> Ok upload_id = Ok u /\ (1 <= n <= MULTIPART_UPLOAD_MAX_PARTS)%N /\
    d = part_of file part_bytes (n - 1) /\ (nlen d <= MULTIPART_UPLOAD_MAX_PART_BYTES)%N).
  { intros u n d a Hin. rewrite Forall_forall in Hsent. destruct (Hsent _ Hin) as (i & answer & Hi & [= -> -> -> _]).
    rewrite Ha in Hi. apply part_indexes_bound in Hi. unfold part_number. rewrite N.add_sub. split_and!; [done|lia|lia|done|].
    unfold part_of, slice, nlen. rewrite length_take. lia. }
  assert (Htotal : forall u, Ok upload_id = Ok u -> (forall i, i ∈ arrival -> let send := bk_try_part u (part_number i) (part_of file part_bytes i) in
      (exists j etag, goes_through send j /\ send j = Sent (Some etag)) /\ forall j, send j <> Sent None) -> exists completed, r = Ok completed).
  { intros u [= <-] H. destruct (upload_each_total upload_id file part_bytes arrival) as (asked' & completed & E); [|exists completed; congruence].
    intros i Hi. destruct (H i Hi) as [(j & etag & Hj & Hs) Hn]. by apply (upload_part_total _ _ _ _ j etag). }
  destruct r as [completed|e].
  - destruct (listed_parts file part_bytes arrival upload_id asked completed Hpos Ha (Hdone _ eq_refl)) as [Hnum Hlisted].
    set (listed := sort_by _ completed) in *. destruct (bk_complete key upload_id listed) as [[]|e] eqn:Eb.
    + split_and!; [intros _|done| | |done].
      * rewrite app_comm_cons, (bo_complete _ Hobj _ key upload_id listed (map (part_of file part_bytes) (part_indexes file part_bytes))).
        -- by rewrite parts_concat.
        -- intros n etag d d' Hd Hd'. apply elem_of_cons in Hd as [[=]|Hd], Hd' as [[=]|Hd'].
           apply Hpart in Hd as (_ & _ & -> & _), Hd' as (_ & _ & -> & _). done.
        -- rewrite Hnum. apply numbers_increase.
        -- eapply Forall2_impl; [exact Hlisted|]. intros part d Hin. by right.
      * intros n. cbn [List.filter of_part]. rewrite List.filter_app, app_nil_r. apply Htries.
      * intros u n d a Hin. apply (Hpart u n d a). apply elem_of_cons in Hin as [[=]|[Hin|[[=]|[]%elem_of_nil]%elem_of_cons]%elem_of_app]. done.
    + split_and!; [done| | | |].
      * intros u [= <-] _. rewrite app_comm_cons. by rewrite last_snoc.
      * intros n. cbn [List.filter of_part]. rewrite !List.filter_app, !app_nil_r. apply Htries.
      * intros u n d a Hin. apply (Hpart u n d a). rewrite !elem_of_cons, !elem_of_app, !elem_of_cons, !elem_of_nil in Hin. naive_solver.
      * intros u [= <-] Hc. by rewrite Hc in Eb.
  - split_and!; [done| | | |].
    + intros u [= <-] _. rewrite app_comm_cons. by rewrite last_snoc.
    + intros n. cbn [List.filter of_part]. rewrite List.filter_app, app_nil_r. apply Htries.
    + intros u n d a Hin. apply (Hpart u n d a). rewrite !elem_of_cons, !elem_of_app, !elem_of_cons, !elem_of_nil in Hin. naive_solver.
    + intros u Hu Hc Hp. by destruct (Htotal u Hu Hp).
Qed.

(** ** The storage serves the bucket's objects *)
Section storage_facts.
Context {Bk : Bucket} {Ob : Objects} (sha256 : bytes -> string) (prefix : string).
(** What is read whole has its id. *)
Lemma S3_get_verified hash data : S3_get sha256 prefix hash = Ok data -> sha256 data = hash.
Proof. unfold S3_get. intros H. inv_ok H. by breflect. Qed.
(** The bucket holds [data] under the key of [hash]. *)
Definition bucket_holds (hash : string) (data : bytes) : Prop :=
  ob_head (prefix +:+ hash) = Ok (Some (nlen data)) /\
  forall start end_, (start <= end_)%N -> (end_ < nlen data)%N ->
    ob_get (prefix +:+ hash) (Some (start, end_)) = Ok (Some (end_ - start + 1)%N, slice data start (end_ + 1)).
(** An object in the bucket is storage's artifact, for the route that streams one. *)
Lemma S3Storage_holds hash data :
  validate_artifact_id hash = Ok tt -> (nlen data <= u64_max)%N -> bucket_holds hash data ->
  StorageHolds (S3Storage prefix) hash data.
Proof.
  intros Hv Hu [Hh Hg]. assert (S3_key prefix hash = Ok (prefix +:+ hash)) as Hk by (unfold S3_key; by rewrite Hv).
  constructor; cbn.
  - unfold remote_size. rewrite Hk. cbn. by rewrite Hh.
  - right. split; [done|]. intros start len Hl. unfold S3_get_range. destruct (N.eqb_spec len 0) as [->|Hlen].
    { by rewrite N.add_0_r, slice_empty. }
    rewrite Hk. cbn [rbind]. unfold checked_add. destruct (N.leb_spec (start + (len - 1)) u64_max); [|lia]. cbn [Prelude.context rbind].
    rewrite Hg by lia. cbn [rbind]. replace (start + (len - 1) + 1)%N with (start + len)%N by lia.
    unfold length_matches. replace (nlen _) with (start + (len - 1) - start + 1)%N; [by rewrite N.eqb_refl|].
    unfold slice, nlen. rewrite length_take, length_drop. unfold nlen in Hl. lia.
Qed.
(** An upload that ends well: the bucket said it has the object already, took the
    file whole, or put its parts together. *)
Lemma put_file_async_spec hash file arrival :
  put_file_async prefix hash file arrival = Ok tt ->
  let key := prefix +:+ hash in
  ((EXISTS_CHECK_BYTES <= nlen file)%N /\ ob_head key = Ok (Some (nlen file))) \/
  (multipart_put_file file key arrival).2 = Ok tt \/
  (exists try_, ob_try_put key file try_ = Sent tt).
Proof.
  unfold put_file_async, S3_key. destruct (validate_artifact_id hash) as [[]|]; [|done]. cbn [rbind].
  destruct (_ && _) eqn:E.
  { intros _. left. apply andb_true_iff in E as [E1%N.leb_le E2]. split; [done|]. unfold has_object in E2.
    destruct (ob_head _) as [length|]; [|done]. by apply bool_decide_eq_true in E2 as ->. }
  destruct (MULTIPART_UPLOAD_THRESHOLD_BYTES <=? _)%N.
  - destruct (multipart_put_file _ _ _).2 as [[]|]; cbn [rbind]; intros H; [|discriminate H]. right. by left.
  - destruct (send_put_spec (ob_try_put (prefix +:+ hash) file) bk_random SEND_TRIES 0 0 0) as (r & waits & -> & _ & _ & _ & Hr); [done..|].
    intros ->. right. right. by eexists.
Qed.
End storage_facts.

(** A file of three bytes in one part, whose first try is slowed. *)
Module S3Example.
Definition file : bytes := [Byte.x01; Byte.x02; Byte.x03].
Definition bucket : Bucket := {|
  bk_create key := Ok "u";
  bk_try_part id n data j := match j with O => Slowed None "SlowDown" | _ => Sent (Some "e") end;
  bk_complete key id listed := Ok tt;
  bk_random n := 0%N;
|}.
(** A bucket's object: the bytes it answered the listed etags for. *)
Fixpoint bytes_of (upload_id : string) (part : N * string) (asked : list Asked) : bytes :=
  match asked with
  | [] => []
  | AskedPart u n d (Sent (Some etag)) :: asked =>
      if bool_decide (u = upload_id /\ n = part.1 /\ etag = part.2) then d else bytes_of upload_id part asked
  | _ :: asked => bytes_of upload_id part asked
  end.
Definition object (asked : list Asked) (key : string) : option bytes :=
  match last asked with
  | Some (AskedComplete k upload_id listed (Ok _)) =>
      if bool_decide (k = key) then Some (concat (map (fun part => bytes_of upload_id part asked) listed)) else None
  | _ => None
  end.
Lemma bytes_of_spec upload_id part d asked more :
  (forall d', AskedPart upload_id part.1 d' (Sent (Some part.2)) ∈ asked -> d' = d) ->
  AskedPart upload_id part.1 d (Sent (Some part.2)) ∈ asked -> bytes_of upload_id part (asked ++ more) = d.
Proof.
  induction asked as [|x asked IH]; intros Hu Hin; [by apply elem_of_nil in Hin|]. cbn [app bytes_of].
  assert (IH' : AskedPart upload_id part.1 d (Sent (Some part.2)) <> x -> bytes_of upload_id part (asked ++ more) = d).
  { intros Hne. apply IH; [intros d' Hd'; apply Hu; by right|]. by apply elem_of_cons in Hin as [?|?]. }
  destruct x as [| u n d' [[etag|]| |]| |]; try by apply IH'.
  case_bool_decide as E; [|apply IH'; intros [=]; by apply E]. destruct E as (-> & -> & ->). apply Hu. by left.
Qed.
Lemma object_ok : BucketOk object.
Proof.
  constructor. intros asked key upload_id listed datas Hu _ H. unfold object. rewrite last_snoc, bool_decide_eq_true_2 by done. do 2 f_equal.
  set (more := [AskedComplete _ _ _ _]). clearbody more.
  induction H as [|part d listed datas Hd _ IH]; [done|]. cbn [map]. f_equal; [|exact IH].
  apply bytes_of_spec; [|done]. intros d' Hd'. by apply (Hu part.1 part.2).
Qed.
(** The file is uploaded on the second try. *)
Lemma multipart_puts_file_witness :
  multipart_upload_part_bytes (nlen file) = Ok MULTIPART_UPLOAD_PART_BYTES /\
  exists asked, @multipart_put_file bucket file "k" [0%N] = (asked, Ok tt) /\ length asked = 4 /\ object asked "k" = Some file.
Proof.
  split; [vm_compute; reflexivity|].
  pose proof (@multipart_puts_file bucket object file "k" [0%N] MULTIPART_UPLOAD_PART_BYTES object_ok ltac:(vm_compute; reflexivity) ltac:(vm_compute; reflexivity)) as H.
  destruct (@multipart_put_file bucket file "k" [0%N]) as [asked r] eqn:E. destruct H as (Hfile & _ & _ & _ & Hok).
  assert (r = Ok tt) as ->.
  { apply (Hok "u"); [reflexivity|reflexivity|]. intros i _. split; [exists 1, "e"; split; [by split; vm_compute|reflexivity]|].
    intros [|j]; cbn; discriminate. }
  exists asked. split; [done|]. split; [|by apply Hfile]. assert (length (@multipart_put_file bucket file "k" [0%N]).1 = 4) as H by (vm_compute; reflexivity).
  by rewrite E in H.
Defined.
Definition granted : Puts := {| pu_limit := {| slots := 1; max := 2; limit := 2; successes := 0; round := 0; debt := 0 |}; pu_granted := 1; pu_held := [] |}.
Definition busy : Puts := {| pu_limit := {| slots := 1; max := 2; limit := 2; successes := 0; round := 0; debt := 0 |}; pu_granted := 0; pu_held := [0%N] |}.
Lemma put_limit_bounds_witness : rtc put_step (Puts_new 2) busy /\ (in_flight busy <= 2)%N.
Proof.
  assert (H : rtc put_step (Puts_new 2) busy).
  { apply (rtc_l _ _ granted); [exact (step_grant (Puts_new 2) (pu_limit granted) eq_refl)|].
    apply (rtc_l _ _ busy); [exact (step_acquired granted 0 eq_refl)|apply rtc_refl]. }
  split; [exact H|]. apply (put_limit_bounds 2 busy H).
Defined.
End S3Example.
