(* ===== verification/Api.v ===== *)
(** The [/v1/repos] routes ([rust/src/server/api.rs], and the ancestry cache of
    [rust/src/server/mod.rs]): resolving a selector, admitting a build, and what a
    request for a commit's output is answered.

    A request calls the control store several times, and other requests and the
    workers change the store in between: [env_others n st] is what became of the
    store [st] when this server makes its [n]th call, and the call finds that. This,
    whether the store can be reached, the clock, credentials, git, the mirror's
    ancestry, signed URLs and the local artifacts are the request's [Env]. Metrics
    and logs are left out. *)

From S2P Require Import Prelude Provider Validation Outputs Cas Control Refs LsRemote Wire.

(** ** The server's state *)
Record Server {S : Serde} := {
  sv_store : Store;
  sv_calls : nat;
  sv_wakes : list Pool;
  sv_ancestry : gmap string (option bool);
}.
#[global] Arguments Server : clear implicits.

(** ** Errors *)
Record ApiError := { ae_status : N; ae_code : string; ae_error : string }.
(** A request that a panic ends is not answered. *)
Inductive Failure := Refused (e : ApiError) | Panicked.
Definition api_error (status : N) (code error : string) : ApiError := {| ae_status := status; ae_code := code; ae_error := error |}.
Definition invalid_request (error : string) : ApiError := api_error 400 "invalid_request" error.
Definition control_unavailable (error : string) : ApiError :=
  api_error 503 "control_unavailable" ("control store unavailable: " +:+ error).
Definition unknown_provider : ApiError := api_error 404 "unknown_provider" "unknown provider".
Definition repo_not_added : ApiError := api_error 404 "repo_not_added" "repo not added".
Definition credential_error (e : string) : ApiError :=
  api_error 500 "credential_unavailable" ("credential fetch failed: " +:+ e).

(** ** What a request works with *)
Class Env {S : Serde} := {
  (** the control store's other users, whether its [n]th call reaches it, and the clock *)
  env_others : nat -> Store -> Store;
  env_available : nat -> bool;
  env_now : nat -> Z;
  (** upstream: its credentials, the encoding of a header's value, git, and [ls-refs] *)
  env_credentials : RepoId -> Result (option string);
  env_base64 : string -> string;
  env_git_ls_remote : list string -> string -> list string -> LsRemoteRun;
  env_ls_refs : string -> option (string * string) -> list string -> option string;
  env_origin_base : option string;
  (** the mirror's answer at the [n]th call *)
  env_is_ancestor : nat -> RepoId -> string -> string -> Result bool;
  (** the URLs the storage signs; the local artifacts by the path of their id, the
      hashes that check them, and the encoding of their bytes *)
  env_signed_url : string -> option string;
  env_local_objects : gmap string bytes;
  env_sha1 : bytes -> string;
  env_sha256 : bytes -> string;
  env_base64_bytes : bytes -> string;
}.
#[global] Arguments Env : clear implicits.

Section api.
Context {S : Serde} {En : Env S}.
Local Abbreviation Server := (Server S).

(** ** Requests *)
Definition Api (A : Type) : Type := Server -> Server * (A + Failure).
Definition aret {A} (x : A) : Api A := fun sv => (sv, inl x).
Definition refuse {A} (e : ApiError) : Api A := fun sv => (sv, inr (Refused e)).
Definition abind {A B} (m : Api A) (k : A -> Api B) : Api B := fun sv =>
  match m sv with (sv, inl x) => k x sv | (sv, inr e) => (sv, inr e) end.
Definition or_refuse {A} (mk : string -> ApiError) (m : Stateful Server A) : Api A := fun sv =>
  match m sv with (sv, Ok x) => (sv, inl x) | (sv, Err e) => (sv, inr (Refused (mk e))) end.
(** [expect]. *)
Definition expect {A} (o : option A) : Api A := fun sv => (sv, match o with Some x => inl x | None => inr Panicked end).
Notation "'let^' x := e 'in' k" := (abind e (fun x => k)) (at level 10, x pattern, e at level 200, k at level 200).

(** ** Calls of the control store *)
Definition call {A} (f : Z -> Store -> Store * Result A) : Stateful Server A := fun sv =>
  let n := sv_calls sv in
  let st := env_others n (sv_store sv) in
  let '(st, r) := if env_available n then f (env_now n) st else (st, Err "control store not reached") in
  ({| sv_store := st; sv_calls := (n + 1)%nat; sv_wakes := sv_wakes sv; sv_ancestry := sv_ancestry sv |}, r).
Definition query {A} (f : Store -> Result A) : Stateful Server A := call (fun _ st => (st, f st)).
Definition wake (p : Pool) : Stateful Server unit := fun sv =>
  ({| sv_store := sv_store sv; sv_calls := sv_calls sv; sv_wakes := sv_wakes sv ++ [p]; sv_ancestry := sv_ancestry sv |}, Ok tt).

Definition repo_is_added (repo : RepoId) : Api bool :=
  or_refuse control_unavailable (let! r := query (get_repo repo) in sret (bool_decide (is_Some r))).

(** ** Resolving *)
Definition resolve_repo_id (registry : gmap string ProviderInstance) (rest : string) : option (RepoId * ProviderInstance) :=
  match split_on "/" rest with
  | provider_id :: (_ :: _) as segments =>
      prov ← registry !! provider_id;
      Some ({| provider := pi_id prov; path := join_with "/" segments |}, prov)
  | _ => None
  end.
Definition repo_from_path (registry : gmap string ProviderInstance) (repo_path : string) : RepoId * ProviderInstance + ApiError :=
  match resolve_repo_id registry repo_path with
  | None => inr unknown_provider
  | Some (repo_id, prov) =>
      match validate_repo_path prov repo_id with
      | Ok _ => inl (repo_id, prov)
      | Err e => inr (invalid_request e)
      end
  end.

Record Resolved := { re_commit : string; re_checkout_name : option string; re_ref_name : option string }.
Definition UpstreamRefs_default : UpstreamRefs := {| ur_default_branch := None; ur_branches := []; ur_tags := [] |}.

Definition GitError_fmt (e : GitError) : string := match e with GUpstream e => error_message e | GOther m => m end.
Definition permanent (e : GitError) : bool := match e with GUpstream e => negb (ug_retryable e) | GOther _ => false end.
Definition resolve_listing (repo_id : RepoId) (prov : ProviderInstance) (selector : Selector) (refs : bool)
    : Api (Resolved * UpstreamRefs) :=
  let named name :=
    let^ credential := or_refuse credential_error (lift (env_credentials repo_id)) in
    let tip :=
      if refs && bool_decide (name = "HEAD")
      then ls_remote_refs env_base64 env_git_ls_remote prov repo_id credential env_origin_base
      else gbind (ls_remote_tip env_base64 env_git_ls_remote env_ls_refs prov repo_id name credential env_origin_base true)
             (fun tip => inl (tip, UpstreamRefs_default)) in
    match tip with
    | inl (Some tip, upstream_refs) =>
        let '(checkout_name, ref_name) :=
          match selector with
          | SHead =>
              let branch := option_filter (fun b => is_ok (validate_checkout_name b)) (tip_default_branch tip) in
              (branch, (fun b => "refs/heads/" +:+ b) <$> branch)
          | _ => (strip_prefix "refs/heads/" (tip_ref_name tip), Some (tip_ref_name tip))
          end in
        aret ({| re_commit := tip_commit tip; re_checkout_name := checkout_name; re_ref_name := ref_name |}, upstream_refs)
    | inl (None, _) => refuse (api_error 404 "ref_not_found" ("upstream ref not found: " +:+ name))
    | inr error =>
        refuse (if permanent error
                then api_error 404 "repo_not_found" ("upstream repository not found or not accessible: " +:+ GitError_fmt error)
                else api_error 502 "upstream_unavailable" ("upstream unavailable: " +:+ GitError_fmt error))
    end in
  match selector with
  | SCommit commit => aret ({| re_commit := commit; re_checkout_name := None; re_ref_name := None |}, UpstreamRefs_default)
  | SHead => named "HEAD"
  | SName name => named name
  end.
Definition resolve (repo_id : RepoId) (prov : ProviderInstance) (selector : Selector) : Api Resolved :=
  let^ (resolved, _) := resolve_listing repo_id prov selector false in aret resolved.

(** ** Rows *)
Definition exact_result_clonepack (info : RefInfo) (result : ExactResultKind) : option ClonepackArtifacts :=
  match result with
  | Head => hr_clonepack <$> ri_head info
  | Full => fr_clonepack <$> ri_full info
  | Files => fs_clonepack <$> ri_files info
  end.
Definition row_info (row : BuildRow) : RefInfo :=
  {| ri_commit := br_commit row; ri_head := Out_ready (br_head row); ri_full := Out_ready (br_full row);
     ri_files := Out_ready (br_files row) |}.
Definition erase {T} (o : Out T) : Out unit :=
  match o with Pending error => Pending error | Ready _ => Ready tt | Failed error => Failed error end.
Definition kind_state (row : BuildRow) (kind : ExactResultKind) : Out unit :=
  match kind with Head => erase (br_head row) | Full => erase (br_full row) | Files => erase (br_files row) end.
Definition is_failed {T} (o : Out T) : bool := match o with Failed _ => true | _ => false end.
Definition is_pending {T} (o : Out T) : bool := match o with Pending _ => true | _ => false end.
Definition is_done {T} (o : Out T) : bool := match o with Ready _ => true | _ => false end.

Definition output_state (o : Out unit) : Json :=
  match o with
  | Pending None => JObj [("state", JStr "pending")]
  | Pending (Some error) => JObj [("state", JStr "pending"); ("error", JStr error)]
  | Ready _ => JObj [("state", JStr "ready")]
  | Failed error => JObj [("state", JStr "failed"); ("error", JStr error)]
  end.
Definition build_summary_body (row : BuildRow) : Json :=
  JObj [("commit", JStr (br_commit row)); ("head", output_state (kind_state row Head));
        ("files", output_state (kind_state row Files)); ("full", output_state (kind_state row Full))].
(** The [/status] summary of a row. *)
Definition build_summary (row : BuildRow) : string * option string :=
  let states := [kind_state row Head; kind_state row Full; kind_state row Files] in
  if existsb is_pending states then ("pending", None)
  else
    match first_some (fun o => match o with Failed error => Some error | _ => None end) states with
    | Some error => ("failed", Some error)
    | None => ("done", None)
    end.

(** ** Admitting a build *)
Definition admit_build (repo_id : RepoId) (commit : string) (ref_name : option string) (retry_ : bool)
    : Stateful Server (BuildRow * bool) :=
  let! (row, inserted) := call (fun now st => Control.admit_build now repo_id commit ref_name st) in
  let failed := existsb (fun kind => is_failed (kind_state row kind)) [Head; Full; Files] in
  let! row :=
    if retry_ && failed
    then let! retried := call (fun _ st => retry repo_id commit st) in sret (default row retried)
    else sret row in
  let! _ := if is_pending (br_head row) then wake PHead else sret tt in
  let! _ := if is_pending (br_files row) then wake PFiles else sret tt in
  let! _ := if is_done (br_head row) && is_pending (br_full row) then wake PFull else sret tt in
  sret (row, inserted).

(** ** A ready output *)
Definition signed_url (hash : string) : option string := if bool_decide (hash = "") then None else env_signed_url hash.

Definition signed_list (hashes : list string) : option (list (option string)) :=
  if bool_decide (hashes = []) then None
  else
    let urls := map signed_url hashes in
    if forallb (fun u => bool_decide (u = None)) urls then None else Some urls.
(** The packs whose idx a clone downloads on its own. *)
Definition own_idx (info : RefInfo) (kind : ExactResultKind) : list string :=
  match kind with
  | Full =>
      match ri_full info with
      | Some full =>
          flat_map (fun level => map sp_idx (hl_packs level)) (fr_history_levels full)
          ++ omap (fun i => pa_idx <$> nget (fr_packs full) i)
               (match fr_own_history full with Some own => oh_head_packs own | None => [] end)
      | None => []
      end
  | Head => match ri_head info with Some head => map sp_idx (hr_levels head) | None => [] end
  | Files => []
  end.
Definition side_ref (side : SidePack) : SidePackRef :=
  {| sr_pack := side_pack side; sr_pack_len := side_pack_len side; sr_pack_url := signed_url (side_pack side);
     sr_idx := side_idx side; sr_idx_len := side_idx_len side; sr_idx_url := signed_url (side_idx side) |}.
(** What a response is built from once the output's artifacts are known. *)
Definition response (repo_id : RepoId) (prov : ProviderInstance) (row : BuildRow) (refs : option RepoRefs)
    (kind : ExactResultKind) (artifacts : ClonepackArtifacts) : RefResponse :=
  let info := row_info row in
  let archive_chunks := if kind_eqb kind Files then match ri_files info with Some files => fs_archive_chunks files | None => [] end else [] in
  let pack_artifacts :=
    match kind with
    | Head => match ri_head info with Some head => hr_packs head | None => [] end
    | Full => match ri_full info with Some full => fr_packs full | None => [] end
    | Files => []
    end in
  let own_idx := own_idx info kind in
  let pack_idx_urls :=
    if bool_decide (own_idx = []) then None
    else Some (map (fun p => if bool_decide (pa_idx p ∈ own_idx) then signed_url (pa_idx p) else None) pack_artifacts) in
  let '(owner, repo) := match github_owner_repo repo_id with Some p => p | None => (provider repo_id, path repo_id) end in
  let tagged := match refs with Some refs => if (0 <? tags_count refs)%N then Some refs else None | None => None end in
  {|
    rf_owner := owner;
    rf_repo := repo;
    rf_provider := pi_id prov;
    rf_host := pi_host prov;
    rf_origin_url := clone_url prov (path repo_id);
    rf_commit := ca_commit artifacts;
    rf_parent_commit := br_parent row;
    rf_clonepack_manifest := ca_manifest artifacts;
    rf_clonepack_manifest_url := signed_url (ca_manifest artifacts);
    rf_metadata_chunk := ca_metadata_chunk artifacts;
    rf_metadata_chunk_url := signed_url (ca_metadata_chunk artifacts);
    rf_metadata_delta := ca_metadata_delta artifacts;
    rf_metadata_delta_url := signed_url (ca_metadata_delta artifacts);
    rf_archive_chunk_urls := signed_list archive_chunks;
    rf_pack_chunk_urls := signed_list (map pa_pack pack_artifacts);
    rf_pack_idx_urls := option_filter (existsb (fun u => negb (bool_decide (u = None)))) pack_idx_urls;
    rf_midx_url := signed_url (ca_midx artifacts);
    rf_idx_bundle_url := signed_url (ca_idx_bundle artifacts);
    rf_tags_artifact := tags_artifact <$> tagged;
    rf_tags_artifact_url := refs ← tagged; signed_url (tags_artifact refs);
    rf_branches :=
      if kind_eqb kind Full then
        (fun b => {| bf_artifact := rb_artifact b; bf_artifact_url := signed_url (rb_artifact b);
                     bf_side_packs := map side_ref (rb_side_packs b) |}) <$> (refs ≫= branches)
      else None;
    rf_refs_base := None;
    rf_own_history := None;
    rf_kind := kind;
    rf_inline := ∅;
  |}.
Definition ref_response (repo_id : RepoId) (prov : ProviderInstance) (row : BuildRow) (refs : option RepoRefs)
    (kind : ExactResultKind) : Api RefResponse :=
  let^ artifacts := expect (exact_result_clonepack (row_info row) kind) in
  aret (response repo_id prov row refs kind artifacts).

(** *** Ancestry in the mirror *)
Definition ANCESTRY_MAX : nat := 4096.
Definition ancestry_key (repo_id : RepoId) (base commit : string) : string :=
  storage_key repo_id +:+ " " +:+ base +:+ " " +:+ commit.
(** [Ancestry::cell]. *)
Definition ancestry_cell (key : string) (m : gmap string (option bool)) : gmap string (option bool) :=
  let m := if (ANCESTRY_MAX <=? size m)%nat && negb (bool_decide (is_Some (m !! key))) then ∅ else m in
  match m !! key with Some _ => m | None => <[key := None]> m end.
Definition set_ancestry (m : gmap string (option bool)) (sv : Server) : Server :=
  {| sv_store := sv_store sv; sv_calls := sv_calls sv; sv_wakes := sv_wakes sv; sv_ancestry := m |}.
Definition in_history (repo_id : RepoId) (base commit : string) : Api bool := fun sv =>
  let key := ancestry_key repo_id base commit in
  let m := ancestry_cell key (sv_ancestry sv) in
  match m !! key with
  | Some (Some answer) => (set_ancestry m sv, inl answer)
  | _ =>
      match env_is_ancestor (sv_calls sv) repo_id base commit with
      | Ok answer => (set_ancestry (<[key := Some answer]> m) sv, inl answer)
      | Err _ => (set_ancestry m sv, inl false)
      end
  end.

Definition own_history_ref (own : OwnHistory) : OwnHistoryRef :=
  {| ow_packs := map (fun p => {| sr_pack := sp_pack p; sr_pack_len := sp_pack_len p; sr_pack_url := signed_url (sp_pack p);
                                  sr_idx := sp_idx p; sr_idx_len := sp_idx_len p; sr_idx_url := signed_url (sp_idx p) |}) (oh_packs own);
     ow_head_packs := oh_head_packs own |}.
Definition own_history (repo_id : RepoId) (row : BuildRow) (base : string) : Api (option OwnHistoryRef) :=
  match (full ← Out_ready (br_full row); fr_own_history full) with
  | None => aret None
  | Some own =>
      let^ held := if bool_decide (oh_base own = base) then aret true else in_history repo_id (oh_base own) base in
      aret (if (held : bool) then Some (own_history_ref own) else None)
  end.

(** *** Small artifacts *)
Definition INLINE_MAX : N := N.shiftl 32 10.
Definition INLINE_TOTAL : N := N.shiftl 64 10.
(** [Cas::get_small]. *)
Definition get_small (hash : string) (max_len : N) : option bytes :=
  _ ← ok (validate_cas_id hash);
  data ← env_local_objects !! hash;
  if (max_len <? nlen data)%N then None
  else
    h ← ok (hash_bytes_for_object_id env_sha1 env_sha256 hash data);
    if bool_decide (h = hash) then Some data else None.
Fixpoint small_artifacts (total : N) (hashes : list string) : list (string * bytes) :=
  match hashes with
  | [] => []
  | hash :: hashes =>
      match get_small hash INLINE_MAX with
      | None => small_artifacts total hashes
      | Some data =>
          let total := (total + nlen data)%N in
          if (INLINE_TOTAL <? total)%N then [] else (hash, data) :: small_artifacts total hashes
      end
  end.
Definition set_inline (m : gmap string string) (r : RefResponse) : RefResponse :=
  {| rf_owner := rf_owner r; rf_repo := rf_repo r; rf_provider := rf_provider r; rf_host := rf_host r;
     rf_origin_url := rf_origin_url r; rf_commit := rf_commit r; rf_parent_commit := rf_parent_commit r;
     rf_clonepack_manifest := rf_clonepack_manifest r; rf_clonepack_manifest_url := rf_clonepack_manifest_url r;
     rf_metadata_chunk := rf_metadata_chunk r; rf_metadata_chunk_url := rf_metadata_chunk_url r;
     rf_metadata_delta := rf_metadata_delta r; rf_metadata_delta_url := rf_metadata_delta_url r;
     rf_archive_chunk_urls := rf_archive_chunk_urls r; rf_pack_chunk_urls := rf_pack_chunk_urls r;
     rf_pack_idx_urls := rf_pack_idx_urls r; rf_midx_url := rf_midx_url r; rf_idx_bundle_url := rf_idx_bundle_url r;
     rf_tags_artifact := rf_tags_artifact r; rf_tags_artifact_url := rf_tags_artifact_url r;
     rf_branches := rf_branches r; rf_refs_base := rf_refs_base r; rf_own_history := rf_own_history r;
     rf_kind := rf_kind r; rf_inline := m |}.
Definition set_refs_base (base : option RefResponse) (own : option OwnHistoryRef) (r : RefResponse) : RefResponse :=
  {| rf_owner := rf_owner r; rf_repo := rf_repo r; rf_provider := rf_provider r; rf_host := rf_host r;
     rf_origin_url := rf_origin_url r; rf_commit := rf_commit r; rf_parent_commit := rf_parent_commit r;
     rf_clonepack_manifest := rf_clonepack_manifest r; rf_clonepack_manifest_url := rf_clonepack_manifest_url r;
     rf_metadata_chunk := rf_metadata_chunk r; rf_metadata_chunk_url := rf_metadata_chunk_url r;
     rf_metadata_delta := rf_metadata_delta r; rf_metadata_delta_url := rf_metadata_delta_url r;
     rf_archive_chunk_urls := rf_archive_chunk_urls r; rf_pack_chunk_urls := rf_pack_chunk_urls r;
     rf_pack_idx_urls := rf_pack_idx_urls r; rf_midx_url := rf_midx_url r; rf_idx_bundle_url := rf_idx_bundle_url r;
     rf_tags_artifact := rf_tags_artifact r; rf_tags_artifact_url := rf_tags_artifact_url r;
     rf_branches := rf_branches r; rf_refs_base := base; rf_own_history := own;
     rf_kind := rf_kind r; rf_inline := rf_inline r |}.
Definition inline_small (r : RefResponse) : RefResponse :=
  let hashes := List.filter (fun h => negb (bool_decide (h = "")))
    [rf_clonepack_manifest r; rf_metadata_chunk r; rf_metadata_delta r] in
  set_inline (foldl (fun m '(hash, data) => <[hash := env_base64_bytes data]> m) (rf_inline r) (small_artifacts 0 hashes)) r.

(** *** The response, with the refs as of now *)
(** The ready branches with the tags of their own refresh. *)
Definition ready_refs (stored : RepoRefs) : option RepoRefs :=
  (fun b => {| tags_artifact := pt_artifact (rb_tags b); tags_len := pt_len (rb_tags b); tags_count := pt_count (rb_tags b);
               tags_hash := pt_hash (rb_tags b); branches := Some b; ready_ := None |}) <$> ready_ stored.
Definition newer (row base : BuildRow) : bool :=
  bool_decide (is_Some (br_ref_name row)) && bool_decide (br_ref_name row = br_ref_name base) && (br_seq base <? br_seq row)%Z.
(** The loop over the refs to serve; [result] is the response so far. *)
Fixpoint serve_refs (respond : BuildRow -> option RepoRefs -> Api RefResponse) (repo_id : RepoId) (row : BuildRow)
    (result : RefResponse) (candidates : list RepoRefs) : Api RefResponse :=
  match candidates with
  | [] => aret result
  | served :: candidates =>
      match branches served ≫= rb_base with
      | None => serve_refs respond repo_id row result candidates
      | Some base =>
          let^ held := if bool_decide (base = br_commit row) then aret true else in_history repo_id base (br_commit row) in
          if (held : bool) then respond row (Some served)
          else
            let^ base := or_refuse control_unavailable (query (status repo_id base)) in
            match base with
            | Some base =>
                if newer row base then aret result
                else if is_done (br_full base) then
                  let^ result := respond row (Some served) in
                  let^ own := own_history repo_id row (br_commit base) in
                  let^ base := respond base (Some served) in
                  aret (set_refs_base (Some base) own result)
                else serve_refs respond repo_id row result candidates
            | None => serve_refs respond repo_id row result candidates
            end
      end
  end.
Definition get_refs_or_none (repo_id : RepoId) : Api (option RepoRefs) := fun sv =>
  match query (get_refs repo_id) sv with (sv, Ok refs) => (sv, inl refs) | (sv, Err _) => (sv, inl None) end.
Definition ready_response (repo_id : RepoId) (prov : ProviderInstance) (row : BuildRow) (kind : ExactResultKind) : Api RefResponse :=
  let^ refs := get_refs_or_none repo_id in
  let respond row refs := ref_response repo_id prov row refs kind in
  let^ result := respond row refs in
  let^ result :=
    match refs with
    | Some stored =>
        if kind_eqb kind Full then serve_refs respond repo_id row result (stored :: option_list (ready_refs stored)) else aret result
    | None => aret result
    end in
  let result := inline_small result in
  aret (set_refs_base (inline_small <$> rf_refs_base result) (rf_own_history result) result).
Definition ready_body (repo_id : RepoId) (prov : ProviderInstance) (row : BuildRow) (kind : ExactResultKind) : Api Json :=
  let^ result := ready_response repo_id prov row kind in aret (ReadyBody_json result).

(** ** A pending output *)
Definition top_up_base (repo_id : RepoId) (row : BuildRow) : Api (option BuildRow) :=
  let^ latest :=
    match br_ref_name row with
    | Some ref_name => let^ latest := or_refuse control_unavailable (query (latest_ready_full repo_id ref_name)) in aret (fst <$> latest)
    | None => aret None
    end in
  match (match latest with Some c => Some c | None => br_parent row end) with
  | None => aret None
  | Some base_commit =>
      let^ base := or_refuse control_unavailable (query (status repo_id base_commit)) in
      aret (option_filter (fun base => is_done (br_full base)) base)
  end.
Definition pending_body (repo_id : RepoId) (prov : ProviderInstance) (row : BuildRow) (kind : ExactResultKind)
    (error : option string) : Api Json :=
  let^ base := if kind_eqb kind Full then top_up_base repo_id row else aret None in
  match option_filter (fun base => bool_decide (br_commit base = br_commit row)) base with
  | Some base => ready_body repo_id prov base kind
  | None =>
      let body := JObj [("state", JStr "pending"); ("commit", JStr (br_commit row)); ("kind", kind_json kind);
                        ("attempts", JNum (l_attempts (BuildRow_lease row kind)))] in
      let body := match error with Some error => index_set "error" (JStr error) body | None => body end in
      match base with
      | Some base =>
          let^ ready := ready_body repo_id prov base Full in
          aret (index_set "top_up" (JObj [("base_commit", JStr (br_commit base)); ("base", ready)]) body)
      | None => aret body
      end
  end.
Definition output_body (repo_id : RepoId) (prov : ProviderInstance) (row : BuildRow) (kind : ExactResultKind) : Api Json :=
  match kind_state row kind with
  | Ready _ => ready_body repo_id prov row kind
  | Failed error =>
      aret (JObj [("state", JStr "failed"); ("commit", JStr (br_commit row)); ("kind", kind_json kind); ("error", JStr error)])
  | Pending error => pending_body repo_id prov row kind error
  end.

(** ** The handlers *)
Definition get_commit (repo_id : RepoId) (prov : ProviderInstance) (commit : string) (kind : option ExactResultKind) : Api Json :=
  let^ _ := or_refuse (fun e => api_error 400 "invalid_commit" e) (lift (validate_object_id commit)) in
  let^ row := or_refuse control_unavailable (query (status repo_id commit)) in
  match row with
  | None => refuse (api_error 404 "build_not_found" ("no build for commit " +:+ commit))
  | Some row =>
      match kind with
      | None => aret (build_summary_body row)
      | Some kind => output_body repo_id prov row kind
      end
  end.
Definition admit_resolved (repo_id : RepoId) (resolved : Resolved) (retry_ : bool)
    (output : option (ProviderInstance * ExactResultKind)) : Api Json :=
  let^ (row, _) := or_refuse control_unavailable (admit_build repo_id (re_commit resolved) (re_ref_name resolved) retry_) in
  let body := index_set "checkout_name" (json_opt JStr (re_checkout_name resolved)) (build_summary_body row) in
  let body :=
    match re_ref_name resolved ≫= strip_prefix "refs/tags/" with
    | Some tag => index_set "tag" (JStr tag) body
    | None => body
    end in
  match output with
  | Some (prov, kind) => let^ output := output_body repo_id prov row kind in aret (index_set "output" output body)
  | None => aret body
  end.
Record BuildRequest := { bq_selector : string; bq_retry : bool; bq_kind : option ExactResultKind }.
Definition post_build (repo_id : RepoId) (prov : ProviderInstance) (request : BuildRequest) : Api Json :=
  let^ selector := or_refuse (fun e => api_error 400 "invalid_selector" e) (lift (Selector_parse (bq_selector request))) in
  let^ added := repo_is_added repo_id in
  if negb added then refuse repo_not_added
  else
    let^ resolved := resolve repo_id prov selector in
    admit_resolved repo_id resolved (bq_retry request) ((fun kind => (prov, kind)) <$> bq_kind request).
Definition add_repo (repo_id : RepoId) (prov : ProviderInstance) (owner : option string) : Api Json :=
  let^ resolved := resolve repo_id prov SHead in
  let^ _ := or_refuse control_unavailable (call (fun now st => Control.add_repo now repo_id owner st)) in
  admit_resolved repo_id resolved true None.
Definition remove_added_repo (repo_id : RepoId) : Api unit :=
  let^ removed := or_refuse control_unavailable (call (fun _ st => remove_repo repo_id st)) in
  if (removed : bool) then aret tt else refuse repo_not_added.
End api.
