(* ===== verification/ApiThms.v ===== *)
(** What the [/v1/repos] routes promise ([Api.v]): whatever else happens to the
    control store between a request's calls, its answer is read by a client as the
    state of the output asked for, and a ready one is of that commit and kind. *)

From S2P Require Import Prelude Provider Validation Outputs Cas Control ControlInv ControlThms Refs LsRemote Wire Api.

Section thms.
Context {S : Serde} {SOk : SerdeOk S} (cfg : StoreConfig) (Hmax : (1 <= max_attempts cfg)%Z).
Local Abbreviation Server := (Server S).

(** The columns hold unsigned 64-bit numbers, as the types they are read as. *)
Record SerdeBounds : Prop := {
  sb_branches j b : branches_of_json j = Ok b ->
    forall s, s ∈ rb_side_packs b -> (side_pack_len s <= u64_max)%N /\ (side_idx_len s <= u64_max)%N;
  sb_full j f : full_of_json j = Ok f -> forall own, fr_own_history f = Some own ->
    (forall p, p ∈ oh_packs own -> (sp_pack_len p <= u64_max)%N /\ (sp_idx_len p <= u64_max)%N) /\
    (forall i, i ∈ oh_head_packs own -> (i <= u64_max)%N);
}.
Context (Hbounds : SerdeBounds).

Definition later (st st' : Store) : Prop := rtc (step cfg) st st'.
#[local] Instance later_preorder : PreOrder later.
Proof. exact rtc_po. Qed.
Lemma later_reachable st st' : reachable cfg st -> later st st' -> reachable cfg st'.
Proof. unfold reachable, later. intros H H'. by etransitivity. Qed.
Lemma reachable_ok st : reachable cfg st -> store_ok cfg st.
Proof. by apply reachable_store_ok. Qed.

(** Other requests and the workers take steps of the control store, and the mirror
    answers ancestry truthfully, of SHA-1 ids. *)
Class EnvOk (En : Env S) (ancestor : RepoId -> string -> string -> Prop) : Prop := {
  ok_others n st : later st (env_others n st);
  ok_ancestor n repo base commit : env_is_ancestor n repo base commit = Ok true ->
    String.length base = 40 /\ String.length commit = 40 /\ ancestor repo base commit;
}.
Context {En : Env S} {ancestor : RepoId -> string -> string -> Prop} {EOk : EnvOk En ancestor}.

(** Every cached yes is the truth. *)
Definition cache_ok (m : gmap string (option bool)) : Prop :=
  forall key, m !! key = Some (Some true) ->
  exists repo base commit, key = ancestry_key repo base commit /\ repo_ok repo /\
    String.length base = 40 /\ String.length commit = 40 /\ ancestor repo base commit.
Record server_ok (sv : Server) : Prop := {
  so_reachable : reachable cfg (sv_store sv);
  so_cache : cache_ok (sv_ancestry sv);
}.

(** ** Requests

    [aspec st m Q]: run by a server whose store is [st] or a later one, [m] panics
    never, refuses with an error's status, and a value it answers with is one of [Q] in the store it leaves. *)
Class Refuses (e : ApiError) : Prop := refuses : (400 <= ae_status e)%N.
Class RefusesAll (mk : string -> ApiError) : Prop := refuses_all e : Refuses (mk e).
#[local] Hint Extern 0 (Refuses _) => (apply N.leb_le; reflexivity) : typeclass_instances.
#[local] Hint Extern 0 (RefusesAll _) => (intros ?; apply N.leb_le; reflexivity) : typeclass_instances.
Definition aspec {A} (st : Store) (m : Api A) (Q : Store -> A -> Prop) : Prop :=
  forall sv, server_ok sv -> later st (sv_store sv) ->
  match m sv with
  | (sv', inl x) => server_ok sv' /\ later (sv_store sv) (sv_store sv') /\ Q (sv_store sv') x
  | (sv', inr (Refused e)) => server_ok sv' /\ later (sv_store sv) (sv_store sv') /\ Refuses e
  | (_, inr Panicked) => False
  end.
Definition cspec {A} (st : Store) (m : Stateful Server A) (Q : Store -> A -> Prop) : Prop :=
  forall sv, server_ok sv -> later st (sv_store sv) ->
  match m sv with
  | (sv', Ok x) => server_ok sv' /\ later (sv_store sv) (sv_store sv') /\ Q (sv_store sv') x
  | (sv', Err _) => server_ok sv' /\ later (sv_store sv) (sv_store sv')
  end.

Lemma aspec_ret {A} st (x : A) (Q : Store -> A -> Prop) : (forall st', later st st' -> Q st' x) -> aspec st (aret x) Q.
Proof. intros H sv Hsv Hst. split; [done|]. split; [reflexivity|]. by apply H. Qed.
Lemma aspec_refuse {A} st e (Q : Store -> A -> Prop) : Refuses e -> aspec st (refuse e) Q.
Proof. intros Hr sv Hsv Hst. cbn. split; [done|]. split; [reflexivity|exact Hr]. Qed.
Lemma aspec_bind {A B} st (m : Api A) (k : A -> Api B) Q R :
  aspec st m Q -> (forall st' x, later st st' -> Q st' x -> aspec st' (k x) R) -> aspec st (abind m k) R.
Proof.
  intros Hm Hk sv Hsv Hst. unfold abind. specialize (Hm sv Hsv Hst).
  destruct (m sv) as [sv' [x|[e|]]]; [|exact Hm|exact Hm]. destruct Hm as (Hsv' & Hl & Hx).
  assert (Hst' : later st (sv_store sv')) by (by transitivity (sv_store sv)).
  specialize (Hk (sv_store sv') x Hst' Hx sv' Hsv' ltac:(reflexivity)).
  destruct (k x sv') as [sv2 [y|[e|]]]; [| |exact Hk];
    (destruct Hk as (H1 & H2 & H3); split; [exact H1|]; split; [by etransitivity|exact H3]).
Qed.
Lemma aspec_weaken {A} st (m : Api A) (Q R : Store -> A -> Prop) :
  aspec st m Q -> (forall st' x, later st st' -> Q st' x -> R st' x) -> aspec st m R.
Proof.
  intros Hm H sv Hsv Hst. specialize (Hm sv Hsv Hst). destruct (m sv) as [sv' [x|[e|]]]; [|exact Hm|exact Hm].
  destruct Hm as (H1 & H2 & H3). split; [exact H1|]. split; [exact H2|]. apply H; [by transitivity (sv_store sv)|exact H3].
Qed.
Lemma aspec_later {A} st st' (m : Api A) Q : later st st' -> aspec st m Q -> aspec st' m Q.
Proof. intros Hl Hm sv Hsv Hst. apply Hm; [done|by transitivity st']. Qed.
Lemma aspec_expect {A} st (o : option A) x (Q : Store -> A -> Prop) :
  o = Some x -> (forall st', later st st' -> Q st' x) -> aspec st (expect o) Q.
Proof. intros -> H. by apply aspec_ret. Qed.
Lemma aspec_or_refuse {A} st mk (m : Stateful Server A) Q `{Hr : !RefusesAll mk} : cspec st m Q -> aspec st (or_refuse mk m) Q.
Proof.
  intros Hm sv Hsv Hst. unfold or_refuse. specialize (Hm sv Hsv Hst). destruct (m sv) as [sv' [x|e]]; [exact Hm|].
  destruct Hm as [H1 H2]. split; [exact H1|]. split; [exact H2|apply Hr].
Qed.
#[local] Ltac refusal := apply aspec_refuse; apply _.
#[local] Tactic Notation "refusing" uconstr(t) := apply aspec_or_refuse; [apply _|apply t].
Lemma cspec_lift {A} st (r : Result A) (Q : Store -> A -> Prop) : (forall x, r = Ok x -> forall st', later st st' -> Q st' x) -> cspec st (lift r) Q.
Proof. intros H sv Hsv Hst. unfold lift. destruct r as [x|e]; (split; [done|]); [split; [reflexivity|]; by apply H|reflexivity]. Qed.
Lemma cspec_weaken {A} st (m : Stateful Server A) (Q R : Store -> A -> Prop) :
  cspec st m Q -> (forall st' x, later st st' -> Q st' x -> R st' x) -> cspec st m R.
Proof.
  intros Hm H sv Hsv Hst. specialize (Hm sv Hsv Hst). destruct (m sv) as [sv' [x|e]]; [|exact Hm].
  destruct Hm as (H1 & H2 & H3). split; [exact H1|]. split; [exact H2|]. apply H; [by transitivity (sv_store sv)|exact H3].
Qed.
Lemma cspec_ret {A} st (x : A) (Q : Store -> A -> Prop) : (forall st', later st st' -> Q st' x) -> cspec st (sret x) Q.
Proof. intros H sv Hsv Hst. split; [done|]. split; [reflexivity|]. by apply H. Qed.
Lemma cspec_bind {A B} st (m : Stateful Server A) (k : A -> Stateful Server B) Q R :
  cspec st m Q -> (forall st' x, later st st' -> Q st' x -> cspec st' (k x) R) -> cspec st (sbind m k) R.
Proof.
  intros Hm Hk sv Hsv Hst. unfold sbind. specialize (Hm sv Hsv Hst). destruct (m sv) as [sv' [x|e]]; [|exact Hm].
  destruct Hm as (Hsv' & Hl & Hx). assert (Hst' : later st (sv_store sv')) by (by transitivity (sv_store sv)).
  specialize (Hk (sv_store sv') x Hst' Hx sv' Hsv' ltac:(reflexivity)).
  destruct (k x sv') as [sv2 [y|e]]; [|destruct Hk as [H1 H2]; split; [exact H1|by etransitivity]].
  destruct Hk as (H1 & H2 & H3). split; [exact H1|]. split; [by etransitivity|exact H3].
Qed.

(** A call finds the store as the others left it. *)
Lemma cspec_call {A} st (f : Z -> Store -> Store * Result A) :
  (forall now st1, later st1 (f now st1).1) ->
  cspec st (call f) (fun st' x => exists now st1, later st st1 /\ reachable cfg st1 /\ f now st1 = (st', Ok x)).
Proof.
  intros Hf sv [Hr Hc] Hst. unfold call. set (st1 := env_others (sv_calls sv) (sv_store sv)).
  assert (Hl : later (sv_store sv) st1) by apply ok_others. assert (Hr1 : reachable cfg st1) by (by eapply later_reachable).
  destruct (env_available (sv_calls sv)).
  - specialize (Hf (env_now (sv_calls sv)) st1). destruct (f (env_now (sv_calls sv)) st1) as [st2 r] eqn:E. cbn in Hf.
    assert (Hr2 : reachable cfg st2) by (by eapply later_reachable).
    assert (Hl2 : later (sv_store sv) st2) by (by transitivity st1).
    destruct r as [x|e]; (split; [by split|]); cbn; [split; [done|]|done].
    exists (env_now (sv_calls sv)), st1. split_and!; [by transitivity (sv_store sv)|done|done].
  - cbn. split; [by split|done].
Qed.
Lemma cspec_query {A} st (f : Store -> Result A) :
  cspec st (query f) (fun st' x => reachable cfg st' /\ f st' = Ok x).
Proof.
  intros sv Hsv Hst. pose proof (cspec_call st (fun _ st => (st, f st)) ltac:(intros; reflexivity) sv Hsv Hst) as H.
  unfold query. destruct (call _ sv) as [sv' [x|e]]; [|exact H]. destruct H as (H1 & H2 & n & st1 & H3 & H4 & H5).
  injection H5 as E1 E2. split; [exact H1|]. split; [exact H2|]. rewrite <- E1. done.
Qed.
Lemma cspec_wake st p : cspec st (wake p) (fun _ _ => True).
Proof. intros sv [Hr Hc] Hst. cbn. split; [by split|]. done. Qed.

(** ** Rows *)
Definition seen (lo hi : Store) (repo : RepoId) (commit : string) (row : BuildRow) : Prop :=
  exists st r, later lo st /\ later st hi /\ reachable cfg st /\ r ∈ builds st /\ row_key r = (storage_key repo, commit) /\
    decode_build r = Ok row.
Lemma seen_mono lo lo' hi hi' repo commit row : later lo' lo -> later hi hi' -> seen lo hi repo commit row -> seen lo' hi' repo commit row.
Proof.
  intros Hlo Hhi (st & r & H1 & H2 & H). exists st, r. split; [by transitivity lo|]. split; [by transitivity hi|done].
Qed.

Lemma done_clonepack row k : is_done (kind_state row k) = true <-> exists a, exact_result_clonepack (row_info row) k = Some a.
Proof.
  destruct k; cbn; [destruct (br_head row)|destruct (br_full row)|destruct (br_files row)]; cbn; naive_solver.
Qed.
Lemma row_exact st r row k a :
  reachable cfg st -> r ∈ builds st -> decode_build r = Ok row -> exact_result_clonepack (row_info row) k = Some a ->
  exact_output_artifacts_ready (r_commit_id r) k a = true.
Proof.
  intros Hst Hr Hrow Ha. pose proof (row_is_ok _ _ _ (reachable_ok _ Hst) Hr) as Hok.
  destruct (decode_build_ok cfg r Hok) as (row' & Hrow' & _ & _ & Hh & Hfi & Hfu). rewrite Hrow in Hrow'. injection Hrow' as <-.
  pose proof (fun Hk => reachable_publishable cfg st r k Hst Hr Hk) as Hp.
  destruct k; cbn in Ha, Hp.
  - destruct (Out_ready (br_head row)) as [x|]; [|done]. injection Ha as <-.
    destruct (proj1 (Hh x) eq_refl) as (Hk & j & Hj & Hx). destruct (Hp Hk) as (o & d & Hd & Ho & Hkind & He).
    destruct o as [y p|y|y]; [|done..]. rewrite Hj in Hd. injection Hd as ->. cbn in Ho, He. apply head_json in Ho. congruence.
  - destruct (Out_ready (br_full row)) as [x|]; [|done]. injection Ha as <-.
    destruct (proj1 (Hfu x) eq_refl) as (Hk & j & Hj & Hx). destruct (Hp Hk) as (o & d & Hd & Ho & Hkind & He).
    destruct o as [y p|y|y]; [done..|]. rewrite Hj in Hd. injection Hd as ->. cbn in Ho, He. apply full_json in Ho. congruence.
  - destruct (Out_ready (br_files row)) as [x|]; [|done]. injection Ha as <-.
    destruct (proj1 (Hfi x) eq_refl) as (Hk & j & Hj & Hx). destruct (Hp Hk) as (o & d & Hd & Ho & Hkind & He).
    destruct o as [y p|y|y]; [done| |done]. rewrite Hj in Hd. injection Hd as ->. cbn in Ho, He. apply files_json in Ho. congruence.
Qed.
(** A row is its commit's, and its ready outputs are exact. *)
Lemma seen_ok lo hi repo commit row : seen lo hi repo commit row ->
  br_commit row = commit /\ validate_object_id commit = Ok tt /\
  (forall k a, exact_result_clonepack (row_info row) k = Some a -> exact_output_artifacts_ready commit k a = true) /\
  (forall full own, Out_ready (br_full row) = Some full -> fr_own_history full = Some own ->
    (forall p, p ∈ oh_packs own -> (sp_pack_len p <= u64_max)%N /\ (sp_idx_len p <= u64_max)%N) /\
    (forall i, i ∈ oh_head_packs own -> (i <= u64_max)%N)).
Proof.
  intros (st & r & _ & _ & Hst & Hr & Hkey & Hrow). pose proof (row_is_ok _ _ _ (reachable_ok _ Hst) Hr) as Hok.
  destruct (decode_build_ok cfg r Hok) as (row' & Hrow' & Hc & _ & _ & _ & Hfu). rewrite Hrow in Hrow'. injection Hrow' as <-.
  assert (E : r_commit_id r = commit) by (by apply (f_equal snd) in Hkey). split; [congruence|].
  split; [rewrite <- E; by apply row_commit in Hok|]. split.
  - intros k a Ha. rewrite <- E. by eapply row_exact.
  - intros full own Hf Ho. apply Hfu in Hf as (_ & j & _ & Hj). by eapply (sb_full Hbounds).
Qed.
Lemma status_seen st repo commit :
  cspec st (query (status repo commit))
    (fun st' o => forall row, o = Some row -> seen st st' repo commit row).
Proof.
  intros sv Hsv Hst. pose proof (cspec_query st (status repo commit) sv Hsv Hst) as H.
  destruct (query _ sv) as [sv' [o|e]]; [|exact H]. destruct H as (H1 & H2 & H3 & H4).
  split; [exact H1|]. split; [exact H2|]. intros row ->. unfold status, select_build in H4.
  destruct (find_build (storage_key repo) commit (sv_store sv')) as [r|] eqn:E; [|done].
  apply find_build_row in E as [Hr Hkey]. destruct (decode_build r) as [b|] eqn:Eb; [|done]. cbn in H4. injection H4 as ->.
  exists (sv_store sv'), r. split_and!; [by transitivity (sv_store sv)|reflexivity|done|done|done|done].
Qed.

(** ** Ancestry *)
Lemma string_app_same_length (s s' t t' : string) : String.length t = String.length t' -> s +:+ t = s' +:+ t' -> s = s' /\ t = t'.
Proof.
  intros Hl. revert s'. induction s as [|a s IH]; intros [|b s'] H; cbn in H.
  - done.
  - exfalso. apply (f_equal String.length) in H. cbn in H. rewrite str_length_app in H. lia.
  - exfalso. apply (f_equal String.length) in H. cbn in H. rewrite str_length_app in H. lia.
  - injection H as -> H. destruct (IH s' H) as [-> ->]. done.
Qed.
Lemma ancestry_key_inj r r' b b' c c' : String.length b = 40 -> String.length b' = 40 -> String.length c = 40 -> String.length c' = 40 ->
  ancestry_key r b c = ancestry_key r' b' c' -> storage_key r = storage_key r' /\ b = b' /\ c = c'.
Proof.
  intros Hb Hb' Hc Hc' H. unfold ancestry_key in H.
  assert (H' : storage_key r +:+ (" " +:+ b +:+ " " +:+ c) = storage_key r' +:+ (" " +:+ b' +:+ " " +:+ c')) by exact H.
  apply string_app_same_length in H' as [-> H']; [|cbn; rewrite !str_length_app; cbn; lia].
  assert (H2 : (" " +:+ b) +:+ (" " +:+ c) = (" " +:+ b') +:+ (" " +:+ c')) by exact H'.
  apply string_app_same_length in H2 as [H2 H3]; [|cbn; lia]. cbn in H2, H3. by simplify_eq.
Qed.
Lemma cache_ok_cell key m : cache_ok m -> cache_ok (ancestry_cell key m).
Proof.
  intros H. unfold ancestry_cell. set (m' := if _ && _ then ∅ else m).
  assert (H' : cache_ok m') by (unfold m'; case_match; [intros k Hk; by rewrite lookup_empty in Hk|done]).
  destruct (m' !! key); [done|]. intros k [[_ ?]|[_ Hk]]%lookup_insert_Some; [done|by apply H'].
Qed.
(** A yes is the truth, when the ids are SHA-1. *)
Lemma in_history_spec st repo base commit :
  repo_ok repo ->
  aspec st (in_history repo base commit) (fun _ held => (held : bool) = true -> String.length base = 40 -> String.length commit = 40 ->
    ancestor repo base commit).
Proof.
  intros Hrepo sv [Hr Hc] Hst. unfold in_history. set (key := ancestry_key repo base commit).
  pose proof (cache_ok_cell key _ Hc) as Hc'. set (m := ancestry_cell key (sv_ancestry sv)) in *.
  destruct (m !! key) as [[answer|]|] eqn:Em.
  { split; [by split|]. split; [reflexivity|]. intros -> Hb Hcm. apply Hc' in Em as (r & b & c & Hk & Hro & Hlb & Hlc & Ha).
    apply ancestry_key_inj in Hk as (Hk & -> & ->); [|done..]. by apply storage_key_inj in Hk as ->. }
  all: destruct (env_is_ancestor (sv_calls sv) repo base commit) as [answer|e] eqn:Ea; [|by split; [split|]].
  all: pose proof (fun H => ok_ancestor _ _ _ _ (eq_trans Ea (f_equal Ok H))) as Htrue.
  all: split; [|split; [reflexivity|]; intros -> _ _; by destruct (Htrue eq_refl) as (_ & _ & ?)].
  all: split; [done|]; cbn; intros k [[<- [= ->]]|[_ Hk]]%lookup_insert_Some; [|by apply Hc'].
  all: destruct (Htrue eq_refl) as (? & ? & ?); by exists repo, base, commit.
Qed.

(** ** Responses *)
Definition id40 (s : string) : Prop := String.length s = 40.
(** The own history sent for a base: the one built against it or a commit in its
    history. *)
Definition own_for (repo : RepoId) (row : BuildRow) (base : string) (o : option OwnHistoryRef) : Prop :=
  forall w, o = Some w -> exists full own, Out_ready (br_full row) = Some full /\ fr_own_history full = Some own /\ w = own_history_ref own /\
    (oh_base own = base \/ (id40 (oh_base own) -> id40 base -> ancestor repo (oh_base own) base)).
Lemma own_history_spec st repo row base : repo_ok repo ->
  aspec st (own_history repo row base) (fun _ o => own_for repo row base o).
Proof.
  intros Hrepo. unfold own_history. destruct (Out_ready (br_full row)) as [full|] eqn:Ef; cbn [mbind option_bind]; [|by apply aspec_ret].
  destruct (fr_own_history full) as [own|] eqn:Eo; [|by apply aspec_ret].
  eapply aspec_bind with (Q := fun _ held => (held : bool) = true ->
    oh_base own = base \/ (id40 (oh_base own) -> id40 base -> ancestor repo (oh_base own) base)).
  - case_bool_decide as Eb; [apply aspec_ret; auto|]. eapply aspec_weaken; [by apply in_history_spec|]. auto.
  - intros st' held _ Hheld. apply aspec_ret. intros st2 _ w. destruct held; [|done]. intros [= <-]. exists full, own. auto.
Qed.

(** The refs a response names: those stored at some time of the request, or the ones
    kept as ready, with the tags of their own refresh. *)
Definition published (lo hi : Store) (repo : RepoId) (served : RepoRefs) : Prop :=
  exists st stored, later lo st /\ later st hi /\ reachable cfg st /\ get_refs repo st = Ok (Some stored) /\
    (served = stored \/ ready_refs stored = Some served).
Lemma published_mono lo lo' hi hi' repo served : later lo' lo -> later hi hi' -> published lo hi repo served -> published lo' hi' repo served.
Proof.
  intros Hlo Hhi (st & stored & H1 & H2 & H). exists st, stored. split; [by transitivity lo|]. split; [by transitivity hi|done].
Qed.
(** Which refs, and with the Full of which base: refs the clone completes from its own
    history, refs whose base is the ready Full of another commit, or the newest. *)
Inductive serving (lo hi : Store) (repo : RepoId) (row : BuildRow) : option RepoRefs -> option (BuildRow * option OwnHistoryRef) -> Prop :=
  | serve_newest refs : (forall served, refs = Some served -> published lo hi repo served) -> serving lo hi repo row refs None
  | serve_own served b base : published lo hi repo served -> branches served = Some b -> rb_base b = Some base ->
      base = br_commit row \/ (id40 base -> id40 (br_commit row) -> ancestor repo base (br_commit row)) ->
      serving lo hi repo row (Some served) None
  | serve_base served b brow own : published lo hi repo served -> branches served = Some b -> rb_base b = Some (br_commit brow) ->
      br_commit brow <> br_commit row -> seen lo hi repo (br_commit brow) brow -> is_done (br_full brow) = true ->
      newer row brow = false -> own_for repo row (br_commit brow) own ->
      serving lo hi repo row (Some served) (Some (brow, own)).

Lemma full_done row : is_done (br_full row) = true -> is_done (kind_state row Full) = true.
Proof. cbn. by destruct (br_full row). Qed.
Lemma ref_response_spec st repo prov row refs kind :
  is_done (kind_state row kind) = true ->
  aspec st (ref_response repo prov row refs kind)
    (fun _ r => exists a, exact_result_clonepack (row_info row) kind = Some a /\ r = response repo prov row refs kind a).
Proof.
  intros [a Ha]%done_clonepack. unfold ref_response. eapply aspec_bind with (Q := fun _ x => x = a).
  - by eapply aspec_expect.
  - intros st' x _ ->. apply aspec_ret. eauto.
Qed.

(** The response the server answers with, before its small artifacts are put in. *)
Definition full_answer (lo hi : Store) (repo : RepoId) (prov : ProviderInstance) (row : BuildRow) (r : RefResponse) : Prop :=
  exists a refs base, exact_result_clonepack (row_info row) Full = Some a /\ serving lo hi repo row refs base /\
    match base with
    | None => r = response repo prov row refs Full a
    | Some (brow, own) => exists a', exact_result_clonepack (row_info brow) Full = Some a' /\
        r = set_refs_base (Some (response repo prov brow refs Full a')) own (response repo prov row refs Full a)
    end.
Lemma full_answer_mono lo st1 st2 repo prov row r : later st1 st2 ->
  full_answer lo st1 repo prov row r -> full_answer lo st2 repo prov row r.
Proof.
  intros Hl (a & refs & base & Ha & Hs & Hr). exists a, refs, base. split; [done|]. split; [|done].
  destruct Hs as [refs H|served b base H|served b brow own H ? ? ? Hseen].
  - apply serve_newest. intros served Hsv. eapply published_mono; [reflexivity|exact Hl|by apply H].
  - eapply serve_own; [eapply published_mono; [reflexivity|exact Hl|done]|done..].
  - eapply serve_base; [eapply published_mono; [reflexivity|exact Hl|done]|done|done|done| |done..].
    eapply seen_mono; [reflexivity|exact Hl|done].
Qed.
Lemma serve_refs_spec lo st repo prov row result candidates :
  repo_ok repo -> later lo st -> is_done (br_full row) = true ->
  Forall (published lo st repo) candidates -> full_answer lo st repo prov row result ->
  aspec st (serve_refs (fun row refs => ref_response repo prov row refs Full) repo row result candidates)
    (fun st' r => full_answer lo st' repo prov row r).
Proof.
  intros Hrepo Hlo Hdone Hc Hres.
  pose proof (full_answer_mono lo) as Hmono.
  revert st Hlo Hc Hres. induction candidates as [|served candidates IH]; intros st Hlo Hc Hres; cbn [serve_refs].
  { apply aspec_ret. intros st' Hl. by eapply Hmono. }
  apply Forall_cons in Hc as [Hserved Hc].
  assert (Hnext : forall st', later st st' -> aspec st' (serve_refs (fun row refs => ref_response repo prov row refs Full) repo row result candidates)
    (fun st' r => full_answer lo st' repo prov row r)).
  { intros st' Hl. apply IH; [by transitivity st| |by eapply Hmono]. eapply Forall_impl; [exact Hc|]. intros x. by apply published_mono. }
  destruct (branches served) as [b|] eqn:Eb; cbn [mbind option_bind]; [|by apply Hnext].
  destruct (rb_base b) as [base|] eqn:Ebase; [|by apply Hnext].
  eapply aspec_bind with (Q := fun _ held => if (held : bool)
    then base = br_commit row \/ (id40 base -> id40 (br_commit row) -> ancestor repo base (br_commit row)) else base <> br_commit row).
  { case_bool_decide as Ebc; [apply aspec_ret; auto|]. eapply aspec_weaken; [by apply in_history_spec|].
    intros st' held _ Hh. destruct held; [right; by apply Hh|done]. }
  intros st1 held Hl1 Hheld. destruct held.
  { eapply aspec_weaken; [by apply ref_response_spec, full_done|]. intros st2 r Hl2 (a & Ha & ->). exists a, (Some served), None.
    split; [done|]. split; [|done]. eapply serve_own; [|done|done|done].
    eapply published_mono; [reflexivity| |exact Hserved]. by transitivity st1. }
  eapply aspec_bind; [refusing status_seen|]. intros st2 o Hl2 Hseen. cbn beta in Hseen.
  assert (Hl : later st st2) by by transitivity st1.
  destruct o as [brow|]; [|by apply Hnext]. specialize (Hseen brow eq_refl).
  destruct (newer row brow) eqn:Enew; [apply aspec_ret; intros st3 Hl3; eapply Hmono; [|exact Hres]; by transitivity st2|].
  destruct (is_done (br_full brow)) eqn:Ed; [|by apply Hnext].
  eapply aspec_bind; [by apply ref_response_spec, full_done|]. intros st3 r Hl3 (a & Ha & ->).
  eapply aspec_bind; [by apply own_history_spec|]. intros st4 own Hl4 Hown.
  eapply aspec_bind; [by apply ref_response_spec, full_done|]. intros st5 r5 Hl5 (a' & Ha' & ->).
  apply aspec_ret. intros st6 Hl6. exists a, (Some served), (Some (brow, own)). split; [done|]. split; [|by exists a'].
  pose proof (seen_ok _ _ _ _ _ Hseen) as (Hcommit & _). rewrite <- Hcommit in Ebase, Hseen.
  assert (H26 : later st2 st6) by (transitivity st3; [done|]; transitivity st4; [done|]; by transitivity st5).
  eapply serve_base; [|done|done| | |done|done|done].
  - eapply published_mono; [reflexivity| |exact Hserved]. by transitivity st2.
  - congruence.
  - apply (seen_mono st1 lo st2 st6); [by transitivity st|done|done].
Qed.

(** *** Small artifacts *)
Lemma small_artifacts_spec hashes total :
  Forall (fun '(h, data) => h ∈ hashes /\ hash_bytes_for_object_id env_sha1 env_sha256 h data = Ok h /\ (nlen data <= INLINE_MAX)%N) (small_artifacts total hashes) /\
  ((total <= INLINE_TOTAL)%N -> (total + nsum (map (fun p => nlen p.2) (small_artifacts total hashes)) <= INLINE_TOTAL)%N).
Proof.
  revert total. induction hashes as [|h hashes IH]; intros total; cbn [small_artifacts].
  { split; [constructor|]. cbn. lia. }
  assert (Hin : forall l : list (string * bytes), Forall (fun '(h, data) => h ∈ hashes /\ hash_bytes_for_object_id env_sha1 env_sha256 h data = Ok h /\ (nlen data <= INLINE_MAX)%N) l ->
    Forall (fun '(h', data) => h' ∈ h :: hashes /\ hash_bytes_for_object_id env_sha1 env_sha256 h' data = Ok h' /\ (nlen data <= INLINE_MAX)%N) l).
  { intros l Hl. eapply Forall_impl; [exact Hl|]. intros [h' d] (H1 & H2). split; [apply elem_of_cons; by right|done]. }
  destruct (get_small h INLINE_MAX) as [data|] eqn:Eg.
  - destruct (INLINE_TOTAL <? total + nlen data)%N eqn:Et; [split; [constructor|cbn; lia]|]. apply N.ltb_ge in Et.
    destruct (IH (total + nlen data)%N) as [H1 H2]. split.
    + constructor; [|by apply Hin]. split; [apply elem_of_cons; by left|].
      unfold get_small in Eg. destruct (ok (validate_cas_id h)); [|done]. cbn [mbind option_bind] in Eg.
      destruct (env_local_objects !! h) as [d|]; [|done]. cbn [mbind option_bind] in Eg.
      destruct (INLINE_MAX <? nlen d)%N eqn:El; [done|]. apply N.ltb_ge in El.
      destruct (hash_bytes_for_object_id env_sha1 env_sha256 h d) as [h'|] eqn:Eh; [|done]. cbn [ok mbind option_bind] in Eg.
      case_bool_decide as E2; [|done]. injection Eg as <-. by subst h'.
    + intros _. specialize (H2 Et). cbn [map nsum foldr snd]. fold (nsum (map (fun p : string * bytes => nlen p.2) (small_artifacts (total + nlen data) hashes))). lia.
  - destruct (IH total) as [H1 H2]. split; [by apply Hin|done].
Qed.
(** What is inlined of a response built without: checked bytes of the artifacts it
    names, few and small. *)
Definition inline_ok (r : RefResponse) : Prop :=
  (forall h v, rf_inline r !! h = Some v -> h ∈ [rf_clonepack_manifest r; rf_metadata_chunk r; rf_metadata_delta r] /\ h <> "" /\
    exists data, v = env_base64_bytes data /\ hash_bytes_for_object_id env_sha1 env_sha256 h data = Ok h /\ (nlen data <= INLINE_MAX)%N).
Lemma inline_small_spec r : rf_inline r = ∅ -> inline_ok (inline_small r) /\ inline_small r = set_inline (rf_inline (inline_small r)) r.
Proof.
  intros Hr. split; [|by unfold inline_small; destruct r]. unfold inline_ok. intros h v. unfold inline_small.
  set (hashes := List.filter _ _). pose proof (small_artifacts_spec hashes 0) as [Hs _].
  replace (rf_inline (set_inline _ r)) with (foldl (fun m '(hash, data) => <[hash := env_base64_bytes data]> m) (rf_inline r) (small_artifacts 0 hashes)) by (by destruct r).
  replace [rf_clonepack_manifest (set_inline _ r); rf_metadata_chunk (set_inline _ r); rf_metadata_delta (set_inline _ r)]
    with [rf_clonepack_manifest r; rf_metadata_chunk r; rf_metadata_delta r] by (by destruct r).
  rewrite Hr. revert Hs. generalize (small_artifacts 0 hashes) as l. intros l Hl.
  assert (Hfold : forall m : gmap string string,
    (forall h v, m !! h = Some v -> exists data, v = env_base64_bytes data /\ h ∈ hashes /\ hash_bytes_for_object_id env_sha1 env_sha256 h data = Ok h /\ (nlen data <= INLINE_MAX)%N) ->
    forall h v, foldl (fun m '(hash, data) => <[hash := env_base64_bytes data]> m) m l !! h = Some v ->
    exists data, v = env_base64_bytes data /\ h ∈ hashes /\ hash_bytes_for_object_id env_sha1 env_sha256 h data = Ok h /\ (nlen data <= INLINE_MAX)%N).
  { induction Hl as [|[h' d'] l Hd Hl IH]; intros m Hm; cbn [foldl]; [exact Hm|]. apply IH.
    intros h2 v2 [[<- <-]|[_ H2]]%lookup_insert_Some; [exists d'; naive_solver|by apply Hm]. }
  intros (data & -> & [Hin Hne]%elem_of_lfilter & Hh & Hlen)%Hfold; [|intros h2 v2 H2; by rewrite lookup_empty in H2].
  split; [exact Hin|]. split; [|eauto]. by apply negb_true_iff, bool_decide_eq_false in Hne.
Qed.

(** *** A ready output's body *)
Definition plain_answer (lo hi : Store) (repo : RepoId) (prov : ProviderInstance) (row : BuildRow) (kind : ExactResultKind) (r : RefResponse) : Prop :=
  exists a refs, exact_result_clonepack (row_info row) kind = Some a /\ (forall served, refs = Some served -> published lo hi repo served) /\
    r = response repo prov row refs kind a.
Definition ready_answer (lo hi : Store) (repo : RepoId) (prov : ProviderInstance) (row : BuildRow) (kind : ExactResultKind) (r : RefResponse) : Prop :=
  exists r0, (if kind_eqb kind Full then full_answer lo hi repo prov row r0 else plain_answer lo hi repo prov row kind r0) /\
    r = set_refs_base (inline_small <$> rf_refs_base (inline_small r0)) (rf_own_history (inline_small r0)) (inline_small r0).

Lemma get_refs_spec st repo :
  aspec st (get_refs_or_none repo) (fun st' o => forall served, o = Some served -> published st st' repo served /\
    forall r, ready_refs served = Some r -> published st st' repo r).
Proof.
  intros sv Hsv Hst. unfold get_refs_or_none. pose proof (cspec_query st (get_refs repo) sv Hsv Hst) as H.
  destruct (query _ sv) as [sv' [o|e]]; [|split_and!; [apply H..|done]]. destruct H as (H1 & H2 & H3 & H4).
  split; [exact H1|]. split; [exact H2|]. intros served ->. assert (Hl : later st (sv_store sv')) by by transitivity (sv_store sv).
  split; [|intros r Hr]; exists (sv_store sv'), served; (split_and!; [done|reflexivity|done|done|]); auto.
Qed.
Lemma ready_response_spec st repo prov row kind :
  repo_ok repo -> is_done (kind_state row kind) = true ->
  aspec st (ready_response repo prov row kind) (fun st' r => ready_answer st st' repo prov row kind r).
Proof.
  intros Hrepo Hdone. unfold ready_response. eapply aspec_bind; [apply get_refs_spec|]. intros st1 refs Hl1 Hrefs. cbn beta in Hrefs.
  eapply aspec_bind; [by apply ref_response_spec|]. intros st2 r0 Hl2 (a & Ha & ->).
  eapply aspec_bind with (Q := fun st' r => if kind_eqb kind Full then full_answer st st' repo prov row r else plain_answer st st' repo prov row kind r).
  - assert (Hplain : forall st', later st2 st' ->
      (if kind_eqb kind Full then full_answer st st' repo prov row (response repo prov row refs kind a)
       else plain_answer st st' repo prov row kind (response repo prov row refs kind a))).
    { intros st' Hl. assert (Hpub : forall served, refs = Some served -> published st st' repo served).
      { intros served Es. apply (published_mono st st st1 st'); [reflexivity|by transitivity st2|]. by apply Hrefs. }
      destruct kind; cbn; [by exists a, refs| |by exists a, refs]. exists a, refs, None. split; [done|]. split; [|done]. by apply serve_newest. }
    destruct refs as [stored|]; [|by apply aspec_ret]. destruct (kind_eqb_spec kind Full) as [->|]; [|by apply aspec_ret].
    apply serve_refs_spec; [done|by transitivity st1| | |by apply Hplain].
    + cbn in Hdone. by destruct (br_full row).
    + destruct (Hrefs stored eq_refl) as [Hs Hr].
      constructor; [by apply (published_mono st st st1 st2)|]. destruct (ready_refs stored) as [r|]; [|constructor].
      constructor; [|constructor]. apply (published_mono st st st1 st2); [reflexivity|done|by apply Hr].
  - intros st3 r Hl3 Hr. apply aspec_ret. intros st4 Hl4. exists r. split; [|done].
    destruct (kind_eqb kind Full).
    + by eapply full_answer_mono.
    + destruct Hr as (a' & refs' & Ha' & Hs & Hr). exists a', refs'. split; [done|]. split; [|done].
      intros served Hsv. apply (published_mono st st st3 st4); [reflexivity|done|by apply Hs].
Qed.

Lemma response_fields repo prov row refs kind a : let r := response repo prov row refs kind a in
  rf_commit r = ca_commit a /\ rf_clonepack_manifest r = ca_manifest a /\ rf_metadata_chunk r = ca_metadata_chunk a /\
  rf_metadata_delta r = ca_metadata_delta a /\ rf_kind r = kind /\ rf_inline r = ∅ /\ rf_refs_base r = None /\ rf_own_history r = None /\
  rf_branches r = if kind_eqb kind Full then
      (fun b => {| bf_artifact := rb_artifact b; bf_artifact_url := signed_url (rb_artifact b); bf_side_packs := map side_ref (rb_side_packs b) |})
        <$> (refs ≫= branches) else None.
Proof. unfold response. cbv zeta. by destruct (match github_owner_repo repo with Some p => p | None => _ end) as [o n]. Qed.
Lemma option_res_Some {A B} (f : A -> Result B) o x : option_res f o = Ok (Some x) -> exists y, f y = Ok x.
Proof. unfold option_res. destruct o as [y|]; [|done]. intros H. exists y. destruct (f y); cbn in H; congruence. Qed.
Lemma published_bounds lo hi repo served b : published lo hi repo served -> branches served = Some b ->
  forall s, s ∈ rb_side_packs b -> (side_pack_len s <= u64_max)%N /\ (side_idx_len s <= u64_max)%N.
Proof.
  intros (st & stored & _ & _ & _ & Hget & Hserved) Hb.
  assert (Hj : exists j, branches_of_json j = Ok b); [|destruct Hj as [j Hj]; by eapply (sb_branches Hbounds)].
  unfold get_refs in Hget. destruct (repo_refs st !! storage_key repo) as [row|]; [|done].
  inv_ok Hget. destruct Hserved as [->|Hr]; [by eapply option_res_Some; rewrite <- Hb|].
  unfold ready_refs in Hr. cbn [ready_] in Hr. match type of Hr with _ <$> ?o = _ => destruct o as [b'|]; [|done] end. cbn in Hr. injection Hr as <-. cbn in Hb. injection Hb as ->.
  by eapply option_res_Some.
Qed.
Lemma response_parts repo prov row refs kind a lo hi : (forall served, refs = Some served -> published lo hi repo served) ->
  parts_wf (response repo prov row refs kind a).
Proof.
  intros Hpub. pose proof (response_fields repo prov row refs kind a) as (_ & _ & _ & _ & _ & _ & _ & Ho & Hb). split.
  - intros b s E. rewrite Hb in E. destruct (kind_eqb kind Full); [|done]. destruct refs as [served|]; [|done]. cbn [mbind option_bind] in E.
    destruct (branches served) as [rb|] eqn:Er; [|done]. injection E as <-. cbn [bf_side_packs].
    intros (side & -> & Hs)%elem_of_lmap. cbn. by eapply published_bounds; [apply Hpub| |].
  - intros o E. congruence.
Qed.

Lemma parts_wf_ext r r' : rf_branches r = rf_branches r' -> rf_own_history r = rf_own_history r' -> parts_wf r' -> parts_wf r.
Proof. unfold parts_wf. by intros -> ->. Qed.
(** What a client checks of a ready output holds of it. *)
Definition checked_answer (commit : string) (kind : ExactResultKind) (r : RefResponse) : Prop :=
  rf_commit r = commit /\ rf_kind r = kind /\ validate_artifact_id (rf_clonepack_manifest r) = Ok tt /\ inline_ok r.
Lemma inline_small_checked commit kind r : rf_inline r = ∅ -> rf_commit r = commit -> rf_kind r = kind ->
  validate_artifact_id (rf_clonepack_manifest r) = Ok tt -> checked_answer commit kind (inline_small r).
Proof. intros Hi Hc Hk Hm. destruct (inline_small_spec r Hi) as [H E]. split; [|split; [|split; [|exact H]]]; by rewrite E. Qed.
Lemma response_checked lo hi repo prov commit row refs kind a : seen lo hi repo commit row ->
  exact_result_clonepack (row_info row) kind = Some a -> checked_answer commit kind (inline_small (response repo prov row refs kind a)).
Proof.
  intros (_ & _ & Hex & _)%seen_ok Ha. apply Hex, ready_hashes in Ha as (Hc & Hm & _).
  pose proof (response_fields repo prov row refs kind a) as (E1 & E2 & _ & _ & E3 & E4 & _). cbv zeta in *.
  apply inline_small_checked; [exact E4|congruence|exact E3|congruence].
Qed.
Lemma ready_answer_facts lo hi repo prov commit row kind r :
  seen lo hi repo commit row -> ready_answer lo hi repo prov row kind r ->
  ref_wf 1 r /\ checked_answer commit kind r /\
  forall base, rf_refs_base r = Some base ->
    kind = Full /\ rf_commit base <> commit /\ validate_object_id (rf_commit base) = Ok tt /\ rf_refs_base base = None /\
    checked_answer (rf_commit base) Full base.
Proof.
  intros Hseen (r0 & Hr0 & ->). pose proof (seen_ok _ _ _ _ _ Hseen) as (Hcommit & _ & _ & Hown).
  assert (Hplain : forall a refs, exact_result_clonepack (row_info row) kind = Some a ->
    (forall served, refs = Some served -> published lo hi repo served) -> r0 = response repo prov row refs kind a ->
    ref_wf 1 (set_refs_base (inline_small <$> rf_refs_base (inline_small r0)) (rf_own_history (inline_small r0)) (inline_small r0)) /\
    checked_answer commit kind (set_refs_base (inline_small <$> rf_refs_base (inline_small r0)) (rf_own_history (inline_small r0)) (inline_small r0)) /\
    rf_refs_base r0 = None).
  { intros a refs Ha Hpub ->. pose proof (response_fields repo prov row refs kind a) as (_ & _ & _ & _ & _ & _ & Eb & Eo & _). cbv zeta in *.
    split; [|split; [|exact Eb]].
    - split; [|by rewrite (eq_refl : rf_refs_base (inline_small _) = rf_refs_base (response repo prov row refs kind a)), Eb].
      eapply parts_wf_ext; [| |by eapply response_parts]; done.
    - exact (response_checked lo hi repo prov commit row refs kind a Hseen Ha). }
  destruct (kind_eqb_spec kind Full) as [->|Hk].
  2:{ destruct Hr0 as (a & refs & Ha & Hpub & Hr0). destruct (Hplain a refs Ha Hpub Hr0) as (H1 & H2 & H3).
      split; [exact H1|]. split; [exact H2|]. intros base Hb. cbn in Hb. by rewrite H3 in Hb. }
  destruct Hr0 as (a & refs & base & Ha & Hs & Hr0). destruct base as [[brow own]|].
  2:{ destruct (Hplain a refs Ha ltac:(inversion Hs; subst; [done|by intros ? [= <-]]) Hr0) as (H1 & H2 & H3).
      split; [exact H1|]. split; [exact H2|]. intros base Hb. cbn in Hb. by rewrite H3 in Hb. }
  destruct Hr0 as (a' & Ha' & ->). inversion Hs as [| |served b ? ? Hpub Hb Hbase Hne Hbseen Hbdone Hnew Hownfor]; subst.
  pose proof (response_fields repo prov brow (Some served) Full a') as (_ & _ & _ & _ & _ & _ & Eb & Eo & _). cbv zeta in *.
  pose proof (response_checked lo hi repo prov _ brow (Some served) Full a' Hbseen Ha') as Hbc.
  pose proof (seen_ok _ _ _ _ _ Hbseen) as (_ & Hbid & _).
  split.
  { split.
    - split.
      + intros b' s E. cbn in E. pose proof (response_parts repo prov row (Some served) Full a lo hi ltac:(by intros ? [= <-])) as [Hp _].
        by apply (Hp b' s).
      + intros o E. cbn in E. destruct (Hownfor o E) as (full & w & Hf & Hw & -> & _). destruct (Hown full w Hf Hw) as [Hp Hi]. cbn. split; [|exact Hi].
        intros s (p & -> & Hin)%elem_of_lmap. by apply Hp.
    - cbn -[inline_small]. split.
      + eapply parts_wf_ext; [| |by eapply (response_parts repo prov brow (Some served) Full a' lo hi); intros ? [= <-]]; done.
      + by rewrite (eq_refl : rf_refs_base (inline_small _) = rf_refs_base (response repo prov brow (Some served) Full a')), Eb. }
  split.
  { exact (response_checked lo hi repo prov _ row (Some served) Full a Hseen Ha). }
  intros base E. cbn -[inline_small] in E. injection E as <-. destruct Hbc as (Hc1 & Hc2 & Hc3 & Hc4).
  split; [done|]. split; [congruence|]. split; [by rewrite Hc1|]. split; [exact Eb|]. split; [done|]. done.
Qed.

(** ** The answers of an output *)

(** The base a pending Full names: the newest ready Full admitted from its ref, or
    its parent's. *)
Definition top_up_of (lo hi : Store) (repo : RepoId) (row base : BuildRow) : Prop :=
  seen lo hi repo (br_commit base) base /\ is_done (br_full base) = true /\
  (br_parent row = Some (br_commit base) \/
   exists ref_name st full, br_ref_name row = Some ref_name /\ later lo st /\ later st hi /\
     latest_ready_full repo ref_name st = Ok (Some (br_commit base, full))).
Lemma top_up_base_spec st repo row :
  aspec st (top_up_base repo row) (fun st' o => forall base, o = Some base -> top_up_of st st' repo row base).
Proof.
  unfold top_up_base.
  eapply aspec_bind with (Q := fun st' o => forall c, o = Some c -> exists ref_name st1 full, br_ref_name row = Some ref_name /\
    later st st1 /\ later st1 st' /\ latest_ready_full repo ref_name st1 = Ok (Some (c, full))).
  { destruct (br_ref_name row) as [ref_name|]; [|by apply aspec_ret].
    eapply aspec_bind with (Q := fun st' o => exists st1, later st st1 /\ later st1 st' /\ latest_ready_full repo ref_name st1 = Ok o).
    - apply aspec_or_refuse; [apply _|]. intros sv Hsv Hst. pose proof (cspec_query st (latest_ready_full repo ref_name) sv Hsv Hst) as H.
      destruct (query _ sv) as [sv' [o|e]]; [|exact H]. destruct H as (H1 & H2 & H3 & H4). split; [exact H1|]. split; [exact H2|].
      exists (sv_store sv'). split; [by transitivity (sv_store sv)|]. split; [reflexivity|done].
    - intros st1 o _ (st2 & H1 & H2 & H3). apply aspec_ret. intros st3 Hl3 c Hc. destruct o as [[c' full]|]; [|done]. injection Hc as ->.
      exists ref_name, st2, full. split_and!; [done|done|by transitivity st1|done]. }
  intros st1 latest Hl1 Hlatest. set (chosen := match latest with Some c => Some c | None => br_parent row end).
  destruct chosen as [base_commit|] eqn:Ec; [|by apply aspec_ret].
  eapply aspec_bind; [refusing status_seen|]. intros st2 o Hl2 Hseen. cbn beta in Hseen. apply aspec_ret.
  intros st3 Hl3 base Hb. unfold option_filter in Hb. destruct o as [b|]; [|done].
  destruct (is_done (br_full b)) eqn:Ed; [|done]. injection Hb as ->. specialize (Hseen base eq_refl).
  pose proof (seen_ok _ _ _ _ _ Hseen) as (Hbc & _). rewrite <- Hbc in Hseen, Ec. split.
  { apply (seen_mono st1 st st2 st3); [done..|exact Hseen]. }
  split; [done|]. unfold chosen in Ec. destruct latest as [c|]; [right|by left]. injection Ec as ->.
  destruct (Hlatest (br_commit base) eq_refl) as (ref_name & st' & full & H1 & H2 & H3 & H4). exists ref_name, st', full.
  split_and!; [done|done| |done]. transitivity st1; [done|]. by transitivity st2.
Qed.

(** What a client reads of the state of [kind] of [commit]. *)
Inductive answered (lo hi : Store) (repo : RepoId) (prov : ProviderInstance) (commit : string) (kind : ExactResultKind) : CommitOutput -> Prop :=
  | an_ready row r : seen lo hi repo commit row -> is_done (kind_state row kind) = true ->
      ready_answer lo hi repo prov row kind r -> answered lo hi repo prov commit kind (CReady r)
  | an_failed row error : seen lo hi repo commit row -> kind_state row kind = Failed error ->
      answered lo hi repo prov commit kind (CFailed commit error)
  | an_pending row error top_up : seen lo hi repo commit row -> kind_state row kind = Pending error ->
      (forall t, top_up = Some t -> kind = Full /\ exists base, top_up_of lo hi repo row base /\
         tu_base_commit t = br_commit base /\ br_commit base <> commit /\ ready_answer lo hi repo prov base Full (tu_base t)) ->
      answered lo hi repo prov commit kind (CPending commit top_up).

Lemma ready_answer_mono lo lo' hi hi' repo prov row kind r : later lo' lo -> later hi hi' ->
  ready_answer lo hi repo prov row kind r -> ready_answer lo' hi' repo prov row kind r.
Proof.
  intros Hlo Hhi (r0 & H & ->). exists r0. split; [|done]. destruct (kind_eqb kind Full).
  - destruct H as (a & refs & base & Ha & Hs & Hr). exists a, refs, base. split; [done|]. split; [|done].
    destruct Hs as [refs H|served b base H|served b brow own H ? ? ? Hseen].
    + apply serve_newest. intros served Hsv. by apply (published_mono lo lo' hi hi'), H.
    + eapply serve_own; [by apply (published_mono lo lo' hi hi')|done..].
    + eapply serve_base; [by apply (published_mono lo lo' hi hi')|done|done|done|by apply (seen_mono lo lo' hi hi')|done..].
  - destruct H as (a & refs & Ha & Hs & Hr). exists a, refs. split; [done|]. split; [|done].
    intros served Hsv. by apply (published_mono lo lo' hi hi'), Hs.
Qed.
Lemma top_up_of_mono lo lo' hi hi' repo row base : later lo' lo -> later hi hi' -> top_up_of lo hi repo row base -> top_up_of lo' hi' repo row base.
Proof.
  intros Hlo Hhi (H1 & H2 & H3). split; [by apply (seen_mono lo lo' hi hi')|]. split; [done|].
  destruct H3 as [?|(n & s & f & ? & ? & ? & ?)]; [by left|right]. exists n, s, f. split_and!; [done|by transitivity lo|by transitivity hi|done].
Qed.
Lemma answered_mono lo lo' hi hi' repo prov commit kind c : later lo' lo -> later hi hi' ->
  answered lo hi repo prov commit kind c -> answered lo' hi' repo prov commit kind c.
Proof.
  intros Hlo Hhi [row r H1 H2 H3|row error H1 H2|row error top_up H1 H2 H3].
  - apply (an_ready _ _ _ _ _ _ row); [by apply (seen_mono lo lo' hi hi')|done|by apply (ready_answer_mono lo lo' hi hi')].
  - apply (an_failed _ _ _ _ _ _ row); [by apply (seen_mono lo lo' hi hi')|done].
  - apply (an_pending _ _ _ _ _ _ row error); [by apply (seen_mono lo lo' hi hi')|done|]. intros t Ht.
    destruct (H3 t Ht) as (Hk & base & Hb1 & Hb2 & Hb3 & Hb4). split; [done|]. exists base.
    split_and!; [by apply (top_up_of_mono lo lo' hi hi')|done|done|by apply (ready_answer_mono lo lo' hi hi')].
Qed.
Lemma ready_body_spec lo st repo prov commit row kind :
  repo_ok repo -> later lo st -> seen lo st repo commit row -> is_done (kind_state row kind) = true ->
  aspec st (ready_body repo prov row kind) (fun st' j => exists r, j = ReadyBody_json r /\ ref_wf 1 r /\ ready_answer lo st' repo prov row kind r).
Proof.
  intros Hrepo Hlo Hseen Hdone. unfold ready_body. eapply aspec_bind; [by apply ready_response_spec|]. intros st1 r Hl1 Hr.
  apply aspec_ret. intros st2 Hl2. exists r. split; [done|].
  assert (Hr' : ready_answer lo st2 repo prov row kind r) by by apply (ready_answer_mono st lo st1 st2).
  split; [|done]. eapply (ready_answer_facts lo st2 repo prov commit); [|done].
  apply (seen_mono lo lo st st2); [reflexivity|by transitivity st1|done].
Qed.
Lemma output_body_spec lo st repo prov commit row kind :
  repo_ok repo -> later lo st -> seen lo st repo commit row ->
  aspec st (output_body repo prov row kind) (fun st' j => exists c, as_CommitOutput j = Ok c /\ answered lo st' repo prov commit kind c).
Proof.
  intros Hrepo Hlo Hseen. pose proof (seen_ok _ _ _ _ _ Hseen) as (Hcommit & _). unfold output_body.
  destruct (kind_state row kind) as [error|u|error] eqn:Ek.
  - unfold pending_body. eapply aspec_bind with (Q := fun st' o => forall base, o = Some base -> kind = Full /\ top_up_of lo st' repo row base).
    { destruct (kind_eqb_spec kind Full) as [->|]; [|by apply aspec_ret]. eapply aspec_weaken; [apply top_up_base_spec|].
      intros st1 o Hl1 H base Hb. split; [done|]. by apply (top_up_of_mono st lo st1 st1), H. }
    intros st1 base Hl1 Hbase. destruct base as [base|]; cbn [option_filter].
    2:{ apply aspec_ret. intros st2 Hl2. exists (CPending commit None). split.
        - destruct error; cbn; by rewrite Hcommit.
        - apply (an_pending _ _ _ _ _ _ row error); [|done..]. apply (seen_mono lo lo st st2); [reflexivity|by transitivity st1|done]. }
    destruct (Hbase base eq_refl) as [-> Htop]. pose proof Htop as (Hbseen & Hbdone & _).
    case_bool_decide as Eb.
    + eapply aspec_weaken.
      { apply (ready_body_spec lo st1 repo prov commit base Full Hrepo); [by transitivity st| |by apply full_done].
        by rewrite Eb, Hcommit in Hbseen. }
      intros st2 j Hl2 (r & -> & Hwf & Hr). exists (CReady r). split; [by apply read_ready|].
      apply (an_ready _ _ _ _ _ _ base); [|by apply full_done|done]. rewrite Eb, Hcommit in Hbseen.
      by apply (seen_mono lo lo st1 st2).
    + eapply aspec_bind; [apply (ready_body_spec lo st1 repo prov (br_commit base) base Full Hrepo); [by transitivity st|done|by apply full_done]|].
      intros st2 j Hl2 (r & -> & Hwf & Hr). apply aspec_ret. intros st3 Hl3.
      exists (CPending commit (Some {| tu_base_commit := br_commit base; tu_base := r |})). split.
      * pose proof (as_RefResponse_ready 127 r (ref_wf_mono 1 127 r Hwf ltac:(lia))) as Hread.
        destruct error; unfold as_CommitOutput; cbn -[as_RefResponse ReadyBody_json];
          unfold opt, dflt; cbn -[as_RefResponse ReadyBody_json]; unfold as_TopUpPlan; cbn -[as_RefResponse ReadyBody_json];
          unfold req; cbn -[as_RefResponse ReadyBody_json]; unfold RECURSION_LIMIT; rewrite Hread; cbn; by rewrite Hcommit.
      * apply (an_pending _ _ _ _ _ _ row error); [|done|].
        { apply (seen_mono lo lo st st3); [reflexivity|transitivity st1; [done|by transitivity st2]|done]. }
        intros t [= <-]. split; [done|]. exists base. cbn. split_and!; [|done|congruence|by apply (ready_answer_mono lo lo st2 st3)].
        apply (top_up_of_mono lo lo st1 st3); [done|by transitivity st2|done].
  - eapply aspec_weaken; [apply (ready_body_spec lo st repo prov commit row kind Hrepo Hlo Hseen); by rewrite Ek|].
    intros st1 j Hl1 (r & -> & Hwf & Hr). exists (CReady r). split; [by apply read_ready|].
    apply (an_ready _ _ _ _ _ _ row); [by apply (seen_mono lo lo st st1)|by rewrite Ek|done].
  - apply aspec_ret. intros st1 Hl1. exists (CFailed commit error). split; [cbn; by rewrite Hcommit|].
    apply (an_failed _ _ _ _ _ _ row); [by apply (seen_mono lo lo st st1)|done].
Qed.

(** A request's run, from the server it starts with. *)
Lemma run_spec {A} (m : Api A) (Q : Store -> Store -> A -> Prop) sv :
  server_ok sv -> (forall st, aspec st m (Q st)) ->
  match m sv with
  | (sv', inl x) => server_ok sv' /\ later (sv_store sv) (sv_store sv') /\ Q (sv_store sv) (sv_store sv') x
  | (sv', inr (Refused e)) => server_ok sv' /\ later (sv_store sv) (sv_store sv') /\ Refuses e
  | (_, inr Panicked) => False
  end.
Proof. intros Hsv H. exact (H (sv_store sv) sv Hsv ltac:(reflexivity)). Qed.

Lemma get_commit_spec st repo prov commit kind : repo_ok repo ->
  aspec st (get_commit repo prov commit (Some kind)) (fun st' j => exists c, as_CommitOutput j = Ok c /\ answered st st' repo prov commit kind c).
Proof.
  intros Hrepo. unfold get_commit.
  eapply aspec_bind with (Q := fun _ _ => True); [refusing cspec_lift; done|]. intros st1 _ Hl1 _.
  eapply aspec_bind; [refusing status_seen|]. intros st2 row Hl2 Hseen. cbn beta in Hseen.
  destruct row as [row|]; [|refusal]. specialize (Hseen row eq_refl).
  apply output_body_spec; [done|by transitivity st1|]. by apply (seen_mono st1 st st2 st2).
Qed.

(** C18: [GET .../commits/{sha}?kind=], whatever other requests and the workers do to
    the control store between its calls: it never panics; an id that is none is
    refused before the store is asked; and an answer is read by a client as the
    state, at some time of the request, of that output of that commit. A ready one
    carries the output's own artifacts and refs published meanwhile; a pending Full
    names a base only when that is a ready Full of another commit, the newest of
    its ref or its parent. *)
Theorem get_commit_answers sv repo prov commit kind :
  server_ok sv -> repo_ok repo ->
  (forall e, validate_object_id commit = Err e ->
     get_commit repo prov commit (Some kind) sv = (sv, inr (Refused (api_error 400 "invalid_commit" e)))) /\
  match get_commit repo prov commit (Some kind) sv with
  | (sv', inl j) => server_ok sv' /\ later (sv_store sv) (sv_store sv') /\
      exists c, as_CommitOutput j = Ok c /\ answered (sv_store sv) (sv_store sv') repo prov commit kind c
  | (sv', inr (Refused e)) => server_ok sv' /\ later (sv_store sv) (sv_store sv') /\ Refuses e
  | (_, inr Panicked) => False
  end.
Proof.
  intros Hsv Hrepo. split; [intros e He; unfold get_commit, abind, or_refuse, lift; by rewrite He|].
  apply (run_spec _ (fun st st' j => exists c, as_CommitOutput j = Ok c /\ answered st st' repo prov commit kind c)); [done|].
  intros st. by apply get_commit_spec.
Qed.

(** ** Admitting a build *)
Definition state_of (o : Out unit) : OutputState :=
  match o with
  | Pending error => {| os_state := "pending"; os_error := error |}
  | Ready _ => {| os_state := "ready"; os_error := None |}
  | Failed error => {| os_state := "failed"; os_error := Some error |}
  end.
Definition summary_of (row : BuildRow) (checkout_name tag : option string) : BuildSummary :=
  {| bs_commit := br_commit row; bs_checkout_name := checkout_name; bs_tag := tag;
     bs_head := state_of (kind_state row Head); bs_files := state_of (kind_state row Files); bs_full := state_of (kind_state row Full) |}.
Lemma read_state o : as_OutputState (output_state o) = Ok (state_of o).
Proof. by destruct o as [[e|]|[]|e]. Qed.
Lemma read_answer row checkout_name tag output :
  (forall j, output = Some j -> j <> JNull) ->
  let body := index_set "checkout_name" (json_opt JStr checkout_name) (build_summary_body row) in
  let body := match tag with Some tag => index_set "tag" (JStr tag) body | None => body end in
  let body := match output with Some j => index_set "output" j body | None => body end in
  as_Answer body = match output with
    | Some j => let? c := as_CommitOutput j in Ok (summary_of row checkout_name tag, Some c)
    | None => Ok (summary_of row checkout_name tag, None)
    end.
Proof.
  intros Hj. assert (Ho : forall j, j <> JNull -> as_option as_CommitOutput j = let? c := as_CommitOutput j in Ok (Some c))
    by (intros [] ?; done).
  destruct checkout_name as [c|], tag as [t|], output as [j|]; unfold as_Answer; cbn -[as_CommitOutput as_OutputState output_state kind_state];
    unfold as_BuildSummary, opt, dflt, req; cbn -[as_CommitOutput as_OutputState output_state kind_state as_option];
    rewrite !read_state; cbn -[as_CommitOutput as_OutputState output_state kind_state as_option];
    try (rewrite Ho by (by apply Hj)); try done; by destruct (as_CommitOutput j).
Qed.
End thms.

(** ** A repository with a ready Head *)
Module ApiExample.
Definition side_ok (s : SidePack) : bool := (side_pack_len s <=? u64_max)%N && (side_idx_len s <=? u64_max)%N.
Definition own_ok (own : OwnHistory) : bool :=
  forallb (fun p => (sp_pack_len p <=? u64_max)%N && (sp_idx_len p <=? u64_max)%N) (oh_packs own)
  && forallb (fun i => (i <=? u64_max)%N) (oh_head_packs own).
Definition full_ok (f : FullResult) : bool := match fr_own_history f with Some own => own_ok own | None => true end.
#[export] Instance serde : Serde := {|
  json := Example.value;
  head_to_json x := Ok (Example.VHead x);
  head_of_json v := match v with Example.VHead x => Ok x | _ => Err "invalid type" end;
  files_to_json x := Ok (Example.VFiles x);
  files_of_json v := match v with Example.VFiles x => Ok x | _ => Err "invalid type" end;
  full_to_json x := if full_ok x then Ok (Example.VFull x) else Err "number out of range";
  full_of_json v := match v with Example.VFull x => if full_ok x then Ok x else Err "number out of range" | _ => Err "invalid type" end;
  branches_to_json x := if forallb side_ok (rb_side_packs x) then Ok (Example.VBranches x) else Err "number out of range";
  branches_of_json v := match v with
    | Example.VBranches x => if forallb side_ok (rb_side_packs x) then Ok x else Err "number out of range"
    | _ => Err "invalid type" end;
|}.
#[export] Instance serde_ok : SerdeOk serde.
Proof. constructor; intros x j; cbn; try (by intros [= <-]); case_match eqn:E; try done; intros [= <-]; by rewrite E. Qed.
Lemma serde_bounds : SerdeBounds.
Proof.
  constructor.
  - intros [| | |x] b H; cbn in H; try done. destruct (forallb _ _) eqn:E; [|done]. injection H as <-. rewrite forallb_forall in E.
    intros s Hs%list_elem_of_In%E. unfold side_ok in Hs. by breflect.
  - intros [| |x|] f H; cbn in H; try done. destruct (full_ok x) eqn:E; [|done]. injection H as <-. intros own Ho.
    unfold full_ok in E. rewrite Ho in E. unfold own_ok in E. apply andb_true_iff in E as [E1 E2]. rewrite forallb_forall in E1, E2. split.
    + intros p Hp%list_elem_of_In%E1. by breflect.
    + intros i Hi%list_elem_of_In%E2. by breflect.
Qed.

Definition added : Store := (Control.add_repo 99 Example.repo None empty_store).1.
Definition admitted : Store := (Control.admit_build 100 Example.repo Example.commit None added).1.
Definition claimed : Store * Result (option Claim) := claim Example.cfg 101 "worker" PHead 60 admitted.
Definition published : Store :=
  match claimed.2 with
  | Ok (Some c) => (publish c (OHead Example.head (Some Example.commit)) claimed.1).1
  | _ => claimed.1
  end.
Lemma example_published_reachable : reachable Example.cfg published.
Proof.
  assert (H1 : reachable Example.cfg admitted).
  { eapply rtc_r; [apply rtc_once, (step_add_repo Example.cfg 99 Example.repo None empty_store), Example.repo_is_ok|].
    apply (step_admit Example.cfg 100 Example.repo Example.commit None added), Example.repo_is_ok. }
  assert (H2 : reachable Example.cfg claimed.1) by (eapply rtc_r; [exact H1|]; apply (step_claim Example.cfg 101 "worker" PHead 60 admitted)).
  unfold published. destruct claimed.2 as [[c|]|]; [|exact H2..]. eapply rtc_r; [exact H2|]. apply (step_publish Example.cfg).
Qed.
(** Nothing else happens to the store; upstream has the branch [main] and the tag
    [v1]; nothing is small. *)
#[export] Instance env : Env serde := {|
  env_others n st := st;
  env_available n := true;
  env_now n := 102%Z;
  env_credentials repo := Ok None;
  env_base64 s := s;
  env_git_ls_remote args url patterns := Exited true
    (unlines ["ref: refs/heads/main" +:+ String tab "HEAD"; Example.commit +:+ String tab "HEAD";
              Example.commit +:+ String tab "refs/heads/main"; Example.commit +:+ String tab "refs/tags/v1"]) "";
  env_ls_refs url auth patterns := None;
  env_origin_base := None;
  env_is_ancestor n repo base commit := Err "no mirror";
  env_signed_url h := Some ("https://cdn/" +:+ h);
  env_local_objects := ∅;
  env_sha1 b := "";
  env_sha256 b := "";
  env_base64_bytes b := "";
|}.
#[export] Instance env_ok : EnvOk Example.cfg env (fun _ _ _ => False).
Proof. constructor; [intros; apply rtc_refl|done]. Qed.
Definition server : Server serde := {| sv_store := published; sv_calls := 0; sv_wakes := []; sv_ancestry := ∅ |}.
Lemma server_is_ok : server_ok Example.cfg server (ancestor := fun _ _ _ => False).
Proof. constructor; [apply example_published_reachable|]. intros key H. cbn in H. by rewrite lookup_empty in H. Qed.
Definition prov : ProviderInstance :=
  {| pi_id := "github"; pi_kind := GitHub; pi_host := "github.com"; pi_auth_template := None; pi_auth_header_name := None |}.
Lemma example_cfg_ok : (1 <= max_attempts Example.cfg)%Z.
Proof. by vm_compute. Qed.

(** The ready Head is answered with its clonepack and its signed URL. *)
Lemma get_commit_answers_witness :
  exists sv' j c, get_commit Example.repo prov Example.commit (Some Head) server = (sv', inl j) /\ as_CommitOutput j = Ok c /\
    answered Example.cfg published (sv_store sv') Example.repo prov (ancestor := fun _ _ _ => False) Example.commit Head c /\
    exists r, c = CReady r /\ rf_commit r = Example.commit /\ rf_clonepack_manifest_url r = Some ("https://cdn/" +:+ Example.hash).
Proof.
  destruct (get_commit_answers Example.cfg example_cfg_ok serde_bounds server Example.repo prov Example.commit Head server_is_ok
    Example.repo_is_ok) as [_ H].
  destruct (get_commit Example.repo prov Example.commit (Some Head) server) as [sv' x] eqn:E.
  assert (Ex : (get_commit Example.repo prov Example.commit (Some Head) server).2 = x) by (by rewrite E). clear E.
  destruct x as [j|f]; [|vm_compute in Ex; discriminate Ex]. destruct H as (_ & _ & c & Hc & Ha).
  exists sv', j, c. split; [done|]. split; [exact Hc|]. split; [exact Ha|]. vm_compute in Ex. injection Ex as <-.
  vm_compute in Hc. injection Hc as <-. eexists. split; [reflexivity|]. by vm_compute.
Defined.
End ApiExample.
