(* ===== verification/ApiBuild.v ===== *)
(** What [POST .../builds] promises ([Api.v]): the selector's commit is admitted, and
    the answer a client reads is the state of that commit's outputs at some time of
    the request, with the branch or the tag the selector names, and the output asked
    for as [GET] answers it. The selector's commit is what upstream has for it
    ([selected], [selected_of]). *)

From S2P Require Import Prelude Bytes Provider Validation Outputs Control ControlInv ControlThms Refs LsRemote Wire Api ApiThms.

(** ** What a name resolves to *)
Lemma first_some_Some {A B} (f : A -> option B) l y : first_some f l = Some y -> exists x, x ∈ l /\ f x = Some y.
Proof.
  induction l as [|x l IH]; cbn; [done|]. destruct (f x) as [z|] eqn:E; intros H.
  - injection H as ->. exists x. split; [apply elem_of_cons; by left|done].
  - destruct (IH H) as (x' & Hx & Hf). exists x'. split; [apply elem_of_cons; by right|done].
Qed.
Lemma parsed_tip stdout cands tip : parse_ls_remote_output stdout cands = Ok (Some tip) ->
  exists c, c ∈ cands /\ tip_ref_name tip = trim_end_suffix (String.length c) "^{}" c.
Proof.
  unfold parse_ls_remote_output. intros H. destruct (try_fold _ _ _) as [[d adv]|]; [|done].
  cbn in H. injection H as H.
  apply first_some_Some in H as (c & Hc & Ht). exists c. split; [done|]. unfold find_tip in Ht. destruct (List.find _ _) as [[??]|]; [|done].
  by injection Ht as <-.
Qed.
(** A full ref is resolved to itself, another checked name to a branch or a tag of that
    name. *)
Lemma tip_of_name base64 git ls prov repo name credential base b tip :
  ls_remote_tip base64 git ls prov repo name credential base b = inl (Some tip) ->
  name <> "HEAD" -> validate_checkout_name name = Ok tt ->
  tip_ref_name tip ∈ (if starts_with "refs/" name then [name] else ["refs/heads/" +:+ name; "refs/tags/" +:+ name]).
Proof.
  intros H Hh Hv. assert (Hc : contains_char "^" name = false).
  { apply validate_ref_name_ok in Hv as (_ & _ & _ & _ & _ & _ & Hf & _). revert Hf. apply str_any_impl. by intros c <-%Ascii.eqb_eq. }
  assert (Hp : exists stdout, parse_ls_remote_output stdout (candidates_of name) = Ok (Some tip)).
  { unfold ls_remote_tip, prepare_ls_remote in H. destruct (validate_repo_path prov repo); [|done]. cbn [rbind] in H.
    destruct (if bool_decide (name = "HEAD") then _ else _) as [|]; [|done]. cbn [rbind] in H.
    destruct (negb _ && _); [by cbn in H|]. unfold upstream_url_and_auth in H. cbn [rbind of_result gbind] in H.
    case_bool_decide; [done|]. destruct (if b then _ else _) as [lines|].
    - exists lines. by destruct (parse_ls_remote_output lines _); [injection H as ->|].
    - unfold run_ls_remote in H. destruct (git _ _ _) as [[] stdout stderr| |]; [|done..]. cbn [gbind] in H. exists stdout.
      by destruct (parse_ls_remote_output stdout _); [injection H as ->|]. }
  assert (Hpre : forall p, contains_char "^" p = false -> contains_char "^" (p +:+ name) = false) by (intros p Hp'; by rewrite contains_char_app, Hp').
  destruct Hp as [stdout (c & Hin & ->)%parsed_tip]. unfold candidates_of in Hin. rewrite bool_decide_eq_false_2 in Hin by done.
  cbn [orb] in Hin. destruct (starts_with "refs/" name).
  { apply list_elem_of_singleton in Hin as ->. apply list_elem_of_singleton. by apply trim_peeled. }
  rewrite elem_of_cons, list_elem_of_singleton. apply elem_of_cons in Hin as [->|[->|[->|[]%elem_of_nil]%elem_of_cons]%elem_of_cons].
  - left. by apply trim_peeled, Hpre.
  - right. change ("refs/tags/" +:+ name +:+ "^{}") with ("refs/tags/" +:+ (name +:+ "^{}")). rewrite <- (string_app_assoc "refs/tags/" name "^{}").
    by apply trim_peeled, Hpre.
  - right. by apply trim_peeled, Hpre.
Qed.
(** The branch and the tag an answer names. *)
Definition names_checkout (selector : string) (checkout_name tag : option string) : Prop :=
  match Selector_parse selector with
  | Ok SHead => tag = None /\ forall b, checkout_name = Some b -> validate_checkout_name b = Ok tt
  | Ok (SCommit _) => checkout_name = None /\ tag = None
  | Ok (SName name) => validate_checkout_name name = Ok tt /\
      (if starts_with "refs/" name
       then checkout_name = strip_prefix "refs/heads/" name /\ tag = strip_prefix "refs/tags/" name
       else (checkout_name = Some name /\ tag = None) \/ (checkout_name = None /\ tag = Some name))
  | Err _ => False
  end.

(** ** The commit of a selector *)
Section selector.
Context {S : Serde} {En : Env S} (repo : RepoId) (prov : ProviderInstance).
(** The tip upstream gives for a name, asked with the repository's credential. *)
Definition upstream_tip (name : string) (tip : RemoteTip) : Prop :=
  exists credential, env_credentials repo = Ok credential /\
    ls_remote_tip env_base64 env_git_ls_remote env_ls_refs prov repo name credential env_origin_base true = inl (Some tip).
(** What an answer has of a selector: the commit given; the commit of upstream's
    [HEAD], with the branch it names, when git accepts that; or the commit of the ref
    upstream has under a name, with the branch or the tag that ref is. *)
Definition selected (text commit : string) (checkout_name tag : option string) : Prop :=
  match Selector_parse text with
  | Ok (SCommit c) => commit = c /\ checkout_name = None /\ tag = None
  | Ok SHead => exists tip, upstream_tip "HEAD" tip /\ commit = tip_commit tip /\ tag = None /\
      checkout_name = option_filter (fun b => is_ok (validate_checkout_name b)) (tip_default_branch tip)
  | Ok (SName name) => exists tip, upstream_tip name tip /\ commit = tip_commit tip /\
      checkout_name = strip_prefix "refs/heads/" (tip_ref_name tip) /\ tag = strip_prefix "refs/tags/" (tip_ref_name tip)
  | Err _ => False
  end.
Lemma selected_checkout text commit checkout_name tag : selected text commit checkout_name tag -> names_checkout text checkout_name tag.
Proof.
  unfold selected, names_checkout. destruct (Selector_parse text) as [[|c|name]|] eqn:Ep; [| | |done].
  - intros (tip & _ & _ & -> & ->). split; [done|]. intros b. unfold option_filter. destruct (tip_default_branch tip) as [b'|]; [|done].
    destruct (is_ok _) eqn:Eo; [|done]. intros [= <-]. by apply is_ok_true in Eo as [[] Eo].
  - by intros (_ & -> & ->).
  - intros (tip & (credential & _ & Ht) & _ & -> & ->). pose proof (selector_parse_classifies _ _ Ep) as (_ & -> & Hv & Hh & _).
    split; [done|]. apply tip_of_name in Ht; [|done..]. destruct (starts_with "refs/" text); [by apply list_elem_of_singleton in Ht as ->|].
    rewrite elem_of_cons, list_elem_of_singleton in Ht. destruct Ht as [-> | ->]; [left|right]; by rewrite strip_prefix_app.
Qed.

(** [refs] is what upstream has: [ls-refs] and [git ls-remote] answer any question
    with those of its refs that were asked for and perhaps others of its own. *)
Definition upstream_has (refs : list Advertised) : Prop :=
  validate_repo_path prov repo = Ok tt /\ Forall advert_ok refs /\ Forall resolvable refs /\ NoDup (map ad_name refs) /\
  exists asked,
    (forall cands r, r ∈ refs -> (exists c, c ∈ cands /\ (c = ad_name r \/ c = ad_name r +:+ "^{}")) -> asked cands r = true) /\
    (forall url auth cands, env_ls_refs url auth cands = None \/
       env_ls_refs url auth cands = ls_remote_lines (advertisement (List.filter (asked cands) refs))) /\
    (forall args url cands, exists stderr,
       env_git_ls_remote args url cands = Exited true (advertised_listing (List.filter (asked cands) refs)) stderr).
(** The same of the refs upstream has: [HEAD]'s commit and branch, the exact ref, or
    the branch of a name before the tag of that name, which gives the commit it
    peels to. *)
Definition selected_of (refs : list Advertised) (text commit : string) (checkout_name tag : option string) : Prop :=
  match Selector_parse text with
  | Ok (SCommit c) => commit = c /\ checkout_name = None /\ tag = None
  | Ok SHead => resolution refs "HEAD" = Some (commit, "HEAD") /\ tag = None /\
      checkout_name = option_filter (fun b => is_ok (validate_checkout_name b)) (foldl head_of None refs)
  | Ok (SName name) => exists ref, resolution refs name = Some (commit, ref) /\
      checkout_name = strip_prefix "refs/heads/" ref /\ tag = strip_prefix "refs/tags/" ref
  | Err _ => False
  end.
Lemma selected_refs refs text commit checkout_name tag : upstream_has refs ->
  selected text commit checkout_name tag -> selected_of refs text commit checkout_name tag.
Proof.
  intros (Hrepo & Hok & Hres & Hnd & asked & Hasked & Hls & Hgit). unfold selected, selected_of.
  assert (Htip : forall name tip, name = "HEAD" \/ validate_checkout_name name = Ok tt -> upstream_tip name tip ->
    resolution refs name = Some (tip_commit tip, tip_ref_name tip) /\ (name = "HEAD" -> tip_default_branch tip = foldl head_of None refs)).
  { intros name tip Hname (credential & _ & Ht).
    destruct (ls_remote_tip_spec env_base64 prov repo name credential env_origin_base env_ls_refs env_git_ls_remote asked true refs
      Hrepo Hname Hok Hres Hnd Hasked Hls Hgit) as (tip' & Ht' & Hr & Hd).
    rewrite Ht in Ht'. injection Ht' as <-. cbn in Hr. split; [by rewrite <- Hr|]. intros ?. by apply Hd. }
  destruct (Selector_parse text) as [[|c|name]|] eqn:Ep; [| done | |done].
  - intros (tip & Ht & -> & -> & ->). destruct (Htip _ _ (or_introl eq_refl) Ht) as [Hr Hd]. rewrite Hd by done.
    assert (Ename : tip_ref_name tip = "HEAD").
    { unfold resolution in Hr. cbn in Hr. destruct (List.find _ _); [|done]. by injection Hr as _ <-. }
    rewrite Ename in Hr. done.
  - intros (tip & Ht & -> & -> & ->). pose proof (selector_parse_classifies _ _ Ep) as (_ & -> & Hv & _).
    destruct (Htip _ _ (or_intror Hv) Ht) as [Hr _]. eauto.
Qed.
End selector.

Section thms.
Context {S : Serde} {SOk : SerdeOk S} (cfg : StoreConfig) (Hmax : (1 <= max_attempts cfg)%Z) (Hbounds : SerdeBounds).
Context {En : Env S} {ancestor : RepoId -> string -> string -> Prop} {EOk : EnvOk cfg En ancestor}.
#[local] Existing Instance later_preorder.
#[local] Ltac refusal := apply aspec_refuse; apply _.
#[local] Tactic Notation "refusing" uconstr(t) := apply aspec_or_refuse; [apply _|apply t].
#[local] Hint Extern 0 (Refuses _) => (repeat case_match; apply N.leb_le; reflexivity) : typeclass_instances.
#[local] Hint Extern 0 (RefusesAll _) => (intros ?; apply N.leb_le; reflexivity) : typeclass_instances.
Local Abbreviation later := (later cfg).
Local Abbreviation seen := (seen cfg).
Local Abbreviation aspec := (aspec cfg (ancestor := ancestor)).
Local Abbreviation cspec := (cspec cfg (ancestor := ancestor)).

(** ** Admitting *)
Lemma admit_seen st repo commit ref_name now st1 st' row inserted :
  repo_ok repo -> later st st1 -> reachable cfg st1 -> Control.admit_build now repo commit ref_name st1 = (st', Ok (row, inserted)) ->
  seen st st' repo commit row.
Proof.
  intros Hrepo Hl Hr H. assert (Hstep : later st1 st').
  { apply rtc_once. replace st' with (Control.admit_build now repo commit ref_name st1).1 by (by rewrite H). by constructor. }
  unfold Control.admit_build in H. destruct (let? _ := _ in check_ref ref_name); [|done]. cbv zeta in H.
  match type of H with match find_build ?k ?c ?s with _ => _ end = _ => destruct (find_build k c s) as [r|] eqn:E; [|done] end.
  apply find_build_row in E as [Hin Hkey]. destruct (decode_build r) as [b|] eqn:Eb; [|done]. cbn in H. injection H as <- <- _.
  eexists _, r. split_and!; [|reflexivity| |exact Hin|done|done].
  - by transitivity st1.
  - by eapply later_reachable.
Qed.
Lemma failed_state r row k : decode_build r = Ok row -> is_failed (kind_state row k) = true -> kc_state (cols k r) = "failed".
Proof.
  assert (Hout : forall T (of_json : json -> Result T) k c o, decode_out of_json k c = Ok o -> is_failed (erase o) = true -> kc_state c = "failed").
  { intros T of_json k' c o H. unfold decode_out, pending, is_ready, failed in H. case_bool_decide; [by injection H as <-|].
    case_bool_decide; [by inv_ok H|]. by case_bool_decide. }
  unfold decode_build. intros H. inv_ok H. destruct k; by eapply Hout.
Qed.
(** A retried row has no failed output. *)
Lemma retry_row repo commit st st' row : reachable cfg st -> retry repo commit st = (st', Ok (Some row)) ->
  seen st st' repo commit row /\ forall k, is_failed (kind_state row k) = false.
Proof.
  intros Hr H. assert (Est : st' = (retry repo commit st).1) by (by rewrite H).
  assert (Hstep : later st st') by (apply rtc_once; rewrite Est; constructor).
  assert (Hsel : select_build repo commit st' = Ok (Some row)) by (unfold retry in H; cbv zeta in H; by injection H as <- ?).
  unfold select_build in Hsel. destruct (find_build (storage_key repo) commit st') as [r|] eqn:E; [|done].
  apply find_build_row in E as [Hin Hkey]. destruct (decode_build r) as [b|] eqn:Eb; [|done]. cbn in Hsel. injection Hsel as ->.
  assert (Hr' : reachable cfg st') by by eapply later_reachable.
  split; [by exists st', r|].
  assert (Hin0 : exists r0, r0 ∈ builds st /\ row_key r0 = (storage_key repo, commit)).
  { rewrite Est in Hin. apply elem_of_update_where in Hin as (r0 & Hin0 & Er). exists r0. split; [done|]. rewrite <- Hkey, Er. by case_match. }
  destruct Hin0 as (r0 & Hin0 & Hk0).
  destruct (retry_spec cfg repo commit st r0 Hmax Hr Hin0 Hk0) as (r' & b & Hin' & Hk' & _ & _ & Hf & Hnf & _).
  assert (r = r') as -> by (eapply (keys_unique cfg st'); [by apply reachable_ok|done|by rewrite Est|congruence]).
  intros k. apply not_true_iff_false. intros Hfail%(failed_state r' row k Eb).
  destruct (decide (kc_state (cols k r0) = "failed")) as [H0|H0]; [by destruct (Hf k H0) as (Hp & _); rewrite Hp in Hfail|].
  by rewrite (Hnf k H0) in Hfail.
Qed.
(** The row admitted: a failed output stays failed on a retry only when the
    repository was removed meanwhile. *)
Definition retried (lo hi : Store) (repo : RepoId) (commit : string) (row : BuildRow) : Prop :=
  forall k, is_failed (kind_state row k) = true -> exists st, later lo st /\ later st hi /\ status repo commit st = Ok None.
Lemma admit_build_spec st repo commit ref_name retry_ : repo_ok repo ->
  cspec st (admit_build repo commit ref_name retry_)
    (fun st' p => seen st st' repo commit p.1 /\ (retry_ = true -> retried st st' repo commit p.1)).
Proof.
  intros Hrepo. unfold admit_build.
  eapply cspec_bind with (Q := fun st' p => seen st st' repo commit p.1).
  { eapply cspec_weaken; [apply (cspec_call cfg); intros; apply rtc_once; by constructor|].
    intros st' [row inserted] _ (now & st1 & Hl & Hr & H). by eapply admit_seen. }
  intros st1 [row inserted] Hl1 Hseen. cbn [fst] in Hseen. cbv zeta.
  set (failed := existsb _ _).
  eapply cspec_bind with (Q := fun st' row => seen st st' repo commit row /\ (retry_ = true -> retried st st' repo commit row)).
  { destruct (retry_ && failed) eqn:Ef.
    - apply andb_true_iff in Ef as [-> Ef].
      eapply cspec_bind; [apply (cspec_call cfg); intros; apply rtc_once; constructor|]. intros st2 o Hl2 (now & st3 & Hl3 & Hr3 & H).
      apply cspec_ret. intros st4 Hl4. destruct o as [row'|]; cbn [default].
      + destruct (retry_row repo commit st3 st2 row' Hr3 H) as [Hs Hf]. split.
        * apply (seen_mono cfg st3 st st2 st4); [by transitivity st1|done|done].
        * intros _ k Hk. by rewrite Hf in Hk.
      + split; [apply (seen_mono cfg st st st1 st4); [reflexivity|by transitivity st2|done]|]. intros _ k _. exists st2.
        split; [by transitivity st1|]. split; [done|]. unfold status. unfold retry in H. cbv zeta in H. by injection H as <- ?.
    - apply cspec_ret. intros st2 Hl2. split; [by apply (seen_mono cfg st st st1 st2)|]. intros -> k Hk. exfalso.
      cbn [andb] in Ef. revert Ef. apply not_false_iff_true. unfold failed. apply existsb_elem. exists k. split; [|done]. destruct k; set_solver. }
  intros st2 row2 Hl2 [Hs Hf].
  do 3 (eapply cspec_bind with (Q := fun _ _ => True); [case_match; [apply cspec_wake|by apply cspec_ret]|]; intros ? _ ? _).
  apply cspec_ret. intros st3 Hl3. cbn [fst].
  match goal with H1 : later st2 ?a, H2 : later ?a ?b, H3 : later ?b ?c, H4 : later ?c st3 |- _ =>
    assert (H23 : later st2 st3) by (transitivity a; [done|]; transitivity b; [done|]; by transitivity c) end.
  split; [by apply (seen_mono cfg st st st2 st3)|]. intros Hr k Hk. destruct (Hf Hr k Hk) as (s & ? & ? & ?). exists s.
  split_and!; [done|by transitivity st2|done].
Qed.

(** ** Resolving *)
Definition tag_of (resolved : Resolved) : option string := re_ref_name resolved ≫= strip_prefix "refs/tags/".
Lemma resolve_spec st repo prov text selector : Selector_parse text = Ok selector ->
  aspec st (resolve repo prov selector) (fun _ resolved => selected repo prov text (re_commit resolved) (re_checkout_name resolved) (tag_of resolved)).
Proof.
  intros Hp. unfold resolve.
  set (Q := fun (_ : Store) (p : Resolved * UpstreamRefs) => selected repo prov text (re_commit p.1) (re_checkout_name p.1) (tag_of p.1)).
  eapply aspec_bind with (Q := Q); [|intros st1 [resolved u] _ H; apply aspec_ret; intros _ _; exact H].
  unfold resolve_listing. cbn [andb]. destruct selector as [|commit|name]; unfold Q, selected; rewrite Hp.
  - eapply aspec_bind with (Q := fun _ c => env_credentials repo = Ok c); [by refusing cspec_lift|]. intros st1 credential Hl1 Hcred.
    destruct (ls_remote_tip _ _ _ _ _ _ _ _ _) as [[tip|]|error] eqn:Et; [|refusal..]. cbn [gbind].
    apply aspec_ret. intros _ _. cbn -[validate_checkout_name]. exists tip. split; [by exists credential|]. split; [done|]. split; [|done].
    unfold tag_of. cbn. by destruct (option_filter _ _).
  - by apply aspec_ret.
  - eapply aspec_bind with (Q := fun _ c => env_credentials repo = Ok c); [by refusing cspec_lift|]. intros st1 credential Hl1 Hcred.
    destruct (ls_remote_tip _ _ _ _ _ _ _ _ _) as [[tip|]|error] eqn:Et; [|refusal..]. cbn [gbind].
    apply aspec_ret. intros _ _. cbn -[strip_prefix]. exists tip. split; [by exists credential|]. done.
Qed.

(** ** The answer *)
Definition build_answer (lo hi : Store) (repo : RepoId) (prov : ProviderInstance) (retry_ : bool) (kind : option ExactResultKind)
    (text : string) (j : Json) : Prop :=
  exists row checkout_name tag output,
    as_Answer j = Ok (summary_of row checkout_name tag, output) /\ seen lo hi repo (br_commit row) row /\
    validate_object_id (br_commit row) = Ok tt /\ selected repo prov text (br_commit row) checkout_name tag /\
    names_checkout text checkout_name tag /\
    (retry_ = true -> retried lo hi repo (br_commit row) row) /\
    match kind with
    | Some kind => exists c, output = Some c /\ answered cfg lo hi repo prov (ancestor := ancestor) (br_commit row) kind c
    | None => output = None
    end.
Lemma build_answer_mono lo lo' hi repo prov retry_ kind text j : later lo' lo ->
  build_answer lo hi repo prov retry_ kind text j -> build_answer lo' hi repo prov retry_ kind text j.
Proof.
  intros Hl (row & c & t & o & H1 & H2 & H3 & H4 & H5 & H6 & H7). exists row, c, t, o.
  split_and!; [done|by apply (seen_mono cfg lo lo' hi hi)|done|done|done| |].
  - intros Hr k Hk. destruct (H6 Hr k Hk) as (st & ? & ? & ?). exists st. split_and!; [by transitivity lo|done|done].
  - destruct kind as [kind|]; [|done]. destruct H7 as (x & -> & Hx). exists x. split; [done|]. by apply (answered_mono cfg lo lo' hi hi).
Qed.
Lemma admit_resolved_spec st repo prov resolved retry_ kind text selector :
  repo_ok repo -> Selector_parse text = Ok selector ->
  selected repo prov text (re_commit resolved) (re_checkout_name resolved) (tag_of resolved) ->
  aspec st (admit_resolved repo resolved retry_ ((fun kind => (prov, kind)) <$> kind))
    (fun st' j => build_answer st st' repo prov retry_ kind text j).
Proof.
  intros Hrepo Hp Hnamed. pose proof (selected_checkout _ _ _ _ _ _ Hnamed) as Hchecked. unfold admit_resolved.
  eapply aspec_bind; [by refusing admit_build_spec|]. intros st1 [row inserted] Hl1 [Hseen Hretry]. cbn [fst] in *.
  pose proof (seen_ok cfg Hmax Hbounds _ _ _ _ _ Hseen) as (Hc & Hid & _).
  assert (Hans : forall st' output j, later st1 st' ->
    (forall j, output = Some j -> j <> JNull) ->
    (match kind, output with
     | Some kind, Some j => exists c, as_CommitOutput j = Ok c /\ answered cfg st st' repo prov (ancestor := ancestor) (re_commit resolved) kind c
     | None, None => True
     | _, _ => False
     end) ->
    (let body := index_set "checkout_name" (json_opt JStr (re_checkout_name resolved)) (build_summary_body row) in
     let body := match tag_of resolved with Some tag => index_set "tag" (JStr tag) body | None => body end in
     let body := match output with Some j => index_set "output" j body | None => body end in j = body) ->
    build_answer st st' repo prov retry_ kind text j).
  { intros st' output j Hl Hj Hout ->. pose proof (read_answer row (re_checkout_name resolved) (tag_of resolved) output Hj) as Hread.
    cbv zeta in Hread. assert (Hs' : seen st st' repo (re_commit resolved) row) by (by apply (seen_mono cfg st st st1 st')).
    destruct kind as [kind|], output as [jo|]; try done.
    - destruct Hout as (c & Hoc & Hans). rewrite Hoc in Hread. eexists row, _, _, _. split; [exact Hread|]. rewrite Hc.
      split_and!; [done|done|exact Hnamed|exact Hchecked| |by exists c].
      intros Hr k Hk. destruct (Hretry Hr k Hk) as (s & ? & ? & ?). exists s. split_and!; [done|by transitivity st1|done].
    - eexists row, _, _, _. split; [exact Hread|]. rewrite Hc. split_and!; [done|done|exact Hnamed|exact Hchecked| |done].
      intros Hr k Hk. destruct (Hretry Hr k Hk) as (s & ? & ? & ?). exists s. split_and!; [done|by transitivity st1|done]. }
  destruct kind as [kind|]; cbn [fmap option_fmap option_map].
  - eapply aspec_bind; [by apply (output_body_spec cfg Hmax Hbounds st st1 repo prov (re_commit resolved))|].
    intros st2 j Hl2 (c & Hc2 & Hans2). apply aspec_ret. intros st3 Hl3. apply (Hans st3 (Some j)).
    + by transitivity st2.
    + intros j' [= <-] ->. by vm_compute in Hc2.
    + exists c. split; [done|]. by apply (answered_mono cfg st st st2 st3).
    + done.
  - apply aspec_ret. intros st2 Hl2. by apply (Hans st2 None).
Qed.

Lemma post_build_spec st repo prov request : repo_ok repo ->
  aspec st (post_build repo prov request)
    (fun st' j => build_answer st st' repo prov (bq_retry request) (bq_kind request) (bq_selector request) j).
Proof.
  intros Hrepo. unfold post_build.
  eapply aspec_bind with (Q := fun _ s => Selector_parse (bq_selector request) = Ok s);
    [by refusing cspec_lift; intros x -> |]. intros st1 selector Hl1 Hp.
  eapply aspec_bind with (Q := fun _ _ => True).
  { apply aspec_or_refuse; [apply _|]. eapply cspec_bind; [apply (cspec_query cfg)|]. intros. by apply cspec_ret. }
  intros st2 added Hl2 _. destruct added; cbn [negb]; [|refusal].
  eapply aspec_bind; [by eapply resolve_spec|]. intros st3 resolved Hl3 Hn.
  eapply aspec_weaken; [by eapply admit_resolved_spec|]. intros st4 j Hl4 H.
  assert (Hl : later st st3) by (transitivity st1; [done|]; by transitivity st2). by apply (build_answer_mono st3 st).
Qed.

(** C19: [POST .../builds], whatever other requests and the workers do to the control
    store between its calls: it never panics; a selector that is none is refused
    before upstream or the store is asked; and the answer is read by a client as the
    state, at some time of the request, of the row of the selector's commit: the
    commit given, the commit of upstream's [HEAD], or that of the ref upstream has
    under the name, be it a branch, a tag or a full ref; so of [HEAD] and its branch,
    of the exact ref, or of the branch before the tag, in whatever refs upstream has.
    It names the branch or the tag that ref is, and of a short name or [HEAD] never one
    git would not check out; with [retry] an output is failed only when the repository
    was removed meanwhile; and the output asked for is what [GET] answers of that
    commit. *)
Theorem post_build_answers sv repo prov request :
  server_ok cfg sv (ancestor := ancestor) -> repo_ok repo ->
  (forall e, Selector_parse (bq_selector request) = Err e ->
     post_build repo prov request sv = (sv, inr (Refused (api_error 400 "invalid_selector" e)))) /\
  match post_build repo prov request sv with
  | (sv', inl j) => server_ok cfg sv' (ancestor := ancestor) /\ later (sv_store sv) (sv_store sv') /\
      build_answer (sv_store sv) (sv_store sv') repo prov (bq_retry request) (bq_kind request) (bq_selector request) j /\
      forall refs, upstream_has repo prov refs -> exists answer, as_Answer j = Ok answer /\
        selected_of refs (bq_selector request) (bs_commit answer.1) (bs_checkout_name answer.1) (bs_tag answer.1)
  | (sv', inr (Refused e)) => server_ok cfg sv' (ancestor := ancestor) /\ later (sv_store sv) (sv_store sv') /\ Refuses e
  | (_, inr Panicked) => False
  end.
Proof.
  intros Hsv Hrepo. split; [intros e He; unfold post_build, abind, or_refuse, lift; by rewrite He|].
  pose proof (run_spec cfg _ (fun st st' j => build_answer st st' repo prov (bq_retry request) (bq_kind request) (bq_selector request) j)
    sv Hsv (fun st => post_build_spec st repo prov request Hrepo)) as H.
  destruct (post_build repo prov request sv) as [sv' [j|[e|]]]; [|done..]. destruct H as (H1 & H2 & H3).
  split; [exact H1|]. split; [exact H2|]. split; [exact H3|]. intros refs Hrefs.
  destruct H3 as (row & checkout & tag & o & Hread & _ & _ & Hs & _). eexists. split; [exact Hread|]. cbn.
  by apply (selected_refs repo prov).
Qed.
End thms.

Module BuildExample.
Import ApiExample.
Definition request : BuildRequest := {| bq_selector := "v1"; bq_retry := true; bq_kind := Some Full |}.
(** Upstream's refs, as [ApiExample.env] answers for them. *)
Definition advert (name : string) (symref : option string) : Advertised :=
  {| ad_name := name; ad_oid := Example.commit; ad_symref := symref; ad_peeled := None |}.
Definition refs : list Advertised :=
  [advert "HEAD" (Some "refs/heads/main"); advert "refs/heads/main" None; advert "refs/tags/v1" None].
Lemma env_upstream : upstream_has Example.repo prov refs.
Proof.
  split; [by vm_compute|]. split; [|split; [|split]].
  - repeat constructor; vm_compute; try done; naive_solver.
  - repeat constructor; vm_compute; try done; naive_solver.
  - vm_compute. repeat constructor; set_solver.
  - exists (fun _ _ => true). split; [done|]. split; [by left|]. intros args url cands. exists "". by vm_compute.
Qed.
(** Building the tag [v1] answers its commit, with a ready Head and a pending Full. *)
Lemma post_build_answers_witness :
  exists sv' j, post_build Example.repo prov request server = (sv', inl j) /\
    build_answer Example.cfg published (sv_store sv') Example.repo prov (ancestor := fun _ _ _ => False) true (Some Full) "v1" j /\
    selected_of refs "v1" Example.commit None (Some "v1") /\
    as_Answer j = Ok ({| bs_commit := Example.commit; bs_checkout_name := None; bs_tag := Some "v1";
      bs_head := {| os_state := "ready"; os_error := None |}; bs_files := {| os_state := "pending"; os_error := None |};
      bs_full := {| os_state := "pending"; os_error := None |} |}, Some (CPending Example.commit None)).
Proof.
  destruct (post_build_answers Example.cfg example_cfg_ok serde_bounds server Example.repo prov request server_is_ok
    Example.repo_is_ok) as [_ H].
  destruct (post_build Example.repo prov request server) as [sv' x] eqn:E.
  assert (Ex : (post_build Example.repo prov request server).2 = x) by (by rewrite E). clear E.
  destruct x as [j|f]; [|vm_compute in Ex; discriminate Ex]. destruct H as (_ & _ & H & Hrefs).
  destruct (Hrefs refs env_upstream) as (answer & Ha & Hs). vm_compute in Ex. injection Ex as <-.
  assert (Hread : forall x, Ok x = Ok answer -> x = answer) by (by intros x [= ->]).
  exists sv'. eexists. split; [done|]. split; [exact H|]. vm_compute in Ha. apply Hread in Ha. subst answer. split; [exact Hs|].
  by vm_compute.
Defined.
End BuildExample.
