(* ===== verification/Routes.v ===== *)
(** The rest of [rust/src/server/api.rs]: the paths of the [/v1/repos] routes and
    the handlers they reach, the answer of a request, a repository's usage and its
    status report.

    A request is its method, the path after [/v1/repos/], the query's fields and the
    body; reading them off the connection is axum's. Storage, the decoding of a
    manifest and the regions are the server's. *)

From S2P Require Import Prelude Bytes Provider Validation Paths Outputs Control Refs LsRemote Manifest Wire Api.

(** ** Requests and answers *)
Inductive Payload := NoBody | JsonBody (j : Json) | TextBody.
Record Request := {
  rq_method : Method;
  rq_path : string;
  rq_query : list (string * string);
  rq_body : Payload;
}.
(** An answer's status and body. *)
Record Answered := { ans_status : N; ans_body : option Json }.

Definition json_error (e : ApiError) : Answered :=
  {| ans_status := ae_status e; ans_body := Some (JObj [("error", JStr (ae_error e)); ("code", JStr (ae_code e))]) |}.
Definition not_found : Answered := {| ans_status := 404; ans_body := Some (JObj [("error", JStr "not found")]) |}.

(** ** Bodies and queries *)
Definition as_bool (j : Json) : Result bool := match j with JBool b => Ok b | _ => Err "invalid type: expected a boolean" end.
(** [deny_unknown_fields]. *)
Definition only_fields (known : list string) (j : Json) : Result unit :=
  match j with
  | JObj l => if forallb (fun p => bool_decide (p.1 ∈ known)) l then Ok tt else Err "unknown field"
  | _ => Err "invalid type: expected a map"
  end.
Definition as_BuildRequest (j : Json) : Result BuildRequest :=
  let? _ := only_fields ["selector"; "retry"; "kind"] j in
  let? g := as_object j in
  let? selector := req as_string g "selector" in
  let? retry_ := dflt as_bool false g "retry" in
  let? kind := opt as_kind g "kind" in
  Ok {| bq_selector := selector; bq_retry := retry_; bq_kind := kind |}.
Definition as_AddRequest (j : Json) : Result (option string) :=
  let? _ := only_fields ["owner"] j in
  let? g := as_object j in
  opt as_string g "owner".
Definition OWNER_MAX : N := 256.
(** [CommitQuery]: a query names the kind or nothing. *)
Definition as_CommitQuery (query : list (string * string)) : Result (option ExactResultKind) :=
  match query with
  | [] => Ok None
  | [("kind", kind)] => let? kind := as_kind (JStr kind) in Ok (Some kind)
  | _ => Err "Failed to deserialize query string"
  end.
Record RepoStatusQuery := { sq_public : bool; sq_fork_of : option string }.
Fixpoint query_field (k : string) (query : list (string * string)) : option string :=
  match query with [] => None | (k', v) :: query => if String.eqb k' k then Some v else query_field k query end.
Definition as_RepoStatusQuery (query : list (string * string)) : Result RepoStatusQuery :=
  let? _ := ensure! bool_decide (NoDup (List.filter (fun k => bool_decide (k ∈ ["public"; "fork_of"])) (map fst query)))
            else "duplicate field"; Ok tt in
  let? public :=
    match query_field "public" query with
    | None => Ok false
    | Some v => if bool_decide (v = "true") then Ok true else if bool_decide (v = "false") then Ok false
                else Err "provided string was not `true` or `false`"
    end in
  Ok {| sq_public := public; sq_fork_of := query_field "fork_of" query |}.

(** [path.rsplit_once(pat)]. *)
Fixpoint rsplit_once_str (pat s : string) : option (string * string) :=
  match (match s with String a t => rsplit_once_str pat t | EmptyString => None end), s with
  | Some (l, r), String a _ => Some (String a l, r)
  | _, _ => (fun r => ("", r)) <$> strip_prefix pat s
  end.

(** ** Usage *)
Definition usage_json (u : RepoUsage) : Json :=
  let kind k := JObj [("attempts", json_n (ku_attempts k)); ("build_ms", json_n (ku_build_ms k))] in
  JObj [("commits_admitted", json_n (commits_admitted u));
        ("builds", JObj [("head", kind (u_head u)); ("files", kind (u_files u)); ("full", kind (u_full u))]);
        ("stored", JObj [("artifacts", json_n (u_artifacts u)); ("unique_bytes", json_n (Control.unique_bytes u));
                         ("shared_bytes", json_n (shared_bytes u)); ("unsized_artifacts", json_n (unsized_artifacts_count u))])].

(** ** Status *)
Record ExactStatusEntry := {
  se_commit : string; se_bytes : N; se_unique_bytes : N; se_head : bool; se_full : bool; se_files : bool;
  se_job : string; se_job_error : option string }.
Record RepoStatusResponse := {
  ss_owner : string; ss_repo : string; ss_added : bool; ss_refs : list ExactStatusEntry;
  ss_total_bytes : N; ss_total_unique_bytes : N; ss_regions : list (string * N) }.
Definition ExactStatusEntry_json (e : ExactStatusEntry) : Json :=
  JObj (fields_of [("commit", Some (JStr (se_commit e))); ("bytes", Some (json_n (se_bytes e)));
    ("unique_bytes", Some (json_n (se_unique_bytes e))); ("head", Some (JBool (se_head e))); ("full", Some (JBool (se_full e)));
    ("files", Some (JBool (se_files e))); ("job", Some (JStr (se_job e))); ("job_error", skip_none JStr (se_job_error e))]).
Definition RepoStatusResponse_json (r : RepoStatusResponse) : Json :=
  JObj [("owner", JStr (ss_owner r)); ("repo", JStr (ss_repo r)); ("added", JBool (ss_added r));
        ("refs", json_list ExactStatusEntry_json (ss_refs r)); ("total_bytes", json_n (ss_total_bytes r));
        ("total_unique_bytes", json_n (ss_total_unique_bytes r));
        ("regions", json_list (fun '(region, n) => JObj [("region", JStr region); ("unique_bytes", json_n n)]) (ss_regions r))].

(** [+=] of unsigned 64-bit numbers, in a release build. *)
Definition u64_add (a b : N) : N := ((a + b) mod 2 ^ 64)%N.
Definition record_chunk (unique_chunks : gmap string N) (hash : string) (len : N) : gmap string N :=
  if bool_decide (hash = "") || (len =? 0)%N then unique_chunks else <[hash := len]> unique_chunks.

Section routes.
Context {S : Serde} {En : Env S}.
Context (storage_get : string -> Result bytes) (decode_manifest : bytes -> option ClonepackManifest)
  (hash_to_hex : string -> string) (regions : list string)
  (registry : gmap string ProviderInstance) (signed_url_ttl : N).
Local Notation "'let^' x := e 'in' k" := (abind e (fun x => k)) (at level 10, x pattern, e at level 200, k at level 200).

(** One manifest of a row: its own bytes, then every chunk it names. *)
Definition count_chunks (acc : gmap string N * N) (chunks : list (string * N)) : gmap string N * N :=
  foldl (fun '(unique_chunks, ref_bytes) '(hash, len) => (record_chunk unique_chunks hash len, u64_add ref_bytes len)) acc chunks.
Definition count_manifest (manifests : gmap string bytes) (acc : gmap string N * N) (manifest_hash : string)
    : Result (gmap string N * N) :=
  let? manifest_bytes := context (manifests !! manifest_hash) "manifest read for status is missing" in
  let manifest_len := nlen manifest_bytes in
  let? manifest := context (decode_manifest manifest_bytes) "decode clonepack manifest for status" in
  Ok (count_chunks acc ((manifest_hash, manifest_len)
        :: map (fun c => (hash_to_hex (cr_hash c), cr_len c)) (manifest_chunk_refs manifest))).
(** The packs and idx files of a ready Full's history levels. *)
Definition level_chunks (info : RefInfo) : list (string * N) :=
  match ri_full info with
  | Some full =>
      if exact_output_ready info Full (ri_commit info) then
        List.filter (fun c => negb (bool_decide (c.1 = "")))
          (flat_map (fun level => flat_map (fun pack => [(sp_pack pack, sp_pack_len pack); (sp_idx pack, sp_idx_len pack)]) (hl_packs level))
             (fr_history_levels full))
      else []
  | None => []
  end.
Definition status_row (manifests : gmap string bytes) (is_public_fork : bool)
    (acc : list ExactStatusEntry * gmap string N) (row : BuildRow) : Result (list ExactStatusEntry * gmap string N) :=
  let '(refs, unique_chunks) := acc in
  let info := row_info row in
  let? counted := try_fold (count_manifest manifests) (unique_chunks, 0%N) (collect_manifest_hashes info) in
  let '(unique_chunks, ref_bytes) := count_chunks counted (level_chunks info) in
  let '(job, job_error) := build_summary row in
  Ok (refs ++ [{| se_commit := ri_commit info; se_bytes := ref_bytes; se_unique_bytes := if is_public_fork then 0%N else ref_bytes;
                  se_head := exact_output_ready info Head (ri_commit info); se_full := exact_output_ready info Full (ri_commit info);
                  se_files := exact_output_ready info Files (ri_commit info); se_job := job; se_job_error := job_error |}], unique_chunks).
Definition read_manifests (wanted : list string) : Result (gmap string bytes) :=
  let? read := collect (fun hash => let? data := storage_get hash in Ok (hash, data)) wanted in
  Ok (list_to_map (reverse read)).
Definition status_of (rows : list BuildRow) (is_public_fork : bool) : Result (list ExactStatusEntry * N) :=
  let? manifests := read_manifests (flat_map (fun row => collect_manifest_hashes (row_info row)) rows) in
  let? (refs, unique_chunks) := try_fold (status_row manifests is_public_fork) ([], ∅) rows in
  Ok (sort_by (fun a b => String.leb (se_commit a) (se_commit b)) refs,
      foldr u64_add 0%N (map snd (map_to_list unique_chunks))).
Definition build_repo_status (repo : RepoId) (query : RepoStatusQuery) : Stateful (Server S) RepoStatusResponse :=
  let! rows := Api.query (list_builds repo) in
  let is_public_fork := sq_public query && bool_decide (is_Some (sq_fork_of query)) in
  let! (refs, total_bytes) := lift (status_of rows is_public_fork) in
  let total_unique_bytes := if is_public_fork then 0%N else total_bytes in
  let '(owner, name) := match github_owner_repo repo with Some p => p | None => ("", "") end in
  let! added := Api.query (get_repo repo) in
  sret {| ss_owner := owner; ss_repo := name; ss_added := bool_decide (is_Some added); ss_refs := refs;
          ss_total_bytes := total_bytes; ss_total_unique_bytes := total_unique_bytes;
          ss_regions := map (fun region => (region, total_unique_bytes)) regions |}.

(** ** The handlers *)
(** A request's answer, none when its handler panicked. *)
Definition Handler : Type := Server S -> Server S * option Answered.
Definition answer_with (ok_ : Json -> Answered) (m : Api Json) : Handler := fun sv =>
  match m sv with
  | (sv, inl j) => (sv, Some (ok_ j))
  | (sv, inr (Refused e)) => (sv, Some (json_error e))
  | (sv, inr Panicked) => (sv, None)
  end.
Definition ok_json (j : Json) : Answered := {| ans_status := 200; ans_body := Some j |}.
Definition no_content : Answered := {| ans_status := 204; ans_body := None |}.
Definition answer (a : Answered) : Handler := fun sv => (sv, Some a).
Definition with_repo (repo_path : string) (k : RepoId -> ProviderInstance -> Handler) : Handler :=
  match repo_from_path registry repo_path with
  | inl (repo, prov) => k repo prov
  | inr e => answer (json_error e)
  end.

Definition repo_usage (repo : RepoId) : Api Json :=
  let^ u := or_refuse control_unavailable (Api.query (fun st => Ok (usage repo st))) in
  match u with
  | Some u => aret (usage_json u)
  | None => refuse (api_error 404 "repo_unknown" "repo not known to this server")
  end.
Definition repo_status_inner (repo : RepoId) (query : RepoStatusQuery) : Handler := fun sv =>
  match build_repo_status repo query sv with
  | (sv, Ok r) => (sv, Some (ok_json (RepoStatusResponse_json r)))
  | (sv, Err e) => (sv, Some {| ans_status := 500; ans_body := Some (JObj [("error", JStr ("status failed: " +:+ e))]) |})
  end.
(** [purge::purge]: the rows go, artifacts only they named are queued; the mirror's
    directory is removed later. *)
Definition purge (repo : RepoId) : Api Json :=
  let grace := i64_of_u64 (saturating_mul u64_max signed_url_ttl 2) in
  let^ _ := or_refuse control_unavailable (call (fun now st => purge_repo repo (i64_saturating_add now grace) st)) in
  aret JNull.

Definition dispatch_repos_get (path : string) (query : list (string * string)) : Handler :=
  match rsplit_once_str "/commits/" path with
  | Some (repo_path, commit) =>
      with_repo repo_path (fun repo prov =>
        match as_CommitQuery query with
        | Ok kind => answer_with ok_json (get_commit repo prov commit kind)
        | Err e => answer (json_error (invalid_request e))
        end)
  | None =>
      match strip_suffix "/usage" path, strip_suffix "/status" path with
      | Some repo_path, _ => with_repo repo_path (fun repo _ => answer_with ok_json (repo_usage repo))
      | None, Some repo_path =>
          with_repo repo_path (fun repo _ =>
            match as_RepoStatusQuery query with
            | Ok query => repo_status_inner repo query
            | Err e => answer {| ans_status := 400; ans_body := Some (JObj [("error", JStr e)]) |}
            end)
      | None, None => answer not_found
      end
  end.
Definition dispatch_repos_post (path : string) (body : Payload) : Handler :=
  match strip_suffix "/add" path, strip_suffix "/builds" path with
  | Some repo_path, _ =>
      with_repo repo_path (fun repo prov =>
        match (match body with NoBody => Ok None | JsonBody j => as_AddRequest j | TextBody => Err "expected value" end) with
        | Err e => answer (json_error (invalid_request ("invalid add request: " +:+ e)))
        | Ok owner =>
            if match owner with Some owner => (OWNER_MAX <? str_len owner)%N || chars_any_control owner | None => false end
            then answer (json_error (invalid_request "owner must be at most 256 bytes with no control characters"))
            else answer_with ok_json (Api.add_repo repo prov owner)
        end)
  | None, Some repo_path =>
      with_repo repo_path (fun repo prov =>
        match (match body with JsonBody j => as_BuildRequest j | _ => Err "expected value" end) with
        | Err e => answer (json_error (invalid_request ("invalid build request: " +:+ e)))
        | Ok request => answer_with ok_json (post_build repo prov request)
        end)
  | None, None => answer not_found
  end.
Definition dispatch_repos_delete (path : string) : Handler :=
  match strip_suffix "/add" path with
  | Some repo_path =>
      with_repo repo_path (fun repo _ => answer_with (fun _ => no_content) (let^ _ := remove_added_repo repo in aret JNull))
  | None => with_repo path (fun repo _ => answer_with (fun _ => no_content) (purge repo))
  end.
Definition handle (request : Request) : Handler :=
  match rq_method request with
  | MGet => dispatch_repos_get (rq_path request) (rq_query request)
  | MPost => dispatch_repos_post (rq_path request) (rq_body request)
  | MDelete => dispatch_repos_delete (rq_path request)
  end.

(** ** Status *)

(** What a row's report counts: each ready output's manifest and what it lists, and
    again the packs of a Full's history levels. *)
Definition row_chunks (row : BuildRow) : option (list (string * N)) :=
  chunks ← mapM (fun h => data ← ok (storage_get h); m ← decode_manifest data;
                   Some ((h, nlen data) :: map (fun c => (hash_to_hex (cr_hash c), cr_len c)) (manifest_chunk_refs m)))
             (collect_manifest_hashes (row_info row));
  Some (concat chunks ++ level_chunks (row_info row)).
Definition entry_of (fork : bool) (row : BuildRow) (chunks : list (string * N)) : ExactStatusEntry :=
  let bytes := (nsum (map snd chunks) mod 2 ^ 64)%N in
  {| se_commit := br_commit row; se_bytes := bytes; se_unique_bytes := if fork then 0%N else bytes;
     se_head := exact_output_ready (row_info row) Head (br_commit row); se_full := exact_output_ready (row_info row) Full (br_commit row);
     se_files := exact_output_ready (row_info row) Files (br_commit row);
     se_job := (build_summary row).1; se_job_error := (build_summary row).2 |}.
Definition record_all (m : gmap string N) (chunks : list (string * N)) : gmap string N :=
  foldl (fun m '(h, n) => record_chunk m h n) m chunks.

Lemma count_chunks_spec m n chunks : (n < 2 ^ 64)%N ->
  count_chunks (m, n) chunks = (record_all m chunks, ((n + nsum (map snd chunks)) mod 2 ^ 64)%N).
Proof.
  unfold count_chunks, record_all. revert m n. induction chunks as [|[h k] chunks IH]; intros m n Hn; cbn [foldl map].
  - cbn [nsum foldr]. rewrite N.add_0_r, N.mod_small by done. done.
  - rewrite IH by (apply N.mod_lt; lia). f_equal. change (nsum (snd (h, k) :: map snd chunks)) with (k + nsum (map snd chunks))%N.
    unfold u64_add. rewrite N.Div0.add_mod_idemp_l. f_equal. lia.
Qed.
Lemma record_all_app m c c' : record_all m (c ++ c') = record_all (record_all m c) c'.
Proof. unfold record_all. by rewrite foldl_app. Qed.
Lemma u64_sum l : foldr u64_add 0%N l = (nsum l mod 2 ^ 64)%N.
Proof.
  induction l as [|n l IH]; [done|]. cbn [foldr]. rewrite IH. unfold u64_add. rewrite N.Div0.add_mod_idemp_r. done.
Qed.
Lemma status_row_spec manifests fork row acc acc' :
  (forall h data, manifests !! h = Some data -> storage_get h = Ok data) ->
  status_row manifests fork acc row = Ok acc' ->
  exists chunks, row_chunks row = Some chunks /\ acc' = (acc.1 ++ [entry_of fork row chunks], record_all acc.2 chunks).
Proof.
  intros Hm. unfold status_row. destruct acc as [refs m]. cbn [fst snd].
  set (hashes := collect_manifest_hashes (row_info row)) in *.
  assert (Hloop : forall hashes m n acc, (n < 2 ^ 64)%N -> try_fold (count_manifest manifests) (m, n) hashes = Ok acc ->
    exists cs, mapM (fun h => data ← ok (storage_get h); m ← decode_manifest data;
                   Some ((h, nlen data) :: map (fun c => (hash_to_hex (cr_hash c), cr_len c)) (manifest_chunk_refs m))) hashes = Some cs /\
      acc = (record_all m (concat cs), ((n + nsum (map snd (concat cs))) mod 2 ^ 64)%N)).
  { clear -Hm. induction hashes as [|h hashes IH]; intros m n acc Hn H; cbn [try_fold mapM] in *.
    - injection H as <-. exists []. split; [done|]. cbn. by rewrite N.add_0_r, N.mod_small.
    - unfold count_manifest at 1 in H. destruct (manifests !! h) as [data|] eqn:Ed; [|done]. cbn [context rbind] in H.
      destruct (decode_manifest data) as [mf|] eqn:Em; [|done]. cbn [context rbind] in H.
      rewrite count_chunks_spec in H by done. apply IH in H as (cs & Hcs & ->); [|apply N.mod_lt; lia].
      rewrite (Hm _ _ Ed). cbn [ok mbind option_bind]. rewrite Em. cbn [mbind option_bind]. rewrite Hcs. cbn [mbind option_bind].
      eexists. split; [done|]. cbn [concat]. rewrite record_all_app, map_app, nsum_app. f_equal.
      rewrite N.Div0.add_mod_idemp_l. f_equal. lia. }
  intros H. destruct (try_fold _ _ _) as [counted|] eqn:E; [|done]. cbn [rbind] in H.
  apply Hloop in E as (cs & Hcs & ->); [|lia].
  exists (concat cs ++ level_chunks (row_info row)). unfold row_chunks. fold hashes. rewrite Hcs. split; [done|].
  rewrite count_chunks_spec in H by (apply N.mod_lt; lia). unfold entry_of. destruct (build_summary row) as [job e]. cbn [fst snd].
  injection H as <-. by rewrite record_all_app, map_app, nsum_app, N.Div0.add_mod_idemp_l, N.add_0_l.
Qed.
Lemma status_rows_spec manifests fork rows acc acc' :
  (forall h data, manifests !! h = Some data -> storage_get h = Ok data) ->
  try_fold (status_row manifests fork) acc rows = Ok acc' ->
  exists chunks, Forall2 (fun row c => row_chunks row = Some c) rows chunks /\
    acc' = (acc.1 ++ zip_with (entry_of fork) rows chunks, record_all acc.2 (concat chunks)).
Proof.
  intros Hm. revert acc. induction rows as [|row rows IH]; intros acc H; cbn [try_fold] in H.
  - injection H as <-. exists []. split; [constructor|]. cbn. rewrite app_nil_r. by destruct acc.
  - destruct (status_row manifests fork acc row) as [acc1|] eqn:E; [|done]. cbn [rbind] in H.
    apply status_row_spec in E as (c & Hc & ->); [|done]. apply IH in H as (cs & Hcs & ->). exists (c :: cs). split; [by constructor|].
    cbn [fst snd zip_with concat]. by rewrite <- app_assoc, record_all_app.
Qed.
Lemma read_manifests_ok wanted m h data : read_manifests wanted = Ok m -> m !! h = Some data -> storage_get h = Ok data.
Proof.
  unfold read_manifests. intros H. destruct (collect _ wanted) as [read|] eqn:E; [|done]. cbn in H. injection H as <-.
  intros Hh%elem_of_list_to_map_2. rewrite elem_of_reverse in Hh. apply collect_ok in E.
  destruct (Forall2_in_r _ _ _ _ E Hh) as (h' & _ & Hf). destruct (storage_get h') as [d|] eqn:Ed; [|done]. cbn in Hf.
  injection Hf as -> ->. done.
Qed.

(** The chunks that have a name and bytes. *)
Definition counted (chunks : list (string * N)) : gset string :=
  list_to_set (map fst (List.filter (fun c => negb (bool_decide (c.1 = "") || (c.2 =? 0)%N)) chunks)).
Lemma record_all_lookup len_of chunks m :
  (forall h n, (h, n) ∈ chunks -> n = len_of h) -> (forall h n, m !! h = Some n -> n = len_of h) ->
  dom (record_all m chunks) = dom m ∪ counted chunks /\ forall h n, record_all m chunks !! h = Some n -> n = len_of h.
Proof.
  revert m. induction chunks as [|[h n] chunks IH]; intros m Hc Hm; cbn [record_all foldl].
  - split; [|exact Hm]. unfold counted. cbn. set_solver.
  - destruct (IH (record_chunk m h n)) as [H1 H2].
    + intros h' n' H'. apply Hc, elem_of_cons. by right.
    + intros h' n'. unfold record_chunk. case_match; [by apply Hm|]. intros [[<- <-]|[_ H']]%lookup_insert_Some; [|by apply Hm].
      apply Hc, elem_of_cons. by left.
    + fold (record_all (record_chunk m h n) chunks). split; [|exact H2]. rewrite H1. unfold counted, record_chunk. cbn [List.filter fst snd].
      destruct (bool_decide (h = "") || (n =? 0)%N) eqn:E; cbn [negb map list_to_set]; [done|]. rewrite dom_insert_L. cbn. set_solver.
Qed.
Lemma sum_map len_of (m : gmap string N) : (forall h n, m !! h = Some n -> n = len_of h) ->
  nsum (map snd (map_to_list m)) = nsum (map len_of (elements (dom m))).
Proof.
  intros Hm. assert (Hs : map snd (map_to_list m) = map len_of (map fst (map_to_list m))).
  { rewrite map_map. apply map_ext_in. intros [h n] Hin%list_elem_of_In%elem_of_map_to_list. by apply Hm. }
  rewrite Hs. assert (Hp : map len_of (map fst (map_to_list m)) ≡ₚ map len_of (elements (dom m))).
  { apply Permutation_map. apply NoDup_Permutation; [apply NoDup_fst_map_to_list|apply NoDup_elements|].
    intros h. rewrite elem_of_elements, elem_of_dom, elem_of_lmap. split.
    - intros ([h' n] & -> & Hin%elem_of_map_to_list). by exists n.
    - intros [n Hn]. exists (h, n). split; [done|]. by apply elem_of_map_to_list. }
  revert Hp. generalize (map len_of (map fst (map_to_list m))), (map len_of (elements (dom m))). unfold nsum.
  induction 1; cbn; lia.
Qed.

(** The report of [GET .../status]: one entry per commit, in the order of the
    commits, with the ready outputs and the job of its row, and the bytes of what its
    ready outputs list; and in all, each stored artifact's bytes once, whatever
    outputs and commits share it. A public fork is charged nothing. (Sums of
    64-bit numbers.) *)
Lemma status_spec rows fork refs total len_of :
  status_of rows fork = Ok (refs, total) ->
  (forall row chunks h n, row ∈ rows -> row_chunks row = Some chunks -> (h, n) ∈ chunks -> n = len_of h) ->
  exists chunks, Forall2 (fun row c => row_chunks row = Some c) rows chunks /\
    refs ≡ₚ zip_with (entry_of fork) rows chunks /\
    StronglySorted (fun a b => String.leb (se_commit a) (se_commit b) = true) refs /\
    total = (nsum (map len_of (elements (counted (concat chunks)))) mod 2 ^ 64)%N.
Proof.
  intros H Hlen. unfold status_of in H. destruct (read_manifests _) as [manifests|] eqn:Em; [|done]. cbn [rbind] in H.
  destruct (try_fold _ _ rows) as [acc|] eqn:E; [|done]. cbn [rbind] in H.
  apply status_rows_spec in E as (chunks & Hchunks & ->); [|intros h data; by eapply read_manifests_ok]. cbn [fst snd app] in H.
  injection H as <- <-. exists chunks. split; [exact Hchunks|]. split; [apply sort_by_perm|]. split.
  { apply sort_by_sorted; intros; [apply str_leb_total|by eapply str_leb_trans]. }
  rewrite u64_sum. f_equal.
  destruct (record_all_lookup len_of (concat chunks) ∅) as [Hd Hm].
  - intros h n (c & Hc & Hn)%list_elem_of_In%in_concat. apply list_elem_of_In in Hc, Hn. destruct (Forall2_in_r _ _ _ _ Hchunks Hc) as (row & Hrow & Hr). by eapply Hlen.
  - intros h n Hn. by rewrite lookup_empty in Hn.
  - rewrite (sum_map len_of) by exact Hm. by rewrite Hd, dom_empty_L, union_empty_l_L.
Qed.

(** ** Paths *)
Lemma rsplit_once_str_none pat s : contains pat s = false -> rsplit_once_str pat s = None.
Proof.
  induction s as [|a s IH]; cbn [rsplit_once_str contains].
  - intros H. apply orb_false_iff in H as [H _]. unfold starts_with in H. by destruct (strip_prefix pat "").
  - intros [H1 H2]%orb_false_iff. rewrite IH by done. unfold starts_with in H1. by destruct (strip_prefix pat (String a s)).
Qed.
(** The path of a commit's output is that commit's, of that repository. *)
Lemma commit_path p c : contains_char "/" c = false -> rsplit_once_str "/commits/" (p +:+ "/commits/" +:+ c) = Some (p, c).
Proof.
  intros Hc. induction p as [|a p IH].
  - change ("" +:+ "/commits/" +:+ c) with (String "/" ("commits/" +:+ c)). cbn [rsplit_once_str].
    assert (Hn : contains "/commits/" ("commits/" +:+ c) = false).
    { apply not_true_iff_false. rewrite contains_true. intros (l & r & H). cbn [String.append] in H.
      do 7 (destruct l as [|? l]; [discriminate H|cbn in H; injection H as <- H]).
      assert (Hs : contains_char "/" c = true); [|congruence].
      destruct l as [|a l]; cbn in H; [injection H as ->|injection H as <- ->].
      - by cbn.
      - by rewrite contains_char_app, orb_true_r. }
    rewrite (rsplit_once_str_none _ _ Hn). change (String "/" ("commits/" +:+ c)) with ("/commits/" +:+ c).
    by rewrite strip_prefix_app.
  - change (String a p +:+ "/commits/" +:+ c) with (String a (p +:+ "/commits/" +:+ c)). cbn [rsplit_once_str]. by rewrite IH.
Qed.

(** A repository's path names it. *)
Lemma repo_from_path_ok prov p :
  registry !! pi_id prov = Some prov -> contains_char "/" (pi_id prov) = false ->
  validate_repo_path prov {| provider := pi_id prov; path := p |} = Ok tt ->
  repo_from_path registry (pi_id prov +:+ "/" +:+ p) = inl ({| provider := pi_id prov; path := p |}, prov).
Proof.
  intros Hreg Hc Hv. unfold repo_from_path, resolve_repo_id.
  change (pi_id prov +:+ "/" +:+ p) with (pi_id prov +:+ String "/" p). rewrite split_on_app by done.
  pose proof (join_split "/" p) as Hj. destruct (split_on "/" p) as [|first rest] eqn:E; [by apply split_on_nonempty in E|].
  rewrite Hreg. cbn [mbind option_bind]. by rewrite Hj, Hv.
Qed.
End routes.

Module RoutesExample.
Definition commit : string := "0123456789abcdef0123456789abcdef01234567".
Definition manifest : string := "0123456789abcdef0123456789abcdef0123456789abcdef0123456789abcdef".
Definition pack_id : string := "1123456789abcdef0123456789abcdef0123456789abcdef0123456789abcdef".
Definition idx : string := "2123456789abcdef0123456789abcdef0123456789abcdef0123456789abcdef".
Definition chunk : string := "3123456789abcdef0123456789abcdef0123456789abcdef0123456789abcdef".
Definition lease : Lease := {| l_attempts := 1; l_until := None |}.
(** A Full whose history is one level of one pack of 100 bytes, with an idx of 10. *)
Definition full : FullResult :=
  {| fr_clonepack := {| ca_manifest := manifest; ca_metadata_chunk := chunk; ca_metadata_delta := ""; ca_midx := "";
       ca_idx_bundle := ""; ca_commit := commit |};
     fr_packs := [{| pa_pack := pack_id; pa_idx := idx |}];
     fr_history_levels := [{| hl_tip_commit := commit; hl_packs := [{| sp_pack := pack_id; sp_pack_len := 100; sp_idx := idx; sp_idx_len := 10 |}] |}];
     fr_head_base := None; fr_own_history := None |}.
Definition row : BuildRow :=
  {| br_commit := commit; br_ref_name := None; br_parent := None; br_created_at := 0; br_seq := 1;
     br_head := Pending None; br_files := Pending None; br_full := Ready full;
     br_head_lease := lease; br_files_lease := lease; br_full_lease := lease |}.
(** Its manifest of 3 bytes lists the table, the pack and the idx. *)
Definition decoded : ClonepackManifest :=
  {| cm_commit := commit; cm_parent_commit := None; cm_metadata_chunk := Some {| cr_hash := chunk; cr_len := 5 |};
     cm_metadata_delta := None; cm_archive_chunks := [];
     cm_packs := [{| pe_pack := Some {| cr_hash := pack_id; cr_len := 100 |}; pe_idx := Some {| cr_hash := idx; cr_len := 10 |};
                     history_only := true; idx_bundle_offset := None |}];
     cm_midx := None; cm_idx_bundle := None |}.
Definition storage (h : string) : Result bytes :=
  if bool_decide (h = manifest) then Ok [Byte.x00; Byte.x01; Byte.x02] else Err "not found".
Definition decode (b : bytes) : option ClonepackManifest := Some decoded.
Definition len_of (h : string) : N :=
  if bool_decide (h = manifest) then 3%N else if bool_decide (h = pack_id) then 100%N else if bool_decide (h = idx) then 10%N else 5%N.

Lemma status_spec_witness :
  exists refs total chunks, status_of storage decode (fun h => h) [row] false = Ok (refs, total) /\
    row_chunks storage decode (fun h => h) row = Some chunks /\ refs ≡ₚ [entry_of false row chunks] /\ total = 118%N.
Proof.
  destruct (status_of storage decode (fun h => h) [row] false) as [[refs total]|] eqn:E; [|by vm_compute in E].
  exists refs, total.
  destruct (status_spec storage decode (fun h => h) [row] false refs total len_of E) as (chunks & Hc & Hr & _ & Ht).
  - intros r c h n ->%list_elem_of_singleton Hc Hin. vm_compute in Hc. injection Hc as <-. clear E.
    repeat (apply elem_of_cons in Hin as [[= -> ->]|Hin]; [by vm_compute|]). by apply elem_of_nil in Hin.
  - inversion Hc as [|r c rs cs Hrow Hnil]; subst. inversion Hnil; subst. exists c. split; [done|]. split; [exact Hrow|].
    split; [exact Hr|]. vm_compute in Hrow. injection Hrow as <-. by vm_compute.
Defined.
(** The entry of a commit counts its history's packs twice: its bytes are more than
    those of all that is stored. *)
Lemma status_counts_history_twice :
  exists entry, status_of storage decode (fun h => h) [row] false = Ok ([entry], 118%N) /\ se_bytes entry = 228%N.
Proof. eexists. split; [vm_compute; reflexivity|]. by vm_compute. Qed.

Definition gitlab : ProviderInstance :=
  {| pi_id := "gitlab"; pi_kind := GitLab; pi_host := "gitlab.com"; pi_auth_template := None; pi_auth_header_name := None |}.
(** Purging a repository named [add] removes its group's registration instead: the
    path is read as that of another route. *)
Lemma purge_of_add_misrouted {S : Serde} {En : Env S} :
  validate_repo_path gitlab {| provider := "gitlab"; path := "group/sub/add" |} = Ok tt /\
  dispatch_repos_delete {[ "gitlab" := gitlab ]} 3600 "gitlab/group/sub/add"
  = answer_with (fun _ => no_content)
      (abind (remove_added_repo {| provider := "gitlab"; path := "group/sub" |}) (fun _ => aret JNull)).
Proof. split; [by vm_compute|]. reflexivity. Qed.
End RoutesExample.
