(* ===== verification/Webhooks.v ===== *)
(** [POST /webhooks/{provider}] ([rust/src/server/webhooks.rs], [rust/src/webhook/]):
    each provider's signature check and payload, and what a verified event does: a
    build of a pushed commit of the default branch, a refresh of the refs, or
    nothing.

    HMAC-SHA256 and the reading of JSON text are parameters. A request's headers are
    by lower-case name. Metrics and logs are left out. *)

From S2P Require Import Prelude Bytes Provider Validation Paths Outputs Cas Control ControlThms Refs LsRemote Manifest Wire Api Routes ApiThms.

(** ** Events *)
Definition is_zero_sha (sha : string) : bool := negb (bool_decide (sha = "")) && str_all (Ascii.eqb "0") sha.
Inductive EventKind := Push | Delete | Ping.
#[export] Instance EventKind_eq_dec : EqDecision EventKind.
Proof. solve_decision. Defined.
Record CanonicalEvent := {
  ev_kind : EventKind;
  ev_repo : string;
  ev_ref : string;
  ev_after : option string;
  ev_default_branch : option string;
  ev_private : option bool;
}.
Definition ping_event : CanonicalEvent :=
  {| ev_kind := Ping; ev_repo := ""; ev_ref := ""; ev_after := None; ev_default_branch := None; ev_private := None |}.

Abbreviation Headers := (gmap string string) (only parsing).
Definition header (headers : Headers) (name : string) : option string := value ← headers !! name; to_str value.

(** The trait [WebhookProvider]. *)
Record WebhookProvider := {
  verify : Headers -> bytes -> string -> bool;
  parse : Headers -> bytes -> option CanonicalEvent;
}.

Section adapters.
Context (hmac_sha256 : bytes -> bytes -> bytes) (from_slice : bytes -> option Json).

(** The signature in hex. *)
Definition signature_ok (hex_sig : string) (raw : bytes) (secret : string) : bool :=
  match hex_decode hex_sig with
  | Some provided => bool_decide (hmac_sha256 (String.list_byte_of_string secret) raw = provided)
  | None => false
  end.
Definition from_payload {A} (f : Json -> Result A) (raw : bytes) : option A := j ← from_slice raw; ok (f j).
Definition as_i64 (j : Json) : Result Z :=
  match j with
  | JNum n => if (i64_min <=? n)%Z && (n <=? i64_max)%Z then Ok n else Err "invalid value: expected i64"
  | _ => Err "invalid type: expected i64"
  end.
(** A tip that is missing or all zeros is a delete. *)
Definition zero_tip (after : option string) : bool := default true (is_zero_sha <$> after).
Definition live_tip (after : option string) : option string := option_filter (fun a => negb (is_zero_sha a)) after.

(** *** GitHub *)
Definition GitHub_payload (j : Json) : Result CanonicalEvent :=
  let? g := as_object j in
  let? ref := req as_string g "ref" in
  let? after := opt as_string g "after" in
  let? deleted := dflt as_bool false g "deleted" in
  let? repository := req as_object g "repository" in
  let? name := req as_string repository "name" in
  let? owner := req as_object repository "owner" in
  let? login := req as_string owner "login" in
  let? default_branch := opt as_string repository "default_branch" in
  let? private := opt as_bool repository "private" in
  Ok {| ev_kind := if deleted || zero_tip after then Delete else Push; ev_repo := login +:+ "/" +:+ name; ev_ref := ref;
        ev_after := live_tip after; ev_default_branch := default_branch; ev_private := private |}.
Definition webhook_GitHub : WebhookProvider := {|
  verify headers raw secret :=
    match (value ← header headers "x-hub-signature-256"; strip_prefix "sha256=" value) with
    | Some hex_sig => signature_ok hex_sig raw secret
    | None => false
    end;
  parse headers raw :=
    event ← header headers "x-github-event";
    if bool_decide (event = "ping") then Some ping_event
    else if bool_decide (event = "push") then from_payload GitHub_payload raw
    else None;
|}.

(** *** GitLab *)
Definition GitLab_payload (j : Json) : Result CanonicalEvent :=
  let? g := as_object j in
  let? ref := req as_string g "ref" in
  let? after := opt as_string g "after" in
  let? project := req as_object g "project" in
  let? path := req as_string project "path_with_namespace" in
  let? default_branch := opt as_string project "default_branch" in
  let? visibility_level := opt as_i64 project "visibility_level" in
  Ok {| ev_kind := if zero_tip after then Delete else Push; ev_repo := path; ev_ref := ref;
        ev_after := live_tip after; ev_default_branch := default_branch;
        ev_private := (fun level => (level <? 20)%Z) <$> visibility_level |}.
Definition webhook_GitLab : WebhookProvider := {|
  verify headers raw secret := bool_decide (header headers "x-gitlab-token" = Some secret);
  parse headers raw :=
    event ← header headers "x-gitlab-event";
    if bool_decide (event = "Push Hook") || bool_decide (event = "Tag Push Hook") then from_payload GitLab_payload raw else None;
|}.

(** *** Gitea *)
Definition Gitea_repository (g : Fields) : Result (string * option string * option bool) :=
  let? repository := req as_object g "repository" in
  let? full_name := req as_string repository "full_name" in
  let? default_branch := opt as_string repository "default_branch" in
  let? private := opt as_bool repository "private" in
  Ok (full_name, default_branch, private).
Definition Gitea_push (j : Json) : Result CanonicalEvent :=
  let? g := as_object j in
  let? ref := req as_string g "ref" in
  let? after := opt as_string g "after" in
  let? (full_name, default_branch, private) := Gitea_repository g in
  Ok {| ev_kind := if zero_tip after then Delete else Push; ev_repo := full_name; ev_ref := ref;
        ev_after := live_tip after; ev_default_branch := default_branch; ev_private := private |}.
Definition Gitea_delete (j : Json) : Result (option CanonicalEvent) :=
  let? g := as_object j in
  let? ref := req as_string g "ref" in
  let? ref_type := opt as_string g "ref_type" in
  let? (full_name, default_branch, private) := Gitea_repository g in
  let prefix := if bool_decide (ref_type = Some "branch") then Some "refs/heads"
                else if bool_decide (ref_type = Some "tag") then Some "refs/tags" else None in
  Ok ((fun prefix => {| ev_kind := Delete; ev_repo := full_name; ev_ref := prefix +:+ "/" +:+ ref; ev_after := None;
                        ev_default_branch := default_branch; ev_private := private |}) <$> prefix).
Definition webhook_Gitea : WebhookProvider := {|
  verify headers raw secret :=
    match header headers "x-gitea-signature" with
    | Some hex_sig => signature_ok hex_sig raw secret
    | None => false
    end;
  parse headers raw :=
    event ← header headers "x-gitea-event";
    if bool_decide (event = "ping") then Some ping_event
    else if bool_decide (event = "push") then from_payload Gitea_push raw
    else if bool_decide (event = "delete") then mjoin (from_payload Gitea_delete raw)
    else None;
|}.
Definition provider_for (kind : ProviderKind) : option WebhookProvider :=
  match kind with
  | GitHub => Some webhook_GitHub
  | GitLab => Some webhook_GitLab
  | Gitea => Some webhook_Gitea
  | Generic => None
  end.

(** ** The receiver *)
Definition MAX_WEBHOOK_BODY_BYTES : N := 25 * 1024 * 1024.
Context {S : Serde} {En : Env S}.
Context (registry : gmap string ProviderInstance).
(** [WebhookConfig]: the secrets by provider. *)
Context (secrets : gmap string string).

(** A refresh of a repository's refs started in the background, and after how many
    calls of the control store. *)
Record Spawned := { sp_repo : RepoId; sp_after : nat }.
Definition Hook : Type := Server S -> Server S * (Answered * list Spawned).
Definition error_answer (status : N) (error : string) : Answered :=
  {| ans_status := status; ans_body := Some (JObj [("error", JStr error)]) |}.
Definition webhook_ignored (reason : string) : Answered := {| ans_status := 200; ans_body := Some (JObj [("ignored", JStr reason)]) |}.
Definition webhook_accepted : Answered := {| ans_status := 200; ans_body := Some (JObj [("ok", JBool true)]) |}.
Definition hook_answer (a : Answered) : Hook := fun sv => (sv, (a, [])).
Definition hook_refresh (repo : RepoId) : Hook := fun sv =>
  (sv, (webhook_accepted, [{| sp_repo := repo; sp_after := sv_calls sv |}])).

Definition event_repo (p : ProviderInstance) (event : CanonicalEvent) : RepoId := {| provider := pi_id p; path := ev_repo event |}.
Definition webhook_repo (p : ProviderInstance) (event : CanonicalEvent) (k : RepoId -> Hook) : Hook := fun sv =>
  let repo_id := event_repo p event in
  match validate_repo_path p repo_id with
  | Err _ => hook_answer (webhook_ignored "invalid repo path") sv
  | Ok _ =>
      match repo_is_added repo_id sv with
      | (sv, inl true) => k repo_id sv
      | (sv, inl false) => hook_answer (webhook_ignored "repo not added") sv
      | (sv, inr (Refused e)) => hook_answer (json_error e) sv
      | (sv, inr Panicked) => hook_answer (error_answer 500 "") sv
      end
  end.
Definition webhook_refresh_refs (p : ProviderInstance) (event : CanonicalEvent) : Hook := webhook_repo p event hook_refresh.
Definition webhook_dispatch_push (p : ProviderInstance) (event : CanonicalEvent) : Hook :=
  webhook_repo p event (fun repo_id =>
    let branch := default "" (strip_prefix "refs/heads/" (ev_ref event)) in
    if negb (is_ok (validate_checkout_name branch)) then hook_answer (webhook_ignored "invalid branch")
    else
      match ev_after event with
      | None => hook_answer (webhook_ignored "push event has no after commit")
      | Some after =>
          if negb (is_ok (validate_object_id after)) then hook_answer (webhook_ignored "push event has invalid after commit")
          else if negb (bool_decide (ev_default_branch event = Some branch)) then hook_refresh repo_id
          else fun sv =>
            match Api.admit_build repo_id after (Some ("refs/heads/" +:+ branch)) false sv with
            | (sv, Ok _) => hook_refresh repo_id sv
            | (sv, Err e) => hook_answer (error_answer 503 ("durable admission failed: " +:+ e)) sv
            end
      end).
Definition webhook_event (p : ProviderInstance) (event : CanonicalEvent) : Hook :=
  let head := starts_with "refs/heads/" (ev_ref event) in
  let tag := starts_with "refs/tags/" (ev_ref event) in
  match ev_kind event with
  | Ping => hook_answer webhook_accepted
  | Push => if head then webhook_dispatch_push p event
            else if tag then webhook_refresh_refs p event else hook_answer (webhook_ignored "not a branch or tag")
  | Delete => if head || tag then webhook_refresh_refs p event else hook_answer (webhook_ignored "not a branch or tag")
  end.
(** [body] is the request's bytes when they can be read. *)
Definition handle_webhook (provider_id : string) (headers : Headers) (body : option bytes) : Hook :=
  match registry !! provider_id with
  | None => hook_answer (json_error unknown_provider)
  | Some p =>
      match provider_for (pi_kind p) with
      | None => hook_answer (error_answer 501 ("webhooks not yet implemented for provider kind '" +:+ ProviderKind_as_str (pi_kind p) +:+ "'"))
      | Some adapter =>
          match secrets !! pi_id p with
          | None => hook_answer (error_answer 503 ("no webhook secret configured for provider '" +:+ pi_id p +:+ "'"))
          | Some secret =>
              match (raw ← body; if (MAX_WEBHOOK_BODY_BYTES <? nlen raw)%N then None else Some raw) with
              | None => hook_answer (error_answer 413 "webhook body too large or unreadable")
              | Some raw =>
                  if negb (verify adapter headers raw secret) then hook_answer (error_answer 401 "invalid webhook signature")
                  else
                    match parse adapter headers raw with
                    | None => hook_answer (webhook_ignored "unhandled event")
                    | Some event => webhook_event p event
                    end
              end
          end
      end
  end.
End adapters.

(** ** Secrets *)

(** [to_ascii_uppercase]. *)
Definition to_ascii_uppercase (c : ascii) : ascii := if byte_in 97 122 c then ascii_of_N (N_of_ascii c - 32) else c.
Fixpoint env_suffix (id : string) : string :=
  match id with
  | EmptyString => ""
  | String c id => String (if is_ascii_alphanumeric c then to_ascii_uppercase c else "_"%char) (env_suffix id)
  end.
Definition env_var (prefix id : string) : string := prefix +:+ "_" +:+ env_suffix id.
Definition secret (value : option string) : option string := option_filter (fun s => negb (bool_decide (trim s = ""))) value.
(** [WebhookConfig::from_env]. *)
Definition WebhookConfig_from_env (registry : gmap string ProviderInstance) (var : string -> option string) : gmap string string :=
  foldr (fun '(_, p) secrets =>
    match secret (var (env_var "RIPCLONE_WEBHOOK_SECRET" (pi_id p))) with
    | Some s => <[pi_id p := s]> secrets
    | None => secrets
    end) ∅ (map_to_list registry).

(** ** What a delivery may do *)
Section safe.
Context (hmac_sha256 : bytes -> bytes -> bytes) (from_slice : bytes -> option Json).
Context {S : Serde} {En : Env S} (registry : gmap string ProviderInstance) (secrets : gmap string string).

(** The delivery carries the signature of the provider's secret. *)
Definition signed (kind : ProviderKind) (headers : Headers) (raw : bytes) (secret : string) : Prop :=
  let key := String.list_byte_of_string secret in
  match kind with
  | GitHub => exists hex, header headers "x-hub-signature-256" = Some ("sha256=" +:+ hex) /\ hex_decode hex = Some (hmac_sha256 key raw)
  | GitLab => header headers "x-gitlab-token" = Some secret
  | Gitea => exists hex, header headers "x-gitea-signature" = Some hex /\ hex_decode hex = Some (hmac_sha256 key raw)
  | Generic => False
  end.
Definition authentic (provider_id : string) (headers : Headers) (body : option bytes) (p : ProviderInstance) (event : CanonicalEvent) : Prop :=
  exists adapter secret raw, registry !! provider_id = Some p /\ provider_for hmac_sha256 from_slice (pi_kind p) = Some adapter /\
    secrets !! pi_id p = Some secret /\ body = Some raw /\ (nlen raw <= MAX_WEBHOOK_BODY_BYTES)%N /\
    signed (pi_kind p) headers raw secret /\ parse adapter headers raw = Some event.

Lemma signature_ok_true hex raw secret :
  signature_ok hmac_sha256 hex raw secret = true <-> hex_decode hex = Some (hmac_sha256 (String.list_byte_of_string secret) raw).
Proof. unfold signature_ok. destruct (hex_decode hex); [|done]. rewrite bool_decide_eq_true. split; congruence. Qed.
Lemma verify_signed kind adapter headers raw secret :
  provider_for hmac_sha256 from_slice kind = Some adapter ->
  verify adapter headers raw secret = true <-> signed kind headers raw secret.
Proof.
  destruct kind; cbn [provider_for]; intros [= <-]; cbn [verify webhook_GitHub webhook_GitLab webhook_Gitea signed].
  - destruct (header headers "x-hub-signature-256") as [v|]; cbn [mbind option_bind]; [|naive_solver].
    destruct (strip_prefix "sha256=" v) as [hex|] eqn:E.
    + apply strip_prefix_Some in E as ->. rewrite signature_ok_true. split; [by eexists|]. by intros (h & [= <-] & ?).
    + split; [done|]. intros (h & Hv & _). injection Hv as ->. pose proof (proj2 (strip_prefix_Some "sha256=" ("sha256=" +:+ h) h) eq_refl) as Hs.
      discriminate (eq_trans (eq_sym Hs) E).
  - apply bool_decide_eq_true.
  - destruct (header headers "x-gitea-signature") as [v|]; [|naive_solver]. rewrite signature_ok_true. naive_solver.
Qed.

(** The event names a commit to build: a push to the default branch. *)
Definition builds (event : CanonicalEvent) (branch after : string) : Prop :=
  ev_kind event = Push /\ ev_ref event = "refs/heads/" +:+ branch /\ ev_default_branch event = Some branch /\
  ev_after event = Some after /\ validate_checkout_name branch = Ok tt /\ validate_object_id after = Ok tt.

(** What a verified event of [p] does from [sv]. *)
Inductive hook_effect (p : ProviderInstance) (event : CanonicalEvent) (sv : Server S) : Server S -> list Spawned -> Prop :=
  | effect_none : hook_effect p event sv sv []
  | effect_read sv' r : repo_is_added (event_repo p event) sv = (sv', r) -> hook_effect p event sv sv' []
  | effect_refresh sv' : validate_repo_path p (event_repo p event) = Ok tt ->
      repo_is_added (event_repo p event) sv = (sv', inl true) -> ev_kind event <> Ping ->
      hook_effect p event sv sv' [{| sp_repo := event_repo p event; sp_after := sv_calls sv' |}]
  | effect_build sv1 sv' r branch after : validate_repo_path p (event_repo p event) = Ok tt ->
      repo_is_added (event_repo p event) sv = (sv1, inl true) -> builds event branch after ->
      Api.admit_build (event_repo p event) after (Some ("refs/heads/" +:+ branch)) false sv1 = (sv', r) ->
      hook_effect p event sv sv'
        (if is_ok r then [{| sp_repo := event_repo p event; sp_after := sv_calls sv' |}] else []).

Lemma webhook_repo_effect p event k sv sv' a spawned :
  (forall sv1, validate_repo_path p (event_repo p event) = Ok tt -> repo_is_added (event_repo p event) sv = (sv1, inl true) ->
     forall sv' a spawned, k (event_repo p event) sv1 = (sv', (a, spawned)) -> hook_effect p event sv sv' spawned) ->
  webhook_repo p event k sv = (sv', (a, spawned)) -> hook_effect p event sv sv' spawned.
Proof.
  intros Hk. unfold webhook_repo, hook_answer. destruct (validate_repo_path _ _) as [[]|] eqn:Ev; [|intros [= <- <- <-]; constructor].
  destruct (repo_is_added _ sv) as [sv1 [[]|[]]] eqn:Er; try (intros [= <- <- <-]; by eapply effect_read). by apply Hk.
Qed.
Lemma hook_refresh_effect p event sv sv1 sv' a spawned :
  validate_repo_path p (event_repo p event) = Ok tt -> repo_is_added (event_repo p event) sv = (sv1, inl true) -> ev_kind event <> Ping ->
  hook_refresh (event_repo p event) sv1 = (sv', (a, spawned)) -> hook_effect p event sv sv' spawned.
Proof. intros Hv Hr Hk [= <- <- <-]. by apply effect_refresh. Qed.
Lemma webhook_event_effect p event sv sv' a spawned :
  webhook_event p event sv = (sv', (a, spawned)) -> hook_effect p event sv sv' spawned.
Proof.
  assert (Href : ev_kind event <> Ping -> webhook_refresh_refs p event sv = (sv', (a, spawned)) -> hook_effect p event sv sv' spawned).
  { intros Hk. apply webhook_repo_effect. intros sv1 Hv Hr ? ? ?. by apply hook_refresh_effect. }
  assert (Hnone : hook_answer webhook_accepted sv = (sv', (a, spawned)) -> hook_effect p event sv sv' spawned) by (intros [= <- <- <-]; constructor).
  assert (Hign : forall m, hook_answer (webhook_ignored m) sv = (sv', (a, spawned)) -> hook_effect p event sv sv' spawned) by (intros m [= <- <- <-]; constructor).
  unfold webhook_event. destruct (ev_kind event) eqn:Ek; [| |done].
  - destruct (starts_with "refs/heads/" (ev_ref event)) eqn:Eh; [|destruct (starts_with "refs/tags/" _); [by apply Href|apply Hign]].
    apply starts_with_true in Eh as [branch Hb]. apply webhook_repo_effect. intros sv1 Hv Hr. rewrite Hb.
    rewrite (proj2 (strip_prefix_Some _ _ _) eq_refl). cbn [default id]. clear sv' a spawned Href Hnone Hign. intros sv' a spawned.
    assert (Hread : forall m, hook_answer (webhook_ignored m) sv1 = (sv', (a, spawned)) -> hook_effect p event sv sv' spawned)
      by (intros m [= <- <- <-]; by eapply effect_read).
    destruct (validate_checkout_name branch) as [[]|] eqn:Ec; cbn [is_ok negb]; [|apply Hread].
    destruct (ev_after event) as [after|] eqn:Ea; [|apply Hread].
    destruct (validate_object_id after) as [[]|] eqn:Eo; cbn [is_ok negb]; [|apply Hread].
    case_bool_decide as Ed; cbn [negb]; [|by apply hook_refresh_effect; rewrite ?Ek].
    destruct (Api.admit_build _ _ _ _ sv1) as [sv2 r] eqn:Eb.
    assert (builds event branch after) as Hbuild by (by split_and!).
    pose proof (effect_build p event sv sv1 sv2 r branch after Hv Hr Hbuild Eb) as He.
    destruct r; intros [= <- <- <-]; exact He.
  - destruct (_ || _); [by apply Href|apply Hign].
Qed.
(** A delivery answered whatever the server holds, or one that is authentic. *)
Lemma webhook_cases provider_id headers body sv sv' a spawned :
  handle_webhook hmac_sha256 from_slice registry secrets provider_id headers body sv = (sv', (a, spawned)) ->
  (sv' = sv /\ spawned = [] /\
   forall sv1, handle_webhook hmac_sha256 from_slice registry secrets provider_id headers body sv1 = (sv1, (a, []))) \/
  exists p event, authentic provider_id headers body p event /\ hook_effect p event sv sv' spawned.
Proof.
  unfold handle_webhook, hook_answer. destruct (registry !! provider_id) as [p|] eqn:Ep; [|intros [= <- <- <-]; by left].
  destruct (provider_for _ _ (pi_kind p)) as [adapter|] eqn:Ead; [|intros [= <- <- <-]; by left].
  destruct (secrets !! pi_id p) as [secret|] eqn:Es; [|intros [= <- <- <-]; by left].
  destruct body as [raw|]; cbn [mbind option_bind]; [|intros [= <- <- <-]; by left].
  destruct (N.ltb_spec MAX_WEBHOOK_BODY_BYTES (nlen raw)); [intros [= <- <- <-]; by left|].
  destruct (verify adapter headers raw secret) eqn:Ev; cbn [negb]; [|intros [= <- <- <-]; by left].
  destruct (parse adapter headers raw) as [event|] eqn:Epa; [|intros [= <- <- <-]; by left].
  intros He%webhook_event_effect. right. exists p, event. split; [|done]. exists adapter, secret, raw. split_and!; try done.
  by apply (verify_signed _ adapter).
Qed.
End safe.

(** C22: nothing but a delivery signed with its provider's configured secret changes
    anything: whatever else is sent, the server is as it was and no refresh starts.
    A signed one reads whether its repository was added, and then, at most, refreshes
    the refs of that repository, or builds the commit the event names, and only for a
    push to the branch it names as default; the refresh then starts after the
    admission. *)
Theorem webhook_safe hmac_sha256 from_slice {S : Serde} {En : Env S} registry secrets provider_id headers body (sv sv' : Server S) a spawned :
  handle_webhook hmac_sha256 from_slice registry secrets provider_id headers body sv = (sv', (a, spawned)) ->
  (sv' = sv /\ spawned = []) \/
  exists p event, authentic hmac_sha256 from_slice registry secrets provider_id headers body p event /\ hook_effect p event sv sv' spawned.
Proof. intros [(? & ? & _)|H]%webhook_cases; [by left|by right]. Qed.

(** Instances whose ids differ only in what a variable's name leaves out share one
    secret, though their hosts differ. *)
Lemma env_var_collides prefix : env_var prefix "my-gitea" = env_var prefix "my_gitea".
Proof. reflexivity. Qed.

Module WebhookExample.
Import ApiExample.
Definition registry : gmap string ProviderInstance := {[ "github" := prov ]}.
Definition secrets : gmap string string := {[ "github" := "hush" ]}.
(** The signature of anything is one byte. *)
Definition hmac (key raw : bytes) : bytes := [Byte.x0a].
Definition payload (raw : bytes) : option Json :=
  Some (JObj [("ref", JStr "refs/heads/main"); ("after", JStr Example.commit);
              ("repository", JObj [("name", JStr "demo"); ("owner", JObj [("login", JStr "acme")]); ("default_branch", JStr "main")])]).
Definition headers : Headers := {[ "x-hub-signature-256" := "sha256=0a"; "x-github-event" := "push" ]}.
Definition delivered : Server serde * (Answered * list Spawned) :=
  handle_webhook hmac payload registry secrets "github" headers (Some []) server.
(** A signed push to the default branch of an added repository: its refs are
    refreshed after its commit was admitted. *)
Lemma webhook_safe_witness :
  length (snd (snd delivered)) = 1%nat /\
  exists p event, authentic hmac payload registry secrets "github" headers (Some []) p event /\
    ev_after event = Some Example.commit /\ hook_effect p event server (fst delivered) (snd (snd delivered)).
Proof.
  destruct delivered as [sv' [a spawned]] eqn:E. cbn [fst snd].
  pose proof (f_equal (fun x => length (snd (snd x))) E) as El. change (1%nat = length spawned) in El. symmetry in El.
  split; [exact El|].
  destruct (webhook_safe hmac payload registry secrets "github" headers (Some []) server sv' a spawned E) as [[_ H]|(p & event & Ha & He)].
  - rewrite H in El. discriminate El.
  - exists p, event. split; [done|]. split; [|done].
    destruct Ha as (adapter & s & raw & Hp & Hw & _ & Hr & _ & _ & Hpa).
    vm_compute in Hp. injection Hp as <-. cbn in Hw. injection Hw as <-. injection Hr as <-.
    vm_compute in Hpa. injection Hpa as <-. reflexivity.
Defined.
End WebhookExample.
