(* ===== verification/Client.v ===== *)
(** A client's requests and its plan of what to install ([rust/src/client.rs], and
    [resolve] and [plan] of [rust/src/client/install.rs]).

    The server, the clock and the wait between polls are a [World] the client acts
    on. An answer's text is there as the value it parses to. What a progress line
    shows is left out. *)

From S2P Require Import Prelude Bytes Provider Validation Outputs Refs LsRemote Wire.

(** ** The world *)
Record Sent := { sn_method : Method; sn_path : string; sn_query : list (string * string); sn_body : option Json }.
Record Reply := {
  rp_status : N;
  rp_text : string;
  rp_json : option Json;  (* the text parsed *)
  rp_clone_id : option string;
}.
(** An exchange with the server: its answer, or why there is none. *)
Inductive Exchange := Replied (r : Reply) | Unreachable (cause : string) | Unsent (cause : string).
Class World (W : Type) := {
  w_send : Sent -> W -> W * Exchange;
  (** [Instant::now], in nanoseconds, and [sleep]. *)
  w_now : W -> N;
  w_sleep : N -> W -> W;
}.

(** What the client is configured with. *)
Record Client := {
  cl_server : string;
  cl_is_cloud : bool;  (* the server's origin is [https://ripclone.com] *)
  cl_provider : string;
  cl_provider_instance : option ProviderInstance;
  cl_origin_base : option string;  (* [RIPCLONE_ORIGIN_BASE] *)
  cl_poll_ms : option string;      (* [RIPCLONE_POLL_MS] *)
}.

(** ** Errors *)
Definition nl : string := String "010" "".
Inductive ClientError :=
  | HttpFailure (status : option N) (message : string)
  | ArtifactPending (commit mode : string)
  | Other (message : string).

Definition error_hint (status : N) (code : option string) (is_cloud : bool) : string :=
  let code_is c := bool_decide (code = Some c) in
  (if status =? 401 then
    if is_cloud then nl +:+ "  → run `ripclone login`" else nl +:+ "  → set RIPCLONE_SERVER_TOKEN to the server's token"
  else if status =? 402 then nl +:+ "  → the server returned 402 (payment required) for this repo"
  else if status =? 403 then
    if code_is "no_access" then nl +:+ "  → you don't have access to this repo"
    else nl +:+ "  → access denied by the configured server"
  else if status =? 429 then nl +:+ "  → rate limited; wait a moment and retry"
  else if (status =? 404) && code_is "repo_not_added" then nl +:+ "  → run `ripclone add <repo>`"
  else if (status =? 404) && code_is "repo_not_found" then nl +:+ "  → check the repository name and the server's access to it"
  else if (status =? 404) && code_is "ref_not_found" then nl +:+ "  → check the branch or tag name"
  else if (status =? 400) && code_is "invalid_selector" then nl +:+ "  → use HEAD, a full commit SHA, or a branch or tag name"
  else if status =? 426 then
    nl +:+ "  → this CLI and the server speak different protocols; run `ripclone version` and update the older one"
  else if (status =? 502) && code_is "upstream_unavailable" then
    nl +:+ "  → the server could not reach the upstream git host; check the host, then retry"
  else if (status =? 502) || (status =? 503) then nl +:+ "  → ripclone is briefly unavailable; retry shortly"
  else "")%N.
(** [ServerError]. *)
Definition as_ServerError (j : Json) : Result (option string * option string) :=
  let? g := as_object j in
  let? error := opt as_string g "error" in
  let? code := opt as_string g "code" in
  Ok (error, code).

(** ** Waiting *)
Definition MS : N := 1000000.
Definition poll_cap (poll_ms : option string) : N := default 2000%N (s ← poll_ms; parse_u64 (trim s)).
(** [poll_delay], in nanoseconds. *)
Definition poll_delay (poll_ms : option string) (waited : N) : N :=
  N.min (N.max (waited / 4) (100 * MS)) (poll_cap poll_ms * MS).
Definition MAX_POLLS : nat := 50.

(** ** Checks *)
Definition with_context {A} (m : string) (r : Result A) : Result A :=
  match r with Ok x => Ok x | Err e => Err (m +:+ ": " +:+ e) end.
Definition validate_summary (summary : BuildSummary) (repo_path : string) : Result unit :=
  let? _ := with_context ("invalid build commit for " +:+ repo_path) (validate_object_id (bs_commit summary)) in
  let? _ := match bs_checkout_name summary with
            | Some name => with_context ("invalid checkout name for " +:+ repo_path) (validate_checkout_name name)
            | None => Ok tt end in
  match bs_tag summary with
  | Some name => with_context ("invalid tag for " +:+ repo_path) (validate_tag_name name)
  | None => Ok tt
  end.
Definition validate_output (info : RefResponse) (commit : string) (kind : ExactResultKind) (repo_path : string) : Result unit :=
  ensure! bool_decide (rf_commit info = commit)
    else "ref integrity error: expected commit " +:+ commit +:+ " changed to " +:+ rf_commit info +:+ " in a ready response for " +:+ repo_path;
  ensure! bool_decide (rf_kind info = kind)
    else "ref result mismatch for " +:+ repo_path +:+ ": requested " +:+ ExactResultKind_fmt kind +:+ ", server returned "
         +:+ ExactResultKind_fmt (rf_kind info);
  ensure! negb (bool_decide (rf_clonepack_manifest info = ""))
    else ExactResultKind_fmt kind +:+ " output of " +:+ commit +:+ " has no clonepack manifest";
  Ok tt.
Definition failed_output_error (commit : string) (kind : ExactResultKind) (error : string) : ClientError :=
  Other (ExactResultKind_fmt kind +:+ " output of " +:+ commit +:+ " failed: " +:+ error +:+ nl
         +:+ "  → run `ripclone sync <repo> --at " +:+ commit +:+ "` to build it again").

(** ** A summary's outputs *)
Definition outputs (s : BuildSummary) : list (ExactResultKind * OutputState) :=
  [(Head, bs_head s); (Files, bs_files s); (Full, bs_full s)].
Definition summary_pending (s : BuildSummary) : bool := existsb (fun o => bool_decide (os_state o.2 = "pending")) (outputs s).
Definition summary_ready (s : BuildSummary) : bool := forallb (fun o => bool_decide (os_state o.2 = "ready")) (outputs s).
Definition summary_failed (s : BuildSummary) : option (ExactResultKind * string) :=
  first_some (fun '(kind, o) => if bool_decide (os_state o = "failed") then Some (kind, default "" (os_error o)) else None) (outputs s).

(** ** Plans *)
Record CloneRequest := {
  cr_repo_path : string;
  cr_branch : string;
  cr_at : option string;
  cr_kind : ExactResultKind;
  cr_wait : bool;
  cr_single_branch : bool;
}.
Record Pin := {
  pn_commit : string;
  pn_checkout : string;  (* empty is detached *)
  pn_tracks : bool;
  pn_default_branch : bool;
  pn_tag : option string;
  pn_single_branch : bool;
  pn_clone_id : option string;
}.
Inductive Plan :=
  | PlanFiles (output : RefResponse)
  | PlanFilesFromHead (output : RefResponse)
  | PlanHead (output : RefResponse)
  | PlanFull (output : RefResponse)
  | PlanTopUp (base : RefResponse) (upstream_url : string).
Definition Plan_exact (output : RefResponse) : Plan :=
  match rf_kind output with Files => PlanFiles output | Head => PlanHead output | Full => PlanFull output end.
Definition Plan_output (p : Plan) : RefResponse :=
  match p with PlanFiles o | PlanFilesFromHead o | PlanHead o | PlanFull o | PlanTopUp o _ => o end.
Inductive Fallback := FbNone | FbTopUp | FbHead.
#[export] Instance Fallback_eq_dec : EqDecision Fallback.
Proof. solve_decision. Defined.
Definition fallback_of (request : CloneRequest) : Fallback :=
  if cr_wait request then FbNone
  else match cr_kind request with Full => FbTopUp | Files => FbHead | Head => FbNone end.

Section client.
Context {W : Type} {Wd : World W} (status_text : N -> string) (cl : Client).

(** ** A client's steps *)
Definition Cli (A : Type) : Type := W -> W * (A + ClientError).
Definition cret {A} (x : A) : Cli A := fun w => (w, inl x).
Definition cfail {A} (e : ClientError) : Cli A := fun w => (w, inr e).
Definition cbind {A B} (m : Cli A) (k : A -> Cli B) : Cli B := fun w =>
  match m w with (w, inl x) => k x w | (w, inr e) => (w, inr e) end.
Definition checked {A} (r : Result A) : Cli A := match r with Ok x => cret x | Err e => cfail (Other e) end.
Notation "'let&' x := e 'in' k" := (cbind e (fun x => k)) (at level 10, x pattern, e at level 200, k at level 200).
Definition now_ : Cli N := fun w => (w, inl (w_now w)).
Definition sleep (d : N) : Cli unit := fun w => (w_sleep d w, inl tt).

Definition repo_path_of (repo_path suffix : string) : string := cl_provider cl +:+ "/" +:+ repo_path +:+ suffix.
Definition send (s : Sent) : Cli Reply := fun w =>
  let '(w, x) := w_send s w in
  (w, match x with
      | Replied r => inl r
      | Unreachable cause =>
          inr (HttpFailure None ("could not reach ripclone server at " +:+ cl_server cl +:+ ": " +:+ cause +:+ nl
                                 +:+ "  → is the server running? check RIPCLONE_SERVER"))
      | Unsent cause => inr (Other ("request to ripclone server failed: " +:+ cause))
      end).
Definition server_error (context : string) (r : Reply) : ClientError :=
  let parsed := j ← rp_json r; ok (as_ServerError j) in
  let code := p ← parsed; p.2 in
  let msg := default (if bool_decide (rp_text r = "") then status_text (rp_status r) else rp_text r)
               (option_filter (fun s => negb (bool_decide (s = ""))) (p ← parsed; p.1)) in
  HttpFailure (Some (rp_status r)) (context +:+ ": " +:+ msg +:+ error_hint (rp_status r) code (cl_is_cloud cl)).
Definition is_success (r : Reply) : bool := ((200 <=? rp_status r) && (rp_status r <? 300))%N.
(** Send, refuse an error status, and read the body. *)
Definition ask {A} (s : Sent) (failed : string) (read : Json -> Result A) (invalid : string) : Cli (A * option string) :=
  let& r := send s in
  if is_success r then
    let& x := checked (with_context invalid (let? j := context (rp_json r) "error decoding response body" in read j)) in
    cret (x, rp_clone_id r)
  else cfail (server_error failed r).

Definition request_build (repo_path selector : string) (retry_ : bool) (kind : option ExactResultKind)
    : Cli (BuildSummary * option string * option CommitOutput) :=
  let& _ := checked (Selector_parse selector) in
  let body := JObj [("selector", JStr selector); ("retry", JBool retry_)] in
  let body := match kind with Some kind => index_set "kind" (kind_json kind) body | None => body end in
  let& (answer, clone_id) := ask {| sn_method := MPost; sn_path := repo_path_of repo_path "/builds"; sn_query := []; sn_body := Some body |}
    "build request failed" as_Answer ("invalid build response for " +:+ repo_path) in
  let '(summary, output) := answer in
  let& _ := checked (validate_summary summary repo_path) in
  let& _ := checked (
    if is_ok (validate_object_id selector) then
      ensure! bool_decide (bs_commit summary = selector)
        else "ref integrity error: build of " +:+ selector +:+ " answered for " +:+ bs_commit summary; Ok tt
    else Ok tt) in
  cret (summary, clone_id, output).
Definition post_build (repo_path selector : string) (retry_ : bool) : Cli BuildSummary :=
  let& (summary, _, _) := request_build repo_path selector retry_ None in cret summary.

Definition build_summary (repo_path commit : string) : Cli BuildSummary :=
  let& (summary, _) := ask {| sn_method := MGet; sn_path := repo_path_of repo_path ("/commits/" +:+ commit); sn_query := []; sn_body := None |}
    "build lookup failed" as_BuildSummary ("invalid build summary for " +:+ repo_path) in
  let& _ := checked (validate_summary summary repo_path) in
  let& _ := checked (ensure! bool_decide (bs_commit summary = commit)
    else "ref integrity error: build summary of " +:+ commit +:+ " answered for " +:+ bs_commit summary; Ok tt) in
  cret summary.
Definition commit_output (repo_path commit : string) (kind : ExactResultKind) : Cli CommitOutput :=
  let& (output, _) := ask {| sn_method := MGet; sn_path := repo_path_of repo_path ("/commits/" +:+ commit);
      sn_query := [("kind", ExactResultKind_fmt kind)]; sn_body := None |}
    "build lookup failed" as_CommitOutput ("invalid " +:+ ExactResultKind_fmt kind +:+ " build response for " +:+ repo_path) in
  cret output.

(** [poll_build], with [left] polls left. *)
Fixpoint poll_from (repo_path : string) (started : N) (left_ : nat) (summary : BuildSummary) : Cli BuildSummary :=
  if summary_pending summary then
    match left_ with
    | O => cfail (Other (repo_path +:+ " is still building " +:+ bs_commit summary
                         +:+ " after 50 polls; run the command again to keep waiting"))
    | S left_ =>
        let& now := now_ in
        let& _ := sleep (poll_delay (cl_poll_ms cl) (now - started)) in
        let& next := build_summary repo_path (bs_commit summary) in
        poll_from repo_path started left_
          {| bs_commit := bs_commit next; bs_checkout_name := bs_checkout_name summary; bs_tag := bs_tag summary;
             bs_head := bs_head next; bs_files := bs_files next; bs_full := bs_full next |}
    end
  else
    match summary_failed summary with
    | Some (kind, error) => cfail (failed_output_error (bs_commit summary) kind error)
    | None => cret summary
    end.
Definition poll_build (repo_path : string) (summary : BuildSummary) : Cli BuildSummary :=
  let& started := now_ in poll_from repo_path started MAX_POLLS summary.
Definition build_and_wait (repo_path selector : string) : Cli BuildSummary :=
  let& summary := post_build repo_path selector true in poll_build repo_path summary.
Definition add_repo (repo_path : string) : Cli BuildSummary :=
  let& (summary, _) := ask {| sn_method := MPost; sn_path := repo_path_of repo_path "/add"; sn_query := []; sn_body := None |}
    "add failed" as_BuildSummary ("invalid add response for " +:+ repo_path) in
  let& _ := checked (validate_summary summary repo_path) in
  cret summary.
(** [remove_repo] and [purge_repo]. *)
Definition delete (failed repo_path suffix : string) : Cli unit :=
  let& r := send {| sn_method := MDelete; sn_path := repo_path_of repo_path suffix; sn_query := []; sn_body := None |} in
  if is_success r then cret tt else cfail (server_error failed r).
Definition remove_repo (repo_path : string) : Cli unit := delete "rm failed" repo_path "/add".
Definition purge_repo (repo_path : string) : Cli unit := delete "rm --purge failed" repo_path "".

(** ** The plan of a clone *)
Definition resolve (request : CloneRequest) : Cli (Pin * option CommitOutput) :=
  let '(selector, checkout_override) :=
    match cr_at request with
    | Some at_ => (at_, if bool_decide (cr_branch request = "HEAD") then None else Some (cr_branch request))
    | None => (cr_branch request, None)
    end in
  let& _ := checked match checkout_override with
                  | Some name => with_context ("invalid checkout branch " +:+ name) (validate_checkout_name name)
                  | None => Ok tt end in
  let& (summary, clone_id, first) := request_build (cr_repo_path request) selector false (Some (cr_kind request)) in
  let checkout := default "" (match checkout_override with Some name => Some name | None => bs_checkout_name summary end) in
  let tracks := bool_decide (checkout_override = None) && negb (bool_decide (checkout = "")) in
  cret ({| pn_commit := bs_commit summary; pn_checkout := checkout; pn_tracks := tracks;
           pn_default_branch := tracks && bool_decide (cr_at request = None) && bool_decide (cr_branch request = "HEAD");
           pn_tag := bs_tag summary;
           pn_single_branch := cr_single_branch request || kind_eqb (cr_kind request) Head;
           pn_clone_id := clone_id |}, first).

Definition top_up_url (repo_path : string) : Result string :=
  let? prov := context (option_filter (fun prov => bool_decide (pi_id prov = cl_provider cl)) (cl_provider_instance cl))
    "top-up is unavailable because the selected provider has no local client configuration" in
  let repo := {| provider := pi_id prov; path := repo_path |} in
  let? _ := with_context "invalid local provider repository path for top-up" (validate_repo_path prov repo) in
  Ok (upstream_url_with prov repo (cl_origin_base cl)).
Definition ready_head (repo_path target : string) : Cli (option RefResponse) :=
  let& answer := commit_output repo_path target Head in
  match answer with
  | CReady output => let& _ := checked (validate_output output target Head repo_path) in cret (Some output)
  | CPending commit _ | CFailed commit _ =>
      let& _ := checked (ensure! bool_decide (commit = target)
        else "ref integrity error: expected commit " +:+ target +:+ " changed to " +:+ commit +:+ " in a Head response"; Ok tt) in
      cret None
  end.
Definition check_refs_base (repo_path target : string) (output : RefResponse) : Result unit :=
  match rf_refs_base output with
  | None => Ok tt
  | Some base =>
      let? _ := with_context "invalid refs base" (validate_object_id (rf_commit base)) in
      let? _ := with_context "invalid refs base" (validate_output base (rf_commit base) Full repo_path) in
      ensure! negb (bool_decide (rf_commit base = target))
        else "invalid refs base for pinned commit " +:+ target +:+ ": base is not distinct";
      Ok tt
  end.
Definition check_top_up (repo_path target : string) (kind : ExactResultKind) (plan : TopUpPlan) : Result Plan :=
  let? _ := with_context "invalid top-up base" (validate_object_id (tu_base_commit plan)) in
  let? _ := with_context "invalid top-up base" (validate_output (tu_base plan) (tu_base_commit plan) kind repo_path) in
  ensure! negb (bool_decide (tu_base_commit plan = target))
    else "invalid top-up plan for pinned commit " +:+ target +:+ ": base is not distinct";
  let? url := top_up_url repo_path in
  Ok (PlanTopUp (tu_base plan) url).
(** The loop over [0..MAX_POLLS], with [left_] answers left to take. *)
Fixpoint plan_from (repo_path target : string) (kind : ExactResultKind) (fallback : Fallback) (started : N)
    (left_ : nat) (cold : bool) (first : option CommitOutput) : Cli (Plan * bool) :=
  match left_ with
  | O => cfail (ArtifactPending target (ExactResultKind_fmt kind))
  | S left_ =>
      let& answer := match first with Some answer => cret answer | None => commit_output repo_path target kind end in
      match answer with
      | CReady output =>
          let& _ := checked (validate_output output target kind repo_path) in
          let& _ := checked (check_refs_base repo_path target output) in
          cret (Plan_exact output, cold)
      | CFailed commit error =>
          let& _ := checked (ensure! bool_decide (commit = target)
            else "ref integrity error: expected commit " +:+ target +:+ " changed to " +:+ commit +:+ " in a failed response"; Ok tt) in
          cfail (failed_output_error target kind error)
      | CPending commit top_up =>
          let& _ := checked (ensure! bool_decide (commit = target)
            else "ref integrity error: expected commit " +:+ target +:+ " changed to " +:+ commit +:+ " in a pending response"; Ok tt) in
          let& head := if bool_decide (fallback = FbHead) then ready_head repo_path target else cret None in
          match head, (if bool_decide (fallback = FbTopUp) then top_up else None) with
          | Some head, _ => cret (PlanFilesFromHead head, true)
          | None, Some plan => let& plan := checked (check_top_up repo_path target kind plan) in cret (plan, true)
          | None, None =>
              let& _ := match left_ with
                        | O => cret tt
                        | S _ => let& now := now_ in sleep (poll_delay (cl_poll_ms cl) (now - started))
                        end in
              plan_from repo_path target kind fallback started left_ true None
          end
      end
  end.
Definition plan (repo_path : string) (pin : Pin) (kind : ExactResultKind) (fallback : Fallback) (first : option CommitOutput)
    : Cli (Plan * bool) :=
  let& started := now_ in plan_from repo_path (pn_commit pin) kind fallback started MAX_POLLS false first.
(** The start of [install]. *)
Definition resolve_and_plan (request : CloneRequest) : Cli (Pin * Plan * bool) :=
  let& (pin, first) := resolve request in
  let& (p, cold) := plan (cr_repo_path request) pin (cr_kind request) (fallback_of request) first in
  cret (pin, p, cold).
End client.
