(* ===== verification/Download.v ===== *)
(** One artifact's download ([rust/src/client/download.rs]): from its signed URL or
    the server's by-hash route, with retries, a resume with [Range], a fresh signed
    URL when one expires, and a length and hash check before any byte is used.

    The network, the clock, the client's cache and the signed URLs the downloads of
    one clone share are the [Net] a download acts on: any of its steps may find them
    changed by another download. Writing the temporary file does not fail. Logs are
    left out; of the progress line, what an artifact added to it. *)

From S2P Require Import Prelude Bytes Provider Validation Outputs Cas Refs LsRemote Manifest Wire Client.

(** ** Signed URLs *)
Inductive UrlSlot :=
  | UManifest | UMetadata | UMetadataDelta
  | UArchiveChunk (i : N) | UPackChunk (i : N) | UPackIdx (i : N)
  | UMidx | UIdxBundle | UTags | UBranches
  | USidePack (i : N) | USideIdx (i : N) | UOwnPack (i : N) | UOwnIdx (i : N).
Definition select (slot : UrlSlot) (info : RefResponse) : option string :=
  let indexed (urls : option (list (option string))) (index : N) := urls ← urls; mjoin (nget urls index) in
  match slot with
  | UManifest => rf_clonepack_manifest_url info
  | UMetadata => rf_metadata_chunk_url info
  | UMetadataDelta => rf_metadata_delta_url info
  | UArchiveChunk i => indexed (rf_archive_chunk_urls info) i
  | UPackChunk i => indexed (rf_pack_chunk_urls info) i
  | UPackIdx i => indexed (rf_pack_idx_urls info) i
  | UMidx => rf_midx_url info
  | UIdxBundle => rf_idx_bundle_url info
  | UTags => rf_tags_artifact_url info
  | UBranches => b ← rf_branches info; bf_artifact_url b
  | USidePack i => b ← rf_branches info; p ← nget (bf_side_packs b) i; sr_pack_url p
  | USideIdx i => b ← rf_branches info; p ← nget (bf_side_packs b) i; sr_idx_url p
  | UOwnPack i => o ← rf_own_history info; p ← nget (ow_packs o) i; sr_pack_url p
  | UOwnIdx i => o ← rf_own_history info; p ← nget (ow_packs o) i; sr_idx_url p
  end.
Definition label (slot : UrlSlot) : string :=
  match slot with
  | UManifest => "manifest" | UMetadata => "metadata" | UMetadataDelta => "metadata delta"
  | UArchiveChunk i => "archive chunk " +:+ pretty i
  | UPackChunk i => "pack " +:+ pretty i
  | UPackIdx i => "pack idx " +:+ pretty i
  | UMidx => "multi-pack-index" | UIdxBundle => "idx bundle" | UTags => "tags" | UBranches => "branches"
  | USidePack i => "side pack " +:+ pretty i
  | USideIdx i => "side pack idx " +:+ pretty i
  | UOwnPack i => "own history pack " +:+ pretty i
  | UOwnIdx i => "own history pack idx " +:+ pretty i
  end.

Record Artifact := { a_hash : string; a_len : option N; a_slot : UrlSlot }.
(** [Artifact::chunk], of a chunk's hash and length. *)
Definition Artifact_chunk (hash : bytes) (len : N) (slot : UrlSlot) : Artifact :=
  {| a_hash := hex_encode hash; a_len := Some len; a_slot := slot |}.
Record OutputUrls := { ou_repo_path : string; ou_output : RefResponse }.

(** ** The network *)
Record Get := { g_url : string; g_signed : bool; g_range : option string }.
(** A response's head, the chunks of its body, and whether the body then breaks off. *)
Record Response := {
  rs_status : N;
  rs_content_range : option string;
  rs_content_length : option N;
  rs_chunks : list bytes;
  rs_cut : bool;
}.
Class Net (W : Type) := {
  net_get : Get -> W -> W * (Response + string);
  net_rand : W -> W * N;
  (** the newest signed URLs and how many refreshes gave them *)
  net_current : W -> N * RefResponse;
  net_set_current : N * RefResponse -> W -> W;
  (** the client's cache, when it has one *)
  net_cache : W -> option Disk;
  net_set_cache : Disk -> W -> W;
}.

(** ** Failures *)
Inductive FetchFailure :=
  | FRetry (e : ClientError)
  | FRefreshUrl (e : ClientError)
  | FPermanent (e : ClientError)
  | FRangeIgnored.
Definition into_error (f : FetchFailure) : ClientError :=
  match f with
  | FRetry e | FRefreshUrl e | FPermanent e => e
  | FRangeIgnored => Other "the server ignored a range request"
  end.
Definition success_status (status : N) : bool := ((200 <=? status) && (status <? 300))%N.
Definition classify_fetch_status (status : N) (signed : bool) (hash : string) : option FetchFailure :=
  if success_status status then None
  else
    let err := HttpFailure (Some status) ("artifact " +:+ hash +:+ " fetch failed: " +:+ pretty status) in
    Some (if ((500 <=? status) && (status <? 600) || (status =? 429) || (status =? 408))%N then FRetry err
          else if (signed && ((status =? 401) || (status =? 403)))%N then FRefreshUrl err
          else FPermanent err).

(** ** Checks *)
Definition verify_artifact (hash : string) (expected_len : option N) (actual_len : N) (actual_hash : string) : Result unit :=
  let? _ := match expected_len with
            | Some expected =>
                ensure! (actual_len =? expected)%N
                  else "artifact " +:+ hash +:+ " size mismatch: expected " +:+ pretty expected +:+ ", got " +:+ pretty actual_len;
                Ok tt
            | None => Ok tt end in
  ensure! bool_decide (actual_hash = hash) else "artifact hash mismatch: expected " +:+ hash +:+ ", got " +:+ actual_hash;
  Ok tt.
Definition parse_content_range (value : string) : option (N * N * N) :=
  rest ← strip_prefix "bytes " value;
  '(bounds, total) ← split_once "/" rest;
  '(start, end_) ← split_once "-" bounds;
  start ← parse_u64 start; end_ ← parse_u64 end_; total ← parse_u64 total;
  Some (start, end_, total).
Definition validate_content_range (value : option string) (offset : N) (end_ expected_len : option N) : Result unit :=
  let? value := context value "partial artifact response omitted Content-Range" in
  let? value := context (to_str value) "partial artifact response has non-text Content-Range" in
  let? (start, last_, total) := context (parse_content_range value) ("partial artifact response has malformed Content-Range " +:+ value) in
  let total_ok := match expected_len with Some len => (len =? total)%N | None => true end in
  ensure! (start =? offset)%N && bool_decide (checked_add u64_max last_ 1 = Some (default total end_)) && total_ok
    else "invalid Content-Range for partial artifact: expected bytes " +:+ pretty offset +:+ "-"
         +:+ default "" ((fun e => pretty (e - 1)%N) <$> end_) +:+ ", got " +:+ value;
  Ok tt.

(** ** What was received *)
Inductive Sink := SinkMemory | SinkTempFile.
Inductive RcBody := BMemory (b : bytes) | BFile (content : bytes) (cursor : N).
(** [rc_hashed] is what the hasher was fed; [rc_progress] what the artifact added to
    the progress line, when it counts. *)
Record Received := { rc_body : RcBody; rc_hashed : bytes; rc_len : N; rc_progress : option N }.
Inductive Downloaded := DMemory (b : bytes) | DTempFile (content : bytes) (len : N).
Definition downloaded_bytes (d : Downloaded) : bytes := match d with DMemory b | DTempFile b _ => b end.

Definition Received_open (sink : Sink) (progress : bool) : Received :=
  {| rc_body := match sink with SinkMemory => BMemory [] | SinkTempFile => BFile [] 0 end;
     rc_hashed := []; rc_len := 0; rc_progress := if progress then Some 0%N else None |}.
(** [write_all] at a file's cursor. *)
Definition write_at (content : bytes) (cursor : N) (chunk : bytes) : bytes :=
  take (N.to_nat cursor) content ++ chunk ++ drop (N.to_nat cursor + length chunk) content.
Definition Received_write (chunk : bytes) (r : Received) : Received :=
  {| rc_body := match rc_body r with
                | BMemory b => BMemory (b ++ chunk)
                | BFile content cursor => BFile (write_at content cursor chunk) (cursor + nlen chunk)
                end;
     rc_hashed := rc_hashed r ++ chunk;
     rc_len := rc_len r + nlen chunk;
     rc_progress := (fun done => done + nlen chunk)%N <$> rc_progress r |}.
(** [set_len(0)], then [seek] to the start. *)
Definition restart (r : Received) : Received :=
  {| rc_body := match rc_body r with BMemory _ => BMemory [] | BFile _ _ => BFile [] 0 end;
     rc_hashed := []; rc_len := 0;
     rc_progress := (fun done => done - rc_len r)%N <$> rc_progress r |}.

(** ** Waiting *)
Definition FETCH_MAX_ATTEMPTS : nat := 3.
Definition FETCH_BACKOFF_MS : N := 100.
(** In milliseconds, with [rand] from [pseudo_rand_u64]. *)
Definition fetch_backoff (base_ms attempt rand : N) : N :=
  let mult := N.shiftl 1 (N.min (attempt - 1) 16) in
  let capped := N.min (saturating_mul u64_max base_ms mult) 5000 in
  if (capped =? 0)%N then 0%N
  else
    let half := (capped / 2)%N in
    let span := (capped - half)%N in
    (half + rand mod (span + 1))%N.
Definition range_part_bytes (var : option string) : N :=
  N.max (default (N.shiftl 16 20) (s ← var; parse_u64 (trim s))) 1.

Section download.
Context {W : Type} {Wd : World W} {Nt : Net W} (status_text : N -> string) (cl : Client).
Context (sha1 sha256 : bytes -> string) (rename_ : Disk -> string -> Renamed).
(** The decoding of base64, and [RIPCLONE_DOWNLOAD_PART_BYTES]. *)
Context (base64_decode : string -> option bytes) (part_var : option string).
Notation "'let&' x := e 'in' k" := (cbind e (fun x => k)) (at level 10, x pattern, e at level 200, k at level 200).

(** ** One request *)
Definition Fetch (A : Type) : Type := W -> W * (A + FetchFailure).
Definition gateway_url (hash : string) : string := cl_server cl +:+ "/v1/artifacts/" +:+ hash.
Definition request (artifact : Artifact) (signed_url : option string) (range : option string) : Fetch Response := fun w =>
  let '(url, signed) := match signed_url with Some url => (url, true) | None => (gateway_url (a_hash artifact), false) end in
  match net_get {| g_url := url; g_signed := signed; g_range := range |} w with
  | (w, inr e) => (w, inr (FRetry (Other ("artifact fetch transport error: " +:+ e))))
  | (w, inl response) =>
      (w, match classify_fetch_status (rs_status response) signed (a_hash artifact) with
          | Some failure => inr failure
          | None => inl response
          end)
  end.
Definition permanent (m : string) : FetchFailure := FPermanent (Other m).

(** The loop over a response's body. *)
Fixpoint receive (artifact : Artifact) (chunks : list bytes) (cut : bool) (r : Received) : Received * (unit + FetchFailure) :=
  match chunks with
  | [] => (r, if cut then inr (FRetry (Other "artifact body read error")) else inl tt)
  | chunk :: chunks =>
      let r := Received_write chunk r in
      if match a_len artifact with Some len => (len <? rc_len r)%N | None => false end
      then (r, inr (permanent ("artifact " +:+ a_hash artifact +:+ " size mismatch: expected "
                               +:+ pretty (default 0%N (a_len artifact)) +:+ ", got at least " +:+ pretty (rc_len r))))
      else receive artifact chunks cut r
  end.
(** What the head of a response to a download from [rc_len r] says to do. *)
Definition accept (artifact : Artifact) (response : Response) (r : Received) : Received + FetchFailure :=
  let resumed := (0 <? rc_len r)%N in
  if (rs_status response =? 200)%N then inl (if resumed then restart r else r)
  else if (rs_status response =? 206)%N && resumed then
    match validate_content_range (rs_content_range response) (rc_len r) None (a_len artifact) with
    | Err e => inr (permanent e)
    | Ok _ =>
        match rs_content_length response, a_len artifact with
        | Some sent, Some len =>
            let rest := (len - rc_len r)%N in
            if (sent =? rest)%N then inl r
            else inr (permanent ("resumed artifact Content-Length mismatch: expected " +:+ pretty rest +:+ ", got " +:+ pretty sent))
        | _, _ => inl r
        end
    end
  else inr (permanent ("artifact " +:+ a_hash artifact +:+ " response had unexpected status " +:+ pretty (rs_status response))).
Definition resume_range (r : Received) : option string :=
  if (0 <? rc_len r)%N then Some ("bytes=" +:+ pretty (rc_len r) +:+ "-") else None.
Definition download_attempt (artifact : Artifact) (signed_url : option string) (r : Received) (w : W)
    : W * Received * (unit + FetchFailure) :=
  match request artifact signed_url (resume_range r) w with
  | (w, inr failure) => (w, r, inr failure)
  | (w, inl response) =>
      match accept artifact response r with
      | inr failure => (w, r, inr failure)
      | inl r => let '(r, out) := receive artifact (rs_chunks response) (rs_cut response) r in (w, r, out)
      end
  end.
Definition range_text (start end_ : N) : string := "bytes=" +:+ pretty start +:+ "-" +:+ pretty (end_ - 1)%N.
Definition range_attempt (artifact : Artifact) (signed_url : option string) (start end_ : N) : Fetch bytes := fun w =>
  match request artifact signed_url (Some (range_text start end_)) w with
  | (w, inr failure) => (w, inr failure)
  | (w, inl response) =>
      (w, if (rs_status response =? 200)%N then inr FRangeIgnored
          else if negb (rs_status response =? 206)%N then
            inr (permanent ("artifact " +:+ a_hash artifact +:+ " range response had status " +:+ pretty (rs_status response)))
          else
            match validate_content_range (rs_content_range response) start (Some end_) (a_len artifact) with
            | Err e => inr (permanent e)
            | Ok _ =>
                if rs_cut response then inr (FRetry (Other "artifact range body read error"))
                else
                  let bytes := concat (rs_chunks response) in
                  if (nlen bytes =? end_ - start)%N then inl bytes
                  else inr (FRetry (Other ("artifact " +:+ a_hash artifact +:+ " range " +:+ pretty start +:+ ".." +:+ pretty end_
                                           +:+ " returned " +:+ pretty (nlen bytes) +:+ " bytes")))
            end)
  end.

(** ** Signed URLs, refreshed *)
Definition current (slot : UrlSlot) (w : W) : N * option string := let '(generation, info) := net_current w in (generation, select slot info).
Definition refresh (urls : OutputUrls) (slot : UrlSlot) (seen : N) : Cli (W := W) (N * option string) := fun w =>
  let '(generation, url) := current slot w in
  if (seen <? generation)%N then
    (if bool_decide (is_Some url) then cret (generation, url)
     else cfail (Other ("URL refresh omitted " +:+ label slot))) w
  else
    let output := ou_output urls in
    let repo_path := ou_repo_path urls in
    let commit := rf_commit output in
    let kind := rf_kind output in
    (let& answer := commit_output status_text cl repo_path commit kind in
     match answer with
     | CReady info =>
         let& _ := checked (validate_output info commit kind repo_path) in
         let& _ := checked (ensure! bool_decide (rf_clonepack_manifest info = rf_clonepack_manifest output)
                                    && bool_decide (rf_metadata_chunk info = rf_metadata_chunk output)
                                    && bool_decide (rf_metadata_delta info = rf_metadata_delta output)
                              else "URL refresh changed the " +:+ ExactResultKind_fmt kind +:+ " output of " +:+ commit; Ok tt) in
         match select slot info with
         | None => cfail (Other ("URL refresh omitted " +:+ label slot))
         | Some url => fun w => (net_set_current ((generation + 1)%N, info) w, inl ((generation + 1)%N, Some url))
         end
     | _ => cfail (Other ("refresh of commit " +:+ commit +:+ " failed: its " +:+ ExactResultKind_fmt kind +:+ " output is no longer ready"))
     end) w.
Definition backoff (attempt : N) (w : W) : W :=
  let '(w, rand) := net_rand w in w_sleep (fetch_backoff FETCH_BACKOFF_MS attempt rand * MS) w.

(** ** The attempts of a download *)

(** What an attempt's failure makes of the URL, with [left_] attempts to come. *)
Definition after_failure (urls : OutputUrls) (slot : UrlSlot) (attempt : N) (left_ : nat) (failure : FetchFailure)
    (generation : N) (url : option string) : Cli (W := W) (N * option string) :=
  match failure, left_ with
  | FRefreshUrl _, S _ => refresh urls slot generation
  | FRetry _, S _ => fun w => (backoff attempt w, inl (generation, url))
  | _, _ => cfail (into_error failure)
  end.
Fixpoint attempts (urls : OutputUrls) (artifact : Artifact) (attempt : N) (left_ : nat) (generation : N) (url : option string)
    (r : Received) (w : W) : W * (Received + ClientError) :=
  match left_ with
  | O => (w, inl r)
  | S left_ =>
      if (0 <? rc_len r)%N && bool_decide (Some (rc_len r) = a_len artifact) then (w, inl r)
      else
        match download_attempt artifact url r w with
        | (w, r, inl _) => (w, inl r)
        | (w, r, inr failure) =>
            match after_failure urls (a_slot artifact) attempt left_ failure generation url w with
            | (w, inl (generation, url)) => attempts urls artifact (attempt + 1) left_ generation url r w
            | (w, inr e) => (w, inr e)
            end
        end
  end.
(** [download_range]: [None] when the server ignored [Range]. *)
Fixpoint range_attempts (urls : OutputUrls) (artifact : Artifact) (start end_ : N) (attempt : N) (left_ : nat)
    (generation : N) (url : option string) (w : W) : W * (option bytes + ClientError) :=
  match range_attempt artifact url start end_ w with
  | (w, inl bytes) => (w, inl (Some bytes))
  | (w, inr FRangeIgnored) => (w, inl None)
  | (w, inr failure) =>
      match left_ with
      | O => (w, inr (into_error failure))
      | S left_ =>
          match after_failure urls (a_slot artifact) attempt (S left_) failure generation url w with
          | (w, inl (generation, url)) => range_attempts urls artifact start end_ (attempt + 1) left_ generation url w
          | (w, inr e) => (w, inr e)
          end
      end
  end.
Definition download_range (urls : OutputUrls) (artifact : Artifact) (start end_ : N) : Cli (W := W) (option bytes) := fun w =>
  let '(generation, url) := current (a_slot artifact) w in
  range_attempts urls artifact start end_ 1 (pred FETCH_MAX_ATTEMPTS) generation url w.
Definition parts (len part : N) : list (N * N) :=
  map (fun i => let i := N.of_nat i in (i * part, N.min ((i + 1) * part) len)%N) (seq 0 (N.to_nat (div_ceil len part))).
(** [download_ranges], its parts in order. *)
Fixpoint receive_ranges (urls : OutputUrls) (artifact : Artifact) (l : list (N * N)) (r : Received) (w : W)
    : W * (Received * bool + ClientError) :=
  match l with
  | [] => (w, inl (r, true))
  | (start, end_) :: l =>
      match download_range urls artifact start end_ w with
      | (w, inl (Some bytes)) => receive_ranges urls artifact l (Received_write bytes r) w
      | (w, inl None) => (w, inl (r, false))
      | (w, inr e) => (w, inr e)
      end
  end.

(** [Received::finish]. *)
Definition finish (hash : string) (expected_len : option N) (r : Received) : Result Downloaded :=
  let actual := sha256 (rc_hashed r) in
  let? _ := verify_artifact hash expected_len (rc_len r) actual in
  Ok match rc_body r with BMemory b => DMemory b | BFile content _ => DTempFile content (rc_len r) end.
Definition whole (urls : OutputUrls) (artifact : Artifact) (r : Received) : Cli (W := W) Downloaded := fun w =>
  let '(generation, url) := current (a_slot artifact) w in
  match attempts urls artifact 1 FETCH_MAX_ATTEMPTS generation url r w with
  | (w, inr e) => (w, inr e)
  | (w, inl r) => checked (finish (a_hash artifact) (a_len artifact) r) w
  end.
Definition client_cache : Cas := {| durable := false; has_pins := false; has_on_store := false |}.
(** Keep a memory download in the cache; a failure to is ignored. *)
Definition cache_put (hash : string) (data : bytes) (w : W) : W :=
  match net_cache w with
  | Some d => net_set_cache (ru_disk (run_alone (put_with_hash sha1 sha256 rename_ client_cache hash data) (start d)).1) w
  | None => w
  end.
Definition cached (hash : string) (sink : Sink) (w : W) : option bytes :=
  match sink with SinkMemory => d ← net_cache w; ok (Cas_get sha1 sha256 hash d) | SinkTempFile => None end.
Definition large_file (part : N) (artifact : Artifact) (sink : Sink) : option N :=
  match sink, a_len artifact with
  | SinkTempFile, Some len => if (saturating_mul u64_max part 4 <=? len)%N then Some len else None
  | _, _ => None
  end.
Definition download (urls : OutputUrls) (artifact : Artifact) (sink : Sink) : Cli (W := W) Downloaded := fun w =>
  let hash := a_hash artifact in
  match cached hash sink w with
  | Some data => (w, inl (DMemory data))
  | None =>
      let received := Received_open sink (bool_decide (is_Some (a_len artifact))) in
      let part := range_part_bytes part_var in
      match large_file part artifact sink with
      | Some len =>
          match receive_ranges urls artifact (parts len part) received w with
          | (w, inr e) => (w, inr e)
          | (w, inl (received, true)) => checked (finish hash (a_len artifact) received) w
          | (w, inl (received, false)) => whole urls artifact (restart received) w
          end
      | None =>
          match whole urls artifact received w with
          | (w, inl (DMemory data)) => (cache_put hash data w, inl (DMemory data))
          | out => out
          end
      end
  end.
Definition download_bytes (urls : OutputUrls) (artifact : Artifact) : Cli (W := W) bytes := fun w =>
  match rf_inline (ou_output urls) !! a_hash artifact with
  | Some encoded =>
      checked (let? bytes := context (base64_decode encoded) ("decode inline " +:+ label (a_slot artifact)) in
               ensure! bool_decide (sha256 bytes = a_hash artifact)
                       && match a_len artifact with Some len => (len =? nlen bytes)%N | None => true end
                 else "inline " +:+ label (a_slot artifact) +:+ " does not match " +:+ a_hash artifact;
               Ok bytes) w
  | None =>
      match download urls artifact SinkMemory w with
      | (w, inl d) => (w, inl (downloaded_bytes d))
      | (w, inr e) => (w, inr e)
      end
  end.
End download.
