(* ===== verification/DownloadThms.v ===== *)
(** What a download promises: nothing is returned before its length and hash check
    out, whatever was answered; and a server that serves the artifact's bytes, at
    times broken off, busy or with an expired URL, delivers them. The server's own
    route ([Artifacts]) is such a server. *)

From S2P Require Import Prelude Bytes Provider Validation Outputs Cas Refs LsRemote Manifest Wire Artifacts Client Download.

(** ** What was received

    The bytes hashed are the bytes kept, and the progress line counts them. *)
Definition rc_ok (r : Received) : Prop :=
  match rc_body r with
  | BMemory b => b = rc_hashed r
  | BFile content cursor => content = rc_hashed r /\ cursor = nlen content
  end /\ rc_len r = nlen (rc_hashed r) /\ (rc_progress r = None \/ rc_progress r = Some (rc_len r)).

Lemma Received_open_ok sink p : rc_ok (Received_open sink p).
Proof. destruct sink, p; repeat split; auto. Qed.
Lemma Received_write_ok chunk r : rc_ok r -> rc_ok (Received_write chunk r).
Proof.
  intros (Hb & Hl & Hp). split_and!.
  - cbn. destruct (rc_body r) as [b|content cursor]; [by subst|]. destruct Hb as [Hb Hc]. subst content cursor. unfold write_at, nlen.
    rewrite Nat2N.id, firstn_all, drop_ge by lia. rewrite app_nil_r. split; [done|]. rewrite length_app. lia.
  - cbn. rewrite Hl. unfold nlen. rewrite length_app. lia.
  - destruct Hp as [Hp|Hp]; [left|right]; cbn; by rewrite Hp.
Qed.
Lemma restart_received_ok r : rc_ok r -> rc_ok (restart r).
Proof.
  intros (Hb & Hl & Hp). split_and!; [by cbn; destruct (rc_body r)|done|].
  destruct Hp as [Hp|Hp]; [left|right]; cbn; rewrite Hp; cbn; [done|]. by rewrite N.sub_diag.
Qed.
Lemma receive_ok a chunks cut r : rc_ok r -> rc_ok (receive a chunks cut r).1.
Proof.
  revert r; induction chunks as [|c chunks IH]; intros r Hr; cbn [receive]; [done|].
  pose proof (Received_write_ok c r Hr). case_match; [done|]. by apply IH.
Qed.
#[export] Hint Resolve Received_open_ok Received_write_ok restart_received_ok receive_ok : rust.

Section facts.
Context {W : Type} {Wd : World W} {Nt : Net W} (status_text : N -> string) (cl : Client).
Context (sha1 sha256 : bytes -> string) (rename_ : Disk -> string -> Renamed).
Context (base64_decode : string -> option bytes) (part_var : option string).

Lemma accept_ok a rs r r' : rc_ok r -> accept a rs r = inl r' -> rc_ok r'.
Proof. unfold accept. intros Hr H. repeat case_match; simplify_eq; auto with rust. Qed.
Lemma download_attempt_ok a url r w : rc_ok r -> rc_ok (download_attempt cl a url r w).1.2.
Proof.
  intros Hr. unfold download_attempt. destruct (request _ _ _ _ w) as [w1 [rs|f]]; [|done].
  destruct (accept a rs r) as [r1|] eqn:E; [|done]. pose proof (receive_ok a (rs_chunks rs) (rs_cut rs) r1 (accept_ok _ _ _ _ Hr E)).
  by destruct (receive _ _ _ _).
Qed.
Lemma attempts_ok urls a n left_ g url r w w' r' :
  rc_ok r -> attempts status_text cl urls a n left_ g url r w = (w', inl r') -> rc_ok r'.
Proof.
  revert n g url r w; induction left_ as [|left_ IH]; intros n g url r w Hr; cbn [attempts]; [by intros [= <- <-]|].
  destruct (_ && _); [by intros [= <- <-]|]. pose proof (download_attempt_ok a url r w Hr) as Hok.
  destruct (download_attempt cl a url r w) as [[w1 r1] [[]|f]]; [by intros [= <- <-]|].
  destruct (after_failure _ _ _ _ _ _ _ _ _ w1) as [w2 [[g' url']|e]]; [|done]. by apply IH.
Qed.
Lemma receive_ranges_ok urls a l r w w' r' b :
  rc_ok r -> receive_ranges status_text cl urls a l r w = (w', inl (r', b)) -> rc_ok r'.
Proof.
  revert r w; induction l as [|[x y] l IH]; intros r w Hr; cbn [receive_ranges]; [by intros [= <- <- <-]|].
  destruct (download_range _ _ _ _ _ _ w) as [w1 [[data|]|e]]; [|by intros [= <- <- <-]|done]. apply IH. auto with rust.
Qed.
End facts.

(** What a checked download is. *)
Definition verified (sha1 sha256 : bytes -> string) (a : Artifact) (d : Downloaded) : Prop :=
  hash_bytes_for_object_id sha1 sha256 (a_hash a) (downloaded_bytes d) = Ok (a_hash a) /\
  match d with DMemory _ => True | DTempFile content len => len = nlen content end.

Section verified.
Context {W : Type} {Wd : World W} {Nt : Net W} (status_text : N -> string) (cl : Client).
Context (sha1 sha256 : bytes -> string) (rename_ : Disk -> string -> Renamed).
Context (base64_decode : string -> option bytes) (part_var : option string).
Hypothesis Hsha : forall b, validate_artifact_id (sha256 b) = Ok tt.

Lemma verify_artifact_ok hash expected len actual u :
  verify_artifact hash expected len actual = Ok u <-> actual = hash /\ (forall n, expected = Some n -> len = n) /\ u = tt.
Proof.
  unfold verify_artifact. destruct u. split.
  - intros H. inv_ok H. breflect. split_and!; [done| |done]. intros n ->. by destruct (len =? n)%N eqn:E'; [breflect|].
  - intros (-> & Hl & _). rewrite bool_decide_eq_true_2 by done. destruct expected as [n|]; [|done]. by rewrite (Hl n eq_refl), N.eqb_refl.
Qed.
Lemma finish_ok a r d :
  rc_ok r -> finish sha256 (a_hash a) (a_len a) r = Ok d ->
  verified sha1 sha256 a d /\ downloaded_bytes d = rc_hashed r /\ forall len, a_len a = Some len -> nlen (downloaded_bytes d) = len.
Proof.
  intros (Hb & Hl & _). unfold finish. intros H. inv_ok H. apply verify_artifact_ok in E as (E0 & Hlen & _).
  assert (downloaded_bytes (match rc_body r with BMemory b => DMemory b | BFile c _ => DTempFile c (rc_len r) end) = rc_hashed r) as Hd
    by (by destruct (rc_body r); cbn; [|destruct Hb]).
  split_and!; [split|done|].
  - rewrite Hd, <- E0. by apply hash_of_sha256.
  - destruct (rc_body r); [done|]. destruct Hb as [-> _]. done.
  - intros len Ha. rewrite Hd, <- Hl. by apply Hlen.
Qed.
Lemma whole_ok urls a r w w' d :
  rc_ok r -> whole status_text cl sha256 urls a r w = (w', inl d) ->
  verified sha1 sha256 a d /\ forall len, a_len a = Some len -> nlen (downloaded_bytes d) = len.
Proof.
  intros Hr. unfold whole, current. destruct (net_current w) as [g info]. destruct (attempts _ _ _ _ _ _ _ _ _ w) as [w1 [r1|e]] eqn:E; [|done].
  apply attempts_ok in E; [|done]. unfold checked. destruct (finish _ _ _ r1) as [d1|] eqn:Ef; intros [= <- <-].
  by apply finish_ok in Ef as (? & _ & ?).
Qed.
Lemma download_spec urls a sink w w' d :
  download status_text cl sha1 sha256 rename_ part_var urls a sink w = (w', inl d) ->
  verified sha1 sha256 a d /\
  match cached sha1 sha256 (a_hash a) sink w with
  | Some data => w' = w /\ d = DMemory data
  | None => forall len, a_len a = Some len -> nlen (downloaded_bytes d) = len
  end.
Proof.
  unfold download. destruct (cached _ _ _ _ w) as [data|] eqn:Ec.
  { intros [= <- <-]. split; [|done]. split; [|done]. unfold cached in Ec. destruct sink; [|done].
    destruct (net_cache w); [|done]. cbn in Ec. destruct (Cas_get _ _ _ _) eqn:Eg; [|done]. injection Ec as ->.
    by apply Cas_get_ok in Eg as [? _]. }
  destruct (large_file _ a sink) as [len|].
  - destruct (receive_ranges _ _ _ _ _ _ w) as [w1 [[r1 [|]]|e]] eqn:E; [| |done];
      apply receive_ranges_ok in E; auto with rust; unfold checked.
    + destruct (finish _ _ _ r1) as [d1|] eqn:Ef; intros [= <- <-]. by apply finish_ok in Ef as (? & _ & ?).
    + intros H. apply whole_ok in H as [? ?]; auto with rust.
  - destruct (whole _ _ _ _ _ _ w) as [w1 [d1|e]] eqn:E; [|done]. apply whole_ok in E as [Hv Hl]; auto with rust.
    destruct d1; intros [= <- <-]; by split.
Qed.

End verified.

(** C13: whatever a server, a proxy or a cache answers, a download that succeeds gives
    bytes of the artifact's hash, and the length reported with a file is its own.
    Bytes the client's cache holds under that hash are given as they are, without a
    request, and their length is not compared with the one promised; bytes that came
    over the network have the length the artifact's manifest promised. *)
Theorem download_verified {W} {Wd : World W} {Nt : Net W} status_text cl sha1 sha256 rename_ base64_decode part_var urls a :
  (forall b, validate_artifact_id (sha256 b) = Ok tt) ->
  (forall sink w w' d, download status_text cl sha1 sha256 rename_ part_var urls a sink w = (w', inl d) ->
     verified sha1 sha256 a d /\
     match cached sha1 sha256 (a_hash a) sink w with
     | Some data => w' = w /\ d = DMemory data
     | None => forall len, a_len a = Some len -> nlen (downloaded_bytes d) = len
     end) /\
  (forall w w' b, download_bytes status_text cl sha1 sha256 rename_ base64_decode part_var urls a w = (w', inl b) ->
     hash_bytes_for_object_id sha1 sha256 (a_hash a) b = Ok (a_hash a)).
Proof.
  intros Hsha. split; [intros sink w w' d; by apply download_spec|].
  intros w w' b. unfold download_bytes. destruct (_ !! a_hash a) as [encoded|].
  - unfold checked. destruct (rbind _ _) as [x|] eqn:E; intros [= <- <-]. inv_ok E. breflect.
    match goal with H : sha256 _ = _ |- _ => rewrite <- H end. by apply hash_of_sha256.
  - destruct (download _ _ _ _ _ _ _ _ _ w) as [w1 [d|e]] eqn:E; intros [= <- <-]. by apply download_spec in E as [[? _] _].
Qed.

(** ** A server that serves the bytes

    [asks g a b]: the request's [Range] asks for the bytes from [a] up to [b]. *)
Definition asks (g : Get) (a b size : N) : Prop :=
  (a < b)%N /\ (b <= size)%N /\
  (g_range g = Some ("bytes=" +:+ pretty a +:+ "-") /\ b = size \/ g_range g = Some (range_text a b)).
Definition content_range (a b size : N) : string := "bytes " +:+ pretty a +:+ "-" +:+ pretty (b - 1)%N +:+ "/" +:+ pretty size.
(** The chunks sent are [data], or broken off before all of it. *)
Definition sends (rs : Response) (data : bytes) : Prop :=
  exists rest, concat (rs_chunks rs) ++ rest = data /\ (rs_cut rs = false -> rest = []).
(** [signs]: signed URLs are used, and can be refreshed. *)
Inductive Honest (signs : Prop) (data : bytes) (g : Get) : Response + string -> Prop :=
  | Honest_unreachable e : Honest signs data g (inr e)
  | Honest_busy rs :
      (500 <= rs_status rs < 600)%N \/ rs_status rs = 429%N \/ rs_status rs = 408%N -> Honest signs data g (inl rs)
  | Honest_expired rs : signs -> g_signed g = true -> rs_status rs = 401%N \/ rs_status rs = 403%N -> Honest signs data g (inl rs)
  | Honest_whole rs : rs_status rs = 200%N -> sends rs data -> Honest signs data g (inl rs)
  | Honest_part rs a b :
      asks g a b (nlen data) -> rs_status rs = 206%N -> rs_content_range rs = Some (content_range a b (nlen data)) ->
      rs_content_length rs = None \/ rs_content_length rs = Some (b - a)%N ->
      sends rs (slice data a b) -> Honest signs data g (inl rs).
Definition delivers (x : Response + string) : Prop :=
  match x with inl rs => (rs_status rs = 200%N \/ rs_status rs = 206%N) /\ rs_cut rs = false | inr _ => False end.

(** The requests a download of the artifact [hash] of [size] bytes makes. *)
Definition fair (cl : Client) (hash : string) (g : Get) (size : N) : Prop :=
  (g_signed g = false -> g_url g = gateway_url cl hash) /\ (g_range g = None \/ exists a b, asks g a b size).
(** What a download of [data] relies on: every such request is answered honestly, all
    but [budget] of them in full. *)
Class Serving {W} {Wd : World W} {Nt : Net W} (status_text : N -> string) (cl : Client) (urls : OutputUrls) (a : Artifact)
    (signs : Prop) (data : bytes) (budget : W -> nat) : Prop := {
  serving_get : forall g w, fair cl (a_hash a) g (nlen data) -> Honest signs data g (net_get g w).2 /\
    (delivers (net_get g w).2 /\ budget (net_get g w).1 <= budget w \/ budget (net_get g w).1 < budget w);
  serving_wait : forall attempt w, budget (backoff attempt w) <= budget w;
  serving_refresh : signs -> forall seen w, exists w' g url, refresh status_text cl urls (a_slot a) seen w = (w', inl (g, url)) /\ budget w' <= budget w;
}.

(** *** Content ranges *)
Lemma pretty_text (n : N) : str_all header_text (pretty n) = true.
Proof.
  pose proof (digits_pretty n) as H. unfold all_digits in H. rewrite str_all_true in *. intros c Hc%H.
  unfold is_ascii_digit, header_text, byte_in in *. breflect. apply orb_true_iff. left. apply andb_true_iff. split; apply N.leb_le; lia.
Qed.
Lemma split_once_digits_app c s n t :
  is_ascii_digit c = false -> split_once c s = None -> split_once c (s +:+ pretty (n : N) +:+ String c t) = Some (s +:+ pretty n, t).
Proof.
  intros Hc. induction s as [|x s IH]; cbn; [intros _; by apply split_once_digits|].
  destruct (Ascii.eqb_spec x c); [done|]. destruct (split_once c s) as [[? ?]|] eqn:E; [done|]. intros _. by rewrite IH.
Qed.
Lemma split_once_none_app c s (n : N) : is_ascii_digit c = false -> split_once c s = None -> split_once c (s +:+ pretty n) = None.
Proof.
  intros Hc. induction s as [|x s IH]; cbn.
  - intros _. generalize (digits_pretty n). induction (pretty n) as [|a t IH]; cbn; [done|].
    intros [Ha Ht]%all_digits_cons. destruct (Ascii.eqb_spec a c) as [->|]; [congruence|]. by rewrite IH.
  - destruct (Ascii.eqb_spec x c); [done|]. destruct (split_once c s) as [[? ?]|]; [done|]. intros _. by rewrite IH.
Qed.
Lemma split_once_digits_none c (n : N) : is_ascii_digit c = false -> split_once c (pretty n) = None.
Proof. intros Hc. by apply (split_once_none_app c "" n). Qed.
Lemma parse_content_range_spec a b size :
  (a <= u64_max)%N -> (b <= u64_max)%N -> (size <= u64_max)%N -> (0 < b)%N ->
  to_str (content_range a b size) = Some (content_range a b size) /\
  parse_content_range (content_range a b size) = Some (a, (b - 1)%N, size).
Proof.
  intros Ha Hb Hs Hb0. split.
  - unfold to_str, content_range. by rewrite !str_all_app, !pretty_text.
  - unfold parse_content_range, content_range. rewrite (proj2 (strip_prefix_Some "bytes " _ _) eq_refl). cbn [mbind option_bind].
    replace (pretty a +:+ "-" +:+ pretty (b - 1)%N +:+ "/" +:+ pretty size)
      with ((pretty a +:+ "-") +:+ pretty (b - 1)%N +:+ String "/" (pretty size)) by by rewrite string_app_assoc.
    rewrite split_once_digits_app; [|done|].
    2: { pose proof (split_once_digits_none "/" a eq_refl) as H. revert H. induction (pretty a) as [|x t IH]; cbn; [done|].
         destruct (Ascii.eqb x "/"); [done|]. destruct (split_once "/" t) as [[? ?]|]; [done|]. intros _. by rewrite IH. }
    cbn [mbind option_bind]. rewrite string_app_assoc. change ("-" +:+ pretty (b - 1)%N) with (String "-" (pretty (b - 1)%N)).
    rewrite split_once_digits by done. cbn [mbind option_bind]. rewrite !parse_u64_pretty by lia. done.
Qed.
Lemma validate_content_range_spec a b size end_ expected :
  (a < b)%N -> (b <= size)%N -> (size <= u64_max)%N -> default size end_ = b -> expected = None \/ expected = Some size ->
  validate_content_range (Some (content_range a b size)) a end_ expected = Ok tt.
Proof.
  intros Hab Hb Hs He Hx. destruct (parse_content_range_spec a b size) as [H1 H2]; [lia..|].
  unfold validate_content_range. cbn [context rbind]. rewrite H1. cbn [context rbind]. rewrite H2. cbn [context rbind].
  rewrite N.eqb_refl, He. unfold checked_add. replace (b - 1 + 1)%N with b by lia. rewrite (proj2 (N.leb_le _ _)) by lia.
  rewrite bool_decide_eq_true_2 by done. destruct Hx as [->| ->]; [done|]. by rewrite N.eqb_refl.
Qed.

(** *** One attempt *)
(** A slice to the end is what is left. *)
Lemma slice_rest (l k : bytes) : slice (l ++ k) (nlen l) (nlen (l ++ k)) = k.
Proof.
  rewrite slice_app_r by lia. replace (nlen (l ++ k) - nlen l)%N with (nlen k) by (unfold nlen; rewrite length_app; lia).
  rewrite N.sub_diag. apply slice_all.
Qed.

(** What was received so far is the beginning of [data]. *)
Definition begun (data : bytes) (r : Received) : Prop := rc_ok r /\ exists rest, rc_hashed r ++ rest = data.
Lemma begun_restart data r : rc_ok r -> begun data (restart r).
Proof. intros H. split; [by apply restart_received_ok|]. by exists data. Qed.
Lemma begun_len data r : begun data r -> (rc_len r <= nlen data)%N.
Proof. intros ((_ & -> & _) & rest & <-). unfold nlen. rewrite length_app. lia. Qed.
Lemma receive_begun data a chunks cut r rest :
  rc_ok r -> (forall len, a_len a = Some len -> len = nlen data) -> rc_hashed r ++ concat chunks ++ rest = data ->
  begun data (receive a chunks cut r).1 /\
  (receive a chunks cut r).2 = (if cut then inr (FRetry (Other "artifact body read error")) else inl tt) /\
  rc_hashed (receive a chunks cut r).1 = rc_hashed r ++ concat chunks.
Proof.
  intros Hr Hlen. revert r Hr; induction chunks as [|c chunks IH]; intros r Hr Hd; cbn [receive].
  - cbn [fst snd]. rewrite app_nil_r. split; [|done]. split; [done|]. by exists rest.
  - pose proof (Received_write_ok c r Hr) as Hw. cbn [concat] in Hd.
    assert (rc_hashed (Received_write c r) ++ concat chunks ++ rest = data) as Hd'
      by (cbn [Received_write rc_hashed]; by rewrite <- Hd, <- !app_assoc).
    assert ((match a_len a with Some len => (len <? rc_len (Received_write c r))%N | None => false end) = false) as ->.
    { destruct (a_len a) as [len|]; [|done]. rewrite (Hlen len eq_refl). apply N.ltb_ge, (begun_len data). split; [done|]. by eexists. }
    destruct (IH _ Hw Hd') as (? & ? & Hh). split_and!; [done|done|]. rewrite Hh. cbn [Received_write rc_hashed concat]. by rewrite app_assoc.
Qed.

Lemma bytes_text_inj (a b : N) : "bytes=" +:+ pretty a +:+ "-" = "bytes=" +:+ pretty b +:+ "-" -> a = b.
Proof.
  intros H. injection H as H. pose proof (split_once_digits "-" a "" eq_refl) as H1. pose proof (split_once_digits "-" b "" eq_refl) as H2.
  change (String "-" "") with "-" in *. rewrite H, H2 in H1. injection H1 as H1. by apply (inj pretty) in H1.
Qed.
Lemma range_text_inj (a b c d : N) : (0 < b)%N -> (0 < d)%N -> range_text a b = range_text c d -> a = c /\ b = d.
Proof.
  intros Hb Hd H. injection H as H.
  pose proof (split_once_digits "-" a (pretty (b - 1)%N) eq_refl) as H1. pose proof (split_once_digits "-" c (pretty (d - 1)%N) eq_refl) as H2.
  change (String "-" (pretty ?x)) with ("-" +:+ pretty x) in *. rewrite H, H2 in H1. injection H1 as H1 H1'.
  apply (inj pretty) in H1, H1'. lia.
Qed.
Lemma range_text_open a b (c : N) : range_text a b <> "bytes=" +:+ pretty c +:+ "-".
Proof.
  intros H. injection H as H.
  pose proof (split_once_digits "-" a (pretty (b - 1)%N) eq_refl) as H1. pose proof (split_once_digits "-" c "" eq_refl) as H2.
  change (String "-" (pretty ?x)) with ("-" +:+ pretty x) in *. change (String "-" "") with "-" in *. rewrite H, H2 in H1. injection H1 as _ H1.
  destruct (pretty_cons (b - 1)) as (x & s & E & _). by rewrite E in H1.
Qed.

(** The parts of a download follow one another from [lo] to [hi]. *)
Inductive tiles (hi : N) : N -> list (N * N) -> Prop :=
  | tiles_nil : tiles hi hi []
  | tiles_cons x y l : (x < y)%N -> (y <= hi)%N -> tiles hi y l -> tiles hi x ((x, y) :: l).
Lemma parts_tile len part : (0 < part)%N -> tiles len 0 (parts len part).
Proof.
  intros Hp. unfold parts. set (k := div_ceil len part).
  pose proof (div_ceil_spec len part Hp) as Hk. fold k in Hk.
  clearbody k. destruct Hk as [Hk Hlt].
  assert (H : forall m i, i + m = N.to_nat k -> tiles len (N.min (N.of_nat i * part) len)
    (map (fun i => let i := N.of_nat i in (i * part, N.min ((i + 1) * part) len)%N) (seq i m))).
  { induction m as [|m IH]; intros i Hi; cbn [seq map].
    - replace (N.min (N.of_nat i * part) len) with len; [constructor|]. replace (N.of_nat i) with k by lia. lia.
    - specialize (Hlt (N.of_nat i) ltac:(lia)). rewrite N.min_l by lia. constructor; [rewrite N.mul_add_distr_r; lia|lia|].
      specialize (IH (S i) ltac:(lia)). by replace (N.of_nat (S i)) with (N.of_nat i + 1)%N in IH by lia. }
  specialize (H (N.to_nat k) 0 eq_refl). by rewrite N.mul_0_l, N.min_0_l in H.
Qed.

Section delivered.
Context {W : Type} {Wd : World W} {Nt : Net W} (status_text : N -> string) (cl : Client).
Context (urls : OutputUrls) (a : Artifact) (signs : Prop) (data : bytes) (budget : W -> nat).
Context {Hs : Serving status_text cl urls a signs data budget}.
Hypothesis Hlen : a_len a = Some (nlen data).
Hypothesis Hmax : (nlen data <= u64_max)%N.

(** A failure the next attempt may mend. *)
Definition transient (f : FetchFailure) : Prop := match f with FRetry _ => True | FRefreshUrl _ => signs | _ => False end.

Lemma request_spec url range w w' x :
  (forall g, g_range g = range -> g_range g = None \/ exists x y, asks g x y (nlen data)) -> request cl a url range w = (w', x) -> exists g, g_range g = range /\
  match x with
  | inl rs => Honest signs data g (inl rs) /\ success_status (rs_status rs) = true /\
      (delivers (inl rs) /\ budget w' <= budget w \/ budget w' < budget w)
  | inr f => transient f /\ budget w' < budget w
  end.
Proof.
  intros Hfair. unfold request. set (p := match url with Some url => (url, true) | None => _ end). destruct p as [u signed] eqn:Ep.
  set (g := {| g_url := u; g_signed := signed; g_range := range |}). intros H. exists g. split; [done|].
  destruct (serving_get (Serving := Hs) g w) as [Hh Hb].
  { split; [|by apply Hfair]. cbn. intros Hsg. subst p. destruct url; by simplify_eq. } destruct (net_get g w) as [w1 [rs|e]]; cbn [fst snd] in *.
  2: { injection H as <- <-. split; [done|]. by destruct Hb as [[[] _]|?]. }
  injection H as <- <-. unfold classify_fetch_status. destruct (success_status (rs_status rs)) eqn:Es; [by split_and!|].
  assert (budget w1 < budget w) as Hlt by (destruct Hb as [[[[E|E] _] _]|?]; [rewrite E in Es; done..|done]).
  inversion Hh as [|? Hst|? Hsi Hsg Hst|? Hst|? ? ? ? Hst]; subst; try (rewrite Hst in Es; done).
  - split; [|done]. assert ((500 <=? rs_status rs) && (rs_status rs <? 600) || (rs_status rs =? 429) || (rs_status rs =? 408) = true)%N as ->; [|done].
    rewrite !orb_true_iff, andb_true_iff, N.leb_le, N.ltb_lt, !N.eqb_eq. tauto.
  - split; [|done]. cbn in Hsg. rewrite Hsg. by destruct Hst as [-> | ->].
Qed.

Lemma accept_spec g r rs :
  begun data r -> rc_len r <> nlen data \/ rc_len r = 0%N -> g_range g = resume_range r -> Honest signs data g (inl rs) ->
  success_status (rs_status rs) = true ->
  exists r1 rest, accept a rs r = inl r1 /\ rc_ok r1 /\ rc_hashed r1 ++ concat (rs_chunks rs) ++ rest = data /\ (rs_cut rs = false -> rest = []).
Proof.
  intros Hbg Hne Hg Hh Hst. pose proof Hbg as [Hr [tail Htail]]. pose proof (begun_len _ _ Hbg) as Hle.
  inversion Hh as [|? E|? Hsi Hsg E|? E [rest [Hc Hcut]]|? x y (Hxy & Hy & Hask) E Hcr Hcl [rest [Hc Hcut]]];
    repeat match goal with H : ?x = rs |- _ => subst x | H : rs = ?x |- _ => subst x end.
  - exfalso. clear -E Hst. unfold success_status in Hst. breflect. lia.
  - exfalso. clear -E Hst. unfold success_status in Hst. breflect. lia.
  - unfold accept. rewrite E. cbn. destruct (N.ltb_spec 0 (rc_len r)) as [Hpos|Hz].
    + exists (restart r), rest. split_and!; [done|by apply restart_received_ok|by cbn|done].
    + exists r, rest. split_and!; [done|done| |done]. destruct Hr as (_ & Hl & _). assert (rc_hashed r = []) as -> by (apply nil_length_inv; unfold nlen in Hl; lia). done.
  - unfold resume_range in Hg. destruct (N.ltb_spec 0 (rc_len r)) as [Hpos|Hz]; rewrite Hg in Hask; [|by destruct Hask as [[? _]|?]].
    destruct Hask as [[[= Hx] ->]|Hx]; [|injection Hx as Hx; exfalso; eapply range_text_open; unfold range_text; cbn; by rewrite <- Hx].
    assert (rc_len r = x) as <- by (apply bytes_text_inj; cbn; by rewrite Hx).
    exists r, rest. unfold accept. rewrite E, (proj2 (N.ltb_lt _ _) Hpos). cbn. rewrite Hcr, Hlen.
    rewrite validate_content_range_spec by (done || lia || by right). split_and!; [|done| |done].
    + destruct Hcl as [-> | ->]; [done|]. by rewrite N.eqb_refl.
    + rewrite Hc. destruct Hr as (_ & -> & _). rewrite <- Htail. by rewrite slice_rest.
Qed.
Lemma resume_fair r g : begun data r -> rc_len r <> nlen data \/ rc_len r = 0%N -> g_range g = resume_range r ->
  g_range g = None \/ exists x y, asks g x y (nlen data).
Proof.
  intros Hbg%begun_len Hne Hg. unfold resume_range in Hg. destruct (N.ltb_spec 0 (rc_len r)); [|by left].
  right. exists (rc_len r), (nlen data). split_and!; [lia|lia|by left].
Qed.
Lemma download_attempt_spec url r w w' r' x :
  begun data r -> rc_len r <> nlen data \/ rc_len r = 0%N -> download_attempt cl a url r w = (w', r', x) ->
  begun data r' /\
  match x with
  | inl _ => rc_hashed r' = data /\ budget w' <= budget w
  | inr f => transient f /\ budget w' < budget w
  end.
Proof.
  intros Hbg Hne. unfold download_attempt. destruct (request _ _ _ _ w) as [w1 y] eqn:E. apply request_spec in E as (g & Hg & Hy); [|intros g Hg; by apply (resume_fair r)].
  destruct y as [rs|f]; [|by intros [= <- <- <-]]. destruct Hy as (Hh & Hst & Hb).
  destruct (accept_spec g r rs Hbg Hne Hg Hh Hst) as (r1 & rest & -> & Hr1 & Hd & Hcut).
  destruct (receive_begun data a (rs_chunks rs) (rs_cut rs) r1 rest Hr1) as (Hbg' & Hout & Hhash); [by rewrite Hlen; intros ? [= <-]|done|].
  destruct (receive _ _ _ _) as [r2 out]. cbn [fst snd] in *. subst out. intros [= <- <- <-]. split; [done|].
  destruct (rs_cut rs) eqn:Ec.
  - split; [done|]. destruct Hb as [[[_ Hf] _]|?]; [congruence|done].
  - rewrite (Hcut eq_refl), app_nil_r in Hd. rewrite Hhash. split; [done|]. destruct Hb as [[_ ?]|?]; lia.
Qed.

(** *** All attempts *)
Lemma after_failure_spec n left_ f g url w :
  transient f -> exists w' g' url', after_failure status_text cl urls (a_slot a) n (S left_) f g url w = (w', inl (g', url')) /\ budget w' <= budget w.
Proof.
  destruct f as [e|e|e|]; try done; intros Hf; cbn [after_failure].
  - exists (backoff n w), g, url. split; [done|]. apply (serving_wait (Serving := Hs)).
  - by apply (serving_refresh (Serving := Hs)).
Qed.
Lemma attempts_spec n left_ g url r w :
  begun data r -> budget w < left_ ->
  exists w' r', attempts status_text cl urls a n left_ g url r w = (w', inl r') /\ rc_ok r' /\ rc_hashed r' = data /\ budget w' <= budget w.
Proof.
  revert n g url r w; induction left_ as [|left_ IH]; intros n g url r w Hr Hb; [lia|]. cbn [attempts].
  destruct (_ && _) eqn:E.
  - apply andb_true_iff in E as [_ E]. apply bool_decide_eq_true in E. rewrite Hlen in E. injection E as E.
    exists w, r. split_and!; [done|apply Hr| |done]. destruct Hr as [(_ & Hl & _) [rest Hd]]. rewrite E, <- Hd in Hl.
    unfold nlen in Hl. rewrite length_app in Hl. assert (rest = []) as -> by (apply nil_length_inv; lia). by rewrite app_nil_r in Hd.
  - destruct (download_attempt cl a url r w) as [[w1 r1] x] eqn:Ea. apply download_attempt_spec in Ea as [Hr1 Hx]; [|done|].
    + destruct x as [[]|f]; [exists w1, r1; split_and!; [done|apply Hr1|apply Hx|apply Hx]|]. destruct Hx as [Hf Hlt].
      destruct left_ as [|left_]; [lia|].
      destruct (after_failure_spec n left_ f g url w1 Hf) as (w2 & g' & url' & -> & Hle).
      destruct (IH (n + 1)%N g' url' r1 w2 Hr1 ltac:(lia)) as (w3 & r3 & -> & ? & ? & ?). exists w3, r3. split_and!; [done..|lia].
    + apply andb_false_iff in E as [E|E]; [right; apply N.ltb_ge in E; lia|left]. apply bool_decide_eq_false in E. congruence.
Qed.

(** *** Ranges *)
Lemma range_attempt_spec url x y w w' out :
  (x < y)%N -> (y <= nlen data)%N -> range_attempt cl a url x y w = (w', out) ->
  match out with
  | inl b => b = slice data x y /\ budget w' <= budget w
  | inr FRangeIgnored => budget w' <= budget w
  | inr f => transient f /\ budget w' < budget w
  end.
Proof.
  intros Hxy Hy. unfold range_attempt. destruct (request _ _ _ _ w) as [w1 z] eqn:E. apply request_spec in E as (g & Hg & Hz);
    [|intros g Hg; right; exists x, y; split_and!; [done|done|by right]].
  destruct z as [rs|f]; [|intros [= <- <-]; by destruct f, Hz]. destruct Hz as (Hh & Hst & Hb). intros [= <- <-].
  assert (budget w1 <= budget w) as Hle by (destruct Hb as [[_ ?]|?]; lia).
  destruct (N.eqb_spec (rs_status rs) 200); [done|].
  inversion Hh as [|? E|? Hsi Hsg E|? E _|? x' y' (Hxy' & Hy' & Hask) E Hcr Hcl [rest [Hc Hcut]]];
    repeat match goal with H : ?v = rs |- _ => subst v | H : rs = ?v |- _ => subst v end;
    try (exfalso; clear -E Hst n; unfold success_status in Hst; breflect; lia).
  rewrite E. cbn [N.eqb negb Pos.eqb]. rewrite Hg in Hask. destruct Hask as [[Hask _]|Hask]; [by injection Hask as Hask; exfalso; eapply range_text_open; unfold range_text; cbn; by rewrite Hask|].
  assert (x = x' /\ y = y') as [<- <-] by (injection Hask as Hask; apply range_text_inj; [lia|lia|]; unfold range_text; cbn; by rewrite Hask).
  rewrite Hcr, Hlen, validate_content_range_spec by (done || lia || by right). destruct (rs_cut rs) eqn:Ec.
  - split; [done|]. destruct Hb as [[[_ ?] _]|?]; [congruence|done].
  - rewrite (Hcut eq_refl), app_nil_r in Hc. rewrite Hc, slice_length, N.eqb_refl by lia. done.
Qed.
Lemma range_attempts_spec x y n left_ g url w :
  (x < y)%N -> (y <= nlen data)%N -> budget w <= left_ ->
  exists w' out, range_attempts status_text cl urls a x y n left_ g url w = (w', inl out) /\ budget w' <= budget w /\
    forall b, out = Some b -> b = slice data x y.
Proof.
  intros Hxy Hy. revert n g url w; induction left_ as [|left_ IH]; intros n g url w Hb; cbn [range_attempts];
    destruct (range_attempt cl a url x y w) as [w1 out] eqn:E; apply range_attempt_spec in E; try done.
  - destruct out as [b|[e|e|e|]]; try (exfalso; lia).
    + exists w1, (Some b). destruct E as [-> ?]. split_and!; [done|lia|]. by intros ? [= <-].
    + by exists w1, None.
  - destruct out as [b|f]; [exists w1, (Some b); destruct E as [-> ?]; split_and!; [done|lia|by intros ? [= <-]]|].
    assert (f = FRangeIgnored /\ budget w1 <= budget w \/ transient f /\ budget w1 < budget w) as [[-> Hle]|[Hf Hlt]] by (destruct f; tauto).
    + by exists w1, None.
    + destruct (after_failure_spec n left_ f g url w1 Hf) as (w2 & g' & url' & Ha & Hle).
      destruct (IH (n + 1)%N g' url' w2 ltac:(lia)) as (w3 & out & He & ? & ?).
      exists w3, out. destruct f; try done; rewrite Ha; (split_and!; [done|lia|done]).
Qed.
Lemma receive_ranges_spec l x r w :
  tiles (nlen data) x l -> rc_ok r -> rc_hashed r = slice data 0 x -> budget w < FETCH_MAX_ATTEMPTS ->
  exists w' r' b, receive_ranges status_text cl urls a l r w = (w', inl (r', b)) /\ budget w' <= budget w /\ rc_ok r' /\
    (b = true -> rc_hashed r' = data).
Proof.
  intros Ht. revert r w; induction Ht as [|x y l Hxy Hy Ht IH]; intros r w Hr Hd Hb; cbn [receive_ranges].
  - exists w, r, true. split_and!; [done|lia|done|]. intros _. by rewrite Hd, slice_all.
  - unfold download_range, current. destruct (net_current w) as [g info].
    destruct (range_attempts_spec x y 1 (pred FETCH_MAX_ATTEMPTS) g (select (a_slot a) info) w Hxy Hy ltac:(unfold FETCH_MAX_ATTEMPTS in *; cbn; lia))
      as (w1 & out & -> & Hle & Hout).
    destruct out as [b|]; [|exists w1, r, false; split_and!; [done|lia|done|done]].
    rewrite (Hout b eq_refl). destruct (IH (Received_write (slice data x y) r) w1) as (w2 & r2 & b2 & -> & ? & ? & ?); [auto with rust| |lia|].
    + cbn [Received_write rc_hashed]. by rewrite Hd, slice_app by lia.
    + exists w2, r2, b2. split_and!; [done|lia|done|done].
Qed.

(** *** The download *)
Context (sha1 sha256 : bytes -> string) (rename_ : Disk -> string -> Renamed) (part_var : option string).
Hypothesis Hhash : sha256 data = a_hash a.
Lemma finish_spec r : rc_ok r -> rc_hashed r = data -> exists d, finish sha256 (a_hash a) (a_len a) r = Ok d /\ downloaded_bytes d = data.
Proof.
  intros (Hb & Hl & _) Hd. unfold finish. rewrite Hd, Hhash, (proj2 (verify_artifact_ok _ _ _ _ tt)).
  - eexists. split; [done|]. destruct (rc_body r); cbn; [by subst b|]. destruct Hb as [-> _]. done.
  - split_and!; [done| |done]. rewrite Hlen. intros n [= <-]. by rewrite Hl, Hd.
Qed.
Lemma whole_download_spec r w :
  rc_ok r -> begun data r -> budget w < FETCH_MAX_ATTEMPTS ->
  exists w' d, whole status_text cl sha256 urls a r w = (w', inl d) /\ downloaded_bytes d = data.
Proof.
  intros Hr Hbg Hb. unfold whole, current. destruct (net_current w) as [g info].
  destruct (attempts_spec 1 FETCH_MAX_ATTEMPTS g (select (a_slot a) info) r w Hbg Hb) as (w1 & r1 & -> & Hok & Hd & _).
  destruct (finish_spec r1 Hok Hd) as (d & -> & ?). by exists w1, d.
Qed.
Lemma download_delivered sink w :
  cached sha1 sha256 (a_hash a) sink w = None -> budget w < FETCH_MAX_ATTEMPTS ->
  exists w' d, download status_text cl sha1 sha256 rename_ part_var urls a sink w = (w', inl d) /\ downloaded_bytes d = data.
Proof.
  intros Hc Hb. unfold download. rewrite Hc. set (r := Received_open _ _).
  assert (Hr : begun data r) by (split; [apply Received_open_ok|by exists data]).
  destruct (large_file _ a sink) as [len|] eqn:El.
  - assert (len = nlen data) as -> by (unfold large_file in El; rewrite Hlen in El; repeat case_match; simplify_eq; done).
    destruct (receive_ranges_spec (parts (nlen data) (range_part_bytes part_var)) 0 r w) as (w1 & r1 & b & -> & Hle & Hr1 & Hd1); [| | |done|].
    + apply parts_tile. unfold range_part_bytes. lia.
    + apply Hr.
    + by rewrite slice_empty.
    + destruct b.
      * destruct (finish_spec r1 Hr1 (Hd1 eq_refl)) as (d & -> & ?). by exists w1, d.
      * apply whole_download_spec; [by apply restart_received_ok|by apply begun_restart|lia].
  - destruct (whole_download_spec r w) as (w1 & d & -> & Hd); [apply Hr|done|done|]. destruct d; by eexists _, _.
Qed.
End delivered.

(** ** The server's route is such a server *)

(** What the client sees of an answer. *)
Definition response_of (s : Served) : Response :=
  match s with
  | Redirect _ => {| rs_status := 307; rs_content_range := None; rs_content_length := None; rs_chunks := []; rs_cut := false |}
  | Refuse status _ => {| rs_status := status; rs_content_range := None; rs_content_length := None; rs_chunks := []; rs_cut := false |}
  | Body status range len body =>
      {| rs_status := status; rs_content_range := range; rs_content_length := Some len; rs_chunks := st_chunks body;
         rs_cut := bool_decide (is_Some (st_error body)) |}
  end.

Section route.
Context {St : StorageBackend} (read_takes : N -> N -> N) (hash : string) (data : bytes).
Context {Hh : StorageHolds St hash data}.
Hypothesis Hmax : (nlen data <= u64_max)%N.

Lemma strip_bytes t : strip_prefix "bytes=" ("bytes=" +:+ t) = Some t.
Proof. by apply strip_prefix_Some. Qed.
Lemma parse_byte_range_asks g a b :
  asks g a b (nlen data) -> exists text, g_range g = Some text /\ to_str text = Some text /\
    parse_byte_range text (nlen data) = Some (a, (b - 1)%N).
Proof.
  intros (Hab & Hb & [[Hg ->]|Hg]); (eexists; split; [exact Hg|]); unfold range_text; (split;
    [unfold to_str; by rewrite !str_all_app, !pretty_text|]); unfold parse_byte_range; rewrite strip_bytes; cbn [mbind option_bind].
  - rewrite (split_once_digits "-" a "" eq_refl). cbn [mbind option_bind]. rewrite parse_u64_pretty by lia. cbn [mbind option_bind].
    rewrite (proj2 (N.leb_gt _ _)) by lia. cbn [bool_decide decide]. rewrite bool_decide_eq_true_2 by done. cbn [mbind option_bind].
    by rewrite (proj2 (N.ltb_ge _ _)) by lia.
  - change ("-" +:+ pretty (b - 1)%N) with (String "-" (pretty (b - 1)%N)).
    rewrite (split_once_digits "-" a (pretty (b - 1)%N) eq_refl). cbn [mbind option_bind]. rewrite (parse_u64_pretty a) by lia. cbn [mbind option_bind].
    rewrite (proj2 (N.leb_gt _ _)) by lia. destruct (pretty_cons (b - 1)) as (x & s & E & _).
    rewrite bool_decide_eq_false_2 by (by rewrite E). rewrite (parse_u64_pretty (b - 1)) by lia. cbn [mbind option_bind].
    rewrite N.min_l by lia. by rewrite (proj2 (N.ltb_ge _ _)) by lia.
Qed.
(** A body from [start] to [end_], both in the artifact. *)
Lemma stream_range start end_ source :
  (start <= end_)%N -> (end_ < nlen data)%N -> sb_open_file hash = Ok source ->
  let len := (end_ - start + 1)%N in
  let body := artifact_body read_takes (N.to_nat len)
    match source with Some file => SourceFile (drop (N.to_nat start) file) | None => SourceRanges hash start end 0 len in
  concat (st_chunks body) = slice data start (end_ + 1) /\ st_error body = None.
Proof.
  intros Hse He Hopen len body.
  assert (Hs : source_at hash data (match source with Some file => SourceFile (drop (N.to_nat start) file) | None => SourceRanges hash start end)
    (drop (N.to_nat start) data)).
  { destruct holds_file as [H|[H _]]; rewrite H in Hopen; injection Hopen as <-; cbn; [done|]. split_and!; [done|done|lia|done]. }
  destruct (artifact_body_spec read_takes hash data (N.to_nat len) _ _ 0 len Hs) as [Hc Hn].
  - unfold nlen in *. rewrite length_drop. lia.
  - lia.
  - split; [|done]. unfold body. rewrite Hc. unfold slice. do 2 f_equal. lia.
Qed.
Lemma serve_artifact_honest g :
  sb_signed_url hash = None -> g_range g = None \/ (exists a b, asks g a b (nlen data)) ->
  let rs := response_of (serve_artifact read_takes hash (g_range g)) in
  Honest False data g (inl rs) /\ delivers (inl rs).
Proof.
  intros Hsig Hg. unfold serve_artifact. rewrite Hsig, holds_size.
  destruct (N.eqb_spec (nlen data) 0) as [Hz|Hnz].
  { assert (data = []) as Hd by (apply nil_length_inv; unfold nlen in Hz; lia). cbn. split; [|auto].
    apply Honest_whole; [done|]. exists []. by rewrite Hd. }
  assert (exists file, sb_open_file hash = Ok file) as [file Hf] by (destruct holds_file as [H|[H _]]; by eexists).
  rewrite Hf. destruct Hg as [->|(a & b & Hask)].
  - cbn [mbind option_bind]. destruct (stream_range 0 (nlen data - 1) file ltac:(lia) ltac:(lia) Hf) as [Hc He].
    rewrite N.sub_0_r in *. replace (nlen data - 1 + 1)%N with (nlen data) in * by lia. rewrite slice_all in Hc.
    cbn. rewrite He. split; [|auto]. apply Honest_whole; [done|]. exists []. cbn. by rewrite Hc, app_nil_r.
  - destruct (parse_byte_range_asks g a b Hask) as (text & -> & Ht & Hp). cbn [mbind option_bind]. rewrite Ht. cbn [mbind option_bind]. rewrite Hp.
    pose proof Hask as (Hab & Hb & _). destruct (stream_range a (b - 1) file ltac:(lia) ltac:(lia) Hf) as [Hc He].
    replace (b - 1 + 1)%N with b in Hc by lia. replace (b - 1 - a + 1)%N with (b - a)%N in * by lia.
    cbn. rewrite He. split; [|auto]. apply (Honest_part _ _ _ _ a b); [done|done|done|by right|]. exists []. cbn. by rewrite Hc, app_nil_r.
Qed.
End route.

(** *** A client and the server's route

    What becomes of a request: the answer arrives, is not reached, is refused for
    now, or breaks off after [k] bytes. *)
Inductive Fault := Fine | Unreached | Busy | CutAt (k : N).
Definition suffer (f : Fault) (rs : Response) : Response + string :=
  match f with
  | Fine => inl rs
  | Unreached => inr "connection refused"
  | Busy => inl {| rs_status := 503; rs_content_range := None; rs_content_length := None; rs_chunks := []; rs_cut := false |}
  | CutAt k => inl {| rs_status := rs_status rs; rs_content_range := rs_content_range rs; rs_content_length := rs_content_length rs;
                      rs_chunks := [take (N.to_nat k) (concat (rs_chunks rs))]; rs_cut := true |}
  end.
Definition is_fault (f : Fault) : bool := match f with Fine => false | _ => true end.

Section joined.
Context {St : StorageBackend} (read_takes : N -> N -> N) (cl : Client) (info : RefResponse).
(** The server's answer to a request: its route, or the object storage behind a
    signed URL of [hash]. *)
Definition answer_get (hash : string) (g : Get) : Served :=
  if g_signed g then serve_artifact read_takes hash (g_range g)
  else
    match strip_prefix (cl_server cl +:+ "/v1/artifacts/") (g_url g) with
    | Some path => get_artifact read_takes path (g_range g)
    | None => Refuse 404 ""
    end.
(** A world of that server and what becomes of each request to it. *)
Definition joined_world : World (list Fault) := {|
  w_send _ w := (w, Unreachable ""); w_now _ := 0%N; w_sleep _ w := w |}.
Definition joined_net (hash : string) : Net (list Fault) := {|
  net_get g w := (tail w, suffer (default Fine (head w)) (response_of (answer_get hash g)));
  net_rand w := (w, 0%N);
  net_current _ := (0%N, info); net_set_current _ w := w;
  net_cache _ := None; net_set_cache _ w := w;
|}.
Definition faults (w : list Fault) : nat := length (List.filter is_fault w).

Lemma joined_serving status_text urls a data :
  StorageHolds St (a_hash a) data -> (nlen data <= u64_max)%N -> sb_signed_url (a_hash a) = None -> validate_artifact_id (a_hash a) = Ok tt ->
  @Serving _ joined_world (joined_net (a_hash a)) status_text cl urls a False data faults.
Proof.
  intros Hst Hmax Hsig Hid. split; [|done|done]. intros g w [Hurl Hrange]. cbn.
  assert (answer_get (a_hash a) g = serve_artifact read_takes (a_hash a) (g_range g)) as ->.
  { unfold answer_get. destruct (g_signed g); [done|]. rewrite (Hurl eq_refl). unfold gateway_url. rewrite <- string_app_assoc.
    rewrite (proj2 (strip_prefix_Some _ _ _) eq_refl). unfold get_artifact. by rewrite Hid. }
  destruct (serve_artifact_honest read_takes (a_hash a) data Hmax g Hsig Hrange) as [Hh Hd].
  set (rs := response_of _) in *. destruct w as [|f w]; cbn [head default tail hd_error tl].
  { split; [done|]. left. split; [done|]. unfold faults. cbn. lia. }
  cbn. destruct f as [| | |k]; unfold faults; cbn.
  - split; [done|]. left. split; [done|lia].
  - split; [constructor|]. right. lia.
  - split; [apply Honest_busy; cbn; lia|]. right. lia.
  - split; [|right; lia]. destruct Hd as [Hst2 Hcut].
    assert (Hs : forall b, sends rs b -> sends {| rs_status := rs_status rs; rs_content_range := rs_content_range rs;
      rs_content_length := rs_content_length rs; rs_chunks := [take (N.to_nat k) (concat (rs_chunks rs))]; rs_cut := true |} b).
    { intros b [rest [<- _]]. exists (drop (N.to_nat k) (concat (rs_chunks rs)) ++ rest). cbn. split; [|done].
      by rewrite app_nil_r, app_assoc, take_drop. }
    inversion Hh as [|? E|? []|? E Hse|? x y Ha E Hcr Hcl Hse]; repeat match goal with H : ?v = rs |- _ => subst v | H : rs = ?v |- _ => subst v end.
    + exfalso. lia.
    + apply Honest_whole; [done|by apply Hs].
    + by apply (Honest_part _ _ _ _ x y); [..|by apply Hs].
Qed.
End joined.

(** C14: a download from a server that holds the artifact gives its bytes, into memory
    or into a file, in one stream or in ranges, when at most two of its requests are
    not reached, are refused for now, or break off. *)
Theorem download_delivers {St : StorageBackend} read_takes cl info status_text sha1 sha256 rename_ part_var urls a data sink w :
  StorageHolds St (a_hash a) data -> sb_signed_url (a_hash a) = None -> (nlen data <= u64_max)%N ->
  validate_artifact_id (a_hash a) = Ok tt -> sha256 data = a_hash a -> a_len a = Some (nlen data) ->
  faults w <= 2 ->
  exists w' d, @download _ joined_world (joined_net read_takes cl info (a_hash a)) status_text cl sha1 sha256 rename_ part_var urls a sink w = (w', inl d) /\
    downloaded_bytes d = data.
Proof.
  intros Hst Hsig Hmax Hid Hhash Hlen Hw.
  pose proof (joined_serving read_takes cl info status_text urls a data Hst Hmax Hsig Hid) as Hs.
  apply (@download_delivered _ _ _ _ _ _ _ _ _ _ Hs Hlen Hmax sha1 sha256 rename_ part_var Hhash); [by destruct sink|]. unfold FETCH_MAX_ATTEMPTS. lia.
Qed.

(** An artifact of three bytes, into a file: the first answer breaks off after one,
    the second is refused, the third brings the rest. *)
Module DownloadExample.
Definition id : string := "00000000000000000000000000000000000000000000000000000000000000aa".
Definition sha (b : bytes) : string := id.
Definition rename_ (d : Disk) (h : string) : Renamed := RenameOk.
Definition data : bytes := [Byte.x01; Byte.x02; Byte.x03].
Definition disk : Disk := {| d_dirs := {[ "00" := true ]}; d_objects := {[ id := [Some {| f_bytes := data; f_synced := true |}] ]} |}.
Definition output : RefResponse :=
  mkRefResponse "acme" "demo" "github" "github.com" "https://github.com/acme/demo.git" "" None "m" None "c" None "" None
    None None None None None None None None None None Full ∅.
Definition cl : Client :=
  {| cl_server := "https://h"; cl_is_cloud := false; cl_provider := "github"; cl_provider_instance := None;
     cl_origin_base := None; cl_poll_ms := None |}.
Definition urls : OutputUrls := {| ou_repo_path := "acme/demo"; ou_output := output |}.
Definition artifact : Artifact := {| a_hash := id; a_len := Some 3%N; a_slot := UMetadata |}.
Definition one_byte (sent wanted : N) : N := 1.
Definition net := @joined_net (LocalStorage disk) one_byte cl output id.

Lemma download_delivers_witness :
  faults [CutAt 1; Busy] <= 2 /\
  exists w' d, @download _ joined_world net (fun _ => "") cl sha sha rename_ None urls artifact SinkTempFile [CutAt 1; Busy] = (w', inl d) /\
    downloaded_bytes d = data.
Proof.
  split; [cbn; lia|].
  apply (@download_delivers (LocalStorage disk) one_byte cl output (fun _ => "") sha sha rename_ None urls artifact data SinkTempFile [CutAt 1; Busy]);
    [|vm_compute; reflexivity|vm_compute; discriminate|vm_compute; reflexivity..|cbn; lia].
  apply LocalStorage_holds; [vm_compute; reflexivity..|vm_compute; discriminate].
Defined.
Lemma download_verified_witness :
  (forall b, validate_artifact_id (sha b) = Ok tt) /\
  verified sha sha artifact (DTempFile data 3).
Proof.
  split; [intros b; vm_compute; reflexivity|].
  refine (proj1 (proj1 (@download_verified _ joined_world net (fun _ => "") cl sha sha rename_ (fun _ => None) None urls artifact _)
    SinkTempFile [CutAt 1; Busy] [] (DTempFile data 3) _)).
  - intros b. vm_compute. reflexivity.
  - vm_compute. reflexivity.
Defined.
End DownloadExample.
