(* ===== verification/ClientThms.v ===== *)
(** What a client's plan promises of itself ([Client.v]), whatever the server
    answers: only outputs of the pinned commit are installed, or a base the clone
    completes from its own provider, and a pending build is polled a bounded number
    of times for a bounded time. *)

From S2P Require Import Prelude Provider Validation Outputs Refs LsRemote Wire Client.

Section thms.
Context {W : Type} {Wd : World W} (status_text : N -> string) (cl : Client).
Local Abbreviation Cli := (Cli (W := W)).
Local Notation "'let&' x := e 'in' k" := (cbind e (fun x => k)) (at level 10, x pattern, e at level 200, k at level 200).

(** ** What a client's value is *)
Definition gives {A} (m : Cli A) (Q : A -> Prop) : Prop := forall w w' x, m w = (w', inl x) -> Q x.
Lemma gives_ret {A} (x : A) (Q : A -> Prop) : Q x -> gives (cret x) Q.
Proof. by intros Hx w w' y [= <- <-]. Qed.
Lemma gives_fail {A} e (Q : A -> Prop) : gives (cfail e) Q.
Proof. done. Qed.
Lemma gives_bind {A B} (m : Cli A) (k : A -> Cli B) Q R : gives m Q -> (forall x, Q x -> gives (k x) R) -> gives (cbind m k) R.
Proof.
  intros Hm Hk w w' y. unfold cbind. destruct (m w) as [w1 [x|e]] eqn:E; [|done]. intros H. by eapply (Hk x); [eapply Hm|].
Qed.
Lemma gives_check {A} (r : Result A) (Q : A -> Prop) : (forall x, r = Ok x -> Q x) -> gives (checked r) Q.
Proof. intros H. destruct r as [x|e]; [by apply gives_ret, H|apply gives_fail]. Qed.
Lemma gives_any {A} (m : Cli A) : gives m (fun _ => True).
Proof. done. Qed.

(** What the checks of an output leave. *)
Definition output_of (commit : string) (kind : ExactResultKind) (o : RefResponse) : Prop :=
  rf_commit o = commit /\ rf_kind o = kind /\ rf_clonepack_manifest o <> "".
Lemma validate_output_ok o commit kind repo_path : validate_output o commit kind repo_path = Ok tt <-> output_of commit kind o.
Proof.
  unfold validate_output, output_of. repeat case_bool_decide; cbn; naive_solver.
Qed.
Lemma with_context_ok {A} m (r : Result A) x : with_context m r = Ok x <-> r = Ok x.
Proof. by destruct r. Qed.

(** What a clone of [kind] may install for [target]. *)
Definition plan_ok (repo_path target : string) (kind : ExactResultKind) (fallback : Fallback) (p : Plan) : Prop :=
  match p with
  | PlanTopUp base url => fallback = FbTopUp /\ output_of (rf_commit base) kind base /\ validate_object_id (rf_commit base) = Ok tt /\
      rf_commit base <> target /\ top_up_url cl repo_path = Ok url
  | PlanFilesFromHead o => fallback = FbHead /\ output_of target Head o
  | _ => output_of target kind (Plan_output p) /\ p = Plan_exact (Plan_output p) /\
      forall base, rf_refs_base (Plan_output p) = Some base ->
        output_of (rf_commit base) Full base /\ validate_object_id (rf_commit base) = Ok tt /\ rf_commit base <> target
  end.
Lemma exact_ok repo_path target kind fallback o : output_of target kind o -> check_refs_base repo_path target o = Ok tt ->
  plan_ok repo_path target kind fallback (Plan_exact o).
Proof.
  intros Ho Hb. assert (H : forall base, rf_refs_base o = Some base ->
    output_of (rf_commit base) Full base /\ validate_object_id (rf_commit base) = Ok tt /\ rf_commit base <> target).
  { intros base E. unfold check_refs_base in Hb. rewrite E in Hb.
    destruct (with_context _ (validate_object_id _)) as [[]|] eqn:E1; [|done]. apply with_context_ok in E1. cbn [rbind] in Hb.
    destruct (with_context _ (validate_output _ _ _ _)) as [[]|] eqn:E2; [|done]. apply with_context_ok, validate_output_ok in E2. cbn [rbind] in Hb.
    case_bool_decide; [done|]. done. }
  unfold Plan_exact. destruct (rf_kind o) eqn:E; cbn; (split; [done|]; split; [by unfold Plan_exact; rewrite E|done]).
Qed.
Lemma ready_head_gives repo_path target :
  gives (ready_head status_text cl repo_path target) (fun o => forall head, o = Some head -> output_of target Head head).
Proof.
  unfold ready_head. eapply gives_bind; [apply gives_any|]. intros [output|commit t|commit e] _.
  - eapply gives_bind with (Q := fun _ => output_of target Head output).
    + apply gives_check. intros [] H. by eapply validate_output_ok.
    + intros _ H. apply gives_ret. by intros ? [= <-].
  - eapply gives_bind; [apply gives_any|]. intros _ _. by apply gives_ret.
  - eapply gives_bind; [apply gives_any|]. intros _ _. by apply gives_ret.
Qed.
Lemma top_up_ok repo_path target kind fallback t p : fallback = FbTopUp ->
  check_top_up cl repo_path target kind t = Ok p -> plan_ok repo_path target kind fallback p.
Proof.
  intros -> H. unfold check_top_up in H.
  destruct (with_context _ (validate_object_id _)) as [[]|] eqn:E1; [|done]. apply with_context_ok in E1. cbn [rbind] in H.
  destruct (with_context _ (validate_output _ _ _ _)) as [[]|] eqn:E2; [|done]. apply with_context_ok, validate_output_ok in E2. cbn [rbind] in H.
  case_bool_decide as E3; [done|]. cbn [negb] in H. destruct (top_up_url cl repo_path) as [url|] eqn:E4; [|done]. cbn in H. injection H as <-.
  pose proof E2 as (Hc & _ & _). cbn. rewrite Hc. done.
Qed.
Lemma plan_from_ok repo_path target kind fallback started left_ cold first :
  gives (plan_from status_text cl repo_path target kind fallback started left_ cold first)
    (fun r => plan_ok repo_path target kind fallback r.1).
Proof.
  revert cold first. induction left_ as [|left_ IH]; intros cold first; cbn [plan_from]; [apply gives_fail|].
  eapply gives_bind; [apply gives_any|]. intros [output|commit t|commit e] _.
  - eapply gives_bind with (Q := fun _ => output_of target kind output).
    { apply gives_check. intros [] H. by eapply validate_output_ok. }
    intros _ Ho. eapply gives_bind with (Q := fun _ => check_refs_base repo_path target output = Ok tt); [by apply gives_check; intros []|].
    intros _ Hb. apply gives_ret. by apply exact_ok.
  - eapply gives_bind; [apply gives_any|]. intros _ _.
    eapply gives_bind with (Q := fun o => forall head, o = Some head -> fallback = FbHead /\ output_of target Head head).
    { case_bool_decide; [|by apply gives_ret]. intros w w' o E head ->. split; [done|]. by eapply ready_head_gives. }
    intros head Hhead. destruct head as [head|]; [apply gives_ret; exact (Hhead head eq_refl)|].
    case_bool_decide as Ef; [destruct t as [t|]|].
    + eapply gives_bind with (Q := fun p => plan_ok repo_path target kind fallback p); [apply gives_check; intros p Hp; by eapply top_up_ok|].
      intros p Hp. by apply gives_ret.
    + eapply gives_bind; [apply gives_any|]. intros _ _. apply IH.
    + eapply gives_bind; [apply gives_any|]. intros _ _. apply IH.
  - eapply gives_bind; [apply gives_any|]. intros _ _. apply gives_fail.
Qed.

(** C38: whatever the server answers, a clone's plan is an output of the pinned
    commit and of the kind asked for, with a clonepack, and a refs base that is a
    Full of another commit; the pinned commit's Head only for a files clone that
    may; or, only for a full clone that may, a Full of another commit, to be
    completed from the URL the client's own provider gives, never the server's. *)
Theorem plan_pinned repo_path pin kind fallback first w w' p cold :
  plan status_text cl repo_path pin kind fallback first w = (w', inl (p, cold)) ->
  plan_ok repo_path (pn_commit pin) kind fallback p.
Proof. unfold plan, cbind, now_. intros H. by apply plan_from_ok in H. Qed.

(** ** Polling *)

(** The requests sent and the time slept so far. *)
Context (requests : W -> nat) (slept : W -> N).
Record Counts : Prop := {
  ct_send s w : requests (w_send s w).1 = Datatypes.S (requests w) /\ slept (w_send s w).1 = slept w;
  ct_sleep d w : requests (w_sleep d w) = requests w /\ slept (w_sleep d w) = (slept w + d)%N;
}.
Context (Hcounts : Counts).

Definition costs {A} (m : Cli A) (n : nat) (d : N) : Prop := forall w,
  requests w <= requests (m w).1 <= requests w + n /\ (slept w <= slept (m w).1 <= slept w + d)%N.
Lemma costs_pure {A} (m : Cli A) n d : (forall w, (m w).1 = w) -> costs m n d.
Proof. intros H w. rewrite H. lia. Qed.
Lemma costs_bind {A B} (m : Cli A) (k : A -> Cli B) n n' d d' :
  costs m n d -> (forall x, costs (k x) n' d') -> costs (cbind m k) (n + n') (d + d').
Proof.
  intros Hm Hk w. unfold cbind. specialize (Hm w). destruct (m w) as [w1 [x|e]]; cbn [fst] in *; [|lia].
  specialize (Hk x w1). lia.
Qed.
Lemma costs_weaken {A} (m : Cli A) n n' d d' : n <= n' -> (d <= d')%N -> costs m n d -> costs m n' d'.
Proof. intros Hn Hd Hm w. specialize (Hm w). lia. Qed.
Lemma costs_check {A} (r : Result A) : costs (checked r) 0 0.
Proof. apply costs_pure. by destruct r. Qed.
Lemma costs_send sn : costs (send cl sn) 1 0.
Proof. intros w. unfold send. destruct (w_send sn w) as [w1 x] eqn:E. pose proof (ct_send Hcounts sn w) as [H1 H2]. rewrite E in H1, H2. cbn in *. lia. Qed.
Lemma costs_ask {A} sn failed (read : Json -> Result A) invalid : costs (ask status_text cl sn failed read invalid) 1 0.
Proof.
  unfold ask. eapply (costs_bind _ _ 1 0 0 0); [apply costs_send|]. intros r. destruct (is_success r); [|by apply costs_pure].
  eapply (costs_bind _ _ 0 0 0 0); [apply costs_check|]. intros x. by apply costs_pure.
Qed.
Lemma costs_commit_output repo_path commit kind : costs (commit_output status_text cl repo_path commit kind) 1 0.
Proof. eapply (costs_bind _ _ 1 0 0 0); [apply costs_ask|]. intros [o ?]. by apply costs_pure. Qed.
Lemma costs_ready_head repo_path target : costs (ready_head status_text cl repo_path target) 1 0.
Proof.
  eapply (costs_bind _ _ 1 0 0 0); [apply costs_commit_output|]. intros [o|c t|c e];
    (eapply (costs_bind _ _ 0 0 0 0); [apply costs_check|]; intros; by apply costs_pure).
Qed.
Definition cap : N := (poll_cap (cl_poll_ms cl) * MS)%N.
Lemma poll_delay_bounds waited : (N.min (100 * MS) cap <= poll_delay (cl_poll_ms cl) waited <= cap)%N.
Proof. unfold poll_delay. fold cap. lia. Qed.
Lemma costs_poll started : costs (let& now := now_ in sleep (poll_delay (cl_poll_ms cl) (now - started))) 0 cap.
Proof.
  intros w. unfold cbind, now_, sleep. cbn [fst]. pose proof (ct_sleep Hcounts (poll_delay (cl_poll_ms cl) (w_now w - started)) w) as [-> ->].
  pose proof (poll_delay_bounds (w_now w - started)). lia.
Qed.
(** What an answer may cost: a files clone asks for the Head too. *)
Definition per_poll (fallback : Fallback) : nat := if bool_decide (fallback = FbHead) then 2 else 1.
Lemma plan_from_costs repo_path target kind fallback started left_ cold first :
  costs (plan_from status_text cl repo_path target kind fallback started left_ cold first)
    (left_ * per_poll fallback) (N.of_nat (left_ - 1) * cap).
Proof.
  revert cold first. induction left_ as [|left_ IH]; intros cold first; cbn [plan_from]; [by apply costs_pure|].
  eapply (costs_weaken _ (1 + ((per_poll fallback - 1) + (left_ * per_poll fallback))) _ (0 + (0 + N.of_nat left_ * cap)));
    [unfold per_poll; case_bool_decide; lia|replace (Datatypes.S left_ - 1) with left_ by lia; lia|].
  apply costs_bind; [destruct first; [by apply costs_pure|apply costs_commit_output]|].
  intros [output|commit t|commit e].
  - eapply costs_weaken; [| |eapply (costs_bind _ _ 0 0 0 0); [apply costs_check|intros _]]; [lia|lia|].
    eapply (costs_bind _ _ 0 0 0 0); [apply costs_check|]. intros _. by apply costs_pure.
  - eapply (costs_bind _ _ 0 (per_poll fallback - 1 + left_ * per_poll fallback) 0 (0 + N.of_nat left_ * cap)); [apply costs_check|]. intros _.
    eapply (costs_bind _ _ (per_poll fallback - 1) (left_ * per_poll fallback) 0 (N.of_nat left_ * cap)); [unfold per_poll; case_bool_decide; [apply costs_ready_head|by apply costs_pure]|].
    intros [head|]; [apply costs_pure; done|].
    assert (Hrest : costs (let& _ := match left_ with
        | O => cret tt
        | Datatypes.S _ => let& now := now_ in sleep (poll_delay (cl_poll_ms cl) (now - started))
        end in plan_from status_text cl repo_path target kind fallback started left_ true None)
      (left_ * per_poll fallback) (N.of_nat left_ * cap)).
    { destruct left_ as [|left_]; [eapply (costs_bind _ _ 0 (0 * per_poll fallback) 0 (N.of_nat 0 * cap)); [by apply costs_pure|intros _; exact (IH true None)]|].
      eapply (costs_weaken _ (0 + Datatypes.S left_ * per_poll fallback) _ (cap + N.of_nat (Datatypes.S left_ - 1) * cap)); [lia|lia|].
      apply costs_bind; [apply costs_poll|]. intros _. apply IH. }
    case_bool_decide; [destruct t as [t|]; [|exact Hrest]|exact Hrest].
    eapply costs_weaken; [| |eapply (costs_bind _ _ 0 0 0 0); [apply costs_check|intros p; by apply costs_pure]]; lia.
  - eapply costs_weaken; [| |eapply (costs_bind _ _ 0 0 0 0); [apply costs_check|intros _; by apply costs_pure]]; lia.
Qed.

Lemma poll_from_costs repo_path started left_ summary :
  costs (poll_from status_text cl repo_path started left_ summary) left_ (N.of_nat left_ * cap).
Proof.
  revert summary. induction left_ as [|left_ IH]; intros summary; cbn [poll_from]; destruct (summary_pending summary);
    try (by apply costs_pure; intros; destruct (summary_failed summary) as [[]|]).
  eapply (costs_weaken _ (0 + (0 + (1 + left_))) _ (0 + (cap + (0 + N.of_nat left_ * cap)))); [lia|lia|].
  apply costs_bind; [by apply costs_pure|]. intros now. apply costs_bind.
  { intros w. cbn. pose proof (ct_sleep Hcounts (poll_delay (cl_poll_ms cl) (now - started)) w) as [-> ->].
    pose proof (poll_delay_bounds (now - started)). lia. }
  intros _. apply costs_bind; [|intros; apply IH].
  eapply (costs_bind _ _ 1 0 0 0); [apply costs_ask|]. intros [s ?].
  eapply (costs_bind _ _ 0 0 0 0); [apply costs_check|]. intros _. eapply (costs_bind _ _ 0 0 0 0); [apply costs_check|].
  intros _. by apply costs_pure.
Qed.

(** Only the end of the polls is a pending artifact. *)
Definition never_pending {A} (m : Cli A) : Prop := forall w w' c k, m w <> (w', inr (ArtifactPending c k)).
Lemma never_bind {A B} (m : Cli A) (k : A -> Cli B) : never_pending m -> (forall x, never_pending (k x)) -> never_pending (cbind m k).
Proof.
  intros Hm Hk w w' c e. unfold cbind. destruct (m w) as [w1 [x|e1]] eqn:E; [apply Hk|]. intros [= -> ->]. by eapply Hm.
Qed.
Lemma never_check {A} (r : Result A) : never_pending (checked r).
Proof. intros w w' c k. by destruct r. Qed.
Lemma check_same {A} (r : Result A) (w w' : W) y : checked r w = (w', y) -> w' = w.
Proof. unfold checked. destruct r; by intros [= <- _]. Qed.
Lemma never_ret {A} (x : A) : never_pending (cret x).
Proof. done. Qed.
Lemma never_ask {A} sn failed (read : Json -> Result A) invalid : never_pending (ask status_text cl sn failed read invalid).
Proof.
  apply never_bind; [|intros r; destruct (is_success r); [apply never_bind; [apply never_check|intros; apply never_ret]|done]].
  intros w w' c k. unfold send. destruct (w_send sn w) as [w1 []]; done.
Qed.
Lemma never_commit_output repo_path commit kind : never_pending (commit_output status_text cl repo_path commit kind).
Proof. apply never_bind; [apply never_ask|]. intros [o ?]. apply never_ret. Qed.
Lemma never_ready_head repo_path target : never_pending (ready_head status_text cl repo_path target).
Proof.
  apply never_bind; [apply never_commit_output|]. intros [o|c t|c e]; (apply never_bind; [apply never_check|intros; apply never_ret]).
Qed.
Definition answers_given (first : option CommitOutput) : nat := match first with Some _ => 1 | None => 0 end.
Definition floor : N := N.min (100 * MS) cap.
(** An error of a first step that gives up is of the rest. *)
Lemma give_up_bind {A B} (m : Cli A) (k : A -> Cli B) w w' c e : cbind m k w = (w', inr (ArtifactPending c e)) ->
  never_pending m -> exists w1 x, m w = (w1, inl x) /\ k x w1 = (w', inr (ArtifactPending c e)).
Proof.
  unfold cbind. destruct (m w) as [w1 [x|e1]] eqn:E; [eauto|]. intros [= -> ->] H. by destruct (H _ _ _ _ E).
Qed.
Lemma plan_gives_up repo_path target kind fallback started left_ cold first w w' c m :
  plan_from status_text cl repo_path target kind fallback started left_ cold first w = (w', inr (ArtifactPending c m)) ->
  c = target /\ m = ExactResultKind_fmt kind /\ requests w + left_ <= requests w' + answers_given first /\
  (slept w + N.of_nat (left_ - 1) * floor <= slept w')%N.
Proof.
  revert cold first w. induction left_ as [|left_ IH]; intros cold first w; cbn [plan_from].
  { intros [= -> <- <-]. split_and!; [done|done|lia|]. cbn. lia. }
  intros H. apply give_up_bind in H as (w1 & answer & Ha & H); [|destruct first; [apply never_ret|apply never_commit_output]].
  assert (H1 : requests w + 1 <= requests w1 + answers_given first /\ (slept w <= slept w1)%N).
  { destruct first as [a|]; [injection Ha as <- _; cbn; lia|]. cbn [answers_given].
    pose proof (costs_commit_output repo_path target kind w) as Hc. rewrite Ha in Hc. cbn [fst] in Hc.
    assert (requests w + 1 <= requests w1); [|lia]. unfold commit_output, ask, send, cbind in Ha.
    set (sn := Build_Sent _ _ _ _) in Ha. pose proof (ct_send Hcounts sn w) as [Hs _]. destruct (w_send sn w) as [w2 [r| |]]; [|done..].
    cbn [fst] in Hs. destruct (is_success r); [|done]. destruct (checked _ w2) as [w3 [x|]] eqn:Ec; [|done].
    apply check_same in Ec as ->. injection Ha as <- _. lia. }
  destruct answer as [output|commit t|commit e].
  - apply give_up_bind in H as (? & [] & _ & H); [|apply never_check]. apply give_up_bind in H as (? & [] & _ & H); [done|apply never_check].
  - apply give_up_bind in H as (w2 & [] & H2 & H); [|apply never_check].
    apply check_same in H2 as ->.
    apply give_up_bind in H as (w3 & head & H3 & H); [|case_match; [apply never_ready_head|apply never_ret]].
    assert (Hw3 : requests w1 <= requests w3 /\ (slept w1 <= slept w3)%N).
    { clear H. destruct (bool_decide (fallback = FbHead)); [|injection H3 as <- _; lia].
      pose proof (costs_ready_head repo_path target w1) as Hc. rewrite H3 in Hc. cbn in Hc. lia. }
    destruct head as [head|]; [done|]. destruct (if bool_decide (fallback = FbTopUp) then t else None) as [t'|].
    { apply give_up_bind in H as (? & ? & _ & H); [done|apply never_check]. }
    destruct left_ as [|left_].
    + apply give_up_bind in H as (w4 & [] & H4 & H); [|apply never_ret]. injection H4 as <-. apply IH in H as (-> & -> & H4 & H5). cbn in H4. split_and!; [done|done|lia|lia].
    + apply give_up_bind in H as (w4 & [] & H4 & H); [|by intros ? ? ? ?]. unfold cbind, now_, sleep in H4. injection H4 as <-.
      apply IH in H as (-> & -> & H5 & H6). set (d := poll_delay _ _) in *. pose proof (ct_sleep Hcounts d w3) as [E1 E2].
      rewrite E1 in H5. rewrite E2 in H6. cbn [answers_given] in H5.
      assert (Hd : (floor <= d)%N) by (unfold d, floor; pose proof (poll_delay_bounds (w_now w3 - started)); lia).
      split_and!; [done|done|lia|]. replace (Datatypes.S (Datatypes.S left_) - 1) with (Datatypes.S left_) by lia.
      replace (Datatypes.S left_ - 1) with left_ in H6 by lia. lia.
  - apply give_up_bind in H as (? & [] & _ & H); [done|apply never_check].
Qed.

(** C39: a plan is bounded: at most fifty answers, twice that for a files clone, and
    fewer than fifty waits of at most the cap; it gives up, of the pinned commit, only
    after fifty answers with waits of at least 100 ms (or the cap); and a plan that may
    top up (a full clone without [--wait]) whose first answer names a base asks
    nothing more and does not wait. *)
Theorem plan_bounded repo_path pin kind fallback first w :
  let r := plan status_text cl repo_path pin kind fallback first w in
  requests r.1 <= requests w + MAX_POLLS * per_poll fallback /\ (slept r.1 <= slept w + N.of_nat (MAX_POLLS - 1) * cap)%N /\
  (forall c m, r.2 = inr (ArtifactPending c m) ->
     c = pn_commit pin /\ m = ExactResultKind_fmt kind /\ requests w + MAX_POLLS <= requests r.1 + answers_given first /\
     (slept w + N.of_nat (MAX_POLLS - 1) * floor <= slept r.1)%N) /\
  (forall c t, fallback = FbTopUp -> first = Some (CPending c (Some t)) -> r.1 = w).
Proof.
  cbv zeta. unfold plan, cbind, now_. cbn [fst snd].
  pose proof (plan_from_costs repo_path (pn_commit pin) kind fallback (w_now w) MAX_POLLS false first w) as [H1 H2].
  split; [lia|]. split; [lia|]. split.
  - intros c m H. destruct (plan_from _ _ _ _ _ _ _ _ _ _ w) as [w' r] eqn:E. cbn [fst snd] in *. subst r. by apply plan_gives_up in E.
  - intros c t -> ->. unfold MAX_POLLS. cbn [plan_from]. unfold cbind at 1, cret at 1. unfold cbind at 1.
    destruct (checked _ w) as [w1 [x|]] eqn:Ec; apply check_same in Ec as ->; [|done].
    rewrite bool_decide_eq_false_2 by done. rewrite bool_decide_eq_true_2 by done. unfold cbind, cret, checked. by destruct (check_top_up _ _ _ _ _).
Qed.
End thms.

(** ** A server of given answers *)
Module ClientExample.
Record Script := { sc_replies : list Exchange; sc_requests : nat; sc_slept : N }.
#[export] Instance script : World Script := {|
  w_send _ w := ({| sc_replies := tail (sc_replies w); sc_requests := S (sc_requests w); sc_slept := sc_slept w |},
                 default (Unreachable "closed") (head (sc_replies w)));
  w_now w := sc_slept w;
  w_sleep d w := {| sc_replies := sc_replies w; sc_requests := sc_requests w; sc_slept := sc_slept w + d |};
|}.
Lemma script_counts : Counts sc_requests sc_slept.
Proof. by constructor. Qed.

Definition one : string := "0123456789abcdef0123456789abcdef01234567".
Definition two : string := "1123456789abcdef0123456789abcdef01234567".
Definition output (commit : string) (kind : ExactResultKind) : RefResponse :=
  mkRefResponse "acme" "demo" "github" "github.com" "https://github.com/acme/demo.git" commit None "m" None "c" None "" None
    None None None None None None None None None None kind ∅.
Definition prov : ProviderInstance :=
  {| pi_id := "github"; pi_kind := GitHub; pi_host := "github.com"; pi_auth_template := None; pi_auth_header_name := None |}.
Definition cl : Client :=
  {| cl_server := "https://h"; cl_is_cloud := false; cl_provider := "github"; cl_provider_instance := Some prov;
     cl_origin_base := None; cl_poll_ms := None |}.
Definition the_pin : Pin :=
  {| pn_commit := one; pn_checkout := "main"; pn_tracks := true; pn_default_branch := true; pn_tag := None;
     pn_single_branch := false; pn_clone_id := None |}.
Definition pending : CommitOutput := CPending one (Some {| tu_base_commit := two; tu_base := output two Full |}).
Definition start : Script := {| sc_replies := []; sc_requests := 0; sc_slept := 0 |}.

Lemma plan_pinned_witness :
  exists w p, plan (fun _ => "") cl "acme/demo" the_pin Full FbTopUp (Some pending) start = (w, inl (p, true)) /\
    plan_ok cl "acme/demo" one Full FbTopUp p /\ p = PlanTopUp (output two Full) "https://github.com/acme/demo.git".
Proof.
  destruct (plan (fun _ => "") cl "acme/demo" the_pin Full FbTopUp (Some pending) start) as [w [[p cold]|e]] eqn:E.
  - pose proof (plan_pinned (fun _ => "") cl "acme/demo" the_pin Full FbTopUp (Some pending) start w p cold E) as H.
    exists w, p. assert (Hv : (plan (fun _ => "") cl "acme/demo" the_pin Full FbTopUp (Some pending) start).2 = inl (p, cold)) by (by rewrite E).
    vm_compute in Hv. injection Hv as <- <-. split; [done|]. split; [exact H|]. done.
  - exfalso. assert (Hv : (plan (fun _ => "") cl "acme/demo" the_pin Full FbTopUp (Some pending) start).2 = inr e) by (by rewrite E).
    vm_compute in Hv. discriminate Hv.
Defined.
(** A depth-1 clone whose server is gone asks once and gives up at once. *)
Lemma plan_bounded_witness :
  let r := plan (fun _ => "") cl "acme/demo" the_pin Head FbNone None start in
  sc_requests r.1 <= 50 /\ (sc_slept r.1 <= 98 * 10 ^ 9)%N /\ exists m, r.2 = inr (HttpFailure None m).
Proof.
  destruct (plan_bounded (fun _ => "") cl sc_requests sc_slept script_counts "acme/demo" the_pin Head FbNone None start) as (H1 & H2 & _).
  cbv zeta. split; [exact H1|]. split; [exact H2|]. eexists. vm_compute. reflexivity.
Defined.

(** Fifty waits at the default cap are about 73 seconds. *)
Fixpoint waited (n : nat) : N := match n with O => 0%N | S n => let w := waited n in (w + poll_delay None w)%N end.
Lemma fifty_polls : waited MAX_POLLS = (73094947010)%N.
Proof. by vm_compute. Qed.
End ClientExample.
