(* ===== verification/ClientServer.v ===== *)
(** A client and the server it talks to ([Client.v] over [Routes.v]): what the client
    sends is routed to the repository it names, and every answer passes the client's
    checks, so a clone's plan installs what the control store held during the
    request and fails only as the build or the server did. *)

From S2P Require Import Prelude Bytes Provider Validation Outputs Control ControlInv ControlThms Refs LsRemote Manifest Wire Api ApiThms ApiBuild Routes Client ClientThms.

Section system.
Context {S : Serde} {SOk : SerdeOk S} (cfg : StoreConfig) (Hmax : (1 <= max_attempts cfg)%Z) (Hbounds : SerdeBounds).
Context {En : Env S} {ancestor : RepoId -> string -> string -> Prop} {EOk : EnvOk cfg En ancestor}.
Context (storage_get : string -> Result bytes) (decode_manifest : bytes -> option ClonepackManifest)
  (hash_to_hex : string -> string) (regions : list string)
  (registry : gmap string ProviderInstance) (signed_url_ttl : N).
(** The text of an answer, and of a status. *)
Context (json_text : Json -> string) (status_text : N -> string).

(** ** The server as a client's world *)
Record Net := { nt_server : Server S; nt_clock : N }.
Definition receive (s : Sent) : Request :=
  {| rq_method := sn_method s; rq_path := sn_path s; rq_query := sn_query s;
     rq_body := match sn_body s with Some j => JsonBody j | None => NoBody end |}.
Definition reply (a : option Answered) : Exchange :=
  match a with
  | None => Unsent "connection closed"
  | Some a => Replied {| rp_status := ans_status a; rp_text := match ans_body a with Some j => json_text j | None => "" end;
                         rp_json := ans_body a; rp_clone_id := None |}
  end.
#[export] Instance net : World Net := {|
  w_send s w :=
    let '(sv, a) := handle storage_get decode_manifest hash_to_hex regions registry signed_url_ttl (receive s) (nt_server w) in
    ({| nt_server := sv; nt_clock := nt_clock w |}, reply a);
  w_now w := nt_clock w;
  w_sleep d w := {| nt_server := nt_server w; nt_clock := nt_clock w + d |};
|}.

#[local] Existing Instance later_preorder.
Local Abbreviation later := (later cfg).
Local Abbreviation seen := (seen cfg).
Local Abbreviation aspec := (aspec cfg (ancestor := ancestor)).
Local Abbreviation answered := (answered cfg (ancestor := ancestor)).
Local Abbreviation ready_answer := (ready_answer cfg (ancestor := ancestor)).
Local Abbreviation store w := (sv_store (nt_server w)).
Local Notation "'let&' x := e 'in' k" := (cbind e (fun x => k)) (at level 10, x pattern, e at level 200, k at level 200).

(** ** A client's steps *)
(** Run when the store is [st] or a later one, [m] gives a value of [Q] or an error of
    [E], in the store it leaves. *)
Definition clspec {A} (st : Store) (m : Cli A) (Q : Store -> A -> Prop) (E : Store -> ClientError -> Prop) : Prop :=
  forall w, server_ok cfg (nt_server w) (ancestor := ancestor) -> later st (store w) ->
  let '(w', r) := m w in
  server_ok cfg (nt_server w') (ancestor := ancestor) /\ later (store w) (store w') /\
  match r with inl x => Q (store w') x | inr e => E (store w') e end.
Definition monotone (E : Store -> ClientError -> Prop) : Prop := forall st st' e, later st st' -> E st e -> E st' e.
Lemma clspec_ret {A} st (x : A) (Q : Store -> A -> Prop) E : (forall st', later st st' -> Q st' x) -> clspec st (cret x) Q E.
Proof. intros H w Hw Hst. cbn. split; [done|]. split; [reflexivity|]. by apply H. Qed.
Lemma clspec_fail {A} st e (Q : Store -> A -> Prop) (E : Store -> ClientError -> Prop) : (forall st', later st st' -> E st' e) -> clspec st (cfail e) Q E.
Proof. intros H w Hw Hst. cbn. split; [done|]. split; [reflexivity|]. by apply H. Qed.
Lemma clspec_bind {A B} st (m : Cli A) (k : A -> Cli B) Q R E :
  clspec st m Q E -> (forall st' x, later st st' -> Q st' x -> clspec st' (k x) R E) -> clspec st (cbind m k) R E.
Proof.
  intros Hm Hk w Hw Hst. unfold cbind. specialize (Hm w Hw Hst). destruct (m w) as [w1 [x|e]]; [|exact Hm].
  destruct Hm as (H1 & H2 & H3). assert (Hl : later st (store w1)) by by transitivity (store w).
  specialize (Hk _ x Hl H3 w1 H1 ltac:(reflexivity)). destruct (k x w1) as [w2 r]. destruct Hk as (H4 & H5 & H6).
  split; [exact H4|]. split; [by transitivity (store w1)|exact H6].
Qed.
Lemma clspec_weaken {A} st (m : Cli A) (Q R : Store -> A -> Prop) E :
  clspec st m Q E -> (forall st' x, later st st' -> Q st' x -> R st' x) -> clspec st m R E.
Proof.
  intros Hm H w Hw Hst. specialize (Hm w Hw Hst). destruct (m w) as [w1 [x|e]]; [|exact Hm].
  destruct Hm as (H1 & H2 & H3). split; [exact H1|]. split; [exact H2|]. apply H; [by transitivity (store w)|exact H3].
Qed.
Lemma clspec_check {A} st (r : Result A) x (Q : Store -> A -> Prop) E : r = Ok x -> (forall st', later st st' -> Q st' x) -> clspec st (checked r) Q E.
Proof. intros -> H. by apply clspec_ret. Qed.

(** ** The client of a repository the server serves *)
Context (cl : Client) (prov : ProviderInstance) (repo_path : string).
Definition repo : RepoId := {| provider := pi_id prov; path := repo_path |}.
(** The server and the client know the provider, and the path is one of its
    repositories. *)
Record Configured : Prop := {
  cf_registry : registry !! pi_id prov = Some prov;
  cf_id : contains_char "/" (pi_id prov) = false;
  cf_path : validate_repo_path prov repo = Ok tt;
  cf_repo : repo_ok repo;
  cf_client : cl_provider cl = pi_id prov;
  cf_instance : cl_provider_instance cl = Some prov;
}.
Context (Hcf : Configured).
Local Abbreviation handle := (handle storage_get decode_manifest hash_to_hex regions registry signed_url_ttl).

(** An error status is the server's refusal; any other answer is read. *)
Definition refused (e : ClientError) : Prop := exists status m, e = HttpFailure (Some status) m.
Lemma clspec_ask {A} st (m : Api Json) sn failed (read : Json -> Result A) invalid (Q : Store -> A -> Prop) (E : Store -> ClientError -> Prop) :
  (forall sv, handle (receive sn) sv = answer_with ok_json m sv) ->
  aspec st m (fun st' j => exists x, read j = Ok x /\ Q st' x) -> (forall st' e, refused e -> E st' e) ->
  clspec st (ask status_text cl sn failed read invalid) (fun st' p => Q st' p.1) E.
Proof.
  intros Hroute Hm HE w Hw Hst. specialize (Hm (nt_server w) Hw Hst). unfold ask, send, cbind. cbn [w_send net]. rewrite Hroute.
  unfold answer_with. destruct (m (nt_server w)) as [sv [j|[e|]]]; [| |done]; cbn [reply].
  - destruct Hm as (H1 & H2 & x & Hx & HQ). cbn. rewrite Hx. cbn. done.
  - destruct Hm as (H1 & H2 & Hr%N.leb_le). cbn [json_error ans_status ans_body]. unfold is_success. cbn [rp_status].
    assert (Hs : (ae_status e <? 300)%N = false) by (apply N.ltb_ge; apply N.leb_le in Hr; lia). rewrite Hs, andb_false_r. cbn.
    split; [done|]. split; [done|]. apply HE. unfold server_error. by eexists _, _.
Qed.

(** ** Routing *)
Lemma strip_suffix_other s suf suf' pre : String.length suf = String.length suf' -> suf <> suf' ->
  strip_suffix suf (s +:+ pre +:+ suf') = None.
Proof.
  intros Hl Hne. destruct (strip_suffix suf _) as [t|] eqn:E; [|done]. apply strip_suffix_Some in E.
  rewrite <- string_app_assoc in E. apply string_app_same_length in E as [_ E]; [by destruct Hne|done].
Qed.
Lemma repo_path_ok suffix : repo_path_of cl repo_path suffix = (pi_id prov +:+ "/" +:+ repo_path) +:+ suffix.
Proof. unfold repo_path_of. rewrite (cf_client Hcf). by rewrite !string_app_assoc. Qed.
Lemma with_repo_ok k : with_repo (S := S) registry (pi_id prov +:+ "/" +:+ repo_path) k = k repo prov.
Proof. unfold with_repo. by rewrite repo_from_path_ok by apply Hcf. Qed.
Lemma route_builds body sv :
  handle (receive {| sn_method := MPost; sn_path := repo_path_of cl repo_path "/builds"; sn_query := []; sn_body := Some body |}) sv =
  match as_BuildRequest body with
  | Ok request => answer_with ok_json (Api.post_build repo prov request) sv
  | Err e => answer (json_error (invalid_request ("invalid build request: " +:+ e))) sv
  end.
Proof.
  unfold handle, receive. cbn [rq_method rq_path rq_body sn_method sn_path sn_body]. unfold dispatch_repos_post. rewrite repo_path_ok.
  change "/builds" with ("/bu" +:+ "ilds") at 1. rewrite strip_suffix_other by done. rewrite strip_suffix_app, with_repo_ok.
  by destruct (as_BuildRequest body).
Qed.
Lemma route_commit commit kind sv : validate_object_id commit = Ok tt ->
  handle (receive {| sn_method := MGet; sn_path := repo_path_of cl repo_path ("/commits/" +:+ commit);
    sn_query := [("kind", ExactResultKind_fmt kind)]; sn_body := None |}) sv
  = answer_with ok_json (get_commit repo prov commit (Some kind)) sv.
Proof.
  intros Hc. unfold handle, receive. cbn [rq_method rq_path rq_query sn_method sn_path sn_query]. unfold dispatch_repos_get.
  rewrite repo_path_ok, commit_path, with_repo_ok; [by destruct kind|].
  unfold contains_char. rewrite str_any_false. unfold validate_object_id in Hc. inv_ok Hc. breflect.
  match goal with Ha : str_all is_lower_hex _ = true |- _ => rewrite str_all_true in Ha; intros c Hin; specialize (Ha c Hin) end.
  apply not_true_iff_false. intros <-%Ascii.eqb_eq. done.
Qed.

(** ** What a clone installs *)
Definition installs (lo hi : Store) (target : string) (kind : ExactResultKind) (p : Plan) : Prop :=
  match p with
  | PlanFilesFromHead o => exists row, seen lo hi repo target row /\ ready_answer lo hi repo prov row Head o
  | PlanTopUp base url => exists row error b, seen lo hi repo target row /\ kind_state row Full = Pending error /\
      top_up_of cfg lo hi repo row b /\ br_commit b <> target /\ ready_answer lo hi repo prov b Full base /\
      url = upstream_url_with prov repo (cl_origin_base cl)
  | _ => exists row, seen lo hi repo target row /\ ready_answer lo hi repo prov row kind (Plan_output p)
  end.
Lemma installs_mono lo hi hi' target kind p : later hi hi' -> installs lo hi target kind p -> installs lo hi' target kind p.
Proof.
  intros Hl. destruct p as [o|o|o|o|o u]; cbn.
  1-4: intros (row & H1 & H2); exists row; split; [by apply (seen_mono cfg lo lo hi hi')|by apply (ready_answer_mono cfg lo lo hi hi')].
  intros (row & e & b & H1 & H2 & H3 & H4 & H5 & H6). exists row, e, b.
  split_and!; [by apply (seen_mono cfg lo lo hi hi')|done|by apply (top_up_of_mono cfg lo lo hi hi')|done
    |by apply (ready_answer_mono cfg lo lo hi hi')|done].
Qed.
(** Why there may be no clone: the server refused, the build failed, or it was still
    pending when the polls ran out. *)
Inductive clone_error (lo : Store) (kind : ExactResultKind) (hi : Store) : ClientError -> Prop :=
  | ce_refused e : refused e -> clone_error lo kind hi e
  | ce_failed commit row error : seen lo hi repo commit row -> kind_state row kind = Failed error ->
      clone_error lo kind hi (failed_output_error commit kind error)
  | ce_pending commit row error : seen lo hi repo commit row -> kind_state row kind = Pending error ->
      clone_error lo kind hi (ArtifactPending commit (ExactResultKind_fmt kind)).

Lemma commit_output_spec lo st commit kind kind' : later lo st -> validate_object_id commit = Ok tt ->
  clspec st (commit_output status_text cl repo_path commit kind')
    (fun st' c => answered lo st' repo prov commit kind' c) (clone_error lo kind).
Proof.
  intros Hlo Hc. unfold commit_output.
  eapply clspec_bind with (Q := fun st' p => answered st st' repo prov commit kind' p.1).
  - eapply (clspec_ask st (get_commit repo prov commit (Some kind')) _ _ _ _ (fun st' x => answered st st' repo prov commit kind' x)).
    + intros sv. by apply route_commit.
    + apply get_commit_spec; try done. apply (cf_repo Hcf).
    + intros st' e He. by apply ce_refused.
  - intros st' [c ?] Hl H. apply clspec_ret. intros st2 Hl2. cbn [fst] in H. by apply (answered_mono cfg st lo st' st2).
Qed.

Lemma output_checked lo hi target kind row o : seen lo hi repo target row -> ready_answer lo hi repo prov row kind o ->
  validate_output o target kind repo_path = Ok tt /\ check_refs_base repo_path target o = Ok tt.
Proof.
  intros Hs Hr. pose proof (ready_answer_facts cfg Hmax Hbounds lo hi repo prov target row kind o Hs Hr) as (_ & Hc & Hb).
  assert (Hout : forall commit k x, checked_answer commit k x -> validate_output x commit k repo_path = Ok tt).
  { intros commit k x (H1 & H2 & H3 & _). apply validate_output_ok. split; [done|]. split; [done|]. intros E. rewrite E in H3. by vm_compute in H3. }
  split; [by apply Hout|]. unfold check_refs_base. destruct (rf_refs_base o) as [base|]; [|done].
  destruct (Hb base eq_refl) as (_ & Hne & Hid & _ & Hbase). rewrite Hid. cbn [with_context rbind].
  rewrite Hout by exact Hbase. cbn [with_context rbind]. by rewrite bool_decide_eq_false_2.
Qed.
Lemma exact_installs lo hi target kind row o : seen lo hi repo target row -> ready_answer lo hi repo prov row kind o ->
  installs lo hi target kind (Plan_exact o).
Proof. intros Hs Hr. unfold Plan_exact. destruct (rf_kind o); cbn; eauto. Qed.
Lemma top_up_url_ok : top_up_url cl repo_path = Ok (upstream_url_with prov repo (cl_origin_base cl)).
Proof.
  unfold top_up_url. rewrite (cf_instance Hcf). unfold option_filter. rewrite (cf_client Hcf), bool_decide_eq_true_2 by done.
  cbn [context rbind]. change {| provider := pi_id prov; path := repo_path |} with repo. by rewrite (cf_path Hcf).
Qed.
Lemma ready_head_spec lo st target kind : later lo st -> validate_object_id target = Ok tt ->
  clspec st (ready_head status_text cl repo_path target)
    (fun st' o => forall head, o = Some head -> exists row, seen lo st' repo target row /\ ready_answer lo st' repo prov row Head head) (clone_error lo kind).
Proof.
  intros Hlo Hid. unfold ready_head. eapply clspec_bind; [by apply commit_output_spec|]. intros st1 c Hl1 Ha.
  destruct Ha as [row o Hs Hd Hr|row e Hs He|row e t Hs He Ht].
  - eapply clspec_bind with (Q := fun _ _ => True); [eapply clspec_check; [by eapply output_checked|done]|].
    intros st2 _ Hl2 _. apply clspec_ret. intros st3 Hl3 head [= <-]. exists row.
    assert (Hl : later st1 st3) by by transitivity st2.
    split; [by apply (seen_mono cfg lo lo st1 st3)|by apply (ready_answer_mono cfg lo lo st1 st3)].
  - eapply clspec_bind with (Q := fun _ _ => True); [by eapply clspec_check; [rewrite bool_decide_eq_true_2|]|].
    intros st2 _ Hl2 _. by apply clspec_ret.
  - eapply clspec_bind with (Q := fun _ _ => True); [by eapply clspec_check; [rewrite bool_decide_eq_true_2|]|].
    intros st2 _ Hl2 _. by apply clspec_ret.
Qed.

Lemma clspec_time {A} st (m : Cli A) (Q : Store -> A -> Prop) E :
  (forall w, exists x, (m w).2 = inl x /\ nt_server (m w).1 = nt_server w /\ forall st', Q st' x) -> clspec st m Q E.
Proof.
  intros H w Hw Hst. destruct (H w) as (x & Hx & Hsv & HQ). destruct (m w) as [w1 r]. cbn [fst snd] in *. subst r.
  rewrite Hsv. split; [done|]. split; [reflexivity|apply HQ].
Qed.
Definition seen_pending (lo hi : Store) (target : string) (kind : ExactResultKind) : Prop :=
  exists row error, seen lo hi repo target row /\ kind_state row kind = Pending error.
Lemma pending_installs lo hi target kind fallback row error t p : seen lo hi repo target row -> kind_state row kind = Pending error ->
  (kind = Full /\ exists base, top_up_of cfg lo hi repo row base /\ tu_base_commit t = br_commit base /\ br_commit base <> target /\
     ready_answer lo hi repo prov base Full (tu_base t)) ->
  fallback = FbTopUp -> p = PlanTopUp (tu_base t) (upstream_url_with prov repo (cl_origin_base cl)) ->
  check_top_up cl repo_path target kind t = Ok p /\ installs lo hi target kind p.
Proof.
  intros Hs He (-> & base & Htop & Htc & Hne & Hr) Hf ->. pose proof Htop as (Hbs & Hbd & _).
  pose proof (seen_ok cfg Hmax Hbounds _ _ _ _ _ Hbs) as (_ & Hid & _).
  destruct (output_checked lo hi _ Full base (tu_base t) Hbs Hr) as [Hv _]. split.
  - unfold check_top_up. rewrite Htc, Hid. cbn [with_context rbind]. rewrite Hv. cbn [with_context rbind].
    rewrite bool_decide_eq_false_2 by done. cbn [negb]. by rewrite top_up_url_ok.
  - cbn. exists row, error, base. done.
Qed.
Lemma seen_pending_mono lo st st' target kind : later st st' -> seen_pending lo st target kind -> seen_pending lo st' target kind.
Proof. intros Hl (row & e & Hs & He). exists row, e. split; [by apply (seen_mono cfg lo lo st st')|done]. Qed.
Lemma plan_from_spec lo st target kind fallback started left_ cold first :
  later lo st -> validate_object_id target = Ok tt ->
  (forall c, first = Some c -> answered lo st repo prov target kind c) ->
  (left_ = 0 -> seen_pending lo st target kind) ->
  clspec st (plan_from status_text cl repo_path target kind fallback started left_ cold first)
    (fun st' r => installs lo st' target kind r.1) (clone_error lo kind).
Proof.
  revert st cold first. induction left_ as [|left_ IH]; intros st cold first Hlo Hid Hfirst Hpend; cbn [plan_from].
  { apply clspec_fail. intros st' Hl. destruct (Hpend eq_refl) as (row & e & Hs & He).
    apply (ce_pending _ _ _ target row e); [by apply (seen_mono cfg lo lo st st')|done]. }
  eapply clspec_bind with (Q := fun st' c => answered lo st' repo prov target kind c).
  { destruct first as [c|]; [|by apply commit_output_spec]. apply clspec_ret. intros st' Hl.
    by apply (answered_mono cfg lo lo st st'), Hfirst. }
  intros st1 c Hl1 Ha. assert (Hlo1 : later lo st1) by by transitivity st.
  destruct Ha as [row o Hs Hd Hr|row e Hs He|row e t Hs He Ht].
  - destruct (output_checked lo st1 target kind row o Hs Hr) as [Hv Hb].
    eapply clspec_bind with (Q := fun _ _ => True); [by eapply clspec_check|]. intros st2 _ Hl2 _.
    eapply clspec_bind with (Q := fun _ _ => True); [by eapply clspec_check|]. intros st3 _ Hl3 _.
    apply clspec_ret. intros st4 Hl4. assert (Hl : later st1 st4) by (transitivity st2; [done|]; by transitivity st3).
    apply (exact_installs _ _ _ _ row); [by apply (seen_mono cfg lo lo st1 st4)|by apply (ready_answer_mono cfg lo lo st1 st4)].
  - eapply clspec_bind with (Q := fun _ _ => True); [by eapply clspec_check; [rewrite bool_decide_eq_true_2|]|].
    intros st2 _ Hl2 _. apply clspec_fail. intros st3 Hl3. apply (ce_failed _ _ _ target row e); [|done].
    apply (seen_mono cfg lo lo st1 st3); [reflexivity|by transitivity st2|done].
  - eapply clspec_bind with (Q := fun _ _ => True); [by eapply clspec_check; [rewrite bool_decide_eq_true_2|]|].
    intros st2 _ Hl2 _.
    eapply clspec_bind with (Q := fun st' o => forall head, o = Some head -> exists row, seen lo st' repo target row /\ ready_answer lo st' repo prov row Head head).
    { case_bool_decide; [|by apply clspec_ret]. apply ready_head_spec; [by transitivity st1|done]. }
    intros st3 head Hl3 Hhead. assert (Hl13 : later st1 st3) by by transitivity st2.
    assert (Hlo3 : later lo st3) by by transitivity st1.
    destruct head as [head|].
    { apply clspec_ret. intros st4 Hl4. destruct (Hhead head eq_refl) as (row' & Hs' & Hr'). exists row'.
      split; [by apply (seen_mono cfg lo lo st3 st4)|by apply (ready_answer_mono cfg lo lo st3 st4)]. }
    assert (Hrest : clspec st3 (let& _ := match left_ with
        | O => cret tt
        | Datatypes.S _ => let& now := now_ in sleep (poll_delay (cl_poll_ms cl) (now - started))
        end in plan_from status_text cl repo_path target kind fallback started left_ true None)
      (fun st' r => installs lo st' target kind r.1) (clone_error lo kind)).
    { eapply clspec_bind with (Q := fun _ _ => True); [apply clspec_time; intros w; destruct left_; by exists tt|].
      intros st4 _ Hl4 _. apply IH; [by transitivity st3|done|done|]. intros _. exists row, e.
      split; [|done]. apply (seen_mono cfg lo lo st1 st4); [reflexivity|by transitivity st3|done]. }
    case_bool_decide as Ef; [destruct t as [t|]; [|exact Hrest]|exact Hrest].
    destruct (pending_installs lo st1 target kind fallback row e t _ Hs He (Ht t eq_refl) Ef eq_refl) as [Hck Hin].
    eapply clspec_bind with (Q := fun st' p => installs lo st' target kind p); [eapply clspec_check; [exact Hck|]|].
    + intros st' Hl'. apply (installs_mono _ st1 st'); [by transitivity st3|done].
    + intros st4 p Hl4 Hp. apply clspec_ret. intros st5 Hl5. by apply (installs_mono _ st4 st5).
Qed.

(** ** Resolving *)
(** The branch or the tag a full ref is has a name git accepts: [refs/heads/-x] is a
    ref whose branch the client refuses to check out. *)
Definition short_name_ok (selector : string) : Prop :=
  forall name, strip_prefix "refs/heads/" selector = Some name \/ strip_prefix "refs/tags/" selector = Some name ->
  validate_checkout_name name = Ok tt.
Lemma summary_checked selector row checkout_name tag : short_name_ok selector ->
  validate_object_id (br_commit row) = Ok tt -> names_checkout selector checkout_name tag ->
  validate_summary (summary_of row checkout_name tag) repo_path = Ok tt /\
  forall name, checkout_name = Some name -> validate_checkout_name name = Ok tt.
Proof.
  intros Hr Hid Hn. unfold validate_summary. cbn [summary_of bs_commit bs_checkout_name bs_tag]. rewrite Hid. cbn [with_context rbind].
  unfold names_checkout in Hn. destruct (Selector_parse selector) as [[|commit|name]|] eqn:Ep; [| | |done].
  - destruct Hn as [-> Hc]. split; [|exact Hc]. destruct checkout_name as [b|]; [|done]. by rewrite (Hc b eq_refl).
  - by destruct Hn as [-> ->].
  - pose proof (selector_parse_classifies _ _ Ep) as (_ & -> & Hv & _). destruct Hn as (_ & Hn).
    destruct (starts_with "refs/" selector); [|destruct Hn as [[-> ->]|[-> ->]]].
    + destruct Hn as [-> ->]. unfold short_name_ok in Hr. destruct (strip_prefix "refs/heads/" selector) as [b|].
      * rewrite (Hr b) by by left. cbn [with_context rbind]. split; [|intros ? [= <-]; apply Hr; by left].
        destruct (strip_prefix "refs/tags/" selector) as [t|]; [|done]. change (validate_tag_name t) with (validate_checkout_name t).
        by rewrite Hr by by right.
      * split; [|done]. cbn [rbind]. destruct (strip_prefix "refs/tags/" selector) as [t|]; [|done].
        change (validate_tag_name t) with (validate_checkout_name t). by rewrite Hr by by right.
    + rewrite Hv. split; [done|]. by intros ? [= <-].
    + split; [|done]. cbn [rbind]. change (validate_tag_name selector) with (validate_checkout_name selector). by rewrite Hv.
Qed.
(** What a name pins is the selector's commit, with the branch and the tag of that ref,
    as upstream answered; so, whatever refs upstream has, as those refs say. *)
Definition pins (selector commit : string) (checkout_name tag : option string) : Prop :=
  selected repo prov selector commit checkout_name tag /\
  forall refs, upstream_has repo prov refs -> selected_of refs selector commit checkout_name tag.
Definition resolved (lo hi : Store) (selector : string) (kind : ExactResultKind) (p : BuildSummary * option string * option CommitOutput) : Prop :=
  let '(summary, _, first) := p in
  validate_object_id (bs_commit summary) = Ok tt /\
  (forall name, bs_checkout_name summary = Some name -> validate_checkout_name name = Ok tt) /\
  pins selector (bs_commit summary) (bs_checkout_name summary) (bs_tag summary) /\
  exists c, first = Some c /\ answered lo hi repo prov (bs_commit summary) kind c.
Lemma resolved_mono lo hi hi' selector kind p : later hi hi' -> resolved lo hi selector kind p -> resolved lo hi' selector kind p.
Proof.
  intros Hl. destruct p as [[summary c] first]. intros (H1 & H2 & H3 & a & H4 & H5).
  split; [done|]. split; [done|]. split; [done|]. exists a. split; [done|]. by apply (answered_mono cfg lo lo hi hi').
Qed.
Lemma request_build_spec lo st selector sel kind : later lo st -> Selector_parse selector = Ok sel -> short_name_ok selector ->
  clspec st (request_build status_text cl repo_path selector false (Some kind))
    (fun st' p => resolved lo st' selector kind p) (clone_error lo kind).
Proof.
  intros Hlo Hp Hr. unfold request_build. eapply clspec_bind with (Q := fun _ _ => True); [by eapply clspec_check|]. intros st0 _ Hl0 _.
  set (request := {| bq_selector := selector; bq_retry := false; bq_kind := Some kind |}).
  set (good := fun st' (a : BuildSummary * option CommitOutput) => validate_summary a.1 repo_path = Ok tt /\ resolved lo st' selector kind (a.1, None, a.2)).
  eapply clspec_bind with (Q := fun st' p => good st' p.1).
  { eapply (clspec_ask st0 (Api.post_build repo prov request) _ _ _ _ good).
    - intros sv. rewrite route_builds. by destruct kind.
    - eapply aspec_weaken; [apply (post_build_spec cfg Hmax Hbounds); apply (cf_repo Hcf)|].
      intros st1 j Hl1 (row & checkout & tag & o & Hread & Hseen & Hid & Hsel & Hn & _ & c & -> & Ha).
      eexists. split; [exact Hread|]. destruct (summary_checked selector row checkout tag Hr Hid Hn) as [Hv Hc].
      split; [exact Hv|]. split; [exact Hid|]. split; [exact Hc|].
      split; [split; [exact Hsel|by intros refs Hrefs; apply (selected_refs repo prov)]|]. exists c. split; [done|].
      apply (answered_mono cfg st0 lo st1 st1); [by transitivity st|done|done].
    - intros st' e He. by apply ce_refused. }
  intros st1 [[summary first] clone_id] Hl1 [Hv Hres]. cbn [fst snd] in *.
  eapply clspec_bind with (Q := fun _ _ => True); [by eapply clspec_check|]. intros st2 _ Hl2 _.
  eapply clspec_bind with (Q := fun _ _ => True).
  { eapply clspec_check; [|done]. destruct (is_ok (validate_object_id selector)) eqn:Eo; [|done].
    assert (Hs : Selector_parse selector = Ok (SCommit selector)).
    { unfold Selector_parse in Hp |- *. case_bool_decide as Eh; [subst selector; by vm_compute in Eo|]. by rewrite Eo. }
    destruct Hres as (_ & _ & [Hsel _] & _). unfold selected in Hsel. rewrite Hs in Hsel. destruct Hsel as [-> _].
    by rewrite bool_decide_eq_true_2. }
  intros st3 _ Hl3 _. apply clspec_ret. intros st4 Hl4.
  assert (Hl : later st1 st4) by (transitivity st2; [done|]; by transitivity st3).
  apply (resolved_mono lo st1 st4) in Hres; [|done]. exact Hres.
Qed.

(** The branch named beside a commit: [--at <commit> --branch <name>]. *)
Definition branch_override (request : CloneRequest) : option string :=
  match cr_at request with
  | Some _ => if bool_decide (cr_branch request = "HEAD") then None else Some (cr_branch request)
  | None => None
  end.
(** What a clone's start promises. *)
Definition started (lo hi : Store) (request : CloneRequest) (selector : string) (r : Pin * Plan * bool) : Prop :=
  let '(pin, p, _) := r in
  validate_object_id (pn_commit pin) = Ok tt /\
  (pn_checkout pin = "" \/ validate_checkout_name (pn_checkout pin) = Ok tt) /\
  (exists checkout_name, pins selector (pn_commit pin) checkout_name (pn_tag pin) /\
     pn_checkout pin = default "" (match branch_override request with Some name => Some name | None => checkout_name end)) /\
  installs lo hi (pn_commit pin) (cr_kind request) p.
(** C12: a client and the server it is configured for. A clone, when its selector is
    one, a full ref's branch or tag has a name git accepts, and so has the branch named
    beside [--at]: it pins the selector's commit, which is the commit given, that of
    upstream's [HEAD], or that of the ref upstream has under the name (in whatever refs
    upstream has: [HEAD], the exact ref, or the branch before the tag of that name), with
    that tag, and with the branch named or else the selector's, which git accepts; it
    installs an output of that commit that was ready at some time of the exchange, or
    the base of its pending Full; and the answers always pass the client's checks, so
    it fails only because the server refused, the build failed, or it was still
    pending when the polls ran out. *)
Theorem clone_agrees request selector sel w :
  cr_repo_path request = repo_path -> selector = default (cr_branch request) (cr_at request) ->
  Selector_parse selector = Ok sel -> short_name_ok selector ->
  (forall name, branch_override request = Some name -> validate_checkout_name name = Ok tt) ->
  server_ok cfg (nt_server w) (ancestor := ancestor) ->
  let '(w', r) := resolve_and_plan status_text cl request w in
  server_ok cfg (nt_server w') (ancestor := ancestor) /\ later (store w) (store w') /\
  match r with
  | inl x => started (store w) (store w') request selector x
  | inr e => clone_error (store w) (cr_kind request) (store w') e
  end.
Proof.
  intros Hpath Hselector Hp Hr Hc Hw.
  enough (H : clspec (store w) (resolve_and_plan status_text cl request) (fun st' x => started (store w) st' request selector x)
    (clone_error (store w) (cr_kind request))) by (apply H; [done|reflexivity]).
  generalize (store w). intros st. unfold resolve_and_plan. rewrite Hpath.
  eapply clspec_bind with (Q := fun st' '(pin, first) => validate_object_id (pn_commit pin) = Ok tt /\
    (pn_checkout pin = "" \/ validate_checkout_name (pn_checkout pin) = Ok tt) /\
    (exists checkout_name, pins selector (pn_commit pin) checkout_name (pn_tag pin) /\
       pn_checkout pin = default "" (match branch_override request with Some name => Some name | None => checkout_name end)) /\
    exists c, first = Some c /\ answered st st' repo prov (pn_commit pin) (cr_kind request) c).
  - unfold resolve. rewrite Hpath.
    assert (Hpair : match cr_at request with
      | Some at_ => (at_, if bool_decide (cr_branch request = "HEAD") then None else Some (cr_branch request))
      | None => (cr_branch request, None) end = (selector, branch_override request))
      by (subst selector; unfold branch_override; by destruct (cr_at request)).
    rewrite Hpair. set (over := branch_override request) in *.
    eapply clspec_bind with (Q := fun _ _ => True).
    { eapply clspec_check; [|done]. destruct over as [name|]; [|done]. by rewrite (Hc name eq_refl). }
    intros st1 _ Hl1 _. eapply clspec_bind; [by apply (request_build_spec st st1 selector sel)|].
    intros st2 [[summary clone_id] first] Hl2 (Hid & Hck & Hsel & c & -> & Ha). apply clspec_ret. intros st3 Hl3. cbn [pn_commit pn_checkout pn_tag].
    split; [exact Hid|]. split; [|split; [by exists (bs_checkout_name summary)|exists c; split; [done|by apply (answered_mono cfg st st st2 st3)]]].
    destruct over as [name|]; cbn [default]; [right; by apply Hc|]. destruct (bs_checkout_name summary) as [name|]; [right; by apply Hck|by left].
  - intros st1 [pin first] Hl1 (Hid & Hck & Hsel & c & -> & Ha). unfold plan.
    eapply clspec_bind with (Q := fun st' r => installs st st' (pn_commit pin) (cr_kind request) r.1).
    + eapply clspec_bind with (Q := fun _ _ => True); [apply clspec_time; intros w0; by eexists|].
      intros st2 t0 Hl2 _. apply plan_from_spec; [by transitivity st1|done| |done]. intros c' [= <-]. by apply (answered_mono cfg st st st1 st2).
    + intros st2 [p cold] Hl2 Hin. apply clspec_ret. intros st3 Hl3. split; [exact Hid|]. split; [exact Hck|]. split; [exact Hsel|].
      by apply (installs_mono _ st2 st3).
Qed.
End system.

(** ** A files clone of a tag, while its Files builds *)
Module CloneExample.
Import ApiExample.
Definition registry : gmap string ProviderInstance := {[ "github" := prov ]}.
Definition cl : Client :=
  {| cl_server := "https://h"; cl_is_cloud := false; cl_provider := "github"; cl_provider_instance := Some prov;
     cl_origin_base := None; cl_poll_ms := None |}.
Lemma configured : Configured registry cl prov "acme/demo".
Proof. by split; vm_compute. Qed.
Definition request : CloneRequest :=
  {| cr_repo_path := "acme/demo"; cr_branch := "v1"; cr_at := None; cr_kind := Files; cr_wait := false; cr_single_branch := false |}.
Definition start : Net := {| nt_server := server; nt_clock := 0 |}.
Local Abbreviation run :=
  (resolve_and_plan (Wd := net (fun _ => Err "") (fun _ => None) (fun h => h) [] registry 3600 (fun _ => "")) (fun _ => "") cl request start).

Lemma clone_agrees_witness :
  exists w r pin o, run = (w, r) /\ r = inl (pin, PlanFilesFromHead o, true) /\ pn_commit pin = Example.commit /\ pn_tag pin = Some "v1" /\
    (exists checkout_name, selected_of BuildExample.refs "v1" (pn_commit pin) checkout_name (pn_tag pin)) /\
    installs Example.cfg cl prov "acme/demo" (ancestor := fun _ _ _ => False) published (sv_store (nt_server w)) (pn_commit pin) Files (PlanFilesFromHead o).
Proof.
  pose proof (clone_agrees Example.cfg example_cfg_ok serde_bounds (fun _ => Err "") (fun _ => None) (fun h => h) [] registry 3600 (fun _ => "") (fun _ => "")
    cl prov "acme/demo" configured request "v1" (SName "v1") start eq_refl eq_refl eq_refl ltac:(intros ? [?|?]; done) ltac:(done) server_is_ok) as H.
  destruct run as [w r] eqn:E. destruct H as (_ & _ & H).
  assert (Er : run.2 = r) by (by rewrite E). vm_compute in Er. subst r. destruct H as (_ & _ & (checkout_name & [_ Hof] & _) & Hin).
  eexists w, _, _, _. split; [reflexivity|]. split; [reflexivity|]. split; [done|]. split; [done|]. split; [|exact Hin].
  exists checkout_name. apply Hof, BuildExample.env_upstream.
Defined.
End CloneExample.
