(* ===== verification/Metrics.v ===== *)
(** The server's counters ([rust/src/metrics.rs]): what each event adds to them, and the
    text [/metrics] answers, whose samples read back as the counters.

    The struct is a function from its fields, each an [AtomicU64]: [fetch_add] wraps.
    The handlers and the worker are modelled without their counting; what they count is
    here. *)

From S2P Require Import Prelude Bytes Provider Outputs Refs.

Inductive Field :=
  | ref_lookups | syncs | sync_duration_ms_total | sync_mirror_fetch_ms_total | sync_head_packs_ms_total
  | sync_files_table_ms_total | sync_upload_head_ms_total | sync_ref_publish_ms_total | sync_publish_head_ms_total
  | artifact_requests | artifact_bytes_served | errors | local_cache_cleanup_runs | local_cache_removed_bytes
  | local_cache_removed_objects | local_cache_cleanup_errors | artifacts_deleted | builds_queued | builds_completed
  | builds_failed | build_duration_ms_total | outputs_published_head | outputs_published_files | outputs_published_full.
#[export] Instance Field_eq_dec : EqDecision Field.
Proof. solve_decision. Defined.
Definition Metrics := Field -> N.
Definition Metrics_new : Metrics := fun _ => 0%N.
Definition fetch_add (f : Field) (n : N) (m : Metrics) : Metrics :=
  fun g => if decide (f = g) then ((m g + n) mod 2 ^ 64)%N else m g.

(** ** What is recorded *)

(** [u64::try_from(duration.as_millis())]. *)
Definition as_millis_u64 (millis : N) : N := N.min millis u64_max.
Definition record_ref_lookup : Metrics -> Metrics := fetch_add ref_lookups 1.
Definition record_sync (millis : N) (m : Metrics) : Metrics :=
  fetch_add sync_duration_ms_total (as_millis_u64 millis) (fetch_add syncs 1 m).
Definition add_optional (f : Field) (value : option N) (m : Metrics) : Metrics :=
  match value with Some n => fetch_add f n m | None => m end.
Record SyncPhaseMetrics := {
  mirror_fetch_ms : option N; head_packs_ms : option N; files_table_ms : option N;
  upload_head_ms : option N; ref_publish_ms : option N; publish_head_ms : option N;
}.
Definition record_sync_phases (phases : SyncPhaseMetrics) (m : Metrics) : Metrics :=
  let m := add_optional sync_mirror_fetch_ms_total (mirror_fetch_ms phases) m in
  let m := add_optional sync_head_packs_ms_total (head_packs_ms phases) m in
  let m := add_optional sync_files_table_ms_total (files_table_ms phases) m in
  let m := add_optional sync_upload_head_ms_total (upload_head_ms phases) m in
  let m := add_optional sync_ref_publish_ms_total (ref_publish_ms phases) m in
  add_optional sync_publish_head_ms_total (publish_head_ms phases) m.
Definition record_artifact_request (bytes : N) (m : Metrics) : Metrics :=
  fetch_add artifact_bytes_served bytes (fetch_add artifact_requests 1 m).
Definition record_error : Metrics -> Metrics := fetch_add errors 1.
Definition record_local_cache_cleanup (removed_bytes removed_objects : N) (m : Metrics) : Metrics :=
  let m := fetch_add local_cache_cleanup_runs 1 m in
  let m := fetch_add local_cache_removed_bytes removed_bytes m in
  fetch_add local_cache_removed_objects removed_objects m.
Definition record_local_cache_cleanup_error : Metrics -> Metrics := fetch_add local_cache_cleanup_errors 1.
Definition record_artifact_deleted : Metrics -> Metrics := fetch_add artifacts_deleted 1.
Definition record_build_accepted : Metrics -> Metrics := fetch_add builds_queued 1.
Definition record_build_completed (millis : N) (m : Metrics) : Metrics :=
  fetch_add build_duration_ms_total (as_millis_u64 millis) (fetch_add builds_completed 1 m).
Definition record_build_failed : Metrics -> Metrics := fetch_add builds_failed 1.
Definition record_output_published (kind : ExactResultKind) : Metrics -> Metrics :=
  fetch_add match kind with Head => outputs_published_head | Files => outputs_published_files | Full => outputs_published_full end 1.

(** ** The text *)
Definition counters (m : Metrics) : list (string * string * N) :=
  [("ripclone_ref_lookups_total", "Ref lookups served", m ref_lookups);
   ("ripclone_syncs_total", "Repo syncs performed", m syncs);
   ("ripclone_sync_duration_ms_total", "Total sync wall time in milliseconds", m sync_duration_ms_total);
   ("ripclone_sync_mirror_fetch_ms_total", "Total mirror-fetch phase time in milliseconds", m sync_mirror_fetch_ms_total);
   ("ripclone_sync_head_packs_ms_total", "Total head-pack phase time in milliseconds", m sync_head_packs_ms_total);
   ("ripclone_sync_files_table_ms_total", "Total files-table phase time in milliseconds", m sync_files_table_ms_total);
   ("ripclone_sync_upload_head_ms_total", "Total Head upload time in milliseconds", m sync_upload_head_ms_total);
   ("ripclone_sync_ref_publish_ms_total", "Total ref-publish phase time in milliseconds", m sync_ref_publish_ms_total);
   ("ripclone_sync_publish_head_ms_total", "Total Head publish wall time in milliseconds", m sync_publish_head_ms_total);
   ("ripclone_artifact_requests_total", "Artifact requests served", m artifact_requests);
   ("ripclone_artifact_bytes_served_total", "Artifact bytes served", m artifact_bytes_served);
   ("ripclone_errors_total", "Request errors", m errors);
   ("ripclone_local_cache_cleanup_runs_total", "Local cache cleanup runs", m local_cache_cleanup_runs);
   ("ripclone_local_cache_removed_bytes_total", "Bytes removed from the local build cache", m local_cache_removed_bytes);
   ("ripclone_local_cache_removed_objects_total", "Objects removed from the local build cache", m local_cache_removed_objects);
   ("ripclone_local_cache_cleanup_errors_total", "Local cache cleanup errors", m local_cache_cleanup_errors);
   ("ripclone_artifacts_deleted_total", "Artifacts no output names, deleted from storage", m artifacts_deleted);
   ("ripclone_builds_queued_total", "Build rows admitted", m builds_queued);
   ("ripclone_builds_completed_total", "Builds completed", m builds_completed);
   ("ripclone_build_duration_ms_total", "Total build wall time in milliseconds", m build_duration_ms_total);
   ("ripclone_builds_failed_total", "Builds failed", m builds_failed)].
Definition published (m : Metrics) : list (string * N) :=
  [("head", m outputs_published_head); ("files", m outputs_published_files); ("full", m outputs_published_full)].
Definition escape_help (s : string) : string := replace_char newline_char "\n" (replace_char "\" "\\" s).
Definition quote : string := String "034" "".
Definition published_name (kind : string) : string := "ripclone_outputs_published_total{kind=" +:+ quote +:+ kind +:+ quote +:+ "}".
(** The lines [prometheus] writes. *)
Definition metric_lines (m : Metrics) : list string :=
  concat (map (fun '(name, help, value) =>
    ["# HELP " +:+ name +:+ " " +:+ escape_help help; "# TYPE " +:+ name +:+ " counter"; name +:+ " " +:+ pretty value]) (counters m))
  ++ ["# HELP ripclone_outputs_published_total " +:+ escape_help "Build outputs published, by kind";
      "# TYPE ripclone_outputs_published_total counter"]
  ++ map (fun '(kind, value) => published_name kind +:+ " " +:+ pretty value) (published m).
Definition prometheus (m : Metrics) : string := unlines (metric_lines m).

(** ** Its samples

    A scraper's reading: every line that is no comment is a sample's name and value. *)
Definition sample (l : string) : option (string * string) := if starts_with "#" l then None else rsplit_once " " l.
Definition samples (text : string) : list (string * string) := omap sample (lines text).
(** Every counter is in the text, and nothing else is. *)
Definition shown (m : Metrics) : list (string * string) :=
  map (fun '(name, _, value) => (name, pretty value)) (counters m) ++ map (fun '(kind, value) => (published_name kind, pretty value)) (published m).
Lemma pretty_no_char c (n : N) : is_ascii_digit c = false -> contains_char c (pretty n) = false.
Proof.
  intros Hc. apply not_true_iff_false. intros (x & Hx & Ex%Ascii.eqb_eq)%str_any_true. subst x.
  pose proof (digits_pretty n) as H. unfold all_digits in H. rewrite str_all_true in H. by rewrite (H c Hx) in Hc.
Qed.
Lemma sample_line_ok name (n : N) : line_ok name -> line_ok (name +:+ " " +:+ pretty n).
Proof.
  intros H. apply line_ok_app; [done|]. apply line_ok_app; [by split|]. by split; apply pretty_no_char.
Qed.
Lemma metric_lines_ok m : Forall line_ok (metric_lines m).
Proof.
  unfold metric_lines, counters, published. cbn [map concat app].
  repeat (constructor; [first [by split; vm_compute|apply sample_line_ok; by split; vm_compute]|]). constructor.
Qed.
Lemma sample_read name (n : N) : starts_with "ripclone" name = true -> sample (name +:+ " " +:+ pretty n) = Some (name, pretty n).
Proof.
  intros H. apply starts_with_true in H as [t ->]. unfold sample. cbn [starts_with String.append]. apply (rsplit_once_app " " ("ripclone" +:+ t)).
  by apply pretty_no_char.
Qed.
Lemma samples_of {A} (f : A -> list string) (g : A -> string * string) l :
  Forall (fun x => omap sample (f x) = [g x]) l -> omap sample (concat (map f l)) = map g l.
Proof. induction 1 as [|x l Hx _ IH]; [done|]. cbn [map concat]. by rewrite omap_app, Hx, IH. Qed.
(** What a scraper reads of [/metrics] is every counter and its value. *)
Lemma prometheus_samples m : samples (prometheus m) = shown m.
Proof.
  unfold samples, prometheus. rewrite lines_unlines by apply metric_lines_ok.
  unfold metric_lines. rewrite !omap_app. unfold shown. f_equal; [apply samples_of|cbn [app]].
  - assert (H : Forall (fun c => starts_with "ripclone" c.1.1 = true) (counters m)) by (repeat constructor).
    eapply Forall_impl; [exact H|]. intros [[name help] value] Hn. cbn [fst] in Hn. cbn [omap list_omap].
    by rewrite (sample_read name value Hn).
  - change (map (fun '(kind, value) => published_name kind +:+ " " +:+ pretty value) (published m))
      with (concat (map (fun '(kind, value) => [published_name kind +:+ " " +:+ pretty value]) (published m))).
    apply samples_of. repeat constructor; cbn [omap list_omap]; by rewrite sample_read.
Qed.
(** Each event is shown by its counter, so two servers whose counters differ answer
    differently. *)
Lemma published_counted kind m : (m match kind with Head => outputs_published_head | Files => outputs_published_files | Full => outputs_published_full end < u64_max)%N ->
  prometheus (record_output_published kind m) <> prometheus m.
Proof.
  intros Hlt H. apply (f_equal samples) in H. rewrite !prometheus_samples in H. apply app_inj_2 in H as [_ H]; [|done].
  unfold u64_max in Hlt. assert (Hs : forall n : N, (n < 18446744073709551615)%N -> pretty ((n + 1) mod 2 ^ 64)%N <> pretty n).
  { intros n Hn E%(inj pretty). rewrite N.mod_small in E by (change (2 ^ 64)%N with 18446744073709551616%N; lia). lia. }
  destruct kind; cbn in H; injection H as H; by eapply Hs.
Qed.
