(* ===== verification/Server.v ===== *)
(** The application ([rust/src/server/mod.rs], [rust/src/server/auth.rs]): the gates
    before the protected routes, the routes themselves and the public ones.

    A request is its method, path, query, headers and body. Matching a path to a route
    and decoding its parameters are axum's, as its documentation has them; the
    [Content-Type] and cache headers of answers are left out. *)

From S2P Require Import Prelude Bytes Provider Validation Paths Outputs Cas Control ControlThms Refs LsRemote Manifest Wire Artifacts Api Routes ApiThms Webhooks Client ClientServer Metrics.

(** The sole wire protocol ([rust/src/lib.rs]). *)
Definition PROTOCOL_VERSION : N := 3.

(** ** The gates *)
Definition parse_u32 (s : string) : option N := n ← parse_u64 s; if (n <=? u32_max)%N then Some n else None.
(** The refusal of [protocol_guard], when it does not pass the request on. *)
Definition protocol_guard (headers : Headers) : option Answered :=
  match headers !! "x-ripclone-protocol" with
  | None => None
  | Some value =>
      match (text ← to_str value; parse_u32 (trim text)) with
      | None => Some (error_answer 426 ("invalid client protocol; this server requires " +:+ pretty PROTOCOL_VERSION))
      | Some client_proto =>
          if (client_proto =? PROTOCOL_VERSION)%N then None
          else Some (error_answer 426 ("client protocol " +:+ pretty client_proto +:+ " does not match this server's "
                                       +:+ pretty PROTOCOL_VERSION +:+ "; use matching ripclone client and server versions"))
      end
  end.
Definition check_auth_header (value expected : string) : bool :=
  match strip_prefix "Ripclone " value with Some token => bool_decide (token = expected) | None => false end.
(** The refusal of [auth_middleware]. *)
Definition auth_middleware (token_hash : option string) (headers : Headers) : option Answered :=
  match token_hash with
  | None => None
  | Some expected =>
      let authorized := match header headers "authorization" with Some v => check_auth_header v expected | None => false end in
      if authorized then None else Some (error_answer 401 "unauthorized")
  end.
(** [sha256] is the digest in hex. *)
Definition server_auth_token_hash (sha256 : bytes -> string) (raw : option string) : Result string :=
  context ((fun t => sha256 (String.list_byte_of_string t)) <$> option_filter (fun t => negb (bool_decide (t = ""))) raw)
    "RIPCLONE_SERVER_TOKEN is not set. Refusing to start an unauthenticated server.".

(** ** Requests and routes *)
Inductive HttpMethod := HGet | HHead | HPost | HDelete | HOther.
Record HttpRequest := {
  hr_method : HttpMethod;
  hr_path : string;
  hr_query : list (string * string);
  hr_headers : Headers;
  hr_body : option bytes;  (* none when it cannot be read *)
}.
Inductive Endpoint :=
  | EHealthz | EVersion | EReadyz | EMetrics
  | EWebhook (provider_id : string)
  | EListRepos | ERepos (method : Method) (path : string) | EArtifact (hash : string) | ECloneMetrics (clone_id : string).
(** A parameter of a path: one segment, not empty. *)
Definition param (s : string) : option string := if bool_decide (s = "") || contains_char "/" s then None else Some s.
Definition one_param (pre post path : string) : option string :=
  rest ← strip_prefix pre path; s ← strip_suffix post rest; param s.
Definition is_get (m : HttpMethod) : bool := match m with HGet | HHead => true | _ => false end.
(** The routes of [build_app]: the endpoint, or the status of a path or a method
    without one. *)
Definition route (m : HttpMethod) (path : string) : Endpoint + N :=
  let get e := if is_get m then inl e else inr 405%N in
  let post e := match m with HPost => inl e | _ => inr 405%N end in
  if bool_decide (path = "/healthz") then get EHealthz
  else if bool_decide (path = "/v1/version") then get EVersion
  else if bool_decide (path = "/readyz") then get EReadyz
  else if bool_decide (path = "/metrics") then get EMetrics
  else if bool_decide (path = "/v1/repos") then get EListRepos
  else
    match strip_prefix "/v1/repos/" path, one_param "/webhooks/" "" path, one_param "/v1/artifacts/" "" path,
          one_param "/v1/clones/" "/metrics" path with
    | Some rest, _, _, _ =>
        if bool_decide (rest = "") then inr 404%N
        else match m with
             | HGet | HHead => inl (ERepos MGet rest)
             | HPost => inl (ERepos MPost rest)
             | HDelete => inl (ERepos MDelete rest)
             | HOther => inr 405%N
             end
    | _, Some p, _, _ => post (EWebhook p)
    | _, _, Some hash, _ => get (EArtifact hash)
    | _, _, _, Some id => post (ECloneMetrics id)
    | _, _, _, _ => inr 404%N
    end.
(** The router the gates are on. *)
Definition protected (e : Endpoint) : bool :=
  match e with EListRepos | ERepos _ _ | EArtifact _ | ECloneMetrics _ => true | _ => false end.

(** ** Readiness *)
(** Milliseconds. *)
Definition READYZ_CACHE_TTL : N := 3000.
(** The time of a request, what the probes answer then, and the server's counters. *)
Record Probes := { pb_now : N; pb_storage : Result unit; pb_control : Result unit; pb_metrics : Metrics }.
Definition readyz_response (ready : bool) : Answered :=
  {| ans_status := if ready then 200 else 503; ans_body := Some (JObj [("status", JStr (if ready then "ready" else "not_ready"))]) |}.
(** The answer, and the cached result it leaves. *)
Definition readyz (probes : Probes) (cache : option (N * bool)) : Answered * option (N * bool) :=
  let probe :=
    let ready := is_ok (pb_storage probes) && is_ok (pb_control probes) in
    (readyz_response ready, Some (pb_now probes, ready)) in
  match cache with
  | Some (at_, ready) => if (pb_now probes - at_ <? READYZ_CACHE_TTL)%N then (readyz_response ready, cache) else probe
  | None => probe
  end.

(** ** The application *)
Definition RepoId_json (r : RepoId) : Json := JObj [("provider", JStr (provider r)); ("path", JStr (path r))].
Definition MAX_REQUEST_BODY_BYTES : N := 256 * 1024 * 1024.
Inductive HttpResponse :=
  | RAnswer (a : Answered)
  | RText (text : string)
  | RServed (s : Served)
  | RHead (r : HttpResponse)  (* without its body *)
  | RClosed.  (* the handler panicked *)
Record App {S : Serde} := { app_server : Server S; app_readyz : option (N * bool) }.
#[global] Arguments App : clear implicits.
(** Answers of the server's own routing and of extractors; their text is left out. *)
Definition status_only (status : N) : HttpResponse := RAnswer {| ans_status := status; ans_body := None |}.

Section app.
Context {S : Serde} {En : Env S} {St : StorageBackend}.
Context (storage_get : string -> Result bytes) (decode_manifest : bytes -> option ClonepackManifest)
  (hash_to_hex : string -> string) (regions : list string)
  (registry : gmap string ProviderInstance) (signed_url_ttl : N) (read_takes : N -> N -> N).
(** Library code: HMAC, JSON text, the decoding of a path's parameter. *)
Context (hmac_sha256 : bytes -> bytes -> bytes) (from_slice : bytes -> option Json) (percent_decode : string -> option string).
Context (token_hash : option string) (secrets : gmap string string) (version : string).

Definition list_added_repos : Server S -> Server S * Answered := fun sv =>
  match Api.query list_repos sv with
  | (sv, Ok repos) => (sv, ok_json (json_list (fun added => RepoId_json (repo_id added)) repos))
  | (sv, Err e) => (sv, error_answer 500 ("list added repos failed: " +:+ e))
  end.
(** [Bytes], as the [/v1/repos] POST reads its body. *)
Definition read_body (body : option bytes) : Payload + N :=
  match body with
  | None => inr 400%N
  | Some raw =>
      if (MAX_REQUEST_BODY_BYTES <? nlen raw)%N then inr 413%N
      else inl (if bool_decide (raw = []) then NoBody else match from_slice raw with Some j => JsonBody j | None => TextBody end)
  end.
Definition repos (request : Request) (sv : Server S) : Server S * HttpResponse :=
  match handle storage_get decode_manifest hash_to_hex regions registry signed_url_ttl request sv with
  | (sv, Some a) => (sv, RAnswer a)
  | (sv, None) => (sv, RClosed)
  end.
(** A parameter that cannot be decoded is refused before its handler. *)
Definition decoded {A} (raw : string) (k : string -> App S -> App S * (HttpResponse * A)) (nothing : A) (app : App S)
    : App S * (HttpResponse * A) :=
  match percent_decode raw with Some p => k p app | None => (app, (status_only 400, nothing)) end.
Definition on_server {A} (f : Server S -> Server S * A) (app : App S) : App S * A :=
  let '(sv, a) := f (app_server app) in ({| app_server := sv; app_readyz := app_readyz app |}, a).
Definition quiet (p : App S * HttpResponse) : App S * (HttpResponse * list Spawned) := (p.1, (p.2, [])).

(** An endpoint's handler: the answer and the refreshes started. *)
Definition endpoint (e : Endpoint) (probes : Probes) (req : HttpRequest) (app : App S) : App S * (HttpResponse * list Spawned) :=
  let says r := (app, (r, [])) in
  match e with
  | EHealthz => says (RAnswer (ok_json (JObj [("status", JStr "ok")])))
  | EVersion => says (RAnswer (ok_json (JObj [("version", JStr version); ("protocol", json_n PROTOCOL_VERSION)])))
  | EReadyz =>
      let '(a, cache) := readyz probes (app_readyz app) in
      ({| app_server := app_server app; app_readyz := cache |}, (RAnswer a, []))
  | EMetrics => says (RText (prometheus (pb_metrics probes)))
  | EWebhook raw =>
      decoded raw (fun provider_id app =>
        let '(app, (a, spawned)) := on_server (handle_webhook hmac_sha256 from_slice registry secrets provider_id (hr_headers req) (hr_body req)) app in
        (app, (RAnswer a, spawned))) [] app
  | EListRepos => quiet (on_server (fun sv => let '(sv, a) := list_added_repos sv in (sv, RAnswer a)) app)
  | ERepos m raw =>
      decoded raw (fun path app =>
        let run body := quiet (on_server (repos {| rq_method := m; rq_path := path; rq_query := hr_query req; rq_body := body |}) app) in
        match m with
        | MPost => match read_body (hr_body req) with inl body => run body | inr status => (app, (status_only status, [])) end
        | _ => run NoBody
        end) [] app
  | EArtifact raw => decoded raw (fun hash app => (app, (RServed (get_artifact read_takes hash (hr_headers req !! "range")), []))) [] app
  | ECloneMetrics _ => says (status_only 202)
  end.
(** The refusal of the gates, the protocol's first. *)
Definition gates (headers : Headers) : option Answered :=
  match protocol_guard headers with Some a => Some a | None => auth_middleware token_hash headers end.
(** A request through [build_app]. *)
Definition serve (probes : Probes) (req : HttpRequest) (app : App S) : App S * (HttpResponse * list Spawned) :=
  match route (hr_method req) (hr_path req) with
  | inr status => (app, (status_only status, []))
  | inl e =>
      let '(app, (r, spawned)) :=
        match (if protected e then gates (hr_headers req) else None) with
        | Some refusal => (app, (RAnswer refusal, []))
        | None => endpoint e probes req app
        end in
      (app, (match hr_method req with HHead => RHead r | _ => r end, spawned))
  end.
End app.

(** ** The client's headers ([rust/src/client.rs]) *)
(** [HeaderValue::from_str]. *)
Definition header_value (s : string) : option string :=
  if str_all (fun c => byte_in 9 9 c || (32 <=? N_of_ascii c)%N && negb (N_of_ascii c =? 127)%N) s then Some s else None.
Definition new_with_auth (auth_value : option string) : Headers :=
  let headers := match auth_value ≫= header_value with Some value => {[ "authorization" := value ]} | None => ∅ end in
  match header_value (pretty PROTOCOL_VERSION) with Some pv => <["x-ripclone-protocol" := pv]> headers | None => headers end.
Definition new_with_token (token : option string) : Headers := new_with_auth ((fun t => "Ripclone " +:+ t) <$> token).

(** ** What the gates keep out *)
Lemma parse_version : (text ← to_str (pretty PROTOCOL_VERSION); parse_u32 (trim text)) = Some PROTOCOL_VERSION.
Proof. by vm_compute. Qed.
Lemma protocol_guard_passes headers :
  protocol_guard headers = None <-> forall value, headers !! "x-ripclone-protocol" = Some value ->
    exists text, to_str value = Some text /\ parse_u32 (trim text) = Some PROTOCOL_VERSION.
Proof.
  unfold protocol_guard. destruct (headers !! _) as [value|]; [|naive_solver].
  transitivity ((text ← to_str value; parse_u32 (trim text)) = Some PROTOCOL_VERSION).
  - destruct (text ← to_str value; parse_u32 (trim text)) as [p|]; [|done].
    destruct (N.eqb_spec p PROTOCOL_VERSION); split; naive_solver.
  - split.
    + intros (text & ? & ?)%bind_Some v [= <-]. by exists text.
    + intros H. destruct (H value eq_refl) as (text & -> & ?). done.
Qed.
Lemma auth_passes token_hash headers :
  auth_middleware token_hash headers = None <-> forall expected, token_hash = Some expected -> header headers "authorization" = Some ("Ripclone " +:+ expected).
Proof.
  unfold auth_middleware, check_auth_header. destruct token_hash as [h|]; [|naive_solver].
  assert (forall v, (match strip_prefix "Ripclone " v with Some token => bool_decide (token = h) | None => false end) = true <-> v = "Ripclone " +:+ h) as Hv.
  { intros v. destruct (strip_prefix _ v) as [t|] eqn:E.
    - apply strip_prefix_Some in E as ->. rewrite bool_decide_eq_true. split; [by intros ->|]. intros H. by apply (inj (String.append "Ripclone ")) in H.
    - split; [done|]. intros ->. by rewrite strip_prefix_app in E. }
  destruct (header headers "authorization") as [v|].
  - destruct (match strip_prefix _ v with Some _ => _ | None => _ end) eqn:E.
    + apply Hv in E as ->. naive_solver.
    + split; [done|]. intros H. specialize (H h eq_refl). injection H as H. apply Hv in H. congruence.
  - split; [done|]. intros H. by specialize (H h eq_refl).
Qed.

(** The request carries the server's token, if it has one, and no other protocol. *)
Definition allowed (token_hash : option string) (headers : Headers) : Prop :=
  (forall value, headers !! "x-ripclone-protocol" = Some value ->
     exists text, to_str value = Some text /\ parse_u32 (trim text) = Some PROTOCOL_VERSION) /\
  (forall expected, token_hash = Some expected -> header headers "authorization" = Some ("Ripclone " +:+ expected)).
Lemma gates_pass token_hash headers : gates token_hash headers = None <-> allowed token_hash headers.
Proof.
  unfold gates, allowed. rewrite <- protocol_guard_passes, <- auth_passes. destruct (protocol_guard headers); [naive_solver|]. naive_solver.
Qed.

Section gated.
Context {S : Serde} {En : Env S} {St : StorageBackend}.
Context (storage_get : string -> Result bytes) (decode_manifest : bytes -> option ClonepackManifest)
  (hash_to_hex : string -> string) (regions : list string)
  (registry : gmap string ProviderInstance) (signed_url_ttl : N) (read_takes : N -> N -> N)
  (hmac_sha256 : bytes -> bytes -> bytes) (from_slice : bytes -> option Json) (percent_decode : string -> option string)
  (token_hash : option string) (secrets : gmap string string) (version : string).
Local Abbreviation serve := (serve storage_get decode_manifest hash_to_hex regions registry signed_url_ttl read_takes hmac_sha256
  from_slice percent_decode token_hash secrets version).
Local Abbreviation endpoint := (endpoint storage_get decode_manifest hash_to_hex regions registry signed_url_ttl read_takes hmac_sha256
  from_slice percent_decode secrets version).

(** The request with other counters. *)
Definition counting (m : Metrics) (probes : Probes) : Probes :=
  {| pb_now := pb_now probes; pb_storage := pb_storage probes; pb_control := pb_control probes; pb_metrics := m |}.
(** What is answered without the server's store and its counters. *)
Definition blind (probes : Probes) (req : HttpRequest) (app : App S) (out : App S * (HttpResponse * list Spawned)) : Prop :=
  app_server out.1 = app_server app /\ out.2.2 = [] /\
  forall sv m, (serve (counting m probes) req {| app_server := sv; app_readyz := app_readyz app |}).2 = out.2.
Lemma serve_gated probes req app e : route (hr_method req) (hr_path req) = inl e ->
  serve probes req app =
  let '(app', (r, spawned)) :=
    match (if protected e then gates token_hash (hr_headers req) else None) with
    | Some refusal => (app, (RAnswer refusal, []))
    | None => endpoint e probes req app
    end in (app', (match hr_method req with HHead => RHead r | _ => r end, spawned)).
Proof. unfold Server.serve. by intros ->. Qed.

Lemma route_metrics m path : route m path = inl EMetrics -> path = "/metrics".
Proof.
  unfold route. repeat (case_bool_decide; [by destruct m|]). by repeat case_match.
Qed.
(** C20: unless it carries the server's token, and no wrong protocol version, a request
    leaves the control store, the builds and the refs as they are and its answer is
    not of them, nor of the server's counters: it is the same whatever they hold. Two
    routes are the exceptions: [/metrics] answers the counters, which tell how many
    builds and artifacts there were, and changes nothing; and a webhook delivery that
    carries its provider's signature does what it may. *)
Theorem server_gated probes req app :
  ~ allowed token_hash (hr_headers req) ->
  let out := serve probes req app in
  blind probes req app out \/
  (hr_path req = "/metrics" /\ out.1 = app /\
   let text := RText (prometheus (pb_metrics probes)) in
   out.2 = (match hr_method req with HHead => RHead text | _ => text end, [])) \/
  exists provider_id p event,
    authentic hmac_sha256 from_slice registry secrets provider_id (hr_headers req) (hr_body req) p event /\
    hook_effect p event (app_server app) (app_server out.1) out.2.2.
Proof.
  intros Hn out. unfold blind. subst out. destruct (route (hr_method req) (hr_path req)) as [e|status] eqn:Er;
    [|left; unfold Server.serve; by rewrite Er].
  rewrite (serve_gated probes req app e Er). setoid_rewrite (fun sv m => serve_gated (counting m probes) req {| app_server := sv; app_readyz := app_readyz app |} e Er).
  destruct (protected e) eqn:Ep.
  { destruct (gates token_hash (hr_headers req)) eqn:Eg; [by left|]. by apply gates_pass in Eg. }
  destruct e; try done; cbn [Server.endpoint]; try by left.
  - left. cbn. change (readyz (counting _ probes)) with (readyz probes). by destruct (readyz _ _).
  - right. left. split; [by apply route_metrics in Er|done].
  - unfold decoded. destruct (percent_decode provider_id) as [p|]; [|by left]. unfold on_server.
    destruct (handle_webhook _ _ _ _ p _ _ (app_server app)) as [sv' [a spawned]] eqn:Eh. cbn [fst snd app_server app_readyz].
    destruct (webhook_cases _ _ _ _ _ _ _ _ _ _ _ Eh) as [(-> & -> & Hb)|(prov & ev & Ha & He)].
    + left. split; [done|]. split; [done|]. intros sv. by rewrite Hb.
    + right. right. by exists p, prov, ev.
Qed.
End gated.

(** ** A client of the server *)
Section client.
Context {S : Serde} {En : Env S} {St : StorageBackend}.
Context (storage_get : string -> Result bytes) (decode_manifest : bytes -> option ClonepackManifest)
  (hash_to_hex : string -> string) (regions : list string)
  (registry : gmap string ProviderInstance) (signed_url_ttl : N) (read_takes : N -> N -> N)
  (hmac_sha256 : bytes -> bytes -> bytes) (from_slice : bytes -> option Json) (percent_decode : string -> option string)
  (secrets : gmap string string) (version : string).
(** The digest in hex; the text of a JSON body; how a URL writes a path. *)
Context (sha256 : bytes -> string) (to_vec : Json -> bytes) (url_path : string -> string).
Local Abbreviation serve := (serve storage_get decode_manifest hash_to_hex regions registry signed_url_ttl read_takes hmac_sha256
  from_slice percent_decode).
Local Abbreviation handle := (handle storage_get decode_manifest hash_to_hex regions registry signed_url_ttl).

Definition http_method (m : Method) : HttpMethod := match m with MGet => HGet | MPost => HPost | MDelete => HDelete end.
(** What reqwest sends for [s] with the client's default headers. *)
Definition http_request (headers : Headers) (s : Sent) : HttpRequest :=
  {| hr_method := http_method (sn_method s); hr_path := "/v1/repos/" +:+ url_path (sn_path s); hr_query := sn_query s;
     hr_headers := headers; hr_body := Some match sn_body s with Some j => to_vec j | None => [] end |}.

Lemma new_with_token_allowed token : str_all header_text token = true ->
  allowed (Some token) (new_with_token (Some token)).
Proof.
  intros Ht. unfold new_with_token, new_with_auth. cbn [fmap option_fmap option_map mbind option_bind].
  assert (Hr : str_all header_text ("Ripclone " +:+ token) = true) by (by rewrite str_all_app, Ht).
  assert (Hv : header_value ("Ripclone " +:+ token) = Some ("Ripclone " +:+ token)).
  { unfold header_value. replace (str_all _ _) with true; [done|]. symmetry. rewrite str_all_true in Hr |- *. intros c Hc. apply Hr in Hc.
    unfold header_text, byte_in in *. apply orb_true_iff in Hc as [Hc|Hc]; breflect; apply orb_true_iff; [right|left].
    - apply andb_true_iff. rewrite N.leb_le, negb_true_iff, N.eqb_neq. lia.
    - apply andb_true_iff. rewrite !N.leb_le. lia. }
  rewrite Hv. change (header_value (pretty PROTOCOL_VERSION)) with (Some (pretty PROTOCOL_VERSION)). cbv beta iota zeta. split.
  - intros v. rewrite lookup_insert_eq. intros [= <-]. exists (pretty PROTOCOL_VERSION). by vm_compute.
  - intros h [= <-]. unfold header. rewrite lookup_insert_ne, lookup_singleton_eq by done. cbn [mbind option_bind]. unfold to_str. by rewrite Hr.
Qed.

(** C21: a server started with a token, and a client given the hash of it, meet: what the
    client sends to a repository's route passes the gates and the router to that
    route's handler, whose answer it gets, and nothing else happens. *)
Theorem client_served raw_token token probes s (app : App S) :
  server_auth_token_hash sha256 raw_token = Ok token -> (forall data, str_all header_text (sha256 data) = true) ->
  url_path (sn_path s) <> "" -> percent_decode (url_path (sn_path s)) = Some (sn_path s) ->
  (forall j, sn_body s = Some j -> from_slice (to_vec j) = Some j /\ to_vec j <> [] /\ (nlen (to_vec j) <= MAX_REQUEST_BODY_BYTES)%N) ->
  serve (Some token) secrets version probes (http_request (new_with_token (Some token)) s) app =
  let '(sv, a) := handle (receive s) (app_server app) in
  ({| app_server := sv; app_readyz := app_readyz app |}, (match a with Some a => RAnswer a | None => RClosed end, [])).
Proof.
  intros Ht Hsha Hne Hdec Hbody.
  assert (Htext : str_all header_text token = true).
  { unfold server_auth_token_hash in Ht. destruct (option_filter _ raw_token) as [t|]; [|done]. cbn in Ht. injection Ht as <-. apply Hsha. }
  assert (Hroute : route (http_method (sn_method s)) ("/v1/repos/" +:+ url_path (sn_path s)) = inl (ERepos (sn_method s) (url_path (sn_path s)))).
  { unfold route. rewrite !bool_decide_eq_false_2 by done. rewrite strip_prefix_app, bool_decide_eq_false_2 by done. by destruct (sn_method s). }
  rewrite (serve_gated storage_get decode_manifest hash_to_hex regions registry signed_url_ttl read_takes hmac_sha256
    from_slice percent_decode (Some token) secrets version probes (http_request (new_with_token (Some token)) s) app _ Hroute). cbn [protected hr_headers http_request].
  rewrite (proj2 (gates_pass (Some token) _) (new_with_token_allowed token Htext)).
  unfold endpoint, decoded. rewrite Hdec. unfold quiet, on_server, repos. cbn [hr_query http_request hr_body hr_method].
  set (run := fun body => handle {| rq_method := sn_method s; rq_path := sn_path s; rq_query := sn_query s; rq_body := body |} (app_server app)).
  assert (Hrun : run (match sn_method s with MPost => match sn_body s with Some j => JsonBody j | None => NoBody end | _ => NoBody end) = handle (receive s) (app_server app)).
  { unfold run, receive, Routes.handle. cbn. by destruct (sn_method s). }
  assert (Hread : sn_method s = MPost -> read_body from_slice (Some match sn_body s with Some j => to_vec j | None => [] end)
                  = inl match sn_body s with Some j => JsonBody j | None => NoBody end).
  { intros _. unfold read_body. destruct (sn_body s) as [j|]; [|done]. destruct (Hbody j eq_refl) as (Hf & Hn & Hl).
    destruct (N.ltb_spec MAX_REQUEST_BODY_BYTES (nlen (to_vec j))); [lia|]. by rewrite bool_decide_eq_false_2, Hf. }
  unfold run in Hrun. destruct (sn_method s) eqn:Em; cbn [http_method].
  2: rewrite Hread by done.
  all: rewrite Hrun; by destruct (handle (receive s) (app_server app)) as [sv [a|]].
Qed.
End client.

Module ServerExample.
Import ApiExample.
Definition storage : StorageBackend := {| sb_signed_url h := None; sb_size h := Err ""; sb_open_file h := Err ""; sb_get_range h i n := Err "" |}.
Definition registry : gmap string ProviderInstance := {[ "github" := prov ]}.
Definition sha256 (b : bytes) : string := "ab12".
Definition app : App serde := {| app_server := server; app_readyz := None |}.
Definition probes : Probes := {| pb_now := 0; pb_storage := Ok tt; pb_control := Ok tt; pb_metrics := Metrics_new |}.
Definition usage_request : Sent := {| sn_method := MGet; sn_path := "github/acme/demo/usage"; sn_query := []; sn_body := None |}.
Lemma client_served_witness :
  exists sv a, serve (St := storage) (fun _ => Err "") (fun _ => None) (fun h => h) [] registry 3600 (fun _ n => n) (fun _ _ => []) (fun _ => None)
    Some (Some "ab12") ∅ "1" probes (http_request (fun _ => []) (fun p => p) (new_with_token (Some "ab12")) usage_request) app
  = ({| app_server := sv; app_readyz := None |}, (RAnswer a, [])) /\ ans_status a = 200%N.
Proof.
  pose proof (client_served (St := storage) (fun _ => Err "") (fun _ => None) (fun h => h) [] registry 3600 (fun _ n => n) (fun _ _ => []) (fun _ => None)
    Some ∅ "1" sha256 (fun _ => []) (fun p => p) (Some "secret") "ab12" probes usage_request app) as H.
  specialize (H eq_refl (fun _ => eq_refl) ltac:(discriminate) eq_refl ltac:(discriminate)).
  rewrite H. destruct (Routes.handle _ _ _ _ _ _ _ _) as [sv a] eqn:E.
  pose proof (f_equal (fun p => ans_status <$> snd p) E) as Es. vm_compute in Es. destruct a as [a|]; [|discriminate Es].
  injection Es as Es. exists sv, a. by split.
Defined.
(** A request for the repositories that carries another token. *)
Lemma server_gated_witness :
  let req := {| hr_method := HGet; hr_path := "/v1/repos"; hr_query := []; hr_headers := new_with_token (Some "cd34"); hr_body := None |} in
  let out := serve (St := storage) (fun _ => Err "") (fun _ => None) (fun h => h) [] registry 3600 (fun _ n => n) (fun _ _ => []) (fun _ => None)
    Some (Some "ab12") ∅ "1" probes req app in
  app_server out.1 = app_server app /\ out.2 = (RAnswer (error_answer 401 "unauthorized"), []).
Proof.
  intros req out.
  destruct (server_gated (St := storage) (fun _ => Err "") (fun _ => None) (fun h => h) [] registry 3600 (fun _ n => n) (fun _ _ => []) (fun _ => None)
    Some (Some "ab12") ∅ "1" probes req app) as [(H & _)|[(Hp & _)|(p & prov' & ev & (adapter & secret & raw & _ & _ & Hs & _) & _)]].
  - intros [_ H]. specialize (H "ab12" eq_refl). vm_compute in H. discriminate H.
  - split; [exact H|by vm_compute].
  - discriminate Hp.
  - by rewrite lookup_empty in Hs.
Defined.
End ServerExample.
