(* ===== verification/Refresh.v ===== *)
(** Refreshes of one repository's refs ([refresh] and [first_branches] of
    [rust/src/server/refs.rs]): how requests that arrive while one runs are folded
    into one more pass, as steps of the calls at work.

    A step is what a call does between two points where others may run: it sets or
    swaps the flag, tries or drops the lock. A pass ends with any result. [cl_*] of a
    call is its own state; [fo_clock], [fo_requests] and [fo_passes] record when a
    request was made and a pass begun, and no step reads them. Logs are left out. *)

From S2P Require Import Prelude Outputs.

(** ** Calls *)

(** Where a call is. The first row is [refresh]'s, the second [first_branches]'s. *)
Inductive Pc :=
  | PStore | PTry | PSwap | PRun | PDrop | PCheck | PDone
  | PIdle | PIdleHeld | PWait | PHeld.
#[export] Instance Pc_eq_dec : EqDecision Pc.
Proof. solve_decision. Defined.
(** [cl_first]: the call is [first_branches]'s, which waits for the lock after it;
    [cl_last] is [refresh]'s [last]. *)
Record Call := { cl_pc : Pc; cl_first : bool; cl_last : Result unit }.
Definition at_pc (pc : Pc) (c : Call) : Call := {| cl_pc := pc; cl_first := cl_first c; cl_last := cl_last c |}.
Definition refresh_call : Call := {| cl_pc := PStore; cl_first := false; cl_last := Ok tt |}.
(** [first_branches], once it found no branches published. *)
Definition first_branches_call : Call := {| cl_pc := PIdle; cl_first := true; cl_last := Ok tt |}.

Record Folding := {
  fo_wanted : bool;
  fo_running : option nat;  (* the call that holds the lock *)
  fo_calls : list Call;
  fo_clock : nat;
  fo_requests : list nat;
  fo_passes : list nat;
}.
Definition calls_start (calls : list Call) : Folding :=
  {| fo_wanted := false; fo_running := None; fo_calls := calls; fo_clock := 0; fo_requests := []; fo_passes := [] |}.

Definition move (i : nat) (c : Call) (running : option nat) (f : Folding) : Folding :=
  {| fo_wanted := fo_wanted f; fo_running := running; fo_calls := <[i := c]> (fo_calls f);
     fo_clock := S (fo_clock f); fo_requests := fo_requests f; fo_passes := fo_passes f |}.
Definition store_wanted (i : nat) (c : Call) (f : Folding) : Folding :=
  {| fo_wanted := true; fo_running := fo_running f; fo_calls := <[i := at_pc PTry c]> (fo_calls f);
     fo_clock := S (fo_clock f); fo_requests := fo_requests f ++ [fo_clock f]; fo_passes := fo_passes f |}.
Definition begin_pass (i : nat) (c : Call) (f : Folding) : Folding :=
  {| fo_wanted := false; fo_running := fo_running f; fo_calls := <[i := at_pc PRun c]> (fo_calls f);
     fo_clock := S (fo_clock f); fo_requests := fo_requests f; fo_passes := fo_passes f ++ [fo_clock f] |}.
(** What follows [refresh]'s return. *)
Definition returned (c : Call) : Call := at_pc (if cl_first c && is_ok (cl_last c) then PWait else PDone) c.

(** One step of the [i]th call, whose pass ends with [r] if it ends one; none when it
    waits for the lock or is done. *)
Definition advance (i : nat) (r : Result unit) (f : Folding) : option Folding :=
  c ← fo_calls f !! i;
  match cl_pc c with
  | PStore => Some (store_wanted i c f)
  | PTry =>
      Some match fo_running f with
           | None => move i (at_pc PSwap c) (Some i) f
           | Some _ => move i (returned c) (fo_running f) f
           end
  | PSwap => Some (if fo_wanted f then begin_pass i c f else move i (at_pc PDrop c) (fo_running f) f)
  | PRun => Some (move i {| cl_pc := PSwap; cl_first := cl_first c; cl_last := r |} (fo_running f) f)
  | PDrop => Some (move i (at_pc PCheck c) None f)
  | PCheck => Some (move i (if fo_wanted f then at_pc PTry c else returned c) (fo_running f) f)
  | PIdle =>
      Some match fo_running f with
           | None => move i (at_pc PIdleHeld c) (Some i) f
           | Some _ => move i (at_pc PWait c) (fo_running f) f
           end
  | PIdleHeld => Some (move i (at_pc PStore c) None f)
  | PWait => match fo_running f with None => Some (move i (at_pc PHeld c) (Some i) f) | Some _ => None end
  | PHeld => Some (move i (at_pc PDone c) None f)
  | PDone => None
  end.
Definition fold_step (f f' : Folding) : Prop := exists i r, advance i r f = Some f'.

(** ** No request of a refresh is lost *)

(** [i] holds the lock. *)
Definition holds (pc : Pc) : bool := match pc with PSwap | PRun | PDrop | PIdleHeld | PHeld => true | _ => false end.
(** Calls of [refresh] alone. *)
Definition refresh_pc (pc : Pc) : bool := match pc with PIdle | PIdleHeld | PWait | PHeld => false | _ => true end.
(** The call will look at the flag again before it returns. *)
Definition will_look (pc : Pc) : bool := match pc with PTry | PSwap | PRun | PDrop | PCheck => true | _ => false end.

Record fold_ok (f : Folding) : Prop := {
  ok_refresh : Forall (fun c => refresh_pc (cl_pc c) = true /\ cl_first c = false) (fo_calls f);
  ok_holder i c : fo_calls f !! i = Some c -> (holds (cl_pc c) = true <-> fo_running f = Some i);
  ok_running i : fo_running f = Some i -> is_Some (fo_calls f !! i);
  ok_wanted : fo_wanted f = true -> exists i c, fo_calls f !! i = Some c /\ will_look (cl_pc c) = true;
  ok_clock : Forall (fun t => t < fo_clock f) (fo_requests f) /\ Forall (fun p => p < fo_clock f) (fo_passes f);
  ok_covered t : t ∈ fo_requests f -> fo_wanted f = true \/ exists p, p ∈ fo_passes f /\ t < p;
}.
Lemma fold_start_ok n : fold_ok (calls_start (replicate n refresh_call)).
Proof.
  constructor; cbn; try done.
  - by apply Forall_replicate.
  - intros i c [-> _]%lookup_replicate. by cbn.
  - by intros t ?%elem_of_nil.
Qed.

(** What a step of the [i]th call has to show. *)
Lemma step_keeps f i c c' f' :
  fold_ok f -> fo_calls f !! i = Some c -> fo_calls f' = <[i := c']> (fo_calls f) -> fo_clock f' = S (fo_clock f) ->
  refresh_pc (cl_pc c') = true /\ cl_first c' = false ->
  (holds (cl_pc c') = true <-> fo_running f' = Some i) ->
  (forall j, j <> i -> fo_running f' = Some j <-> fo_running f = Some j) ->
  (fo_wanted f' = true -> will_look (cl_pc c') = true \/ exists j d, j <> i /\ fo_calls f !! j = Some d /\ will_look (cl_pc d) = true) ->
  (fo_requests f' = fo_requests f /\ (fo_passes f' = fo_passes f /\ fo_wanted f' = fo_wanted f \/ fo_passes f' = fo_passes f ++ [fo_clock f]) \/
   fo_requests f' = fo_requests f ++ [fo_clock f] /\ fo_passes f' = fo_passes f /\ fo_wanted f' = true) ->
  fold_ok f'.
Proof.
  intros [Hr Hh Hrun Hw [Hc1 Hc2] Hcov] Ec Ecs Eck Hnew Hi Hj Hwant Hghost. constructor.
  - rewrite Ecs. by apply Forall_insert.
  - intros j d. rewrite Ecs. destruct (decide (j = i)) as [->|Hne].
    + rewrite list_lookup_insert_eq by (by eapply lookup_lt_Some). by intros [= <-].
    + rewrite list_lookup_insert_ne by done. intros Hd. rewrite Hj by done. by apply Hh.
  - intros j Hrj. rewrite Ecs. destruct (decide (j = i)) as [->|Hne].
    + rewrite list_lookup_insert_eq by (by eapply lookup_lt_Some). by eexists.
    + rewrite list_lookup_insert_ne by done. by apply Hrun, Hj.
  - intros Ew. rewrite Ecs. destruct (Hwant Ew) as [Hl|(j & d & Hne & Hd & Hl)].
    + exists i, c'. rewrite list_lookup_insert_eq by (by eapply lookup_lt_Some). done.
    + exists j, d. by rewrite list_lookup_insert_ne.
  - rewrite Eck. assert (forall l, Forall (fun t => t < fo_clock f) l -> Forall (fun t => t < S (fo_clock f)) l) as Hm
      by (intros l H; eapply Forall_impl; [exact H|]; cbn; lia).
    destruct Hghost as [[-> [[-> _]| ->]]|(-> & -> & _)]; rewrite ?Forall_app, ?Forall_singleton; auto.
  - intros t. destruct Hghost as [[-> [[-> ->]| ->]]|(-> & -> & ->)].
    + apply Hcov.
    + intros Ht. right. exists (fo_clock f). split; [set_solver|]. by apply (proj1 (Forall_forall _ _) Hc1).
    + auto.
Qed.
(** Some call holds the lock, and will look at the flag again. *)
Lemma holder_looks f j : fold_ok f -> fo_running f = Some j ->
  exists d, fo_calls f !! j = Some d /\ holds (cl_pc d) = true /\ will_look (cl_pc d) = true.
Proof.
  intros Hok Hj. destruct (ok_running f Hok j Hj) as [d Hd]. pose proof (proj2 (ok_holder f Hok j d Hd) Hj) as Hh.
  exists d. split_and!; try done. pose proof (proj1 (Forall_lookup _ _) (ok_refresh f Hok) j d Hd) as [Hp _].
  by destruct (cl_pc d).
Qed.
(** Another call looks, when [i] is at none of the places that do. *)
Lemma other_looks f i c : fold_ok f -> fo_calls f !! i = Some c -> fo_wanted f = true ->
  will_look (cl_pc c) = true \/ exists j d, j <> i /\ fo_calls f !! j = Some d /\ will_look (cl_pc d) = true.
Proof.
  intros Hok Hc Hw. destruct (ok_wanted f Hok Hw) as (j & d & Hd & Hl). destruct (decide (j = i)) as [->|Hne]; [|right; by exists j, d].
  left. congruence.
Qed.
Local Ltac by_step Ec := eapply step_keeps; [eassumption|exact Ec|reflexivity|reflexivity|..]; try done; cbn.
Lemma fold_advance_ok f i r f' : fold_ok f -> advance i r f = Some f' -> fold_ok f'.
Proof.
  intros Hok H. unfold advance in H. destruct (fo_calls f !! i) as [c|] eqn:Ec; [|done]. cbn [mbind option_bind] in H.
  pose proof (proj1 (Forall_lookup _ _) (ok_refresh f Hok) i c Ec) as [Hp Hf].
  pose proof (ok_holder f Hok i c Ec) as Hh. pose proof (other_looks f i c Hok Ec) as Hl.
  destruct (cl_pc c) eqn:Epc; try done; cbn [holds] in Hh; cbn [will_look] in Hl.
  - injection H as <-. by_step Ec; rewrite ?Epc; [by left|by right].
  - destruct (fo_running f) as [j|] eqn:Er; injection H as <-; unfold returned; rewrite ?Hf.
    + destruct (holder_looks f j Hok Er) as (d & Hd & Hhd & Hld).
      assert (j <> i) as Hne by (intros ->; rewrite Ec in Hd; injection Hd as <-; by rewrite Epc in Hhd).
      by_step Ec; rewrite ?Er; eauto 8.
    + by_step Ec; eauto 6. intros j Hne. rewrite Er. split; [by intros [= ->]|done].
  - destruct (fo_wanted f) eqn:Ew; injection H as <-; (by_step Ec; rewrite ?Ew; eauto 6).
  - injection H as <-. by_step Ec; eauto 6.
  - injection H as <-. by_step Ec; eauto 6.
    intros j Hne. split; [done|]. rewrite (proj1 Hh eq_refl). by intros [= ->].
  - injection H as <-. unfold returned. rewrite Hf. cbn [andb].
    destruct (fo_wanted f) eqn:Ew; (by_step Ec; rewrite ?Ew; eauto 6).
Qed.
Lemma fold_steps_ok f f' : fold_ok f -> rtc fold_step f f' -> fold_ok f'.
Proof. intros Hok H. induction H as [|f f1 f2 (i & r & Hs) _ IH]; [done|]. by eapply IH, fold_advance_ok. Qed.

(** ** It ends *)

(** How much a call may still do: every store and every pass gives each call a turn
    round its loop, and without them it only goes on to its end. *)
Definition is_store (c : Call) : nat := if bool_decide (cl_pc c = PStore) then 1 else 0.
Definition stores_left (f : Folding) : nat := sum_list_with is_store (fo_calls f).
Definition turns_left (f : Folding) : nat := 2 * stores_left f + if fo_wanted f then 1 else 0.
Definition place (wanted : bool) (pc : Pc) : nat :=
  match pc with
  | PStore => 19
  | PRun => 15
  | PDrop => if wanted then 6 else 8
  | PCheck => if wanted then 5 else 7
  | PTry => if wanted then 4 else 10
  | PSwap => if wanted then 3 else 9
  | _ => 0
  end.
Definition call_left (turns : nat) (wanted : bool) (c : Call) : nat :=
  if bool_decide (cl_pc c = PDone) then 0 else 20 * turns + place wanted (cl_pc c).
Definition steps_left (f : Folding) : nat := sum_list_with (call_left (turns_left f) (fo_wanted f)) (fo_calls f).

Lemma place_bound wanted pc : place wanted pc <= 19.
Proof. destruct pc, wanted; cbn; lia. Qed.
(** A step that takes a turn, or moves its call on with the flag as it was. *)
Lemma steps_left_decreases f f' i c c' :
  fo_calls f !! i = Some c -> fo_calls f' = <[i := c']> (fo_calls f) -> cl_pc c <> PDone ->
  turns_left f' < turns_left f \/
  turns_left f' = turns_left f /\ fo_wanted f' = fo_wanted f /\
    (cl_pc c' = PDone /\ 0 < place (fo_wanted f) (cl_pc c) \/ place (fo_wanted f) (cl_pc c') < place (fo_wanted f) (cl_pc c)) ->
  steps_left f' < steps_left f.
Proof.
  intros Hc Hcs Hne H. unfold steps_left. rewrite Hcs. apply sum_list_insert_lt with (x := c); [|exact Hc|].
  - intros x. unfold call_left. case_bool_decide; [done|]. destruct H as [H|(-> & -> & _)]; [|done]. pose proof (place_bound (fo_wanted f') (cl_pc x)). lia.
  - unfold call_left. rewrite (bool_decide_eq_false_2 (cl_pc c = PDone)) by done. pose proof (place_bound (fo_wanted f') (cl_pc c')).
    destruct H as [H|(-> & -> & [[H ?]|?])]; [case_bool_decide; lia|rewrite bool_decide_eq_true_2 by done; lia|case_bool_decide; lia].
Qed.
Lemma move_decreases f i c c' run : fo_calls f !! i = Some c -> cl_pc c <> PStore -> cl_pc c <> PDone -> cl_pc c' <> PStore ->
  cl_pc c' = PDone /\ 0 < place (fo_wanted f) (cl_pc c) \/ place (fo_wanted f) (cl_pc c') < place (fo_wanted f) (cl_pc c) ->
  steps_left (move i c' run f) < steps_left f /\
  length (fo_requests (move i c' run f)) + stores_left (move i c' run f) = length (fo_requests f) + stores_left f.
Proof.
  intros Hc Hs Hd Hs' Hp. pose proof (sum_list_insert is_store (fo_calls f) i c c' Hc) as E. unfold is_store at 2 4 in E. rewrite (bool_decide_eq_false_2 (cl_pc c = _)), (bool_decide_eq_false_2 (cl_pc c' = _)) in E by done. cbv beta iota in E.
  assert (stores_left (move i c' run f) = stores_left f) as Es by (unfold stores_left; cbn [fo_calls move]; lia).
  split; [|rewrite Es; done]. eapply steps_left_decreases; [exact Hc|reflexivity|done|]. right. unfold turns_left. rewrite Es. auto.
Qed.
Lemma advance_decreases f i r f' : fold_ok f -> advance i r f = Some f' ->
  steps_left f' < steps_left f /\ length (fo_requests f') + stores_left f' = length (fo_requests f) + stores_left f.
Proof.
  intros Hok H. unfold advance in H. destruct (fo_calls f !! i) as [c|] eqn:Ec; [|done]. cbn [mbind option_bind] in H.
  pose proof (proj1 (Forall_lookup _ _) (ok_refresh f Hok) i c Ec) as [Hp Hf].
  destruct (cl_pc c) eqn:Epc; try done.
  - injection H as <-. pose proof (sum_list_insert is_store (fo_calls f) i c (at_pc PTry c) Ec) as E. unfold is_store at 2 4 in E. rewrite Epc in E. cbn [cl_pc at_pc] in E.
    rewrite bool_decide_eq_true_2, bool_decide_eq_false_2 in E by done. cbv beta iota in E.
    assert (stores_left (store_wanted i c f) + 1 = stores_left f) as Es by (unfold stores_left; cbn [fo_calls store_wanted]; lia).
    split; [|change (fo_requests (store_wanted i c f)) with (fo_requests f ++ [fo_clock f]); rewrite length_app; cbn [length]; lia].
    eapply steps_left_decreases; [exact Ec|reflexivity|by rewrite Epc|]. left. unfold turns_left. cbn [fo_wanted store_wanted].
    destruct (fo_wanted f); lia.
  - destruct (fo_running f); injection H as <-; apply (move_decreases f i c); rewrite ?Epc; unfold returned; rewrite ?Hf; cbn; try done;
      destruct (fo_wanted f); cbn; auto with lia.
  - destruct (fo_wanted f) eqn:Ew; injection H as <-.
    + pose proof (sum_list_insert is_store (fo_calls f) i c (at_pc PRun c) Ec) as E. unfold is_store at 2 4 in E. rewrite Epc in E. cbn [cl_pc at_pc] in E. rewrite !bool_decide_eq_false_2 in E by done. cbv beta iota in E.
      assert (stores_left (begin_pass i c f) = stores_left f) as Es by (unfold stores_left; cbn [fo_calls begin_pass]; lia).
      split; [|change (fo_requests (begin_pass i c f)) with (fo_requests f); lia]. eapply steps_left_decreases; [exact Ec|reflexivity|by rewrite Epc|]. left.
      unfold turns_left. rewrite Ew. cbn [fo_wanted begin_pass]. lia.
    + apply (move_decreases f i c); rewrite ?Epc, ?Ew; cbn; try done. right. lia.
  - injection H as <-. apply (move_decreases f i c); rewrite ?Epc; cbn; try done. right. destruct (fo_wanted f); lia.
  - injection H as <-. apply (move_decreases f i c); rewrite ?Epc; cbn; try done. right. destruct (fo_wanted f); lia.
  - injection H as <-. unfold returned. rewrite Hf. destruct (fo_wanted f) eqn:Ew; apply (move_decreases f i c); rewrite ?Epc, ?Ew; cbn; auto with lia.
Qed.

(** C34: however refreshes of a repository interleave and their passes end, they end,
    within so many steps; none waits for the lock; and when all have returned every
    request was followed by a pass that began after it, and the lock is free. *)
Theorem refreshes_folded n k f : nsteps fold_step k (calls_start (replicate n refresh_call)) f ->
  k <= n * (40 * n + 19) /\
  ((forall f', ~ fold_step f f') ->
     Forall (fun c => cl_pc c = PDone) (fo_calls f) /\ fo_running f = None /\ length (fo_requests f) = n /\
     forall t, t ∈ fo_requests f -> exists p, p ∈ fo_passes f /\ t < p).
Proof.
  intros H. set (f0 := calls_start (replicate n refresh_call)) in *.
  assert (Hk : fold_ok f /\ k + steps_left f <= steps_left f0 /\ length (fo_requests f) + stores_left f = length (fo_requests f0) + stores_left f0).
  { assert (Hok : fold_ok f0) by apply fold_start_ok. clearbody f0. induction H as [f0|k f0 f1 f (i & r & Hs) _ IH]; [split_and!; (done || lia)|].
    destruct (advance_decreases _ _ _ _ Hok Hs) as [Hd Hr]. destruct (IH (fold_advance_ok _ _ _ _ Hok Hs)) as (H1 & H2 & H3). split_and!; [done|lia|lia]. }
  destruct Hk as (Hok & Hk & Hreq).
  pose proof (fun g => sum_list_replicate g n refresh_call) as Hn.
  assert (stores_left f0 = n) as Es by (unfold stores_left; change (fo_calls f0) with (replicate n refresh_call); rewrite Hn; change (is_store refresh_call) with 1; lia).
  split.
  { assert (steps_left f0 = n * (40 * n + 19)); [|lia]. unfold steps_left, turns_left. rewrite Es.
    change (fo_calls f0) with (replicate n refresh_call). change (fo_wanted f0) with false. rewrite Hn.
    change (call_left (2 * n + 0) false refresh_call) with (20 * (2 * n + 0) + 19). f_equal. lia. }
  intros Hstuck. assert (Hdone : Forall (fun c => cl_pc c = PDone) (fo_calls f)).
  { apply Forall_lookup. intros i c Hc. destruct (decide (cl_pc c = PDone)) as [|Hne]; [done|]. exfalso.
    pose proof (proj1 (Forall_lookup _ _) (ok_refresh f Hok) i c Hc) as [Hp _].
    destruct (advance i (Ok tt) f) as [f'|] eqn:E; [by apply (Hstuck f'); exists i, (Ok tt)|].
    unfold advance in E. rewrite Hc in E. cbn in E. by destruct (cl_pc c). }
  assert (Hgone : forall i c, fo_calls f !! i = Some c -> cl_pc c = PDone) by (intros i c Hc; by apply (proj1 (Forall_lookup _ _) Hdone i c)).
  split_and!; [done| | |].
  - destruct (fo_running f) as [i|] eqn:Er; [|done]. destruct (holder_looks f i Hok Er) as (c & Hc & Hh & _). by rewrite (Hgone _ _ Hc) in Hh.
  - assert (stores_left f = 0) as E0.
    { unfold stores_left. clear -Hdone. induction Hdone as [|c l Hc _ IH]; [done|].
      change (is_store c + sum_list_with is_store l = 0). rewrite IH. unfold is_store. by rewrite Hc. }
    rewrite E0, Es in Hreq. cbn in Hreq. lia.
  - intros t Ht. destruct (ok_covered f Hok t Ht) as [Hw|Hp]; [|done].
    destruct (ok_wanted f Hok Hw) as (i & c & Hc & Hl). by rewrite (Hgone _ _ Hc) in Hl.
Qed.

Module RefreshExample.
(** Runs of the calls named, each a step; passes succeed. *)
Definition run (moves : list nat) (f : Folding) : option Folding :=
  foldl (fun f i => f ≫= advance i (Ok tt)) (Some f) moves.
Lemma run_steps moves f f' : run moves f = Some f' -> nsteps fold_step (length moves) f f'.
Proof.
  revert f. induction moves as [|i moves IH]; intros f H; cbn in *.
  - injection H as <-. constructor.
  - destruct (advance i (Ok tt) f) as [f1|] eqn:E.
    + econstructor; [by exists i, (Ok tt)|]. apply IH. exact H.
    + exfalso. clear -H. induction moves; cbn in *; [done|]. auto.
Qed.
(** Two refreshes: the second asks while the first's pass runs, which runs again. *)
Definition both : list nat := [0; 0; 0; 1; 1; 0; 0; 0; 0; 0; 0].
Lemma refreshes_folded_witness :
  exists f, nsteps fold_step 11 (calls_start (replicate 2 refresh_call)) f /\ length (fo_passes f) = 2 /\
    forall t, t ∈ fo_requests f -> exists p, p ∈ fo_passes f /\ t < p.
Proof.
  destruct (run both (calls_start (replicate 2 refresh_call))) as [f|] eqn:E; [|by vm_compute in E].
  exists f. pose proof (run_steps _ _ _ E) as Hs. destruct (refreshes_folded 2 11 f Hs) as [_ H].
  vm_compute in E. injection E as <-. split; [exact Hs|]. split; [done|]. apply H.
  intros f' (i & r & Ha). destruct i as [|[|i]]; cbn in Ha; discriminate Ha.
Defined.
(** A request that meets [first_branches] letting the lock go, after the running
    refresh last looked for one, has no pass after it. *)
Lemma refresh_lost :
  exists f, rtc fold_step (calls_start [refresh_call; first_branches_call; refresh_call]) f /\
    Forall (fun c => cl_pc c = PDone /\ cl_last c = Ok tt) (fo_calls f) /\ fo_wanted f = true /\
    exists t, t ∈ fo_requests f /\ forall p, p ∈ fo_passes f -> p < t.
Proof.
  set (moves := [0; 0; 0; 0; 1; 0; 0; 1; 2; 2; 0; 0; 1]).
  destruct (run moves (calls_start [refresh_call; first_branches_call; refresh_call])) as [f|] eqn:E; [|by vm_compute in E].
  exists f. split; [eapply rtc_nsteps_2, run_steps, E|]. vm_compute in E. injection E as <-.
  split; [by repeat constructor|]. split; [done|]. exists 8. split; [by repeat constructor|].
  intros p Hp. cbn in Hp. apply list_elem_of_singleton in Hp as ->. lia.
Qed.
End RefreshExample.
