(* ===== verification/Poller.v ===== *)
(** The polling fallback ([rust/src/server/poller.rs]) over the API's resolving and
    admitting ([Api.v]) and the published refs' question ([RefsPublish.v]).

    A refresh that a poll asks for is part of its result: what a refresh publishes is
    [RefsPublish.publish_pinned], and how requests for it fold together is in
    [Refresh.v]. A pass polls up to [POLL_CONCURRENCY] repositories at once; here one
    after another, with whatever the others do between a poll's calls of the control
    store in [env_others]. *)

From S2P Require Import Prelude Bytes Provider Validation Outputs Cas Control ControlInv ControlThms Tags Refs RefsPublish LsRemote Wire Api ApiThms ApiBuild.

Section poller.
Context {S : Serde} {En : Env S} (hash : bytes -> string) (registry : gmap string ProviderInstance).
Local Abbreviation Server := (Server S).

Definition POLL_CONCURRENCY : nat := 8.

Definition resolve_head_and_refs (repo_id : RepoId) (prov : ProviderInstance) : Api (Resolved * UpstreamRefs) :=
  resolve_listing repo_id prov SHead true.

(** Whether a build was admitted, and whether the refs are refreshed. *)
Definition poll_repo (repo_id : RepoId) : Server -> Server * (bool * bool) := fun sv =>
  match registry !! provider repo_id with
  | None => (sv, (false, false))
  | Some prov =>
      match resolve_head_and_refs repo_id prov sv with
      | (sv, inr _) => (sv, (false, false))
      | (sv, inl (resolved, refs)) =>
          let '(sv, admitted) := Api.admit_build repo_id (re_commit resolved) (re_ref_name resolved) false sv in
          let '(sv, differ) := query (changed hash repo_id refs) sv in
          (sv, (match admitted with Ok (_, inserted) => inserted | Err _ => false end,
                match differ with Ok again => again | Err _ => false end))
      end
  end.

(** [filter] of what [seen.insert] takes. *)
Fixpoint unseen (seen : gset string) (repos : list RepoId) : list RepoId :=
  match repos with
  | [] => []
  | repo :: repos =>
      if decide (storage_key repo ∈ seen) then unseen seen repos
      else repo :: unseen ({[ storage_key repo ]} ∪ seen) repos
  end.

Fixpoint poll_all (repos : list RepoId) (sv : Server) : Server * list (RepoId * bool * bool) :=
  match repos with
  | [] => (sv, [])
  | repo :: repos =>
      let '(sv, (admitted, again)) := poll_repo repo sv in
      let '(sv, polled) := poll_all repos sv in (sv, (repo, admitted, again) :: polled)
  end.
(** The number of builds admitted, and the repositories refreshed. *)
Definition poll_once (sv : Server) : Server * (nat * list RepoId) :=
  match query list_repos sv with
  | (sv, Err _) => (sv, (0, []))
  | (sv, Ok repos) =>
      let '(sv, polled) := poll_all (unseen ∅ (map repo_id repos)) sv in
      (sv, (length (List.filter (fun p => p.1.2) polled), map (fun p => p.1.1) (List.filter snd polled)))
  end.
End poller.

(** ** Admitting *)
Definition keys {S : Serde} (st : Store) : list (string * string) := map row_key (builds st).

Section admission.
Context {S : Serde} {SOk : SerdeOk S} (cfg : StoreConfig) (Hmax : (0 <= max_attempts cfg)%Z).
Lemma keys_update_where p f (rows : list Row) : (forall r, row_key (f r) = row_key r) -> map row_key (update_where p f rows) = map row_key rows.
Proof. intros Hf. unfold update_where. rewrite map_map. apply map_ext. intros r. by case_match. Qed.
Lemma existsb_key repo commit (st : Store) : existsb (is_key repo commit) (builds st) = bool_decide ((repo, commit) ∈ keys st).
Proof.
  apply eq_true_iff_eq. rewrite bool_decide_eq_true, existsb_elem. unfold keys. rewrite list_elem_of_fmap. split.
  - intros (r & Hr & Hk%is_key_true). by exists r.
  - intros (r & Hk & Hr). exists r. split; [done|]. by apply is_key_true.
Qed.
(** An admission succeeds, adds the commit's row when it has none and touches no
    other key, refs or repository. *)
Lemma admit_complete now repo commit ref_name (st : Store) :
  repo_ok repo -> store_ok cfg st -> validate_object_id commit = Ok tt -> check_ref ref_name = Ok tt ->
  let known := bool_decide ((storage_key repo, commit) ∈ keys st) in
  let p := Control.admit_build now repo commit ref_name st in
  (exists row, p.2 = Ok (row, negb known)) /\
  keys p.1 = keys st ++ (if known then [] else [(storage_key repo, commit)]) /\
  repo_refs p.1 = repo_refs st /\ added_repos p.1 = added_repos st.
Proof.
  intros Hrepo Hok Hid Href. cbv zeta.
  pose proof (admit_ok cfg now repo commit ref_name st Hmax Hrepo Hok) as Hok'.
  unfold Control.admit_build in *. rewrite Hid, Href in *. cbn [rbind] in *. rewrite existsb_key in *.
  set (known := bool_decide ((storage_key repo, commit) ∈ keys st)) in *. cbv zeta in *.
  set (rows := if negb known then _ else _) in *.
  assert (Hk : map row_key rows = keys st ++ if known then [] else [(storage_key repo, commit)]).
  { unfold rows. destruct known; cbn [negb]; [|by rewrite map_app]. rewrite app_nil_r. destruct ref_name; [|done].
    by apply keys_update_where. }
  assert (Hin : exists r, r ∈ rows /\ row_key r = (storage_key repo, commit)).
  { assert ((storage_key repo, commit) ∈ map row_key rows) as (r & Hr & Hin)%list_elem_of_fmap.
    - rewrite Hk. destruct known eqn:E; unfold known in E; [apply bool_decide_eq_true in E|]; set_solver.
    - by exists r. }
  destruct Hin as (r & Hin & Hr). destruct (find_build _ _ _) as [r'|] eqn:Ef; cbn [fst snd] in *.
  - apply find_build_row in Ef as [Hr' _]. destruct (decode_build_ok cfg r' (row_is_ok cfg _ _ Hok' Hr')) as (b & -> & _).
    split; [by exists b|done].
  - eapply find_None in Ef; [|exact Hin]. apply is_key_true in Hr. congruence.
Qed.
End admission.

(** ** Upstream's head *)
Lemma tip_line_ids l : forall d adv d' adv',
  (forall a, a ∈ adv -> validate_object_id a.2 = Ok tt) -> try_fold tip_line (d, adv) l = Ok (d', adv') ->
  forall a, a ∈ adv' -> validate_object_id a.2 = Ok tt.
Proof.
  induction l as [|line l IH]; intros d adv d' adv' Hadv H; [by injection H as <- <-|]. cbn [try_fold] in H.
  unfold tip_line in H at 1. destruct (symbolic_head line); [by eapply IH|]. destruct (starts_with _ line); [done|].
  destruct (context _ _) as [[sha remote_ref]|]; [|done]. cbn [rbind] in H. destruct (validate_object_id (trim sha)) as [[]|] eqn:E; [|done].
  cbn [is_ok rbind] in H. eapply IH; [|exact H]. intros a [Ha|Ha]%elem_of_app; [by apply Hadv|].
  apply elem_of_cons in Ha as [->|[]%elem_of_nil]. done.
Qed.
Lemma parsed_tip_id stdout cands tip : parse_ls_remote_output stdout cands = Ok (Some tip) -> validate_object_id (tip_commit tip) = Ok tt.
Proof.
  unfold parse_ls_remote_output. intros H. destruct (try_fold _ _ _) as [[d adv]|] eqn:E; [|done]. cbn in H. injection H as H.
  apply first_some_Some in H as (c & _ & H). unfold find_tip in H. destruct (List.find _ adv) as [[r sha]|] eqn:Ef; [|done].
  injection H as <-. apply find_some in Ef as [Hin _]. apply list_elem_of_In in Hin.
  pose proof (tip_line_ids _ None [] _ _ ltac:(by intros a ?%elem_of_nil) E) as H. by apply (H (r, sha)).
Qed.

Section thms.
Context {S : Serde} {SOk : SerdeOk S} (cfg : StoreConfig) (Hmax : (1 <= max_attempts cfg)%Z).
Context {En : Env S} (hash : bytes -> string) (registry : gmap string ProviderInstance).
Local Abbreviation Server := (Server S).
(** Nothing else uses the control store, and it answers. *)
Definition idle : Prop := (forall n st, env_others n st = st) /\ forall n, env_available n = true.
Context (Hidle : idle).

(** Upstream's listing of an added repository: its head's commit and its refs. *)
Definition upstream_head (repo : RepoId) (commit : string) (refs : UpstreamRefs) : Prop :=
  exists prov credential tip, registry !! provider repo = Some prov /\ env_credentials repo = Ok credential /\
    ls_remote_refs env_base64 env_git_ls_remote prov repo credential env_origin_base = inl (Some tip, refs) /\
    commit = tip_commit tip.

Lemma call_idle {A} (f : Z -> Store -> Store * Result A) sv :
  call f sv = ({| sv_store := (f (env_now (sv_calls sv)) (sv_store sv)).1; sv_calls := (sv_calls sv + 1)%nat;
                  sv_wakes := sv_wakes sv; sv_ancestry := sv_ancestry sv |}, (f (env_now (sv_calls sv)) (sv_store sv)).2).
Proof. unfold call. destruct Hidle as [-> ->]. by destruct (f _ _). Qed.
Lemma query_idle {A} (f : Store -> Result A) sv : exists sv', query f sv = (sv', f (sv_store sv)) /\ sv_store sv' = sv_store sv.
Proof. unfold query. rewrite call_idle. by eexists. Qed.

(** [sv'] is [sv] after a call. *)
Lemma admit_idle sv repo commit ref_name :
  repo_ok repo -> store_ok cfg (sv_store sv) -> validate_object_id commit = Ok tt -> check_ref ref_name = Ok tt ->
  let known := bool_decide ((storage_key repo, commit) ∈ keys (sv_store sv)) in
  exists sv' row, Api.admit_build repo commit ref_name false sv = (sv', Ok (row, negb known)) /\
    store_ok cfg (sv_store sv') /\
    keys (sv_store sv') = keys (sv_store sv) ++ (if known then [] else [(storage_key repo, commit)]) /\
    repo_refs (sv_store sv') = repo_refs (sv_store sv) /\ added_repos (sv_store sv') = added_repos (sv_store sv).
Proof.
  intros Hrepo Hok Hid Href. cbv zeta. unfold Api.admit_build, sbind. rewrite call_idle.
  set (now := env_now (sv_calls sv)).
  destruct (admit_complete cfg ltac:(lia) now repo commit ref_name _ Hrepo Hok Hid Href) as ([row ->] & Hk & Hr & Ha).
  pose proof (admit_ok cfg now repo commit ref_name (sv_store sv) ltac:(lia) Hrepo Hok) as Hok'.
  cbv zeta in *. cbn [andb]. unfold sret.
  destruct (is_pending (br_head row)), (is_pending (br_files row)), (is_done (br_head row) && is_pending (br_full row)); cbn;
    (eexists _, row; split; [reflexivity|]; cbn; done).
Qed.

Lemma upstream_head_det repo commit refs commit' refs' :
  upstream_head repo commit refs -> upstream_head repo commit' refs' -> commit = commit' /\ refs = refs'.
Proof.
  intros (prov & c & tip & H1 & H2 & H3 & ->) (prov' & c' & tip' & H1' & H2' & H3' & ->).
  rewrite H1 in H1'. injection H1' as <-. rewrite H2 in H2'. injection H2' as <-. rewrite H3 in H3'. by injection H3' as <- <-.
Qed.
Lemma resolve_run repo prov sv : registry !! provider repo = Some prov ->
  match resolve_head_and_refs repo prov sv with
  | (sv', inl (resolved, refs)) => sv' = sv /\ upstream_head repo (re_commit resolved) refs /\
      check_ref (re_ref_name resolved) = Ok tt /\ validate_object_id (re_commit resolved) = Ok tt
  | (sv', inr _) => sv' = sv /\ forall commit refs, ~ upstream_head repo commit refs
  end.
Proof.
  intros Hp. unfold resolve_head_and_refs, resolve_listing, abind, or_refuse, lift.
  destruct (env_credentials repo) as [credential|e] eqn:Ec.
  2: { split; [done|]. intros commit refs (? & c & ? & ? & H & _). congruence. }
  change (true && bool_decide ("HEAD" = "HEAD")) with true. cbn iota.
  destruct (ls_remote_refs _ _ _ _ _ _) as [[[tip|] refs]|error] eqn:El.
  - split; [done|]. split; [by exists prov, credential, tip|]. split.
    + cbn [re_ref_name]. by destruct (option_filter _ _).
    + cbn [re_commit]. unfold ls_remote_refs in El. destruct (of_result _) as [|]; [|done]. cbn [gbind] in El.
      destruct (upstream_url_and_auth _ _ _ _) as [url args]. destruct (run_ls_remote _ _ _ _ _) as [stdout|]; [|done]. cbn [gbind] in El.
      destruct (parse_ls_remote_output stdout _) as [t|] eqn:Et; [|done]. injection El as -> _. by eapply parsed_tip_id.
  - split; [done|]. intros commit refs' (p & c & t & ? & ? & H & _). simplify_eq. congruence.
  - split; [done|]. intros commit refs' (p & c & t & ? & ? & H & _). simplify_eq. congruence.
Qed.

(** [sv'] is [sv] after polls that added the rows [new]. *)
Definition polled_to (sv sv' : Server) (new : list (string * string)) : Prop :=
  store_ok cfg (sv_store sv') /\ keys (sv_store sv') = keys (sv_store sv) ++ new /\
  repo_refs (sv_store sv') = repo_refs (sv_store sv) /\ added_repos (sv_store sv') = added_repos (sv_store sv).
Lemma changed_refs repo refs (st st' : Store) : repo_refs st' = repo_refs st -> changed hash repo refs st' = changed hash repo refs st.
Proof. intros H. unfold changed, get_refs. by rewrite H. Qed.
Lemma poll_repo_run repo sv : repo_ok repo -> store_ok cfg (sv_store sv) ->
  exists sv' admitted again new, poll_repo hash registry repo sv = (sv', (admitted, again)) /\ polled_to sv sv' new /\
    ((exists commit refs, upstream_head repo commit refs /\
        let known := bool_decide ((storage_key repo, commit) ∈ keys (sv_store sv)) in
        admitted = negb known /\ new = (if known then [] else [(storage_key repo, commit)]) /\
        (again = true <-> changed hash repo refs (sv_store sv) = Ok true))
     \/ ((forall commit refs, ~ upstream_head repo commit refs) /\ admitted = false /\ again = false /\ new = [])).
Proof.
  intros Hrepo Hok. unfold poll_repo. destruct (registry !! provider repo) as [prov|] eqn:Ep.
  2: { exists sv, false, false, []. split; [done|]. split; [by split_and!; rewrite ?app_nil_r|]. right. split_and!; [|done..].
    intros commit refs (? & ? & ? & H & _). congruence. }
  pose proof (resolve_run repo prov sv Ep) as H. destruct (resolve_head_and_refs repo prov sv) as [sv1 [[resolved refs]|e]].
  2: { destruct H as [-> H]. exists sv, false, false, []. split; [done|]. split; [by split_and!; rewrite ?app_nil_r|]. by right. }
  destruct H as (-> & Hup & Href & Hid).
  destruct (admit_idle sv repo _ _ Hrepo Hok Hid Href) as (sv1 & row & -> & Hok1 & Hk1 & Hr1 & Ha1).
  destruct (query_idle (changed hash repo refs) sv1) as (sv2 & -> & Hs2). rewrite (changed_refs _ _ _ _ Hr1).
  eexists sv2, _, _, _. split; [reflexivity|]. split; [unfold polled_to; rewrite Hs2; split_and!; [done|exact Hk1|done|done]|].
  left. exists (re_commit resolved), refs. split; [done|]. cbv zeta. split_and!; [done|done|].
  destruct (changed hash repo refs (sv_store sv)) as [[]|]; naive_solver.
Qed.

Lemma polled_to_trans sv1 sv2 sv3 new new' : polled_to sv1 sv2 new -> polled_to sv2 sv3 new' -> polled_to sv1 sv3 (new ++ new').
Proof. intros (? & H1 & H2 & H3) (? & H1' & H2' & H3'). split_and!; [done|by rewrite H1', H1, app_assoc|congruence..]. Qed.
(** The rows a pass over [repos] adds: upstream's heads that had none. *)
Definition due (repos : list RepoId) (st : Store) (key : string * string) : Prop :=
  key ∉ keys st /\ exists repo commit refs, repo ∈ repos /\ upstream_head repo commit refs /\ key = (storage_key repo, commit).
Definition outdated (repo : RepoId) (st : Store) : Prop :=
  exists commit refs, upstream_head repo commit refs /\ changed hash repo refs st = Ok true.
Lemma poll_all_run repos : forall sv, Forall repo_ok repos -> store_ok cfg (sv_store sv) ->
  exists sv' polled new, poll_all hash registry repos sv = (sv', polled) /\ polled_to sv sv' new /\
    length new = length (List.filter (fun p => p.1.2) polled) /\
    (forall key, key ∈ new <-> due repos (sv_store sv) key) /\
    (forall repo, repo ∈ map (fun p => p.1.1) (List.filter snd polled) <-> repo ∈ repos /\ outdated repo (sv_store sv)).
Proof.
  induction repos as [|repo repos IH]; intros sv Hrepos Hok.
  { exists sv, [], []. split; [done|]. split; [by split_and!; rewrite ?app_nil_r|]. split; [done|]. unfold due. set_solver. }
  apply Forall_cons in Hrepos as [Hrepo Hrepos]. cbn [poll_all].
  destruct (poll_repo_run repo sv Hrepo Hok) as (sv1 & admitted & again & new & -> & Hto & Hcase).
  pose proof Hto as (Hok1 & Hk1 & Hr1 & Ha1).
  destruct (IH sv1 Hrepos Hok1) as (sv2 & polled & new' & -> & Hto' & Hlen & Hnew & Hre).
  exists sv2, ((repo, admitted, again) :: polled), (new ++ new'). split; [done|]. split; [by eapply polled_to_trans|].
  assert (Hout : forall r, outdated r (sv_store sv1) <-> outdated r (sv_store sv)).
  { intros r. unfold outdated. by setoid_rewrite (changed_refs r _ _ _ Hr1). }
  assert (Hhead : length new = (if admitted then 1 else 0) /\
    (forall key, key ∈ new <-> due [repo] (sv_store sv) key) /\ (again = true <-> outdated repo (sv_store sv))).
  { destruct Hcase as [(commit & refs & Hup & -> & -> & Hag)|(Hno & -> & -> & ->)].
    - split_and!.
      + by case_bool_decide.
      + intros key. unfold due. split.
        * case_bool_decide; [set_solver|]. intros ->%list_elem_of_singleton. split; [done|]. exists repo, commit, refs. set_solver.
        * intros (Hkey & r & c & rf & ->%list_elem_of_singleton & Hup' & ->). destruct (upstream_head_det _ _ _ _ _ Hup Hup') as [-> ->].
          rewrite bool_decide_eq_false_2 by done. set_solver.
      + rewrite Hag. split; [intros; by exists commit, refs|]. intros (c & rf & Hup' & Hc).
        by destruct (upstream_head_det _ _ _ _ _ Hup Hup') as [-> ->].
    - split_and!; [done| |].
      + intros key. split; [set_solver|]. intros (_ & r & c & rf & ->%list_elem_of_singleton & Hup' & _). by apply Hno in Hup'.
      + split; [done|]. intros (c & rf & Hup' & _). by apply Hno in Hup'. }
  destruct Hhead as (Hl & Hn & Hag). split_and!.
  - rewrite length_app, Hl, Hlen. by destruct admitted.
  - intros key. rewrite elem_of_app, Hn, Hnew. unfold due. rewrite Hk1. split.
    + intros [(H1 & r & c & rf & ->%list_elem_of_singleton & H2)|(H1 & r & c & rf & Hr & H2)].
      * split; [done|]. exists repo, c, rf. split; [by apply elem_of_cons; left|done].
      * split; [intros H; by apply H1, elem_of_app; left|]. exists r, c, rf. split; [by apply elem_of_cons; right|done].
    + intros (H1 & r & c & rf & Hr & H2). destruct (decide (key ∈ new)) as [Hin|Hin]; [left; by apply Hn|].
      apply elem_of_cons in Hr as [->|Hr]; [left|right]; (split; [by rewrite ?elem_of_app; intuition|]).
      * exists repo, c, rf. split; [by apply list_elem_of_singleton|done].
      * by exists r, c, rf.
  - intros r. cbn [List.filter snd]. destruct again; cbn [map fst]; rewrite ?elem_of_cons, Hre, Hout; set_solver.
Qed.

(** ** A pass *)
Definition added (repo : RepoId) (st : Store) : Prop := exists repos, list_repos st = Ok repos /\ repo ∈ map repo_id repos.
Lemma listed_ok (st : Store) repos : list_repos st = Ok repos -> Forall repo_ok (map repo_id repos).
Proof.
  unfold list_repos. intros H%collect_ok. apply Forall_fmap. eapply Forall2_Forall_r; [exact H|].
  apply Forall_forall. intros [key a] _ r Hr. unfold decode_added_repo in Hr.
  destruct (from_storage_key key) as [repo|] eqn:E; [|done]. injection Hr as <-. cbn. by apply storage_key_roundtrip in E as [? _].
Qed.
Lemma elem_of_unseen repos : forall seen repo, Forall repo_ok repos ->
  repo ∈ unseen seen repos <-> repo ∈ repos /\ storage_key repo ∉ seen.
Proof.
  induction repos as [|r repos IH]; intros seen repo Hok; cbn [unseen]; [set_solver|]. apply Forall_cons in Hok as [Hr Hok].
  assert (Hinj : repo ∈ repos -> storage_key repo = storage_key r -> repo = r).
  { intros Hin Hk. rewrite Forall_forall in Hok. by apply storage_key_inj; [apply Hok| |]. }
  case_decide; rewrite ?elem_of_cons, IH by done; [naive_solver|]. rewrite not_elem_of_union, not_elem_of_singleton.
  destruct (decide (repo = r)) as [->|Hne]; naive_solver.
Qed.
Lemma unseen_ok repos seen : Forall repo_ok repos -> Forall repo_ok (unseen seen repos).
Proof. intros Hok. apply Forall_forall. intros r [Hr _]%elem_of_unseen; [|done]. rewrite Forall_forall in Hok. by apply Hok. Qed.
Lemma poll_once_run sv : store_ok cfg (sv_store sv) ->
  exists sv' n refreshed new, poll_once hash registry sv = (sv', (n, refreshed)) /\ polled_to sv sv' new /\ length new = n /\
    (forall key, key ∈ new <-> key ∉ keys (sv_store sv) /\
       exists repo commit refs, added repo (sv_store sv) /\ upstream_head repo commit refs /\ key = (storage_key repo, commit)) /\
    (forall repo, repo ∈ refreshed <-> added repo (sv_store sv) /\ outdated repo (sv_store sv)).
Proof.
  intros Hok. unfold poll_once. destruct (query_idle list_repos sv) as (sv1 & -> & Hs1).
  destruct (list_repos (sv_store sv)) as [repos|] eqn:El.
  2: { exists sv1, 0, [], []. split; [done|]. split; [unfold polled_to; rewrite Hs1; by split_and!; rewrite ?app_nil_r|].
    unfold added. split; [done|]. split.
    - intros key. split; [by intros ?%elem_of_nil|]. intros (_ & r & c & rf & (l & Hl & _) & _). congruence.
    - intros r. split; [by intros ?%elem_of_nil|]. intros ((l & Hl & _) & _). congruence. }
  pose proof (listed_ok _ _ El) as Hrepos.
  destruct (poll_all_run (unseen ∅ (map repo_id repos)) sv1 (unseen_ok _ _ Hrepos) ltac:(by rewrite Hs1)) as (sv2 & polled & new & -> & Hto & Hlen & Hnew & Hre).
  assert (Hadd : forall r, r ∈ unseen ∅ (map repo_id repos) <-> added r (sv_store sv)).
  { intros r. rewrite elem_of_unseen by done. unfold added. split; [intros [? _]; by exists repos|]. intros (l & Hl & Hr). split; [congruence|set_solver]. }
  unfold polled_to in Hto. rewrite Hs1 in Hto, Hnew, Hre. unfold due in Hnew.
  exists sv2, (length (List.filter (fun p => p.1.2) polled)), (map (fun p => p.1.1) (List.filter snd polled)), new.
  split_and!; [done|exact Hto|done| |].
  - intros key. rewrite Hnew. by setoid_rewrite Hadd.
  - intros r. by rewrite Hre, Hadd.
Qed.

(** C23: a polling pass over an idle store: the rows it adds are exactly those of the
    upstream heads of added repositories that had no row, one each, and their number
    is the pass's answer; it asks to refresh exactly the added repositories whose
    published refs differ from upstream's listing; and while upstream stays as it is,
    a second pass admits nothing. *)
Theorem poll_catches_up sv : reachable cfg (sv_store sv) ->
  exists sv1 n refreshed new, poll_once hash registry sv = (sv1, (n, refreshed)) /\
    keys (sv_store sv1) = keys (sv_store sv) ++ new /\ NoDup new /\ length new = n /\
    (forall key, key ∈ new <-> key ∉ keys (sv_store sv) /\
       exists repo commit refs, added repo (sv_store sv) /\ upstream_head repo commit refs /\ key = (storage_key repo, commit)) /\
    (forall repo, repo ∈ refreshed <-> added repo (sv_store sv) /\
       exists commit refs, upstream_head repo commit refs /\ changed hash repo refs (sv_store sv) = Ok true) /\
    forall sv2, sv_store sv2 = sv_store sv1 -> exists sv3 refreshed2,
      poll_once hash registry sv2 = (sv3, (0, refreshed2)) /\ keys (sv_store sv3) = keys (sv_store sv1) /\
      forall repo, repo ∈ refreshed2 <-> repo ∈ refreshed.
Proof.
  intros Hok%reachable_store_ok; [|done].
  destruct (poll_once_run sv Hok) as (sv1 & n & refreshed & new & E & (Hok1 & Hk & Hr & Ha) & Hlen & Hnew & Hre).
  exists sv1, n, refreshed, new. split_and!; [done|done| |done|done|exact Hre|].
  - pose proof (so_keys _ _ Hok1) as Hnd. unfold keys in Hk. rewrite Hk in Hnd. by apply NoDup_app in Hnd as (_ & _ & ?).
  - intros sv2 Hs. destruct (poll_once_run sv2 ltac:(by rewrite Hs)) as (sv3 & n2 & refreshed2 & new2 & E2 & (_ & Hk2 & _) & Hlen2 & Hnew2 & Hre2).
    assert (Hadd : forall r, added r (sv_store sv2) <-> added r (sv_store sv)) by (intros r; unfold added, list_repos; by rewrite Hs, Ha).
    assert (new2 = []) as ->.
    { destruct new2 as [|key new2]; [done|]. destruct (proj1 (Hnew2 key) ltac:(by apply elem_of_cons; left)) as (Hn & r & c & rf & Hadd' & Hup & ->).
      destruct Hn. rewrite Hs, Hk. apply elem_of_app. destruct (decide ((storage_key r, c) ∈ keys (sv_store sv))); [by left|right].
      apply Hnew. split; [done|]. exists r, c, rf. by rewrite <- Hadd. }
    subst n2. exists sv3, refreshed2. split; [exact E2|]. split; [by rewrite Hk2, app_nil_r, Hs|]. intros r. rewrite Hre2, Hre, Hadd.
    unfold outdated. setoid_rewrite (changed_refs r _ (sv_store sv) (sv_store sv2) ltac:(by rewrite Hs)). done.
Qed.
End thms.

(** Once the refs of a mirror that has upstream's are published, the poller asks for
    no refresh of them. *)
Lemma refresh_settles {S : Serde} {SOk : SerdeOk S} (cfg : StoreConfig) hash tags_build encode_to_vec encode_all reach pack_holds
    upload pack_objects_excluding is_ancestor size_of can_write_tips repo refs1 refs2 w w' r refs d :
  GitOk hash pack_objects_excluding is_ancestor reach pack_holds -> mirror_ok hash refs1 ->
  reachable_world cfg hash tags_build encode_to_vec encode_all reach pack_holds w ->
  publish_pinned hash upload pack_objects_excluding is_ancestor tags_build (MirrorRefs_build encode_to_vec encode_all) size_of can_write_tips
    repo All refs1 refs2 w = (w', Ok r) ->
  known_repo (storage_key repo) (w_store w') = true ->
  mr_default_branch refs1 = Some d -> ur_default_branch refs = Some d ->
  mr_branches refs1 = ur_branches refs -> mr_tags refs1 = ur_tags refs ->
  changed hash repo refs (w_store w') = Ok false.
Proof.
  intros Hgit Hm Hw H Hk Hd Hd' Hb Ht. eapply publish_names in H; [|done..]. destruct H as [[Hn _]|(row & Hrow & _ & _ & Hall)]; [congruence|].
  destruct (Hall eq_refl) as (b & Eb & Eh). unfold changed. rewrite Hrow. cbn [rbind mbind option_bind]. rewrite Eb, Eh, Hd'.
  unfold MirrorRefs_hash. by rewrite Hd, Hb, Ht, bool_decide_eq_true_2.
Qed.

Module PollerExample.
Import ApiExample.
Definition poll_server : Server serde := {| sv_store := ApiExample.added; sv_calls := 0; sv_wakes := []; sv_ancestry := ∅ |}.
Definition registry : gmap string ProviderInstance := {[ "github" := prov ]}.
Definition hash (b : bytes) : string := String.string_of_list_byte b.
Lemma added_reachable : reachable Example.cfg ApiExample.added.
Proof. apply rtc_once, (step_add_repo Example.cfg 99 Example.repo None empty_store), Example.repo_is_ok. Qed.
(** The added repository has no build and no refs: its head is admitted, its refs
    refreshed. *)
Lemma poll_catches_up_witness :
  exists sv1, poll_once hash registry poll_server = (sv1, (1, [Example.repo])) /\
    keys (sv_store sv1) = [(storage_key Example.repo, Example.commit)] /\
    exists sv3 refreshed, poll_once hash registry sv1 = (sv3, (0, refreshed)) /\ Example.repo ∈ refreshed.
Proof.
  destruct (poll_catches_up Example.cfg example_cfg_ok hash registry ltac:(by split) poll_server added_reachable)
    as (sv1 & n & refreshed & new & E & Hk & _ & _ & _ & _ & Hagain).
  assert (En : (poll_once hash registry poll_server).2 = (n, refreshed)) by (by rewrite E).
  assert (Ek : keys (sv_store (poll_once hash registry poll_server).1) = [(storage_key Example.repo, Example.commit)]) by (by vm_compute).
  vm_compute in En. injection En as <- <-. rewrite E in Ek. exists sv1. split; [exact E|]. split; [exact Ek|].
  destruct (Hagain sv1 eq_refl) as (sv3 & refreshed2 & E2 & _ & Hre). exists sv3, refreshed2. split; [exact E2|].
  apply Hre. apply elem_of_cons. by left.
Defined.
End PollerExample.
