(* ===== verification/FullClone.v ===== *)
(** The [.git] of a clone ([rust/src/client/install.rs], [Present] of
    [rust/src/tags.rs]): its packs and which of them a clone downloads, its branches
    and tags, its config and reflogs.

    The files of [.git] are [TagPack.Files], by their path below it; a directory is
    there when a file needs it. The user's git, gix's reading of an idx, and an
    object's kind are parameters. *)

From S2P Require Import Prelude Bytes Provider Validation Outputs Control ControlInv ControlThms Tags TagPack Refs RefsPublish LsRemote Manifest Wire Client Download.

(** ** What a clone writes of its own *)
Definition write_text (path text : string) : Stateful Files unit := write_file path (ascii_bytes text).
Definition nl : string := String newline_char "".

(** [write_git_dir], over what [git init] wrote. *)
Definition write_git_dir (output : RefResponse) (checkout : string) : Stateful Files unit :=
  let commit := rf_commit output in
  let! _ :=
    if bool_decide (checkout = "") then write_text "HEAD" (commit +:+ nl)
    else
      let! _ := write_text "HEAD" ("ref: refs/heads/" +:+ checkout +:+ nl) in
      write_text ("refs/heads/" +:+ checkout) (commit +:+ nl) in
  if bool_decide (rf_kind output = Head) then write_text "shallow" (commit +:+ nl) else sret tt.

Definition quote_char : ascii := "034".
Definition backslash : ascii := "092".
Definition quoted (text : string) : string :=
  String quote_char (replace_char quote_char (String backslash (String quote_char ""))
    (replace_char backslash (String backslash (String backslash "")) text) +:+ String quote_char "").

Definition refspec (pin : Pin) : string :=
  if pn_single_branch pin && pn_tracks pin
  then "+refs/heads/" +:+ pn_checkout pin +:+ ":refs/remotes/origin/" +:+ pn_checkout pin
  else match (if pn_single_branch pin then pn_tag pin else None) with
       | Some tag => "+refs/tags/" +:+ tag +:+ ":refs/tags/" +:+ tag
       | None => "+refs/heads/*:refs/remotes/origin/*"
       end.
Definition indented (key value : string) : string := String tab "" +:+ key +:+ " = " +:+ value +:+ nl.
(** What [write_git_config] adds to the config [git init] wrote. *)
Definition config_text (origin_url : string) (pin : Pin) : string :=
  "[core]" +:+ nl +:+ indented "checkStat" "minimal"
  +:+ "[remote " +:+ quoted "origin" +:+ "]" +:+ nl
  +:+ indented "url" (quoted origin_url) +:+ indented "fetch" (quoted (refspec pin))
  +:+ (if pn_tracks pin
       then "[branch " +:+ quoted (pn_checkout pin) +:+ "]" +:+ nl +:+ indented "remote" "origin"
            +:+ indented "merge" (quoted ("refs/heads/" +:+ pn_checkout pin))
       else "").
Definition write_git_config (origin_url : string) (pin : Pin) (origin_head : option (string * string)) : Stateful Files unit :=
  let! files := get_files in
  let! config := lift (context (files !! "config") "read the config git init wrote") in
  let! _ :=
    if pn_tracks pin then write_text ("refs/remotes/origin/" +:+ pn_checkout pin) (pn_commit pin +:+ nl) else sret tt in
  let! _ :=
    match origin_head with
    | Some (branch, _) => write_text "refs/remotes/origin/HEAD" ("ref: refs/remotes/origin/" +:+ branch +:+ nl)
    | None => sret tt
    end in
  write_file "config" (config ++ ascii_bytes (config_text origin_url pin)).

(** [s.split_once(pat)]. *)
Fixpoint split_once_str (pat s : string) : option (string * string) :=
  match strip_prefix pat s with
  | Some rest => Some ("", rest)
  | None => match s with "" => None | String a s => '(l, r) ← split_once_str pat s; Some (String a l, r) end
  end.
(** [url] without a [user:password@] part. *)
Definition without_credentials (url : string) : string :=
  match split_once_str "://" url with
  | Some (scheme, rest) =>
      let '(authority, path) := match split_once "/" rest with Some (a, p) => (a, String "/" p) | None => (rest, "") end in
      match rsplit_once "@" authority with
      | Some (_, host) => scheme +:+ "://" +:+ host +:+ path
      | None => url
      end
  | None => url
  end.
Definition write_clone_reflogs (origin_url : string) (pin : Pin) (ident : string) (origin_head : option (string * string))
    : Stateful Files unit :=
  let url := without_credentials origin_url in
  let entry commit := String.string_of_list_ascii (repeat "0"%char (String.length commit)) +:+ " " +:+ commit +:+ " " +:+ ident +:+ String tab "" +:+ "clone: from " +:+ url +:+ nl in
  let refs := ("HEAD", pn_commit pin)
    :: (if bool_decide (pn_checkout pin = "") then [] else [("refs/heads/" +:+ pn_checkout pin, pn_commit pin)])
    ++ match origin_head with Some (_, commit) => [("refs/remotes/origin/HEAD", commit)] | None => [] end in
  sfold (fun _ r => write_text ("logs/" +:+ r.1) (entry r.2)) tt refs.

(** ** The packs a clone downloads *)
Section packs.
Context (hash_to_hex : string -> string).
Definition chunk_artifact (c : ChunkRef) (slot : UrlSlot) : Artifact :=
  {| a_hash := hash_to_hex (cr_hash c); a_len := Some (cr_len c); a_slot := slot |}.
Definition pack_refs (refs : list SidePackRef) (pack idx : N -> UrlSlot) : list (Artifact * Artifact) :=
  map (fun '(i, entry) =>
    ({| a_hash := sr_pack entry; a_len := Some (sr_pack_len entry); a_slot := pack i |},
     {| a_hash := sr_idx entry; a_len := Some (sr_idx_len entry); a_slot := idx i |})) (enumerate refs).
(** The history packs [fetch_history_packs] downloads. *)
Definition history_pack (held : gset string) (entry : N * PackEntry) : Result (list (Artifact * Artifact)) :=
  let '(i, entry) := entry in
  let? pack := context (pe_pack entry) ("pack " +:+ pretty i +:+ " missing pack ref") in
  if decide (cr_hash pack ∈ held) then Ok []
  else
    let? idx := context (pe_idx entry) ("pack " +:+ pretty i +:+ " missing idx ref") in
    Ok [(chunk_artifact pack (UPackChunk i), chunk_artifact idx (UPackIdx i))].
Definition history_packs (commit : string) (manifest : ClonepackManifest) (held : gset string) : Result (list (Artifact * Artifact)) :=
  let history := List.filter (fun e => history_only e.2) (enumerate (cm_packs manifest)) in
  ensure! negb (bool_decide (history = [])) else "the Full of " +:+ commit +:+ " has no history packs";
  let? packs := collect (history_pack held) history in
  Ok (concat packs).
(** [own_history], once the other packs' idx files are in: [idxs]. *)
Context (index_open : bytes -> Result (list bytes)).
Definition own_history (base : ClonepackManifest) (commit : string) (built : option OwnHistoryRef) (idxs : list bytes)
    (manifest : ClonepackManifest) : Result (list (Artifact * Artifact)) :=
  let? id := parse_id commit in
  let? held := try_fold (fun held idx =>
    if held : bool then Ok true
    else let? ids := index_open idx in Ok (bool_decide (id ∈ ids))) false idxs in
  if held : bool then Ok []
  else
    match built with
    | Some built => Ok (pack_refs (ow_packs built) UOwnPack UOwnIdx)
    | None =>
        let listed : gset string :=
          list_to_set (omap (fun e => if history_only e then cr_hash <$> pe_pack e else None) (cm_packs base)) in
        history_packs commit manifest listed
    end.
End packs.

(** ** Installing packs *)
Record PackFiles := { pf_pack : bytes; pf_idx : bytes }.
Definition install_pack (what : string) (files : PackFiles) : Stateful Files unit :=
  let idx := pf_idx files in
  if (nlen idx <? 40)%N then sfail (what +:+ " integrity error: idx too short")
  else
    let checksum := slice idx (nlen idx - 40) (nlen idx - 20) in
    if (nlen (pf_pack files) <? 20)%N then sfail ("read " +:+ what +:+ " trailer")
    else
      let trailer := slice (pf_pack files) (nlen (pf_pack files) - 20) (nlen (pf_pack files)) in
      if negb (bool_decide (trailer = checksum)) then sfail (what +:+ " integrity error: the idx is not the pack's")
      else
        let name := hex_encode trailer in
        let! _ := write_file ("objects/pack/pack-" +:+ name +:+ ".pack") (pf_pack files) in
        write_file ("objects/pack/pack-" +:+ name +:+ ".idx") idx.
Definition install_packs (what : string) (packs : list PackFiles) : Stateful Files unit :=
  sfold (fun _ files => install_pack what files) tt packs.

(** ** The objects of a clone *)
Record Present := { ps_indexes : list (list bytes); ps_loose : list bytes }.
(** An entry of a directory with the extension [idx]. *)
Definition is_idx (path : string) : bool :=
  match strip_prefix "objects/pack/" path with
  | Some name => negb (contains_char "/" name) &&
      match rsplit_once "." name with Some (stem, ext) => negb (bool_decide (stem = "")) && bool_decide (ext = "idx") | None => false end
  | None => false
  end.
Definition loose_id (path : string) : option bytes :=
  rest ← strip_prefix "objects/" path;
  '(prefix, rest) ← split_once "/" rest;
  if (str_len prefix =? 2)%N && negb (contains_char "/" rest) then ok (parse_id (prefix +:+ rest)) else None.
Section clone.
Context (index_open : bytes -> Result (list bytes)).
Definition Present_scan (files : Files) : Result Present :=
  let? indexes := collect index_open (map snd (List.filter (fun f => is_idx f.1) (map_to_list files))) in
  Ok {| ps_indexes := indexes; ps_loose := omap (fun f => loose_id f.1) (map_to_list files) |}.
Definition present_in (present : Present) (id : bytes) : bool :=
  bool_decide (id ∈ ps_loose present) || existsb (fun ids => bool_decide (id ∈ ids)) (ps_indexes present).
Definition contains_hex (present : Present) (hex : string) : bool :=
  match parse_id hex with Ok id => present_in present id | Err _ => false end.

(** ** Refs *)

(** A git process: the files it leaves, and its failure; [gf_io] when it could not be
    run or waited for. *)
Record GitFailure := { gf_io : bool; gf_text : string }.
Context (sha1 : bytes -> bytes) (crc32 : bytes -> N).
Context (run_git : list string -> Files -> Files * (unit + GitFailure)) (git_stdout : list string -> Files -> Result string)
  (find_kind : bytes -> Result Kind).

Definition LOCAL : list string :=
  ["No space left on device"; "Disk quota exceeded"; "Read-only file system"; "unable to write"; "unable to create"].
Definition local_failure (error : GitFailure) : bool := gf_io error || existsb (fun l => contains l (gf_text error)) LOCAL.
(** The outer error fails the clone. *)
Definition fetch_refs (upstream_url : string) : Stateful Files (Result unit) := fun files =>
  let fetch := ["fetch"; "--no-write-fetch-head"; "--no-tags"; "--no-recurse-submodules"; "--refmap="; "--"; upstream_url;
                "+refs/heads/*:refs/remotes/origin/*"; "+refs/tags/*:refs/tags/*"] in
  match run_git fetch files with
  | (files, inr error) =>
      let error := {| gf_io := gf_io error; gf_text := "fetch branches and tags from " +:+ upstream_url +:+ ": " +:+ gf_text error |} in
      if local_failure error then (files, Err (gf_text error)) else (files, Ok (Err (gf_text error)))
  | (files, inl _) =>
      match run_git ["pack-refs"; "--all"] files with
      | (files, inr error) => (files, Err ("pack refs: " +:+ gf_text error))
      | (files, inl _) => (files, Ok (Ok tt))
      end
  end.

Definition read_stdout (args : list string) : Stateful Files string := fun files => (files, git_stdout args files).
(** Whether a depth-1 clone of [tip] may keep the tag: it names the tip, or no commit. *)
Definition tip_or_tree (tip : string) (tag : KeptTag) : Result bool :=
  if bool_decide (kt_target tag = tip) then Ok true
  else let? kind := find_kind (kt_target_id tag) in Ok (negb (bool_decide (kind = KCommit))).
(** [retain], of a test that may fail. *)
Definition retain_checked (keep : KeptTag -> Result bool) (kept : Kept) : Result Kept :=
  let? keeps := collect (fun tag => let? k := keep tag in Ok (k, tag)) (k_tags kept) in
  Ok {| k_tags := map snd (List.filter fst keeps); k_objects := k_objects kept |}.
(** The id of a line of [ls-tree]. *)
Definition tree_entry (line : string) : option string :=
  '(head, _) ← split_once tab line; split_on " " head !! 2.
Definition install_tags (kept : Kept) (reaches tip : option string) : Stateful Files unit :=
  let! files := get_files in
  let! present := lift (Present_scan files) in
  let kept := Kept_retain (fun tag => present_in present (kt_target_id tag)) kept in
  let! kept := match tip with Some tip => lift (retain_checked (tip_or_tree tip) kept) | None => sret kept end in
  let! kept :=
    match tip with
    | Some tip =>
        if existsb (fun tag => negb (bool_decide (kt_target tag = tip))) (k_tags kept)
        then
          let! root_tree := read_stdout ["rev-parse"; "--verify"; tip +:+ "^{tree}"] in
          let! listed := read_stdout ["ls-tree"; "-r"; "-t"; "--full-tree"; tip] in
          let held := omap tree_entry (lines listed) ++ [tip; trim root_tree] in
          sret (Kept_retain (fun tag => bool_decide (kt_target tag ∈ held)) kept)
        else sret kept
    | None => sret kept
    end in
  let! kept :=
    match reaches with
    | Some commit =>
        if bool_decide (k_tags kept = []) then sret kept
        else
          let! _ := write_target_refs kept in
          let! reached := read_stdout ["for-each-ref"; "--merged=" +:+ commit; "--format=%(refname:lstrip=2)"; "refs/tags/"] in
          let! _ := (fun files => (base.delete "packed-refs" files, Ok tt)) in
          sret (Kept_retain (fun tag => bool_decide (kt_name tag ∈ lines reached)) kept)
    | None => sret kept
    end in
  write sha1 crc32 kept [] (present_in present).

(** [FullRefs]. *)
Record FullRefs := { fu_tags : Kept; fu_branches : option Branches; fu_side : list PackFiles }.
Definition refs_complete (present : Present) (refs : FullRefs) : bool :=
  match fu_branches refs with
  | Some b =>
      match br_base b with Some base => contains_hex present base | None => false end
      && forallb (fun r => contains_hex present r.2) (br_branches b)
  | None => false
  end && forallb (fun tag => present_in present (kt_target_id tag)) (k_tags (fu_tags refs)).
Definition commit_of (pin : Pin) (name : string) (listed : option string) : option string :=
  if pn_tracks pin && bool_decide (pn_checkout pin = name) then Some (pn_commit pin) else listed.
Definition install_full_refs (refs : FullRefs) (upstream_url : option string) (pin : Pin) (reaches : option string)
    : Stateful Files (option (string * string)) :=
  let! _ := install_packs "side pack" (fu_side refs) in
  let! files := get_files in
  let! present := lift (Present_scan files) in
  if refs_complete present refs then
    let! branches := lift (context (fu_branches refs) "complete refs have branches") in
    let origin_head :=
      name ← br_default_branch branches;
      commit ← commit_of pin name (find_branch name (br_branches branches));
      Some (name, commit) in
    let! _ := write sha1 crc32 (fu_tags refs) (br_branches branches) (present_in present) in
    sret origin_head
  else
    let! fetched :=
      match upstream_url with
      | Some url => fetch_refs url
      | None => sret (Err "the provider has no local client configuration")
      end in
    match fetched with
    | Err _ =>
        let! _ := install_tags (fu_tags refs) reaches None in
        sret (if pn_default_branch pin then Some (pn_checkout pin, pn_commit pin) else None)
    | Ok _ =>
        match (match fu_branches refs ≫= br_default_branch with
               | Some name => Some name
               | None => if pn_default_branch pin then Some (pn_checkout pin) else None end) with
        | None => sret None
        | Some name =>
            let! listed := stry (read_stdout ["rev-parse"; "--verify"; "-q"; "refs/remotes/origin/" +:+ name]) in
            sret ((fun commit => (name, commit)) <$> commit_of pin name (trim <$> ok listed))
        end
    end.
End clone.

(** ** The config and the reflogs read back *)

(** Git's reading of a quoted value, from after its opening quote: the value and what
    follows; a line's end is an error. *)
Fixpoint read_quoted (s : string) : option (string * string) :=
  match s with
  | "" => None
  | String c s =>
      if Ascii.eqb c quote_char then Some ("", s)
      else if Ascii.eqb c newline_char then None
      else if Ascii.eqb c backslash then
        match s with
        | String d s => if Ascii.eqb d quote_char || Ascii.eqb d backslash then '(v, rest) ← read_quoted s; Some (String d v, rest) else None
        | "" => None
        end
      else '(v, rest) ← read_quoted s; Some (String c v, rest)
  end.
(** Whatever a branch or URL holds but a line's end, git reads it back, and nothing of
    it is read as config. *)
Lemma quoted_reads text rest : contains_char newline_char text = false ->
  exists s, quoted text +:+ rest = String quote_char s /\ read_quoted s = Some (text, rest).
Proof.
  intros H. unfold quoted. eexists. split; [reflexivity|]. rewrite string_app_assoc.
  induction text as [|c text IH]; [done|]. unfold contains_char in H. cbn [str_any] in H. apply orb_false_iff in H as [Hc H].
  specialize (IH H). cbn [replace_char]. destruct (Ascii.eqb c backslash) eqn:Eb.
  - apply Ascii.eqb_eq in Eb as ->. cbn [String.append replace_char].
    change (Ascii.eqb backslash quote_char) with false. cbn [String.append read_quoted]. change (Ascii.eqb backslash quote_char) with false.
    change (Ascii.eqb backslash newline_char) with false. change (Ascii.eqb backslash backslash) with true. cbn [orb].
    cbn [String.append] in IH. by rewrite IH.
  - cbn [replace_char]. destruct (Ascii.eqb c quote_char) eqn:Eq.
    + apply Ascii.eqb_eq in Eq as ->. cbn [String.append read_quoted]. change (Ascii.eqb backslash quote_char) with false.
      change (Ascii.eqb backslash newline_char) with false. change (Ascii.eqb backslash backslash) with true.
      change (Ascii.eqb quote_char quote_char) with true. cbn [orb]. cbn [String.append] in IH. by rewrite IH.
    + cbn [String.append read_quoted]. rewrite Eq, Eb. rewrite Ascii.eqb_sym in Hc. rewrite Hc. cbn [String.append] in IH. by rewrite IH.
Qed.
Lemma split_once_str_scheme scheme rest : contains_char ":" scheme = false -> split_once_str "://" (scheme +:+ "://" +:+ rest) = Some (scheme, rest).
Proof.
  induction scheme as [|c scheme IH]; intros H; [done|]. unfold contains_char in H. cbn [str_any] in H. apply orb_false_iff in H as [Hc H].
  change (String c scheme +:+ "://" +:+ rest) with (String c (scheme +:+ "://" +:+ rest)). cbn [split_once_str strip_prefix].
  rewrite Hc. by rewrite (IH H).
Qed.
(** The reflogs name no user and no password. *)
Lemma credentials_dropped scheme user host path :
  contains_char ":" scheme = false -> contains_char "/" user = false -> contains_char "/" host = false -> contains_char "@" host = false ->
  without_credentials (scheme +:+ "://" +:+ user +:+ "@" +:+ host +:+ "/" +:+ path) = scheme +:+ "://" +:+ host +:+ "/" +:+ path.
Proof.
  intros Hs Hu Hh Ha. unfold without_credentials. rewrite split_once_str_scheme by done.
  change (user +:+ "@" +:+ host +:+ "/" +:+ path) with (user +:+ String "@" host +:+ String "/" path).
  rewrite <- string_app_assoc, split_once_app; [|rewrite contains_char_app, Hu; exact Hh].
  by rewrite rsplit_once_app.
Qed.

(** ** The history a clone downloads *)
Section history.
Context (hash_to_hex : string -> string) (index_open : bytes -> Result (list bytes)).
Local Abbreviation chunk_artifact := (chunk_artifact hash_to_hex).

Lemma elem_of_concat_map {A B} (f : A -> Result (list B)) l ls x : collect f l = Ok ls ->
  x ∈ concat ls <-> exists y k, y ∈ l /\ f y = Ok k /\ x ∈ k.
Proof.
  intros H%collect_ok. rewrite list_elem_of_In, in_concat. split.
  - intros (k & Hk%list_elem_of_In & Hx%list_elem_of_In). destruct (Forall2_in_r _ _ _ k H Hk) as (y & Hy & Hf). eauto.
  - intros (y & k & Hy & Hf & Hx). destruct (Forall2_in_l _ _ _ y H Hy) as (k' & Hk & Hf'). rewrite Hf in Hf'. injection Hf' as <-.
    exists k. by rewrite <- !list_elem_of_In.
Qed.
(** The packs downloaded are the history packs not held. *)
Lemma history_packs_spec commit manifest held l : history_packs hash_to_hex commit manifest held = Ok l ->
  (exists e, e ∈ cm_packs manifest /\ history_only e = true) /\
  forall p, p ∈ l <-> exists i e c ci, (i, e) ∈ enumerate (cm_packs manifest) /\ history_only e = true /\ pe_pack e = Some c /\
    cr_hash c ∉ held /\ pe_idx e = Some ci /\ p = (chunk_artifact c (UPackChunk i), chunk_artifact ci (UPackIdx i)).
Proof.
  unfold history_packs. set (history := List.filter _ _). intros H.
  assert (Hin : forall i e, (i, e) ∈ history <-> (i, e) ∈ enumerate (cm_packs manifest) /\ history_only e = true).
  { intros i e. unfold history. by rewrite elem_of_lfilter. }
  destruct (bool_decide (history = [])) eqn:En; [done|]. cbn [negb] in H. apply rbind_ok in H as (packs & Hp & [= <-]). split.
  - apply bool_decide_eq_false in En. destruct history as [|[i e] history]; [done|].
    destruct (proj1 (Hin i e) ltac:(apply elem_of_cons; by left)) as [He Ho]. exists e. split; [|done].
    apply elem_of_enumerate in He. by eapply list_elem_of_lookup_2.
  - intros p. rewrite (elem_of_concat_map _ _ _ _ Hp). split.
    + intros ([i e] & k & [He Ho]%Hin & Hk & Hx). unfold history_pack in Hk. apply rbind_ok in Hk as (c & Hc%context_ok & Hk).
      destruct (decide _) as [|Hn]; [injection Hk as <-; by apply elem_of_nil in Hx|].
      apply rbind_ok in Hk as (ci & Hci%context_ok & [= <-]). apply list_elem_of_singleton in Hx as ->. by exists i, e, c, ci.
    + intros (i & e & c & ci & He & Ho & Hc & Hn & Hci & ->). eexists (i, e), _. split; [by apply Hin|]. split; [|by left].
      unfold history_pack. rewrite Hc. cbn [context rbind]. rewrite decide_False by done. by rewrite Hci.
Qed.
(** A commit an installed idx lists brings nothing more; another the server's own
    history, or the manifest's history packs that the base does not list. *)
Lemma fetched_history_spec base commit built idxs manifest l : own_history hash_to_hex index_open base commit built idxs manifest = Ok l ->
  exists id, parse_id commit = Ok id /\
  ((exists idx ids, idx ∈ idxs /\ index_open idx = Ok ids /\ id ∈ ids /\ l = []) \/
   ((forall idx, idx ∈ idxs -> exists ids, index_open idx = Ok ids /\ id ∉ ids) /\
    match built with
    | Some built => l = pack_refs (ow_packs built) UOwnPack UOwnIdx
    | None => forall i e c, (i, e) ∈ enumerate (cm_packs manifest) -> history_only e = true -> pe_pack e = Some c ->
        (exists e' c', e' ∈ cm_packs base /\ history_only e' = true /\ pe_pack e' = Some c' /\ cr_hash c' = cr_hash c) \/
        exists ci, (chunk_artifact c (UPackChunk i), chunk_artifact ci (UPackIdx i)) ∈ l
    end)).
Proof.
  unfold own_history. intros (id & Hid & (held & Hheld & H)%rbind_ok)%rbind_ok. exists id. split; [done|].
  set (look := fun (held : bool) idx => if held then Ok true else let? ids := index_open idx in Ok (bool_decide (id ∈ ids))) in Hheld.
  assert (Htrue : forall idxs, try_fold look true idxs = Ok true) by (intros js; induction js as [|j js IHj]; [done|exact IHj]).
  assert (Hlook : if held then exists idx ids, idx ∈ idxs /\ index_open idx = Ok ids /\ id ∈ ids
                  else forall idx, idx ∈ idxs -> exists ids, index_open idx = Ok ids /\ id ∉ ids).
  { clear H. revert Hheld. induction idxs as [|idx idxs IH]; intros Hheld; [injection Hheld as <-; by intros ? ?%elem_of_nil|].
    cbn [try_fold look] in Hheld. destruct (index_open idx) as [ids|] eqn:Ei; [|done]. cbn [rbind] in Hheld.
    case_bool_decide as Hin.
    - rewrite Htrue in Hheld. injection Hheld as <-. exists idx, ids. split_and!; [apply elem_of_cons; by left|done..].
    - apply IH in Hheld. destruct held; [destruct Hheld as (j & js & Hj & ?); exists j, js; split; [apply elem_of_cons; by right|done]|].
      intros j [->|Hj]%elem_of_cons; [by exists ids|by apply Hheld]. }
  destruct held; [left; destruct Hlook as (idx & ids & ? & ? & ?); exists idx, ids; by injection H as <-|right; split; [done|]].
  destruct built as [built|]; [by injection H as <-|]. intros i e c He Ho Hc.
  set (listed := list_to_set _ : gset string) in H. destruct (decide (cr_hash c ∈ listed)) as [Hl|Hl].
  - left. apply elem_of_list_to_set, list_elem_of_omap in Hl as (e' & He' & Hm). destruct (history_only e') eqn:Eh; [|done].
    destruct (pe_pack e') as [c'|] eqn:Ec; [|done]. injection Hm as Hm. by exists e', c'.
  - right. pose proof H as (_ & Hin)%history_packs_spec. unfold history_packs in H. destruct (negb _); [|done].
    apply rbind_ok in H as (packs & Hp%collect_ok & _).
    destruct (Forall2_in_l _ _ _ (i, e) Hp) as (k & _ & Hk); [by apply elem_of_lfilter|]. unfold history_pack in Hk. rewrite Hc in Hk.
    cbn [context rbind] in Hk. rewrite decide_False in Hk by done. apply rbind_ok in Hk as (ci & Hci%context_ok & _).
    exists ci. apply Hin. by exists i, e, c, ci.
Qed.
End history.

(** ** Packs and what they bring *)
Definition checksum_of (idx : bytes) : bytes := slice idx (nlen idx - 40) (nlen idx - 20).
Definition idx_path (checksum : bytes) : string := "objects/pack/pack-" +:+ hex_encode checksum +:+ ".idx".
Definition pack_path (checksum : bytes) : string := "objects/pack/pack-" +:+ hex_encode checksum +:+ ".pack".

Lemma pack_name_parts checksum ext : contains_char "." ext = false -> contains_char "/" ext = false ->
  is_idx ("objects/pack/pack-" +:+ hex_encode checksum +:+ "." +:+ ext) = bool_decide (ext = "idx").
Proof.
  intros Hd Hs. unfold is_idx.
  change ("objects/pack/pack-" +:+ hex_encode checksum +:+ "." +:+ ext)
    with ("objects/pack/" +:+ ("pack-" +:+ hex_encode checksum +:+ "." +:+ ext)).
  rewrite strip_prefix_app. change ("." +:+ ext) with (String "." ext). rewrite <- (string_app_assoc "pack-").
  rewrite rsplit_once_app by done. cbn [contains_char str_any]. rewrite !contains_char_app.
  change (String "." ext) with ("." +:+ ext). rewrite contains_char_app, Hs, (hex_no_char "/") by done. done.
Qed.
Lemma is_idx_path checksum : is_idx (idx_path checksum) = true.
Proof. by apply (pack_name_parts checksum "idx"). Qed.
Lemma is_idx_pack checksum : is_idx (pack_path checksum) = false.
Proof. by apply (pack_name_parts checksum "pack"). Qed.
Lemma idx_path_inj a b : idx_path a = idx_path b -> a = b.
Proof.
  intros H. apply (f_equal (fun s => strip_prefix "objects/pack/pack-" s ≫= split_once ".")) in H. unfold idx_path in H.
  rewrite !strip_prefix_app in H. cbn [mbind option_bind] in H. rewrite !(split_once_app ".") in H by by apply hex_no_char.
  injection H as H. by apply hex_encode_inj.
Qed.

Section present.
Context (index_open : bytes -> Result (list bytes)).
(** [git_idx pack idx]: [idx] is the index git wrote for [pack]. It ends with the pack's
    trailer, gix opens it, and it lists the ids of the pack's objects in their order:
    two packs of one trailer, their SHA-1, are one pack and are listed alike. Nothing
    is said of bytes that are no index git wrote. *)
Context (git_idx : bytes -> bytes -> Prop).
Record IndexOk : Prop := {
  io_form pack idx : git_idx pack idx -> (40 <= nlen idx)%N /\ (20 <= nlen pack)%N /\
    slice pack (nlen pack - 20) (nlen pack) = checksum_of idx;
  io_open pack idx : git_idx pack idx -> exists ids, index_open idx = Ok ids;
  io_names pack idx pack' idx' : git_idx pack idx -> git_idx pack' idx' -> checksum_of idx = checksum_of idx' ->
    index_open idx = index_open idx';
}.
Context (Hidx : IndexOk).
Local Abbreviation Present_scan := (Present_scan index_open).

(** The idx files of a clone, each git's and under its name; and the objects they
    list. *)
Definition git_dir_ok (files : Files) : Prop :=
  forall path idx, files !! path = Some idx -> is_idx path = true ->
  path = idx_path (checksum_of idx) /\ exists pack, git_idx pack idx.
Definition idx_holds (idx : bytes) (o : string) : Prop :=
  exists id ids, parse_id o = Ok id /\ index_open idx = Ok ids /\ id ∈ ids.
Definition held (files : Files) (o : string) : Prop :=
  exists path idx, files !! path = Some idx /\ is_idx path = true /\ idx_holds idx o.
(** A downloaded pack and its idx. *)
Definition pack_ok (f : PackFiles) : Prop := git_idx (pf_pack f) (pf_idx f).

Lemma scan_held files : git_dir_ok files ->
  exists present, Present_scan files = Ok present /\
    forall o, held files o -> exists id, parse_id o = Ok id /\ present_in present id = true.
Proof.
  intros Hok. unfold Present_scan. set (idxs := List.filter _ _).
  assert (Hin : forall path idx, (path, idx) ∈ idxs <-> files !! path = Some idx /\ is_idx path = true).
  { intros path idx. unfold idxs. rewrite elem_of_lfilter. cbn [fst].
    by rewrite (elem_of_map_to_list (M := gmap string) files path idx). }
  assert (E : collect index_open (map snd idxs) = Ok (map (fun idx => default [] (ok (index_open idx))) (map snd idxs))).
  { apply collect_total, Forall_forall. intros idx ((path & x) & -> & Hel)%elem_of_lmap. apply Hin in Hel as [Hp Hi].
    destruct (Hok path x Hp Hi) as (_ & pack & Hids%(io_open Hidx)). destruct Hids as [ids Hids]. cbn [snd]. by rewrite Hids. }
  rewrite E. cbn [rbind]. eexists. split; [done|]. intros o (path & idx & Hp & Hi & id & ids & Hid & Hids & Hel). exists id.
  split; [done|]. unfold present_in. apply orb_true_iff. right. apply existsb_elem. exists ids. split; [|by apply bool_decide_eq_true_2].
  cbn. apply elem_of_lmap. exists idx. split; [by rewrite Hids|]. apply elem_of_lmap. exists (path, idx). split; [done|]. by apply Hin.
Qed.
Lemma install_pack_ok what f files : pack_ok f -> git_dir_ok files ->
  exists files', install_pack what f files = (files', Ok tt) /\ git_dir_ok files' /\
    (forall o, held files o \/ idx_holds (pf_idx f) o -> held files' o) /\ files' !! "packed-refs" = files !! "packed-refs".
Proof.
  intros Hf Hok. destruct (io_form Hidx _ _ Hf) as (Hlen & Hpack & Hck). unfold install_pack.
  rewrite (proj2 (N.ltb_ge _ _) Hlen), (proj2 (N.ltb_ge _ _) Hpack). fold (checksum_of (pf_idx f)).
  rewrite Hck, bool_decide_eq_true_2 by done. cbn [negb]. unfold sbind, write_file.
  fold (pack_path (checksum_of (pf_idx f))) (idx_path (checksum_of (pf_idx f))).
  set (pp := pack_path _). set (ip := idx_path _).
  assert (Hpp : is_idx pp = false) by apply is_idx_pack. assert (Hip : is_idx ip = true) by apply is_idx_path.
  exists (<[ip := pf_idx f]> (<[pp := pf_pack f]> files)). split; [done|]. split_and!.
  - intros path idx [[<- <-]|[Hne H]]%lookup_insert_Some Hi; [split; [done|by exists (pf_pack f)]|].
    apply lookup_insert_Some in H as [[<- _]|[_ H]]; [congruence|]. by apply Hok.
  - intros o [(path & idx & Hp & Hi & Ho)|Ho]; [|exists ip, (pf_idx f); split; [apply lookup_insert_eq|done]].
    destruct (decide (path = ip)) as [->|Hne].
    + exists ip, (pf_idx f). split_and!; [apply lookup_insert_eq|done|]. destruct (Hok _ _ Hp Hi) as (Hpath & pack & Hgit).
      apply idx_path_inj in Hpath. destruct Ho as (id & ids' & ? & Hids' & ?). exists id, ids'. split_and!; [done| |done].
      by rewrite (io_names Hidx _ _ _ _ Hf Hgit Hpath).
    + exists path, idx. split; [|done]. etransitivity; [by apply lookup_insert_ne|]. etransitivity; [apply lookup_insert_ne; congruence|done].
  - etransitivity; [apply lookup_insert_ne|apply lookup_insert_ne]; intros H; [by unfold ip, idx_path in H|by unfold pp, pack_path in H].
Qed.
Lemma install_packs_ok what packs : forall files, Forall pack_ok packs -> git_dir_ok files ->
  exists files', install_packs what packs files = (files', Ok tt) /\ git_dir_ok files' /\
    (forall o, held files o \/ (exists f, f ∈ packs /\ idx_holds (pf_idx f) o) -> held files' o) /\
    files' !! "packed-refs" = files !! "packed-refs".
Proof.
  induction packs as [|f packs IH]; intros files Hp Hok.
  - exists files. split_and!; [done..| |done]. intros o [?|(f & []%elem_of_nil & _)]. done.
  - apply Forall_cons in Hp as [Hf Hp]. destruct (install_pack_ok what f files Hf Hok) as (files1 & E1 & Hok1 & Hh1 & Hr1).
    destruct (IH files1 Hp Hok1) as (files2 & E2 & Hok2 & Hh2 & Hr2). exists files2.
    split; [cbn; unfold sbind; rewrite E1; exact E2|]. split_and!; [done| |congruence].
    intros o [Ho|(g & [->|Hg]%elem_of_cons & Ho)]; apply Hh2; [left; apply Hh1; by left|left; apply Hh1; by right|right; by exists g].
Qed.
End present.

(** ** A full clone *)
Lemma Kept_retain_all k : Kept_retain (fun _ => true) k = k.
Proof. destruct k as [tags objects]. unfold Kept_retain. cbn. f_equal. induction tags; cbn; congruence. Qed.
Lemma names_sorted {A} (l : list (string * A)) : StronglySorted (fun x y => String.leb x.1 y.1 = true) l -> NoDup (map fst l) ->
  StronglySorted (fun x y => String.ltb x y = true) (map fst l).
Proof.
  intros Hs Hnd. apply StronglySorted_map. induction Hs as [|x l Hl IH Hx]; [constructor|].
  apply NoDup_cons in Hnd as [Hn Hnd]. constructor; [by apply IH|]. rewrite Forall_forall in Hx. apply Forall_forall.
  intros y Hy. apply str_ltb_leb. split; [by apply Hx|]. intros Heq. apply Hn. apply elem_of_lmap. eauto.
Qed.
Lemma filter_none {A} (p : A -> bool) l : (forall x, x ∈ l -> p x = false) -> List.filter p l = [].
Proof.
  induction l as [|x l IH]; intros H; [done|]. cbn. rewrite H by (apply elem_of_cons; by left). apply IH.
  intros y Hy. apply H, elem_of_cons. by right.
Qed.

Section full_clone.
Context {S : Serde} {SOk : SerdeOk S} (cfg : StoreConfig) (hash : bytes -> string).
Context (tags_build : list (string * string) -> Result bytes).
Context (encode_to_vec : BranchesArtifact -> bytes) (message_decode : bytes -> Result BranchesArtifact)
  (encode_all decode_all : bytes -> Result bytes).
Context (reach : string -> string -> Prop) (pack_holds : bytes -> string -> Prop).
Context (index_open : bytes -> Result (list bytes)) (git_idx : bytes -> bytes -> Prop) (sha1 : bytes -> bytes) (crc32 : bytes -> N).
Context (run_git : list string -> Files -> Files * (unit + GitFailure)) (git_stdout : list string -> Files -> Result string)
  (find_kind : bytes -> Result Kind).
Local Abbreviation tag_id d := (hex_encode (tag_object_id sha1 d)).

(** Git's objects, and its packs' indexes: an object reaches itself, and what the
    objects it reaches do; a tag object what it names; an index lists what its pack
    holds. *)
Record ObjectsOk : Prop := {
  oo_refl t : reach t t;
  oo_trans t u o : reach t u -> reach u o -> reach t o;
  oo_tag d next : tag_target d = Ok next -> reach (tag_id d) (hex_encode next);
  oo_index : IndexOk index_open git_idx;
  oo_lists pack idx o : git_idx pack idx -> pack_holds pack o -> idx_holds index_open idx o;
}.
Context (Hobjects : ObjectsOk).

(** What a clone downloads as the layers [layers]. *)
Definition downloaded (storage : gmap string bytes) (layers : list SidePack) (side : list PackFiles) : Prop :=
  Forall2 (fun l f => storage !! side_pack l = Some (pf_pack f) /\ pack_ok git_idx f) layers side.

Lemma peels_reach objects id chain target : peels sha1 objects id chain target ->
  reach (hex_encode id) (hex_encode target) /\ forall d, d ∈ chain -> reach (hex_encode id) (tag_id d).
Proof.
  induction 1 as [id _|d next chain target _ Ht _ [IH1 IH2]].
  - split; [apply Hobjects|]. by intros d ?%elem_of_nil.
  - pose proof (oo_tag Hobjects _ _ Ht) as Hn. split; [by eapply (oo_trans Hobjects)|].
    intros d' [->|Hd]%elem_of_cons; [apply Hobjects|]. eapply (oo_trans Hobjects); [exact Hn|]. by apply IH2.
Qed.
(** A kept tag's object reaches its target and the tag objects between. *)
Lemma kept_reach a kept : check sha1 a = Ok kept -> (nlen (ta_objects a) <= 2 ^ 32)%N ->
  Forall (fun t => reach (kt_object t) (kt_target t) /\ parse_id (kt_target t) = Ok (kt_target_id t)) (k_tags kept) /\
  exists objs, Kept_objects kept = Some objs /\
    forall x, x ∈ objs -> exists t, t ∈ k_tags kept /\ reach (kt_object t) (hex_encode x.1).
Proof.
  intros Hc Hlen. destruct (check_spec sha1 a kept Hc Hlen) as (_ & _ & chains & Hok & Hobjs).
  assert (Hall : Forall2 (fun t ds => reach (kt_object t) (kt_target t) /\ parse_id (kt_target t) = Ok (kt_target_id t) /\
    forall d, d ∈ ds -> reach (kt_object t) (tag_id d)) (k_tags kept) chains).
  { eapply Forall2_impl; [exact Hok|]. intros t ds (_ & _ & Ht & id & [_ <-]%parse_id_ok & Hp%peels_reach).
    destruct Hp as [H1 H2]. pose proof Ht as [_ E]%parse_id_ok. rewrite E in H1. done. }
  split. { eapply Forall2_Forall_l; [exact Hall|]. apply Forall_forall. naive_solver. }
  destruct (Hobjs (fun _ => true)) as (objs & Eo & _ & _ & Hin). exists objs. split.
  - by rewrite <- Eo, Kept_retain_all.
  - intros x Hx. apply Hin in Hx as (t & ds & d & Hz & _ & Hd & ->). exists t. apply list_elem_of_lookup in Hz as (n & Hz).
    apply lookup_zip_Some in Hz as [Ht Hds]. split; [by eapply list_elem_of_lookup_2|].
    destruct (Forall2_lookup_lr _ _ _ _ _ _ Hall Ht Hds) as (_ & _ & H). by apply H.
Qed.

(** [write] of branches as an artifact lists them, when every tag object is there. *)
Lemma write_remotes a kept remotes present files :
  check sha1 a = Ok kept -> (nlen (ta_objects a) <= 2 ^ 32)%N -> remotes <> [] ->
  NoDup (map fst remotes) -> StronglySorted (fun x y => pair_le x y = true) remotes ->
  Forall (fun r => validate_checkout_name r.1 = Ok tt /\ exists id, parse_id r.2 = Ok id) remotes ->
  files !! "packed-refs" = None ->
  (forall objs x, Kept_objects kept = Some objs -> x ∈ objs -> present x.1 = true) -> is_Some (Kept_objects kept) ->
  exists text, write sha1 crc32 kept remotes present files = (<["packed-refs" := ascii_bytes text]> files, Ok tt) /\
    read_packed_refs text = written_refs kept remotes.
Proof.
  intros Hc Hlen Hne Hnd Hs Hv Hp Hpres [objs Eo]. exists (packed_refs (written_refs kept remotes)). split.
  - unfold write. rewrite (bool_decide_eq_false_2 _ Hne), andb_false_r. unfold sbind, get_files, lift. rewrite Hp.
    rewrite bool_decide_eq_false_2 by by intros [? ?]. rewrite Eo. cbn [context].
    assert (List.filter (fun o => negb (present o.1)) objs = []) as ->.
    { apply filter_none. intros x Hx. by rewrite (Hpres _ _ Eo Hx). }
    done.
  - apply read_packed_refs_spec. apply written_refs_spec.
    + pose proof (check_names_ok sha1 a kept (fun _ => true) Hc Hlen) as H. rewrite Kept_retain_all in H. exact H.
    + split; [|done]. apply names_sorted; [by apply pair_le_names|done].
Qed.

(** What the layers complete is in the clone, once they are installed. *)
Lemma layers_held storage layers side files base tip o :
  downloaded storage layers side -> (forall o, reach base o -> held index_open files o) ->
  (reach tip o -> reach base o \/ layers_hold pack_holds storage layers o) -> reach tip o ->
  held index_open files o \/ exists f, f ∈ side /\ idx_holds index_open (pf_idx f) o.
Proof.
  intros Hd Hbase Hc Ho. destruct (Hc Ho) as [?|(l & pack & Hl & Hst & Hp)]; [left; by apply Hbase|right].
  destruct (Forall2_in_l _ _ _ l Hd Hl) as (f & Hf & Hst' & Hok). exists f. split; [done|]. apply (oo_lists Hobjects _ _ _ Hok). congruence.
Qed.

Lemma held_packed_refs files text o : held index_open files o -> held index_open (<["packed-refs" := text]> files) o.
Proof.
  intros (path & idx & Hp & Hi & Ho). exists path, idx. split; [|done]. etransitivity; [apply lookup_insert_ne|exact Hp]. by intros <-.
Qed.
(** Once the clone holds what its refs reach, they are written. *)
Lemma install_complete a kept refs side files files1 pin upstream_url reaches base d :
  check sha1 a = Ok kept -> (nlen (ta_objects a) <= 2 ^ 32)%N ->
  install_packs "side pack" side files = (files1, Ok tt) -> git_dir_ok git_idx files1 -> files1 !! "packed-refs" = None ->
  br_base refs = Some base -> br_default_branch refs = Some d -> find_branch d (br_branches refs) = Some base ->
  NoDup (map fst (br_branches refs)) -> StronglySorted (fun x y => pair_le x y = true) (br_branches refs) ->
  Forall (fun r => validate_checkout_name r.1 = Ok tt) (br_branches refs) ->
  (forall t o, t ∈ map snd (br_branches refs) ++ map kt_object (k_tags kept) -> reach t o -> held index_open files1 o) ->
  exists text, install_full_refs index_open sha1 crc32 run_git git_stdout find_kind
      {| fu_tags := kept; fu_branches := Some refs; fu_side := side |} upstream_url pin reaches files
    = (<["packed-refs" := ascii_bytes text]> files1,
       Ok (Some (d, if pn_tracks pin && bool_decide (pn_checkout pin = d) then pn_commit pin else base))) /\
    read_packed_refs text = written_refs kept (br_branches refs).
Proof.
  intros Hcheck Hlen E1 Hdir Hp Hbase Hd Hfind Hnd Hs Hv Hall.
  destruct (scan_held index_open git_idx (oo_index Hobjects) files1 Hdir) as (present & Escan & Hpres).
  assert (Hbr : forall r, r ∈ br_branches refs -> exists id, parse_id r.2 = Ok id /\ present_in present id = true).
  { intros r Hr. apply Hpres, (Hall r.2); [|apply Hobjects]. apply elem_of_app. left. apply elem_of_lmap. by exists r. }
  assert (Htag : forall t o, t ∈ k_tags kept -> reach (kt_object t) o -> exists id, parse_id o = Ok id /\ present_in present id = true).
  { intros t o Ht Ho. apply Hpres, (Hall (kt_object t)); [|done]. apply elem_of_app. right. apply elem_of_lmap. by exists t. }
  destruct (kept_reach a kept Hcheck Hlen) as (Htags & objs & Eo & Hobjs).
  assert (Hcomplete : refs_complete present {| fu_tags := kept; fu_branches := Some refs; fu_side := side |} = true).
  { unfold refs_complete. cbn [fu_branches fu_tags]. rewrite Hbase, !andb_true_iff, !forallb_forall. setoid_rewrite <- list_elem_of_In. split_and!.
    - destruct (Hbr (d, base) (find_branch_Some _ _ _ Hfind)) as (id & Hid & H). cbn in Hid. unfold contains_hex. by rewrite Hid.
    - intros r Hr. destruct (Hbr r Hr) as (id & Hid & H). unfold contains_hex. by rewrite Hid.
    - intros t Ht. rewrite Forall_forall in Htags. destruct (Htags t Ht) as [Hreach Hid]. destruct (Htag t _ Ht Hreach) as (id & Hid' & H). congruence. }
  destruct (write_remotes a kept (br_branches refs) (present_in present) files1 Hcheck Hlen) as (text & Ew & Hread); try done.
  - intros Hnil. by rewrite Hnil in Hfind.
  - apply Forall_forall. intros r Hr. rewrite Forall_forall in Hv. destruct (Hbr r Hr) as (id & Hid & _). split; [by apply Hv|by exists id].
  - intros objs' x Eo' Hx. rewrite Eo in Eo'. injection Eo' as <-. destruct (Hobjs x Hx) as (t & Ht & Hr).
    destruct (Htag t _ Ht Hr) as (id & [_ Hid%hex_encode_inj]%parse_id_ok & H). by subst id.
  - exists text. split; [|done]. unfold install_full_refs, sbind, get_files, lift. cbn [fu_side]. rewrite E1, Escan, Hcomplete.
    cbn [fu_branches fu_tags context]. rewrite Ew, Hd. cbn [mbind option_bind]. rewrite Hfind. unfold commit_of, sret. by case_match.
Qed.

(** The refs hash tells the tags listed. *)
Lemma tags_of_hash m tags : (forall a b, hash a = hash b -> a = b) -> mirror_ok hash m -> named_ok tags ->
  MirrorRefs_hash (hash_text hash) m = refs_hash (hash_text hash) (mr_default_branch m) (mr_branches m) tags -> tags = mr_tags m.
Proof.
  intros Hinj (head & references & Hnd & Hids & ->) Htags H%Hinj.
  apply (f_equal String.string_of_list_byte) in H. rewrite !String.string_of_list_byte_of_string in H.
  assert (Hids' : ids_ok references) by (intros n i Hi; by eapply id_of_parse, Hids).
  apply refs_text_inj in H as (_ & _ & H); [done|..|done].
  1, 4: by apply default_listed, branches_named_ok.
  1, 3: by apply branches_named_ok.
  by apply tags_named_ok.
Qed.

(** C15: a full clone has every ref with all its objects. Whatever was pushed,
    published, built or deleted before, let a clone hold the history of the default
    branch that the stored refs name, and have downloaded their side pack's layers,
    with the indexes git wrote for them, and tags listed with them. Then, without
    asking upstream, it installs: its [packed-refs] reads back as every branch of the
    stored artifact and every tag, each object that one of them reaches is in a pack
    of the clone, and [origin/HEAD] is the default branch, at the commit the clone
    checked out when it tracks it and at the listed one otherwise. *)
Theorem full_clone_complete w repo row b base :
  (forall a, message_decode (encode_to_vec a) = Ok a) -> (forall raw c, encode_all raw = Ok c -> decode_all c = Ok raw) ->
  (forall a b, hash a = hash b -> a = b) ->
  reachable_world cfg hash tags_build encode_to_vec encode_all reach pack_holds w ->
  get_refs repo (w_store w) = Ok (Some row) -> row_names row b -> rb_base b = Some base ->
  exists artifact refs, w_storage w !! rb_artifact b = Some artifact /\ branches_decode message_decode decode_all artifact = Ok refs /\
    forall tags a kept side files pin upstream_url reaches,
      named_ok tags -> rb_refs_hash b = refs_hash (hash_text hash) (br_default_branch refs) (br_branches refs) tags ->
      check sha1 a = Ok kept -> (nlen (ta_objects a) <= 2 ^ 32)%N -> (forall t, t ∈ k_tags kept -> (kt_name t, kt_object t) ∈ tags) ->
      downloaded (w_storage w) (rb_side_packs b) side -> git_dir_ok git_idx files ->
      (forall o, reach base o -> held index_open files o) -> files !! "packed-refs" = None ->
      exists files' text d, install_full_refs index_open sha1 crc32 run_git git_stdout find_kind
          {| fu_tags := kept; fu_branches := Some refs; fu_side := side |} upstream_url pin reaches files
        = (files', Ok (Some (d, if pn_tracks pin && bool_decide (pn_checkout pin = d) then pn_commit pin else base))) /\
        br_default_branch refs = Some d /\
        files' !! "packed-refs" = Some (ascii_bytes text) /\ read_packed_refs text = written_refs kept (br_branches refs) /\
        forall name t o, (name, t) ∈ written_refs kept (br_branches refs) -> reach t o -> held index_open files' o.
Proof.
  intros Hmsg Hz Hinj [_ Hw]%reachable_world_ok Hrow Hb Hbase. pose proof (Hw repo row Hrow b Hb) as Hok.
  apply branches_ok_refs in Hok as (m & artifact & Hm & Ha & Hst & Hh & _ & Hmb & Hc).
  pose proof Hm as (head & references & Hnd & Hids & Em).
  destruct (read_branches (hash_text hash) head references Hnd) as (Hndb & Hsorted & Hrefs & Hdef). rewrite <- Em in Hndb, Hsorted, Hrefs, Hdef.
  set (refs := {| br_default_branch := mr_default_branch m; br_base := MirrorRefs_base m; br_branches := mr_branches m |}).
  exists artifact, refs. split_and!; [done| |].
  { unfold refs. rewrite Em in *. by apply (branches_decode_build (hash_text hash) encode_to_vec message_decode encode_all decode_all Hmsg Hz). }
  intros tags a kept side files pin upstream_url reaches Hnamed Hrh Hcheck Hlen Htags Hside Hdir Hhist Hpacked.
  rewrite Hh in Hrh. apply (tags_of_hash m tags Hinj Hm Hnamed) in Hrh as ->.
  specialize (Hc base Hbase). rewrite Hmb in Hbase.
  assert (exists d, mr_default_branch m = Some d /\ find_branch d (mr_branches m) = Some base) as (d & Hd & Hfind).
  { unfold MirrorRefs_base in Hbase. destruct (mr_default_branch m) as [d|]; [|done]. by exists d. }
  destruct (install_packs_ok index_open git_idx (oo_index Hobjects) "side pack" side files) as (files1 & E1 & Hdir1 & Hheld1 & Hp1); [|done|].
  { eapply Forall2_Forall_r; [exact Hside|]. apply Forall_forall. by intros l _ f [_ ?]. }
  assert (Hall : forall name t o, (name, t) ∈ mr_branches m ++ mr_tags m -> reach t o -> held index_open files1 o).
  { intros name t o Hin Ho. apply Hheld1. eapply layers_held; [exact Hside|exact Hhist| |exact Ho]. by apply (Hc name). }
  destruct (install_complete a kept refs side files files1 pin upstream_url reaches base d) as (text & Ei & Hread); try done.
  - by rewrite Hp1.
  - apply Forall_forall. intros r Hr. by apply Hrefs.
  - intros t o [(r & -> & Hr)%elem_of_lmap|(t' & -> & Ht)%elem_of_lmap]%elem_of_app Ho.
    + apply (Hall r.1 r.2); [|done]. apply elem_of_app. left. by destruct r.
    + apply (Hall (kt_name t') (kt_object t')); [|done]. apply elem_of_app. right. by apply Htags.
  - exists (<["packed-refs" := ascii_bytes text]> files1), text, d. split_and!; [exact Ei|done|apply lookup_insert_eq|done|].
    intros name t o Hin Ho. apply held_packed_refs. apply elem_of_app in Hin as [(r & [= -> ->] & Hr)%elem_of_lmap|(t' & [= -> ->] & Ht)%elem_of_lmap].
    + apply (Hall r.1 r.2); [|done]. apply elem_of_app. left. by destruct r.
    + apply (Hall (kt_name t') (kt_object t')); [|done]. apply elem_of_app. right. by apply Htags.
Qed.
End full_clone.

(** ** A clone *)
Module FullCloneExample.
Import ControlThms.Example RefsExample PublishExample.
(** Packs that list the tips they hold, and end as git's do; the history's is
    [0101...], every other [0202...]. Every tag object has the id [dead], which reaches
    every object. *)
Definition trailer (b : Byte.byte) : bytes := repeat b 20.
Definition idx_of (b : Byte.byte) : bytes := trailer b ++ trailer Byte.x00.
Definition pack_of (tips : list string) : bytes := replicate 40 Byte.x00 ++ to_wire tips ++ trailer Byte.x02.
Lemma pack_of_inj tips tips' : pack_of tips = pack_of tips' -> tips = tips'.
Proof.
  unfold pack_of. intros H. apply app_inv_head in H. apply app_inv_tail in H. apply (f_equal (of_wire (A := list string))) in H.
  rewrite !of_to_wire in H. by injection H.
Qed.
Definition dead : string := "dededededededededededededededededededede".
Definition sha1 (b : bytes) : bytes := repeat Byte.xde 20.
Definition reach (t o : string) : Prop := t = o \/ t = dead.
Definition pack_holds (pack : bytes) (o : string) : Prop := exists tips, pack = pack_of tips /\ o ∈ tips.
Definition pack_objects_excluding (tips excluded : list string) : Result (bytes * bytes) :=
  if decide (dead ∈ tips) then Err "" else Ok (pack_of tips, idx_of Byte.x02).
Definition id_of (s : string) : bytes := match parse_id s with Ok id => id | Err _ => [] end.
Definition index_open (idx : bytes) : Result (list bytes) :=
  Ok (if decide (checksum_of idx = trailer Byte.x01) then [id_of one] else [id_of two]).
Lemma clone_git_ok : GitOk cas_hash pack_objects_excluding is_ancestor reach pack_holds.
Proof.
  constructor.
  - intros tips excluded pack idx H t o Ht Ho. unfold pack_objects_excluding in H. destruct (decide (dead ∈ tips)) as [|Hn]; [done|].
    injection H as <- _. destruct Ho as [<-| ->]; [|done]. right. by exists tips.
  - intros pack o (tips & -> & _). unfold nlen, pack_of. rewrite length_app, length_replicate. lia.
  - intros old new [= ->%bool_decide_eq_true]. done.
  - apply git_ok.
Qed.
(** The indexes git wrote: of the history's pack, and of a pack made for [two]. *)
Definition history_bytes : bytes := replicate 40 Byte.x00 ++ trailer Byte.x01.
Definition git_idx (pack idx : bytes) : Prop :=
  (pack = history_bytes /\ idx = idx_of Byte.x01) \/ (pack = pack_of [two] /\ idx = idx_of Byte.x02).
Lemma objects_ok : ObjectsOk reach pack_holds index_open git_idx sha1.
Proof.
  constructor.
  - by left.
  - intros t u o [<-| ->] H; [exact H|by right].
  - intros d next _. by right.
  - constructor.
    + intros pack idx [[-> ->]|[-> ->]]; split_and!; by vm_compute.
    + intros pack idx _. by eexists.
    + intros pack idx pack' idx' _ _ H. unfold index_open. by rewrite H.
  - intros pack idx o [[-> ->]|[-> ->]] (tips & H & Ho).
    + exfalso. revert H. unfold history_bytes, pack_of. intros [_ H]%app_inj_1; [|done]. apply (f_equal (fun l : bytes => last l)) in H. by rewrite last_app in H.
    + apply pack_of_inj in H as <-. apply list_elem_of_singleton in Ho as ->. exists (id_of two), [id_of two]. split_and!; [by vm_compute..|]. by left.
Qed.
Definition listed : list (string * option string) :=
  [("refs/tags/v1", Some one); ("refs/heads/side", Some two); ("refs/heads/main", Some one)].
Lemma listed_mirror_ok : mirror_ok cas_hash (mirror listed).
Proof.
  apply mirror_is_ok; [apply (bool_decide_unpack (NoDup _)); by vm_compute|].
  intros name o H. unfold listed in H. rewrite !elem_of_cons in H. destruct H as [[= _ ->]|[[= _ ->]|[[= _ ->]|[]%elem_of_nil]]]; auto.
Qed.
Definition world : RefsPublish.World serde :=
  (publish_pinned cas_hash upload pack_objects_excluding is_ancestor tags_build (MirrorRefs_build to_wire Ok)
    (fun _ => None) true repo All (mirror listed) (mirror listed) world0).1.
Lemma reachable_clone_world : reachable_world cfg cas_hash tags_build to_wire Ok reach pack_holds world.
Proof.
  apply (rtc_l _ _ world0); [|apply rtc_once].
  - apply (ws_control cfg cas_hash tags_build to_wire Ok reach pack_holds admitted empty_world); [|done]. apply step_admit. by vm_compute.
  - exact (ws_publish cfg cas_hash tags_build to_wire Ok reach pack_holds upload pack_objects_excluding is_ancestor
      (fun _ => None) true repo All (mirror listed) (mirror listed) world0 clone_git_ok listed_mirror_ok listed_mirror_ok).
Qed.
Definition the_row : RepoRefs := match get_refs repo (w_store world) with Ok (Some row) => row | _ => RepoRefs_default end.
Definition the_branches : RepoBranches :=
  default {| rb_artifact := ""; rb_len := 0; rb_refs_hash := ""; rb_default_branch := None; rb_base := None; rb_side_base := None;
             rb_side_tips := ""; rb_side_packs := []; rb_tags := {| pt_artifact := ""; pt_len := 0; pt_count := 0; pt_hash := "" |} |} (branches the_row).
Definition the_refs : Branches :=
  {| br_default_branch := Some "main"; br_base := Some one; br_branches := [("main", one); ("side", two)] |}.
Lemma clone_row : get_refs repo (w_store world) = Ok (Some the_row) /\ branches the_row = Some the_branches.
Proof. split; by vm_compute. Qed.
Lemma clone_layers : map (fun l => w_storage world !! side_pack l) (rb_side_packs the_branches) = [Some (pack_of [two])] /\
  rb_base the_branches = Some one.
Proof. split; by vm_compute. Qed.
Lemma clone_refs : branches_decode of_wire Ok (default [] (w_storage world !! rb_artifact the_branches)) = Ok the_refs /\
  rb_refs_hash the_branches = refs_hash (hash_text cas_hash) (Some "main") (br_branches the_refs) [("v1", one)].
Proof. split; by vm_compute. Qed.
(** The history's pack is there; the side pack is downloaded. *)
Definition files : Files := {[ idx_path (trailer Byte.x01) := idx_of Byte.x01 ]}.
Definition side : list PackFiles := [{| pf_pack := pack_of [two]; pf_idx := idx_of Byte.x02 |}].
Definition artifact : TagsArtifact := {| ta_tags := [{| t_name := "v1"; t_object := one; t_peeled := "" |}]; ta_objects := [] |}.
Definition kept : Kept :=
  {| k_tags := [{| kt_name := "v1"; kt_object := one; kt_target := one; kt_target_id := id_of one; kt_chain := [] |}]; k_objects := [] |}.
Definition pin : Pin :=
  {| pn_commit := one; pn_checkout := "main"; pn_tracks := true; pn_default_branch := true; pn_tag := None; pn_single_branch := false;
     pn_clone_id := None |}.
Lemma side_downloaded storage layers : map (fun l => storage !! side_pack l) layers = [Some (pack_of [two])] ->
  downloaded git_idx storage layers side.
Proof.
  intros Hl. destruct layers as [|l [|]]; [discriminate Hl| |discriminate Hl]. cbn [map] in Hl.
  assert (Hst : storage !! side_pack l = Some (pack_of [two])) by congruence. constructor; [|constructor]. split; [exact Hst|by right].
Qed.
Lemma files_ok : git_dir_ok git_idx files /\ forall o, reach one o -> held index_open files o.
Proof.
  split.
  - intros path idx H _. unfold files, Files in H. apply lookup_singleton_Some in H as [<- <-]. split; [by vm_compute|]. exists history_bytes. by left.
  - intros o [<-|H]; [|discriminate H]. exists (idx_path (trailer Byte.x01)), (idx_of Byte.x01). split_and!; [by vm_compute..|].
    exists (id_of one), [id_of one]. split_and!; [by vm_compute..|]. by left.
Qed.

(** The clone is written without git. *)
Lemma full_clone_complete_witness :
  exists files' text, install_full_refs index_open sha1 (fun _ => 0%N) (fun _ files => (files, inr {| gf_io := true; gf_text := "" |})) (fun _ _ => Err "")
      (fun _ => Err "") {| fu_tags := kept; fu_branches := Some the_refs; fu_side := side |} None pin None files = (files', Ok (Some ("main", one))) /\
    read_packed_refs text = [("refs/remotes/origin/main", one); ("refs/remotes/origin/side", two); ("refs/tags/v1", one)] /\
    files' !! "packed-refs" = Some (ascii_bytes text) /\ held index_open files' two.
Proof.
  destruct clone_row as [Hrow Hb], clone_layers as [Hlayers Hbase], clone_refs as [Hrefs Hhash], files_ok as [Hdir Hhist].
  destruct (full_clone_complete cfg cas_hash tags_build to_wire of_wire Ok Ok reach pack_holds index_open git_idx sha1 (fun _ => 0%N)
    (fun _ files => (files, inr {| gf_io := true; gf_text := "" |})) (fun _ _ => Err "") (fun _ => Err "") objects_ok
    world repo the_row the_branches one of_to_wire ltac:(by intros raw c [= <-]) (go_hash _ _ _ _ _ clone_git_ok) reachable_clone_world
    Hrow (or_introl Hb) Hbase) as (art & refs & Hst & Hdec & H).
  rewrite Hst in Hrefs. change (default [] (Some art)) with art in Hrefs. rewrite Hrefs in Hdec. injection Hdec as <-.
  destruct (H [("v1", one)] artifact kept side files pin None None) as (files' & text & d & Hi & Hd & Hp & Hread & Hheld);
    [by repeat constructor|exact Hhash|by vm_compute|by vm_compute|by intros t ->%list_elem_of_singleton; left|by apply side_downloaded|
     exact Hdir|exact Hhist|by vm_compute|].
  injection Hd as <-. exists files', text. split_and!; [exact Hi|rewrite Hread; by vm_compute|exact Hp|].
  apply (Hheld "refs/remotes/origin/side" two); [|by left]. apply elem_of_app. left. by right; left.
Defined.
End FullCloneExample.
