(* ===== verification/Staging.v ===== *)
(** The staging directory of a clone ([rust/src/client/staging.rs]): the stale ones a
    clone removes, its rename onto the target, and the reaper that removes it once
    every guarded task and child process the clone started has ended. The blocking
    tasks that [install.rs] spawns without a guard are jobs too: dropping their owner
    detaches them.

    The directory the target lives in is a map from names to entries, with the
    markers that running clones hold locked. The reaper, the clone and its tasks are
    steps of a state; a step is what happens between two points where others may
    run. Notifications are [tokio::sync::Notify]'s: one is kept when nobody waits. *)

From S2P Require Import Prelude Bytes Refs LsRemote.

(** ** The directory *)
Inductive Entry (T : Type) := EDir (tree : T) (permissions : N) | EFile (content : string) | EOther.
#[global] Arguments EDir {T}. #[global] Arguments EFile {T}. #[global] Arguments EOther {T}.

Section directory.
Context {T : Type} (empty : T -> bool).
Record Parent := { pa_entries : gmap string (Entry T); pa_locked : gset string }.

Definition INSTALL_STAGING_MARKER_SUFFIX : string := ".ripclone-install-staging".
Definition install_staging_marker (staging : string) : string := staging +:+ INSTALL_STAGING_MARKER_SUFFIX.
Definition MARKER : string := "ripclone" +:+ String newline_char "".

(** Whether an entry is a staging directory that an ended clone into [target] left. *)
Definition is_stale (target : string) (parent : Parent) (name : string) : bool :=
  match (rest ← strip_prefix (target +:+ ".ripclone-") name; strip_suffix ".tmp" rest) with
  | None => false
  | Some rest =>
      negb (bool_decide (rest = "")) &&
      match pa_entries parent !! name with Some (EDir _ _) => true | _ => false end &&
      match pa_entries parent !! install_staging_marker name with
      | Some (EFile content) =>
          negb (bool_decide (install_staging_marker name ∈ pa_locked parent)) && bool_decide (content = MARKER)
      | _ => false
      end
  end.
(** [can_remove] is whether [remove_dir_all] of a name succeeds. *)
Definition remove_stale (can_remove : string -> bool) (parent : Parent) (name : string) : Parent :=
  if can_remove name
  then {| pa_entries := base.delete (install_staging_marker name) (base.delete name (pa_entries parent)); pa_locked := pa_locked parent |}
  else parent.
(** Over the names [read_dir] gave. *)
Definition cleanup_stale_install_dirs (can_remove : string -> bool) (target : string) (names : list string) (parent : Parent) : Parent :=
  foldl (fun parent name => if is_stale target parent name then remove_stale can_remove parent name else parent) parent names.

(** A clone's staging directory [name], under its locked marker. *)
Definition temp_install_dir (name : string) (new : T) (permissions : N) (parent : Parent) : Parent :=
  {| pa_entries := <[install_staging_marker name := EFile MARKER]> (<[name := EDir new permissions]> (pa_entries parent));
     pa_locked := {[ install_staging_marker name ]} ∪ pa_locked parent |}.
(** [StagedTempDir]'s drop, which keeps the marker of a directory still there. *)
Definition StagedTempDir_drop (removed : bool) (name : string) (parent : Parent) : Parent :=
  let entries := if removed then base.delete name (pa_entries parent) else pa_entries parent in
  {| pa_entries := match entries !! name with Some _ => entries | None => base.delete (install_staging_marker name) entries end;
     pa_locked := pa_locked parent ∖ {[ install_staging_marker name ]} |}.

(** The permissions of the empty directory a clone replaces. [target] has a name in
    its directory. *)
Definition check_target (target : string) (parent : Parent) : Result (option N) :=
  match pa_entries parent !! target with
  | None => Ok None
  | Some (EDir tree permissions) =>
      ensure! empty tree else "target directory already exists and is not empty"; Ok (Some permissions)
  | Some _ => Err "target directory already exists and is not empty"
  end.
(** [rename] of a directory replaces a missing or an empty one. *)
Definition publish (staging target : string) (keep : option N) (parent : Parent) : Parent * Result unit :=
  match pa_entries parent !! staging with
  | Some (EDir tree permissions) =>
      let permissions := default permissions keep in
      let changed := <[staging := EDir tree permissions]> (pa_entries parent) in
      match pa_entries parent !! target with
      | None | Some (EDir _ _) =>
          if match pa_entries parent !! target with Some (EDir old _) => empty old | _ => true end
          then ({| pa_entries := <[target := EDir tree permissions]> (base.delete staging changed); pa_locked := pa_locked parent |}, Ok tt)
          else ({| pa_entries := changed; pa_locked := pa_locked parent |}, Err "rename")
      | Some _ => ({| pa_entries := changed; pa_locked := pa_locked parent |}, Err "rename")
      end
  | _ => (parent, Err "rename")
  end.
End directory.

(** ** What the cleanup removes *)
Definition last_char (s : string) : option ascii := last (String.list_ascii_of_string s).
Lemma last_char_app s t : t <> "" -> last_char (s +:+ t) = last_char t.
Proof.
  intros Ht. unfold last_char. rewrite list_ascii_of_string_app, last_app.
  destruct t as [|a t]; [done|]. by destruct (last_is_Some (String.list_ascii_of_string (String a t))) as [_ [x ->]].
Qed.
Lemma marker_inj m n : install_staging_marker m = install_staging_marker n -> m = n.
Proof.
  unfold install_staging_marker. intros H. pose proof (strip_suffix_app m INSTALL_STAGING_MARKER_SUFFIX) as Hm.
  pose proof (strip_suffix_app n INSTALL_STAGING_MARKER_SUFFIX) as Hn. rewrite H in Hm. congruence.
Qed.

Section cleanup.
Context {T : Type} (can_remove : string -> bool) (target : string).
Implicit Types parent : Parent (T := T).

Record stale_facts parent (name : string) : Prop := {
  sf_last : last_char name = Some "p"%char;
  sf_dir : exists tree permissions, pa_entries parent !! name = Some (EDir tree permissions);
  sf_marker : pa_entries parent !! install_staging_marker name = Some (EFile MARKER);
  sf_unlocked : install_staging_marker name ∉ pa_locked parent;
}.
Lemma is_stale_facts parent name : is_stale target parent name = true -> stale_facts parent name.
Proof.
  unfold is_stale. intros H. destruct (strip_prefix _ name) as [rest|] eqn:Ep; [|done]. cbn [mbind option_bind] in H.
  destruct (strip_suffix ".tmp" rest) as [mid|] eqn:Es; [|done]. apply strip_prefix_Some in Ep as ->. apply strip_suffix_Some in Es as ->.
  apply andb_true_iff in H as [[_ Hd]%andb_true_iff Hm].
  destruct (pa_entries parent !! _) as [[tree permissions| |]|] eqn:Ed in Hd; try done.
  destruct (pa_entries parent !! install_staging_marker _) as [[|content|]|] eqn:Em in Hm; try done.
  apply andb_true_iff in Hm as [Hl Hc]. breflect. subst content. split; [|by eexists _, _|done|done].
  rewrite !last_char_app; [reflexivity|done|by destruct mid].
Qed.
Lemma not_marker name m : last_char name = Some "p"%char -> name <> install_staging_marker m.
Proof. intros H ->. unfold install_staging_marker in H. rewrite last_char_app in H; [discriminate H|done]. Qed.

(** Removing one stale directory leaves the verdict on the others. *)
Lemma remove_stale_lookup parent m name : can_remove m = true -> name <> m -> name <> install_staging_marker m ->
  pa_entries (remove_stale can_remove parent m) !! name = pa_entries parent !! name.
Proof. intros Hr H1 H2. unfold remove_stale. rewrite Hr. cbn. by rewrite !lookup_delete_ne by congruence. Qed.
Lemma remove_stale_other parent m name : is_stale target parent m = true -> name <> m ->
  is_stale target (remove_stale can_remove parent m) name = is_stale target parent name.
Proof.
  intros Hm%is_stale_facts Hne. destruct (can_remove m) eqn:Hr; [|by unfold remove_stale; rewrite Hr].
  unfold is_stale. destruct (strip_prefix _ name) as [rest|] eqn:Ep; [|done]. cbn [mbind option_bind].
  destruct (strip_suffix ".tmp" rest) as [mid|] eqn:Es; [|done].
  assert (Hl : last_char name = Some "p"%char).
  { apply strip_prefix_Some in Ep as ->. apply strip_suffix_Some in Es as ->. rewrite !last_char_app; [reflexivity|done|by destruct mid]. }
  assert (H1 : name <> install_staging_marker m) by (by apply not_marker).
  assert (H2 : install_staging_marker name <> m) by (intros H; by apply (not_marker m name (sf_last _ _ Hm))).
  assert (H3 : install_staging_marker name <> install_staging_marker m) by (by intros ?%marker_inj).
  rewrite !remove_stale_lookup by done. unfold remove_stale. by rewrite Hr.
Qed.

(** The cleanup before a clone removes the staging directories that ended clones
    into the same target left, with their markers, and nothing else. *)
Record cleaned parent (names : list string) parent' : Prop := {
  cd_locks : pa_locked parent' = pa_locked parent;
  cd_only name : pa_entries parent' !! name = pa_entries parent !! name \/
    pa_entries parent' !! name = None /\
    exists m, m ∈ names /\ is_stale target parent m = true /\ (name = m \/ name = install_staging_marker m);
  cd_gone m : m ∈ names -> is_stale target parent m = true -> can_remove m = true ->
    pa_entries parent' !! m = None /\ pa_entries parent' !! install_staging_marker m = None;
}.
Lemma cleanup_ok names parent : cleaned parent names (cleanup_stale_install_dirs can_remove target names parent).
Proof.
  revert parent. induction names as [|m names IH]; intros parent.
  { split; [done|by left|]. by intros m ?%elem_of_nil. }
  unfold cleanup_stale_install_dirs in *. cbn [foldl]. destruct (is_stale target parent m) eqn:Em.
  2: { destruct (IH parent) as [H1 H2 H3]. split; [done|set_solver|]. intros k [->|Hk]%elem_of_cons Hs; [congruence|by apply H3]. }
  set (next := remove_stale can_remove parent m). destruct (IH next) as [H1 H2 H3]. destruct (can_remove m) eqn:Er.
  2: { assert (Hn : next = parent) by (unfold next, remove_stale; by rewrite Er). rewrite Hn in *. split; [done|set_solver|].
       intros k [->|Hk]%elem_of_cons Hs Hk'; [congruence|by apply H3]. }
  assert (Hkeep : forall name, pa_entries next !! name = None -> pa_entries (foldl (fun parent name => if is_stale target parent name then remove_stale can_remove parent name else parent) next names) !! name = None).
  { intros name Hn. destruct (H2 name) as [->|[? _]]; done. }
  assert (Hgone : pa_entries next !! m = None /\ pa_entries next !! install_staging_marker m = None).
  { unfold next, remove_stale. rewrite Er. cbn. split; [|apply lookup_delete_eq].
    rewrite lookup_delete_ne; [apply lookup_delete_eq|]. apply not_eq_sym, not_marker. by apply is_stale_facts in Em as []. }
  split.
  - rewrite H1. unfold next, remove_stale. by rewrite Er.
  - intros name. destruct (decide (name = m \/ name = install_staging_marker m)) as [Hd|Hd].
    { right. split; [apply Hkeep; destruct Hd as [->| ->]; apply Hgone|]. exists m. set_solver. }
    destruct (H2 name) as [Hs|(Hs & k & Hk & Hks & Hkn)].
    { left. rewrite Hs. apply remove_stale_lookup; naive_solver. }
    right. split; [done|]. exists k. split; [set_solver|]. split; [|done].
    destruct (decide (k = m)) as [->|Hne]; [done|]. by rewrite <- (remove_stale_other parent m k).
  - intros k Hk Hs Hr. destruct (decide (k = m)) as [->|Hne]; [split; apply Hkeep, Hgone|].
    apply H3; [set_solver| |done]. unfold next; by rewrite remove_stale_other.
Qed.
(** A clone that still runs holds its marker locked. *)
Lemma cleanup_keeps_live names parent name tree permissions : pa_entries parent !! name = Some (EDir tree permissions) ->
  install_staging_marker name ∈ pa_locked parent ->
  pa_entries (cleanup_stale_install_dirs can_remove target names parent) !! name = Some (EDir tree permissions).
Proof.
  intros Hd Hl. destruct (cd_only _ _ _ (cleanup_ok names parent) name) as [->|(_ & m & _ & Hm%is_stale_facts & [->| ->])]; [done| |].
  - by destruct (sf_unlocked _ _ Hm).
  - by rewrite (sf_marker _ _ Hm) in Hd.
Qed.
End cleanup.

(** ** The reaper *)

(** The guard of a task or child process: not made yet, held by its owner, handed to
    the reaper but still counted, and gone. A blocking task without a guard has its
    [JoinHandle] for one: dropped before the task ended, it is detached. *)
Inductive Guard := GNew | GHeld | GPushed | GGone | GDetached.
Definition gone (g : Guard) : bool := match g with GGone | GDetached => true | _ => false end.
(** What a job is: a task under an [AbortOnDrop], a process under a [GitChild], or a
    bare [spawn_blocking]. *)
Inductive JobKind := JTask | JChild | JRaw.
#[export] Instance Guard_eq_dec : EqDecision Guard.
Proof. solve_decision. Defined.
(** A job, owned by another task or by the clone itself. An [AbortOnDrop] is counted,
    a [GitChild] is not. *)
Record Job := { jb_owner : option nat; jb_kind : JobKind; jb_alive : bool; jb_guard : Guard }.
Definition jb_counted (job : Job) : bool := match jb_kind job with JTask => true | _ => false end.
Definition guarded (job : Job) : bool := match jb_kind job with JRaw => false | _ => true end.
(** Where the reaper is; [final] in the drain before its return. *)
Inductive ReaperPc := RDrain (final : bool) | RAwait (final : bool) (handles : list nat) | RCheck | RWait | RDone.
Record Reaping := {
  rs_jobs : list Job;
  rs_pending : list nat;  (* the handles pushed *)
  rs_closed : bool;
  rs_active : nat;
  rs_owed : nat;  (* calls of [notify_one] about to be made *)
  rs_permit : bool;  (* a notification nobody has taken *)
  rs_pc : ReaperPc;
}.
(** [spawn_reaper], at the start of a clone. *)
Definition reaping_start : Reaping :=
  {| rs_jobs := []; rs_pending := []; rs_closed := false; rs_active := 0; rs_owed := 0; rs_permit := false; rs_pc := RDrain false |}.

Inductive Act :=
  | ASpawn (owner : option nat) (kind : JobKind)
  | AGuard (i : nat) | APush (i : nat) | AFinish (i : nat) | AJoin (i : nat)
  | AEnd (i : nat) | AClose | ANotify | AReap.

Definition runs (s : Reaping) (owner : option nat) : bool :=
  match owner with
  | None => negb (rs_closed s)
  | Some i => match rs_jobs s !! i with Some job => jb_alive job | None => false end
  end.
Definition with_guard (guard : Guard) (job : Job) : Job :=
  {| jb_owner := jb_owner job; jb_kind := jb_kind job; jb_alive := jb_alive job; jb_guard := guard |}.
Definition ended (job : Job) : Job :=
  {| jb_owner := jb_owner job; jb_kind := jb_kind job; jb_alive := false; jb_guard := jb_guard job |}.
(** A blocking task is given no [Cleanup]: it starts nothing. *)
Definition starts (s : Reaping) (owner : option nat) : bool :=
  runs s owner && match owner with
                  | None => true
                  | Some i => match rs_jobs s !! i with Some job => guarded job | None => false end
                  end.
(** Every guard the owner has is gone: what it owns is dropped before it ends. *)
Definition let_go (owner : option nat) (s : Reaping) : bool :=
  forallb (fun job => negb (bool_decide (jb_owner job = owner)) || gone (jb_guard job)) (rs_jobs s).
Definition set_job (i : nat) (job : Job) (pending : list nat) (active owed : nat) (s : Reaping) : Reaping :=
  {| rs_jobs := <[i := job]> (rs_jobs s); rs_pending := pending; rs_closed := rs_closed s; rs_active := active; rs_owed := owed;
     rs_permit := rs_permit s; rs_pc := rs_pc s |}.
Definition at_reaper (pc : ReaperPc) (pending : list nat) (permit : bool) (s : Reaping) : Reaping :=
  {| rs_jobs := rs_jobs s; rs_pending := pending; rs_closed := rs_closed s; rs_active := rs_active s; rs_owed := rs_owed s;
     rs_permit := permit; rs_pc := pc |}.

(** [drain_closed] of the reaper, after which it drops the staging directory. *)
Definition reap (s : Reaping) : option Reaping :=
  match rs_pc s with
  | RDrain final =>
      match rs_pending s with
      | [] => Some (at_reaper (if final then RDone else RCheck) [] (rs_permit s) s)
      | handles => Some (at_reaper (RAwait final handles) [] (rs_permit s) s)
      end
  | RAwait final handles =>
      if existsb (fun i => runs s (Some i)) handles then None else Some (at_reaper (RDrain final) (rs_pending s) (rs_permit s) s)
  | RCheck =>
      Some (at_reaper (if rs_closed s && bool_decide (rs_active s = 0) then RDrain true else RWait) (rs_pending s) (rs_permit s) s)
  | RWait => if rs_permit s then Some (at_reaper (RDrain false) (rs_pending s) false s) else None
  | RDone => None
  end.
Definition act (a : Act) (s : Reaping) : option Reaping :=
  match a with
  | ASpawn owner kind =>
      if starts s owner
      then Some {| rs_jobs := rs_jobs s ++ [{| jb_owner := owner; jb_kind := kind; jb_alive := true; jb_guard := GNew |}];
                   rs_pending := rs_pending s; rs_closed := rs_closed s; rs_active := rs_active s; rs_owed := rs_owed s;
                   rs_permit := rs_permit s; rs_pc := rs_pc s |}
      else None
  | AClose =>
      if negb (rs_closed s) && let_go None s
      then Some {| rs_jobs := rs_jobs s; rs_pending := rs_pending s; rs_closed := true; rs_active := rs_active s;
                   rs_owed := S (rs_owed s); rs_permit := rs_permit s; rs_pc := rs_pc s |}
      else None
  | ANotify =>
      match rs_owed s with
      | O => None
      | S owed => Some {| rs_jobs := rs_jobs s; rs_pending := rs_pending s; rs_closed := rs_closed s; rs_active := rs_active s;
                          rs_owed := owed; rs_permit := true; rs_pc := rs_pc s |}
      end
  | AReap => reap s
  | AEnd i =>
      job ← rs_jobs s !! i;
      if jb_alive job && let_go (Some i) s then Some (set_job i (ended job) (rs_pending s) (rs_active s) (rs_owed s) s) else None
  | AGuard i | APush i | AFinish i | AJoin i =>
      job ← rs_jobs s !! i;
      if negb (runs s (jb_owner job)) then None
      else
        match a, jb_guard job with
        | AGuard _, GNew =>
            Some (set_job i (with_guard GHeld job) (rs_pending s) (if jb_counted job then S (rs_active s) else rs_active s) (rs_owed s) s)
        | APush _, GHeld =>
            match jb_kind job with
            | JRaw => Some (set_job i (with_guard (if jb_alive job then GDetached else GGone) job) (rs_pending s) (rs_active s) (rs_owed s) s)
            | JTask => Some (set_job i (with_guard GPushed job) (rs_pending s ++ [i]) (rs_active s) (S (rs_owed s)) s)
            | JChild => Some (set_job i (with_guard GGone job) (rs_pending s ++ [i]) (rs_active s) (S (rs_owed s)) s)
            end
        | AFinish _, GPushed =>
            Some (set_job i (with_guard GGone job) (rs_pending s) (pred (rs_active s)) (S (rs_owed s)) s)
        | AJoin _, GHeld =>
            if jb_alive job then None
            else if jb_counted job then Some (set_job i (with_guard GGone job) (rs_pending s) (pred (rs_active s)) (S (rs_owed s)) s)
            else Some (set_job i (with_guard GGone job) (rs_pending s) (rs_active s) (rs_owed s) s)
        | _, _ => None
        end
  end.
Definition clone_step (s s' : Reaping) : Prop := exists a, act a s = Some s'.

(** *** What holds of every state *)
Definition final_pc (pc : ReaperPc) : bool := match pc with RDrain f | RAwait f _ => f | RDone => true | _ => false end.
Definition awaited (pc : ReaperPc) : list nat := match pc with RAwait _ handles => handles | _ => [] end.
Definition weight (job : Job) : nat :=
  match jb_guard job with GHeld => if jb_counted job then 1 else 0 | GPushed => 1 | _ => 0 end.
(** A guard its owner no longer holds. *)
Definition handed (job : Job) : Prop := jb_guard job = GPushed \/ jb_guard job = GGone.
(** What a job's kind allows of its guard: only a bare task is detached, and it is let
    go otherwise only when it has ended. *)
Definition guard_ok_for (job : Job) : Prop :=
  match jb_guard job with
  | GDetached => jb_kind job = JRaw
  | GPushed => jb_kind job <> JRaw
  | GGone => jb_kind job = JRaw -> jb_alive job = false
  | _ => True
  end.

Record reaping_ok (s : Reaping) : Prop := {
  ro_owner i job j : rs_jobs s !! i = Some job -> jb_owner job = Some j -> j < i;
  ro_closed i job : rs_closed s = true -> rs_jobs s !! i = Some job -> jb_owner job = None -> gone (jb_guard job) = true;
  ro_dead i job j owner : rs_jobs s !! i = Some job -> jb_owner job = Some j -> rs_jobs s !! j = Some owner ->
    jb_alive owner = false -> gone (jb_guard job) = true;
  ro_guarded i job j owner : rs_jobs s !! i = Some job -> jb_owner job = Some j -> rs_jobs s !! j = Some owner -> guarded owner = true;
  ro_kind i job : rs_jobs s !! i = Some job -> guard_ok_for job;
  ro_handle i job : rs_jobs s !! i = Some job -> jb_alive job = true -> handed job -> i ∈ rs_pending s ++ awaited (rs_pc s);
  ro_active : rs_active s = sum_list_with weight (rs_jobs s);
  ro_wait : rs_pc s = RWait -> rs_closed s = true -> rs_active s = 0 -> rs_permit s = true \/ 0 < rs_owed s;
  ro_final : final_pc (rs_pc s) = true -> rs_closed s = true;
  ro_done i job : rs_pc s = RDone -> rs_jobs s !! i = Some job -> guarded job = true -> jb_alive job = false;
}.

(** With no handle left to await, nothing guarded runs: every running task is owned, at
    some remove, by one that runs and whose handle is awaited. *)
Lemma all_ended s : reaping_ok s -> rs_closed s = true -> rs_pending s ++ awaited (rs_pc s) = [] ->
  forall i job, rs_jobs s !! i = Some job -> guarded job = true -> jb_alive job = false.
Proof.
  intros Hok Hc Hp i. induction (lt_wf i) as [i _ IH]. intros job Hi Hg. destruct (jb_alive job) eqn:Ea; [|done].
  assert (Hgone : gone (jb_guard job) = true).
  { destruct (jb_owner job) as [j|] eqn:Eo; [|by eapply (ro_closed s Hok)]. pose proof (ro_owner s Hok i job j Hi Eo) as Hlt.
    pose proof (lookup_lt_Some _ _ _ Hi) as Hlen. destruct (lookup_lt_is_Some_2 (rs_jobs s) j ltac:(lia)) as [owner Ho].
    apply (ro_dead s Hok i job j owner Hi Eo Ho), (IH j Hlt owner Ho). by apply (ro_guarded s Hok i job j). }
  assert (Hh : handed job).
  { pose proof (ro_kind s Hok i job Hi) as H. unfold guard_ok_for, guarded in *. destruct (jb_guard job) eqn:Eg; try done; [by right|].
    by rewrite H in Hg. }
  pose proof (ro_handle s Hok i job Hi Ea Hh) as H. rewrite Hp in H. by apply elem_of_nil in H.
Qed.
Lemma let_go_gone s owner i job : let_go owner s = true -> rs_jobs s !! i = Some job -> jb_owner job = owner -> gone (jb_guard job) = true.
Proof.
  unfold let_go. rewrite forallb_forall. intros Hlet Hi Ho. specialize (Hlet job ltac:(by eapply list_elem_of_In, list_elem_of_lookup_2)).
  apply orb_true_iff in Hlet as [H%negb_true_iff%bool_decide_eq_false|H]; [congruence|done].
Qed.
(** A step that changes one job, which keeps its owner, and may end it. *)
Lemma set_job_ok i job job' pending active owed s :
  reaping_ok s -> rs_jobs s !! i = Some job -> (rs_pc s = RDone -> jb_alive job' = false) ->
  jb_owner job' = jb_owner job -> jb_kind job' = jb_kind job -> guard_ok_for job' ->
  (gone (jb_guard job) = true -> gone (jb_guard job') = true) ->
  (jb_alive job' = true -> jb_alive job = true) -> (jb_alive job' = false -> jb_alive job = true -> let_go (Some i) s = true) ->
  (jb_alive job' = true -> handed job' -> handed job \/ i ∈ pending) -> (forall x, x ∈ rs_pending s -> x ∈ pending) ->
  active + weight job = rs_active s + weight job' ->
  (active = 0 -> rs_active s = 0 \/ 0 < owed) -> (rs_owed s <= owed) ->
  reaping_ok (set_job i job' pending active owed s).
Proof.
  intros Hok Hi Hnd Ho Hk' Hgk Hg Ha Hend Hh Hp Hw H0 Hle. constructor; cbn [set_job rs_jobs rs_pending rs_closed rs_active rs_owed rs_permit rs_pc].
  - intros k x j Hk Hx. apply list_lookup_insert_Some in Hk as [(<- & <- & _)|[_ Hk]]; [rewrite Ho in Hx|]; by eapply (ro_owner s Hok).
  - intros k x Hc Hk Hx. apply list_lookup_insert_Some in Hk as [(<- & <- & _)|[_ Hk]]; [rewrite Ho in Hx; apply Hg|]; by eapply (ro_closed s Hok).
  - intros k x j owner Hk Hx Hj Hd.
    assert (Hold : exists owner', rs_jobs s !! j = Some owner' /\ (jb_alive owner' = false \/ let_go (Some j) s = true)).
    { apply list_lookup_insert_Some in Hj as [(<- & <- & _)|[_ Hj]]; [exists job; split; [done|]|by exists owner; auto].
      destruct (jb_alive job) eqn:E; [right; by apply Hend|by left]. }
    destruct Hold as (owner' & Hj' & Hcase).
    assert (Hgone : forall x0, rs_jobs s !! k = Some x0 -> jb_owner x0 = Some j -> gone (jb_guard x0) = true).
    { intros x0 Hk0 Hx0. destruct Hcase as [Hdead|Hlet]; [by eapply (ro_dead s Hok)|by eapply let_go_gone]. }
    apply list_lookup_insert_Some in Hk as [(<- & <- & _)|[_ Hk]]; [rewrite Ho in Hx; by apply Hg, Hgone|by apply Hgone].
  - intros k x j owner Hk Hx Hj.
    assert (Hold : forall k x, <[i := job']> (rs_jobs s) !! k = Some x -> exists x0, rs_jobs s !! k = Some x0 /\ jb_owner x = jb_owner x0 /\ guarded x = guarded x0).
    { intros k0 x0 H. apply list_lookup_insert_Some in H as [(<- & <- & _)|[_ H]]; [|by exists x0].
      exists job. unfold guarded. by rewrite Hk'. }
    apply Hold in Hk as (x0 & Hk & Hx0 & _), Hj as (o0 & Hj & _ & ->). rewrite Hx0 in Hx. exact (ro_guarded s Hok k x0 j o0 Hk Hx Hj).
  - intros k x Hk. apply list_lookup_insert_Some in Hk as [(<- & <- & _)|[_ Hk]]; [done|exact (ro_kind s Hok k x Hk)].
  - intros k x Hk Hx Hd. apply elem_of_app. apply list_lookup_insert_Some in Hk as [(<- & <- & _)|[_ Hk]].
    + destruct (Hh Hx Hd) as [Hd'|?]; [|by left]. pose proof (ro_handle s Hok i job Hi (Ha Hx) Hd') as H.
      apply elem_of_app in H as [H|H]; [left; by apply Hp|by right].
    + pose proof (ro_handle s Hok k x Hk Hx Hd) as H. apply elem_of_app in H as [H|H]; [left; by apply Hp|by right].
  - pose proof (sum_list_insert weight (rs_jobs s) i job job' Hi) as H. pose proof (ro_active s Hok). lia.
  - intros Hpc Hc Hact. destruct (H0 Hact) as [H|H]; [|by right]. destruct (ro_wait s Hok Hpc Hc H) as [?|?]; [by left|right; lia].
  - apply (ro_final s Hok).
  - intros k x Hdone Hk Hgx. apply list_lookup_insert_Some in Hk as [(<- & <- & _)|[_ Hk]]; [by apply Hnd|by eapply (ro_done s Hok)].
Qed.

Lemma done_quiet s owner : reaping_ok s -> rs_pc s = RDone ->
  (forall i job, owner = Some i -> rs_jobs s !! i = Some job -> guarded job = true) -> runs s owner = false.
Proof.
  intros Hok Hd Hg. destruct owner as [i|]; cbn.
  - destruct (rs_jobs s !! i) as [job|] eqn:Ei; [|done]. eapply (ro_done s Hok); eauto.
  - apply negb_false_iff, (ro_final s Hok). by rewrite Hd.
Qed.
(** A step of the reaper, or one that changes no job. *)
Lemma reap_ok s s' : reaping_ok s -> reap s = Some s' -> reaping_ok s'.
Proof.
  intros Hok H. unfold reap in H. destruct (rs_pc s) as [final|final handles| | |] eqn:Epc.
  - destruct (rs_pending s) as [|h handles] eqn:Ep; injection H as <-; destruct Hok as [H1 H2 H3 Hgd Hkd H4 H5 H6 H7 H8].
    + constructor; cbn; try done.
      * intros i job Hi Ha Hh. specialize (H4 i job Hi Ha Hh). rewrite Ep, Epc in H4. by apply elem_of_nil in H4.
      * by destruct final.
      * intros Hf. apply H7. rewrite Epc. by destruct final.
      * intros i job Hf. assert (final = true) as -> by (by destruct final). apply (all_ended s); [by constructor|by apply H7; rewrite Epc|by rewrite Ep, Epc].
    + constructor; cbn; try done.
      * intros i job Hi Ha Hh. specialize (H4 i job Hi Ha Hh). rewrite Ep, Epc in H4. by rewrite app_nil_r in H4.
      * intros Hf. apply H7. by rewrite Epc.
  - destruct (existsb _ handles) eqn:Ee; [done|]. injection H as <-. destruct Hok as [H1 H2 H3 Hgd Hkd H4 H5 H6 H7 H8]. constructor; cbn; try done.
    + intros i job Hi Ha Hh. specialize (H4 i job Hi Ha Hh). rewrite Epc in H4. apply elem_of_app in H4 as [H|H]; apply elem_of_app; [by left|].
      exfalso. revert Ee. apply not_false_iff_true. apply existsb_elem. exists i. split; [exact H|]. cbn. by rewrite Hi.
    + intros Hf. apply H7. by rewrite Epc.
  - injection H as <-. destruct Hok as [H1 H2 H3 Hgd Hkd H4 H5 H6 H7 H8]. rewrite Epc in H4.
    destruct (rs_closed s && bool_decide (rs_active s = 0)) eqn:Eb; constructor; cbn; try done.
    + intros _. by apply andb_true_iff in Eb as [? _].
    + intros _ Hc Ha. by rewrite Hc, bool_decide_eq_true_2 in Eb.
  - destruct (rs_permit s); [|done]. injection H as <-. destruct Hok as [H1 H2 H3 Hgd Hkd H4 H5 H6 H7 H8]. rewrite Epc in H4. by constructor.
  - done.
Qed.
(** A job's owner may still run only before the reaper is done. *)
Lemma owner_done s owner : reaping_ok s -> rs_pc s = RDone -> starts s owner = false.
Proof.
  intros Hok Hd. unfold starts. apply andb_false_iff. destruct owner as [i|]; [|left; by apply done_quiet].
  destruct (rs_jobs s !! i) as [job|] eqn:Ei; [|by right]. destruct (guarded job) eqn:Eg; [left|by right].
  apply done_quiet; [done..|]. intros i' job' [= <-]. by rewrite Ei; intros [= <-].
Qed.
Lemma spawn_ok owner kind s s' : reaping_ok s -> act (ASpawn owner kind) s = Some s' -> reaping_ok s'.
Proof.
  intros Hok H. cbn [act] in H. pose proof (owner_done s owner Hok) as Hq. destruct (starts s owner) eqn:Es; [|done]. injection H as <-.
  unfold starts in Es. apply andb_true_iff in Es as [Er Eg].
  destruct Hok as [H1 H2 H3 Hgd Hkd H4 H5 H6 H7 H8]. set (new := {| jb_owner := owner; jb_kind := kind; jb_alive := true; jb_guard := GNew |}).
  assert (Hcase : forall k x, (rs_jobs s ++ [new]) !! k = Some x -> rs_jobs s !! k = Some x \/ k = length (rs_jobs s) /\ x = new).
  { intros k x Hk. apply lookup_app_Some in Hk as [?|[? Hk]]; [by left|]. apply list_lookup_singleton_Some in Hk as [? <-]. right. split; [lia|done]. }
  assert (Hnew : forall j x, owner = Some j -> (rs_jobs s ++ [new]) !! j = Some x -> rs_jobs s !! j = Some x).
  { intros j x -> [?|[-> _]]%Hcase; [done|]. cbn in Er. by rewrite lookup_ge_None_2 in Er by lia. }
  constructor; cbn [rs_jobs rs_pending rs_closed rs_active rs_owed rs_permit rs_pc].
  - intros i job j [Hi|[-> ->]]%Hcase Ho; [eauto|]. cbn in Ho. subst owner. cbn in Er. destruct (rs_jobs s !! j) eqn:E; [|done]. by eapply lookup_lt_Some.
  - intros i job Hc [Hi|[-> ->]]%Hcase Ho; [eauto|]. cbn in Ho. subst owner. cbn in Er. by rewrite Hc in Er.
  - intros i job j ow Hi Ho Hj Hd. apply Hcase in Hi as [Hi|[-> ->]]; [apply Hcase in Hj as [Hj|[-> ->]]; [eauto|done]|].
    cbn in Ho. apply (Hnew _ _ Ho) in Hj. subst owner. cbn in Er. rewrite Hj in Er. congruence.
  - intros i job j ow Hi Ho Hj. apply Hcase in Hi as [Hi|[-> ->]].
    + apply Hcase in Hj as [Hj|[-> ->]]; [exact (Hgd i job j ow Hi Ho Hj)|]. apply lookup_lt_Some in Hi as Hlt. specialize (H1 _ _ _ Hi Ho). lia.
    + cbn in Ho. apply (Hnew _ _ Ho) in Hj. subst owner. by rewrite Hj in Eg.
  - by intros i job [Hi|[-> ->]]%Hcase; [exact (Hkd i job Hi)|].
  - intros i job [Hi|[-> ->]]%Hcase Ha Hh; [eauto|]. by destruct Hh.
  - rewrite sum_list_with_app. cbn. by rewrite !Nat.add_0_r.
  - done.
  - done.
  - intros i job Hd. by specialize (Hq Hd).
Qed.
(** A step of a guard: made, dropped, finished, joined. *)
Definition of_guard (i : nat) (a : Act) : bool :=
  match a with AGuard j | APush j | AFinish j | AJoin j => bool_decide (i = j) | _ => false end.
Lemma guard_ok i a s s' : of_guard i a = true -> reaping_ok s -> act a s = Some s' -> reaping_ok s'.
Proof.
  intros Ha Hok H. destruct a as [| j|j|j|j| | | |]; try done; cbn in Ha; breflect; subst j; cbn [act] in H.
  all: destruct (rs_jobs s !! i) as [job|] eqn:Ei; [|done]; cbn [mbind option_bind] in H.
  all: assert (Hq : rs_pc s = RDone -> runs s (jb_owner job) = false)
    by (intros Hd; apply done_quiet; [done..|]; intros j' o Eo Hj; exact (ro_guarded s Hok i job j' o Ei Eo Hj)).
  all: destruct (runs s (jb_owner job)) eqn:Er; [|done]; cbn [negb] in H.
  all: assert (Hnd : rs_pc s <> RDone) by (intros Hd; by specialize (Hq Hd)).
  all: pose proof (ro_active s Hok) as Hact; pose proof (sum_list_insert weight (rs_jobs s) i job (with_guard GGone job) Ei) as Hsum.
  all: pose proof (ro_kind s Hok i job Ei) as Hkind; unfold guard_ok_for in Hkind.
  all: destruct job as [o kind alive guard]; destruct guard; try done; destruct kind; try done; cbn in H; try (destruct alive; try done).
  all: injection H as <-; eapply set_job_ok; eauto; cbn; try done; unfold weight in *; cbn in *; try lia; try congruence; try set_solver.
  all: intros; unfold handed in *; cbn in *; intuition congruence.
Qed.
Lemma act_ok a s s' : reaping_ok s -> act a s = Some s' -> reaping_ok s'.
Proof.
  intros Hok H. destruct a as [owner counted|i|i|i|i|i| | |].
  1: by eapply spawn_ok.
  1-4: eapply (guard_ok i); [|done|exact H]; cbn; by apply bool_decide_eq_true_2.
  4: by eapply reap_ok.
  all: cbn [act] in H.
  - destruct (rs_jobs s !! i) as [job|] eqn:Ei; [|done]. cbn [mbind option_bind] in H. destruct (jb_alive job) eqn:Ea; [|done].
    destruct (let_go (Some i) s) eqn:El; [|done]. injection H as <-. eapply set_job_ok; eauto; cbn; try done.
    pose proof (ro_kind s Hok i job Ei) as Hk. unfold guard_ok_for in *. cbn. by destruct (jb_guard job).
  - destruct (rs_closed s) eqn:Ec; [done|]. destruct (let_go None s) eqn:El; [|done]. cbn in H. injection H as <-. destruct Hok as [H1 H2 H3 Hgd Hkd H4 H5 H6 H7 H8].
    constructor; cbn; eauto with lia. intros i job _ Hi Ho. by eapply let_go_gone.
  - destruct (rs_owed s) as [|owed] eqn:Eo; [done|]. injection H as <-. destruct Hok as [H1 H2 H3 Hgd Hkd H4 H5 H6 H7 H8]. constructor; cbn; eauto.
Qed.
Lemma start_ok : reaping_ok reaping_start.
Proof. constructor; cbn; try done; by intros. Qed.
Lemma clone_reachable_ok s s' : rtc clone_step s s' -> reaping_ok s -> reaping_ok s'.
Proof. induction 1 as [|s x y [a Ha] _ IH]; [done|]. intros Hok. apply IH. by eapply act_ok. Qed.

(** *** The reaper comes to its end *)

(** A bound on the steps left when nothing more is started. *)
Definition guard_left (job : Job) : nat := match jb_guard job with GNew => 3 | GHeld => 2 | GPushed => 1 | GGone | GDetached => 0 end.
Definition job_left (job : Job) : nat := 8 * guard_left job + if jb_alive job then 1 else 0.
Definition pc_left (pc : ReaperPc) : nat :=
  match pc with RDrain false => 3 | RAwait false _ => 4 | RCheck => 2 | RDrain true => 1 | RAwait true _ => 2 | RWait | RDone => 0 end.
Definition steps_left (s : Reaping) : nat :=
  sum_list_with job_left (rs_jobs s) + 5 * rs_owed s + (if rs_permit s then 4 else 0) + 2 * length (rs_pending s) + pc_left (rs_pc s).

Definition is_spawn (a : Act) : bool := match a with ASpawn _ _ => true | _ => false end.
(** A step of a clone that has closed and starts nothing more. *)
Definition stopping (s s' : Reaping) : Prop := exists a, is_spawn a = false /\ act a s = Some s'.

Lemma reap_left s s' : reap s = Some s' -> steps_left s' < steps_left s.
Proof.
  unfold reap, steps_left. destruct (rs_pc s) as [final|final handles| | |]; intros H.
  - destruct (rs_pending s) eqn:Ep; injection H as <-; cbn; destruct final; cbn; lia.
  - destruct (existsb _ handles); [done|]. injection H as <-. cbn. destruct final; cbn; lia.
  - injection H as <-. cbn. destruct (_ && _); cbn; lia.
  - destruct (rs_permit s); [|done]. injection H as <-. cbn. lia.
  - done.
Qed.
Lemma set_job_left i job job' pending active owed s : rs_jobs s !! i = Some job ->
  job_left job' + 5 * owed + 2 * length pending < job_left job + 5 * rs_owed s + 2 * length (rs_pending s) ->
  steps_left (set_job i job' pending active owed s) < steps_left s.
Proof.
  intros Hi H. pose proof (sum_list_insert job_left (rs_jobs s) i job job' Hi). unfold steps_left. cbn [set_job rs_jobs rs_pending rs_owed rs_permit rs_pc]. lia.
Qed.
Lemma stopping_left s s' : rs_closed s = true -> stopping s s' -> rs_closed s' = true /\ steps_left s' < steps_left s.
Proof.
  intros Hc (a & Ha & H). destruct a as [owner counted|i|i|i|i|i| | |]; try done; cbn [act] in H.
  1-5: destruct (rs_jobs s !! i) as [job|] eqn:Ei; [|done]; cbn [mbind option_bind] in H.
  1-4: destruct (runs s (jb_owner job)); [|done]; cbn [negb] in H.
  1-4: destruct job as [o kind alive guard]; destruct guard; try done; destruct kind, alive; try done; cbn in H.
  all: try (injection H as <-; split; [done|]; eapply set_job_left; [exact Ei|];
    unfold job_left, guard_left; cbn; rewrite ?length_app; cbn; lia).
  - destruct (jb_alive job) eqn:Ea; [|done]. destruct (let_go (Some i) s); [|done]. injection H as <-. split; [done|].
    eapply set_job_left; [exact Ei|]. unfold job_left, guard_left. cbn. rewrite Ea. lia.
  - by rewrite Hc in H.
  - destruct (rs_owed s) as [|owed] eqn:Eo; [done|]. injection H as <-. split; [done|]. unfold steps_left. cbn. rewrite Eo. destruct (rs_permit s); lia.
  - split; [|by apply reap_left]. unfold reap in H. destruct (rs_pc s); repeat case_match; simplify_eq; done.
Qed.
(** A held guard takes its next step: its owner runs, or it would be gone. *)
Lemma guard_moves s i job : reaping_ok s -> rs_closed s = true -> rs_jobs s !! i = Some job -> gone (jb_guard job) = false -> exists s', stopping s s'.
Proof.
  intros Hok Hc Hi Hg. assert (Hr : runs s (jb_owner job) = true).
  { destruct (jb_owner job) as [j|] eqn:Eo; cbn.
    - pose proof (ro_owner s Hok i job j Hi Eo) as Hlt. pose proof (lookup_lt_Some _ _ _ Hi) as Hlen.
      destruct (lookup_lt_is_Some_2 (rs_jobs s) j ltac:(lia)) as [owner Ho]. rewrite Ho. destruct (jb_alive owner) eqn:Ea; [done|].
      by rewrite (ro_dead s Hok i job j owner Hi Eo Ho Ea) in Hg.
    - by rewrite (ro_closed s Hok i job Hc Hi Eo) in Hg. }
  destruct (jb_guard job) eqn:Eg; [| | |done|done].
  - eexists. exists (AGuard i). split; [done|]. cbn [act]. rewrite Hi. cbn [mbind option_bind]. by rewrite Hr, Eg.
  - destruct (jb_kind job) eqn:Ek; eexists; (exists (APush i)); (split; [done|]); cbn [act]; rewrite Hi; cbn [mbind option_bind]; by rewrite Hr, Eg, Ek.
  - eexists. exists (AFinish i). split; [done|]. cbn [act]. rewrite Hi. cbn [mbind option_bind]. by rewrite Hr, Eg.
Qed.
Lemma not_stuck s : reaping_ok s -> rs_closed s = true -> rs_pc s = RDone \/ exists s', stopping s s'.
Proof.
  intros Hok Hc. destruct (reap s) as [s'|] eqn:Er; [right; by exists s', AReap|].
  destruct (decide (Exists (fun job => gone (jb_guard job) = false) (rs_jobs s))) as [Hg|Hg].
  { apply Exists_exists in Hg as (job & Hin & Hg). apply list_elem_of_lookup_1 in Hin as [i Hi]. right. by eapply guard_moves. }
  assert (Hgone : forall job, job ∈ rs_jobs s -> gone (jb_guard job) = true).
  { intros job Hin. apply not_false_iff_true. intros Hn. apply Hg, Exists_exists. by exists job. }
  unfold reap in Er. destruct (rs_pc s) as [final|final handles| | |] eqn:Epc; [by destruct (rs_pending s)| |done| |by left]; right.
  - destruct (existsb _ handles) eqn:Ee; [|done]. apply existsb_elem in Ee as (i & _ & Hr). cbn in Hr.
    destruct (rs_jobs s !! i) as [job|] eqn:Ei; [|done]. eexists. exists (AEnd i). split; [done|]. cbn [act]. rewrite Ei. cbn [mbind option_bind].
    rewrite Hr. cbn [andb]. assert (let_go (Some i) s = true) as ->; [|done].
    unfold let_go. apply forallb_forall. intros x Hx%list_elem_of_In. apply orb_true_iff. right. by apply Hgone.
  - destruct (rs_permit s) eqn:Ep; [done|]. assert (Ha : rs_active s = 0).
    { rewrite (ro_active s Hok). clear -Hgone. induction (rs_jobs s) as [|job l IH]; [done|].
      change (weight job + sum_list_with weight l = 0). rewrite IH by set_solver. unfold weight. specialize (Hgone job ltac:(set_solver)). by destruct (jb_guard job). }
    destruct (ro_wait s Hok Epc Hc Ha) as [H|H]; [congruence|]. destruct (rs_owed s) as [|owed] eqn:Eo; [lia|].
    eexists. exists ANotify. split; [done|]. cbn [act]. by rewrite Eo.
Qed.
Lemma stopping_steps s s' : rtc stopping s s' -> rtc clone_step s s'.
Proof. apply rtc_subrel. intros x y (a & _ & H). by exists a. Qed.
Lemma stopping_closed s s' : rtc stopping s s' -> rs_closed s = true -> rs_closed s' = true.
Proof. induction 1 as [|s x y H _ IH]; [done|]. intros Hc. by apply IH, (stopping_left _ _ Hc H). Qed.

(** C16: The staging directory of a clone outlives every guarded writer the clone
    started, however the clone ends and in whatever order its tasks are dropped, hand
    their children on and stop: when the reaper has removed it, the clone has closed,
    every task under an [AbortOnDrop] and every process under a [GitChild] that was
    ever started has ended, and nothing more can be started. What may still run is a
    blocking task spawned without a guard whose owner was dropped while it awaited
    it, and no other. *)
Theorem staging_outlives_writers s : rtc clone_step reaping_start s -> rs_pc s = RDone ->
  rs_closed s = true /\ (forall i job, rs_jobs s !! i = Some job -> guarded job = true -> jb_alive job = false) /\
  (forall i job, rs_jobs s !! i = Some job -> jb_alive job = true -> jb_kind job = JRaw /\ jb_guard job = GDetached) /\
  forall owner kind, act (ASpawn owner kind) s = None.
Proof.
  intros Hr Hd. pose proof (clone_reachable_ok _ _ Hr start_ok) as Hok.
  assert (Hc : rs_closed s = true) by (apply (ro_final s Hok); by rewrite Hd).
  split; [done|]. split; [by intros i job; apply (ro_done s Hok)|]. split; [|intros owner kind; cbn [act]; by rewrite owner_done].
  intros i job Hi Ha. pose proof (ro_kind s Hok i job Hi) as Hk. unfold guard_ok_for in Hk.
  assert (Hraw : jb_kind job = JRaw).
  { destruct (jb_kind job) eqn:E; [| |done]; (rewrite (ro_done s Hok i job Hd Hi) in Ha; [done|unfold guarded; by rewrite E]). }
  assert (Hgone : gone (jb_guard job) = true); [|by destruct (jb_guard job); try done; rewrite Hk in Ha].
  destruct (jb_owner job) as [j|] eqn:Eo; [|by apply (ro_closed s Hok i)].
  pose proof (ro_owner s Hok i job j Hi Eo) as Hlt. pose proof (lookup_lt_Some _ _ _ Hi) as Hlen.
  destruct (lookup_lt_is_Some_2 (rs_jobs s) j ltac:(lia)) as [owner Ho].
  apply (ro_dead s Hok i job j owner Hi Eo Ho), (ro_done s Hok j owner Hd Ho). exact (ro_guarded s Hok i job j owner Hi Eo Ho).
Qed.

(** C17: No wakeup of the reaper is lost. Once a clone has closed and its tasks start
    nothing more, the steps that are left are bounded, and while the staging
    directory is not removed some step is possible: however they are ordered, they
    end with the reaper removing it. *)
Theorem staging_removed s : rtc clone_step reaping_start s -> rs_closed s = true ->
  (forall n s', nsteps stopping n s s' -> n <= steps_left s) /\
  forall s', rtc stopping s s' -> rs_pc s' = RDone \/ exists s'', stopping s' s''.
Proof.
  intros Hr Hc. split.
  - intros n s' H. clear Hr. induction H as [s|n s x y H _ IH]; [lia|]. destruct (stopping_left _ _ Hc H) as [Hx Hlt]. specialize (IH Hx). lia.
  - intros s' H. apply not_stuck; [|by eapply stopping_closed].
    eapply clone_reachable_ok; [by apply stopping_steps|]. by eapply clone_reachable_ok, start_ok.
Qed.

(** A clone is cancelled while a task of it runs a git process: the clone's guard of
    the task is dropped, then the task's of the process. *)
Module StagingExample.
Definition acts (l : list Act) (s : Reaping) : option Reaping := foldl (fun s a => s ← s; act a s) (Some s) l.
Lemma acts_steps l s s' : acts l s = Some s' -> rtc clone_step s s'.
Proof.
  unfold acts. revert s. induction l as [|a l IH]; intros s H; [by injection H as ->|]. cbn [foldl mbind option_bind] in H.
  destruct (act a s) as [x|] eqn:Ea; [|exfalso; clear -H; induction l as [|b l IHl]; [done|by apply IHl, H]]. eapply rtc_l; [by exists a|by apply IH].
Qed.
(** A clone is cancelled while it awaits [install_packs], a bare blocking task that
    writes the clone's packs: the directory is removed under it. *)
Lemma raw_writer_outlives : exists s, rtc clone_step reaping_start s /\ rs_pc s = RDone /\
  exists i job, rs_jobs s !! i = Some job /\ jb_kind job = JRaw /\ jb_alive job = true.
Proof.
  exists (default reaping_start (acts [ASpawn None JRaw; AGuard 0; APush 0; AClose; ANotify; AReap; AReap; AReap] reaping_start)).
  split; [by apply (acts_steps [ASpawn None JRaw; AGuard 0; APush 0; AClose; ANotify; AReap; AReap; AReap])|].
  split; [by vm_compute|]. exists 0. eexists. by split_and!; [vm_compute; reflexivity|..].
Qed.
(** The reaper waits first: nothing was handed to it. *)
Definition cancelling : list Act :=
  [ASpawn None JTask; AGuard 0; ASpawn (Some 0) JChild; AGuard 1; AReap; AReap; APush 0; AFinish 0; AClose].
Definition cancelled : list Act :=
  cancelling ++ [ANotify; ANotify; AReap; AReap; APush 1; ANotify; AEnd 1; AEnd 0; AReap; AReap; AReap; AReap; AReap; AReap].
Definition after (l : list Act) : Reaping := default reaping_start (acts l reaping_start).

Lemma staging_outlives_writers_witness :
  rtc clone_step reaping_start (after cancelled) /\ rs_pc (after cancelled) = RDone /\ length (rs_jobs (after cancelled)) = 2 /\
  (forall i job, rs_jobs (after cancelled) !! i = Some job -> jb_alive job = true -> jb_kind job = JRaw /\ jb_guard job = GDetached) /\
  forall owner kind, act (ASpawn owner kind) (after cancelled) = None.
Proof.
  assert (H : rtc clone_step reaping_start (after cancelled)) by (apply (acts_steps cancelled); vm_compute; reflexivity).
  split; [exact H|]. split; [vm_compute; reflexivity|]. split; [vm_compute; reflexivity|].
  apply (staging_outlives_writers _ H). vm_compute. reflexivity.
Defined.
Lemma staging_removed_witness :
  rtc clone_step reaping_start (after cancelling) /\ rs_closed (after cancelling) = true /\ rs_pc (after cancelling) <> RDone /\
  forall n s', nsteps stopping n (after cancelling) s' -> n <= 64.
Proof.
  assert (H : rtc clone_step reaping_start (after cancelling)) by (apply (acts_steps cancelling); vm_compute; reflexivity).
  split; [exact H|]. split; [vm_compute; reflexivity|]. split; [vm_compute; discriminate|].
  intros n s' Hn. refine (Nat.le_trans _ _ _ (proj1 (staging_removed _ H eq_refl) n s' Hn) _). vm_compute. lia.
Defined.
End StagingExample.
