(* ===== verification/Archive.v ===== *)
(** The working-tree archive ([rust/src/archive.rs]): the worktree's byte stream
    cut into frames, the files table of fragments over them, the index of an
    earlier build, the plan of an incremental build that keeps its frames, and
    the grouping of frames into download bundles.

    A stream is a list of bytes; a position in it an [N]. The object database,
    zstd, the content hash and the content-defined cutter are parameters. The
    build's threads hand frames on in order, so a stage is the list it passes. *)

From S2P Require Import Prelude Validation Outputs Manifest.

(** ** fragments_for *)

(** [while hint < bounds.len() && bounds[hint].1 <= start]. *)
Fixpoint skip_ended (rest : list (N * N)) (hint start : N) : N :=
  match rest with
  | (_, e) :: rest => if (e <=? start)%N then skip_ended rest (hint + 1) start else hint
  | [] => hint
  end.
(** [while idx + 1 < bounds.len() && bounds[idx].1 <= start]. *)
Fixpoint skip_to_last (rest : list (N * N)) (idx start : N) : N :=
  match rest with
  | (_, e) :: ((_ :: _) as rest) => if (e <=? start)%N then skip_to_last rest (idx + 1) start else idx
  | _ => idx
  end.
(** The frames from index [k] that overlap [start, end_). *)
Fixpoint overlapping (rest : list (N * N)) (k start end_ : N) : Result (list Fragment) :=
  match rest with
  | [] => Ok []
  | (frs, fre) :: rest =>
      if (frs <? end_)%N then
        let os := N.max start frs in
        let oe := N.min end_ fre in
        let? here :=
          (if (os <? oe)%N then
             let? i := context (try_from u32_max k) "archive has too many frames" in
             let? off := context (try_from u32_max (os - frs)) "file fragment frame offset is too large" in
             let? len := context (try_from u32_max (oe - os)) "file fragment length is too large" in
             Ok [{| frame_index := i; frame_offset := off; fg_raw_len := len |}]
           else Ok []) in
        let? later := overlapping rest (k + 1) start end_ in
        Ok (here ++ later)
      else Ok []
  end.

Definition fragments_for (bounds : list (N * N)) (start len hint : N) : Result (list Fragment * N) :=
  match bounds with
  | [] => Err "cannot map file range onto an empty frame table"
  | _ =>
      if (len =? 0)%N then
        let idx := N.min hint (nlen bounds - 1) in
        let idx := skip_to_last (drop (N.to_nat idx) bounds) idx start in
        let? (frs, _) := context (nget bounds idx) "index out of bounds" in
        let? i := context (try_from u32_max idx) "archive has too many frames" in
        let? off := context (try_from u32_max (start - frs)) "empty file frame offset is too large" in
        Ok ([{| frame_index := i; frame_offset := off; fg_raw_len := 0 |}], hint)
      else
        let hint := skip_ended (drop (N.to_nat hint) bounds) hint start in
        let? end_ := context (checked_add usize_max start len) "file range end overflow" in
        let? frags := overlapping (drop (N.to_nat hint) bounds) hint start end_ in
        Ok (frags, hint)
  end.

(** ** Layout *)

(** A blob in tree order: path, object id, mode. *)
Definition Blob : Type := string * string * N.
Definition b_path (b : Blob) : string := b.1.1.
Definition b_oid (b : Blob) : string := b.1.2.
Definition b_mode (b : Blob) : N := b.2.

Record Layout := {
  ly_blobs : list Blob;
  ly_gitlinks : list string;
  ly_sizes : list N;
  ly_starts : list N;
  ly_total : N;
}.

Fixpoint layout_starts (pos : N) (sizes : list N) : Result (list N * N) :=
  match sizes with
  | [] => Ok ([], pos)
  | size :: sizes =>
      let? next := context (checked_add usize_max pos size) "archive stream length overflow" in
      let? (starts, total) := layout_starts next sizes in
      Ok (pos :: starts, total)
  end.

Definition Layout_new (blobs : list Blob) (links : list string) (sizes : list N) : Result Layout :=
  let? (starts, total) := layout_starts 0 sizes in
  Ok {| ly_blobs := blobs; ly_gitlinks := links; ly_sizes := sizes; ly_starts := starts; ly_total := total |}.

(** [files_table]'s loop over the files with their start and size. *)
Fixpoint table_files (bounds : list (N * N)) (l : list (Blob * (N * N))) (hint : N) : Result (list FileEntry) :=
  match l with
  | [] => Ok []
  | (b, (start, size)) :: l =>
      let? (frags, next) := fragments_for bounds start size hint in
      let? rest := table_files bounds l next in
      Ok ({| fe_path := b_path b; fe_mode := b_mode b; blob_sha1 := b_oid b; fragments := frags |} :: rest)
  end.

Definition placed_blobs (ly : Layout) : list (Blob * (N * N)) :=
  zip (ly_blobs ly) (zip (ly_starts ly) (ly_sizes ly)).

Definition files_table (ly : Layout) (bounds : list (N * N)) : Result MetadataChunk :=
  let? l := table_files bounds (placed_blobs ly) 0 in
  Ok {| frames := []; files := l; gitlinks := ly_gitlinks ly |}.

(** [build_files_table]: the table without frames. *)
Definition build_files_table (blobs : list Blob) (links : list string) : MetadataChunk :=
  {| frames := [];
     files := map (fun b => {| fe_path := b_path b; fe_mode := b_mode b; blob_sha1 := b_oid b; fragments := [] |}) blobs;
     gitlinks := links |}.

(** ** Frames that tile a range *)
Inductive tiles : N -> list (N * N) -> N -> Prop :=
  | tiles_nil a : tiles a [] a
  | tiles_cons a m b rest : (a <= m)%N -> tiles m rest b -> tiles a ((a, m) :: rest) b.

(** The bytes a fragment stands for, with the frames cut from [stream]. *)
Definition fragment_bytes (stream : bytes) (bounds : list (N * N)) (f : Fragment) : bytes :=
  match nget bounds (frame_index f) with
  | Some (lo, hi) => slice (slice stream lo hi) (frame_offset f) (frame_offset f + fg_raw_len f)
  | None => []
  end.
(** A fragment lies inside its frame. *)
Definition fragment_fits (bounds : list (N * N)) (f : Fragment) : Prop :=
  exists lo hi, nget bounds (frame_index f) = Some (lo, hi) /\ (frame_offset f + fg_raw_len f <= hi - lo)%N.

(** ** Lemmas *)
Lemma tiles_le a l b : tiles a l b -> (a <= b)%N.
Proof. induction 1; lia. Qed.
Lemma tiles_cons_inv a x m l b : tiles a ((x, m) :: l) b <-> x = a /\ (a <= m)%N /\ tiles m l b.
Proof. split; [by inversion 1|intros (-> & ? & ?); by constructor]. Qed.
Lemma tiles_app a l k b : tiles a (l ++ k) b <-> exists m, tiles a l m /\ tiles m k b.
Proof.
  split.
  - revert a; induction l as [|[x y] l IH]; intros a; cbn; [eauto using tiles_nil|].
    inversion 1 as [|? ? ? ? ? Hy]; subst. destruct (IH _ Hy) as (m' & ? & ?). exists m'. split; [by constructor|done].
  - intros (m & H1 & H2). induction H1; cbn; [done|]. constructor; auto.
Qed.
Lemma tiles_lookup a l b k lo hi :
  tiles a l b -> l !! k = Some (lo, hi) -> (a <= lo)%N /\ (lo <= hi)%N /\ (hi <= b)%N /\ tiles a (take k l) lo /\ tiles lo (drop k l) b.
Proof.
  intros H. revert k. induction H as [|a m b rest Hm H IH]; intros k Hk; [done|].
  pose proof (tiles_le _ _ _ H). destruct k as [|k]; cbn in Hk.
  - injection Hk as <- <-. cbn. split_and!; try done; by constructor.
  - destruct (IH k Hk) as (? & ? & ? & ? & ?). cbn. split_and!; try lia; [by constructor|done].
Qed.

Lemma mjoin_cons {A} (x : list A) l : mjoin (x :: l) = x ++ mjoin l.
Proof. done. Qed.
Lemma slice_nil {A} (l : list A) lo hi : (hi <= lo)%N -> slice l lo hi = [].
Proof. intros. unfold slice. by replace (hi - lo)%N with 0%N by lia. Qed.

Section fragments.
Context (stream : bytes) (bounds : list (N * N)).
Context (Hlen : (nlen bounds <= u32_max)%N) (Hsize : Forall (fun b => (b.2 - b.1 <= u32_max)%N) bounds).

Lemma drop_succ {A} (l : list A) k x rest : drop (N.to_nat k) l = x :: rest -> drop (N.to_nat (k + 1)) l = rest.
Proof. intros H. replace (N.to_nat (k + 1)) with (N.to_nat k + 1) by lia. by rewrite <- drop_drop, H. Qed.
Lemma drop_nget {A} (l : list A) k x rest : drop (N.to_nat k) l = x :: rest -> nget l k = Some x.
Proof. intros H. unfold nget. by rewrite <- (Nat.add_0_r (N.to_nat k)), <- lookup_drop, H. Qed.

(** The fragments of [start, end_) over the frames from [k], which tile [a, b). *)
Lemma overlapping_ok k a b rest start end_ :
  drop (N.to_nat k) bounds = rest -> tiles a rest b ->
  exists frags, overlapping rest k start end_ = Ok frags /\
    mjoin (fragment_bytes stream bounds <$> frags) = slice stream (N.max start a) (N.min end_ b) /\
    Forall (fragment_fits bounds) frags.
Proof.
  intros Hdrop Ht. revert k Hdrop. induction Ht as [a|a m b rest Hm Ht IH]; intros k Hdrop; cbn.
  { exists []. split_and!; try done. rewrite slice_nil; [done|lia]. }
  pose proof (tiles_le _ _ _ Ht) as Hmb. pose proof (drop_nget _ _ _ _ Hdrop) as Hk.
  destruct (N.ltb_spec a end_) as [Hlt|Hge]; [|exists []; split_and!; try done; rewrite slice_nil; [done|lia]].
  destruct (IH _ (drop_succ _ _ _ _ Hdrop)) as (later & -> & Hbytes & Hfits).
  assert (Hks : (k < nlen bounds)%N).
  { unfold nget in Hk. apply lookup_lt_Some in Hk. unfold nlen. lia. }
  assert (Hms : (m - a <= u32_max)%N).
  { rewrite Forall_forall in Hsize. apply (Hsize (a, m)). by apply (list_elem_of_lookup_2 _ (N.to_nat k)). }
  destruct (N.ltb_spec (N.max start a) (N.min end_ m)) as [Ho|Ho].
  - unfold try_from. rewrite !(proj2 (N.leb_le _ _)) by lia. cbn. eexists. split; [done|]. rewrite fmap_cons, mjoin_cons. split.
    + rewrite Hbytes. unfold fragment_bytes. cbn. rewrite Hk, slice_slice by lia.
      replace (a + (N.max start a - a))%N with (N.max start a) by lia.
      replace (a + (N.max start a - a + (N.min end_ m - N.max start a)))%N with (N.min end_ m) by lia.
      destruct (decide (end_ <= m)%N).
      * rewrite (slice_nil stream (N.max start m)) by lia. rewrite app_nil_r. f_equal. lia.
      * replace (N.max start m) with (N.min end_ m) by lia. rewrite slice_app by lia. done.
    + constructor; [|done]. exists a, m. cbn. split; [done|]. lia.
  - cbn. eexists. split; [done|]. split; [|done]. rewrite Hbytes.
    destruct (decide (m <= start)%N); [f_equal; lia|].
    destruct (decide (end_ <= m)%N); [rewrite !slice_nil by lia; done|].
    f_equal; lia.
Qed.

(** The frames skipped end at or before [start]. *)
Lemma skip_ended_ok rest k a b start :
  drop (N.to_nat k) bounds = rest -> tiles a rest b -> (a <= start)%N -> (start < b)%N ->
  exists rest' a', drop (N.to_nat (skip_ended rest k start)) bounds = rest' /\
    tiles a' rest' b /\ (a' <= start)%N /\ (k <= skip_ended rest k start)%N.
Proof.
  intros Hdrop Ht. revert k Hdrop. induction Ht as [a|a m b rest Hm Ht IH]; intros k Hdrop Ha Hb; cbn; [lia|].
  destruct (N.leb_spec m start) as [Hle|Hgt].
  - destruct (IH _ (drop_succ _ _ _ _ Hdrop) Hle Hb) as (r & a' & ? & ? & ? & ?).
    exists r, a'. split_and!; try done. lia.
  - exists ((a, m) :: rest), a. split_and!; try done. by constructor.
Qed.

Lemma skip_to_last_ok rest k a b start :
  drop (N.to_nat k) bounds = rest -> tiles a rest b -> rest <> [] -> (a <= start)%N -> (start <= b)%N ->
  exists lo hi, nget bounds (skip_to_last rest k start) = Some (lo, hi) /\ (lo <= start)%N /\ (start <= hi)%N.
Proof.
  intros Hdrop Ht. revert k Hdrop. induction Ht as [a|a m b rest Hm Ht IH]; intros k Hdrop Hne Ha Hb; [done|].
  destruct rest as [|[x y] rest].
  - inversion Ht; subst. cbn. exists a, b. split; [|done]. by eapply drop_nget.
  - cbn [skip_to_last]. destruct (N.leb_spec m start) as [Hle|Hgt].
    + apply IH; try done. by eapply drop_succ.
    + exists a, m. split; [by eapply drop_nget|lia].
Qed.

(** [hint] never skips a frame that holds bytes from [start] on. *)
Definition hint_ok (hint start total : N) : Prop :=
  exists a, tiles a (drop (N.to_nat hint) bounds) total /\ (a <= start)%N.

(** Where an empty file's search starts. *)
Lemma empty_start hint start total :
  tiles 0 bounds total -> bounds <> [] -> (start <= total)%N -> hint_ok hint start total ->
  exists a, tiles a (drop (N.to_nat (N.min hint (nlen bounds - 1))) bounds) total /\ (a <= start)%N /\
    drop (N.to_nat (N.min hint (nlen bounds - 1))) bounds <> [].
Proof.
  intros Ht Hne Hs (a & Ha & Hle). assert (0 < length bounds) as Hpos by (destruct bounds; [done|cbn; lia]).
  unfold nlen. destruct (decide (N.to_nat hint < length bounds)) as [Hlt|Hge].
  - rewrite N.min_l by lia. exists a. split_and!; try done. intros H%(f_equal length).
    rewrite length_drop in H. cbn in H. lia.
  - rewrite drop_ge in Ha by lia. inversion Ha; subst. rewrite N.min_r by lia.
    destruct (lookup_lt_is_Some_2 bounds (length bounds - 1)) as [[lo hi] Hlast]; [lia|].
    replace (N.to_nat (N.of_nat (length bounds) - 1)) with (length bounds - 1) by lia.
    destruct (tiles_lookup _ _ _ _ _ _ Ht Hlast) as (? & ? & ? & _ & Hd).
    exists lo. split_and!; [done|lia|]. intros H'%(f_equal length). rewrite length_drop in H'. cbn in H'. lia.
Qed.

(** A file's fragments are its bytes, and each lies in its frame. *)
Lemma fragments_for_ok start len hint total :
  tiles 0 bounds total -> bounds <> [] -> (start + len <= total)%N -> (total <= usize_max)%N ->
  nlen stream = total -> hint_ok hint start total ->
  exists frags hint', fragments_for bounds start len hint = Ok (frags, hint') /\ hint_ok hint' (start + len) total /\
    frags <> [] /\ Forall (fragment_fits bounds) frags /\
    mjoin (fragment_bytes stream bounds <$> frags) = slice stream start (start + len).
Proof.
  intros Ht Hne Hin Hmax Htotal Hhint. unfold fragments_for.
  assert (Hm : forall X (e x : X), match bounds with [] => e | _ => x end = x) by (intros; by destruct bounds).
  rewrite Hm. clear Hm.
  destruct (N.eqb_spec len 0) as [->|Hlen0].
  - destruct (empty_start hint start total Ht Hne ltac:(lia) Hhint) as (a & Ha & Hle & Hd).
    destruct (skip_to_last_ok _ _ a total start eq_refl Ha Hd Hle ltac:(lia)) as (lo & hi & Hget & Hlo & Hhi).
    rewrite Hget. cbn [context rbind]. pose proof Hget as Hin'. unfold nget in Hin'.
    assert (hi - lo <= u32_max)%N as Hsz.
    { rewrite Forall_forall in Hsize. apply (Hsize (lo, hi)). by eapply list_elem_of_lookup_2. }
    apply lookup_lt_Some in Hin'. unfold nlen in Hlen. unfold try_from.
    rewrite !(proj2 (N.leb_le _ _)) by lia. cbn [context rbind]. eexists _, _. split; [done|].
    rewrite N.add_0_r. split_and!; [done|done| |].
    + constructor; [|done]. exists lo, hi. cbn. split; [done|lia].
    + cbn. unfold fragment_bytes. cbn. rewrite Hget, N.add_0_r. by rewrite !slice_empty.
  - destruct Hhint as (a & Ha & Hle).
    destruct (skip_ended_ok _ hint a total start eq_refl Ha Hle) as (rest' & a' & Hd & Ht' & Ha' & Hk); [lia|].
    unfold checked_add. rewrite (proj2 (N.leb_le _ _)) by lia. cbn [context rbind].
    destruct (overlapping_ok _ a' total rest' start (start + len) Hd Ht') as (frags & Hf & Hb & Hfit).
    rewrite Hd, Hf. cbn [rbind]. eexists _, _. split; [done|]. split; [exists a'; rewrite Hd; split; [done|lia]|].
    replace (N.max start a') with start in Hb by lia. replace (N.min (start + len) total) with (start + len)%N in Hb by lia.
    split_and!; try done. intros ->. cbn in Hb.
    assert (nlen (slice stream start (start + len)) = len) as Hn by (rewrite slice_length by lia; lia).
    rewrite <- Hb, nlen_nil in Hn. lia.
Qed.

(** [table_files] over files that lie one after another from [pos]. *)
Lemma table_files_ok pos l hint total :
  tiles 0 bounds total -> bounds <> [] -> (total <= usize_max)%N -> nlen stream = total ->
  tiles pos (map (fun x => (x.2.1, x.2.1 + x.2.2)%N) l) total -> hint_ok hint pos total ->
  exists fs, table_files bounds l hint = Ok fs /\
    Forall2 (fun x f =>
      fe_path f = b_path x.1 /\ fe_mode f = b_mode x.1 /\ blob_sha1 f = b_oid x.1 /\ fragments f <> [] /\
      Forall (fragment_fits bounds) (fragments f) /\
      mjoin (fragment_bytes stream bounds <$> fragments f) = slice stream x.2.1 (x.2.1 + x.2.2)) l fs.
Proof.
  intros Ht Hne Hmax Htot. revert pos hint. induction l as [|[b [start size]] l IH]; intros pos hint Hl Hh; cbn.
  { exists []. split; [done|constructor]. }
  cbn in Hl. apply tiles_cons_inv in Hl as (-> & Hle & Hl'). pose proof (tiles_le _ _ _ Hl').
  destruct (fragments_for_ok pos size hint _ Ht Hne ltac:(lia) Hmax Htot Hh)
    as (frags & hint' & Hf & Hh' & Hfne & Hfit & Hb).
  rewrite Hf. cbn [rbind]. destruct (IH _ _ Hl' Hh') as (fs & -> & Hfs). cbn [rbind].
  eexists. split; [done|]. constructor; [|done]. cbn. done.
Qed.
End fragments.

(** A layout's files follow each other from 0 to the total. *)
Lemma layout_starts_ok pos sizes starts total :
  layout_starts pos sizes = Ok (starts, total) ->
  length starts = length sizes /\ tiles pos (zip_with (fun s n => (s, s + n)%N) starts sizes) total /\
  (pos <= usize_max -> total <= usize_max)%N /\ total = (pos + nsum sizes)%N.
Proof.
  revert pos starts. induction sizes as [|n sizes IH]; intros pos starts H; cbn in H.
  { injection H as <- <-. cbn. split_and!; [done|constructor|done|lia]. }
  apply rbind_ok in H as (next & Hn & H). apply context_ok, checked_add_Some in Hn as [-> Hn].
  apply rbind_ok in H as ([starts' total'] & H' & H). injection H as <- <-.
  destruct (IH _ _ H') as (Hl & Ht & Hm & ->). cbn. split_and!; [by f_equal|constructor; [lia|done]|auto|]. unfold nsum. cbn. lia.
Qed.

Lemma files_table_ok ly blobs links sizes bounds (stream : bytes) :
  Layout_new blobs links sizes = Ok ly -> length blobs = length sizes -> nlen stream = ly_total ly ->
  tiles 0 bounds (ly_total ly) -> bounds <> [] ->
  (nlen bounds <= u32_max)%N -> Forall (fun b => (b.2 - b.1 <= u32_max)%N) bounds ->
  exists m, files_table ly bounds = Ok m /\ gitlinks m = links /\
    Forall2 (fun x f =>
      fe_path f = b_path x.1 /\ fe_mode f = b_mode x.1 /\ blob_sha1 f = b_oid x.1 /\ fragments f <> [] /\
      Forall (fragment_fits bounds) (fragments f) /\
      mjoin (fragment_bytes stream bounds <$> fragments f) = slice stream x.2.1 (x.2.1 + x.2.2))
      (placed_blobs ly) (files m) /\
    map fst (placed_blobs ly) = blobs /\
    mjoin (map (fun x => slice stream x.2.1 (x.2.1 + x.2.2)) (placed_blobs ly)) = stream.
Proof.
  intros H Hlen Hs Ht Hne Hn Hsz. unfold Layout_new in H. apply rbind_ok in H as ([starts total] & Hst & H).
  injection H as <-. cbn in *. apply layout_starts_ok in Hst as (Hl & Hfiles & Hmax & Htotal).
  assert (Hmap : map (fun x : Blob * (N * N) => (x.2.1, x.2.1 + x.2.2)%N) (zip blobs (zip starts sizes))
    = zip_with (fun s n => (s, s + n)%N) starts sizes).
  { clear -Hlen Hl. revert starts blobs Hlen Hl. induction sizes as [|n sizes IH]; intros [|s starts] [|b blobs]; cbn; try done.
    intros. f_equal. apply IH; lia. }
  assert (Hzip : map fst (zip blobs (zip starts sizes)) = blobs).
  { apply fst_zip. rewrite length_zip_with. lia. }
  unfold files_table, placed_blobs. cbn [ly_blobs ly_starts ly_sizes ly_gitlinks].
  destruct (table_files_ok stream bounds Hn Hsz 0 (zip blobs (zip starts sizes)) 0 total) as (fs & Hfs & Hall); try done.
  - apply Hmax. unfold usize_max, u64_max. lia.
  - by rewrite Hmap.
  - exists 0%N. split; [done|lia].
  - rewrite Hfs. cbn [rbind]. eexists. split; [done|]. split_and!; try done.
    rewrite <- Hmap in Hfiles. clear -Hfiles Hs. 
    assert (Hg : forall pos l, tiles pos (map (fun x : Blob * (N * N) => (x.2.1, x.2.1 + x.2.2)%N) l) total ->
      mjoin (map (fun x => slice stream x.2.1 (x.2.1 + x.2.2)) l) = slice stream pos total).
    { intros pos l. revert pos. induction l as [|[b [s n]] l IH]; intros pos Hl; cbn in *.
      - inversion Hl; subst. by rewrite slice_empty.
      - apply tiles_cons_inv in Hl as (-> & Hle & Hl'). pose proof (tiles_le _ _ _ Hl').
        change (slice stream pos (pos + n) ++ mjoin (map (fun x : Blob * (N * N) => slice stream x.2.1 (x.2.1 + x.2.2)) l) = slice stream pos total).
        rewrite (IH _ Hl'). apply slice_app; lia. }
    rewrite (Hg _ _ Hfiles), <- Hs. apply slice_all.
Qed.

(** The files table gives every file back: when the frames tile the stream, the
    table has every file of the tree with its path, mode and blob, each of its
    fragments lies inside an existing frame, and its fragments, read from the
    frames, are exactly the file's bytes of the stream. *)
Lemma files_table_reconstructs ly blobs links sizes bounds (stream : bytes) :
  Layout_new blobs links sizes = Ok ly -> length blobs = length sizes -> nlen stream = ly_total ly ->
  tiles 0 bounds (ly_total ly) -> bounds <> [] ->
  (nlen bounds <= u32_max)%N -> Forall (fun b => (b.2 - b.1 <= u32_max)%N) bounds ->
  exists m, files_table ly bounds = Ok m /\ gitlinks m = links /\
    Forall2 (fun x f =>
      fe_path f = b_path x.1 /\ fe_mode f = b_mode x.1 /\ blob_sha1 f = b_oid x.1 /\ fragments f <> [] /\
      Forall (fragment_fits bounds) (fragments f) /\
      mjoin (fragment_bytes stream bounds <$> fragments f) = slice stream x.2.1 (x.2.1 + x.2.2))
      (placed_blobs ly) (files m) /\
    map fst (placed_blobs ly) = blobs /\
    mjoin (map (fun x => slice stream x.2.1 (x.2.1 + x.2.2)) (placed_blobs ly)) = stream.
Proof. apply files_table_ok. Qed.

(** Three files, the second empty, over two frames; the third file spans both. *)
Lemma files_table_reconstructs_witness :
  exists ly m,
    Layout_new [("a", "oid-a", 33188); ("b", "oid-b", 33188); ("c", "oid-c", 33261)]%N%string ["sub"%string] [3; 0; 4]%N = Ok ly /\
    files_table ly [(0, 4); (4, 7)]%N = Ok m /\ gitlinks m = ["sub"%string] /\ length (files m) = 3.
Proof.
  eexists. destruct (files_table_reconstructs
    {| ly_blobs := [("a", "oid-a", 33188); ("b", "oid-b", 33188); ("c", "oid-c", 33261)]%N%string;
       ly_gitlinks := ["sub"%string]; ly_sizes := [3; 0; 4]%N; ly_starts := [0; 3; 3]%N; ly_total := 7 |}
    [("a", "oid-a", 33188); ("b", "oid-b", 33188); ("c", "oid-c", 33261)]%N%string ["sub"%string] [3; 0; 4]%N
    [(0, 4); (4, 7)]%N (repeat Byte.x61 7)) as (m & Hm & Hg & Hf & _); try done.
  - repeat constructor; lia.
  - apply Forall_cons; split; [done|]. by apply Forall_cons; split.
  - exists m. split; [reflexivity|]. split; [exact Hm|]. split; [exact Hg|]. by apply Forall2_length in Hf.
Defined.
