(* ===== verification/ArchivePlan.v ===== *)
(** Incremental archives ([rust/src/archive.rs]): the index of an earlier build
    ([BaseIndex]) and the plan of which of its frames a new build keeps
    ([plan_incremental]). *)

From S2P Require Import Prelude Validation Outputs Manifest Archive.

(** ** The base build *)
Record ArchiveBase := {
  ab_frames : list ArchiveFrame;
  ab_metadata : MetadataChunk;
  ab_bundles : list string;
}.

Record BaseIndex := {
  bi_frames : list ArchiveFrame;
  bi_starts : list N;
  bi_places : list (string * N);
  bi_by_raw : gmap string N;
  bi_bundles : gmap string string;
  bi_files : gmap string (string * N * N);  (* path -> blob id, start, length *)
}.

(** The loop of [BaseIndex::new] over the frames with their places: the starts,
    the places, both maps and the stream's length. *)
Fixpoint index_frames (bundles : list string) (l : list (ArchiveFrame * FrameInfo)) (k pos : N) (key : string)
    (by_raw : gmap string N) (by_key : gmap string string)
    : Result (list N * list (string * N) * gmap string N * gmap string string * N) :=
  match l with
  | [] => Ok ([], [], by_raw, by_key, pos)
  | (frame, info) :: rest =>
      ensure! (af_compressed_len frame =? compressed_len info)%N && (af_raw_len frame =? fi_raw_len info)%N
        else "base frame does not match its metadata";
      let? bundle := context (nget bundles (chunk_index info)) "base frame names a missing bundle" in
      let? next := context (checked_add usize_max pos (af_raw_len frame)) "base stream length overflow" in
      let key := key +:+ af_chunk_hash frame in
      let last_in_bundle :=
        match rest with
        | (_, after) :: _ => negb (chunk_index after =? chunk_index info)%N
        | [] => true
        end in
      let? (starts, places, by_raw, by_key, total) :=
        index_frames bundles rest (k + 1) next (if last_in_bundle then "" else key)
          (<[af_raw_hash frame := k]> by_raw)
          (if last_in_bundle then <[key := bundle]> by_key else by_key) in
      Ok (pos :: starts, (bundle, chunk_offset info) :: places, by_raw, by_key, total)
  end.

Definition file_len (f : FileEntry) : Result N :=
  try_fold (fun total fragment =>
    context (checked_add usize_max total (fg_raw_len fragment)) "base file length overflow") 0%N (fragments f).

(** The loop over the files: each at the end of the one before. *)
Fixpoint index_files (l : list FileEntry) (pos : N) : Result (list (string * (string * N * N)) * N) :=
  match l with
  | [] => Ok ([], pos)
  | f :: l =>
      let? len := file_len f in
      let? next := context (checked_add usize_max pos len) "base file offset overflow" in
      let? (rest, total) := index_files l next in
      Ok ((fe_path f, (blob_sha1 f, pos, len)) :: rest, total)
  end.

Definition BaseIndex_new (base : ArchiveBase) : Result BaseIndex :=
  let infos := frames (ab_metadata base) in
  ensure! (nlen infos =? nlen (ab_frames base))%N else "base has more frames than its metadata places";
  let? (starts, places, by_raw, by_key, pos) :=
    index_frames (ab_bundles base) (zip (ab_frames base) infos) 0 0 "" ∅ ∅ in
  let? (fs, file_pos) := index_files (files (ab_metadata base)) 0 in
  ensure! (file_pos =? pos)%N else "base files and frames cover different bytes";
  Ok {| bi_frames := ab_frames base; bi_starts := starts ++ [pos]; bi_places := places; bi_by_raw := by_raw;
        bi_bundles := by_key; bi_files := hash_map fs |}.

(** ** The plan *)
Definition MAX_GAP_BYTES : N := 134217728.

Record Plan := { pl_reused : list (N * N * N); pl_gaps : list (N * N) }.

Section plan.
(** The size in a blob's object header, and the cutter's least frame. *)
Context (blob_size : string -> Result N) (cdc_min : N).

(** An unchanged file keeps the base's size and start. *)
Definition size_blob (base : BaseIndex) (b : Blob) : Result (N * option N) :=
  match bi_files base !! b_path b with
  | Some (id, start, len) =>
      if bool_decide (id = b_oid b) then Ok (len, Some start)
      else let? size := blob_size (b_oid b) in Ok (size, None)
  | None => let? size := blob_size (b_oid b) in Ok (size, None)
  end.

(** Runs of unchanged files that are adjacent in the base stream too, newest
    first: [(old_start, old_end, new_start)]. *)
Definition extend_segments (segs : list (N * N * N)) (new_pos size : N) (old : option N) : list (N * N * N) :=
  match old with
  | None => segs
  | Some old =>
      match segs with
      | (o0, o1, n0) :: rest =>
          if (o1 =? old)%N && (n0 + (o1 - o0) =? new_pos)%N then (o0, o1 + size, n0)%N :: rest
          else (old, old + size, new_pos)%N :: segs
      | [] => [(old, old + size, new_pos)%N]
      end
  end.
Fixpoint find_segments (l : list (N * option N)) (new_pos : N) (segs : list (N * N * N))
    : Result (list (N * N * N) * N) :=
  match l with
  | [] => Ok (reverse segs, new_pos)
  | (size, old) :: l =>
      let segs := extend_segments segs new_pos size old in
      let? next := context (checked_add usize_max new_pos size) "archive stream length overflow" in
      find_segments l next segs
  end.

(** [while seg < by_old.len() && by_old[seg].1 <= fs]. *)
Fixpoint drop_ended (segs : list (N * N * N)) (fs : N) : list (N * N * N) :=
  match segs with
  | (o0, o1, n0) :: rest => if (o1 <=? fs)%N then drop_ended rest fs else segs
  | [] => []
  end.
(** The base frames that lie inside a segment, at its new position. [frames] is
    each frame's [(start, end)] with its index. *)
Fixpoint reuse_frames (l : list (N * (N * N))) (by_old : list (N * N * N)) : list (N * N * N) :=
  match l with
  | [] => []
  | (k, (fs, fe)) :: l =>
      if (fe =? fs)%N then reuse_frames l by_old
      else
        let by_old := drop_ended by_old fs in
        match by_old with
        | (o0, o1, n0) :: _ =>
            if (o0 <=? fs)%N && (fe <=? o1)%N
            then (n0 + (fs - o0), n0 + (fe - o0), k)%N :: reuse_frames l by_old
            else reuse_frames l by_old
        | [] => reuse_frames l by_old
        end
  end.

(** Drop kept frames that would leave a gap shorter than a minimum frame; [None]
    when two of them overlap. *)
Fixpoint keep_frames (reused : list (N * N * N)) (pos : N) : option (list (N * N * N)) :=
  match reused with
  | [] => Some []
  | (ns, ne, k) :: reused =>
      if (ns <? pos)%N then None
      else
        let gap := (ns - pos)%N in
        if (0 <? gap)%N && (gap <? cdc_min)%N then keep_frames reused pos
        else (cons (ns, ne, k)) <$> keep_frames reused ne
  end.
(** [while let Some(last) = kept.last()], over the list from its end. *)
Fixpoint pop_short_tail (total : N) (kept_rev : list (N * N * N)) : list (N * N * N) :=
  match kept_rev with
  | (ns, ne, k) :: rest =>
      let tail := (total - ne)%N in
      if (tail =? 0)%N || (cdc_min <=? tail)%N then kept_rev else pop_short_tail total rest
  | [] => []
  end.
Fixpoint gaps_between (kept : list (N * N * N)) (pos total : N) : list (N * N) :=
  match kept with
  | [] => if (pos <? total)%N then [(pos, total)] else []
  | (ns, ne, _) :: kept => (if (pos <? ns)%N then [(pos, ns)] else []) ++ gaps_between kept ne total
  end.

Definition start_le (a b : N * N * N) : bool := (a.1.1 <=? b.1.1)%N.

(** Each base frame's [(start, end)], [(starts[k], starts[k + 1])]. *)
Definition frame_spans (starts : list N) : list (N * N) := zip starts (drop 1 starts).

Definition plan_incremental (blobs : list Blob) (base : BaseIndex) : Result (option (Plan * list N)) :=
  let? sized := collect (size_blob base) blobs in
  let sizes := map fst sized in
  let? (segments, total) := find_segments sized 0 [] in
  if (total =? 0)%N then Ok None
  else
    let by_old := sort_by start_le segments in
    let reused := reuse_frames (enumerate (frame_spans (bi_starts base))) by_old in
    let reused := sort_by start_le reused in
    match keep_frames reused 0 with
    | None => Ok None
    | Some kept =>
        let kept := reverse (pop_short_tail total (reverse kept)) in
        match kept with
        | [] => Ok None
        | _ =>
            let gaps := gaps_between kept 0 total in
            let gap_bytes := nsum (map (fun g => g.2 - g.1)%N gaps) in
            if (total / 2 <? gap_bytes)%N || existsb (fun g => (MAX_GAP_BYTES <? g.2 - g.1)%N) gaps
            then Ok None
            else Ok (Some ({| pl_reused := kept; pl_gaps := gaps |}, sizes))
        end
    end.
End plan.

(** ** Lemmas on the index *)
Lemma index_frames_ok bundles l k pos key by_raw by_key starts places by_raw' by_key' total :
  index_frames bundles l k pos key by_raw by_key = Ok (starts, places, by_raw', by_key', total) ->
  tiles pos (frame_spans (starts ++ [total])) total /\ length starts = length l /\
  map (fun s => s.2 - s.1)%N (frame_spans (starts ++ [total])) = map (fun x => af_raw_len x.1) l.
Proof.
  revert k pos key by_raw by_key starts places.
  induction l as [|[frame info] rest IH]; intros k pos key by_raw by_key starts places H; cbn in H.
  { injection H as <- <- <- <- <-. cbn. split_and!; [constructor|done..]. }
  destruct (_ && _); [|done]. apply rbind_ok in H as (bundle & _ & H).
  apply rbind_ok in H as (next & Hn & H). apply context_ok, checked_add_Some in Hn as [-> _].
  apply rbind_ok in H as ([[[[starts1 places1] br] bk] tot] & Hrec & H). injection H as <- <- <- <- <-.
  destruct (IH _ _ _ _ _ _ _ Hrec) as (Ht & Hl & Hlens). unfold frame_spans in *. cbn.
  destruct starts1 as [|s1 starts1]; cbn in *.
  - destruct rest; [|done]. cbn in *. injection Hrec as <- <- <- <-. split_and!; [|done|by f_equal; lia].
    constructor; [lia|constructor].
  - assert (s1 = pos + af_raw_len frame)%N as ->.
    { destruct starts1 as [|s2 starts1]; cbn in Ht; inversion Ht; done. }
    split_and!; [constructor; [lia|done]|by f_equal|]. f_equal; [lia|done].
Qed.

(** The files of an archive lie in its stream one after another. *)
Definition in_stream_order (content : string -> bytes) (l : list FileEntry) (stream : bytes) : Prop :=
  stream = mjoin (map (fun f => content (blob_sha1 f)) l) /\
  Forall (fun f => file_len f = Ok (nlen (content (blob_sha1 f)))) l.

Lemma index_files_ok (content : string -> bytes) l (before : bytes) pos r total :
  index_files l pos = Ok (r, total) -> pos = nlen before ->
  Forall (fun f => file_len f = Ok (nlen (content (blob_sha1 f)))) l ->
  let stream := before ++ mjoin (map (fun f => content (blob_sha1 f)) l) in
  total = nlen stream /\
  Forall (fun x => slice stream x.2.1.2 (x.2.1.2 + x.2.2) = content x.2.1.1 /\ nlen (content x.2.1.1) = x.2.2) r.
Proof.
  revert before pos r. induction l as [|f l IH]; intros before pos r H -> Hl; cbn in *.
  { injection H as <- <-. split; [by rewrite app_nil_r|done]. }
  apply Forall_cons in Hl as [Hf Hl]. rewrite Hf in H. cbn in H.
  apply rbind_ok in H as (next & Hn & H). apply context_ok, checked_add_Some in Hn as [-> _].
  apply rbind_ok in H as ([rest total'] & Hrec & H). injection H as <- <-.
  destruct (IH (before ++ content (blob_sha1 f)) _ _ Hrec) as [Htot Hr]; [by rewrite nlen_app|done|].
  rewrite <- app_assoc in Htot, Hr.
  change (mjoin (content (blob_sha1 f) :: map (fun f => content (blob_sha1 f)) l))
    with (content (blob_sha1 f) ++ mjoin (map (fun f => content (blob_sha1 f)) l)).
  split; [done|]. constructor; [|done]. cbn. split; [|done].
  rewrite slice_app_r, N.sub_diag by done. replace (nlen before + _ - nlen before)%N with (nlen (content (blob_sha1 f))) by lia.
  rewrite slice_app_l by done. apply slice_all.
Qed.

(** ** Lemmas on the plan *)
Section plan_sound.
Context (blob_size : string -> Result N) (cdc_min : N).
(** The bytes of each blob, and the base stream. *)
Context (content : string -> bytes) (old_stream : bytes).
Context (Hblob : forall oid n, blob_size oid = Ok n -> n = nlen (content oid)).

Definition new_stream (blobs : list Blob) : bytes := mjoin (map (fun b => content (b_oid b)) blobs).

(** What the index says of a file is true. *)
Definition index_true (bi : BaseIndex) : Prop :=
  forall path id start len, bi_files bi !! path = Some (id, start, len) ->
    slice old_stream start (start + len) = content id /\ nlen (content id) = len.

Definition sized_ok (b : Blob) (x : N * option N) : Prop :=
  x.1 = nlen (content (b_oid b)) /\
  forall start, x.2 = Some start -> slice old_stream start (start + x.1) = content (b_oid b).

Lemma size_blob_ok bi b x : index_true bi -> size_blob blob_size bi b = Ok x -> sized_ok b x.
Proof.
  intros Hbi H. unfold size_blob in H. destruct (bi_files bi !! _) as [[[id start] len]|] eqn:E.
  - apply Hbi in E as [Hs Hl]. case_bool_decide as Hid.
    + injection H as <-. subst. split; [done|]. by intros s [= <-].
    + apply rbind_ok in H as (n & Hn%Hblob & H). injection H as <-. by split.
  - apply rbind_ok in H as (n & Hn%Hblob & H). injection H as <-. by split.
Qed.

(** A segment holds the same bytes in both streams. *)
Definition seg_ok (stream : bytes) (s : N * N * N) : Prop :=
  let '(o0, o1, n0) := s in
  (o0 <= o1)%N /\ (n0 + (o1 - o0) <= nlen stream)%N /\
  slice old_stream o0 o1 = slice stream n0 (n0 + (o1 - o0)).

Lemma seg_ok_app stream more s : seg_ok stream s -> seg_ok (stream ++ more) s.
Proof.
  destruct s as [[o0 o1] n0]. intros (H1 & H2 & H3). split_and!; [done|rewrite nlen_app; lia|].
  by rewrite slice_app_l.
Qed.

Lemma extend_segments_ok stream segs b x :
  Forall (seg_ok stream) segs -> sized_ok b x ->
  Forall (seg_ok (stream ++ content (b_oid b))) (extend_segments segs (nlen stream) x.1 x.2).
Proof.
  intros Hs [Hsize Hold]. assert (Hs' : Forall (seg_ok (stream ++ content (b_oid b))) segs).
  { eapply Forall_impl; [done|]. intros. by apply seg_ok_app. }
  unfold extend_segments. destruct x.2 as [old|]; [|done]. specialize (Hold _ eq_refl).
  assert (Hnew : seg_ok (stream ++ content (b_oid b)) (old, old + x.1, nlen stream)%N).
  { cbn. rewrite nlen_app. split_and!; [lia|lia|]. rewrite slice_app_r, N.sub_diag by done.
    replace (nlen stream + (old + x.1 - old) - nlen stream)%N with x.1 by lia.
    by rewrite Hold, Hsize, slice_all. }
  destruct segs as [|[[o0 o1] n0] rest]; [by constructor|].
  destruct (_ && _) eqn:E; [|by constructor]. breflect. subst old. apply Forall_cons in Hs' as [_ Hrest].
  constructor; [|done]. apply Forall_cons in Hs as [(Hle & Hin & Heq) _]. destruct Hnew as (_ & Hin' & Hnew).
  cbn. split_and!; [lia|lia|].
  rewrite <- (slice_app _ o0 o1 (o1 + x.1)) by lia. rewrite Hnew, Heq.
  replace (n0 + (o1 + x.1 - o0))%N with (nlen stream + (o1 + x.1 - o1))%N by lia.
  rewrite <- (slice_app_l stream (content (b_oid b))) by lia. rewrite <- H0, slice_app by lia. done.
Qed.

Lemma find_segments_ok blobs sized before segs r total :
  Forall2 sized_ok blobs sized -> Forall (seg_ok before) segs ->
  find_segments sized (nlen before) segs = Ok (r, total) ->
  Forall (seg_ok (before ++ new_stream blobs)) r /\ total = nlen (before ++ new_stream blobs).
Proof.
  intros Hb. revert before segs. induction Hb as [|b x blobs sized Hx Hb IH]; intros before segs Hs H; cbn in H.
  { injection H as <- <-. unfold new_stream. cbn. rewrite app_nil_r. split; [|done].
    apply Forall_forall. intros s Hin. rewrite elem_of_reverse in Hin. rewrite Forall_forall in Hs. auto. }
  destruct x as [size old]. apply rbind_ok in H as (next & Hn & H). apply context_ok, checked_add_Some in Hn as [-> _].
  pose proof (extend_segments_ok before segs b (size, old) Hs Hx) as Hs'. cbn in Hs'.
  replace (nlen before + size)%N with (nlen (before ++ content (b_oid b))) in H
    by (rewrite nlen_app; destruct Hx as [Hsz _]; cbn in Hsz; by rewrite Hsz).
  destruct (IH _ _ Hs' H) as [Hr Ht]. rewrite <- app_assoc in Hr, Ht. done.
Qed.

(** A kept base frame holds the same bytes in both streams. *)
Definition reused_ok (spans : list (N * N)) (stream : bytes) (r : N * N * N) : Prop :=
  let '(a, b, k) := r in
  exists fs fe, nget spans k = Some (fs, fe) /\ (fs < fe)%N /\ b = (a + (fe - fs))%N /\ (b <= nlen stream)%N /\
    slice stream a b = slice old_stream fs fe.

Lemma drop_ended_sub segs fs s : s ∈ drop_ended segs fs -> s ∈ segs.
Proof.
  induction segs as [|[[o0 o1] n0] rest IH]; cbn; [done|]. destruct (_ <=? _)%N; [|done]. set_solver.
Qed.

Lemma reuse_frames_ok stream spans l by_old :
  Forall (seg_ok stream) by_old -> Forall (fun s => s.1 <= s.2)%N spans ->
  Forall (fun x => nget spans x.1 = Some x.2) l ->
  Forall (reused_ok spans stream) (reuse_frames l by_old).
Proof.
  intros Hs Hsp. revert by_old Hs. induction l as [|[k [fs fe]] l IH]; intros by_old Hs Hl; cbn; [constructor|].
  apply Forall_cons in Hl as [Hk Hl]. cbn in Hk. destruct (N.eqb_spec fe fs); [auto|].
  assert (fs <= fe)%N as Hle.
  { rewrite Forall_forall in Hsp. apply (Hsp (fs, fe)). by eapply list_elem_of_lookup_2. }
  assert (Hs' : Forall (seg_ok stream) (drop_ended by_old fs)).
  { apply Forall_forall. intros s Hin%drop_ended_sub. rewrite Forall_forall in Hs. auto. }
  destruct (drop_ended by_old fs) as [|[[o0 o1] n0] rest]; [auto|].
  destruct (_ && _) eqn:E; [|auto]. breflect. constructor; [|auto].
  apply Forall_cons in Hs' as [(H1 & H2 & H3) _]. exists fs, fe. split_and!; [done|lia|lia|lia|].
  transitivity (slice (slice stream n0 (n0 + (o1 - o0))) (fs - o0) (fe - o0)); [by rewrite slice_slice by lia|].
  rewrite <- H3, slice_slice by lia. f_equal; lia.
Qed.

(** Kept frames from [pos] on: in order, with gaps of none or at least a minimum
    frame. *)
Inductive spaced : N -> list (N * N * N) -> Prop :=
  | spaced_nil pos : spaced pos []
  | spaced_cons pos ns ne k l :
      (pos <= ns)%N -> (ns = pos \/ cdc_min <= ns - pos)%N -> (ns <= ne)%N -> spaced ne l ->
      spaced pos ((ns, ne, k) :: l).

Lemma keep_frames_ok reused pos kept :
  Forall (fun r => r.1.1 <= r.1.2)%N reused ->
  keep_frames cdc_min reused pos = Some kept -> spaced pos kept /\ forall r, r ∈ kept -> r ∈ reused.
Proof.
  revert pos kept. induction reused as [|[[ns ne] k] l IH]; intros pos kept Hr H; cbn in H.
  { injection H as <-. split; [constructor|done]. }
  apply Forall_cons in Hr as [Hne Hr]. cbn in Hne.
  destruct (N.ltb_spec ns pos); [done|]. destruct (_ && _) eqn:E.
  - destruct (IH _ _ Hr H) as [? ?]. split; [done|]. set_solver.
  - destruct (keep_frames cdc_min l ne) as [kept'|] eqn:E'; [|done]. injection H as <-.
    destruct (IH _ _ Hr E') as [Hs Hsub]. split; [|set_solver].
    constructor; try done. apply andb_false_iff in E. rewrite N.ltb_ge, N.ltb_ge in E. lia.
Qed.

Lemma spaced_take pos l l' : spaced pos (l ++ l') -> spaced pos l.
Proof.
  revert pos; induction l as [|[[ns ne] k] l IH]; intros pos H; [constructor|].
  inversion H; subst. constructor; auto.
Qed.

(** Popping from the end keeps a prefix whose tail is none or long enough. *)
Lemma pop_short_tail_ok total l :
  exists l1 l2, l = l1 ++ l2 /\ reverse (pop_short_tail cdc_min total (reverse l)) = l1 /\
    match last l1 with
    | Some (_, ne, _) => (total - ne = 0 \/ cdc_min <= total - ne)%N
    | None => True
    end.
Proof.
  induction l as [|[[ns ne] k] l IH] using rev_ind; [by exists [], []|].
  rewrite reverse_snoc. cbn [pop_short_tail]. destruct (_ || _) eqn:E.
  - exists (l ++ [(ns, ne, k)]), []. rewrite app_nil_r. split_and!; [done| |].
    + by rewrite reverse_cons, reverse_involutive.
    + rewrite last_snoc. apply orb_true_iff in E. rewrite N.eqb_eq, N.leb_le in E. done.
  - destruct IH as (l1 & l2 & -> & H1 & H2). exists l1, (l2 ++ [(ns, ne, k)]). split_and!; [by rewrite app_assoc|done|done].
Qed.

(** The kept frames and the gaps between them tile the stream. *)
Lemma gaps_tile pos kept total :
  spaced pos kept -> (pos <= total)%N -> Forall (fun r => r.1.2 <= total)%N kept ->
  match last kept with
  | Some (_, ne, _) => (total - ne = 0 \/ cdc_min <= total - ne)%N
  | None => (total - pos = 0 \/ cdc_min <= total - pos)%N
  end ->
  (exists l, tiles pos l total /\ l ≡ₚ map fst kept ++ gaps_between kept pos total) /\
  Forall (fun g => g.1 < g.2 /\ cdc_min <= g.2 - g.1)%N (gaps_between kept pos total).
Proof.
  intros Hs. induction Hs as [pos|pos ns ne k kept Hle Hgap Hne Hs IH]; intros Hp Hk Hl; cbn.
  { destruct (N.ltb_spec pos total).
    - split; [exists [(pos, total)]; split; [by repeat constructor|done]|]. constructor; [cbn in *; lia|done].
    - replace total with pos by lia. split; [exists []; split; [constructor|done]|done]. }
  apply Forall_cons in Hk as [Hne' Hk]. cbn in Hne'.
  destruct IH as [(l & Ht & Hperm) Hg]; [done|done| |].
  { destruct kept as [|x kept]; [cbn in *; lia|]. rewrite last_cons_cons in Hl.
    destruct (last (x :: kept)) eqn:El; [exact Hl|by apply last_None in El]. }
  destruct (N.ltb_spec pos ns).
  - split.
    + exists ((pos, ns) :: (ns, ne) :: l). split; [by repeat constructor|]. cbn. rewrite Hperm.
      rewrite <- Permutation_middle. apply Permutation_swap.
    + constructor; [cbn; lia|done].
  - replace ns with pos in * by lia. split; [|done].
    exists ((pos, ne) :: l). split; [by constructor|]. cbn. by rewrite Hperm.
Qed.

Lemma plan_incremental_ok bi blobs plan sizes :
  index_true bi -> Forall (fun s => s.1 <= s.2)%N (frame_spans (bi_starts bi)) ->
  plan_incremental blob_size cdc_min blobs bi = Ok (Some (plan, sizes)) ->
  let stream := new_stream blobs in
  sizes = map (fun b => nlen (content (b_oid b))) blobs /\
  Forall (reused_ok (frame_spans (bi_starts bi)) stream) (pl_reused plan) /\ pl_reused plan <> [] /\
  (exists l, tiles 0 l (nlen stream) /\ l ≡ₚ map fst (pl_reused plan) ++ pl_gaps plan) /\
  Forall (fun g => g.1 < g.2 /\ cdc_min <= g.2 - g.1 /\ g.2 - g.1 <= MAX_GAP_BYTES)%N (pl_gaps plan) /\
  (2 * nsum (map (fun g => g.2 - g.1) (pl_gaps plan)) <= nlen stream)%N.
Proof.
  intros Hbi Hspans H. cbv zeta. unfold plan_incremental in H.
  apply rbind_ok in H as (sized & Hsized & H). apply rbind_ok in H as ([segs total] & Hseg & H).
  assert (Hall : Forall2 sized_ok blobs sized).
  { apply collect_ok in Hsized. eapply Forall2_impl; [exact Hsized|]. intros b x. by apply size_blob_ok. }
  change 0%N with (nlen ([] : bytes)) in Hseg.
  destruct (find_segments_ok _ _ _ _ _ _ Hall (List.Forall_nil _) Hseg) as [Hsegs Htotal]. cbn in Hsegs, Htotal.
  destruct (N.eqb_spec total 0); [done|].
  destruct (keep_frames _ _ _) as [kept|] eqn:Ek; [|done].
  set (reused := sort_by start_le (reuse_frames _ _)) in *.
  assert (Hreused : Forall (reused_ok (frame_spans (bi_starts bi)) (new_stream blobs)) reused).
  { apply Forall_forall. intros r Hr%elem_of_sort_by. revert r Hr. apply Forall_forall.
    apply reuse_frames_ok; [|done|].
    - apply Forall_forall. intros x Hx%elem_of_sort_by. rewrite Forall_forall in Hsegs. auto.
    - apply Forall_forall. intros [k x] Hx%elem_of_enumerate. done. }
  destruct (keep_frames_ok reused 0 kept) as [Hspaced Hsub]; [|done|].
  { eapply Forall_impl; [exact Hreused|]. intros [[a b] k] (fs & fe & _ & _ & -> & _). cbn [fst snd]. lia. }
  destruct (pop_short_tail_ok total kept) as (l1 & l2 & Heq & Hpop & Hlast). rewrite Hpop in H.
  assert (Hl1 : forall r, r ∈ l1 -> reused_ok (frame_spans (bi_starts bi)) (new_stream blobs) r).
  { intros r Hr. rewrite Forall_forall in Hreused. apply Hreused, Hsub. rewrite Heq. set_solver. }
  destruct l1 as [|x l1]; [done|]. set (l := x :: l1) in *.
  destruct (_ || _) eqn:Ec in H; [done|]. injection H as <- <-. cbn [pl_reused pl_gaps].
  apply orb_false_iff in Ec as [Hhalf%N.ltb_ge Hmax]. 
  destruct (gaps_tile 0 l total) as [Htile Hgaps].
  - rewrite Heq in Hspaced. by eapply spaced_take.
  - lia.
  - apply Forall_forall. intros [[a b] k] Hr. destruct (Hl1 _ Hr) as (fs & fe & _ & _ & _ & Hb & _). cbn [fst snd]. lia.
  - destruct (last l) eqn:El; [exact Hlast|by apply last_None in El].
  - split_and!; [|by apply Forall_forall|done| | |].
    + clear -Hall. induction Hall as [|b y blobs sized [Hy _] _ IH]; cbn; [done|]. by f_equal.
    + by rewrite <- Htotal.
    + apply Forall_forall. intros g Hg. rewrite Forall_forall in Hgaps. destruct (Hgaps g Hg) as [H1 H2].
      split_and!; [done|done|]. apply N.ltb_ge. apply not_true_iff_false. intros Hm.
      apply not_true_iff_false in Hmax. apply Hmax, List.existsb_exists. exists g. by rewrite <- list_elem_of_In.
    + rewrite <- Htotal. etransitivity; [apply N.mul_le_mono_l, Hhalf|apply N.Div0.mul_div_le].
Qed.
End plan_sound.

Lemma tiles_spans a l b : tiles a l b -> Forall (fun s => s.1 <= s.2)%N l.
Proof. induction 1; constructor; auto. Qed.

Lemma BaseIndex_new_ok (content : string -> bytes) base bi stream :
  BaseIndex_new base = Ok bi -> in_stream_order content (files (ab_metadata base)) stream ->
  index_true content stream bi /\ tiles 0 (frame_spans (bi_starts bi)) (nlen stream) /\
  map (fun s => s.2 - s.1)%N (frame_spans (bi_starts bi)) = map af_raw_len (ab_frames base).
Proof.
  intros H [Hstream Hfiles]. unfold BaseIndex_new in H. destruct (N.eqb_spec (nlen (frames (ab_metadata base))) (nlen (ab_frames base))) as [Hlen|]; [|done].
  apply rbind_ok in H as ([[[[starts places] br] bk] pos] & Hi & H).
  apply rbind_ok in H as ([fs fp] & Hf & H). destruct (N.eqb_spec fp pos) as [->|]; [|done]. injection H as <-.
  destruct (index_files_ok content (files (ab_metadata base)) [] 0 fs pos Hf eq_refl Hfiles) as [Hpos Hfs].
  cbn in Hpos, Hfs. rewrite <- Hstream in Hpos, Hfs. cbn.
  apply index_frames_ok in Hi as (Ht & _ & Hl). rewrite <- Hpos. split_and!; [|done|].
  - intros path id start len Hx%hash_map_lookup. rewrite Forall_forall in Hfs. by apply (Hfs _ Hx).
  - etransitivity; [exact Hl|]. apply (f_equal N.to_nat) in Hlen. unfold nlen in Hlen. clear -Hlen.
    assert (length (frames (ab_metadata base)) = length (ab_frames base)) as Hlen' by lia. clear Hlen.
    revert Hlen'. generalize (frames (ab_metadata base)). induction (ab_frames base) as [|f l IH]; intros [|i k]; cbn; try done.
    intros. f_equal. apply IH. lia.
Qed.

(** C28: an incremental plan is sound on a base whose files lie in its stream in the
    order its table lists them, as a build's own table has them and a table read back
    from a delta may not ([applied_delta_breaks_plan]): every base frame the plan
    keeps holds exactly the new worktree's bytes at the position it is given, and the
    kept frames and the gaps to read again tile the new stream; every gap holds at
    least a minimum frame and at most the batch limit, and the gaps are at most half
    the stream. *)
Theorem plan_incremental_sound (content : string -> bytes) blob_size cdc_min base bi old_stream blobs plan sizes :
  (forall oid n, blob_size oid = Ok n -> n = nlen (content oid)) ->
  BaseIndex_new base = Ok bi -> in_stream_order content (files (ab_metadata base)) old_stream ->
  plan_incremental blob_size cdc_min blobs bi = Ok (Some (plan, sizes)) ->
  let stream := new_stream content blobs in
  sizes = map (fun b => nlen (content (b_oid b))) blobs /\
  Forall (reused_ok old_stream (frame_spans (bi_starts bi)) stream) (pl_reused plan) /\ pl_reused plan <> [] /\
  (exists l, tiles 0 l (nlen stream) /\ l ≡ₚ map fst (pl_reused plan) ++ pl_gaps plan) /\
  Forall (fun g => g.1 < g.2 /\ cdc_min <= g.2 - g.1 /\ g.2 - g.1 <= MAX_GAP_BYTES)%N (pl_gaps plan) /\
  (2 * nsum (map (fun g => g.2 - g.1) (pl_gaps plan)) <= nlen stream)%N.
Proof.
  intros Hblob Hbi Hord Hplan. destruct (BaseIndex_new_ok content base bi old_stream Hbi Hord) as (Htrue & Ht & _).
  eapply plan_incremental_ok; [done|done|by eapply tiles_spans|done].
Qed.

(** ** An example: three files, each its own frame *)
Module PlanExample.
Definition id_a : string := "aaaaaaaaaaaaaaaaaaaa".
Definition id_b : string := "bbbbbbbbbbbbbbbbbbbb".
Definition id_c : string := "cccccccccccccccccccc".
Definition id_d : string := "dddddddddddddddddddd".
Definition content (id : string) : bytes :=
  if bool_decide (id = id_a) then [Byte.x41; Byte.x41]
  else if bool_decide (id = id_b) then [Byte.x42; Byte.x42; Byte.x42]
  else if bool_decide (id = id_c) then [Byte.x43; Byte.x43; Byte.x43]
  else [Byte.x44; Byte.x44].
Definition blob_size (id : string) : Result N := Ok (nlen (content id)).
Definition blob (path id : string) : Blob := (path, id, 33188%N).
Definition file (path id : string) (frame len : N) : FileEntry :=
  {| fe_path := path; fe_mode := 33188; blob_sha1 := id;
     fragments := [{| frame_index := frame; frame_offset := 0; fg_raw_len := len |}] |}.
Definition info (offset raw : N) : FrameInfo :=
  {| chunk_index := 0; chunk_offset := offset; compressed_len := 9; fi_raw_len := raw |}.
Definition afr (raw chunk : string) (raw_len : N) : ArchiveFrame :=
  {| af_raw_hash := raw; af_chunk_hash := chunk; af_compressed_len := 9; af_raw_len := raw_len |}.

(** A build of [a, c], and a later compacted build of [a, b, c]. *)
Definition first : MetadataChunk :=
  {| frames := [info 0 2; info 9 3]; files := [file "a" id_a 0 2; file "c" id_c 1 3]; gitlinks := [] |}.
Definition second : MetadataChunk :=
  {| frames := [info 0 2; info 9 3; info 18 3];
     files := [file "a" id_a 0 2; file "b" id_b 1 3; file "c" id_c 2 3]; gitlinks := [] |}.
Definition second_frames : list ArchiveFrame := [afr "ra" "ka" 2; afr "rb" "kb" 3; afr "rc" "kc" 3].
Definition second_stream : bytes := content id_a ++ content id_b ++ content id_c.
Definition base (m : MetadataChunk) : ArchiveBase :=
  {| ab_frames := second_frames; ab_metadata := m; ab_bundles := ["bundle"] |}.

(** The tree with [a] edited, and the same tree again. *)
Definition edited : list Blob := [blob "a" id_d; blob "b" id_b; blob "c" id_c].
Definition same : list Blob := [blob "a" id_a; blob "b" id_b; blob "c" id_c].

Definition index_of (m : MetadataChunk) : BaseIndex :=
  match BaseIndex_new (base m) with
  | Ok bi => bi
  | Err _ => {| bi_frames := []; bi_starts := []; bi_places := []; bi_by_raw := ∅; bi_bundles := ∅; bi_files := ∅ |}
  end.
Definition stored : MetadataChunk :=
  match (let? d := between first [1; 3]%N second in apply_delta d first) with Ok m => m | Err _ => first end.
End PlanExample.
Import PlanExample.

Lemma plan_incremental_sound_witness :
  exists plan sizes, plan_incremental blob_size 2 edited (index_of second) = Ok (Some (plan, sizes)) /\
    pl_gaps plan = [(0, 2)]%N /\
    Forall (reused_ok second_stream (frame_spans (bi_starts (index_of second))) (new_stream content edited))
      (pl_reused plan).
Proof.
  destruct (plan_incremental blob_size 2 edited (index_of second)) as [[[plan sizes]|]|] eqn:E;
    [|vm_compute in E; discriminate E|vm_compute in E; discriminate E].
  exists plan, sizes. split; [reflexivity|]. split; [vm_compute in E; injection E as <- <-; reflexivity|].
  refine (proj1 (proj2 (plan_incremental_sound content blob_size 2 (base second) (index_of second) second_stream
    edited plan sizes _ _ _ E))).
  - intros oid n [= <-]. reflexivity.
  - vm_compute. reflexivity.
  - split; [vm_compute; reflexivity|]. repeat (constructor; [vm_compute; reflexivity|]). constructor.
Defined.

(** The order of a base's files table matters, and a stored delta loses it: the
    table of [second] stored as a delta on the table of [first] is read back with
    [b] after [c], is valid and has the same files; [BaseIndex::new] takes it, and
    the plan for the unchanged tree then keeps the frames of [b] and [c] in each
    other's place, so the new archive has their bytes swapped. *)
Lemma applied_delta_breaks_plan :
  (exists d, between first [1; 3]%N second = Ok d /\ apply_delta d first = Ok stored) /\
  files stored ≡ₚ files second /\ validate_geometry stored = Ok tt /\
  BaseIndex_new (base stored) = Ok (index_of stored) /\
  exists plan sizes, plan_incremental blob_size 2 same (index_of stored) = Ok (Some (plan, sizes)) /\
    pl_gaps plan = [] /\
    (2, 5, 2)%N ∈ pl_reused plan /\ nget (frame_spans (bi_starts (index_of stored))) 2 = Some (5, 8)%N /\
    slice (new_stream content same) 2 5 = content id_b /\ slice second_stream 5 8 = content id_c.
Proof.
  split; [|split; [|split; [|split]]].
  - eexists. split; [vm_compute; reflexivity|]. vm_compute. reflexivity.
  - change (files stored) with [file "a" id_a 0 2; file "c" id_c 2 3; file "b" id_b 1 3].
    apply Permutation_skip. apply Permutation_swap.
  - vm_compute. reflexivity.
  - vm_compute. reflexivity.
  - eexists _, _. split; [vm_compute; reflexivity|]. cbn [pl_reused pl_gaps].
    split; [reflexivity|]. split; [set_solver|]. split_and!; vm_compute; reflexivity.
Qed.
