(* ===== verification/ArchiveBundle.v ===== *)
(** Download bundles ([rust/src/archive.rs]): building one frame, reading a base
    frame back, grouping frames into bundles ([Bundler]), and assembling frames
    into in-memory chunks ([build_chunks]). *)

From S2P Require Import Prelude Validation Outputs Manifest Archive ArchivePlan.

Record BuiltFrame := {
  bf_raw_hash : string;
  bf_raw_len : N;
  bf_chunk_hash : string;
  bf_compressed_len : N;
  bf_bytes : option bytes;
  bf_base_frame : option N;
}.

(** The bundler's state; [bd_written] are the objects installed in the content
    store, and the four counts are [ArchiveReuse]'s. *)
Record Bundler := {
  bd_group : list BuiltFrame;
  bd_group_len : N;
  bd_bundles : list string;
  bd_new_bundles : list string;
  bd_infos : list FrameInfo;
  bd_frames : list ArchiveFrame;
  bd_written : list (string * bytes);
  frames_built : N;
  frames_reused : N;
  bundles_built : N;
  bundles_reused : N;
}.

Definition last_byte (s : string) : option ascii := last (String.list_ascii_of_string s).
(** [cuts_after]: whether a bundle may end after the frame with this hash. *)
Definition cuts_after (chunk_hash : string) : bool :=
  match last_byte chunk_hash with Some b => (N_of_ascii b mod 2 =? 0)%N | None => false end.

Section bundle.
(** [cas::hash], [compress_frame], and reading a range of a bundle from the local
    content store and from object storage. *)
Context (cas_hash : bytes -> string) (zstd_encode : bytes -> Result bytes)
  (local_range : string -> N -> N -> Result bytes)
  (storage : option (string -> N -> N -> Result bytes)).

Definition compress_frame (raw : bytes) : Result bytes :=
  match raw with [] => Ok [] | _ => zstd_encode raw end.

Definition build_frame (raw : bytes) (base : option BaseIndex) : Result BuiltFrame :=
  let raw_hash := cas_hash raw in
  match (base ← base; k ← bi_by_raw base !! raw_hash; frame ← nget (bi_frames base) k; Some (k, frame)) with
  | Some (k, frame) =>
      Ok {| bf_raw_hash := raw_hash; bf_raw_len := nlen raw; bf_chunk_hash := af_chunk_hash frame;
            bf_compressed_len := af_compressed_len frame; bf_bytes := None; bf_base_frame := Some k |}
  | None =>
      let? b := compress_frame raw in
      Ok {| bf_raw_hash := raw_hash; bf_raw_len := nlen raw; bf_chunk_hash := cas_hash b;
            bf_compressed_len := nlen b; bf_bytes := Some b; bf_base_frame := None |}
  end.

(** [BaseIndex::read_frame]. *)
Definition read_frame (base : BaseIndex) (k : N) : Result bytes :=
  let? frame := context (nget (bi_frames base) k) "index out of bounds" in
  let? (bundle, offset) := context (nget (bi_places base) k) "index out of bounds" in
  let matches_ (data : bytes) :=
    (nlen data =? af_compressed_len frame)%N && bool_decide (cas_hash data = af_chunk_hash frame) in
  match (data ← ok (local_range bundle offset (af_compressed_len frame));
         if matches_ data then Some data else None) with
  | Some data => Ok data
  | None =>
      match storage with
      | None => Err "archive frame is not in the local copy of bundle"
      | Some get_range =>
          let? data := get_range bundle offset (af_compressed_len frame) in
          ensure! matches_ data else "archive frame from bundle: hash mismatch";
          Ok data
      end
  end.

(** ** The bundler *)
Context (base : option BaseIndex) (target : N).
Definition bundle_target : N := N.max target 2.
Definition bundle_min : N := (bundle_target / 2)%N.
Definition bundle_max : N := saturating_mul u64_max bundle_target 2.

Definition Bundler_new : Bundler :=
  {| bd_group := []; bd_group_len := 0; bd_bundles := []; bd_new_bundles := []; bd_infos := []; bd_frames := [];
     bd_written := []; frames_built := 0; frames_reused := 0; bundles_built := 0; bundles_reused := 0 |}.

(** A frame's compressed bytes: this build's, or read from the base. *)
Definition frame_bytes (f : BuiltFrame) : Result bytes :=
  match bf_bytes f, bf_base_frame f, base with
  | Some b, _, _ => Ok b
  | None, Some k, Some base => read_frame base k
  | None, _, _ => Err "archive frame has no bytes"
  end.

Definition write_group (bd : Bundler) : Result (string * bytes) :=
  let? datas := collect frame_bytes (bd_group bd) in
  let content := mjoin datas in
  ensure! (nlen content =? bd_group_len bd)%N else "archive bundle length != frames";
  Ok (cas_hash content, content).

(** The loop of [close] that places the group's frames in bundle [index]. *)
Fixpoint place_group (index offset : N) (group : list BuiltFrame) : Result (list FrameInfo) :=
  match group with
  | [] => Ok []
  | f :: group =>
      let? clen := context (try_from u32_max (bf_compressed_len f)) "compressed archive frame exceeds manifest limit" in
      let? rlen := context (try_from u32_max (bf_raw_len f)) "raw archive frame exceeds manifest limit" in
      let? rest := place_group index (offset + bf_compressed_len f) group in
      Ok ({| chunk_index := index; chunk_offset := offset; compressed_len := clen; fi_raw_len := rlen |} :: rest)
  end.

Definition archive_frame (f : BuiltFrame) : ArchiveFrame :=
  {| af_raw_hash := bf_raw_hash f; af_chunk_hash := bf_chunk_hash f; af_compressed_len := bf_compressed_len f;
     af_raw_len := bf_raw_len f |}.
Definition group_key (group : list BuiltFrame) : string :=
  foldr (fun f key => bf_chunk_hash f +:+ key) "" group.
Definition is_built (f : BuiltFrame) : bool := match bf_bytes f with Some _ => true | None => false end.

Definition close (bd : Bundler) : Result Bundler :=
  match bd_group bd with
  | [] => Ok bd
  | _ =>
      let? index := context (try_from u32_max (nlen (bd_bundles bd))) "too many archive bundles" in
      let? (hash, written) :=
        match (base ← base; bi_bundles base !! group_key (bd_group bd)) with
        | Some hash => Ok (hash, None)
        | None => let? (hash, content) := write_group bd in Ok (hash, Some (hash, content))
        end in
      let? infos := place_group index 0 (bd_group bd) in
      let built := nlen (List.filter is_built (bd_group bd)) in
      Ok {| bd_group := []; bd_group_len := 0; bd_bundles := bd_bundles bd ++ [hash];
            bd_new_bundles := bd_new_bundles bd ++ option_list (fst <$> written);
            bd_infos := bd_infos bd ++ infos;
            bd_frames := bd_frames bd ++ map archive_frame (bd_group bd);
            bd_written := bd_written bd ++ option_list written;
            frames_built := frames_built bd + built;
            frames_reused := frames_reused bd + (nlen (bd_group bd) - built);
            bundles_built := bundles_built bd + nlen (option_list written);
            bundles_reused := bundles_reused bd + (1 - nlen (option_list written)) |}
  end.

Definition push_group (f : BuiltFrame) (bd : Bundler) : Bundler :=
  {| bd_group := bd_group bd ++ [f]; bd_group_len := bd_group_len bd + bf_compressed_len f;
     bd_bundles := bd_bundles bd; bd_new_bundles := bd_new_bundles bd; bd_infos := bd_infos bd;
     bd_frames := bd_frames bd; bd_written := bd_written bd; frames_built := frames_built bd;
     frames_reused := frames_reused bd; bundles_built := bundles_built bd; bundles_reused := bundles_reused bd |}.

Definition push (bd : Bundler) (f : BuiltFrame) : Result Bundler :=
  let? bd :=
    (if negb (match bd_group bd with [] => true | _ => false end)
        && (bundle_max <? bd_group_len bd + bf_compressed_len f)%N
     then close bd else Ok bd) in
  let bd := push_group f bd in
  if (bundle_max <=? bd_group_len bd)%N || ((bundle_min <=? bd_group_len bd)%N && cuts_after (bf_chunk_hash f))
  then close bd else Ok bd.

(** Every frame pushed in order, then [finish]. *)
Definition bundle_all (fs : list BuiltFrame) : Result Bundler :=
  let? bd := try_fold push Bundler_new fs in close bd.
End bundle.

(** ** build_chunks *)

(** The loop's state: closed chunks, the open chunk and its number of frames. *)
Definition chunk_step (target : N) (acc : list bytes * bytes * N * list FrameInfo) (x : bytes * (N * N))
    : Result (list bytes * bytes * N * list FrameInfo) :=
  let '(chunks, current, count, infos) := acc in
  let '(compressed, (lo, hi)) := x in
  let would_exceed :=
    negb (match current with [] => true | _ => false end)
    && (target <? saturating_add u64_max (nlen current) (nlen compressed))%N in
  let '(chunks, current, count) :=
    if would_exceed then (chunks ++ [current], [], 0%N) else (chunks, current, count) in
  let? index := context (try_from u32_max (nlen chunks)) "archive has too many chunks" in
  let? clen := context (try_from u32_max (nlen compressed)) "compressed archive frame is too large" in
  let? rlen := context (try_from u32_max (hi - lo)) "raw archive frame is too large" in
  let infos := infos ++ [{| chunk_index := index; chunk_offset := nlen current; compressed_len := clen;
                            fi_raw_len := rlen |}] in
  let current := current ++ compressed in
  if (target <=? nlen current)%N then Ok (chunks ++ [current], [], 0%N, infos)
  else Ok (chunks, current, (count + 1)%N, infos).

(** The frame table and the chunks of compressed frames. *)
Definition assemble_chunks (target_chunk_size : N) (compressed : list bytes) (bounds : list (N * N))
    : Result (list bytes * list FrameInfo) :=
  let target := N.max target_chunk_size 1 in
  let? (chunks, current, count, infos) := try_fold (chunk_step target) ([], [], 0%N, []) (zip compressed bounds) in
  Ok (if (0 <? count)%N then chunks ++ [current] else chunks, infos).

(** [build_chunks] from the frames the stream was cut into. *)
Definition build_chunks (target_chunk_size : N) (ly : Layout) (compressed : list bytes) (bounds : list (N * N))
    : Result (MetadataChunk * list bytes) :=
  let? table :=
    match ly_blobs ly with
    | [] => Ok {| frames := []; files := []; gitlinks := [] |}
    | _ => files_table ly bounds
    end in
  let? (chunks, infos) := assemble_chunks target_chunk_size compressed bounds in
  Ok ({| frames := infos; files := files table; gitlinks := ly_gitlinks ly |}, chunks).

(** ** What the bundler promises *)
Section bundle_spec.
Context (cas_hash : bytes -> string) (local_range : string -> N -> N -> Result bytes)
  (storage : option (string -> N -> N -> Result bytes)).
Context (base : option BaseIndex) (target : N).

(** A frame's compressed bytes: the ones this build made, or bytes with the
    frame's hash and length. *)
Definition frame_data (f : BuiltFrame) (d : bytes) : Prop :=
  match bf_bytes f with
  | Some b => d = b
  | None => match bf_base_frame f, base with
            | Some k, Some bi => exists frame, nget (bi_frames bi) k = Some frame /\
                nlen d = af_compressed_len frame /\ cas_hash d = af_chunk_hash frame
            | _, _ => False
            end
  end.

Definition group_bytes (group : list BuiltFrame) : N := nsum (map bf_compressed_len group).
#[local] Arguments group_bytes : simpl never.

(** A closed bundle: at most the largest size unless it is a single frame, and
    either the base's bundle of the same frames, or one this build installed that
    holds the frames' bytes one after another. *)
Definition bundle_ok (written : list (string * bytes)) (group : list BuiltFrame) (hash : string) : Prop :=
  group <> [] /\ ((group_bytes group <= bundle_max target)%N \/ length group = 1) /\
  ((exists bi, base = Some bi /\ bi_bundles bi !! group_key group = Some hash) \/
   (exists content datas, (hash, content) ∈ written /\ hash = cas_hash content /\ content = mjoin datas /\
      Forall2 frame_data group datas /\ nlen content = group_bytes group)).

(** Where a bundle's frames are. *)
Fixpoint placed (index offset : N) (group : list BuiltFrame) : list FrameInfo :=
  match group with
  | [] => []
  | f :: group =>
      {| chunk_index := index; chunk_offset := offset; compressed_len := bf_compressed_len f;
         fi_raw_len := bf_raw_len f |} :: placed index (offset + bf_compressed_len f) group
  end.
Definition placed_all (groups : list (list BuiltFrame)) : list FrameInfo :=
  mjoin (map (fun x => placed x.1 0 x.2) (enumerate groups)).

(** What the frame table's fields hold. *)
Definition fits_u32 (f : BuiltFrame) : Prop := (bf_compressed_len f <= u32_max /\ bf_raw_len f <= u32_max)%N.
Lemma place_group_ok index offset group infos :
  place_group index offset group = Ok infos ->
  infos = placed index offset group /\ Forall fits_u32 group.
Proof.
  revert offset infos. induction group as [|f group IH]; intros offset infos H; cbn in H; [injection H as <-; done|].
  inv_ok H. apply context_ok, try_from_Some in E as [-> Hc], E0 as [-> Hr].
  destruct (IH _ _ E1) as [-> Hg]. split; [done|by constructor].
Qed.

Lemma frame_bytes_ok f d : frame_bytes cas_hash local_range storage base f = Ok d -> frame_data f d.
Proof.
  unfold frame_bytes, frame_data. destruct (bf_bytes f) as [b|]; [by intros [= <-]|].
  destruct (bf_base_frame f) as [k|]; [|done]. destruct base as [bi|]; [|done].
  unfold read_frame. intros H. apply rbind_ok in H as (frame & Hf & H). apply context_ok in Hf.
  apply rbind_ok in H as ([bundle offset] & _ & H). exists frame. split; [done|].
  destruct (ok (local_range _ _ _)) as [data|]; cbn in H.
  - destruct (_ && _) eqn:E in H; cbn in H.
    + injection H as <-. breflect. done.
    + destruct storage as [get|]; [|done]. inv_ok H. breflect. done.
  - destruct storage as [get|]; [|done]. inv_ok H. breflect. done.
Qed.

(** The state between pushes: the closed groups, then the open one. *)
Record bd_inv (fs : list BuiltFrame) (bd : Bundler) (groups : list (list BuiltFrame)) : Prop := {
  bi_fs : fs = mjoin groups ++ bd_group bd;
  bi_len : bd_group_len bd = group_bytes (bd_group bd);
  bi_closed : Forall2 (bundle_ok (bd_written bd)) groups (bd_bundles bd);
  bi_infos : bd_infos bd = placed_all groups;
  bi_archive : bd_frames bd = map archive_frame (mjoin groups);
  bi_fit : Forall fits_u32 (mjoin groups);
  bi_new : Forall (fun h => exists c, (h, c) ∈ bd_written bd) (bd_new_bundles bd);
}.

Lemma placed_all_snoc groups g :
  placed_all (groups ++ [g]) = placed_all groups ++ placed (nlen groups) 0 g.
Proof.
  unfold placed_all, enumerate.
  assert (H : forall i (l : list (list BuiltFrame)), enumerate_from i (l ++ [g]) = enumerate_from i l ++ [((i + nlen l)%N, g)]).
  { intros i l. revert i. induction l as [|x l IH]; intros i; cbn; [by rewrite N.add_0_r|].
    rewrite IH, nlen_cons. do 4 f_equal. lia. }
  rewrite H, map_app, join_app. cbn. by rewrite app_nil_r.
Qed.

Lemma bundle_ok_more written more group hash : bundle_ok written group hash -> bundle_ok (written ++ more) group hash.
Proof.
  intros (H1 & H2 & H3). split_and!; [done|done|]. destruct H3 as [H3|(content & datas & Hin & H3)]; [by left|right].
  exists content, datas. split; [set_solver|done].
Qed.

Definition open_ok (bd : Bundler) : Prop := bd_group bd <> [] -> (bd_group_len bd < bundle_max target)%N.

(** Closing a group that is small enough, or a single frame. *)
Lemma close_ok fs bd groups bd' :
  bd_inv fs bd groups -> ((group_bytes (bd_group bd) <= bundle_max target)%N \/ length (bd_group bd) = 1) ->
  close cas_hash local_range storage base bd = Ok bd' ->
  exists groups', bd_inv fs bd' groups' /\ bd_group bd' = [].
Proof.
  intros [Hfs Hlen Hcl Hinf Har Hfit Hnew] Hsize H. unfold close in H.
  destruct (bd_group bd) as [|f0 g0] eqn:Eg; [injection H as <-; exists groups; split; [by constructor; rewrite ?Eg|done]|].
  rewrite <- Eg in *. apply rbind_ok in H as (index & Hi & H). apply context_ok, try_from_Some in Hi as [-> _].
  apply rbind_ok in H as ([hash written] & Hh & H). apply rbind_ok in H as (infos & Hp & H).
  apply place_group_ok in Hp as [-> Hfit']. injection H as <-. exists (groups ++ [bd_group bd]). split; [|done].
  assert (Hok : bundle_ok (bd_written bd ++ option_list written) (bd_group bd) hash /\
    Forall (fun h => exists c, (h, c) ∈ bd_written bd ++ option_list written) (option_list (fst <$> written))).
  { destruct (base ≫= _) as [h|] eqn:Eb; cbn in Hh.
    - injection Hh as <- <-. cbn. split; [|constructor]. split_and!; [by rewrite Eg|done|left].
      apply bind_Some in Eb as (bi & -> & Hb). eauto.
    - apply rbind_ok in Hh as ([h content] & Hw & Hh). injection Hh as <- <-. cbn.
      unfold write_group in Hw. apply rbind_ok in Hw as (datas & Hd & Hw).
      destruct (N.eqb_spec (nlen (mjoin datas)) (bd_group_len bd)) as [Hn|]; [|done]. injection Hw as <- <-.
      split; [|constructor; [exists (mjoin datas); set_solver|done]]. split_and!; [by rewrite Eg|done|right].
      exists (mjoin datas), datas. split_and!; [set_solver|done|done| |congruence].
      apply collect_ok in Hd. eapply Forall2_impl; [exact Hd|]. intros. by apply frame_bytes_ok. }
  destruct Hok as [Hok Hnew']. constructor; cbn.
  - rewrite Hfs, join_app, app_nil_r. cbn. by rewrite app_nil_r.
  - done.
  - apply Forall2_app; [|constructor; [exact Hok|constructor]].
    eapply Forall2_impl; [exact Hcl|]. intros. by apply bundle_ok_more.
  - rewrite Hinf, placed_all_snoc. do 2 f_equal. unfold nlen. by rewrite (Forall2_length _ _ _ Hcl).
  - rewrite Har, join_app, map_app. cbn. by rewrite app_nil_r.
  - rewrite join_app. cbn. rewrite app_nil_r. by apply Forall_app.
  - apply Forall_app. split; [|done]. eapply Forall_impl; [exact Hnew|]. intros h (c & Hc). exists c. set_solver.
Qed.

Lemma group_bytes_snoc g f : group_bytes (g ++ [f]) = (group_bytes g + bf_compressed_len f)%N.
Proof. unfold group_bytes. rewrite map_app, nsum_app. cbn. lia. Qed.

Lemma push_ok fs bd groups f bd' :
  bd_inv fs bd groups -> open_ok bd -> push cas_hash local_range storage base target bd f = Ok bd' ->
  exists groups', bd_inv (fs ++ [f]) bd' groups' /\ open_ok bd'.
Proof.
  intros Hinv Hopen H. unfold push in H. apply rbind_ok in H as (bd1 & H1 & H).
  assert (Hbd1 : exists groups1, bd_inv fs bd1 groups1 /\
    (bd_group bd1 = [] \/ (bd_group_len bd1 + bf_compressed_len f <= bundle_max target)%N)).
  { destruct (negb _) eqn:Ene; cbn in H1.
    - destruct (N.ltb_spec (bundle_max target) (bd_group_len bd + bf_compressed_len f)).
      + apply (close_ok fs bd groups) in H1 as (g' & Hg' & He); [eauto|done|].
        left. rewrite <- (bi_len _ _ _ Hinv). apply N.lt_le_incl, Hopen. by destruct (bd_group bd).
      + injection H1 as <-. eauto.
    - injection H1 as <-. exists groups. split; [done|]. left. by destruct (bd_group bd). }
  destruct Hbd1 as (groups1 & [Hfs Hlen Hcl Hinf Har Hfit Hnew] & Hroom).
  assert (Hinv2 : bd_inv (fs ++ [f]) (push_group f bd1) groups1).
  { constructor; cbn; try done; [by rewrite Hfs, app_assoc|by rewrite group_bytes_snoc, Hlen]. }
  destruct (_ || _) eqn:Ecut in H.
  - destruct (close_ok _ _ _ bd' Hinv2) as (g' & Hg' & He); [|done|].
    + cbn. rewrite group_bytes_snoc, <- Hlen. destruct Hroom as [->|Hr]; [by right|by left].
    + exists g'. split; [done|]. intros Hne. by rewrite He in Hne.
  - injection H as <-. exists groups1. apply orb_false_iff in Ecut as [Hlt%N.leb_gt _]. split; [done|]. by intros _.
Qed.

Lemma push_all_ok fs bd groups more bd' :
  bd_inv fs bd groups -> open_ok bd ->
  try_fold (push cas_hash local_range storage base target) bd more = Ok bd' ->
  exists groups', bd_inv (fs ++ more) bd' groups' /\ open_ok bd'.
Proof.
  revert fs bd groups. induction more as [|f more IH]; intros fs bd groups Hinv Hopen H; cbn in H.
  { injection H as <-. exists groups. by rewrite app_nil_r. }
  apply rbind_ok in H as (bd1 & H1 & H). destruct (push_ok _ _ _ _ _ Hinv Hopen H1) as (g1 & Hinv1 & Hopen1).
  rewrite cons_middle, app_assoc. eauto.
Qed.

(** *** The table the placed frames make *)
Lemma placed_tile before index offset group :
  frames_tile before -> offset = chunk_bytes index before ->
  (offset + group_bytes group <= u64_max)%N ->
  match last before with
  | None => index = 0%N
  | Some g => index = chunk_index g \/ index = (chunk_index g + 1)%N
  end ->
  frames_tile (before ++ placed index offset group).
Proof.
  revert before offset. induction group as [|f group IH]; intros before offset Ht Hoff Hmax Hidx; cbn.
  { by rewrite app_nil_r. }
  assert (Hg : group_bytes (f :: group) = (bf_compressed_len f + group_bytes group)%N) by done.
  rewrite cons_middle, app_assoc. apply IH.
  - apply frames_tile_snoc. cbn. split_and!; [done|done|lia|done].
  - rewrite chunk_bytes_snoc. cbn. rewrite N.eqb_refl. lia.
  - lia.
  - rewrite last_snoc. cbn. by left.
Qed.

Lemma placed_snoc index offset group f :
  placed index offset (group ++ [f]) = placed index offset group ++
    [{| chunk_index := index; chunk_offset := offset + group_bytes group; compressed_len := bf_compressed_len f;
        fi_raw_len := bf_raw_len f |}].
Proof.
  revert offset. induction group as [|g group IH]; intros offset; cbn; [by rewrite N.add_0_r|].
  rewrite IH. unfold group_bytes. cbn. by rewrite N.add_assoc.
Qed.

Lemma placed_index index offset group : Forall (fun f => chunk_index f = index) (placed index offset group).
Proof. revert offset. induction group as [|f group IH]; intros offset; cbn; constructor; auto. Qed.

Lemma placed_all_index groups : Forall (fun f => (chunk_index f < nlen groups)%N) (placed_all groups).
Proof.
  induction groups as [|g groups IH] using rev_ind; [constructor|]. rewrite placed_all_snoc, nlen_app.
  apply Forall_app. split; [eapply Forall_impl; [exact IH|]; intros x; cbn; lia|].
  eapply Forall_impl; [apply placed_index|]. intros x ->. rewrite nlen_cons, nlen_nil. lia.
Qed.

Lemma placed_all_tile groups :
  Forall (fun g => g <> [] /\ (group_bytes g <= u64_max)%N) groups ->
  frames_tile (placed_all groups) /\
  match last (placed_all groups) with
  | None => groups = []
  | Some f => nlen groups = (chunk_index f + 1)%N
  end.
Proof.
  induction groups as [|g groups IH] using rev_ind.
  { intros _. split; [|done]. intros l1 f l2 H. by destruct l1. }
  intros [Hg [[Hne Hmax] _]%Forall_cons]%Forall_app. destruct (IH Hg) as [Ht Hlast]. rewrite placed_all_snoc. split.
  - apply placed_tile; [done| |lia|].
    + symmetry. apply chunk_bytes_later, placed_all_index.
    + destruct (last (placed_all groups)); [right; lia|]. by rewrite Hlast.
  - destruct g as [|f0 g _] using rev_ind; [done|].
    rewrite placed_snoc, app_assoc, last_snoc, nlen_app, nlen_cons, nlen_nil. cbn. lia.
Qed.

Lemma bundle_ok_size written group hash :
  Forall fits_u32 group -> bundle_ok written group hash ->
  group <> [] /\ (group_bytes group <= u64_max)%N.
Proof.
  intros Hf (Hne & Hs & _). split; [done|]. destruct Hs as [Hs|Hs].
  - unfold bundle_max, saturating_mul in Hs. lia.
  - destruct group as [|f [|]]; try done. apply Forall_cons in Hf as [[Hf _] _]. unfold group_bytes, nsum. cbn.
    unfold u32_max, u64_max in *. lia.
Qed.

Lemma bundle_all_ok fs bd :
  bundle_all cas_hash local_range storage base target fs = Ok bd ->
  exists groups, bd_inv fs bd groups /\ bd_group bd = [].
Proof.
  unfold bundle_all. intros H. apply rbind_ok in H as (bd1 & H1 & H).
  destruct (push_all_ok [] Bundler_new [] fs bd1) as (g1 & Hinv & Hopen); [by constructor; cbn|by intros []|done|].
  cbn in Hinv. eapply close_ok; [exact Hinv| |exact H]. rewrite <- (bi_len _ _ _ Hinv).
  destruct (bd_group bd1) eqn:E; [left|left; apply N.lt_le_incl, Hopen; by rewrite E].
  rewrite (bi_len _ _ _ Hinv), E. apply N.le_0_l.
Qed.

(** The bundler loses and reorders nothing: the bundles are the frames pushed,
    in order, cut into non-empty groups, each at most twice the target or a single
    frame; each bundle is the base's bundle of the same frames or one installed in
    the content store with exactly the frames' bytes one after another; every frame
    of the table points at its place in its bundle, and the frames tile the bundles
    the way [validate_geometry] asks. *)
Lemma bundler_spec fs bd :
  bundle_all cas_hash local_range storage base target fs = Ok bd ->
  exists groups, fs = mjoin groups /\
    Forall2 (bundle_ok (bd_written bd)) groups (bd_bundles bd) /\
    bd_infos bd = placed_all groups /\ frames_tile (bd_infos bd) /\
    bd_frames bd = map archive_frame fs /\
    Forall (fun h => exists content, (h, content) ∈ bd_written bd) (bd_new_bundles bd).
Proof.
  intros H. destruct (bundle_all_ok _ _ H) as (groups & [Hfs Hlen Hcl Hinf Har Hfit Hnew] & He).
  rewrite He, app_nil_r in Hfs. subst fs. exists groups. split_and!; try done. rewrite Hinf. apply placed_all_tile.
  clear -Hcl Hfit. induction Hcl as [|g h groups hs Hg _ IH]; [constructor|].
  cbn in Hfit. apply Forall_app in Hfit as [Hf Hfit]. constructor; [by eapply bundle_ok_size|auto].
Qed.
End bundle_spec.

(** Three frames of four, five and two bytes with a target of eight: the first two
    fill a bundle, the third is the last one. *)
Lemma bundler_spec_witness :
  let frame h n := {| bf_raw_hash := "r"; bf_raw_len := 10; bf_chunk_hash := h; bf_compressed_len := n;
                      bf_bytes := Some (repeat Byte.x61 (N.to_nat n)); bf_base_frame := None |} in
  exists bd groups,
    bundle_all String.string_of_list_byte (fun _ _ _ => Err "absent") None None 8
      [frame "f1" 4%N; frame "f0" 5%N; frame "f3" 2%N] = Ok bd /\
    [frame "f1" 4%N; frame "f0" 5%N; frame "f3" 2%N] = mjoin groups /\
    length (bd_bundles bd) = 2 /\ length groups = 2.
Proof.
  intros frame. eexists. destruct (bundler_spec String.string_of_list_byte (fun _ _ _ => Err "absent") None None 8
    [frame "f1" 4%N; frame "f0" 5%N; frame "f3" 2%N] _ eq_refl) as (groups & H1 & H2 & _).
  exists groups. split; [reflexivity|]. split; [exact H1|]. split; [reflexivity|]. by apply Forall2_length in H2.
Defined.

(** ** What [assemble_chunks] promises *)
Section chunks.
Context (target : N) (Htarget : (0 < target)%N).

(** A frame, as the bundler has it. *)
Definition as_built (x : bytes * (N * N)) : BuiltFrame :=
  {| bf_raw_hash := ""; bf_raw_len := x.2.2 - x.2.1; bf_chunk_hash := ""; bf_compressed_len := nlen x.1;
     bf_bytes := Some x.1; bf_base_frame := None |}.
Definition content (group : list (bytes * (N * N))) : bytes := mjoin (map fst group).
Definition frame_widths (x : bytes * (N * N)) : Prop := (nlen x.1 <= u32_max)%N /\ (x.2.2 - x.2.1 <= u32_max)%N.

(** A closed chunk holds at most the target, or one frame that has bytes. *)
Definition chunk_ok (group : list (bytes * (N * N))) : Prop :=
  group <> [] /\ ((nlen (content group) <= target)%N \/ exists init x, group = init ++ [x] /\ content init = []).

Record ck_inv (done : list (bytes * (N * N))) (st : list bytes * bytes * N * list FrameInfo)
    (groups : list (list (bytes * (N * N)))) (open : list (bytes * (N * N))) : Prop := {
  ci_done : done = mjoin groups ++ open;
  ci_chunks : st.1.1.1 = map content groups;
  ci_current : st.1.1.2 = content open;
  ci_count : st.1.2 = nlen open;
  ci_infos : st.2 = placed_all (map (map as_built) groups) ++ placed (nlen groups) 0 (map as_built open);
  ci_ok : Forall chunk_ok groups;
}.

Lemma content_snoc group x : content (group ++ [x]) = content group ++ x.1.
Proof. unfold content. rewrite map_app, join_app. cbn. by rewrite app_nil_r. Qed.
Lemma content_app a b : content (a ++ b) = content a ++ content b.
Proof. unfold content. by rewrite map_app, join_app. Qed.
Lemma content_cons1 x : content [x] = x.1.
Proof. unfold content. cbn. by rewrite app_nil_r. Qed.
Lemma content_bytes group : group_bytes (map as_built group) = nlen (content group).
Proof.
  unfold group_bytes, content. induction group as [|x group IH]; cbn; [done|]. rewrite nlen_app.
  unfold nsum in *. by rewrite IH.
Qed.
Lemma chunk_ok_small open : open <> [] -> (nlen (content open) < target)%N -> chunk_ok open.
Proof. intros. split; [done|left; lia]. Qed.

(** Closing the open chunk. *)
Lemma ck_close done st groups open :
  ck_inv done st groups open -> chunk_ok open ->
  ck_inv done (st.1.1.1 ++ [st.1.1.2], [], 0%N, st.2) (groups ++ [open]) [].
Proof.
  intros [Hd Hc Hcur Hn Hi Hok] Hopen. constructor; cbn.
  - by rewrite Hd, join_app, app_nil_r; cbn; rewrite app_nil_r.
  - by rewrite Hc, Hcur, map_app.
  - done.
  - done.
  - rewrite Hi, map_app. cbn. by rewrite placed_all_snoc, nlen_map, app_nil_r.
  - apply Forall_app. auto.
Qed.

(** A frame added to the open chunk. *)
Lemma ck_push done chunks current count infos groups open c lo hi :
  ck_inv done (chunks, current, count, infos) groups open ->
  ck_inv (done ++ [(c, (lo, hi))])
    (chunks, current ++ c, (count + 1)%N,
      infos ++ [{| chunk_index := nlen chunks; chunk_offset := nlen current; compressed_len := nlen c;
                   fi_raw_len := hi - lo |}]) groups (open ++ [(c, (lo, hi))]).
Proof.
  intros [Hd Hc Hcur Hn Hi Hok]. cbn in *. constructor; cbn; try done.
  - by rewrite Hd, app_assoc.
  - by rewrite content_snoc, Hcur.
  - rewrite nlen_app, Hn. done.
  - rewrite Hi, map_app, <- app_assoc. cbn. rewrite placed_snoc, content_bytes, N.add_0_l, Hc, nlen_map, Hcur. done.
Qed.

Lemma chunk_step_ok done st groups open x :
  ck_inv done st groups open -> (nlen (content open) < target)%N -> frame_widths x ->
  (nlen groups < u32_max)%N -> (nlen (content open) + nlen x.1 <= u64_max)%N ->
  exists st' groups' open', chunk_step target st x = Ok st' /\ ck_inv (done ++ [x]) st' groups' open' /\
    (nlen (content open') < target)%N.
Proof.
  intros Hinv Hsm [Hc Hr] Hg Hmem. destruct st as [[[chunks current] count] infos], x as [c [lo hi]]. cbn [fst snd] in *.
  unfold chunk_step. set (exceeds := negb _ && _).
  set (st1 := if exceeds then (chunks ++ [current], [], 0%N) else (chunks, current, count)).
  assert (Hopen : exists groups1 open1, ck_inv done (st1, infos) groups1 open1 /\
    (nlen groups1 <= u32_max)%N /\ (content open1 = [] \/ (nlen (content open1) + nlen c <= target)%N)).
  { pose proof (ci_current _ _ _ _ Hinv) as Hcur. cbn in Hcur. subst st1. destruct exceeds eqn:E.
    - exists (groups ++ [open]), []. split_and!; [|rewrite nlen_app, nlen_cons, nlen_nil; lia|by left].
      apply (ck_close _ _ _ _ Hinv), chunk_ok_small; [|done].
      subst exceeds. apply andb_true_iff in E as [E _]. intros ->. by rewrite Hcur in E.
    - exists groups, open. split_and!; [done|lia|]. subst exceeds current.
      destruct (content open) as [|b bs]; [by left|right]. cbn [negb andb] in E.
      apply N.ltb_ge in E. unfold saturating_add in E. lia. }
  destruct Hopen as (groups1 & open1 & Hinv1 & Hg1 & Hroom). clear Hinv Hmem.
  destruct st1 as [[chunks1 current1] count1]. pose proof (ci_chunks _ _ _ _ Hinv1) as Hck. cbn in Hck.
  rewrite (proj2 (try_from_Some u32_max _ (nlen chunks1))) by (split; [done|rewrite Hck, nlen_map; lia]).
  rewrite (proj2 (try_from_Some u32_max _ (nlen c))), (proj2 (try_from_Some u32_max _ (hi - lo)%N)) by done.
  cbn [context rbind].
  pose proof (ck_push _ _ _ _ _ _ _ c lo hi Hinv1) as Hinv2. pose proof (ci_current _ _ _ _ Hinv2) as Hcur2. cbn in Hcur2.
  destruct (N.leb_spec target (nlen (current1 ++ c))) as [Hfull|Hfull].
  - eexists _, _, []. split_and!; [done|apply (ck_close _ _ _ _ Hinv2)|exact Htarget].
    split; [by destruct open1|]. rewrite content_snoc, nlen_app. cbn [fst].
    destruct Hroom as [He|He]; [right; by eexists _, _|by left].
  - eexists _, _, _. split_and!; [done|exact Hinv2|]. by rewrite <- Hcur2.
Qed.

Lemma groups_length groups : Forall chunk_ok groups -> (nlen groups <= nlen (mjoin groups))%N.
Proof.
  induction 1 as [|g groups [Hg _] _ IH]; [done|]. rewrite mjoin_cons, nlen_app, nlen_cons.
  destruct g; [done|]. rewrite nlen_cons. lia.
Qed.

Lemma chunk_fold_ok done more st groups open :
  ck_inv done st groups open -> (nlen (content open) < target)%N -> Forall frame_widths more ->
  (nlen (done ++ more) <= u32_max)%N -> (nlen (content (done ++ more)) <= u64_max)%N ->
  exists st' groups' open', try_fold (chunk_step target) st more = Ok st' /\ ck_inv (done ++ more) st' groups' open' /\
    (nlen (content open') < target)%N.
Proof.
  revert done st groups open. induction more as [|x more IH]; intros done st groups open Hinv Hsm Hw Hn Hb.
  { exists st, groups, open. by rewrite app_nil_r. }
  apply Forall_cons in Hw as [Hx Hw]. pose proof (groups_length _ (ci_ok _ _ _ _ Hinv)) as Hgl.
  pose proof (ci_done _ _ _ _ Hinv) as Hd. rewrite !nlen_app, nlen_cons in Hn. rewrite content_app, nlen_app in Hb.
  change (content (x :: more)) with (x.1 ++ content more) in Hb. rewrite nlen_app in Hb.
  assert (Hlen : (nlen groups <= nlen done)%N) by (rewrite Hd, nlen_app; lia).
  assert (Hcontent : (nlen (content open) <= nlen (content done))%N) by (rewrite Hd, content_app, nlen_app; lia).
  destruct (chunk_step_ok done st groups open x Hinv Hsm Hx) as (st1 & g1 & o1 & H1 & Hinv1 & Hsm1); [lia..|].
  cbn. rewrite H1. cbn [rbind]. rewrite cons_middle, app_assoc. apply (IH _ _ _ _ Hinv1 Hsm1 Hw).
  - rewrite !nlen_app, nlen_cons, nlen_nil. lia.
  - rewrite !content_app, !nlen_app, content_cons1. lia.
Qed.

End chunks.

(** Where a placed frame's bytes are. *)
Definition located (chunks : list bytes) (info : FrameInfo) (x : bytes * (N * N)) : Prop :=
  compressed_len info = nlen x.1 /\ fi_raw_len info = (x.2.2 - x.2.1)%N /\
  exists chunk, nget chunks (chunk_index info) = Some chunk /\
    get_range chunk (chunk_offset info) (chunk_offset info + compressed_len info) = Some x.1.

Lemma placed_located index before open more :
  Forall2 (fun info x => compressed_len info = nlen x.1 /\ fi_raw_len info = (x.2.2 - x.2.1)%N /\
      chunk_index info = index /\
      get_range (before ++ content open ++ more) (chunk_offset info) (chunk_offset info + compressed_len info) = Some x.1)
    (placed index (nlen before) (map as_built open)) open.
Proof.
  revert before. induction open as [|x open IH]; intros before; cbn; [constructor|]. constructor; cbn.
  - split_and!; [done|done|done|]. apply get_range_Some. change (content (x :: open)) with (x.1 ++ content open).
    rewrite !nlen_app. split_and!; [lia|lia|]. rewrite slice_app_r by lia. rewrite N.sub_diag, <- app_assoc.
    rewrite slice_app_l by lia. replace (_ - _)%N with (nlen x.1) by lia. by rewrite slice_all.
  - rewrite <- nlen_app. specialize (IH (before ++ x.1)). change (content (x :: open)) with (x.1 ++ content open).
    by rewrite <- !app_assoc in *.
Qed.

Lemma placed_all_located groups :
  Forall2 (located (map content groups)) (placed_all (map (map as_built) groups)) (mjoin groups).
Proof.
  induction groups as [|g groups IH] using rev_ind; [constructor|].
  rewrite !map_app, join_app. cbn [map]. rewrite placed_all_snoc. apply Forall2_app.
  - eapply Forall2_impl; [exact IH|]. intros info x (H1 & H2 & chunk & Hc & H3). split_and!; [done|done|].
    exists chunk. split; [|done]. unfold nget in *. by apply lookup_app_l_Some.
  - rewrite nlen_map, mjoin_cons. cbn [mjoin list_join]. rewrite app_nil_r. pose proof (placed_located (nlen groups) [] g []) as H.
    eapply Forall2_impl; [exact H|]. cbn. intros info x (H1 & H2 & H3 & H4). split_and!; [done|done|].
    exists (content g). rewrite app_nil_r in H4. split; [|done]. unfold nget. rewrite H3.
    rewrite lookup_app_r by (rewrite length_map; unfold nlen; lia). rewrite length_map. unfold nlen.
    by rewrite Nat2N.id, Nat.sub_diag.
Qed.

Lemma assemble_chunks_ok target_chunk_size compressed bounds :
  let target := N.max target_chunk_size 1 in
  Forall frame_widths (zip compressed bounds) -> (nlen (zip compressed bounds) <= u32_max)%N ->
  (nlen (content (zip compressed bounds)) <= u64_max)%N ->
  exists groups, assemble_chunks target_chunk_size compressed bounds =
      Ok (map content groups, placed_all (map (map as_built) groups)) /\
    mjoin groups = zip compressed bounds /\ Forall (chunk_ok target) groups.
Proof.
  intros target Hw Hn Hb. assert (Ht : (0 < target)%N) by lia.
  destruct (chunk_fold_ok target Ht [] (zip compressed bounds) ([], [], 0%N, []) [] [])
    as ([[[chunks current] count] infos] & groups & open & Hf & Hinv & Hsm); try done.
  unfold assemble_chunks. fold target. rewrite Hf. cbn [rbind].
  pose proof Hinv as [Hd Hc Hcur Hcount Hi Hok]. cbn in *. destruct open as [|x open].
  - exists groups. rewrite Hcount. cbn. rewrite Hc, Hi. cbn. by rewrite !app_nil_r in *.
  - exists (groups ++ [x :: open]). split_and!.
    + rewrite Hcount. destruct (N.ltb_spec 0 (nlen (x :: open))) as [|Hlt]; [|rewrite nlen_cons in Hlt; lia].
      rewrite Hc, Hcur, Hi, !map_app. cbn. by rewrite placed_all_snoc, nlen_map.
    + rewrite join_app. cbn. by rewrite app_nil_r.
    + apply Forall_app. split; [done|]. constructor; [|constructor]. by apply chunk_ok_small.
Qed.
