(* ===== verification/ArchiveBuild.v ===== *)
(** The builds of a Files archive ([rust/src/archive.rs]): streaming a worktree into
    frames, reading and cutting the gaps of an incremental plan, the archive of a
    commit ([build_into_cas]) and a tail on an earlier one ([build_tail_into_cas]).

    The object database, the content-defined cutter, zstd and the content hash are
    parameters. A build's threads hand windows, batches and frames on in order, so
    what they pass is a list. A build is the output it returns with the bundles it
    wrote; what a failed build had written is left open. *)

From S2P Require Import Prelude Validation Outputs Manifest Archive ArchivePlan ArchiveBundle.

(** ** Trees *)

(** An entry of the recursive listing: its path, mode value and object id. *)
Record TreeRecord := { tr_path : string; tr_mode : N; tr_oid : string }.
(** gix's [EntryMode]: the kind is in the bits of [S_IFMT]. *)
Definition is_commit (mode : N) : bool := (N.land mode 61440 =? 57344)%N.
Definition is_tree (mode : N) : bool := (N.land mode 61440 =? 16384)%N.
(** [collect_blobs_raw_gix]: the blobs, and the paths of submodules. *)
Definition collect_blobs (records : list TreeRecord) : list Blob * list string :=
  foldl (fun '(blobs, gitlinks) r =>
    if is_commit (tr_mode r) then (blobs, gitlinks ++ [tr_path r])
    else if is_tree (tr_mode r) then (blobs, gitlinks)
    else (blobs ++ [(tr_path r, tr_oid r, tr_mode r)], gitlinks)) ([], []) records.

(** ** Outputs *)
Record ArchiveReuse := {
  ar_incremental : bool;
  ar_tail : bool;
  ar_bytes_read : N;
  ar_frames_built : N;
  ar_frames_reused : N;
  ar_bundles_built : N;
  ar_bundles_reused : N;
}.
Record ArchiveBuildOutput := {
  download_bundle_hashes : list string;
  new_bundle_hashes : list string;
  ao_metadata : MetadataChunk;
  archive_frames : list ArchiveFrame;
  ao_reuse : ArchiveReuse;
}.
(** [Bundler::finish]'s counts. *)
Definition Bundler_reuse (incremental tail : bool) (bytes_read : N) (bd : Bundler) : ArchiveReuse :=
  {| ar_incremental := incremental; ar_tail := tail; ar_bytes_read := bytes_read;
     ar_frames_built := frames_built bd; ar_frames_reused := frames_reused bd;
     ar_bundles_built := bundles_built bd; ar_bundles_reused := bundles_reused bd |}.

Section archive_build.
Context (cas_hash : bytes -> string) (zstd_encode : bytes -> Result bytes)
  (local_range : string -> N -> N -> Result bytes).
(** [repo.find_blob] and [repo.find_header]. *)
Context (find_blob : string -> Result bytes) (blob_size : string -> Result N).
(** fastcdc's cutter with its smallest chunk: each chunk's offset and length. *)
Context (cdc : bytes -> list (N * N)) (cdc_min : N).

(** ** Reading blobs *)
Record Piece := { pc_oid : string; pc_size : N; pc_lo : N; pc_hi : N }.
Definition read_piece (p : Piece) : Result bytes :=
  let? data := find_blob (pc_oid p) in
  ensure! (nlen data =? pc_size p)%N else "blob has another size than expected";
  Ok (slice data (pc_lo p) (pc_hi p)).
Definition read_pieces (pieces : list Piece) : Result (list bytes) := collect read_piece pieces.

(** The windows of [stream_frames], one after another. *)
Definition whole_pieces (layout : Layout) : list Piece :=
  map (fun '(b, size) => {| pc_oid := b_oid b; pc_size := size; pc_lo := 0; pc_hi := size |}) (zip (ly_blobs layout) (ly_sizes layout)).
Definition read_stream (layout : Layout) : Result bytes := let? parts := read_pieces (whole_pieces layout) in Ok (mjoin parts).

Definition cut_bounds (start : N) (data : bytes) : list (N * N) :=
  map (fun '(offset, len) => (start + offset, start + offset + len)%N) (cdc data).
(** [stream_frames]: the frames it hands on, and their bounds. *)
Definition stream_frames (layout : Layout) (base : option BaseIndex) : Result (list BuiltFrame * list (N * N)) :=
  let? stream := context (ok (read_stream layout)) "read worktree blobs" in
  let bounds := cut_bounds 0 stream in
  let? built := collect (fun '(lo, hi) => build_frame cas_hash zstd_encode (slice stream lo hi) base) bounds in
  let streamed := match last bounds with Some (_, hi) => hi | None => 0%N end in
  ensure! (streamed =? ly_total layout)%N else "archive stream has another length than expected";
  match bounds, ly_blobs layout with
  | [], _ :: _ => let? frame := build_frame cas_hash zstd_encode [] base in Ok (built ++ [frame], [(0, 0)]%N)
  | _, _ => Ok (built, bounds)
  end.

(** ** Gaps *)

(** The pieces of the blobs that overlap [(g0, g1)], from the blobs at hand on. *)
Fixpoint overlapping_pieces (g0 g1 : N) (l : list (Blob * (N * N))) : list Piece :=
  match l with
  | [] => []
  | (b, (start, size)) :: l =>
      if (start <? g1)%N then
        (if (0 <? size)%N && (g0 <? start + size)%N
         then [{| pc_oid := b_oid b; pc_size := size; pc_lo := N.max g0 start - start; pc_hi := N.min g1 (start + size) - start |}]
         else []) ++ overlapping_pieces g0 g1 l
      else []
  end.
(** [partition_point] on starts that do not decrease. *)
Definition partition_point {A} (p : A -> bool) (l : list A) : nat :=
  (fix go l := match l with [] => 0 | x :: l => if p x then S (go l) else 0 end) l.
Definition gap_pieces (layout : Layout) (gap : N * N) : list Piece :=
  let '(g0, g1) := gap in
  let idx := Nat.pred (partition_point (fun start => start <=? g0)%N (ly_starts layout)) in
  overlapping_pieces g0 g1 (drop idx (placed_blobs layout)).
(** One gap, read, cut and built. *)
Definition cut_gap (layout : Layout) (base : BaseIndex) (gap : N * N) : Result (list (N * N * BuiltFrame)) :=
  let '(g0, g1) := gap in
  let? parts := read_pieces (gap_pieces layout gap) in
  let buffer := mjoin parts in
  ensure! (nlen buffer =? g1 - g0)%N else "archive gap read another number of bytes";
  collect (fun '(lo, hi) =>
    let? frame := build_frame cas_hash zstd_encode (slice buffer (lo - g0) (hi - g0)) (Some base) in
    Ok (lo, hi, frame)) (cut_bounds g0 buffer).
Definition cut_gaps (layout : Layout) (base : BaseIndex) (gaps : list (N * N)) : Result (list (N * N * BuiltFrame)) :=
  let? cuts := collect (cut_gap layout base) gaps in Ok (mjoin cuts).

(** [emit_kept(end)]: the kept frames that start before [end_], and the others. *)
Fixpoint emit_kept (end_ : N) (kept : list (N * N * N)) : list (N * N * N) * list (N * N * N) :=
  match kept with
  | (start, stop, k) :: rest =>
      if (start <? end_)%N then let '(now, later) := emit_kept end_ rest in ((start, stop, k) :: now, later) else ([], kept)
  | [] => ([], [])
  end.
Definition kept_frame (base : BaseIndex) (r : N * N * N) : Result (N * N * BuiltFrame) :=
  let '(start, stop, k) := r in
  let? frame := context (nget (bi_frames base) k) "index out of bounds" in
  Ok (start, stop, {| bf_raw_hash := af_raw_hash frame; bf_raw_len := af_raw_len frame; bf_chunk_hash := af_chunk_hash frame;
                      bf_compressed_len := af_compressed_len frame; bf_bytes := None; bf_base_frame := Some k |}).
(** The frames in the order they are pushed. *)
Fixpoint weave (base : BaseIndex) (cuts : list (N * N * BuiltFrame)) (kept : list (N * N * N)) : Result (list (N * N * BuiltFrame)) :=
  match cuts with
  | [] => collect (kept_frame base) (emit_kept usize_max kept).1
  | (start, stop, frame) :: cuts =>
      let '(now, later) := emit_kept start kept in
      let? now := collect (kept_frame base) now in
      let? rest := weave base cuts later in
      Ok (now ++ (start, stop, frame) :: rest)
  end.
(** The batches of gaps, of up to [MAX_GAP_BYTES] but of one gap at least. *)
Fixpoint take_batch (bytes : N) (first : bool) (rest : list (N * N)) : list (N * N) * list (N * N) :=
  match rest with
  | gap :: tail =>
      if first || (bytes + (gap.2 - gap.1) <=? MAX_GAP_BYTES)%N
      then let '(batch, rest) := take_batch (bytes + (gap.2 - gap.1)) false tail in (gap :: batch, rest)
      else ([], rest)
  | [] => ([], [])
  end.
(** [fuel] is the number of gaps: a batch takes one at least. *)
Fixpoint cut_batches (fuel : nat) (layout : Layout) (base : BaseIndex) (rest : list (N * N)) : Result (list (N * N * BuiltFrame)) :=
  match fuel, rest with
  | S fuel, _ :: _ =>
      let '(batch, rest) := take_batch 0 true rest in
      let? cuts := cut_gaps layout base batch in
      let? later := cut_batches fuel layout base rest in
      Ok (cuts ++ later)
  | _, _ => Ok []
  end.
Definition pair_wise {A} (p : A -> A -> bool) (l : list A) : bool := forallb (fun '(a, b) => p a b) (zip l (drop 1 l)).
Definition build_gaps (layout : Layout) (plan : Plan) (base : BaseIndex) : Result (list BuiltFrame * list (N * N) * N) :=
  let? cuts := cut_batches (length (pl_gaps plan)) layout base (pl_gaps plan) in
  let? woven := weave base cuts (pl_reused plan) in
  let bounds := map fst woven in
  ensure! match head bounds, last bounds with
          | Some (lo, _), Some (_, hi) => (lo =? 0)%N && (hi =? ly_total layout)%N
          | _, _ => false
          end && pair_wise (fun a b => (a.2 =? b.1)%N) bounds
    else "incremental archive frames do not tile the worktree";
  Ok (map snd woven, bounds, nsum (map (fun g => g.2 - g.1)%N (pl_gaps plan))).

(** ** build_into_cas

    The listing of the commit's tree is [records]. *)
Definition build_into_cas (storage : option (string -> N -> N -> Result bytes)) (records : list TreeRecord)
    (base : option ArchiveBase) (bundle_size : N) : Result (ArchiveBuildOutput * list (string * bytes)) :=
  let '(blobs, links) := collect_blobs records in
  let base_index := base ← base; ok (BaseIndex_new base) in
  let? plan := match base_index with Some index => plan_incremental blob_size cdc_min blobs index | None => Ok None end in
  let? (layout, built, bounds, read) :=
    match plan, base_index with
    | Some (plan, sizes), Some index =>
        let? layout := Layout_new blobs links sizes in
        let? (built, bounds, read) := build_gaps layout plan index in
        Ok (layout, built, bounds, read)
    | Some _, None => Err "incremental plan without a base"
    | None, _ =>
        let? sizes := collect (fun b => blob_size (b_oid b)) blobs in
        let? layout := Layout_new blobs links sizes in
        let? (built, bounds) := stream_frames layout base_index in
        Ok (layout, built, bounds, ly_total layout)
    end in
  let? bd := bundle_all cas_hash local_range storage base_index bundle_size built in
  let? table :=
    match ly_blobs layout with
    | [] => Ok {| frames := []; files := []; gitlinks := ly_gitlinks layout |}
    | _ => files_table layout bounds
    end in
  Ok ({| download_bundle_hashes := bd_bundles bd; new_bundle_hashes := bd_new_bundles bd;
         ao_metadata := {| frames := bd_infos bd; files := files table; gitlinks := gitlinks table |};
         archive_frames := bd_frames bd;
         ao_reuse := Bundler_reuse (bool_decide (is_Some plan)) false read bd |}, bd_written bd).

(** ** build_tail_into_cas *)

(** The base's fragments by blob: of the files with one blob, the last. *)
Definition base_fragments (base : ArchiveBase) : gmap string (list Fragment) :=
  foldl (fun m f => <[blob_sha1 f := fragments f]> m) ∅ (List.filter (fun f => negb (bool_decide (fragments f = []))) (files (ab_metadata base))).
(** The fragments each blob keeps, and the blobs of the tail, each once. *)
Definition split_blob (by_blob : gmap string (list Fragment)) (acc : list (option (list Fragment)) * gset string * list Blob)
    (blob : Blob) : list (option (list Fragment)) * gset string * list Blob :=
  let '(kept, in_tail, tail) := acc in
  match by_blob !! b_oid blob with
  | None => if decide (b_oid blob ∈ in_tail) then (kept ++ [None], in_tail, tail)
            else (kept ++ [None], {[ b_oid blob ]} ∪ in_tail, tail ++ [blob])
  | Some fragments => (kept ++ [Some fragments], in_tail, tail)
  end.
Definition split_tail (by_blob : gmap string (list Fragment)) (blobs : list Blob) : list (option (list Fragment)) * list Blob :=
  let '(kept, _, tail) := foldl (split_blob by_blob) ([], ∅, []) blobs in (kept, tail).
Definition kept_fragments (kept : list (option (list Fragment))) : list Fragment := mjoin (omap id kept).

(** The bundles that hold a frame the kept fragments use. *)
Definition live_bundle (infos : list FrameInfo) (live : list bool) (fragment : Fragment) : Result (list bool) :=
  let? info := context (nget infos (frame_index fragment)) "base fragment names a missing frame" in
  let? _ := context (nget live (chunk_index info)) "base frame names a missing bundle" in
  Ok (<[N.to_nat (chunk_index info) := true]> live).
(** Old indexes to new, [u32::MAX] for what is dropped. *)
Fixpoint renumber_bundles (l : list (string * bool)) (bundles : list string) : Result (list N * list string) :=
  match l with
  | [] => Ok ([], bundles)
  | (hash, true) :: l =>
      let? at_ := context (try_from u32_max (nlen bundles)) "too many bundles" in
      let? (index, bundles) := renumber_bundles l (bundles ++ [hash]) in Ok (at_ :: index, bundles)
  | (_, false) :: l => let? (index, bundles) := renumber_bundles l bundles in Ok (u32_max :: index, bundles)
  end.
Fixpoint renumber_frames (bundle_index : list N) (l : list (FrameInfo * ArchiveFrame)) (infos : list FrameInfo) (frames : list ArchiveFrame)
    : Result (list N * list FrameInfo * list ArchiveFrame) :=
  match l with
  | [] => Ok ([], infos, frames)
  | (info, frame) :: l =>
      let? index := context (nget bundle_index (chunk_index info)) "index out of bounds" in
      if (index =? u32_max)%N then
        let? (at_, infos, frames) := renumber_frames bundle_index l infos frames in Ok (u32_max :: at_, infos, frames)
      else
        let? here := context (try_from u32_max (nlen infos)) "too many frames" in
        let? (at_, infos, frames) :=
          renumber_frames bundle_index l
            (infos ++ [{| chunk_index := index; chunk_offset := chunk_offset info; compressed_len := compressed_len info; fi_raw_len := fi_raw_len info |}])
            (frames ++ [frame]) in
        Ok (here :: at_, infos, frames)
  end.

(** [u32] addition. *)
Definition add_u32 (a b : N) : N := ((a + b) mod 4294967296)%N.
Definition at_start : Fragment := {| frame_index := 0; frame_offset := 0; fg_raw_len := 0 |}.
Definition shift_fragment (by_ : N) (f : Fragment) : Fragment :=
  {| frame_index := add_u32 (frame_index f) by_; frame_offset := frame_offset f; fg_raw_len := fg_raw_len f |}.
Definition shift_info (by_ : N) (f : FrameInfo) : FrameInfo :=
  {| chunk_index := add_u32 (chunk_index f) by_; chunk_offset := chunk_offset f; compressed_len := compressed_len f; fi_raw_len := fi_raw_len f |}.
Record Tail := { tl_fragments : gmap string (list Fragment); tl_infos : list FrameInfo; tl_frames : list ArchiveFrame;
                 tl_bundles : list string; tl_new : list string; tl_written : list (string * bytes); tl_reuse : ArchiveReuse }.
(** The tail's blobs that have bytes, streamed into frames and bundles after the base's. *)
Definition stream_tail (blobs : list Blob) (sizes : list N) (bundle_size : N) (tail : Tail) : Result Tail :=
  match blobs with
  | [] => Ok tail
  | _ =>
      let? layout := Layout_new blobs [] sizes in
      let? (built, bounds) := stream_frames layout None in
      let? bd := bundle_all cas_hash local_range None None bundle_size built in
      let? frame_base := context (try_from u32_max (nlen (tl_frames tail))) "too many frames" in
      let? bundle_base := context (try_from u32_max (nlen (tl_bundles tail))) "too many bundles" in
      let? table := files_table layout bounds in
      Ok {| tl_fragments := foldl (fun m '(blob, file) => <[b_oid blob := map (shift_fragment frame_base) (fragments file)]> m)
                              (tl_fragments tail) (zip (ly_blobs layout) (files table));
            tl_infos := tl_infos tail ++ map (shift_info bundle_base) (bd_infos bd);
            tl_frames := tl_frames tail ++ bd_frames bd;
            tl_bundles := tl_bundles tail ++ bd_bundles bd;
            tl_new := bd_new_bundles bd;
            tl_written := bd_written bd;
            tl_reuse := {| ar_incremental := ar_incremental (tl_reuse tail); ar_tail := ar_tail (tl_reuse tail);
                           ar_bytes_read := ly_total layout; ar_frames_built := frames_built bd; ar_bundles_built := bundles_built bd;
                           ar_frames_reused := ar_frames_reused (tl_reuse tail); ar_bundles_reused := ar_bundles_reused (tl_reuse tail) |} |}
  end.
Definition tail_file (frame_index_ : list N) (tail_fragments : gmap string (list Fragment)) (x : Blob * option (list Fragment)) : Result FileEntry :=
  let '(blob, kept) := x in
  let? fragments :=
    match kept with
    | Some fragments =>
        collect (fun f => let? at_ := context (nget frame_index_ (frame_index f)) "index out of bounds" in
                          Ok {| frame_index := at_; frame_offset := frame_offset f; fg_raw_len := fg_raw_len f |}) fragments
    | None => context (tail_fragments !! b_oid blob) "tail blob has no fragments"
    end in
  Ok {| fe_path := b_path blob; fe_mode := b_mode blob; blob_sha1 := b_oid blob; fragments := fragments |}.

Definition build_tail_into_cas (records : list TreeRecord) (base : ArchiveBase) (bundle_size : N)
    : Result (ArchiveBuildOutput * list (string * bytes)) :=
  let '(blobs, links) := collect_blobs records in
  let infos := frames (ab_metadata base) in
  ensure! (nlen infos =? nlen (ab_frames base))%N else "base has other frames than its metadata places";
  let '(kept, tail_blobs) := split_tail (base_fragments base) blobs in
  let? live := try_fold (live_bundle infos) (repeat false (length (ab_bundles base))) (kept_fragments kept) in
  let? (bundle_index, bundles) := renumber_bundles (zip (ab_bundles base) live) [] in
  let? (frame_index_, frame_infos, frames_) := renumber_frames bundle_index (zip infos (ab_frames base)) [] [] in
  let reuse := {| ar_incremental := true; ar_tail := true; ar_bytes_read := 0; ar_frames_built := 0;
                  ar_frames_reused := nlen frames_; ar_bundles_built := 0; ar_bundles_reused := nlen bundles |} in
  let? sizes := collect (fun b => blob_size (b_oid b)) tail_blobs in
  let sized := zip tail_blobs sizes in
  let '(empty, full) :=
    if negb (bool_decide (frames_ = [])) || existsb (fun size => 0 <? size)%N sizes
    then (List.filter (fun x => x.2 =? 0)%N sized, List.filter (fun x => negb (x.2 =? 0))%N sized)
    else ([], sized) in
  let? tail := stream_tail (map fst full) (map snd full) bundle_size
    {| tl_fragments := foldl (fun m x => <[b_oid x.1 := [at_start]]> m) ∅ empty;
       tl_infos := frame_infos; tl_frames := frames_; tl_bundles := bundles; tl_new := []; tl_written := []; tl_reuse := reuse |} in
  let? entries := collect (tail_file frame_index_ (tl_fragments tail)) (zip blobs kept) in
  Ok ({| download_bundle_hashes := tl_bundles tail; new_bundle_hashes := tl_new tail;
         ao_metadata := {| frames := tl_infos tail; files := entries; gitlinks := links |};
         archive_frames := tl_frames tail; ao_reuse := tl_reuse tail |}, tl_written tail).
End archive_build.
