(* ===== verification/ArchiveExact.v ===== *)
(** What the archives of a server hold ([rust/src/archive.rs]): every archive a
    build makes, cold, on an earlier one or as a tail on one, places in its bundles
    exactly the frames its files are cut from. *)

From S2P Require Import Prelude Validation Outputs Manifest Archive ArchivePlan ArchiveBundle ArchiveBuild.

(** ** Exact archives *)

(** Each frame's bytes with its compressed form, as the chunker has them. *)
Definition framed (x : bytes * bytes) : bytes * (N * N) := (x.2, (0, nlen x.1)%N).
Definition as_placed (x : bytes * bytes) : BuiltFrame := as_built (framed x).

(** A fragment's bytes, of frames' bytes. *)
Definition piece (raws : list bytes) (f : Fragment) : bytes :=
  match nget raws (frame_index f) with Some raw => slice raw (frame_offset f) (frame_offset f + fg_raw_len f) | None => [] end.
Definition piece_in (raws : list bytes) (f : Fragment) : Prop :=
  exists raw, nget raws (frame_index f) = Some raw /\ (frame_offset f + fg_raw_len f <= nlen raw)%N.

Section exact.
Context (cas_hash : bytes -> string) (decompress : bytes -> N -> Result bytes).
(** The bytes of each blob. *)
Context (content : string -> bytes).

Definition decodes_to (data raw : bytes) : Prop :=
  match raw with [] => data = [] | _ => decompress data (nlen raw) = Ok raw end.
(** A frame is of these bytes in this compressed form. *)
Definition frame_of (x : bytes * bytes) (f : ArchiveFrame) : Prop :=
  af_raw_hash f = cas_hash x.1 /\ af_raw_len f = nlen x.1 /\ af_chunk_hash f = cas_hash x.2 /\
  af_compressed_len f = nlen x.2 /\ decodes_to x.2 x.1.
Definition bundle_hash (group : list (bytes * bytes)) : string := cas_hash (mjoin (map snd group)).
Definition file_of (raws : list bytes) (f : FileEntry) : Prop :=
  fragments f <> [] /\ Forall (piece_in raws) (fragments f) /\ mjoin (map (piece raws) (fragments f)) = content (blob_sha1 f).

(** Bundles that hold [groups] of frames: the frame table places each frame where
    it is in its bundle. *)
Record bundles_exact (groups : list (list (bytes * bytes))) (bundles : list string) (infos : list FrameInfo)
    (archive : list ArchiveFrame) : Prop := {
  ax_frames : Forall2 frame_of (mjoin groups) archive;
  ax_infos : infos = placed_all (map (map as_placed) groups);
  ax_bundles : bundles = map bundle_hash groups;
  ax_groups : Forall (fun g => g <> [] /\ (nlen (mjoin (map snd g)) <= u64_max)%N) groups;
  ax_width : Forall (fun x => nlen x.1 <= u32_max /\ nlen x.2 <= u32_max)%N (mjoin groups);
}.
(** An exact archive: its bundles are, and each file's fragments are its blob. *)
Definition archive_exact (a : ArchiveBase) (groups : list (list (bytes * bytes))) : Prop :=
  bundles_exact groups (ab_bundles a) (frames (ab_metadata a)) (ab_frames a) /\
  Forall (file_of (map fst (mjoin groups))) (files (ab_metadata a)).

(** The archive of an output. *)
Definition output_archive (o : ArchiveBuildOutput) : ArchiveBase :=
  {| ab_frames := archive_frames o; ab_metadata := ao_metadata o; ab_bundles := download_bundle_hashes o |}.
(** The table's files are the listing's, in its order. *)
Definition table_of (records : list TreeRecord) (m : MetadataChunk) : Prop :=
  map (fun f => (fe_path f, blob_sha1 f, fe_mode f)) (files m) = (collect_blobs records).1 /\
  gitlinks m = (collect_blobs records).2.

(** ** Hashes

    Distinct bytes have distinct hashes, none of them the start of another. *)
Context (Hhash : forall x y s t, cas_hash x +:+ s = cas_hash y +:+ t -> x = y).

Lemma hash_inj x y : cas_hash x = cas_hash y -> x = y.
Proof. intros H. apply (Hhash x y "" ""). by rewrite H. Qed.
Lemma hash_nonempty x s : cas_hash x +:+ s <> "".
Proof.
  intros H. assert (Hx : cas_hash x = "") by (by destruct (cas_hash x)).
  assert (Hall : forall y, x = y) by (intros y; apply (Hhash x y (cas_hash y) ""); by rewrite Hx, string_app_nil).
  by pose proof (Hall []) as ->; discriminate (Hall [Byte.x00]).
Qed.
Lemma string_app_inj (s t u : string) : s +:+ t = s +:+ u -> t = u.
Proof. induction s as [|c s IH]; [done|]. intros H. apply IH. by injection H. Qed.
Definition data_key (datas : list bytes) : string := foldr (fun d key => cas_hash d +:+ key) "" datas.
Lemma data_key_inj l l' : data_key l = data_key l' -> l = l'.
Proof.
  revert l'. induction l as [|x l IH]; intros [|y l'] H; cbn in H; [done|by destruct (hash_nonempty y _ (eq_sym H))|by destruct (hash_nonempty x _ H)|].
  apply Hhash in H as Hxy. subst y. f_equal. apply IH. by eapply string_app_inj.
Qed.
Lemma data_key_app l l' : data_key (l ++ l') = data_key l +:+ data_key l'.
Proof. unfold data_key. induction l as [|x l IH]; cbn; [done|]. by rewrite IH, string_app_assoc. Qed.

(** ** The index of an exact base *)
Record index_exact (bi : BaseIndex) (groups : list (list (bytes * bytes))) : Prop := {
  ix_frames : Forall2 frame_of (mjoin groups) (bi_frames bi);
  ix_raw : forall h k, bi_by_raw bi !! h = Some k -> exists f, nget (bi_frames bi) k = Some f /\ af_raw_hash f = h;
  ix_bundles : forall key hash, bi_bundles bi !! key = Some hash ->
    exists g, key = data_key (map snd g) /\ hash = bundle_hash g;
}.

Definition placed_from (i : N) (groups : list (list (bytes * bytes))) : list FrameInfo :=
  mjoin (map (fun x => placed x.1 0 (map as_placed x.2)) (enumerate_from i groups)).
Lemma placed_from_all groups : placed_all (map (map as_placed) groups) = placed_from 0 groups.
Proof.
  unfold placed_all, placed_from, enumerate.
  enough (H : forall i, mjoin (map (fun x => placed x.1 0 x.2) (enumerate_from i (map (map as_placed) groups)))
    = mjoin (map (fun x => placed x.1 0 (map as_placed x.2)) (enumerate_from i groups))) by apply H.
  induction groups as [|g groups IH]; intros i; [done|].
  cbn [map enumerate_from]. rewrite !mjoin_cons. cbn [fst snd]. by rewrite IH.
Qed.

Lemma index_frames_raw bundles l k pos key by_raw by_key starts places by_raw' by_key' total :
  index_frames bundles l k pos key by_raw by_key = Ok (starts, places, by_raw', by_key', total) ->
  forall h k', by_raw' !! h = Some k' -> by_raw !! h = Some k' \/
    exists f, nget (map fst l) (k' - k) = Some f /\ af_raw_hash f = h /\ (k <= k')%N.
Proof.
  revert k pos key by_raw by_key starts places.
  induction l as [|[frame info] rest IH]; intros k pos key by_raw by_key starts places H; cbn in H.
  { injection H as <- <- <- <- <-. by left. }
  destruct (_ && _); [|done]. apply rbind_ok in H as (bundle & _ & H). apply rbind_ok in H as (next & _ & H).
  apply rbind_ok in H as ([[[[starts1 places1] br] bk] tot] & Hrec & H). injection H as <- <- <- <- <-.
  intros h k' Hk. destruct (IH _ _ _ _ _ _ _ Hrec h k' Hk) as [Hi|(f & Hf & Hh & Hle)].
  - apply lookup_insert_Some in Hi as [[Hh <-]|[_ Hi]]; [right|by left]. exists frame. rewrite N.sub_diag. by split_and!.
  - right. exists f. split_and!; [|done|lia]. unfold nget in *. cbn [map]. replace (N.to_nat (k' - k)) with (S (N.to_nat (k' - (k + 1)))) by lia. done.
Qed.

(** The bundles' keys: [g1] of the open group [g1 ++ g2] is behind. *)
Lemma index_frames_keys bundles l i off g1 g2 later k pos by_raw by_key starts places by_raw' by_key' total :
  index_frames bundles l k pos (data_key (map snd g1)) by_raw by_key = Ok (starts, places, by_raw', by_key', total) ->
  Forall2 frame_of (g2 ++ mjoin later) (map fst l) ->
  map snd l = placed i off (map as_placed g2) ++ placed_from (i + 1) later ->
  Forall (fun g => g <> []) later -> (g2 = [] -> later = []) ->
  drop (N.to_nat i) bundles = map bundle_hash ((g1 ++ g2) :: later) ->
  forall key hash, by_key' !! key = Some hash -> by_key !! key = Some hash \/
    exists g, key = data_key (map snd g) /\ hash = bundle_hash g.
Proof.
  revert i off g1 g2 later k pos by_raw by_key starts places.
  induction l as [|[frame info] rest IH]; intros i off g1 g2 later k pos by_raw by_key starts places H Hf Hinfo Hne Hopen Hdrop; cbn in H.
  { injection H as <- <- <- <- <-. by left. }
  destruct (_ && _); [|done]. apply rbind_ok in H as (bundle & Hb & H). apply rbind_ok in H as (next & _ & H).
  apply rbind_ok in H as ([[[[starts1 places1] br] bk] tot] & Hrec & H). injection H as <- <- <- <- <-.
  destruct g2 as [|x g2]; [rewrite Hopen in Hinfo by done; done|]. cbn in Hinfo. injection Hinfo as -> Hinfo. cbn [chunk_index] in *.
  apply context_ok in Hb. unfold nget in Hb.
  assert (Hb' : bundle = bundle_hash (g1 ++ x :: g2)).
  { rewrite <- (Nat.add_0_r (N.to_nat i)), <- lookup_drop, Hdrop in Hb. by injection Hb. }
  inversion Hf as [|? ? ? ? Hx Hf']; subst. clear Hf Hb.
  assert (Hkey : data_key (map snd g1) +:+ af_chunk_hash frame = data_key (map snd (g1 ++ [x]))).
  { rewrite map_app, data_key_app. cbn. rewrite string_app_nil. by destruct Hx as (_ & _ & -> & _). }
  rewrite Hkey in Hrec. intros key hash Hk.
  destruct g2 as [|y g2].
  - assert (Hlast : match rest with (_, after) :: _ => negb (chunk_index after =? i)%N | [] => true end = true).
    { destruct later as [|g later]; cbn in Hinfo; [by destruct rest|]. apply Forall_cons in Hne as [Hg _].
      destruct g as [|z g]; [done|]. destruct rest as [|[f after] rest]; [done|]. unfold placed_from in Hinfo. cbn in Hinfo.
      injection Hinfo as -> _. cbn. apply negb_true_iff, N.eqb_neq. lia. }
    rewrite Hlast in Hrec. destruct later as [|g later].
    + assert (rest = []) as -> by (by destruct rest). cbn in Hrec. injection Hrec as _ _ _ <- _.
      apply lookup_insert_Some in Hk as [[<- <-]|[_ Hk]]; [right; eauto|by left].
    + apply Forall_cons in Hne as [Hg Hne].
      destruct (IH (i + 1)%N 0%N [] g later _ _ _ _ _ _ Hrec) with (key := key) (hash := hash) as [Hi|Hi]; try done.
      * change (drop (N.to_nat (i + 1)) bundles = map bundle_hash (g :: later)).
        replace (N.to_nat (i + 1)) with (N.to_nat i + 1) by lia. by rewrite <- drop_drop, Hdrop.
      * apply lookup_insert_Some in Hi as [[<- <-]|[_ Hi]]; [right; eauto|by left].
      * by right.
  - assert (Hlast : match rest with (_, after) :: _ => negb (chunk_index after =? i)%N | [] => true end = false).
    { destruct rest as [|[f after] rest]; [done|]. cbn in Hinfo. injection Hinfo as -> _. cbn. by rewrite N.eqb_refl. }
    rewrite Hlast in Hrec. eapply (IH i _ (g1 ++ [x]) (y :: g2) later _ _ _ _ _ _ Hrec); try done.
    by rewrite <- app_assoc.
Qed.

Lemma BaseIndex_new_exact a groups bi : archive_exact a groups -> BaseIndex_new a = Ok bi -> index_exact bi groups.
Proof.
  intros [[Hf Hi Hb Hg _] _] H. unfold BaseIndex_new in H.
  destruct (N.eqb_spec (nlen (frames (ab_metadata a))) (nlen (ab_frames a))) as [Hlen|]; [|done].
  apply rbind_ok in H as ([[[[starts places] br] bk] pos] & Hidx & H). apply rbind_ok in H as ([fs fp] & _ & H).
  destruct (_ =? _)%N; [|done]. injection H as <-. unfold nlen in Hlen.
  assert (Hfst : map fst (zip (ab_frames a) (frames (ab_metadata a))) = ab_frames a) by (apply fst_zip; lia).
  assert (Hsnd : map snd (zip (ab_frames a) (frames (ab_metadata a))) = frames (ab_metadata a)) by (apply snd_zip; lia).
  assert (Hne : Forall (fun g : list (bytes * bytes) => g <> []) groups) by (eapply Forall_impl; [exact Hg|]; by intros g []).
  constructor; cbn; [done|..].
  - intros h k Hk. destruct (index_frames_raw _ _ _ _ _ _ _ _ _ _ _ _ Hidx h k Hk) as [?|(f & Hget & Hh & _)]; [done|].
    rewrite Hfst, N.sub_0_r in Hget. eauto.
  - rewrite Hi, placed_from_all in Hidx, Hsnd, Hfst. destruct groups as [|g groups].
    { destruct (ab_frames a); [|by inversion Hf]. cbn in Hidx. injection Hidx as <- <- <- <- <-. done. }
    intros key hash Hk. apply Forall_cons in Hne as [Hg0 Hne].
    destruct (index_frames_keys _ _ 0 0 [] g groups _ _ _ _ _ _ _ _ _ Hidx) with (key := key) (hash := hash) as [?|?];
      first [done|by rewrite Hfst|by rewrite Hb].
Qed.


(** ** Frames and bundles of a build *)
Definition base_exact (base : option BaseIndex) : Prop :=
  match base with Some bi => exists groups, index_exact bi groups | None => True end.
(** A frame of [raw], whose compressed bytes the bundler will find. *)
Definition built_of (base : option BaseIndex) (raw : bytes) (f : BuiltFrame) : Prop :=
  exists d, frame_of (raw, d) (archive_frame f) /\ forall d', frame_data cas_hash base f d' -> d' = d.

Lemma base_frame_built bi groups k frame :
  index_exact bi groups -> nget (bi_frames bi) k = Some frame ->
  exists x, nget (mjoin groups) k = Some x /\ af_raw_hash frame = cas_hash x.1 /\
    forall f, archive_frame f = frame -> bf_bytes f = None -> bf_base_frame f = Some k -> built_of (Some bi) x.1 f.
Proof.
  intros Hix Hk. destruct (Forall2_lookup_r _ _ _ _ _ (ix_frames _ _ Hix) Hk) as (x & Hx & Hf). exists x. split; [done|].
  pose proof Hf as (Hraw & _ & Hch & _). split; [done|]. intros f Ef Hb Hbf. exists x.2. rewrite Ef.
  split; [by destruct x|]. intros d'. unfold frame_data. rewrite Hb, Hbf. intros (fr & Hfr & _ & Hd). rewrite Hk in Hfr. injection Hfr as <-.
  apply hash_inj. by rewrite Hd.
Qed.

Lemma build_frame_exact zstd_encode base raw f :
  (forall raw c, zstd_encode raw = Ok c -> decompress c (nlen raw) = Ok raw) ->
  base_exact base -> build_frame cas_hash zstd_encode raw base = Ok f -> built_of base raw f.
Proof.
  intros Hz Hbase H. unfold build_frame in H.
  destruct (base ≫= _) as [[k frame]|] eqn:E.
  - apply bind_Some in E as (bi & -> & E). apply bind_Some in E as (k' & Hk & E). apply bind_Some in E as (frame' & Hfr & E).
    injection E as -> ->. destruct Hbase as [groups Hix]. destruct (ix_raw _ _ Hix _ _ Hk) as (frame' & Hfr' & Hh).
    rewrite Hfr in Hfr'. injection Hfr' as <-. destruct (base_frame_built _ _ _ _ Hix Hfr) as (x & Hx & Hraw & Hb).
    rewrite Hh in Hraw. apply hash_inj in Hraw as ->. injection H as <-. apply Hb; [|done|done].
    destruct (Forall2_lookup_r _ _ _ _ _ (ix_frames _ _ Hix) Hfr) as (y & Hy & H1 & H2 & H3 & H4 & _).
    unfold nget in Hx. rewrite Hx in Hy. injection Hy as <-. unfold archive_frame. cbn. rewrite <- Hh, <- H2. by destruct frame.
  - apply rbind_ok in H as (d & Hd & H). injection H as <-. exists d. split; [|by intros d' Hd'].
    unfold compress_frame in Hd. split_and!; try done. cbn. destruct raw; [by injection Hd as <-|by apply Hz].
Qed.

(** Pairs of raw and compressed bytes for a build's frames. *)
Definition pair_built (base : option BaseIndex) (x : bytes * bytes) (f : BuiltFrame) : Prop :=
  frame_of x (archive_frame f) /\ forall d', frame_data cas_hash base f d' -> d' = x.2.
Lemma built_pairs base raws fs :
  Forall2 (built_of base) raws fs -> exists xs, map fst xs = raws /\ Forall2 (pair_built base) xs fs.
Proof.
  induction 1 as [|raw f raws fs (d & H1 & H2) _ (xs & <- & Hxs)]; [by exists []|].
  exists ((raw, d) :: xs). split; [done|by constructor].
Qed.
Lemma split_groups {A B} (P : A -> B -> Prop) xs groups :
  Forall2 P xs (mjoin groups) -> exists xgroups, mjoin xgroups = xs /\ Forall2 (Forall2 P) xgroups groups.
Proof.
  revert xs. induction groups as [|g groups IH]; intros xs H.
  { inversion H; subst. by exists []. }
  rewrite mjoin_cons in H. apply Forall2_app_inv_r in H as (x1 & x2 & H1 & (xg & <- & Hxg)%IH & ->).
  exists (x1 :: xg). split; [done|by constructor].
Qed.
Lemma placed_ext index offset l k :
  Forall2 (fun f g => bf_compressed_len f = bf_compressed_len g /\ bf_raw_len f = bf_raw_len g) l k ->
  placed index offset l = placed index offset k.
Proof. intros H. revert offset. induction H as [|f g l k [E1 E2] _ IH]; intros offset; cbn; [done|]. by rewrite E1, E2, IH. Qed.
Lemma placed_all_ext ls ks :
  Forall2 (Forall2 (fun f g => bf_compressed_len f = bf_compressed_len g /\ bf_raw_len f = bf_raw_len g)) ls ks ->
  placed_all ls = placed_all ks.
Proof.
  intros H. unfold placed_all, enumerate.
  enough (Hi : forall i, mjoin (map (fun x => placed x.1 0 x.2) (enumerate_from i ls))
    = mjoin (map (fun x => placed x.1 0 x.2) (enumerate_from i ks))) by apply Hi.
  induction H as [|l k ls ks Hl _ IH]; intros i; [done|]. cbn [enumerate_from map]. rewrite !mjoin_cons, IH. f_equal. by apply placed_ext.
Qed.

Lemma pair_group base target written g bg hash :
  base_exact base -> Forall2 (pair_built base) g bg -> bundle_ok cas_hash base target written bg hash ->
  hash = bundle_hash g.
Proof.
  intros Hbase Hg (_ & _ & [(bi & -> & Hb)|(c & datas & _ & -> & -> & Hd & _)]).
  - destruct Hbase as [groups Hix]. destruct (ix_bundles _ _ Hix _ _ Hb) as (g' & Hkey & ->). unfold bundle_hash. do 2 f_equal.
    apply data_key_inj. rewrite <- Hkey. clear -Hg. induction Hg as [|x f g bg [(_ & _ & Hc & _) _] _ IH]; [done|].
    cbn. unfold group_key in IH. by rewrite IH, <- Hc.
  - unfold bundle_hash. do 2 f_equal. clear -Hd Hg. revert datas Hd.
    induction Hg as [|x f g bg [_ Hx] _ IH]; intros datas Hd; inversion Hd; subst; [done|]. cbn. f_equal; auto.
Qed.

Lemma bundle_all_exact local_range storage base target raws fs bd :
  base_exact base -> Forall2 (built_of base) raws fs ->
  bundle_all cas_hash local_range storage base target fs = Ok bd ->
  exists groups, map fst (mjoin groups) = raws /\ bundles_exact groups (bd_bundles bd) (bd_infos bd) (bd_frames bd).
Proof.
  intros Hbase (xs & <- & Hxs)%built_pairs H. apply bundle_all_ok in H as (bgroups & [Hfs _ Hcl Hinf Har Hfit _] & Hopen).
  rewrite Hopen, app_nil_r in Hfs. subst fs. apply split_groups in Hxs as (groups & <- & Hg).
  exists groups. split; [done|].
  assert (Hflat : Forall2 (pair_built base) (mjoin groups) (mjoin bgroups)).
  { clear -Hg. induction Hg; [constructor|]. rewrite !mjoin_cons. by apply Forall2_app. }
  assert (Hlen : Forall2 (Forall2 (fun f h => bf_compressed_len f = bf_compressed_len h /\ bf_raw_len f = bf_raw_len h))
    (map (map as_placed) groups) bgroups).
  { clear -Hg. induction Hg as [|g bg groups bgroups Hx _ IH]; cbn; constructor; [|done]. clear IH.
    induction Hx as [|x f g bg [(_ & E1 & _ & E2 & _) _] _ IH]; cbn; constructor; [|done]. cbn in *. split; [done|]. by rewrite E1, N.sub_0_r. }
  constructor.
  - rewrite Har. clear -Hflat. induction Hflat as [|x f ? ? [? _] _ IH]; cbn; by constructor.
  - rewrite Hinf. symmetry. by apply placed_all_ext.
  - clear -Hg Hcl Hbase Hhash. revert Hcl. generalize (bd_bundles bd). induction Hg as [|g bg groups bgroups Hx _ IH]; intros hs Hcl; inversion Hcl; subst; [done|].
    cbn. f_equal; [by eapply pair_group|auto].
  - clear -Hg Hcl Hfit Hbase. revert Hcl. generalize (bd_bundles bd). induction Hg as [|g bg groups bgroups Hx _ IH]; intros hs Hcl; inversion Hcl; subst; [constructor|].
    rewrite mjoin_cons in Hfit. apply Forall_app in Hfit as [Hf Hfit]. constructor; [|by eapply IH].
    match goal with H : bundle_ok _ _ _ _ _ _ |- _ => destruct (bundle_ok_size _ _ _ _ _ _ Hf H) as [Hne Hsz] end.
    split; [intros ->; by inversion Hx; subst|]. etransitivity; [|exact Hsz]. apply N.eq_le_incl. clear -Hx. unfold group_bytes, nsum.
    induction Hx as [|x f g bg [(_ & _ & _ & E & _) _] _ IH]; [done|]. cbn [map foldr]. rewrite mjoin_cons, nlen_app, IH. cbn in E. by rewrite E.
  - clear -Hflat Hfit. induction Hflat as [|x f ? ? [(_ & E1 & _ & E2 & _) _] _ IH]; [constructor|].
    apply Forall_cons in Hfit as [[H1 H2] Hfit]. cbn in *. constructor; [split; congruence|auto].
Qed.

(** ** The stream *)
Context (find_blob : string -> Result bytes) (blob_size : string -> Result N) (cdc : bytes -> list (N * N)) (cdc_min : N)
  (zstd_encode : bytes -> Result bytes).
(** The object database gives each blob and its size; the cutter's chunks are its
    input in order; zstd gives back what it compressed. *)
Record tools_ok : Prop := {
  to_blob : forall oid data, find_blob oid = Ok data -> data = content oid;
  to_size : forall oid n, blob_size oid = Ok n -> n = nlen (content oid);
  to_cdc : forall data, tiles 0 (cut_bounds cdc 0 data) (nlen data);
  to_zstd : forall raw c, zstd_encode raw = Ok c -> decompress c (nlen raw) = Ok raw;
}.
Context (Htools : tools_ok).

Definition span (x : Blob * (N * N)) : N * N := (x.2.1, x.2.1 + x.2.2)%N.
Definition sizes_of (blobs : list Blob) : list N := map (fun b => nlen (content (b_oid b))) blobs.

Lemma new_stream_cons b blobs : new_stream content (b :: blobs) = content (b_oid b) ++ new_stream content blobs.
Proof. done. Qed.
Lemma layout_placed pos before blobs starts total :
  layout_starts pos (sizes_of blobs) = Ok (starts, total) -> pos = nlen before ->
  let stream := before ++ new_stream content blobs in
  let placed := zip blobs (zip starts (sizes_of blobs)) in
  tiles pos (map span placed) total /\ total = nlen stream /\ map fst placed = blobs /\
  Forall (fun x => slice stream (span x).1 (span x).2 = content (b_oid x.1) /\ x.2.2 = nlen (content (b_oid x.1))) placed.
Proof.
  revert pos before starts. induction blobs as [|b blobs IH]; intros pos before starts H ->; cbn in H.
  { injection H as <- <-. unfold new_stream. cbn. rewrite app_nil_r. split_and!; [constructor|done..]. }
  apply rbind_ok in H as (next & Hn & H). apply context_ok, checked_add_Some in Hn as [-> _].
  apply rbind_ok in H as ([starts1 total1] & H1 & H). injection H as <- <-.
  destruct (IH _ (before ++ content (b_oid b)) _ H1) as (IH1 & IH2 & IH3 & IH4); [by rewrite nlen_app|].
  cbv zeta. rewrite <- app_assoc in IH2, IH4. split_and!; [constructor; [cbn; lia|exact IH1]|exact IH2|cbn; f_equal; exact IH3|].
  constructor; [|exact IH4]. split; [|done]. unfold span. cbn [fst snd]. rewrite new_stream_cons, slice_app_r, N.sub_diag by lia.
  rewrite slice_app_l by lia. replace (_ - _)%N with (nlen (content (b_oid b))) by lia. apply slice_all.
Qed.

Lemma Layout_new_placed blobs links ly :
  Layout_new blobs links (sizes_of blobs) = Ok ly ->
  ly_blobs ly = blobs /\ ly_gitlinks ly = links /\ ly_sizes ly = sizes_of blobs /\ nlen (new_stream content blobs) = ly_total ly /\
  tiles 0 (map span (placed_blobs ly)) (ly_total ly) /\ map fst (placed_blobs ly) = blobs /\ length (ly_starts ly) = length blobs /\
  Forall (fun x => slice (new_stream content blobs) (span x).1 (span x).2 = content (b_oid x.1) /\ x.2.2 = nlen (content (b_oid x.1)))
    (placed_blobs ly).
Proof.
  intros H. unfold Layout_new in H. apply rbind_ok in H as ([starts total] & Hst & H). injection H as <-.
  unfold placed_blobs. cbn. pose proof (layout_starts_ok _ _ _ _ Hst) as (Hl & _). unfold sizes_of in Hl. rewrite length_map in Hl.
  destruct (layout_placed 0 [] blobs starts total Hst eq_refl) as (H1 & H2 & H3 & H4). by split_and!.
Qed.

Lemma read_pieces_ok pieces parts :
  read_pieces find_blob pieces = Ok parts -> parts = map (fun p => slice (content (pc_oid p)) (pc_lo p) (pc_hi p)) pieces.
Proof.
  intros H%collect_ok. induction H as [|p part pieces parts Hp _ IH]; [done|]. cbn. rewrite IH. f_equal.
  unfold read_piece in Hp. apply rbind_ok in Hp as (data & ->%(to_blob Htools) & Hp). destruct (_ =? _)%N; [|done]. by injection Hp.
Qed.
Lemma read_stream_ok blobs links ly stream :
  Layout_new blobs links (sizes_of blobs) = Ok ly -> read_stream find_blob ly = Ok stream -> stream = new_stream content blobs.
Proof.
  intros Hly H. destruct (Layout_new_placed _ _ _ Hly) as (E1 & _ & E2 & _). unfold read_stream in H.
  apply rbind_ok in H as (parts & ->%read_pieces_ok & H). injection H as <-. unfold whole_pieces, new_stream. rewrite E1, E2.
  clear. unfold sizes_of. induction blobs as [|b blobs IH]; [done|]. cbn [map zip zip_with]. rewrite !mjoin_cons, IH. f_equal. cbn. apply slice_all.
Qed.

(** Frames in stream order: their bounds tile the stream. *)
Definition frames_exact (base : option BaseIndex) (stream : bytes) (bounds : list (N * N)) (built : list BuiltFrame) : Prop :=
  tiles 0 bounds (nlen stream) /\ Forall2 (built_of base) (map (fun b => slice stream b.1 b.2) bounds) built.

Lemma stream_frames_exact base blobs links ly built bounds :
  base_exact base -> Layout_new blobs links (sizes_of blobs) = Ok ly ->
  stream_frames cas_hash zstd_encode find_blob cdc ly base = Ok (built, bounds) ->
  frames_exact base (new_stream content blobs) bounds built /\ (blobs <> [] -> bounds <> []).
Proof.
  intros Hbase Hly H. unfold stream_frames in H. apply rbind_ok in H as (stream & Hs & H). apply context_ok in Hs.
  destruct (read_stream find_blob ly) as [s|] eqn:Er; [|done]. injection Hs as ->. apply (read_stream_ok _ _ _ _ Hly) in Er as ->.
  apply rbind_ok in H as (built0 & Hb%collect_ok & H). destruct (_ =? _)%N; [|done].
  pose proof (to_cdc Htools (new_stream content blobs)) as Ht. set (bs := cut_bounds cdc 0 _) in *.
  assert (Hall : Forall2 (built_of base) (map (fun b => slice (new_stream content blobs) b.1 b.2) bs) built0).
  { clear -Hb Hbase Htools Hhash. induction Hb as [|[lo hi] f bs fs Hf _ IH]; cbn; constructor; [|done].
    eapply build_frame_exact; [apply Htools|done|exact Hf]. }
  destruct (Layout_new_placed _ _ _ Hly) as (E1 & _). rewrite E1 in H. destruct bs as [|b bs].
  - apply Forall2_nil_inv_l in Hall as ->. assert (nlen (new_stream content blobs) = 0)%N as Hn by (by inversion Ht).
    destruct blobs as [|b blobs]; [by injection H as <- <-|]. apply rbind_ok in H as (frame & Hf & H). injection H as <- <-.
    split; [|done]. split; [rewrite Hn; constructor; [done|constructor]|]. constructor; [|constructor]. cbn. rewrite slice_empty.
    eapply build_frame_exact; [apply Htools|done|exact Hf].
  - injection H as <- <-. done.
Qed.

(** ** Gaps *)
Lemma tiles_shift s a l b : tiles a l b -> tiles (s + a) (map (fun x => (s + x.1, s + x.2)%N) l) (s + b).
Proof. induction 1 as [|a m b rest Hm _ IH]; cbn; constructor; [lia|done]. Qed.
Lemma cut_bounds_tile start data : tiles start (cut_bounds cdc start data) (start + nlen data)%N.
Proof.
  pose proof (tiles_shift start _ _ _ (to_cdc Htools data)) as H. rewrite N.add_0_r in H.
  assert (E : cut_bounds cdc start data = map (fun x => (start + x.1, start + x.2)%N) (cut_bounds cdc 0 data)); [|by rewrite E].
  unfold cut_bounds. rewrite map_map. apply map_ext. intros [o n]. cbn. f_equal; lia.
Qed.
Lemma tiles_in a l b x : tiles a l b -> x ∈ l -> (a <= x.1 /\ x.1 <= x.2 /\ x.2 <= b)%N.
Proof.
  intros Ht [i Hi]%list_elem_of_lookup. destruct x as [lo hi]. destruct (tiles_lookup _ _ _ _ _ _ Ht Hi) as (? & ? & ? & _). done.
Qed.

Lemma overlapping_pieces_ok stream g0 g1 l pos total :
  tiles pos (map span l) total -> (g0 <= g1)%N -> (g1 <= total)%N -> total = nlen stream ->
  Forall (fun x => slice stream (span x).1 (span x).2 = content (b_oid x.1) /\ x.2.2 = nlen (content (b_oid x.1))) l ->
  mjoin (map (fun p => slice (content (pc_oid p)) (pc_lo p) (pc_hi p)) (overlapping_pieces g0 g1 l))
  = slice stream (N.max g0 pos) g1.
Proof.
  revert pos. induction l as [|[b [start size]] l IH]; intros pos Ht Hg0 Hg -> Hl; cbn [overlapping_pieces].
  { inversion Ht; subst. cbn. by rewrite slice_nil by lia. }
  cbn [map] in Ht. change (span (b, (start, size))) with (start, start + size)%N in Ht.
  apply tiles_cons_inv in Ht as (-> & Hle & Ht). apply Forall_cons in Hl as [[Hb Hs] Hl]. cbn in Hb, Hs.
  pose proof (tiles_le _ _ _ Ht) as Hend. destruct (N.ltb_spec pos g1) as [Hlt|]; [|cbn; by rewrite slice_nil by lia].
  rewrite map_app, join_app, (IH _ Ht Hg0 Hg eq_refl Hl).
  destruct (_ && _) eqn:E; [breflect|].
  - cbn [map]. rewrite mjoin_cons. cbn [mjoin list_join app pc_oid pc_lo pc_hi]. rewrite app_nil_r, <- Hb, slice_slice by lia.
    replace (pos + (N.max g0 pos - pos))%N with (N.max g0 pos) by lia.
    replace (pos + (N.min g1 (pos + size) - pos))%N with (N.min g1 (pos + size)) by lia.
    destruct (decide (g1 <= pos + size)%N).
    + rewrite (slice_nil stream (N.max g0 (pos + size))) by lia. rewrite app_nil_r. f_equal. lia.
    + replace (N.max g0 (pos + size)) with (N.min g1 (pos + size)) by lia. destruct (decide (N.max g0 pos <= g1)%N).
      * apply slice_app; lia.
      * lia.
  - cbn. f_equal. apply andb_false_iff in E. rewrite !N.ltb_ge in E. lia.
Qed.

Lemma partition_point_prefix {A} (p : A -> bool) l i x : i < partition_point p l -> l !! i = Some x -> p x = true.
Proof.
  revert i. induction l as [|y l IH]; intros [|i] Hi Hx; cbn in *; try done.
  - injection Hx as ->. destruct (p x); [done|lia].
  - destruct (p y); [|lia]. apply (IH i); [by apply Nat.succ_lt_mono|done].
Qed.
Lemma partition_point_length {A} (p : A -> bool) l : partition_point p l <= length l.
Proof. induction l as [|y l IH]; cbn; [done|]. destruct (p y); [by apply le_n_S|apply Nat.le_0_l]. Qed.

Lemma gap_pieces_ok blobs links ly g0 g1 parts :
  Layout_new blobs links (sizes_of blobs) = Ok ly -> (g0 <= g1)%N -> (g1 <= nlen (new_stream content blobs))%N ->
  read_pieces find_blob (gap_pieces ly (g0, g1)) = Ok parts -> mjoin parts = slice (new_stream content blobs) g0 g1.
Proof.
  intros Hly Hg0 Hg ->%read_pieces_ok. destruct (Layout_new_placed _ _ _ Hly) as (_ & _ & Hsz & Htot & Ht & Hfst & Hlen & Hall).
  unfold gap_pieces. set (idx := Nat.pred _).
  assert (Hlp : length (placed_blobs ly) = length blobs) by (by rewrite <- Hfst, length_map).
  destruct (decide (blobs = [])) as [->|Hne].
  { unfold new_stream in *. cbn in *. destruct (placed_blobs ly); [|done]. rewrite drop_nil. cbn. unfold slice. by destruct (N.to_nat _), (N.to_nat _). }
  assert (Hidx : idx < length blobs).
  { pose proof (partition_point_length (fun start => start <=? g0)%N (ly_starts ly)). destruct blobs; [done|]. cbn in *. lia. }
  destruct (lookup_lt_is_Some_2 (placed_blobs ly) idx) as [[b [start size]] Hp]; [lia|].
  assert (Hspan : map span (placed_blobs ly) !! idx = Some (start, start + size)%N).
  { change ((span <$> placed_blobs ly) !! idx = Some (start, start + size)%N). rewrite list_lookup_fmap, Hp. done. }
  destruct (tiles_lookup _ _ _ _ _ _ Ht Hspan) as (_ & _ & _ & _ & Hd).
  rewrite (overlapping_pieces_ok (new_stream content blobs) g0 g1 _ start (ly_total ly)); [|by rewrite <- skipn_map|done|by rewrite <- Htot|done|by apply Forall_drop].
  f_equal. assert (start <= g0)%N; [|lia].
  unfold placed_blobs in Hp. apply lookup_zip_Some in Hp as [_ [Hst _]%lookup_zip_Some].
  destruct (decide (partition_point (fun start => start <=? g0)%N (ly_starts ly) = 0)) as [Hz|Hz].
  - subst idx. rewrite Hz in *. cbn in Hst. destruct (placed_blobs ly) as [|[b1 [s1 n1]] pl]; [cbn in Hlp; lia|].
    cbn [map] in Ht. change (span (b1, (s1, n1))) with (s1, s1 + n1)%N in Ht.
    apply tiles_cons_inv in Ht as (E & _). injection Hspan as <- _. lia.
  - apply N.leb_le. apply (partition_point_prefix (fun start => start <=? g0)%N (ly_starts ly) idx); [lia|done].
Qed.

(** ** An incremental build *)
Section incremental.
Context (bi : BaseIndex) (base_groups : list (list (bytes * bytes))) (Hix : index_exact bi base_groups).
Context (blobs : list Blob) (links : list string) (ly : Layout) (Hly : Layout_new blobs links (sizes_of blobs) = Ok ly).
#[local] Notation stream := (new_stream content blobs).

(** A frame with its place in the new stream. *)
Definition placed_frame (x : N * N * BuiltFrame) : Prop :=
  (x.1.1 <= x.1.2)%N /\ built_of (Some bi) (slice stream x.1.1 x.1.2) x.2.
(** A base frame kept where the new stream has its bytes. *)
Definition kept_at (r : N * N * N) : Prop :=
  (r.1.1 <= r.1.2)%N /\ nget (map fst (mjoin base_groups)) r.2 = Some (slice stream r.1.1 r.1.2).

Lemma cut_gap_ok gap cuts :
  (gap.1 <= gap.2)%N -> (gap.2 <= nlen stream)%N ->
  cut_gap cas_hash zstd_encode find_blob cdc ly bi gap = Ok cuts -> Forall placed_frame cuts.
Proof.
  destruct gap as [g0 g1]. cbn [fst snd]. intros Hg0 Hg H. unfold cut_gap in H. apply rbind_ok in H as (parts & Hp & H).
  apply (gap_pieces_ok blobs links) in Hp; [|done..]. rewrite Hp in H. destruct (N.eqb_spec (nlen (slice stream g0 g1)) (g1 - g0)) as [Hn|]; [|done].
  apply collect_ok in H. pose proof (cut_bounds_tile g0 (slice stream g0 g1)) as Ht. rewrite Hn in Ht.
  replace (g0 + (g1 - g0))%N with g1 in Ht by lia. apply list.Forall_forall. intros x Hx.
  destruct (Forall2_in_r _ _ _ _ H Hx) as ([lo hi] & Hin & Hb). pose proof (tiles_in _ _ _ _ Ht Hin) as (H1 & H2 & H3). cbn in H1, H2, H3.
  apply rbind_ok in Hb as (frame & Hf & Hb). injection Hb as <-. split; [done|]. cbn.
  rewrite slice_slice in Hf by lia. replace (g0 + (lo - g0))%N with lo in Hf by lia. replace (g0 + (hi - g0))%N with hi in Hf by lia.
  eapply build_frame_exact; [apply Htools|by exists base_groups|exact Hf].
Qed.

Lemma take_batch_sub bytes first rest batch later :
  take_batch bytes first rest = (batch, later) -> rest = batch ++ later.
Proof.
  revert bytes first batch. induction rest as [|gap rest IH]; intros bytes first batch H; cbn in H; [by injection H as <- <-|].
  destruct (_ || _); [|by injection H as <- <-]. destruct (take_batch _ false rest) as [b l] eqn:E. injection H as <- <-.
  by rewrite (IH _ _ _ E).
Qed.

Lemma cut_batches_ok fuel gaps cuts :
  Forall (fun g => g.1 <= g.2 /\ g.2 <= nlen stream)%N gaps ->
  cut_batches cas_hash zstd_encode find_blob cdc fuel ly bi gaps = Ok cuts -> Forall placed_frame cuts.
Proof.
  revert gaps cuts. induction fuel as [|fuel IH]; intros gaps cuts Hg H; cbn [cut_batches] in H; [by injection H as <-|].
  destruct gaps as [|gap gaps]; [by injection H as <-|]. destruct (take_batch 0 true (gap :: gaps)) as [batch rest] eqn:E.
  apply rbind_ok in H as (now & Hnow & H). apply rbind_ok in H as (later & Hlater & H). injection H as <-.
  pose proof (take_batch_sub _ _ (gap :: gaps) batch rest E) as Hsub. rewrite Hsub in Hg. apply Forall_app in Hg as [Hg1 Hg2].
  apply Forall_app. split; [|by eapply IH]. unfold cut_gaps in Hnow. apply rbind_ok in Hnow as (cs & Hcs & Hnow). injection Hnow as <-.
  apply collect_ok in Hcs. clear -Hcs Hg1 Hly Hix Htools Hhash. induction Hcs as [|g c batch cs Hc _ IH]; [constructor|].
  apply Forall_cons in Hg1 as [[? ?] Hg1]. rewrite mjoin_cons. apply Forall_app. split; [by eapply cut_gap_ok|auto].
Qed.

Lemma kept_frame_ok r x : kept_at r -> kept_frame bi r = Ok x -> placed_frame x.
Proof.
  destruct r as [[start stop] k]. intros [Hle Hraw] H. unfold kept_frame in H. apply rbind_ok in H as (frame & Hf & H).
  apply context_ok in Hf. injection H as <-. split; [done|]. cbn. cbn in Hraw.
  destruct (base_frame_built _ _ _ _ Hix Hf) as (x & Hx & _ & Hb). unfold nget in Hraw, Hx.
  rewrite (list_lookup_fmap fst), Hx in Hraw. injection Hraw as <-. apply Hb; [by destruct frame|done|done].
Qed.
Lemma kept_frames_ok kept xs : Forall kept_at kept -> collect (kept_frame bi) kept = Ok xs -> Forall placed_frame xs.
Proof.
  intros Hk H%collect_ok. induction H as [|r x kept xs Hx _ IH]; [constructor|].
  apply Forall_cons in Hk as [? ?]. constructor; [by eapply kept_frame_ok|auto].
Qed.
Lemma emit_kept_app e kept now later : emit_kept e kept = (now, later) -> kept = now ++ later.
Proof.
  revert now later. induction kept as [|[[s p] k] kept IH]; intros now later H; cbn in H; [by injection H as <- <-|].
  destruct (s <? e)%N; [|by injection H as <- <-]. destruct (emit_kept e kept) as [n l]. injection H as <- <-. cbn. f_equal. by apply IH.
Qed.
Lemma weave_ok cuts kept woven :
  Forall placed_frame cuts -> Forall kept_at kept -> weave bi cuts kept = Ok woven -> Forall placed_frame woven.
Proof.
  revert kept woven. induction cuts as [|[[start stop] frame] cuts IH]; intros kept woven Hc Hk H; cbn in H.
  - destruct (emit_kept usize_max kept) as [now later] eqn:E. apply emit_kept_app in E as ->. apply Forall_app in Hk as [Hk _].
    by eapply kept_frames_ok.
  - destruct (emit_kept start kept) as [now later] eqn:E. apply emit_kept_app in E as ->. apply Forall_app in Hk as [Hk1 Hk2].
    apply Forall_cons in Hc as [Hx Hc]. apply rbind_ok in H as (n & Hn & H). apply rbind_ok in H as (rest & Hr & H). injection H as <-.
    apply Forall_app. split; [exact (kept_frames_ok _ _ Hk1 Hn)|]. constructor; [done|exact (IH _ _ Hc Hk2 Hr)].
Qed.

Lemma pair_wise_tiles l lo hi :
  Forall (fun x => x.1 <= x.2)%N l -> (fst <$> head l) = Some lo -> (snd <$> last l) = Some hi ->
  pair_wise (fun a b => (a.2 =? b.1)%N) l = true -> tiles lo l hi.
Proof.
  revert lo. induction l as [|[a b] l IH]; intros lo Hl Hh Hlast Hp; [done|]. cbn in Hh. injection Hh as ->.
  apply Forall_cons in Hl as [Hab Hl]. destruct l as [|[c d] l].
  - cbn in Hlast. injection Hlast as <-. constructor; [done|constructor].
  - unfold pair_wise in Hp. cbn in Hp. apply andb_true_iff in Hp as [Hbc%N.eqb_eq Hp]. cbn in Hbc. subst b.
    constructor; [done|]. by apply IH.
Qed.

Lemma build_gaps_ok plan built bounds read :
  Forall kept_at (pl_reused plan) -> Forall (fun g => g.1 <= g.2 /\ g.2 <= nlen stream)%N (pl_gaps plan) ->
  build_gaps cas_hash zstd_encode find_blob cdc ly plan bi = Ok (built, bounds, read) ->
  frames_exact (Some bi) stream bounds built /\ bounds <> [].
Proof.
  intros Hk Hg H. unfold build_gaps in H. apply rbind_ok in H as (cuts & Hc & H). apply rbind_ok in H as (woven & Hw & H).
  destruct (_ && _) eqn:E in H; [|done]. injection H as <- <- _. apply andb_true_iff in E as [E Hpair].
  pose proof (weave_ok _ _ _ (cut_batches_ok _ _ _ Hg Hc) Hk Hw) as Hall.
  destruct (head (map fst woven)) as [[lo h0]|] eqn:Eh; [|done]. destruct (last (map fst woven)) as [[l0 hi]|] eqn:El; [|done].
  apply andb_true_iff in E as [->%N.eqb_eq ->%N.eqb_eq]. destruct (Layout_new_placed _ _ _ Hly) as (_ & _ & _ & Htot & _).
  split; [split|by intros E; rewrite E in Eh].
  - rewrite Htot. apply pair_wise_tiles; [|by rewrite Eh|by rewrite El|done].
    apply Forall_fmap. eapply Forall_impl; [exact Hall|]. by intros x [? _].
  - clear -Hall. induction Hall as [|x woven [_ Hx] _ IH]; cbn; by constructor.
Qed.
End incremental.

(** ** The files table *)
Lemma piece_length raws f : piece_in raws f -> nlen (piece raws f) = fg_raw_len f.
Proof. intros (raw & Hr & Hle). unfold piece. rewrite Hr, slice_length; lia. Qed.
Lemma pieces_length raws l : Forall (piece_in raws) l -> nlen (mjoin (map (piece raws) l)) = nsum (map fg_raw_len l).
Proof.
  induction 1 as [|f l Hf _ IH]; [done|]. cbn [map]. rewrite mjoin_cons, nlen_app, IH, piece_length by done. done.
Qed.
Lemma file_len_ok raws f :
  file_of raws f -> (nlen (content (blob_sha1 f)) <= usize_max)%N -> file_len f = Ok (nlen (content (blob_sha1 f))).
Proof.
  intros (_ & Hin & <-). rewrite (pieces_length _ _ Hin). clear. unfold file_len. set (step := fun (total : N) (fragment : Fragment) => _).
  assert (Hgen : forall l acc, (acc + nsum (map fg_raw_len l) <= usize_max)%N ->
    try_fold step acc l = Ok (acc + nsum (map fg_raw_len l))%N).
  { induction l as [|x l IH]; intros acc H; cbn in *; [by rewrite N.add_0_r|]. unfold nsum in *. cbn in H.
    unfold step at 1. unfold checked_add. rewrite (proj2 (N.leb_le _ _)) by lia. cbn. rewrite IH by lia. f_equal. cbn. lia. }
  intros H. by rewrite Hgen.
Qed.

Definition cuts_of (stream : bytes) (bounds : list (N * N)) : list bytes := map (fun b => slice stream b.1 b.2) bounds.
Lemma fragment_piece stream bounds f :
  tiles 0 bounds (nlen stream) -> fragment_fits bounds f ->
  piece_in (cuts_of stream bounds) f /\ piece (cuts_of stream bounds) f = fragment_bytes stream bounds f.
Proof.
  intros Ht (lo & hi & Hb & Hle). unfold piece_in, piece, fragment_bytes, cuts_of, nget in *.
  rewrite (list_lookup_fmap (fun b => slice stream b.1 b.2)), Hb. cbn. split; [|done]. exists (slice stream lo hi). split; [done|].
  destruct (tiles_lookup _ _ _ _ _ _ Ht Hb) as (_ & ? & ? & _). by rewrite slice_length.
Qed.

Lemma placed_stream blobs links ly :
  Layout_new blobs links (sizes_of blobs) = Ok ly -> (nlen (new_stream content blobs) <= usize_max)%N.
Proof.
  intros H. pose proof (Layout_new_placed _ _ _ H) as (_ & _ & _ & -> & _). unfold Layout_new in H.
  apply rbind_ok in H as ([starts total] & Hst & H). injection H as <-. cbn. apply layout_starts_ok in Hst as (_ & _ & Hm & _).
  apply Hm. unfold usize_max, u64_max. lia.
Qed.

(** The table over frames that tile the stream. *)
Lemma files_table_exact blobs links ly bounds m :
  Layout_new blobs links (sizes_of blobs) = Ok ly -> tiles 0 bounds (nlen (new_stream content blobs)) -> bounds <> [] ->
  (nlen bounds <= u32_max)%N -> Forall (fun b => b.2 - b.1 <= u32_max)%N bounds -> files_table ly bounds = Ok m ->
  Forall (file_of (cuts_of (new_stream content blobs) bounds)) (files m) /\ gitlinks m = links /\
  map (fun f => (fe_path f, blob_sha1 f, fe_mode f)) (files m) = blobs.
Proof.
  intros Hly Ht Hne Hn Hw Hm. destruct (Layout_new_placed _ _ _ Hly) as (_ & _ & _ & Htot & _ & Hfst & _ & Hall).
  pose proof Ht as Ht'. rewrite Htot in Ht'.
  destruct (files_table_ok ly blobs links (sizes_of blobs) bounds (new_stream content blobs) Hly) as (m' & Hm' & Hg & Hf & _); try done.
  { unfold sizes_of. by rewrite length_map. }
  rewrite Hm in Hm'. injection Hm' as <-. split_and!; [|done|].
  - apply list.Forall_forall. intros f Hin. destruct (Forall2_in_r _ _ _ _ Hf Hin) as (x & Hx & _ & _ & Ho & Hfne & Hfit & Hb).
    rewrite Forall_forall in Hall. destruct (Hall x Hx) as [Hc _].
    assert (Hp : Forall (piece_in (cuts_of (new_stream content blobs) bounds)) (fragments f) /\
      map (piece (cuts_of (new_stream content blobs) bounds)) (fragments f)
      = map (fragment_bytes (new_stream content blobs) bounds) (fragments f)).
    { clear -Hfit Ht. induction Hfit as [|y l Hy _ [IH1 IH2]]; [done|]. destruct (fragment_piece _ _ _ Ht Hy) as [H1 H2].
      split; [by constructor|]. cbn. by rewrite H2, IH2. }
    destruct Hp as [Hp1 Hp2]. split_and!; [done|done|]. rewrite Hp2, Ho, <- Hc. exact Hb.
  - rewrite <- Hfst. clear -Hf. induction Hf as [|x f pl fs (H1 & H2 & H3 & _) _ IH]; cbn; [done|]. rewrite H1, H2, H3, IH. by destruct x as [[[? ?] ?] ?].
Qed.

(** ** The base frames a plan keeps *)
Lemma spans_raws (before : bytes) raws spans b k fs fe :
  tiles (nlen before) spans b -> map (fun s => s.2 - s.1)%N spans = map nlen raws -> spans !! k = Some (fs, fe) ->
  exists raw, raws !! k = Some raw /\ slice (before ++ mjoin raws) fs fe = raw.
Proof.
  revert before spans k. induction raws as [|raw raws IH]; intros before [|[s e] spans] k Ht Hl Hk; try done.
  apply tiles_cons_inv in Ht as (-> & Hle & Ht). cbn in Hl. injection Hl as Hraw Hl. rewrite mjoin_cons.
  destruct k as [|k]; cbn in Hk.
  - injection Hk as <- <-. exists raw. split; [done|]. rewrite slice_app_r, N.sub_diag by lia.
    rewrite slice_app_l by lia. rewrite Hraw. apply slice_all.
  - rewrite app_assoc. apply (IH _ spans k); [|done|done]. rewrite nlen_app. by replace (nlen before + nlen raw)%N with e by lia.
Qed.
Lemma frames_raw_lens groups l : Forall2 frame_of (mjoin groups) l -> map af_raw_len l = map nlen (map fst (mjoin groups)).
Proof. induction 1 as [|x f xs l (_ & E & _) _ IH]; [done|]. cbn. by rewrite E, IH. Qed.

(** The base's files lie in its stream in the order its table lists them. *)
Definition stream_ordered (m : MetadataChunk) (groups : list (list (bytes * bytes))) : Prop :=
  in_stream_order content (files m) (mjoin (map fst (mjoin groups))).

Lemma plan_kept base groups bi blobs plan sizes :
  archive_exact base groups -> stream_ordered (ab_metadata base) groups -> BaseIndex_new base = Ok bi ->
  plan_incremental blob_size cdc_min blobs bi = Ok (Some (plan, sizes)) ->
  sizes = sizes_of blobs /\ Forall (kept_at groups blobs) (pl_reused plan) /\
  Forall (fun g => g.1 <= g.2 /\ g.2 <= nlen (new_stream content blobs))%N (pl_gaps plan).
Proof.
  intros [Hb _] Hord Hbi Hplan. destruct (BaseIndex_new_ok content base bi _ Hbi Hord) as (Htrue & Ht & Hlens).
  destruct (plan_incremental_ok blob_size cdc_min content _ (to_size Htools) bi blobs plan sizes Htrue (tiles_spans _ _ _ Ht) Hplan)
    as (Hs & Hr & _ & (l & Htl & Hperm) & Hg & _).
  split; [exact Hs|]. rewrite (frames_raw_lens _ _ (ax_frames _ _ _ _ Hb)) in Hlens. split.
  - eapply Forall_impl; [exact Hr|]. intros [[a b] k] (fs & fe & Hk & Hlt & -> & _ & Heq). split; cbn; [lia|].
    destruct (spans_raws [] _ _ _ _ _ _ Ht Hlens Hk) as (raw & Hraw & Hsl). cbn in Hsl. unfold nget. by rewrite Hraw, Heq, Hsl.
  - apply list.Forall_forall. intros g Hin. assert (Hl : g ∈ l) by (rewrite Hperm; apply elem_of_app; by right).
    apply (tiles_in _ _ _ _ Htl) in Hl. split; apply Hl.
Qed.

(** ** The archive of a commit ([build_into_cas]) *)
Lemma cuts_stream stream a bounds b : tiles a bounds b -> mjoin (cuts_of stream bounds) = slice stream a b.
Proof.
  induction 1 as [a|a m b rest Hm Ht IH]; [by rewrite slice_nil|]. pose proof (tiles_le _ _ _ Ht). unfold cuts_of in *. cbn [map].
  rewrite mjoin_cons, IH. by apply slice_app.
Qed.

(** What a table and its bundles are, of frames in stream order. *)
Definition table_exact (blobs : list Blob) (links : list string) (groups : list (list (bytes * bytes))) (fs : list FileEntry) (ls : list string) : Prop :=
  Forall (file_of (map fst (mjoin groups))) fs /\ ls = links /\ map (fun f => (fe_path f, blob_sha1 f, fe_mode f)) fs = blobs /\
  mjoin (map fst (mjoin groups)) = new_stream content blobs.
Lemma bundled_table local_range storage base target blobs links ly bounds built bd table :
  base_exact base -> Layout_new blobs links (sizes_of blobs) = Ok ly ->
  frames_exact base (new_stream content blobs) bounds built -> (blobs <> [] -> bounds <> []) ->
  bundle_all cas_hash local_range storage base target built = Ok bd -> (nlen (bd_frames bd) <= u32_max)%N ->
  match ly_blobs ly with [] => Ok {| frames := []; files := []; gitlinks := ly_gitlinks ly |} | _ => files_table ly bounds end = Ok table ->
  exists groups, bundles_exact groups (bd_bundles bd) (bd_infos bd) (bd_frames bd) /\ table_exact blobs links groups (files table) (gitlinks table).
Proof.
  intros Hbase Hly [Ht Hbuilt] Hne Hbd Hn Htable. destruct (bundle_all_exact _ _ _ _ _ _ _ Hbase Hbuilt Hbd) as (groups & Hraw & Hb).
  change (map _ bounds) with (cuts_of (new_stream content blobs) bounds) in Hraw.
  exists groups. split; [exact Hb|]. unfold table_exact. rewrite Hraw, (cuts_stream _ _ _ _ Ht), slice_all.
  destruct (Layout_new_placed _ _ _ Hly) as (E1 & E2 & _). rewrite E1, E2 in Htable.
  destruct blobs as [|b blobs]; [by injection Htable as <-|].
  assert (Hlen : (nlen bounds <= u32_max)%N).
  { etransitivity; [|exact Hn]. apply N.eq_le_incl. apply (f_equal nlen) in Hraw. unfold cuts_of in Hraw. rewrite !nlen_map in Hraw.
    rewrite <- Hraw. unfold nlen. f_equal. apply (Forall2_length _ _ _ (ax_frames _ _ _ _ Hb)). }
  assert (Hw : Forall (fun b => b.2 - b.1 <= u32_max)%N bounds).
  { apply list.Forall_forall. intros [lo hi] Hin. destruct (tiles_in _ _ _ _ Ht Hin) as (_ & H1 & H2). cbn in H1, H2. cbn [fst snd].
    rewrite <- (slice_length (new_stream content (b :: blobs)) lo hi) by done.
    assert (Hin' : slice (new_stream content (b :: blobs)) lo hi ∈ map fst (mjoin groups)).
    { rewrite Hraw. apply elem_of_lmap. by exists (lo, hi). }
    apply elem_of_lmap in Hin' as (x & -> & Hx). pose proof (ax_width _ _ _ _ Hb) as Hwd. rewrite Forall_forall in Hwd. by apply Hwd. }
  destruct (files_table_exact _ _ _ _ _ Hly Ht (Hne ltac:(done)) Hlen Hw Htable) as (H1 & H2 & H3). by split_and!.
Qed.

Lemma content_le blobs b : b ∈ blobs -> (nlen (content (b_oid b)) <= nlen (new_stream content blobs))%N.
Proof.
  induction blobs as [|b' blobs IH]; [by intros ?%elem_of_nil|]. rewrite new_stream_cons, nlen_app.
  intros [->|H]%elem_of_cons; [lia|]. specialize (IH H). lia.
Qed.
Lemma table_ordered blobs links groups m :
  (nlen (new_stream content blobs) <= usize_max)%N -> table_exact blobs links groups (files m) (gitlinks m) -> stream_ordered m groups.
Proof.
  intros Hmax (Hf & _ & Hblobs & Hs). split.
  - rewrite Hs, <- Hblobs. unfold new_stream. by rewrite map_map.
  - apply list.Forall_forall. intros f Hin. rewrite Forall_forall in Hf. apply (file_len_ok _ _ (Hf f Hin)). etransitivity; [|exact Hmax].
    rewrite <- Hblobs. apply (content_le _ (fe_path f, blob_sha1 f, fe_mode f)). apply elem_of_lmap. by exists f.
Qed.
Lemma sizes_collected blobs sizes : collect (fun b => blob_size (b_oid b)) blobs = Ok sizes -> sizes = sizes_of blobs.
Proof.
  intros H%collect_ok. induction H as [|b n blobs sizes Hn _ IH]; [done|]. cbn. rewrite IH. f_equal. by apply (to_size Htools).
Qed.

(** A base that a streamed build can be made on. *)
Definition base_sound (base : option ArchiveBase) : Prop :=
  match base with
  | Some a => exists groups, archive_exact a groups /\ stream_ordered (ab_metadata a) groups
  | None => True
  end.
Lemma base_sound_index base : base_sound base -> base_exact (base ← base; ok (BaseIndex_new base)).
Proof.
  destruct base as [a|]; cbn; [|done]. intros (groups & Ha & _). destruct (BaseIndex_new a) as [bi|] eqn:E; [|done].
  exists groups. by eapply BaseIndex_new_exact.
Qed.

Lemma build_into_cas_exact local_range storage records base target out written :
  base_sound base ->
  build_into_cas cas_hash zstd_encode local_range find_blob blob_size cdc cdc_min storage records base target = Ok (out, written) ->
  (nlen (archive_frames out) <= u32_max)%N ->
  exists groups, archive_exact (output_archive out) groups /\ table_of records (ao_metadata out) /\ stream_ordered (ao_metadata out) groups.
Proof.
  intros Hbase H Hn. unfold build_into_cas, table_of in *. destruct (collect_blobs records) as [blobs links].
  pose proof (base_sound_index _ Hbase) as Hidx. set (index := base ← base; _) in *.
  apply rbind_ok in H as (plan & Hplan & H). apply rbind_ok in H as ([[[layout built] bounds] read] & Hframes & H).
  apply rbind_ok in H as (bd & Hbd & H). apply rbind_ok in H as (table & Htable & H). injection H as <- <-. cbn in Hn |- *.
  assert (Hly : Layout_new blobs links (sizes_of blobs) = Ok layout /\
    frames_exact index (new_stream content blobs) bounds built /\ (blobs <> [] -> bounds <> [])).
  { destruct plan as [[plan sizes]|].
    - destruct index as [bi|] eqn:Ei; [|done]. subst index. destruct base as [a|]; [|done]. cbn in Ei.
      destruct (BaseIndex_new a) as [bi'|] eqn:Ebi; [|done]. injection Ei as ->. destruct Hbase as (groups & Ha & Hord).
      destruct (plan_kept a groups bi blobs plan sizes Ha Hord Ebi Hplan) as (-> & Hk & Hg).
      apply rbind_ok in Hframes as (ly & Hly & Hframes). apply rbind_ok in Hframes as ([[bu bo] re] & Hgaps & Hframes).
      injection Hframes as <- <- <- <-.
      destruct (build_gaps_ok bi groups (BaseIndex_new_exact _ _ _ Ha Ebi) _ _ _ Hly _ _ _ _ Hk Hg Hgaps). by split_and!.
    - apply rbind_ok in Hframes as (sizes & ->%sizes_collected & Hframes). apply rbind_ok in Hframes as (ly & Hly & Hframes).
      apply rbind_ok in Hframes as ([bu bo] & Hs & Hframes). injection Hframes as <- <- <- <-.
      destruct (stream_frames_exact _ _ _ _ _ _ Hidx Hly Hs). by split_and!. }
  destruct Hly as (Hly & Hfr & Hne).
  destruct (bundled_table _ _ _ _ _ _ _ _ _ _ _ Hidx Hly Hfr Hne Hbd Hn Htable) as (groups & Hb & Ht).
  pose proof Ht as (H1 & H2 & H3 & _). exists groups. split_and!; [by split|done|done|].
  by eapply (table_ordered blobs links); [eapply placed_stream|].
Qed.
End exact.
