(* ===== verification/ArchiveTail.v ===== *)
(** A Files archive built as a tail on an earlier one ([build_tail_into_cas] of
    [rust/src/archive.rs]) is exact when the earlier one is: the bundles it keeps,
    renumbered, and the bundles of the blobs the earlier one has not. *)

From S2P Require Import Prelude Validation Outputs Manifest Archive ArchivePlan ArchiveBundle ArchiveBuild ArchiveExact.

(** ** Choosing what is kept *)
Lemma split_tail_ok by_blob blobs kept tail :
  split_tail by_blob blobs = (kept, tail) ->
  kept = map (fun b => by_blob !! b_oid b) blobs.
Proof.
  unfold split_tail.
  assert (H : forall l kept0 seen tail0, exists seen' tail',
    foldl (split_blob by_blob) (kept0, seen, tail0) l = (kept0 ++ map (fun b => by_blob !! b_oid b) l, seen', tail')).
  { induction l as [|b l IH]; intros kept0 seen tail0; cbn; [exists seen, tail0; by rewrite app_nil_r|].
    assert (Hstep : exists s t, split_blob by_blob (kept0, seen, tail0) b = (kept0 ++ [by_blob !! b_oid b], s, t)).
    { cbn. destruct (by_blob !! b_oid b); [eauto|]. case_decide; eauto. }
    cbn in Hstep. destruct Hstep as (s & t & ->). destruct (IH (kept0 ++ [by_blob !! b_oid b]) s t) as (s' & t' & ->).
    exists s', t'. by rewrite <- app_assoc. }
  destruct (H blobs [] ∅ []) as (s' & t' & ->). by intros [= <- _].
Qed.

Lemma base_fragments_ok base oid frs :
  base_fragments base !! oid = Some frs -> exists f, f ∈ files (ab_metadata base) /\ blob_sha1 f = oid /\ fragments f = frs.
Proof.
  unfold base_fragments. set (l := List.filter _ _).
  assert (H : forall l (m : gmap string (list Fragment)), foldl (fun m f => <[blob_sha1 f := fragments f]> m) m l !! oid = Some frs ->
    m !! oid = Some frs \/ exists f, f ∈ l /\ blob_sha1 f = oid /\ fragments f = frs).
  { clear. induction l as [|f l IH]; intros m H; cbn in H; [by left|].
    apply IH in H as [H|(g & Hg & H)]; [|right; exists g; split; [by right|done]].
    apply lookup_insert_Some in H as [[H1 H2]|[_ H]]; [right; exists f; split; [by left|done]|by left]. }
  intros [H'|(f & Hf & Hx)]%H; [done|]. exists f. split; [|done]. by apply elem_of_lfilter in Hf as [? _].
Qed.

(** A bundle is live when a kept fragment's frame is in it. *)
Lemma live_bundle_ok infos live f live' :
  live_bundle infos live f = Ok live' ->
  exists info, nget infos (frame_index f) = Some info /\ nget live' (chunk_index info) = Some true /\ length live' = length live /\
    forall k, live !! k = Some true -> live' !! k = Some true.
Proof.
  intros H. unfold live_bundle in H. apply rbind_ok in H as (info & Hi%context_ok & H). apply rbind_ok in H as (b & Hb%context_ok & H).
  injection H as <-. exists info. unfold nget in Hb. apply lookup_lt_Some in Hb as Hlt. split_and!; [done| |by rewrite length_insert|].
  - unfold nget. by rewrite list_lookup_insert_eq.
  - intros k Hk. destruct (decide (k = N.to_nat (chunk_index info))) as [->|]; [by rewrite list_lookup_insert_eq|].
    by rewrite list_lookup_insert_ne.
Qed.
Lemma live_bundles_ok infos l live live' :
  try_fold (live_bundle infos) live l = Ok live' ->
  length live' = length live /\ (forall k, live !! k = Some true -> live' !! k = Some true) /\
  forall f, f ∈ l -> exists info, nget infos (frame_index f) = Some info /\ nget live' (chunk_index info) = Some true.
Proof.
  revert live. induction l as [|f l IH]; intros live H; cbn in H.
  { injection H as <-. split_and!; [done|done|by intros f ?%elem_of_nil]. }
  apply rbind_ok in H as (live1 & H1 & H). apply live_bundle_ok in H1 as (info & Hi & Ht & Hl & Hm).
  destruct (IH _ H) as (IH1 & IH2 & IH3). split_and!; [congruence|auto|]. intros g [->|Hg]%elem_of_cons; [|auto].
  exists info. split; [done|]. by apply IH2.
Qed.

(** ** Renumbering *)
(** What is live of a list. *)
Definition live_of {A} (l : list (A * bool)) : list A := map fst (List.filter snd l).
Lemma live_of_cons {A} (x : A) b l : live_of ((x, b) :: l) = (if b then [x] else []) ++ live_of l.
Proof. unfold live_of. by destruct b. Qed.

Lemma renumber_bundles_ok l acc index bundles :
  renumber_bundles l acc = Ok (index, bundles) ->
  bundles = acc ++ live_of l /\ length index = length l /\
  forall k (x : string * bool), l !! k = Some x -> index !! k = Some (if x.2 then nlen acc + nlen (live_of (take k l)) else u32_max)%N.
Proof.
  revert acc index. induction l as [|[hash b] l IH]; intros acc index H; cbn in H.
  { injection H as <- <-. unfold live_of. cbn. by rewrite app_nil_r. }
  rewrite live_of_cons. destruct b.
  - apply rbind_ok in H as (at_ & Ha & H). apply context_ok, try_from_Some in Ha as [-> _].
    apply rbind_ok in H as ([idx bs] & H1 & H). injection H as <- <-. destruct (IH _ _ H1) as (-> & Hl & Hk).
    split_and!; [by rewrite <- app_assoc|cbn; by f_equal|]. intros [|k] x Hx.
    + injection Hx as <-. cbn. by rewrite N.add_0_r.
    + etransitivity; [exact (Hk k x Hx)|]. destruct x.2; [|done]. cbn [take].
      rewrite live_of_cons, !nlen_app, nlen_cons, nlen_nil. f_equal. lia.
  - apply rbind_ok in H as ([idx bs] & H1 & H). injection H as <- <-. destruct (IH _ _ H1) as (-> & Hl & Hk).
    split_and!; [done|cbn; by f_equal|]. intros [|k] x Hx; [by injection Hx as <-|].
    etransitivity; [exact (Hk k x Hx)|]. cbn [take]. by rewrite live_of_cons.
Qed.

(** Whether a frame's bundle is kept, and the frame in its new bundle. *)
Definition moved_to (index : list N) (info : FrameInfo) : option N :=
  x ← nget index (chunk_index info); if (x =? u32_max)%N then None else Some x.
Definition move_info (x : N) (info : FrameInfo) : FrameInfo :=
  {| chunk_index := x; chunk_offset := chunk_offset info; compressed_len := compressed_len info; fi_raw_len := fi_raw_len info |}.
Definition moved {A} (index : list N) (l : list (FrameInfo * A)) : list (FrameInfo * A) :=
  omap (fun p => (fun x => (move_info x p.1, p.2)) <$> moved_to index p.1) l.
Lemma moved_app {A} index (l k : list (FrameInfo * A)) : moved index (l ++ k) = moved index l ++ moved index k.
Proof. apply omap_app. Qed.

Lemma renumber_frames_ok index l infos archive at_ infos' archive' :
  renumber_frames index l infos archive = Ok (at_, infos', archive') -> length infos = length archive ->
  infos' = infos ++ map fst (moved index l) /\ archive' = archive ++ map snd (moved index l) /\
  forall k (p : FrameInfo * ArchiveFrame), l !! k = Some p ->
    at_ !! k = Some (match moved_to index p.1 with Some _ => nlen infos + nlen (moved index (take k l)) | None => u32_max end)%N.
Proof.
  revert infos archive at_. induction l as [|[info frame] l IH]; intros infos archive at_ H Hl; cbn in H.
  { injection H as <- <- <-. cbn. by rewrite !app_nil_r. }
  apply rbind_ok in H as (x & Hx%context_ok & H).
  assert (Hm : moved index ((info, frame) :: l) = (if (x =? u32_max)%N then [] else [(move_info x info, frame)]) ++ moved index l).
  { unfold moved. cbn. unfold moved_to at 1. rewrite Hx. cbn. by destruct (_ =? _)%N. }
  assert (Hto : moved_to index info = if (x =? u32_max)%N then None else Some x) by (unfold moved_to; by rewrite Hx).
  rewrite Hm. destruct (x =? u32_max)%N eqn:E.
  - apply rbind_ok in H as ([[a i] f] & H1 & H). injection H as <- <- <-. destruct (IH _ _ _ H1 Hl) as (-> & -> & Hk).
    split_and!; [done|done|]. intros [|k] p Hp; [injection Hp as <-; cbn; by rewrite Hto|].
    etransitivity; [exact (Hk k p Hp)|]. cbn [take]. change (moved index ((info, frame) :: take k l)) with (moved index ([(info, frame)] ++ take k l)). rewrite moved_app.
    assert (moved index [(info, frame)] = []) as -> by (unfold moved; cbn; by rewrite Hto). done.
  - apply rbind_ok in H as (here & Hh & H). apply context_ok, try_from_Some in Hh as [-> _].
    apply rbind_ok in H as ([[a i] f] & H1 & H). injection H as <- <- <-.
    destruct (IH _ _ _ H1) as (-> & -> & Hk); [by rewrite !length_app, Hl|]. rewrite !map_app, <- !app_assoc.
    split_and!; [done|done|]. intros [|k] p Hp.
    + injection Hp as <-. cbn. by rewrite Hto, N.add_0_r.
    + etransitivity; [exact (Hk k p Hp)|]. cbn [take]. change (moved index ((info, frame) :: take k l)) with (moved index ([(info, frame)] ++ take k l)).
      rewrite moved_app. assert (moved index [(info, frame)] = [(move_info x info, frame)]) as -> by (unfold moved; cbn; by rewrite Hto).
      destruct (moved_to index p.1); [|done]. rewrite !nlen_app, !nlen_cons. f_equal. unfold nlen. cbn. lia.
Qed.

Lemma moved_lookup {A} index (l : list (FrameInfo * A)) k p x :
  l !! k = Some p -> moved_to index p.1 = Some x ->
  moved index l !! length (moved index (take k l)) = Some (move_info x p.1, p.2).
Proof.
  intros Hp Hx. assert (E : moved index l = moved index (take k l) ++ moved index (p :: drop (S k) l))
    by (by rewrite <- moved_app, take_drop_middle).
  rewrite E, lookup_app_r, Nat.sub_diag by done. unfold moved. cbn. by rewrite Hx.
Qed.
Lemma moved_length {A B} index (l : list (FrameInfo * A)) (l' : list (FrameInfo * B)) :
  map fst l = map fst l' -> length (moved index l) = length (moved index l').
Proof.
  revert l'. induction l as [|p l IH]; intros [|p' l'] H; cbn in H; try done. injection H as Hp H.
  unfold moved in *. cbn. rewrite Hp. destruct (moved_to index p'.1); cbn; [f_equal|]; by apply IH.
Qed.

(** The number of live bundles among the first [k]. *)
Definition lives (k : nat) (live : list bool) : N := nlen (List.filter id (take k live)).
Lemma lives_zip {A} k (l : list A) live : length l = length live -> nlen (live_of (take k (zip l live))) = lives k live.
Proof.
  revert k live. induction l as [|x l IH]; intros [|k] [|b live] Hl; try done. cbn [zip zip_with take].
  rewrite live_of_cons, nlen_app, IH by (cbn in Hl; lia). unfold lives, nlen. destruct b; cbn; lia.
Qed.
Lemma lives_le k live : (lives k live <= nlen live)%N.
Proof.
  unfold lives, nlen. revert live. induction k as [|k IH]; intros [|b live]; cbn; [lia..|]. specialize (IH live). destruct b; cbn; lia.
Qed.

Lemma moved_group {A} index i x off g (ys : list A) :
  nget index i = Some x ->
  moved index (zip (placed i off (map as_placed g)) ys) = if (x =? u32_max)%N then [] else zip (placed x off (map as_placed g)) ys.
Proof.
  intros Hx. assert (Hto : forall info, chunk_index info = i -> moved_to index info = if (x =? u32_max)%N then None else Some x).
  { intros info <-. unfold moved_to. by rewrite Hx. }
  unfold moved. destruct (x =? u32_max)%N.
  all: revert off ys; induction g as [|y g IH]; intros off ys; [done|]; destruct ys as [|z ys]; [done|]; cbn; rewrite Hto by done; cbn.
  - apply IH.
  - f_equal. apply IH.
Qed.

Lemma placed_from_cons i g groups : placed_from i (g :: groups) = placed i 0 (map as_placed g) ++ placed_from (i + 1) groups.
Proof. done. Qed.
Lemma zip_app_eq {A B} (l1 l2 : list A) (k1 k2 : list B) : length l1 = length k1 -> zip (l1 ++ l2) (k1 ++ k2) = zip l1 k1 ++ zip l2 k2.
Proof. intros H. by apply zip_with_app. Qed.
Lemma placed_length index off g : length (placed index off (map as_placed g)) = length g.
Proof. revert off. induction g as [|x g IH]; intros off; cbn; [done|]. by rewrite IH. Qed.

Lemma moved_groups {A} index i j groups (ys : list (list A)) live :
  Forall2 (fun g y => length g = length y) groups ys -> length live = length groups -> (j + nlen groups < u32_max)%N ->
  (forall k (b : bool), live !! k = Some b -> nget index (i + N.of_nat k) = Some (if b then j + lives k live else u32_max)%N) ->
  moved index (zip (placed_from i groups) (mjoin ys))
  = zip (placed_from j (live_of (zip groups live))) (mjoin (live_of (zip ys live))).
Proof.
  intros Hl. revert i j live. induction Hl as [|g y groups ys Hg Hl IH]; intros i j [|b live] Hlen Hmax Hidx; try done.
  rewrite nlen_cons in Hmax. cbn in Hlen. cbn [zip zip_with]. rewrite !live_of_cons, placed_from_cons, mjoin_cons.
  rewrite zip_app_eq, moved_app by (by rewrite placed_length).
  pose proof (Hidx 0 b eq_refl) as H0. rewrite N.add_0_r in H0. change (lives 0 (b :: live)) with 0%N in H0. rewrite N.add_0_r in H0.
  rewrite (moved_group _ _ _ _ _ _ H0).
  assert (Hnext : forall k (c : bool), live !! k = Some c ->
    nget index (i + 1 + N.of_nat k) = Some (if c then (j + if b then 1 else 0) + lives k live else u32_max)%N).
  { intros k c Hk. replace (i + 1 + N.of_nat k)%N with (i + N.of_nat (S k))%N by lia. rewrite (Hidx (S k) c Hk). destruct c; [|done].
    unfold lives. cbn. destruct b; cbn; [rewrite nlen_cons|]; f_equal; lia. }
  destruct b.
  - rewrite (IH _ (j + 1)%N live) by (done || lia). destruct (N.eqb_spec j u32_max); [lia|]. cbn [app].
    change ([g] ++ live_of (zip groups live)) with (g :: live_of (zip groups live)).
    rewrite placed_from_cons, mjoin_cons, zip_app_eq by (by rewrite placed_length). done.
  - rewrite (IH _ j live); [done|lia|lia|]. intros k c Hk. rewrite (Hnext k c Hk). by rewrite N.add_0_r.
Qed.

Lemma live_of_map {A B} (f : A -> B) l live : live_of (zip (map f l) live) = map f (live_of (zip l live)).
Proof.
  revert live. induction l as [|x l IH]; intros [|b live]; try done. cbn [map zip zip_with]. rewrite !live_of_cons, map_app, IH.
  by destruct b.
Qed.
Lemma live_of_Forall {A} (P : A -> Prop) l live : Forall P l -> Forall P (live_of (zip l live)).
Proof.
  intros H. revert live. induction H as [|x l Hx _ IH]; intros [|b live]; try by constructor. cbn [zip zip_with]. rewrite live_of_cons.
  destruct b; [by constructor|apply IH].
Qed.
Lemma live_of_Forall2 {A B} (P : A -> B -> Prop) l k live : Forall2 P l k -> Forall2 P (live_of (zip l live)) (live_of (zip k live)).
Proof.
  intros H. revert live. induction H as [|x y l k Hx _ IH]; intros [|b live]; try by constructor. cbn [zip zip_with]. rewrite !live_of_cons.
  destruct b; [by constructor|apply IH].
Qed.
Lemma Forall2_mjoin {A B} (P : A -> B -> Prop) ls ks : Forall2 (Forall2 P) ls ks -> Forall2 P (mjoin ls) (mjoin ks).
Proof. induction 1; [constructor|]. rewrite !mjoin_cons. by apply Forall2_app. Qed.
Lemma Forall2_Forall2_flip {A B} (P : A -> B -> Prop) ls ks : Forall2 (Forall2 (flip P)) ks ls -> Forall2 (Forall2 P) ls ks.
Proof. induction 1; constructor; [by apply Forall2_flip|done]. Qed.
Lemma Forall_mjoin {A} (P : A -> Prop) ls : Forall P (mjoin ls) <-> Forall (Forall P) ls.
Proof. induction ls as [|l ls IH]; [by split; constructor|]. by rewrite mjoin_cons, Forall_app, Forall_cons, IH. Qed.
Lemma zip_fst_eq {A B} (l : list A) (k : list B) : length l = length k -> map fst (zip l k) = l.
Proof. intros H. apply fst_zip. lia. Qed.
Lemma zip_snd_eq {A B} (l : list A) (k : list B) : length l = length k -> map snd (zip l k) = k.
Proof. intros H. apply snd_zip. lia. Qed.
Lemma placed_from_length i groups : length (placed_from i groups) = length (mjoin groups).
Proof.
  revert i. induction groups as [|g groups IH]; intros i; [done|]. by rewrite placed_from_cons, mjoin_cons, !length_app, IH, placed_length.
Qed.
Lemma nlen_mjoin_le {A} (groups : list (list A)) : Forall (fun g => g <> []) groups -> (nlen groups <= nlen (mjoin groups))%N.
Proof.
  induction 1 as [|g groups Hg _ IH]; [done|]. rewrite mjoin_cons, nlen_app, nlen_cons. destruct g; [done|]. rewrite nlen_cons. lia.
Qed.

Section tail.
Context (cas_hash : bytes -> string) (decompress : bytes -> N -> Result bytes) (content : string -> bytes).
#[local] Notation bundles_exact := (bundles_exact cas_hash decompress).

Lemma bundles_exact_length groups bundles infos archive :
  bundles_exact groups bundles infos archive ->
  length bundles = length groups /\ length infos = length (mjoin groups) /\ length archive = length (mjoin groups) /\
  (nlen groups <= nlen archive)%N.
Proof.
  intros [Hf Hi Hb Hg _]. rewrite Hb, Hi, placed_from_all, length_map, placed_from_length, <- (Forall2_length _ _ _ Hf). split_and!; try done.
  etransitivity; [apply nlen_mjoin_le; eapply Forall_impl; [exact Hg|]; by intros g []|].
  unfold nlen. by rewrite (Forall2_length _ _ _ Hf).
Qed.

(** The live bundles of an exact archive, renumbered. *)
Lemma live_exact groups bundles infos archive live index bundles' at_ infos' archive' :
  bundles_exact groups bundles infos archive -> length live = length bundles -> (nlen archive < u32_max)%N ->
  renumber_bundles (zip bundles live) [] = Ok (index, bundles') ->
  renumber_frames index (zip infos archive) [] [] = Ok (at_, infos', archive') ->
  let groups' := live_of (zip groups live) in
  bundles_exact groups' bundles' infos' archive' /\
  forall k info, nget infos k = Some info -> nget live (chunk_index info) = Some true ->
    exists p, nget at_ k = Some p /\ nget (mjoin groups') p = nget (mjoin groups) k.
Proof.
  intros Hex Hlive Hmax Hb Hf groups'. destruct (bundles_exact_length _ _ _ _ Hex) as (Hlb & Hli & Hla & Hcount).
  destruct Hex as [Hfr Hin Hbu Hgr Hw]. apply renumber_bundles_ok in Hb as (-> & _ & Hidx).
  apply renumber_frames_ok in Hf as (-> & -> & Hat); [|done]. cbn [app].
  assert (Hindex : forall k (b : bool), live !! k = Some b -> nget index (0 + N.of_nat k) = Some (if b then 0 + lives k live else u32_max)%N).
  { intros k b Hk. unfold nget. replace (N.to_nat (0 + N.of_nat k)) with k by lia.
    assert (exists h, zip bundles live !! k = Some (h, b)) as [h Hz].
    { destruct (lookup_lt_is_Some_2 bundles k) as [h Hh]; [rewrite <- Hlive; by eapply lookup_lt_Some|]. exists h. by apply lookup_zip_Some. }
    rewrite (Hidx _ _ Hz). cbn [snd]. rewrite lives_zip by done. by destruct b. }
  assert (Hmoved : forall {A} (ys : list (list A)), Forall2 (fun g y => length g = length y) groups ys ->
    moved index (zip infos (mjoin ys)) = zip (placed_from 0 groups') (mjoin (live_of (zip ys live)))).
  { intros A ys Hys. rewrite Hin, placed_from_all. apply moved_groups; [done|lia|lia|done]. }
  apply Forall2_flip, split_groups in Hfr as (agroups & <- & Hag%Forall2_Forall2_flip).
  assert (Hlen : Forall2 (fun (g : list (bytes * bytes)) (y : list ArchiveFrame) => length g = length y) groups agroups).
  { eapply Forall2_impl; [exact Hag|]. intros g y Hgy. by eapply Forall2_length. }
  assert (Hrefl : Forall2 (fun (g y : list (bytes * bytes)) => length g = length y) groups groups) by (clear; induction groups; by constructor).
  assert (Hl' : length (placed_from 0 groups') = length (mjoin (live_of (zip agroups live)))).
  { rewrite placed_from_length. apply (Forall2_length (frame_of cas_hash decompress)), Forall2_mjoin. by apply live_of_Forall2. }
  rewrite (Hmoved _ agroups Hlen). split.
  - constructor.
    + rewrite zip_snd_eq by done. apply Forall2_mjoin. by apply live_of_Forall2.
    + by rewrite zip_fst_eq, placed_from_all.
    + rewrite Hbu. apply live_of_map.
    + by apply live_of_Forall.
    + apply Forall_mjoin, live_of_Forall. by apply Forall_mjoin.
  - intros k info Hk Hlv.
    assert (exists x, nget (mjoin groups) k = Some x) as [x Hx].
    { apply lookup_lt_is_Some_2. rewrite <- Hli. by eapply lookup_lt_Some. }
    assert (exists f, nget (mjoin agroups) k = Some f) as [f Hf].
    { apply lookup_lt_is_Some_2. rewrite Hla, <- Hli. by eapply lookup_lt_Some. }
    assert (Hto : exists y, moved_to index info = Some y).
    { unfold moved_to. pose proof (Hindex (N.to_nat (chunk_index info)) true Hlv) as Hi. rewrite N2Nat.id, N.add_0_l in Hi. rewrite Hi. cbn.
      rewrite N.add_0_l. destruct (N.eqb_spec (lives (N.to_nat (chunk_index info)) live) u32_max) as [E|]; [|eauto].
      pose proof (lives_le (N.to_nat (chunk_index info)) live) as Hle. unfold nlen in Hle, Hcount, Hmax. lia. }
    destruct Hto as [y Hy].
    assert (Hz : zip infos (mjoin groups) !! N.to_nat k = Some (info, x)) by (by apply lookup_zip_Some).
    assert (Hz' : zip infos (mjoin agroups) !! N.to_nat k = Some (info, f)) by (by apply lookup_zip_Some).
    exists (nlen (moved index (take (N.to_nat k) (zip infos (mjoin agroups))))).
    pose proof (Hat _ _ Hz') as Hat'. cbn [fst] in Hat'. rewrite Hy in Hat'. split; [exact Hat'|].
    pose proof (moved_lookup index _ _ _ _ Hz Hy) as Hm. rewrite (Hmoved _ groups Hrefl) in Hm. apply lookup_zip_Some in Hm as [_ Hm]. cbn in Hm.
    unfold nget in *. rewrite Hx, <- Hm. f_equal. unfold nlen. rewrite Nat2N.id. apply moved_length. rewrite <- !firstn_map, !zip_fst_eq; [done|lia..].
Qed.

(** Bundles behind others. *)
Lemma placed_from_shift i n groups :
  (i + n + nlen groups <= u32_max)%N -> placed_from (i + n) groups = map (shift_info n) (placed_from i groups).
Proof.
  revert i. induction groups as [|g groups IH]; intros i H; [done|]. rewrite nlen_cons in H.
  rewrite !placed_from_cons, map_app. f_equal.
  - assert (Hadd : add_u32 i n = (i + n)%N) by (unfold add_u32; rewrite N.mod_small; [done|unfold u32_max in H; lia]).
    generalize 0%N. clear -Hadd. induction g as [|x g IH]; intros off; [done|]. cbn [map placed].
    f_equal; [unfold shift_info; cbn [chunk_index]; by rewrite Hadd|apply IH].
  - replace (i + n + 1)%N with (i + 1 + n)%N by lia. apply IH. lia.
Qed.
Lemma placed_from_app i g1 g2 : placed_from i (g1 ++ g2) = placed_from i g1 ++ placed_from (i + nlen g1) g2.
Proof.
  revert i. induction g1 as [|g g1 IH]; intros i; [by rewrite N.add_0_r|]. cbn [app]. rewrite !placed_from_cons, IH, nlen_cons, app_assoc.
  do 2 f_equal. lia.
Qed.
Lemma bundles_exact_app g1 g2 b1 b2 i1 i2 a1 a2 :
  bundles_exact g1 b1 i1 a1 -> bundles_exact g2 b2 i2 a2 -> (nlen (a1 ++ a2) <= u32_max)%N ->
  bundles_exact (g1 ++ g2) (b1 ++ b2) (i1 ++ map (shift_info (nlen b1)) i2) (a1 ++ a2).
Proof.
  intros H1 H2 Hmax. destruct (bundles_exact_length _ _ _ _ H1) as (Hb1 & _ & _ & Hc1). destruct (bundles_exact_length _ _ _ _ H2) as (_ & _ & _ & Hc2).
  destruct H1 as [F1 I1 B1 G1 W1], H2 as [F2 I2 B2 G2 W2]. rewrite nlen_app in Hmax. constructor.
  - rewrite join_app. by apply Forall2_app.
  - rewrite I1, I2, !placed_from_all, placed_from_app. f_equal. assert (nlen b1 = nlen g1) as -> by (unfold nlen; by rewrite Hb1).
    symmetry. apply placed_from_shift. lia.
  - by rewrite B1, B2, map_app.
  - by apply Forall_app.
  - rewrite join_app. by apply Forall_app.
Qed.

(** Fragments of the same bytes elsewhere. *)
Lemma piece_moved raws raws' f f' :
  nget raws' (frame_index f') = nget raws (frame_index f) -> frame_offset f' = frame_offset f -> fg_raw_len f' = fg_raw_len f ->
  piece_in raws f -> piece_in raws' f' /\ piece raws' f' = piece raws f.
Proof. intros E1 E2 E3 (raw & Hr & Hle). unfold piece_in, piece. rewrite E1, E2, E3. eauto. Qed.
Lemma pieces_moved raws raws' l l' :
  Forall2 (fun f f' => nget raws' (frame_index f') = nget raws (frame_index f) /\ frame_offset f' = frame_offset f /\ fg_raw_len f' = fg_raw_len f) l l' ->
  Forall (piece_in raws) l -> Forall (piece_in raws') l' /\ map (piece raws') l' = map (piece raws) l.
Proof.
  induction 1 as [|f f' l l' (E1 & E2 & E3) _ IH]; intros Hl; [done|]. apply Forall_cons in Hl as [Hf Hl].
  destruct (piece_moved raws raws' f f' E1 E2 E3 Hf) as [H1 H2]. destruct (IH Hl) as [H3 H4]. split; [by constructor|]. cbn. by rewrite H2, H4.
Qed.
(** The fragments of a blob. *)
Definition blob_pieces (raws : list bytes) (oid : string) (frs : list Fragment) : Prop :=
  frs <> [] /\ Forall (piece_in raws) frs /\ mjoin (map (piece raws) frs) = content oid.
Lemma blob_pieces_moved raws raws' oid l l' :
  Forall2 (fun f f' => nget raws' (frame_index f') = nget raws (frame_index f) /\ frame_offset f' = frame_offset f /\ fg_raw_len f' = fg_raw_len f) l l' ->
  blob_pieces raws oid l -> blob_pieces raws' oid l'.
Proof.
  intros Hl (Hne & Hin & Hc). destruct (pieces_moved _ _ _ _ Hl Hin) as [H1 H2]. split_and!; [|done|by rewrite H2].
  intros ->. inversion Hl; subst. done.
Qed.

Context (Hhash : forall x y s t, cas_hash x +:+ s = cas_hash y +:+ t -> x = y).
Context (find_blob : string -> Result bytes) (blob_size : string -> Result N) (cdc : bytes -> list (N * N))
  (zstd_encode : bytes -> Result bytes) (Htools : tools_ok decompress content find_blob blob_size cdc zstd_encode).

(** What the tail's state holds while it is made. *)
Record tail_exact (groups : list (list (bytes * bytes))) (tail : Tail) : Prop := {
  te_bundles : bundles_exact groups (tl_bundles tail) (tl_infos tail) (tl_frames tail);
  te_fragments : forall oid frs, tl_fragments tail !! oid = Some frs -> blob_pieces (map fst (mjoin groups)) oid frs;
}.

Lemma tail_inserts n l (m : gmap string (list Fragment)) oid frs :
  foldl (fun m '(blob, file) => <[b_oid blob := map (shift_fragment n) (fragments file)]> m) m l !! oid = Some frs ->
  m !! oid = Some frs \/ exists (blob : Blob) file, (blob, file) ∈ l /\ b_oid blob = oid /\ frs = map (shift_fragment n) (fragments file).
Proof.
  revert m. induction l as [|[blob file] l IH]; intros m H; cbn in H; [by left|].
  apply IH in H as [H|(b & f & Hin & H)]; [|right; exists b, f; split; [by right|done]].
  apply lookup_insert_Some in H as [[H1 H2]|[_ H]]; [right; exists blob, file; split; [by left|done]|by left].
Qed.

Lemma nget_app_r {A} (l k : list A) i : nget (l ++ k) (i + nlen l) = nget k i.
Proof. unfold nget, nlen. rewrite lookup_app_r by lia. f_equal. lia. Qed.
Lemma nget_app_l {A} (l k : list A) i x : nget l i = Some x -> nget (l ++ k) i = Some x.
Proof. unfold nget. apply lookup_app_l_Some. Qed.

Lemma stream_tail_exact local_range blobs size tail groups tail' :
  bundles_exact groups (tl_bundles tail) (tl_infos tail) (tl_frames tail) ->
  (forall oid frs, tl_fragments tail !! oid = Some frs ->
     content oid = [] /\ frs = [at_start] /\ (tl_frames tail <> [] \/ blobs <> [])) ->
  stream_tail cas_hash zstd_encode local_range find_blob cdc blobs (sizes_of content blobs) size tail = Ok tail' ->
  (nlen (tl_frames tail') <= u32_max)%N ->
  exists groups', tail_exact (groups ++ groups') tail'.
Proof.
  intros Hex Hempty H Hmax.
  assert (Hstart : forall raws oid, raws <> [] -> content oid = [] -> blob_pieces raws oid [at_start]).
  { intros raws oid Hne Hc. destruct raws as [|raw raws]; [done|]. split_and!; [done| |].
    - constructor; [|done]. exists raw. split; [done|]. cbn. lia.
    - by rewrite Hc. }
  assert (Hframes : tl_frames tail <> [] -> map fst (mjoin groups) <> []).
  { intros Hne E. destruct (bundles_exact_length _ _ _ _ Hex) as (_ & _ & Hl & _). apply (f_equal length) in E. rewrite length_map in E.
    rewrite E in Hl. by destruct (tl_frames tail). }
  destruct (decide (blobs = [])) as [->|Hbne].
  { cbn in H. injection H as <-. exists []. rewrite app_nil_r. constructor; [done|]. intros oid frs Hf.
    destruct (Hempty _ _ Hf) as (Hc & -> & [Hne|?]); [|done]. apply Hstart; auto. }
  unfold stream_tail in H. assert (Hm : forall X (e x : X), match blobs with [] => e | _ => x end = x) by (intros; by destruct blobs).
  rewrite Hm in H. clear Hm.
  apply rbind_ok in H as (ly & Hly & H). apply rbind_ok in H as ([built bounds] & Hs & H). apply rbind_ok in H as (bd & Hbd & H).
  apply rbind_ok in H as (fb & Hfb & H). apply context_ok, try_from_Some in Hfb as [-> _].
  apply rbind_ok in H as (bb & Hbb & H). apply context_ok, try_from_Some in Hbb as [-> _].
  apply rbind_ok in H as (table & Htable & H). injection H as <-. cbn [tl_frames] in Hmax.
  destruct (stream_frames_exact cas_hash decompress content Hhash find_blob blob_size cdc zstd_encode Htools None blobs [] ly built bounds)
    as [Hfr Hbo]; [done|exact Hly|exact Hs|].
  destruct (bundled_table cas_hash decompress content Hhash local_range None None size blobs [] ly bounds built bd table)
    as (groups' & Hb & Hfiles & _ & Hmap & _); try done.
  { rewrite nlen_app in Hmax. lia. }
  { destruct (Layout_new_placed _ _ _ _ Hly) as (-> & _). by destruct blobs. }
  exists groups'. constructor; cbn [tl_bundles tl_infos tl_frames tl_fragments].
  - by apply bundles_exact_app.
  - rewrite join_app, map_app. intros oid frs [Hf|(blob & file & Hin & <- & ->)]%tail_inserts.
    + destruct (Hempty _ _ Hf) as (Hc & -> & _). apply Hstart; [|done]. intros E. apply app_nil in E as [_ E].
      destruct Hfr as [_ Hbuilt]. apply (Hbo Hbne). pose proof (bundles_exact_length _ _ _ _ Hb) as (_ & _ & Hl & _).
      apply (f_equal length) in E. rewrite length_map in E.
      destruct blobs as [|b1 blobs1]; [done|]. destruct (files table) as [|file files_]; [done|]. apply Forall_cons in Hfiles as [(Hne & Hin & _) _].
      destruct (fragments file) as [|fr l]; [done|]. apply Forall_cons in Hin as [(raw & Hr & _) _]. unfold nget in Hr.
      apply lookup_lt_Some in Hr. rewrite length_map, E in Hr. cbn in Hr. lia.
    + assert (Hblobs : ly_blobs ly = blobs) by (by destruct (Layout_new_placed _ _ _ _ Hly) as (-> & _)).
      rewrite Hblobs in Hin. apply list_elem_of_lookup in Hin as [i Hi]. apply lookup_zip_Some in Hi as [Hi1 Hi2].
      assert (Hoid : b_oid blob = blob_sha1 file).
      { rewrite <- Hmap in Hi1. rewrite (list_lookup_fmap (fun f => (fe_path f, blob_sha1 f, fe_mode f))), Hi2 in Hi1. by injection Hi1 as <-. }
      rewrite Hoid. rewrite Forall_forall in Hfiles. apply list_elem_of_lookup_2 in Hi2. specialize (Hfiles file Hi2).
      eapply blob_pieces_moved; [|exact Hfiles]. destruct Hfiles as (_ & Hin & _).
      assert (Hl : nlen (tl_frames tail) = nlen (map fst (mjoin groups))).
      { destruct (bundles_exact_length _ _ _ _ Hex) as (_ & _ & Hl & _). unfold nlen. by rewrite length_map, Hl. }
      assert (Hl' : nlen (bd_frames bd) = nlen (map fst (mjoin groups'))).
      { destruct (bundles_exact_length _ _ _ _ Hb) as (_ & _ & Hl' & _). unfold nlen. by rewrite length_map, Hl'. }
      rewrite nlen_app in Hmax. clear -Hin Hl Hl' Hmax. induction Hin as [|f l (raw & Hr & _) _ IH]; cbn; constructor; [|done].
      split_and!; [|done|done]. cbn [shift_fragment frame_index]. unfold add_u32.
      assert (Hlt : (frame_index f < nlen (bd_frames bd))%N).
      { rewrite Hl'. unfold nget in Hr. apply lookup_lt_Some in Hr. unfold nlen. lia. }
      rewrite N.mod_small by (unfold u32_max in Hmax; lia). rewrite Hl. apply nget_app_r.
Qed.

(** Blobs with their sizes, some of them. *)
Definition sized_ok_ (x : Blob * N) : Prop := x.2 = nlen (content (b_oid x.1)).
Lemma sized_blobs blobs : Forall sized_ok_ (zip blobs (sizes_of content blobs)).
Proof. induction blobs as [|b blobs IH]; [constructor|]. by constructor. Qed.
Lemma sized_sizes l : Forall sized_ok_ l -> map snd l = sizes_of content (map fst l).
Proof. induction 1 as [|x l Hx _ IH]; [done|]. cbn. by rewrite IH, Hx. Qed.
Lemma starts_lookup (l : list (Blob * N)) (m : gmap string (list Fragment)) oid frs :
  foldl (fun m x => <[b_oid x.1 := [at_start]]> m) m l !! oid = Some frs ->
  m !! oid = Some frs \/ (frs = [at_start] /\ exists x, x ∈ l /\ b_oid x.1 = oid).
Proof.
  revert m. induction l as [|x l IH]; intros m H; cbn in H; [by left|].
  apply IH in H as [H|(-> & y & Hy & <-)]; [|right; split; [done|]; exists y; split; [by right|done]].
  apply lookup_insert_Some in H as [[H1 <-]|[_ H]]; [right; split; [done|]; exists x; split; [by left|done]|by left].
Qed.

(** The fragments a file keeps, with their frames' new indexes. *)
Lemma renumbered raws raws' (at_ : list N) oid l l' :
  (forall f, f ∈ l -> exists p, nget at_ (frame_index f) = Some p /\ nget raws' p = nget raws (frame_index f)) ->
  collect (fun f => let? i := context (nget at_ (frame_index f)) "index out of bounds" in
                    Ok {| frame_index := i; frame_offset := frame_offset f; fg_raw_len := fg_raw_len f |}) l = Ok l' ->
  blob_pieces raws oid l -> blob_pieces raws' oid l'.
Proof.
  intros Hat H%collect_ok. apply blob_pieces_moved. induction H as [|f f' l l' Hf _ IH]; constructor.
  - apply rbind_ok in Hf as (i & Hi%context_ok & Hf). injection Hf as <-. cbn. destruct (Hat f) as (p & Hp & Hr); [by left|].
    rewrite Hi in Hp. injection Hp as <-. done.
  - apply IH. intros g Hg. apply Hat. by right.
Qed.

Lemma kept_fragments_cons o l : kept_fragments (o :: l) = default [] o ++ kept_fragments l.
Proof. by destruct o. Qed.
Lemma tail_table raws raws' base at_ fragments_ blobs entries :
  Forall (file_of content raws) (files (ab_metadata base)) ->
  (forall f, f ∈ kept_fragments (map (fun b => base_fragments base !! b_oid b) blobs) ->
     exists p, nget at_ (frame_index f) = Some p /\ nget raws' p = nget raws (frame_index f)) ->
  (forall oid frs, fragments_ !! oid = Some frs -> blob_pieces raws' oid frs) ->
  collect (tail_file at_ fragments_) (zip blobs (map (fun b => base_fragments base !! b_oid b) blobs)) = Ok entries ->
  Forall (file_of content raws') entries /\ map (fun f => (fe_path f, blob_sha1 f, fe_mode f)) entries = blobs.
Proof.
  intros Hbase. revert entries. induction blobs as [|b blobs IH]; intros entries Hat Hfr H; cbn in H; [by injection H as <-|].
  apply rbind_ok in H as (entry & He & H). apply rbind_ok in H as (rest & Hrest & H). injection H as <-.
  destruct (IH rest) as [IH1 IH2]; [|done|done|].
  { intros f Hf. apply Hat. cbn [map]. rewrite kept_fragments_cons. apply elem_of_app. by right. }
  apply rbind_ok in He as (frs & Hfrs & He). injection He as <-. split; [|cbn; rewrite IH2; by destruct b as [[? ?] ?]].
  constructor; [|done]. change (blob_pieces raws' (b_oid b) frs).
  destruct (base_fragments base !! b_oid b) as [old|] eqn:E.
  - apply base_fragments_ok in E as Hb. destruct Hb as (f & Hf & Hsha & <-). rewrite Forall_forall in Hbase. specialize (Hbase f Hf).
    eapply renumbered; [|exact Hfrs|rewrite <- Hsha; exact Hbase]. intros g Hg. apply Hat. cbn [map].
    rewrite kept_fragments_cons, E. apply elem_of_app. by left.
  - apply context_ok in Hfrs. by apply Hfr.
Qed.

Lemma build_tail_exact local_range records base groups target out written :
  archive_exact cas_hash decompress content base groups -> (nlen (ab_frames base) < u32_max)%N ->
  build_tail_into_cas cas_hash zstd_encode local_range find_blob blob_size cdc records base target = Ok (out, written) ->
  (nlen (archive_frames out) < u32_max)%N ->
  exists groups', archive_exact cas_hash decompress content (output_archive out) groups' /\ table_of records (ao_metadata out).
Proof.
  intros [Hex Hfiles] Hbmax H Hmax. unfold build_tail_into_cas, table_of in *. destruct (collect_blobs records) as [blobs links].
  destruct (_ =? _)%N; [|done]. destruct (split_tail _ blobs) as [kept tail_blobs] eqn:Esplit. apply split_tail_ok in Esplit as ->.
  set (kept := map _ blobs) in *.
  apply rbind_ok in H as (live & Hlive & H). apply rbind_ok in H as ([index bundles] & Hb & H).
  apply rbind_ok in H as ([[at_ infos] archive] & Hf & H). apply rbind_ok in H as (sizes & Hsizes & H).
  apply live_bundles_ok in Hlive as (Hll & _ & Hlv). rewrite repeat_length in Hll.
  destruct (live_exact _ _ _ _ _ _ _ _ _ _ Hex Hll Hbmax Hb Hf) as [Hlex Hat]. clear Hb Hf. set (groups1 := live_of _) in *.
  apply (sizes_collected _ _ _ _ _ _ Htools) in Hsizes as ->.
  set (sized := zip tail_blobs _) in *. pose proof (sized_blobs tail_blobs) as Hsized. fold sized in Hsized.
  match type of H with (let '(_, _) := ?p in _) = _ => destruct p as [empty full] eqn:Epart end.
  assert (Hpart : Forall sized_ok_ full /\ forall x, x ∈ empty -> content (b_oid x.1) = [] /\ (archive <> [] \/ map fst full <> [])).
  { destruct (negb _ || _) eqn:E in Epart; injection Epart as <- <-; [|split; [done|by intros x ?%elem_of_nil]].
    rewrite Forall_forall in Hsized. split.
    - apply list.Forall_forall. intros x [Hx _]%elem_of_lfilter. auto.
    - intros x [Hx Hz%N.eqb_eq]%elem_of_lfilter. split.
      + specialize (Hsized x Hx). unfold sized_ok_ in Hsized. rewrite Hz in Hsized. unfold nlen in Hsized. by destruct (content _).
      + apply orb_true_iff in E as [E%negb_true_iff%bool_decide_eq_false|E]; [by left|right].
        apply existsb_elem in E as (n & Hn & Hpos%N.ltb_lt). unfold sizes_of in Hn. apply elem_of_lmap in Hn as (b & -> & Hb).
        assert (Hin : (b, nlen (content (b_oid b))) ∈ sized).
        { subst sized. unfold sizes_of. clear -Hb. induction tail_blobs as [|c l IH]; [by apply elem_of_nil in Hb|].
          apply elem_of_cons in Hb as [->|Hb]; [by left|right; by apply IH]. }
        intros Hnil. apply map_eq_nil in Hnil. assert (Hfull : (b, nlen (content (b_oid b))) ∈ List.filter (fun x => negb (x.2 =? 0)%N) sized).
        { apply elem_of_lfilter. split; [done|]. cbn. apply negb_true_iff, N.eqb_neq. lia. }
        rewrite Hnil in Hfull. by apply elem_of_nil in Hfull. }
  destruct Hpart as [Hfull Hempty]. apply rbind_ok in H as (tail & Htail & H). apply rbind_ok in H as (entries & Hentries & H).
  injection H as <- <-. cbn in Hmax |- *. rewrite (sized_sizes _ Hfull) in Htail.
  eapply (stream_tail_exact _ _ _ _ groups1) in Htail as (groups2 & [Htb Htf]); [|exact Hlex| |lia].
  2:{ intros oid frs Hfr. cbn in Hfr |- *. apply starts_lookup in Hfr as [?|(-> & x & Hx & <-)]; [done|]. destruct (Hempty x Hx). by split_and!. }
  exists (groups1 ++ groups2). destruct (tail_table (map fst (mjoin groups)) (map fst (mjoin (groups1 ++ groups2))) base at_ (tl_fragments tail) blobs entries)
    as [He1 He2]; [done| |done|done|by split_and!].
  intros f Hfk. destruct (Hlv f Hfk) as (info & Hinfo & Hl). destruct (Hat _ _ Hinfo Hl) as (p & Hp & Hpg). exists p. split; [done|].
  rewrite join_app, map_app. assert (exists x, nget (mjoin groups) (frame_index f) = Some x) as [x Hx].
  { apply lookup_lt_is_Some_2. destruct (bundles_exact_length _ _ _ _ Hex) as (_ & <- & _). by eapply lookup_lt_Some. }
  rewrite Hx in Hpg. unfold nget in *. rewrite (list_lookup_fmap fst), Hx. apply lookup_app_l_Some.
  by rewrite (list_lookup_fmap fst), Hpg.
Qed.
End tail.
