(* ===== verification/WorktreeWriter.v ===== *)
(** Writing files into a working tree ([rust/src/worktree_writer.rs]): the content
    of a write, its preparation and checks, and the regular files and symbolic
    links it leaves.

    A tree is the [FsTree] of Validation. A path through a symbolic link is an
    error here, where the operating system would follow it: the callers make every
    parent a real directory first. Times and the process's umask are not in the
    model. *)

From S2P Require Import Prelude Validation Outputs Manifest.

(** ** What is written *)
Record FileSlice := { fl_data : bytes; fl_offset : N; fl_len : N }.
Inductive FileWriteContent :=
  | Owned (content : bytes)
  | Shared (data : bytes) (offset len : N)
  | Fragments (l : list FileSlice).
Record OwnedFileWrite := { ow_entry : FileEntry; ow_content : FileWriteContent }.
Record WriteOptions := { parents_prepared : bool; stamp_mtime : bool; fresh_target : bool }.
Definition FRESH_INDEXED_CHECKOUT : WriteOptions :=
  {| parents_prepared := true; stamp_mtime := false; fresh_target := true |}.
(** The number of entries written, and the index stat entries, by path. *)
Record WriteOutcome := { wo_written : N; wo_stats : list string }.

(** [&data[offset..offset + len]]. *)
Definition slice_bytes (f : FileSlice) : bytes := slice (fl_data f) (fl_offset f) (fl_offset f + fl_len f).
(** [bytes_cow], and what [write_all_to] writes. *)
Definition bytes_cow (c : FileWriteContent) : bytes :=
  match c with
  | Owned content => content
  | Shared data offset len => slice data offset (offset + len)
  | Fragments l => mjoin (map slice_bytes l)
  end.

(** ** std::fs *)
Section fs.
(** Whether a symbolic link at a path, with this target, leads to something. *)
Context (link_resolves : FsTree -> list string -> bytes -> bool).

(** [Path::exists], which follows a link. *)
Definition path_exists (fs : FsTree) (p : list string) : bool :=
  match fs !! p with
  | Some (Symlink target) => link_resolves fs p target
  | Some _ => true
  | None => false
  end.
Definition remove_file (p : list string) : Stateful FsTree unit := fun fs =>
  match fs !! p with
  | Some (File _ _) | Some (Symlink _) => (base.delete p fs, Ok tt)
  | _ => (fs, Err "remove file")
  end.
(** [remove_file(p).ok()]. *)
Definition remove_file_ok (p : list string) : Stateful FsTree unit := fun fs => ((remove_file p fs).1, Ok tt).
(** [OpenOptions] with create, truncate and [O_NOFOLLOW], then [write_all]; an
    existing file keeps its permission bits. *)
Definition open_and_write (p : list string) (mode : N) (content : bytes) : Stateful FsTree unit := fun fs =>
  match fs !! removelast p with
  | Some Dir =>
      match fs !! p with
      | None => (<[p := File mode content]> fs, Ok tt)
      | Some (File perm _) => (<[p := File perm content]> fs, Ok tt)
      | Some _ => (fs, Err "open")
      end
  | _ => (fs, Err "open")
  end.
Definition symlink (target : bytes) (p : list string) : Stateful FsTree unit := fun fs =>
  match fs !! removelast p, fs !! p with
  | Some Dir, None => (<[p := Symlink target]> fs, Ok tt)
  | _, _ => (fs, Err "symlink")
  end.

(** ** The writer *)

(** A checked path's place under the root. *)
Definition target_path (root : list string) (path : string) : list string :=
  root ++ omap normal_name (components path).
(** [Path::parent] of a relative path, empty when it has none. *)
Definition parent_path (path : string) : string :=
  join_with "/" (removelast (omap normal_name (components path))).

Definition write_regular_content (target : list string) (mode : N) (content : FileWriteContent) : Stateful FsTree unit :=
  let! fs := get_fs in
  let! _ := if path_exists fs target then remove_file_ok target else sret tt in
  open_and_write target mode (bytes_cow content).

Definition write_symlink_entry (target : list string) (content : bytes) : Stateful FsTree unit :=
  let! fs := get_fs in
  let! _ := if path_exists fs target || is_symlink fs target then remove_file_ok target else sret tt in
  symlink content target.

Record PreparedRegularWrite := { pw_target : list string; pw_index_path : string; pw_mode : N; pw_content : FileWriteContent }.

(** The loop body of [prepare_owned_entries]. *)
Definition prepare_entry (root : list string) (options : WriteOptions) (acc : N * list PreparedRegularWrite)
    (write : OwnedFileWrite) : Stateful FsTree (N * list PreparedRegularWrite) :=
  let '(written, regulars) := acc in
  let path := fe_path (ow_entry write) in
  let! _ := lift (validate_relative_path path) in
  let! _ :=
    if negb (parents_prepared options) && negb (bool_decide (parent_path path = "")) then
      safe_create_dir_all root (parent_path path)
    else sret tt in
  let target := target_path root path in
  let! fs := get_fs in
  let! _ := if negb (fresh_target options) && is_symlink fs target then remove_file target else sret tt in
  if (fe_mode (ow_entry write) =? 40960)%N then
    let! _ := write_symlink_entry target (bytes_cow (ow_content write)) in
    sret ((written + 1)%N, regulars)
  else if (fe_mode (ow_entry write) =? 33261)%N || (fe_mode (ow_entry write) =? 33188)%N then
    let! fs := get_fs in
    let! _ := if negb (fresh_target options) && path_exists fs target then remove_file_ok target else sret tt in
    let mode := if (fe_mode (ow_entry write) =? 33261)%N then 493%N else 420%N in   (* 0o755, 0o644 *)
    sret ((written + 1)%N,
          regulars ++ [{| pw_target := target; pw_index_path := path; pw_mode := mode; pw_content := ow_content write |}])
  else sfail "refusing to extract file with illegal mode".

Definition prepare_owned_entries (root : list string) (writes : list OwnedFileWrite) (options : WriteOptions)
    : Stateful FsTree (N * list PreparedRegularWrite) :=
  sfold (prepare_entry root options) (0%N, []) writes.

(** [write_regular_batch]; stamping times is not in the model. *)
Definition write_regular_batch (writes : list PreparedRegularWrite) (options : WriteOptions)
    : Stateful FsTree (list string) :=
  sfold (fun stats write =>
    let! _ := write_regular_content (pw_target write) (pw_mode write) (pw_content write) in
    sret (if stamp_mtime options then stats else stats ++ [pw_index_path write])) [] writes.

Definition write_owned_entries (root : list string) (writes : list OwnedFileWrite) (options : WriteOptions)
    : Stateful FsTree WriteOutcome :=
  match writes with
  | [] => sret {| wo_written := 0; wo_stats := [] |}
  | _ =>
      let! (written, regulars) := prepare_owned_entries root writes options in
      let! stats := write_regular_batch regulars options in
      sret {| wo_written := written; wo_stats := stats |}
  end.
End fs.

(** ** What the writer leaves *)
Definition write_target (root : list string) (w : OwnedFileWrite) : list string := target_path root (fe_path (ow_entry w)).
(** The node an entry of a mode with a content becomes. *)
Definition node_of (mode : N) (content : bytes) : Node :=
  if (mode =? 40960)%N then Symlink content
  else File (if (mode =? 33261)%N then 493%N else 420%N) content.
Definition write_node (w : OwnedFileWrite) : Node := node_of (fe_mode (ow_entry w)) (bytes_cow (ow_content w)).
Definition is_link (w : OwnedFileWrite) : bool := (fe_mode (ow_entry w) =? 40960)%N.
(** The regular file [prepare_entry] puts off. *)
Definition regular_of (root : list string) (w : OwnedFileWrite) : PreparedRegularWrite :=
  {| pw_target := write_target root w; pw_index_path := fe_path (ow_entry w);
     pw_mode := if (fe_mode (ow_entry w) =? 33261)%N then 493%N else 420%N; pw_content := ow_content w |}.

(** The trees agree except at the paths of [l]. *)
Definition same_but (l : list (list string)) (fs fs' : FsTree) : Prop := forall p, p ∉ l -> fs' !! p = fs !! p.

Lemma same_but_refl l fs : same_but l fs fs.
Proof. by intros p _. Qed.
Lemma same_but_trans l k fs1 fs2 fs3 : same_but l fs1 fs2 -> same_but k fs2 fs3 -> same_but (l ++ k) fs1 fs3.
Proof. intros H1 H2 p Hp. rewrite elem_of_app in Hp. rewrite H2, H1; naive_solver. Qed.
Lemma same_but_mono l k fs fs' : l ⊆ k -> same_but l fs fs' -> same_but k fs fs'.
Proof. intros Hl H p Hp. apply H. set_solver. Qed.
Lemma same_but_one p fs fs1 fs2 : same_but [p] fs fs1 -> same_but [p] fs1 fs2 -> same_but [p] fs fs2.
Proof. intros H1 H2. apply (same_but_mono ([p] ++ [p])); [set_solver|by eapply same_but_trans]. Qed.

Section writer.
Context (link_resolves : FsTree -> list string -> bytes -> bool).

Lemma remove_file_same p fs : same_but [p] fs (remove_file p fs).1.
Proof.
  unfold remove_file. intros q Hq. destruct (fs !! p) as [[]|]; cbn; try done;
    rewrite lookup_delete_ne; [done|set_solver|done|set_solver].
Qed.
Lemma guarded_remove_same (b : bool) p fs fs' v :
  (if b then remove_file_ok p else sret tt) fs = (fs', Ok v) -> same_but [p] fs fs'.
Proof. destruct b; intros [= <-]; [apply remove_file_same|apply same_but_refl]. Qed.

Lemma open_and_write_ok p mode content fs fs' v :
  open_and_write p mode content fs = (fs', Ok v) ->
  same_but [p] fs fs' /\ exists perm, fs' !! p = Some (File perm content) /\ (fs !! p = None -> perm = mode).
Proof.
  unfold open_and_write. destruct (fs !! removelast p) as [[]|]; try done.
  destruct (fs !! p) as [[]|] eqn:E; intros [= <- _];
    (split; [intros q Hq; rewrite lookup_insert_ne; [done|set_solver]|]); rewrite lookup_insert_eq;
    eexists; (split; [done|]); done.
Qed.

(** A regular file is replaced, never written through a link: its mode and its
    content are the entry's. *)
Lemma write_regular_content_ok p mode c fs fs' v :
  write_regular_content link_resolves p mode c fs = (fs', Ok v) ->
  same_but [p] fs fs' /\ fs' !! p = Some (File mode (bytes_cow c)).
Proof.
  unfold write_regular_content. rewrite sbind_ok. intros (s1 & f & [= <- <-] & H).
  apply sbind_ok in H as (s2 & [] & Hr & H). pose proof (guarded_remove_same _ _ _ _ _ Hr) as Hs.
  pose proof (open_and_write_ok _ _ _ _ _ _ H) as (Hs' & perm & Hp & Hm). split; [by eapply same_but_one|].
  rewrite Hp, Hm; [done|]. clear Hp Hm Hs Hs'.
  unfold path_exists, remove_file_ok, remove_file in Hr. unfold open_and_write in H.
  destruct (fs !! p) as [[|perm0 c0|t]|] eqn:E; [|..|by injection Hr as <-].
  - rewrite E in Hr. injection Hr as <-. cbn in H. rewrite E in H. by destruct (fs !! removelast p) as [[]|].
  - rewrite E in Hr. injection Hr as <-. apply lookup_delete_eq.
  - destruct (link_resolves fs p t); [rewrite E in Hr|]; injection Hr as <-; [apply lookup_delete_eq|].
    rewrite E in H. by destruct (fs !! removelast p) as [[]|].
Qed.

Lemma write_symlink_entry_ok p content fs fs' v :
  write_symlink_entry link_resolves p content fs = (fs', Ok v) ->
  same_but [p] fs fs' /\ fs' !! p = Some (Symlink content).
Proof.
  unfold write_symlink_entry. rewrite sbind_ok. intros (s1 & f & [= <- <-] & H).
  apply sbind_ok in H as (s2 & [] & Hr & H). apply guarded_remove_same in Hr.
  unfold symlink in H. destruct (s2 !! removelast p) as [[]|]; try done. destruct (s2 !! p); [done|].
  injection H as <- _. rewrite lookup_insert_eq. split; [|done]. eapply same_but_one; [exact Hr|].
  intros q Hq. rewrite lookup_insert_ne; [done|set_solver].
Qed.

Lemma prepare_entry_ok root options n regs w fs fs' n' regs' :
  parents_prepared options = true ->
  prepare_entry link_resolves root options (n, regs) w fs = (fs', Ok (n', regs')) ->
  same_but [write_target root w] fs fs' /\ n' = (n + 1)%N /\
  (if is_link w then regs' = regs /\ fs' !! write_target root w = Some (write_node w)
   else regs' = regs ++ [regular_of root w]).
Proof.
  intros Hopt H. unfold prepare_entry in H. rewrite Hopt in H. cbn [negb andb] in H.
  apply sbind_ok in H as (s1 & [] & [-> _]%lift_ok & H).
  apply sbind_ok in H as (s2 & [] & [= <-] & H). apply sbind_ok in H as (s3 & f & [= <- <-] & H).
  apply sbind_ok in H as (s4 & [] & Hr & H).
  assert (Hs4 : same_but [write_target root w] fs s4).
  { destruct (_ && _) in Hr; [|by injection Hr as <-]. replace s4 with ((remove_file (write_target root w) fs).1); [apply remove_file_same|].
    unfold write_target. by rewrite Hr. }
  unfold is_link, write_node, node_of. destruct (_ =? 40960)%N eqn:El in H.
  - rewrite El. apply sbind_ok in H as (s5 & [] & Hl & H). injection H as <- <- <-.
    apply write_symlink_entry_ok in Hl as [Hs5 Hp]. split_and!; [by eapply same_but_one|done|done|done].
  - rewrite El. destruct (_ || _) in H; [|done]. apply sbind_ok in H as (s5 & f & [= <- <-] & H).
    apply sbind_ok in H as (s6 & [] & Hr6 & H). injection H as <- <- <-. apply guarded_remove_same in Hr6.
    split_and!; [by eapply same_but_one|done|done].
Qed.

Lemma prepare_owned_entries_ok root options writes n regs fs fs' n' regs' :
  parents_prepared options = true -> NoDup (map (write_target root) writes) ->
  sfold (prepare_entry link_resolves root options) (n, regs) writes fs = (fs', Ok (n', regs')) ->
  same_but (map (write_target root) writes) fs fs' /\ n' = (n + nlen writes)%N /\
  regs' = regs ++ map (regular_of root) (List.filter (fun w => negb (is_link w)) writes) /\
  Forall (fun w => is_link w = true -> fs' !! write_target root w = Some (write_node w)) writes.
Proof.
  intros Hopt. revert n regs fs. induction writes as [|w writes IH]; intros n regs fs Hnd H; cbn in H.
  { injection H as <- <- <-. split_and!; [apply same_but_refl|by rewrite N.add_0_r|by rewrite app_nil_r|constructor]. }
  cbn in Hnd. apply NoDup_cons in Hnd as [Hw Hnd].
  apply sbind_ok in H as (s1 & [n1 regs1] & H1 & H). apply prepare_entry_ok in H1 as (Hs1 & -> & H1); [|done].
  destruct (IH _ _ _ Hnd H) as (Hs & -> & -> & Hl). cbn. split_and!.
  - by apply (same_but_trans [_] _ _ _ _ Hs1 Hs).
  - rewrite nlen_cons. lia.
  - destruct (is_link w); [destruct H1 as [-> _]; done|]. subst regs1. cbn. by rewrite <- app_assoc.
  - constructor; [|done]. intros E. rewrite E in H1. destruct H1 as [_ H1]. by rewrite Hs.
Qed.

Lemma write_regular_batch_ok regs options acc fs fs' stats :
  NoDup (map pw_target regs) ->
  sfold (fun stats write =>
    let! _ := write_regular_content link_resolves (pw_target write) (pw_mode write) (pw_content write) in
    sret (if stamp_mtime options then stats else stats ++ [pw_index_path write])) acc regs fs = (fs', Ok stats) ->
  same_but (map pw_target regs) fs fs' /\
  Forall (fun r => fs' !! pw_target r = Some (File (pw_mode r) (bytes_cow (pw_content r)))) regs.
Proof.
  revert acc fs. induction regs as [|r regs IH]; intros acc fs Hnd H; cbn in H.
  { injection H as <- _. split; [apply same_but_refl|constructor]. }
  cbn in Hnd. apply NoDup_cons in Hnd as [Hr Hnd].
  apply sbind_ok in H as (s1 & acc1 & H1 & H). apply sbind_ok in H1 as (s2 & u & H1 & H1').
  injection H1' as <- _. apply write_regular_content_ok in H1 as [Hs1 Hp].
  destruct (IH _ _ Hnd H) as [Hs Hf]. cbn. split; [by apply (same_but_trans [_] _ _ _ _ Hs1 Hs)|].
  constructor; [|done]. by rewrite Hs.
Qed.

(** A batch that succeeds leaves every entry in its place, with its mode and
    content, and nothing else changed. *)
Lemma write_owned_entries_ok root writes options fs fs' outcome :
  parents_prepared options = true -> NoDup (map (write_target root) writes) ->
  write_owned_entries link_resolves root writes options fs = (fs', Ok outcome) ->
  same_but (map (write_target root) writes) fs fs' /\ wo_written outcome = nlen writes /\
  Forall (fun w => fs' !! write_target root w = Some (write_node w)) writes.
Proof.
  intros Hopt Hnd H. destruct writes as [|w0 ws]; [injection H as <- <-; split_and!; [apply same_but_refl|done|constructor]|].
  unfold write_owned_entries in H. set (writes := w0 :: ws) in *.
  apply sbind_ok in H as (s1 & [n regs] & Hp & H). apply sbind_ok in H as (s2 & stats & Hb & H). injection H as <- <-.
  apply prepare_owned_entries_ok in Hp as (Hs1 & -> & -> & Hl); [|done|done]. cbn [app] in Hb.
  set (regular := List.filter (fun w => negb (is_link w)) writes) in *.
  assert (Hsub : map pw_target (map (regular_of root) regular) = map (write_target root) regular) by by rewrite map_map.
  apply write_regular_batch_ok in Hb as [Hs2 Hf]; [|rewrite Hsub; by apply NoDup_map_filter].
  rewrite Hsub in Hs2. cbn. split_and!; [|lia|].
  - apply (same_but_mono (map (write_target root) writes ++ map (write_target root) regular)).
    + intros p [Hp|(w & -> & [Hw _]%elem_of_lfilter)%elem_of_lmap]%elem_of_app; [done|].
      apply (proj2 (elem_of_lmap (write_target root) writes _)). eauto.
    + by eapply same_but_trans.
  - apply Forall_forall. intros w Hw. rewrite Forall_forall in Hf. destruct (is_link w) eqn:El.
    + rewrite Hs2; [by apply (proj1 (Forall_forall _ writes) Hl)|]. intros (w' & Ht & [Hw' El']%elem_of_lfilter)%elem_of_lmap.
      rewrite (NoDup_map_inj (write_target root) writes w w') in El by done. by rewrite El in El'.
    + assert (Hr : regular_of root w ∈ map (regular_of root) regular).
      { apply elem_of_lmap. exists w. split; [done|]. apply elem_of_lfilter. by rewrite El. }
      specialize (Hf _ Hr). cbn in Hf. rewrite Hf. unfold write_node, node_of. unfold is_link in El. by rewrite El.
Qed.

(** ** When the writer succeeds *)

(** A new entry whose parent is a directory. *)
Record can_write (root : list string) (fs : FsTree) (w : OwnedFileWrite) : Prop := {
  cw_path : validate_relative_path (fe_path (ow_entry w)) = Ok tt;
  cw_mode : fe_mode (ow_entry w) ∈ ALLOWED_MODES;
  cw_parent : fs !! removelast (write_target root w) = Some Dir;
  cw_new : fs !! write_target root w = None;
}.
(** None of the entries is another one or its parent. *)
Definition apart (root : list string) (writes : list OwnedFileWrite) : Prop :=
  NoDup (map (write_target root) writes) /\
  forall w w', w ∈ writes -> w' ∈ writes -> removelast (write_target root w) <> write_target root w'.

Lemma can_write_same root fs fs' l w :
  same_but l fs fs' -> write_target root w ∉ l -> removelast (write_target root w) ∉ l ->
  can_write root fs w -> can_write root fs' w.
Proof. intros Hs Ht Hp [H1 H2 H3 H4]. constructor; [done|done|by rewrite Hs|by rewrite Hs]. Qed.
Lemma apart_cons root w writes : apart root (w :: writes) ->
  apart root writes /\ forall w', w' ∈ writes ->
    write_target root w' ∉ [write_target root w] /\ removelast (write_target root w') ∉ [write_target root w].
Proof.
  intros [[Hw Hnd]%NoDup_cons Hpar]. split.
  - split; [done|]. intros. apply Hpar; set_solver.
  - intros w' Hw'. split.
    + intros Heq%list_elem_of_singleton. apply Hw. rewrite <- Heq. apply elem_of_lmap. eauto.
    + intros Heq%list_elem_of_singleton. apply (Hpar w' w); set_solver.
Qed.

Lemma prepare_entry_total root options n regs w fs :
  parents_prepared options = true -> can_write root fs w ->
  exists fs', prepare_entry link_resolves root options (n, regs) w fs
      = (fs', Ok ((n + 1)%N, if is_link w then regs else regs ++ [regular_of root w])) /\
    if is_link w then fs' = <[write_target root w := write_node w]> fs else fs' = fs.
Proof.
  intros Hopt [Hv Hm Hp Hn]. unfold prepare_entry. rewrite Hopt, Hv. cbn [negb andb].
  unfold sbind at 1, lift, sbind at 1, sret at 1, sbind at 1, get_fs at 1.
  fold (write_target root w). assert (Hnl : is_symlink fs (write_target root w) = false) by (unfold is_symlink; by rewrite Hn).
  assert (Hne : path_exists link_resolves fs (write_target root w) = false) by (unfold path_exists; by rewrite Hn).
  rewrite Hnl, andb_false_r. unfold is_link, sbind at 1, sret at 1.
  destruct (_ =? 40960)%N eqn:El.
  - unfold sbind, write_symlink_entry, sbind, get_fs. rewrite Hne, Hnl. cbn [orb]. unfold sret, symlink. rewrite Hp, Hn.
    eexists. split; [done|]. unfold write_node, node_of. by rewrite El.
  - assert (Hreg : (fe_mode (ow_entry w) =? 33261)%N || (fe_mode (ow_entry w) =? 33188)%N = true).
    { unfold ALLOWED_MODES in Hm. set_unfold in Hm. destruct Hm as [E|[E|[E|[]]]]; rewrite E in El |- *; done. }
    rewrite Hreg.
    unfold sbind, get_fs. rewrite Hne, andb_false_r. unfold sret. eexists. split; [done|done].
Qed.

Lemma prepare_owned_entries_total root options writes n regs fs :
  parents_prepared options = true -> Forall (can_write root fs) writes -> apart root writes ->
  exists fs' acc, sfold (prepare_entry link_resolves root options) (n, regs) writes fs = (fs', Ok acc) /\
    same_but (map (write_target root) (List.filter is_link writes)) fs fs'.
Proof.
  intros Hopt. revert n regs fs.
  induction writes as [|w writes IH]; intros n regs fs Hw Hap; cbn [sfold]; [by eexists _, _|].
  apply Forall_cons in Hw as [Hw Hws]. destruct (prepare_entry_total root options n regs w fs Hopt Hw) as (fs1 & H1 & Hfs1).
  unfold sbind. rewrite H1. apply apart_cons in Hap as [Hap Hsep].
  assert (Hs1 : same_but (if is_link w then [write_target root w] else []) fs fs1).
  { destruct (is_link w); subst fs1; [|apply same_but_refl]. intros p Hpn. rewrite lookup_insert_ne; [done|set_solver]. }
  edestruct (IH (n + 1)%N) as (fs2 & acc & H2 & Hs2); [|exact Hap|rewrite H2].
  - apply Forall_forall. intros w' Hw'. rewrite Forall_forall in Hws. destruct (Hsep w' Hw') as [Ht Hp].
    eapply can_write_same; [exact Hs1|destruct (is_link w); set_solver|destruct (is_link w); set_solver|by apply Hws].
  - exists fs2, acc. split; [done|]. eapply same_but_mono; [|by eapply same_but_trans]. cbn. by destruct (is_link w).
Qed.

Lemma write_regular_batch_total root options writes acc fs :
  Forall (fun w => fs !! write_target root w = None /\ fs !! removelast (write_target root w) = Some Dir) writes ->
  apart root writes ->
  exists fs' stats, sfold (fun stats write =>
    let! _ := write_regular_content link_resolves (pw_target write) (pw_mode write) (pw_content write) in
    sret (if stamp_mtime options then stats else stats ++ [pw_index_path write])) acc (map (regular_of root) writes) fs
    = (fs', Ok stats).
Proof.
  revert acc fs. induction writes as [|w writes IH]; intros acc fs Hw Hap; cbn [sfold map]; [by eexists _, _|].
  apply Forall_cons in Hw as [[Hn Hp] Hws]. apply apart_cons in Hap as [Hap Hsep].
  unfold sbind at 1 2, write_regular_content, sbind at 1, get_fs, path_exists. cbn [pw_target regular_of].
  rewrite Hn. unfold sbind, sret, open_and_write. rewrite Hp, Hn. apply IH; [|done].
  apply Forall_forall. intros w' Hw'. rewrite Forall_forall in Hws. destruct (Hsep w' Hw') as [Ht Hpn].
  destruct (Hws w' Hw'). split; rewrite lookup_insert_ne; set_solver.
Qed.

(** A batch of new entries in existing directories is written. *)
Lemma write_owned_entries_total root writes options fs :
  parents_prepared options = true -> Forall (can_write root fs) writes -> apart root writes ->
  exists fs' outcome, write_owned_entries link_resolves root writes options fs = (fs', Ok outcome).
Proof.
  intros Hopt Hw Hap. destruct writes as [|w0 ws]; [by eexists _, _|]. unfold write_owned_entries.
  generalize dependent (w0 :: ws). intros writes Hw Hap. clear w0 ws.
  destruct (prepare_owned_entries_total root options writes 0 [] fs Hopt Hw Hap) as (fs1 & [n regs] & H1 & Hl).
  pose proof (prepare_owned_entries_ok _ _ _ _ _ _ _ _ _ Hopt (proj1 Hap) H1) as (_ & -> & -> & _).
  unfold sbind at 1, prepare_owned_entries. rewrite H1. cbn [app].
  set (regular := List.filter (fun w => negb (is_link w)) writes).
  assert (Hin : forall w, w ∈ regular -> w ∈ writes) by by intros w [Hw' _]%elem_of_lfilter.
  destruct (write_regular_batch_total root options regular [] fs1) as (fs2 & stats & H2).
  - apply Forall_forall. intros w Hr. rewrite Forall_forall in Hw. destruct (Hw w (Hin w Hr)) as [_ _ Hp Hn].
    rewrite !Hl; [done|..]; intros (w' & Ht & [Hw' El']%elem_of_lfilter)%elem_of_lmap.
    + by apply (proj2 Hap w w'); [auto| |].
    + rewrite (NoDup_map_inj (write_target root) writes w w') in Hr by (auto; apply Hap).
      apply elem_of_lfilter in Hr as [_ Hr]. by rewrite El' in Hr.
  - split; [by apply NoDup_map_filter, Hap|]. intros w w' H H'. apply (proj2 Hap); auto.
  - unfold sbind, write_regular_batch. rewrite H2. by eexists _, _.
Qed.
End writer.
