(* ===== verification/Extract.v ===== *)
(** Extracting a working tree ([rust/src/extract.rs]): grouping frames into range
    requests, slicing and decompressing frames, checking each file against its
    git object id, and gathering the fragments of files that span frames.

    The fetcher and writer threads share the tree and the table of pending files
    under its lock; a frame's handler is one step, and the frames come in any
    order. *)

From S2P Require Import Prelude Validation Paths Outputs Manifest WorktreeWriter.

(** ** Range requests *)
Record Chunk := {
  ck_chunk_index : N;
  start_frame : N;
  end_frame : N;
  byte_start : N;
  byte_end : N;
}.

(** The loop's variables. *)
Record Grouping := {
  g_chunks : list Chunk;
  g_start : N;
  g_byte_start : N;
  g_current_len : N;
  g_chunk_index : N;
}.

(** Closing the group of frames before [end_]. *)
Definition close_group (g : Grouping) (end_ : N) : Result (list Chunk) :=
  let? byte_end := context (checked_add u64_max (g_byte_start g) (g_current_len g)) "archive chunk offset overflow" in
  Ok (g_chunks g ++ [{| ck_chunk_index := g_chunk_index g; start_frame := g_start g; end_frame := end_;
                        byte_start := g_byte_start g; byte_end := byte_end |}]).

Definition group_frame (chunk_size : N) (g : Grouping) (x : N * FrameInfo) : Result Grouping :=
  let '(i, frame) := x in
  let frame_len := compressed_len frame in
  let? split :=
    (if negb (chunk_index frame =? g_chunk_index g)%N then Ok true
     else if (0 <? g_current_len g)%N then
       let? total := context (checked_add u64_max (g_current_len g) frame_len) "archive chunk length overflow" in
       Ok (chunk_size <? total)%N
     else Ok false) in
  let? g :=
    (if split then
       let? chunks := close_group g i in
       Ok {| g_chunks := chunks; g_start := i; g_byte_start := chunk_offset frame; g_current_len := 0;
             g_chunk_index := chunk_index frame |}
     else Ok g) in
  let? len := context (checked_add u64_max (g_current_len g) frame_len) "archive chunk length overflow" in
  Ok {| g_chunks := g_chunks g; g_start := g_start g; g_byte_start := g_byte_start g; g_current_len := len;
        g_chunk_index := g_chunk_index g |}.

Definition compute_chunks (frames : list FrameInfo) (chunk_size : N) : Result (list Chunk) :=
  let current := match frames with f :: _ => chunk_index f | [] => 0%N end in
  let? g := try_fold (group_frame chunk_size)
    {| g_chunks := []; g_start := 0; g_byte_start := 0; g_current_len := 0; g_chunk_index := current |}
    (enumerate frames) in
  match frames with
  | [] => Ok (g_chunks g)
  | _ => close_group g (nlen frames)
  end.

Definition slice_archive_frame (bytes_ : bytes) (chunk : Chunk) (frame : FrameInfo) : Result bytes :=
  let? offset := context (checked_sub (chunk_offset frame) (byte_start chunk)) "frame starts before archive chunk" in
  let? end_ := context (checked_add usize_max offset (compressed_len frame)) "archive frame slice end overflow" in
  context (get_range bytes_ offset end_) "frame out of chunk bounds".

(** The chunk map of [extract_archive_from_chunk_receiver]: by archive chunk. *)
Definition chunks_by_archive_index (chunks : list Chunk) : gmap N Chunk :=
  foldl (fun map chunk => <[ck_chunk_index chunk := chunk]> map) ∅ chunks.
(** The chunk map of [extract_archive_with_chunk_fetcher]: by position. *)
Definition chunks_by_position (chunks : list Chunk) : gmap N Chunk := list_to_map (enumerate chunks).

(** The range a fetcher of a local archive returns. *)
Definition fetch_local (archive : bytes) (chunk : Chunk) : Result bytes :=
  if (nlen archive <? byte_end chunk)%N then Err "chunk extends past archive end"
  else Ok (slice archive (byte_start chunk) (byte_end chunk)).

(** A frame to write: its index and its compressed bytes. *)
Definition Job : Type := N * Result bytes.

(** What a fetcher thread sends on for one received chunk. *)
Definition chunk_jobs (m : MetadataChunk) (chunks : gmap N Chunk) (received : N * Result bytes) : list Job :=
  let '(idx, res) := received in
  match chunks !! idx with
  | None => [(idx, Err "unknown archive chunk index")]
  | Some chunk =>
      map (fun '(frame_idx, frame) =>
             (frame_idx, match res with
                         | Ok data => slice_archive_frame data chunk frame
                         | Err _ => Err "chunk failed"
                         end))
          (List.filter (fun '(i, _) => (start_frame chunk <=? i)%N && (i <? end_frame chunk)%N) (enumerate (frames m)))
  end.

Section extract.
(** zstd's bulk decompression into a buffer of a given size, SHA-1, and whether a
    link in the tree leads to something. *)
Context (decompress : bytes -> N -> Result bytes) (sha1 : bytes -> string)
  (link_resolves : FsTree -> list string -> bytes -> bool).

Definition decompress_frame_recorded (compressed : bytes) (frame : FrameInfo) : Result bytes :=
  if (compressed_len frame =? 0)%N && (fi_raw_len frame =? 0)%N then Ok []
  else decompress compressed (fi_raw_len frame).

(** [blob_hasher]'s prefix: git's blob header. *)
Definition blob_header (len : N) : bytes :=
  String.list_byte_of_string ("blob " +:+ pretty len) ++ [Byte.x00].
Definition sha1_digest_recorded (content : bytes) : string := sha1 (blob_header (nlen content) ++ content).
Definition sha1_digest_fragments_recorded (l : list FileSlice) : string :=
  sha1 (blob_header (nsum (map fl_len l)) ++ mjoin (map slice_bytes l)).

(** ** Files that span frames *)
Record PendingFile := { pf_fragments : list (option FileSlice); remaining : N }.

(** The table before the first frame: a row for each file of several fragments. *)
Definition initial_pending (m : MetadataChunk) : gmap N PendingFile :=
  foldl (fun map '(file_idx, entry) =>
    if (1 <? nlen (fragments entry))%N then
      <[file_idx := {| pf_fragments := replicate (length (fragments entry)) None;
                       remaining := nlen (fragments entry) |}]> map
    else map) ∅ (enumerate (files m)).

(** What a frame's handler does under the lock: the fragment takes its slot, and
    the file's row is returned once its last fragment is there. *)
Definition complete_fragment (file_idx frag_idx : N) (slice_ : FileSlice)
    : Stateful (gmap N PendingFile) (option PendingFile) := fun pending =>
  match pending !! file_idx with
  | None => (pending, Err "missing pending state")
  | Some p =>
      match nget (pf_fragments p) frag_idx with
      | None => (pending, Err "fragment index out of range")
      | Some (Some _) => (pending, Err "duplicate fragment")
      | Some None =>
          let filled := <[N.to_nat frag_idx := Some slice_]> (pf_fragments p) in
          match checked_sub (remaining p) 1 with
          | None => (<[file_idx := {| pf_fragments := filled; remaining := remaining p |}]> pending,
                     Err "pending fragment count underflow")
          | Some left_ =>
              let p := {| pf_fragments := filled; remaining := left_ |} in
              if (left_ =? 0)%N then (base.delete file_idx pending, Ok (Some p))
              else (<[file_idx := p]> pending, Ok None)
          end
      end
  end.

(** ** Writing the files of a frame *)
Definition PACK_WRITE_BATCH_FILES : N := 512.
Definition ARCHIVE_WRITE_OPTIONS : WriteOptions :=
  {| parents_prepared := true; stamp_mtime := false; fresh_target := false |}.

(** What the writer threads share. *)
Record Shared_ := { s_fs : FsTree; s_pending : gmap N PendingFile }.
Definition set_fs (fs : FsTree) (s : Shared_) : Shared_ := {| s_fs := fs; s_pending := s_pending s |}.
Definition set_pending (p : gmap N PendingFile) (s : Shared_) : Shared_ := {| s_fs := s_fs s; s_pending := p |}.

(** A handler's own variables: the files not yet written, and what was. *)
Record FrameWrites := { fw_pending_writes : list OwnedFileWrite; fw_written : N; fw_stats : list string }.
Definition no_writes : FrameWrites := {| fw_pending_writes := []; fw_written := 0; fw_stats := [] |}.

(** [flush_archive_writes], added to the handler's results. *)
Definition flush (target_dir : list string) (w : FrameWrites) : Stateful Shared_ FrameWrites :=
  let! outcome := zoom s_fs set_fs
    (write_owned_entries link_resolves target_dir (fw_pending_writes w) ARCHIVE_WRITE_OPTIONS) in
  sret {| fw_pending_writes := []; fw_written := fw_written w + wo_written outcome;
          fw_stats := fw_stats w ++ wo_stats outcome |}.

(** A complete file, checked against its object id, joins the batch. *)
Definition add_write (target_dir : option (list string)) (entry : FileEntry) (digest : string)
    (content : FileWriteContent) (w : FrameWrites) : Stateful Shared_ FrameWrites :=
  if bool_decide (digest = blob_sha1 entry) then
    match target_dir with
    | None => sret w
    | Some dir =>
        let w := {| fw_pending_writes := fw_pending_writes w ++ [{| ow_entry := entry; ow_content := content |}];
                    fw_written := fw_written w; fw_stats := fw_stats w |} in
        if (PACK_WRITE_BATCH_FILES <=? nlen (fw_pending_writes w))%N then flush dir w else sret w
    end
  else sfail "sha1 mismatch".

(** The loop body over a frame's fragments. *)
Definition write_fragment (m : MetadataChunk) (target_dir : option (list string)) (raw : bytes) (w : FrameWrites)
    (pair : N * N) : Stateful Shared_ FrameWrites :=
  let '(file_idx, frag_idx) := pair in
  let! entry := lift (context (nget (files m) file_idx) "index out of bounds") in
  let! fragment := lift (context (nget (fragments entry) frag_idx) "index out of bounds") in
  let off := frame_offset fragment in
  let len := fg_raw_len fragment in
  let! end_ := lift (context (checked_add usize_max off len) "fragment frame slice end overflow") in
  let! content := lift (context (get_range raw off end_) "fragment extends past frame") in
  if (nlen (fragments entry) =? 1)%N then
    add_write target_dir entry (sha1_digest_recorded content) (Shared raw off len) w
  else
    let! completed := zoom s_pending set_pending
      (complete_fragment file_idx frag_idx {| fl_data := raw; fl_offset := off; fl_len := len |}) in
    match completed with
    | None => sret w
    | Some p =>
        let! l := lift (collect (fun fragment => context fragment "fragment missing at completion") (pf_fragments p)) in
        add_write target_dir entry (sha1_digest_fragments_recorded l) (Fragments l) w
    end.

(** A writer thread's handler of one frame. *)
Definition write_frame (m : MetadataChunk) (target_dir : option (list string)) (job : Job)
    : Stateful Shared_ (N * list string) :=
  let '(idx, res) := job in
  let! compressed := lift res in
  let! frame := lift (context (nget (frames m) idx) "index out of bounds") in
  let! raw := lift (decompress_frame_recorded compressed frame) in
  if negb (nlen raw =? fi_raw_len frame)%N then sfail "frame raw length mismatch"
  else
    let! frame_key := lift (context (try_from u32_max idx) "archive frame index does not fit in manifest key") in
    let pairs := default [] (fragments_by_frame m !! frame_key) in
    let! w := sfold (write_fragment m target_dir raw) no_writes pairs in
    let! w := match target_dir with Some dir => flush dir w | None => sret w end in
    sret (fw_written w, fw_stats w).

(** ** The whole extraction *)

(** The result of each frame, in the order the frames come. *)
Fixpoint write_frames (m : MetadataChunk) (target_dir : option (list string)) (jobs : list Job) (s : Shared_)
    : Shared_ * list (Result (N * list string)) :=
  match jobs with
  | [] => (s, [])
  | job :: jobs =>
      let '(s, r) := write_frame m target_dir job s in
      let '(s, rs) := write_frames m target_dir jobs s in
      (s, r :: rs)
  end.

Record ExtractStats := { es_files : N; es_raw_bytes : N; es_stats : list string }.

(** Files written, index stats and the last error of the results. *)
Definition gather (acc : N * list string * option string) (r : Result (N * list string))
    : N * list string * option string :=
  let '(written, stats, error) := acc in
  match r with
  | Ok (n, st) => ((written + n)%N, stats ++ st, error)
  | Err e => (written, stats, Some e)
  end.

(** The directories [prepare_worktree_dirs] makes, each once: the files' parents
    and the gitlinks. *)
Definition worktree_dirs (m : MetadataChunk) : list string :=
  List.filter (fun p => negb (bool_decide (p = ""))) (map (fun e => parent_path (fe_path e)) (files m)) ++ gitlinks m.
(** [Path]'s order: by components. *)
Fixpoint names_le (a b : list string) : bool :=
  match a, b with
  | [], _ => true
  | _, [] => false
  | x :: a, y :: b => if bool_decide (x = y) then names_le a b else String.leb x y
  end.
Definition path_le (a b : string) : bool := names_le (path_names a) (path_names b).
(** [collect::<HashSet<_>>]: paths with the same components are one. *)
Fixpoint dedup_paths (l : list string) : list string :=
  match l with
  | [] => []
  | p :: l => if existsb (fun q => bool_decide (path_names q = path_names p)) l then dedup_paths l else p :: dedup_paths l
  end.
Definition prepare_worktree_dirs (target_dir : list string) (m : MetadataChunk) : Stateful FsTree unit :=
  let! _ := lift (collect validate_relative_path (map fe_path (files m) ++ gitlinks m)) in
  sfold (fun _ dir => safe_create_dir_all target_dir dir) tt (sort_by path_le (dedup_paths (worktree_dirs m))).

Definition raw_total (m : MetadataChunk) : Result N :=
  try_fold (fun total entry =>
    let? n := checked_total_len entry in
    context (checked_add u64_max total n) "archive raw byte total overflow") 0%N (files m).

(** [extract_archive_from_chunk_receiver_with_chunks], given the frames in the
    order the writer threads take them. *)
Definition extract_frames (m : MetadataChunk) (target_dir : option (list string)) (jobs : list Job)
    : Stateful FsTree ExtractStats := fun fs =>
  match collect (fun e => if (str_len (blob_sha1 e) =? 20)%N then Ok tt else Err "invalid blob_sha1") (files m) with
  | Err e => (fs, Err e)
  | Ok _ =>
      match (match target_dir with Some dir => prepare_worktree_dirs dir m | None => sret tt end) fs with
      | (fs, Err e) => (fs, Err e)
      | (fs, Ok _) =>
          let '(s, results) := write_frames m target_dir jobs {| s_fs := fs; s_pending := initial_pending m |} in
          let '(written, stats, error) := foldl gather (0%N, [], None) (take (length (frames m)) results) in
          let error := if bool_decide (length results < length (frames m)) then Some "writer thread disappeared" else error in
          let expected := match target_dir with Some _ => nlen (files m) | None => 0%N end in
          let error :=
            match error with
            | Some e => Some e
            | None => if negb (written =? expected)%N then Some "extractor wrote fewer files than expected" else None
            end in
          (s_fs s,
           let? total := raw_total m in
           match error with
           | Some e => Err e
           | None => Ok {| es_files := written; es_raw_bytes := total; es_stats := stats |}
           end)
      end
  end.

(** [extract_archive_from_chunk_receiver]'s frames, the chunks in the order they
    were received. *)
Definition receiver_jobs (m : MetadataChunk) (received : list (N * Result bytes)) : Result (list Job) :=
  let? chunks := compute_chunks (frames m) u64_max in
  Ok (mjoin (map (chunk_jobs m (chunks_by_archive_index chunks)) received)).
(** [extract_archive_with_chunk_fetcher]'s frames, chunk by chunk. *)
Definition fetcher_jobs (m : MetadataChunk) (chunk_size : N) (fetch : Chunk -> Result bytes) : Result (list Job) :=
  let? chunks := compute_chunks (frames m) chunk_size in
  Ok (mjoin (map (chunk_jobs m (chunks_by_position chunks)) (map (fun x => (x.1, fetch x.2)) (enumerate chunks)))).
End extract.
