(* ===== verification/ExtractInv.v ===== *)
(** What the extractor's shared state holds between frames: each file's pending row
    is a function of the fragments handled so far, and every file whose fragments
    have all come is written, once. *)

From S2P Require Import Prelude Validation Paths Outputs Manifest WorktreeWriter Extract.

(** ** The fragments of each frame *)
Definition all_pairs (m : MetadataChunk) : list ((N * N) * Fragment) :=
  mjoin (map (fun '(k, e) => map (fun '(j, f) => ((k, j), f)) (enumerate (fragments e))) (enumerate (files m))).
Definition pairs_of (m : MetadataChunk) (frame : N) : list (N * N) :=
  map fst (List.filter (fun x => (frame_index x.2 =? frame)%N) (all_pairs m)).

Lemma elem_of_all_pairs m k j f :
  ((k, j), f) ∈ all_pairs m <-> exists e, nget (files m) k = Some e /\ nget (fragments e) j = Some f.
Proof.
  unfold all_pairs. rewrite list_elem_of_join. setoid_rewrite elem_of_lmap. split.
  - intros (l & Hin & [k' e] & -> & He). apply elem_of_lmap in Hin as ([j' f'] & [= <- <- <-] & Hf).
    apply elem_of_enumerate in He, Hf. eauto.
  - intros (e & He & Hf). eexists. split; [|exists (k, e); split; [done|by apply elem_of_enumerate]].
    apply elem_of_lmap. exists (j, f). split; [done|by apply elem_of_enumerate].
Qed.

Lemma enumerate_from_fst {A} i (l : list A) k : k ∈ map fst (enumerate_from i l) -> (i <= k)%N.
Proof.
  revert i; induction l as [|x l IH]; intros i; cbn; [set_solver|].
  intros [->|H%IH]%elem_of_cons; lia.
Qed.
Lemma enumerate_fst_NoDup {A} i (l : list A) : NoDup (map fst (enumerate_from i l)).
Proof.
  revert i; induction l as [|x l IH]; intros i; cbn; constructor; [|apply IH].
  intros H%enumerate_from_fst. lia.
Qed.

Lemma checked_paths_NoDup m : NoDup (map fst (all_pairs m)).
Proof.
  unfold all_pairs, enumerate at 2. generalize 0%N. induction (files m) as [|e l IH]; intros i; cbn; [constructor|].
  change (NoDup (map fst (map (fun '(j, f) => ((i, j), f)) (enumerate (fragments e)) ++
    mjoin (map (fun '(k, e) => map (fun '(j, f) => ((k, j), f)) (enumerate (fragments e))) (enumerate_from (i + 1) l))))).
  rewrite map_app. apply NoDup_app. split_and!; [| |apply IH].
  - rewrite map_map. assert (Hmap : map (fun x : N * Fragment => (let '(j, f) := x in (i, j, f)).1) (enumerate (fragments e))
      = map (pair i) (map fst (enumerate (fragments e)))) by (rewrite map_map; by apply map_ext; intros []).
    rewrite Hmap. apply NoDup_fmap_2; [by intros ?? [=]|apply enumerate_fst_NoDup].
  - intros [k j] ([[k1 j1] f1] & [= -> ->] & ([j2 f2] & [= -> -> ->] & _)%elem_of_lmap)%elem_of_lmap.
    intros ([[k3 j3] f3] & [= <- <-] & H3)%elem_of_lmap. apply list_elem_of_join in H3 as (l' & Hin & Hl').
    apply elem_of_lmap in Hl' as ([k4 e4] & -> & H4). apply elem_of_lmap in Hin as ([j5 f5] & [= <- _ _] & _).
    assert (H : i ∈ map fst (enumerate_from (i + 1) l)) by (apply elem_of_lmap; by exists (i, e4)).
    apply enumerate_from_fst in H. lia.
Qed.

(** [fragments_by_frame] lists each frame's fragments, in the order of the files. *)
Lemma fragments_by_frame_pairs m frame : default [] (fragments_by_frame m !! frame) = pairs_of m frame.
Proof.
  set (step := fun (map : gmap N (list (N * N))) (x : (N * N) * Fragment) =>
    <[frame_index x.2 := default [] (map !! frame_index x.2) ++ [x.1]]> map).
  assert (Hfold : fragments_by_frame m = foldl step ∅ (all_pairs m)).
  { unfold fragments_by_frame, all_pairs. generalize (∅ : gmap N (list (N * N))).
    induction (enumerate (files m)) as [|[k e] l IH]; intros g; [done|]. cbn [foldl map mjoin list_join].
    rewrite IH, foldl_app. f_equal. clear IH. revert g.
    induction (enumerate (fragments e)) as [|[j f] fs IH]; intros g; [done|]. cbn. by rewrite IH. }
  rewrite Hfold. unfold pairs_of. clear Hfold.
  assert (Hgen : forall l g, default [] (foldl step g l !! frame) = default [] (g !! frame) ++
    map fst (List.filter (fun x => (frame_index x.2 =? frame)%N) l)).
  { induction l as [|x l IH]; intros g; cbn; [by rewrite app_nil_r|]. rewrite IH. unfold step at 1.
    destruct (N.eqb_spec (frame_index x.2) frame) as [->|Hne].
    - rewrite lookup_insert_eq. cbn. by rewrite <- app_assoc.
    - by rewrite lookup_insert_ne. }
  by rewrite Hgen, lookup_empty.
Qed.

Lemma elem_of_pairs_of m frame k j :
  (k, j) ∈ pairs_of m frame <->
  exists e f, nget (files m) k = Some e /\ nget (fragments e) j = Some f /\ frame_index f = frame.
Proof.
  unfold pairs_of. rewrite elem_of_lmap. split.
  - intros ([[k' j'] f] & [= <- <-] & [(e & He & Hf)%elem_of_all_pairs Hfr%N.eqb_eq]%elem_of_lfilter). eauto.
  - intros (e & f & He & Hf & <-). exists ((k, j), f). split; [done|]. apply elem_of_lfilter. cbn.
    rewrite N.eqb_refl. split; [|done]. apply elem_of_all_pairs. eauto.
Qed.
Lemma pairs_of_NoDup m frame : NoDup (pairs_of m frame).
Proof. apply NoDup_map_filter, checked_paths_NoDup. Qed.

(** ** The fragments still to come *)

(** The fragments of file [k] still to come, when those of [P] have. *)
Definition missing (P : gset (N * N)) (k : N) (e : FileEntry) : list (N * Fragment) :=
  List.filter (fun '(j, _) => negb (bool_decide ((k, j) ∈ P))) (enumerate (fragments e)).
Definition complete (P : gset (N * N)) (k : N) (e : FileEntry) : Prop := missing P k e = [].

Lemma complete_all P k e : complete P k e <-> forall j f, nget (fragments e) j = Some f -> (k, j) ∈ P.
Proof.
  unfold complete, missing. split.
  - intros H j f Hf. apply elem_of_enumerate in Hf. destruct (decide ((k, j) ∈ P)) as [|Hn]; [done|exfalso].
    assert (Hin : (j, f) ∈ missing P k e).
    { apply elem_of_lfilter. by rewrite bool_decide_eq_false_2. }
    unfold missing in Hin. rewrite H in Hin. by apply elem_of_nil in Hin.
  - intros H. destruct (List.filter _ _) as [|[j f] l] eqn:E; [done|exfalso].
    assert (Hin : (j, f) ∈ missing P k e) by (unfold missing; rewrite E; apply list_elem_of_here).
    apply elem_of_lfilter in Hin as [Hf%elem_of_enumerate Hb]. rewrite bool_decide_eq_true_2 in Hb; [done|]. eauto.
Qed.

Lemma missing_other P k j k' e : k' <> k -> missing ({[(k, j)]} ∪ P) k' e = missing P k' e.
Proof.
  intros Hne. unfold missing. apply filter_ext. intros [j' f]. f_equal. apply bool_decide_ext. set_solver.
Qed.
Lemma missing_one P k j e f :
  nget (fragments e) j = Some f -> (k, j) ∉ P -> nlen (missing P k e) = (nlen (missing ({[(k, j)]} ∪ P) k e) + 1)%N.
Proof.
  intros Hf Hn. unfold missing, enumerate. unfold nget in Hf.
  assert (Hgen : forall i l, l !! (N.to_nat j - N.to_nat i)%nat = Some f -> (i <= j)%N ->
    nlen (List.filter (fun '(j0, _) => negb (bool_decide ((k, j0) ∈ P))) (enumerate_from i l)) =
    (nlen (List.filter (fun '(j0, _) => negb (bool_decide ((k, j0) ∈ {[(k, j)]} ∪ P))) (enumerate_from i l)) + 1)%N).
  { intros i l. revert i. induction l as [|x l IH]; intros i Hl Hi; [done|]. cbn [enumerate_from List.filter].
    destruct (decide (i = j)) as [->|Hij].
    - rewrite (bool_decide_eq_false_2 ((k, j) ∈ P)), (bool_decide_eq_true_2 ((k, j) ∈ {[(k, j)]} ∪ P)) by set_solver.
      cbn [negb]. rewrite nlen_cons, N.add_comm. f_equal. f_equal.
      assert (Hlt : forall x, x ∈ enumerate_from (j + 1) l -> (j < x.1)%N).
      { intros y Hy. assert (Hy' : y.1 ∈ map fst (enumerate_from (j + 1) l)) by (apply elem_of_lmap; eauto).
        apply enumerate_from_fst in Hy'. lia. }
      induction (enumerate_from (j + 1) l) as [|[i' x'] t IHt]; [done|]. cbn [List.filter].
      specialize (IHt (fun y Hy => Hlt y (list_elem_of_further _ _ _ Hy))).
      pose proof (Hlt (i', x') (list_elem_of_here _ _)) as H'. cbn in H'.
      rewrite (bool_decide_ext ((k, i') ∈ {[(k, j)]} ∪ P) ((k, i') ∈ P)); [|set_solver by lia].
      destruct (bool_decide _); cbn [negb]; [done|]. by rewrite IHt.
    - replace (N.to_nat j - N.to_nat i)%nat with (S (N.to_nat j - N.to_nat (i + 1)))%nat in Hl by lia.
      specialize (IH (i + 1)%N Hl ltac:(lia)).
      rewrite (bool_decide_ext ((k, i) ∈ {[(k, j)]} ∪ P) ((k, i) ∈ P)); [|set_solver by lia].
      destruct (bool_decide _); cbn [negb]; [done|]. rewrite !nlen_cons, IH. lia. }
  apply (Hgen 0%N); [|lia]. by rewrite Nat.sub_0_r.
Qed.

Lemma missing_empty k e : missing ∅ k e = enumerate (fragments e).
Proof.
  unfold missing. induction (enumerate (fragments e)) as [|[j f] l IH]; [done|]. cbn.
  rewrite bool_decide_eq_false_2 by set_solver. cbn. by rewrite IH.
Qed.

(** ** The pending rows *)
Section pending.
Context (m : MetadataChunk) (raws : N -> bytes).

(** A fragment's slice of its frame, and a file's content. *)
Definition slice_of (f : Fragment) : FileSlice :=
  {| fl_data := raws (frame_index f); fl_offset := frame_offset f; fl_len := fg_raw_len f |}.
Definition content_of (e : FileEntry) : bytes := mjoin (map slice_bytes (map slice_of (fragments e))).

Definition row (P : gset (N * N)) (k : N) (e : FileEntry) : PendingFile :=
  {| pf_fragments := map (fun '(j, f) => if bool_decide ((k, j) ∈ P) then Some (slice_of f) else None)
                         (enumerate (fragments e));
     remaining := nlen (missing P k e) |}.

(** The table is what the fragments handled make it. *)
Definition pending_ok (P : gset (N * N)) (pending : gmap N PendingFile) : Prop :=
  forall k, pending !! k =
    match nget (files m) k with
    | Some e => if (1 <? nlen (fragments e))%N && negb (nlen (missing P k e) =? 0)%N then Some (row P k e) else None
    | None => None
    end.

Lemma row_other P k j k' e : k' <> k -> row ({[(k, j)]} ∪ P) k' e = row P k' e.
Proof.
  intros Hne. unfold row. rewrite missing_other by done. f_equal. apply map_ext. intros [j' f].
  rewrite (bool_decide_ext _ ((k', j') ∈ P)); [done|set_solver].
Qed.
Lemma row_lookup P k e j :
  nget (pf_fragments (row P k e)) j =
    (fun f => if bool_decide ((k, j) ∈ P) then Some (slice_of f) else None) <$> nget (fragments e) j.
Proof.
  unfold nget, row, enumerate. cbn. change (map ?f ?l) with (f <$> l). rewrite list_lookup_fmap, enumerate_from_lookup.
  destruct (fragments e !! N.to_nat j); cbn; [|done]. by rewrite N.add_0_l, N2Nat.id.
Qed.
Lemma row_insert P k e j f :
  nget (fragments e) j = Some f -> (k, j) ∉ P ->
  <[N.to_nat j := Some (slice_of f)]> (pf_fragments (row P k e)) = pf_fragments (row ({[(k, j)]} ∪ P) k e).
Proof.
  intros Hf Hn. apply list_eq. intros i. destruct (decide (i = N.to_nat j)) as [->|Hne].
  - assert (Hrow : exists x, pf_fragments (row P k e) !! N.to_nat j = Some x).
    { pose proof (row_lookup P k e j) as H. rewrite Hf in H. eauto. }
    destruct Hrow as [x Hx]. rewrite list_lookup_insert_eq by by eapply lookup_lt_Some.
    pose proof (row_lookup ({[(k, j)]} ∪ P) k e j) as H. unfold nget in H at 1. rewrite H, Hf. cbn.
    rewrite bool_decide_eq_true_2; [done|set_solver].
  - rewrite list_lookup_insert_ne by done.
    pose proof (row_lookup P k e (N.of_nat i)) as H1. pose proof (row_lookup ({[(k, j)]} ∪ P) k e (N.of_nat i)) as H2.
    unfold nget in H1 at 1, H2 at 1. rewrite Nat2N.id in H1, H2. rewrite H1, H2.
    destruct (nget (fragments e) (N.of_nat i)); [|done]. cbn.
    rewrite (bool_decide_ext ((k, N.of_nat i) ∈ {[(k, j)]} ∪ P) ((k, N.of_nat i) ∈ P)); [done|].
    assert (N.of_nat i <> j) by lia. set_solver.
Qed.
Lemma row_complete P k e :
  complete P k e -> collect (fun fragment => context fragment "fragment missing at completion") (pf_fragments (row P k e))
    = Ok (map slice_of (fragments e)).
Proof.
  intros Hc. pose proof (proj1 (complete_all P k e) Hc) as Hin.
  assert (Hrow : pf_fragments (row P k e) = map Some (map slice_of (fragments e))).
  { apply list_eq. intros i. pose proof (row_lookup P k e (N.of_nat i)) as H1. unfold nget in H1.
    rewrite Nat2N.id in H1. rewrite H1. rewrite !list_lookup_fmap. destruct (fragments e !! i) as [f|] eqn:E; [|done].
    cbn. rewrite bool_decide_eq_true_2; [done|]. apply (Hin _ f). unfold nget. by rewrite Nat2N.id. }
  rewrite Hrow. clear. generalize (map slice_of (fragments e)) as l. induction l as [|x l IH]; cbn; [done|]. by rewrite IH.
Qed.

Lemma initial_pending_lookup i l (g : gmap N PendingFile) k :
  foldl (fun (map : gmap N PendingFile) '(file_idx, entry) =>
    if (1 <? nlen (fragments entry))%N then
      <[file_idx := {| pf_fragments := replicate (length (fragments entry)) None;
                       remaining := nlen (fragments entry) |}]> map
    else map) g (enumerate_from i l) !! k =
  match (if (i <=? k)%N then l !! N.to_nat (k - i) else None) with
  | Some e => if (1 <? nlen (fragments e))%N then
      Some {| pf_fragments := replicate (length (fragments e)) None; remaining := nlen (fragments e) |} else g !! k
  | None => g !! k
  end.
Proof.
  revert i g. induction l as [|e l IH]; intros i g; cbn [enumerate_from foldl]; [by destruct (i <=? k)%N|].
  rewrite IH. destruct (decide (k = i)) as [->|Hne].
  - rewrite (proj2 (N.leb_gt (i + 1) i)), N.leb_refl, N.sub_diag by lia.
    change ((e :: l) !! N.to_nat 0) with (Some e). cbv iota.
    destruct (1 <? nlen (fragments e))%N; [by rewrite lookup_insert_eq|done].
  - destruct (N.leb_spec (i + 1) k), (N.leb_spec i k); try lia.
    + replace (N.to_nat (k - i)) with (S (N.to_nat (k - (i + 1)))) by lia.
      cbn [lookup list_lookup].
      destruct (l !! _) as [e'|]; [destruct (1 <? nlen (fragments e'))%N; [done|]|];
        destruct (1 <? nlen (fragments e))%N; try done; by rewrite lookup_insert_ne.
    + destruct (1 <? nlen (fragments e))%N; [by rewrite lookup_insert_ne|done].
Qed.

Lemma nlen_enumerate {A} (l : list A) : nlen (enumerate l) = nlen l.
Proof. unfold nlen, enumerate. by rewrite <- (length_fmap snd (enumerate_from 0 l)), enumerate_from_fmap_snd. Qed.

Lemma initial_pending_ok : pending_ok ∅ (initial_pending m).
Proof.
  intros k. unfold initial_pending, enumerate. rewrite initial_pending_lookup, N.sub_0_r, lookup_empty.
  replace (0 <=? k)%N with true by (symmetry; apply N.leb_le; lia). unfold nget.
  destruct (files m !! N.to_nat k) as [e|]; [|done]. rewrite missing_empty, nlen_enumerate.
  destruct (N.ltb_spec 1 (nlen (fragments e))); [|done].
  rewrite (proj2 (N.eqb_neq _ _)) by lia. cbn [andb negb].
  unfold row. rewrite missing_empty, nlen_enumerate. do 2 f_equal. apply list_eq. intros j. pose proof (row_lookup ∅ k e (N.of_nat j)) as H'. unfold nget in H'. rewrite Nat2N.id in H'.
  cbn in H'. rewrite H'. destruct (fragments e !! j) as [f|] eqn:E; cbn.
  - rewrite bool_decide_eq_false_2 by set_solver. apply lookup_replicate_2. by eapply lookup_lt_Some.
  - apply lookup_ge_None. rewrite length_replicate. by apply lookup_ge_None.
Qed.

(** A fragment that has not come takes its slot; the row comes back when it was
    the last one. *)
Lemma complete_fragment_ok P pending k j e f :
  pending_ok P pending -> nget (files m) k = Some e -> (nlen (fragments e) =? 1)%N = false ->
  nget (fragments e) j = Some f -> (k, j) ∉ P ->
  exists pending', pending_ok ({[(k, j)]} ∪ P) pending' /\
    complete_fragment k j (slice_of f) pending =
      (pending', Ok (if (nlen (missing ({[(k, j)]} ∪ P) k e) =? 0)%N then Some (row ({[(k, j)]} ∪ P) k e) else None)).
Proof.
  intros Hok He Hmulti%N.eqb_neq Hf Hn. unfold complete_fragment.
  assert (Hlen : (1 < nlen (fragments e))%N).
  { assert (nlen (fragments e) <> 0%N); [|lia]. intros H0. unfold nget, nlen in *. destruct (fragments e); done. }
  pose proof (missing_one P k j e f Hf Hn) as Hone.
  assert (Hk : pending !! k = Some (row P k e)).
  { rewrite Hok, He, (proj2 (N.ltb_lt _ _) Hlen), (proj2 (N.eqb_neq _ _)) by lia. done. }
  rewrite Hk, row_lookup, Hf. cbn [fmap option_fmap option_map]. rewrite bool_decide_eq_false_2 by done.
  rewrite (row_insert P k e j f Hf Hn). cbn [remaining row]. rewrite Hone.
  unfold checked_sub. rewrite (proj2 (N.leb_le _ _)) by lia. rewrite N.add_sub.
  set (P' := {[(k, j)]} ∪ P) in *. destruct (N.eqb_spec (nlen (missing P' k e)) 0) as [H0|H0]; eexists; (split; [|done]).
  - intros k'. destruct (decide (k' = k)) as [->|Hne].
    + rewrite lookup_delete_eq, He, H0. cbn. by rewrite andb_false_r.
    + rewrite lookup_delete_ne, Hok by done. subst P'. destruct (nget (files m) k') as [e'|]; [|done].
      by rewrite missing_other, row_other.
  - intros k'. destruct (decide (k' = k)) as [->|Hne].
    + rewrite lookup_insert_eq, He, (proj2 (N.ltb_lt _ _) Hlen), (proj2 (N.eqb_neq _ _) H0). done.
    + rewrite lookup_insert_ne, Hok by done. subst P'. destruct (nget (files m) k') as [e'|]; [|done].
      by rewrite missing_other, row_other.
Qed.
End pending.

(** ** The files written *)
Section writes.
Context (sha1 : bytes -> string) (link_resolves : FsTree -> list string -> bytes -> bool).
Context (m : MetadataChunk) (raws : N -> bytes) (dir : list string) (fs0 : FsTree).
Abbreviation content_of := (content_of raws).
Abbreviation slice_of := (slice_of raws).
Abbreviation row := (row raws).
Abbreviation pending_ok := (pending_ok m raws).

(** A git object id: the hash of the blob's header and content. *)
Definition blob_id (content : bytes) : string := sha1 (blob_header (nlen content) ++ content).
(** A fragment lies inside its frame. *)
Definition frag_fits (f : Fragment) : Prop :=
  (frame_offset f + fg_raw_len f <= nlen (raws (frame_index f)))%N /\ (frame_offset f + fg_raw_len f <= usize_max)%N.
Definition file_target (e : FileEntry) : list string := target_path dir (fe_path e).
Definition targets (W : list (N * OwnedFileWrite)) : list (list string) := map (fun x => write_target dir x.2) W.

(** [W] are the files whose fragments are all in [P], each once and as it should be. *)
Record writes_ok (P : gset (N * N)) (W : list (N * OwnedFileWrite)) : Prop := {
  wk_nodup : NoDup (map fst W);
  wk_complete : forall k, k ∈ map fst W <-> exists e, nget (files m) k = Some e /\ fragments e <> [] /\ complete P k e;
  wk_entry : forall k w, (k, w) ∈ W -> nget (files m) k = Some (ow_entry w) /\
    bytes_cow (ow_content w) = content_of (ow_entry w) /\ blob_id (content_of (ow_entry w)) = blob_sha1 (ow_entry w);
}.

(** The tree before the frames, with the files of [W] in it. *)
Definition flushed (W : list (N * OwnedFileWrite)) (fs : FsTree) : Prop :=
  same_but (targets W) fs0 fs /\ Forall (fun x => fs !! write_target dir x.2 = Some (write_node x.2)) W.

(** The state inside a frame's handler: [W0] was written by earlier frames. *)
Record frame_inv (P : gset (N * N)) (W0 : list (N * OwnedFileWrite)) (s : Shared_) (w : FrameWrites)
    (Wh B : list (N * OwnedFileWrite)) : Prop := {
  fr_writes : writes_ok P (W0 ++ Wh ++ B);
  fr_flushed : flushed (W0 ++ Wh) (s_fs s);
  fr_batch : fw_pending_writes w = map snd B;
  fr_written : fw_written w = nlen Wh;
  fr_pending : pending_ok P (s_pending s);
  fr_fits : forall k j, (k, j) ∈ P -> exists e f, nget (files m) k = Some e /\ nget (fragments e) j = Some f /\ frag_fits f;
}.

Context (Hpaths : NoDup (map file_target (files m))).

Lemma targets_NoDup P W : writes_ok P W -> NoDup (targets W).
Proof.
  intros [Hnd _ He]. induction W as [|[k w] W IH]; [constructor|]. cbn in Hnd |- *. apply NoDup_cons in Hnd as [Hk Hnd].
  constructor; [|apply IH; [done|intros; apply He; set_solver]].
  intros ([k' w'] & Ht & Hin)%elem_of_lmap. cbn in Ht.
  destruct (He k w (list_elem_of_here _ _)) as (Hk1 & _). destruct (He k' w' (list_elem_of_further _ _ _ Hin)) as (Hk2 & _).
  assert (k = k') as ->; [|apply Hk, elem_of_lmap; by exists (k', w')].
  unfold nget in *. assert (H : N.to_nat k = N.to_nat k'); [|lia].
  apply (NoDup_lookup _ _ _ (file_target (ow_entry w)) Hpaths); change (map ?f ?l) with (f <$> l); rewrite list_lookup_fmap.
  - by rewrite Hk1.
  - rewrite Hk2. cbn. unfold file_target. unfold write_target in Ht. by rewrite Ht.
Qed.

Lemma writes_ok_sub P W W' : writes_ok P (W ++ W') -> NoDup (targets W').
Proof.
  intros H%targets_NoDup. unfold targets in H. rewrite map_app in H. by apply NoDup_app in H as (_ & _ & H).
Qed.

Lemma flushed_app W B fs fs' :
  NoDup (targets (W ++ B)) -> flushed W fs -> same_but (targets B) fs fs' ->
  Forall (fun x => fs' !! write_target dir x.2 = Some (write_node x.2)) B -> flushed (W ++ B) fs'.
Proof.
  intros Hnd [Hs Hf] Hs' Hf'. split; [unfold targets; rewrite map_app; by eapply same_but_trans|].
  apply Forall_app. split; [|done]. apply Forall_forall. intros [k w] Hin. rewrite Forall_forall in Hf.
  rewrite Hs'; [by apply (Hf (k, w))|]. unfold targets in *. rewrite map_app in Hnd. apply NoDup_app in Hnd as (_ & Hd & _).
  apply Hd, elem_of_lmap. by exists (k, w).
Qed.

(** Writing out the batch. *)
Lemma flush_ok P W0 s w Wh B s' w' :
  frame_inv P W0 s w Wh B -> flush link_resolves dir w s = (s', Ok w') ->
  frame_inv P W0 s' w' (Wh ++ B) [].
Proof.
  intros [H1 H2 H3 H4 H5 H6] H. unfold flush in H. apply sbind_ok in H as (s1 & out & Hz & H). injection H as <- <-.
  apply zoom_ok in Hz as (fs & Hw & ->). rewrite H3 in Hw.
  assert (Ht : targets B = map (write_target dir) (map snd B)) by (unfold targets; by rewrite map_map).
  pose proof (targets_NoDup _ _ H1) as Hnd. rewrite app_assoc in Hnd.
  apply write_owned_entries_ok in Hw as (Hs & Hn & Hf); [|done|].
  - constructor; cbn; try done.
    + by rewrite app_nil_r, !app_assoc in *.
    + rewrite app_assoc. eapply flushed_app; [done|done|by rewrite Ht|]. apply Forall_forall. intros [k x] Hin.
      rewrite Forall_forall in Hf. apply (Hf x), elem_of_lmap. by exists (k, x).
    + by rewrite H4, Hn, nlen_app, nlen_map.
  - rewrite <- Ht. rewrite app_assoc in H1. by eapply writes_ok_sub.
Qed.

(** What makes an extraction succeed: every file is new, in a directory, apart from
    the others, has an allowed mode, and its content has its object id. *)
Record good : Prop := {
  gd_valid : Forall (fun e => validate_relative_path (fe_path e) = Ok tt /\ fe_mode e ∈ ALLOWED_MODES) (files m);
  gd_new : Forall (fun e => fs0 !! file_target e = None /\ fs0 !! removelast (file_target e) = Some Dir) (files m);
  gd_blob : Forall (fun e => blob_id (content_of e) = blob_sha1 e) (files m);
  gd_fits : Forall (fun e => Forall frag_fits (fragments e)) (files m);
}.
Lemma good_apart e e' : good -> e ∈ files m -> e' ∈ files m -> removelast (file_target e) <> file_target e'.
Proof.
  intros [_ Hn _ _] He He' Heq. rewrite Forall_forall in Hn. destruct (Hn e He) as [_ Hp], (Hn e' He') as [Hx _].
  by rewrite Heq, Hx in Hp.
Qed.

Lemma flush_total P W0 s w Wh B :
  good -> frame_inv P W0 s w Wh B -> exists s' w', flush link_resolves dir w s = (s', Ok w').
Proof.
  intros Hg Hinv. pose proof Hinv as [H1 [Hs _] H3 _ _ _]. pose proof (targets_NoDup _ _ H1) as Hnd.
  assert (Hin : forall k x, (k, x) ∈ W0 ++ Wh ++ B -> ow_entry x ∈ files m).
  { intros k x Hin. destruct (wk_entry _ _ H1 _ _ Hin) as [Hk _]. by eapply list_elem_of_lookup_2. }
  assert (Hfile : forall x, x ∈ map snd B -> ow_entry x ∈ files m).
  { intros x ([k x'] & -> & Hx)%elem_of_lmap. apply (Hin k). cbn. set_solver. }
  unfold flush. destruct (write_owned_entries_total link_resolves dir (fw_pending_writes w) ARCHIVE_WRITE_OPTIONS (s_fs s))
    as (fs' & out & Hw); rewrite ?H3; [done| | |].
  - apply Forall_forall. intros x Hx. pose proof (Hfile x Hx) as Hf. pose proof Hg as [Hv Hn _ _].
    rewrite Forall_forall in Hv, Hn. destruct (Hv _ Hf), (Hn _ Hf) as [Hnew Hpar].
    assert (Hsep : write_target dir x ∉ targets (W0 ++ Wh)).
    { unfold targets in *. rewrite app_assoc, map_app in Hnd. apply NoDup_app in Hnd as (_ & Hd & _).
      intros Hx'. eapply Hd; [exact Hx'|]. apply elem_of_lmap in Hx as ([k x'] & -> & Hx). apply elem_of_lmap. by exists (k, x'). }
    constructor; [done|done| |by rewrite Hs].
    rewrite Hs; [done|]. intros ([k x'] & Ht & Hx')%elem_of_lmap. cbn in Ht.
    apply (good_apart (ow_entry x) (ow_entry x')); [done|done|apply (Hin k); set_solver|done].
  - split; [unfold targets in Hnd; rewrite !map_app in Hnd; apply NoDup_app in Hnd as (_ & _ & Hnd);
      apply NoDup_app in Hnd as (_ & _ & Hnd); by rewrite map_map|].
    intros x x' Hx Hx'. apply good_apart; auto.
  - unfold sbind at 1, zoom. rewrite <- H3, Hw. by eexists _, _.
Qed.

Lemma nsum_lens fs : Forall frag_fits fs -> nsum (map fl_len (map slice_of fs)) = nlen (mjoin (map slice_bytes (map slice_of fs))).
Proof.
  induction 1 as [|f fs [Hf _] _ IH]; [done|]. cbn [map]. cbn [mjoin list_join]. rewrite nlen_app.
  unfold nsum in *. cbn [foldr]. rewrite IH. f_equal. unfold slice_bytes. cbn. rewrite slice_length by lia. lia.
Qed.

(** A file whose fragments are not all there yet. *)
Lemma writes_ok_partial P W k j e :
  writes_ok P W -> nget (files m) k = Some e -> ~ complete ({[(k, j)]} ∪ P) k e -> writes_ok ({[(k, j)]} ∪ P) W.
Proof.
  intros [Hnd Hc He] Hk Hn. constructor; [done| |done]. intros k'. rewrite Hc.
  destruct (decide (k' = k)) as [->|Hne].
  - split; intros (e' & Hk' & Hne' & Hc'); exfalso; rewrite Hk in Hk'; injection Hk' as <-; apply Hn; [|done].
    apply complete_all. intros j' f Hf. rewrite complete_all in Hc'. set_solver.
  - unfold complete. setoid_rewrite missing_other; done.
Qed.
(** Its last fragment. *)
Lemma writes_ok_complete P W k j e f content :
  writes_ok P W -> nget (files m) k = Some e -> nget (fragments e) j = Some f -> (k, j) ∉ P ->
  complete ({[(k, j)]} ∪ P) k e ->
  bytes_cow content = content_of e -> blob_id (content_of e) = blob_sha1 e ->
  writes_ok ({[(k, j)]} ∪ P) (W ++ [(k, {| ow_entry := e; ow_content := content |})]).
Proof.
  intros [Hnd Hc He] Hk Hf Hn Hcomp Hb Hid.
  assert (HkW : k ∉ map fst W).
  { rewrite Hc. intros (e' & Hk' & _ & Hc'). rewrite Hk in Hk'. injection Hk' as <-. rewrite complete_all in Hc'. eauto. }
  constructor.
  - rewrite map_app. apply NoDup_app. split_and!; [done|set_solver|]. cbn. apply NoDup_singleton.
  - intros k'. rewrite map_app, elem_of_app. cbn. rewrite list_elem_of_singleton, Hc.
    destruct (decide (k' = k)) as [->|Hne].
    + split; [|by right]. intros _. exists e. split_and!; [done| |done]. intros E. unfold nget in Hf. by rewrite E in Hf.
    + unfold complete. setoid_rewrite missing_other; [|done..]. naive_solver.
  - intros k' w [Hin|Hin]%elem_of_app; [by apply He|]. apply list_elem_of_singleton in Hin as [= -> ->]. done.
Qed.

(** A complete file joins the batch, unless its content has another object id. *)
Lemma add_write_ok P W0 s w Wh B k j e f content digest P' pending' :
  P' = {[(k, j)]} ∪ P ->
  frame_inv P W0 s w Wh B -> nget (files m) k = Some e -> nget (fragments e) j = Some f -> (k, j) ∉ P ->
  complete P' k e -> bytes_cow content = content_of e -> digest = blob_id (content_of e) ->
  pending_ok P' pending' -> frag_fits f ->
  exists s' r, add_write link_resolves (Some dir) e digest content w (set_pending pending' s) = (s', r) /\
    (forall w', r = Ok w' -> exists Wh' B', frame_inv P' W0 s' w' Wh' B') /\ (good -> is_ok r = true).
Proof.
  intros -> Hinv Hk Hf Hn Hc Hb Hid Hp Hfit. unfold add_write. case_bool_decide as Hd.
  2:{ eexists _, _. split; [done|]. split; [done|]. intros [_ _ Hg _]. exfalso. apply Hd. rewrite Hid.
      rewrite Forall_forall in Hg. apply Hg. unfold nget in Hk. by eapply list_elem_of_lookup_2. }
  set (w1 := {| fw_pending_writes := _; fw_written := _; fw_stats := _ |}).
  assert (Hinv1 : frame_inv ({[(k, j)]} ∪ P) W0 (set_pending pending' s) w1 Wh (B ++ [(k, {| ow_entry := e; ow_content := content |})])).
  { destruct Hinv as [H1 H2 H3 H4 H5 H6]. constructor; cbn; try done.
    - rewrite !app_assoc. rewrite <- (app_assoc W0). eapply writes_ok_complete; try done. by rewrite <- Hid.
    - rewrite map_app, H3. done.
    - intros k' j' [[= -> ->]%elem_of_singleton|Hin]%elem_of_union; [eauto|by apply H6]. }
  destruct (_ <=? _)%N.
  - destruct (flush link_resolves dir w1 (set_pending pending' s)) as [s' r] eqn:E. exists s', r. split; [done|]. split.
    + intros w' ->. eexists _, _. eapply flush_ok; done.
    + intros Hg. destruct (flush_total _ _ _ _ _ _ Hg Hinv1) as (s2 & w2 & H). rewrite E in H. by injection H as _ ->.
  - eexists _, _. split; [done|]. split; [|done]. intros w' [= <-]. eauto.
Qed.

Lemma frag_content f idx :
  frame_index f = idx -> frag_fits f ->
  context (checked_add usize_max (frame_offset f) (fg_raw_len f)) "fragment frame slice end overflow" = Ok (frame_offset f + fg_raw_len f)%N /\
  context (get_range (raws idx) (frame_offset f) (frame_offset f + fg_raw_len f)) "fragment extends past frame"
    = Ok (slice_bytes (slice_of f)).
Proof.
  intros <- [Hf Hm]. split; apply context_ok; [by apply checked_add_Some|]. apply get_range_Some. split_and!; [lia|done|done].
Qed.

Lemma single_fragment e j f : (nlen (fragments e) =? 1)%N = true -> nget (fragments e) j = Some f -> fragments e = [f] /\ j = 0%N.
Proof.
  intros H%N.eqb_eq Hf. unfold nget, nlen in *. destruct (fragments e) as [|f0 [|]]; cbn in H; try lia.
  destruct (N.to_nat j) eqn:E; cbn in Hf; [|done]. injection Hf as ->. split; [done|lia].
Qed.

(** One turn of the loop over a frame's fragments. *)
Lemma write_fragment_ok P W0 s w Wh B idx k j e f :
  frame_inv P W0 s w Wh B -> nget (files m) k = Some e -> nget (fragments e) j = Some f -> frame_index f = idx ->
  (k, j) ∉ P ->
  exists s' r, write_fragment sha1 link_resolves m (Some dir) (raws idx) w (k, j) s = (s', r) /\
    (forall w', r = Ok w' -> exists Wh' B', frame_inv ({[(k, j)]} ∪ P) W0 s' w' Wh' B') /\ (good -> is_ok r = true).
Proof.
  intros Hinv Hk Hf Hidx Hn.
  assert (Hgood : good -> frag_fits f).
  { intros [_ _ _ Hg]. rewrite Forall_forall in Hg. unfold nget in *.
    specialize (Hg e (list_elem_of_lookup_2 _ _ _ Hk)). rewrite Forall_forall in Hg. by apply Hg, (list_elem_of_lookup_2 _ _ _ Hf). }
  unfold write_fragment, sbind, lift. rewrite Hk. cbn [context]. rewrite Hf. cbn [context].
  destruct (context (checked_add _ _ _) _) as [end_|] eqn:Ea.
  2:{ eexists _, _. split; [done|]. split; [done|]. intros Hg. destruct (frag_content f idx Hidx (Hgood Hg)). congruence. }
  pose proof Ea as Ha. apply context_ok, checked_add_Some in Ha as [-> Hm].
  destruct (context (get_range _ _ _) _) as [c|] eqn:Er.
  2:{ eexists _, _. split; [done|]. split; [done|]. intros Hg. destruct (frag_content f idx Hidx (Hgood Hg)). congruence. }
  pose proof Er as Hr. apply context_ok, get_range_Some in Hr as (_ & Hlen & ->).
  assert (Hfit : frag_fits f) by (split; [by rewrite Hidx|done]). clear Ea Er Hgood.
  set (P' := {[(k, j)]} ∪ P). destruct (nlen (fragments e) =? 1)%N eqn:E1.
  - destruct (single_fragment _ _ _ E1 Hf) as [Hfs ->].
    assert (Hco : content_of e = slice (raws idx) (frame_offset f) (frame_offset f + fg_raw_len f)).
    { unfold ExtractInv.content_of. rewrite Hfs. cbn. rewrite app_nil_r. unfold slice_bytes. cbn. by rewrite Hidx. }
    replace s with (set_pending (s_pending s) s) by by destruct s.
    eapply (add_write_ok P W0 s w Wh B k 0%N e f _ _ P'); try done.
    + apply complete_all. intros j' f' Hf'. destruct (single_fragment _ _ _ E1 Hf') as [_ ->]. set_solver.
    + by rewrite Hco.
    + intros k'. rewrite (fr_pending _ _ _ _ _ _ Hinv k'). destruct (decide (k' = k)) as [->|Hne].
      * rewrite Hk. apply N.eqb_eq in E1. rewrite E1. done.
      * destruct (nget (files m) k') as [e'|]; [|done]. subst P'. by rewrite missing_other, row_other.
  - unfold zoom.
    destruct (complete_fragment_ok m raws P (s_pending s) k j e f (fr_pending _ _ _ _ _ _ Hinv) Hk E1 Hf Hn) as (pending' & Hp' & Hc).
    assert (Hsl : {| fl_data := raws idx; fl_offset := frame_offset f; fl_len := fg_raw_len f |} = slice_of f).
    { unfold ExtractInv.slice_of. by rewrite Hidx. }
    rewrite Hsl, Hc. fold P'. fold P' in Hp'. destruct (N.eqb_spec (nlen (missing P' k e)) 0) as [H0|H0].
    + assert (Hcomp : complete P' k e) by (unfold complete, nlen in *; destruct (missing P' k e); [done|cbn in H0; lia]).
      rewrite (row_complete raws P' k e Hcomp).
      eapply (add_write_ok P W0 s w Wh B k j e f _ _ P'); try done.
      unfold sha1_digest_fragments_recorded, blob_id. rewrite nsum_lens; [done|].
      apply list.Forall_forall. intros f' Hf'. apply list_elem_of_lookup in Hf' as [j' Hj'].
      assert (Hin : (k, N.of_nat j') ∈ P').
      { apply (proj1 (complete_all P' k e) Hcomp (N.of_nat j') f'). unfold nget. by rewrite Nat2N.id. }
      apply elem_of_union in Hin as [[= <-]%elem_of_singleton|Hin].
      * unfold nget in Hf. rewrite Nat2N.id, Hj' in Hf. by injection Hf as ->.
      * destruct (fr_fits _ _ _ _ _ _ Hinv _ _ Hin) as (e' & f'' & He' & Hf'' & Hfit').
        rewrite Hk in He'. injection He' as <-. unfold nget in Hf''. rewrite Nat2N.id, Hj' in Hf''. by injection Hf'' as ->.
    + eexists _, _. split; [done|]. split; [|done]. intros w' [= <-]. exists Wh, B.
      destruct Hinv as [H1 H2 H3 H4 H5 H6]. constructor; try done.
      * eapply writes_ok_partial; [done|done|]. intros Hcomp. apply H0. fold P' in Hcomp. by rewrite Hcomp.
      * intros k' j' [[= -> ->]%elem_of_singleton|Hin]%elem_of_union; [eauto|by apply H6].
Qed.

(** Pairs of one frame, none handled before. *)
Definition fresh_pairs (idx : N) (P : gset (N * N)) (l : list (N * N)) : Prop :=
  NoDup l /\ forall k j, (k, j) ∈ l -> (k, j) ∉ P /\
    exists e f, nget (files m) k = Some e /\ nget (fragments e) j = Some f /\ frame_index f = idx.

Lemma write_pairs_ok idx l P W0 s w Wh B :
  frame_inv P W0 s w Wh B -> fresh_pairs idx P l ->
  exists s' r, sfold (write_fragment sha1 link_resolves m (Some dir) (raws idx)) w l s = (s', r) /\
    (forall w', r = Ok w' -> exists Wh' B', frame_inv (list_to_set l ∪ P) W0 s' w' Wh' B') /\ (good -> is_ok r = true).
Proof.
  revert P s w Wh B. induction l as [|[k j] l IH]; intros P s w Wh B Hinv [Hnd Hl].
  { eexists _, _. split; [done|]. split; [|done]. intros w' [= <-]. exists Wh, B.
    change (list_to_set [] ∪ P) with (∅ ∪ P). by rewrite union_empty_l_L. }
  apply NoDup_cons in Hnd as [Hkj Hnd]. destruct (Hl k j (list_elem_of_here _ _)) as (Hn & e & f & Hk & Hf & Hidx).
  destruct (write_fragment_ok P W0 s w Wh B idx k j e f Hinv Hk Hf Hidx Hn) as (s1 & r1 & H1 & Hok1 & Hg1).
  cbn [sfold]. unfold sbind. rewrite H1. destruct r1 as [w1|err].
  2:{ eexists _, _. split; [done|]. split; [done|]. intros Hg. by apply Hg1 in Hg. }
  destruct (Hok1 w1 eq_refl) as (Wh1 & B1 & Hinv1).
  destruct (IH ({[(k, j)]} ∪ P) s1 w1 Wh1 B1 Hinv1) as (s2 & r2 & H2 & Hok2 & Hg2).
  { split; [done|]. intros k' j' Hin. destruct (Hl k' j' (list_elem_of_further _ _ _ Hin)) as [Hn' He]. split; [|done].
    rewrite not_elem_of_union, not_elem_of_singleton. split; [|done]. intros [= -> ->]. done. }
  exists s2, r2. split; [done|]. split; [|done]. intros w' Hr. destruct (Hok2 w' Hr) as (Wh' & B' & H).
  exists Wh', B'. replace (list_to_set ((k, j) :: l) ∪ P) with (list_to_set l ∪ ({[(k, j)]} ∪ P)); [done|].
  cbn [list_to_set]. rewrite (union_assoc_L _ _ P). by rewrite (union_comm_L (list_to_set l)).
Qed.
End writes.

(** ** Frames *)
Section frames.
Context (decompress : bytes -> N -> Result bytes) (sha1 : bytes -> string)
  (link_resolves : FsTree -> list string -> bytes -> bool).
Context (m : MetadataChunk) (raws : N -> bytes) (dir : list string) (fs0 : FsTree).
Context (Hpaths : NoDup (map (file_target dir) (files m))).

(** The state between frames: the fragments of [P] have come. *)
Definition shared_inv (P : gset (N * N)) (W : list (N * OwnedFileWrite)) (s : Shared_) : Prop :=
  frame_inv sha1 m raws dir fs0 P W s no_writes [] [].
(** What a frame decompresses to. *)
Definition decodes (job : Job) (raw : bytes) : Prop :=
  exists c frame, job.2 = Ok c /\ nget (frames m) job.1 = Some frame /\
    decompress_frame_recorded decompress c frame = Ok raw /\ nlen raw = fi_raw_len frame.
Definition done_pairs (idxs : list N) : gset (N * N) := list_to_set (mjoin (map (pairs_of m) idxs)).

Lemma write_frame_ok P W s job :
  shared_inv P W s -> (forall raw, decodes job raw -> raws job.1 = raw) ->
  (forall x, x ∈ pairs_of m job.1 -> x ∉ P) ->
  exists s' r, write_frame decompress sha1 link_resolves m (Some dir) job s = (s', r) /\
    (forall n st, r = Ok (n, st) -> (job.1 < nlen (frames m))%N /\
       exists W', shared_inv (list_to_set (pairs_of m job.1) ∪ P) (W ++ W') s' /\ n = nlen W') /\
    (good sha1 m raws dir fs0 -> decodes job (raws job.1) -> (job.1 <= u32_max)%N -> is_ok r = true).
Proof.
  intros Hinv Hraw Hfresh. destruct job as [idx res]. cbn [fst] in *. unfold write_frame, sbind at 1, lift.
  destruct res as [c|]; [|eexists _, _; split; [done|]; split; [done|]; by intros _ (? & ? & [=] & _)].
  unfold sbind at 1. destruct (nget (frames m) idx) as [frame|] eqn:Ef; cbn [context].
  2:{ eexists _, _; split; [done|]; split; [done|]. intros _ (? & ? & _ & Hf & _). cbn in Hf. congruence. }
  unfold sbind at 1. destruct (decompress_frame_recorded decompress c frame) as [raw|] eqn:Ed.
  2:{ eexists _, _; split; [done|]; split; [done|]. intros _ (c' & f' & Hc & Hf & Hd & _). cbn in Hc, Hf. simplify_eq; congruence. }
  destruct (N.eqb_spec (nlen raw) (fi_raw_len frame)) as [Hlen|Hlen]; cbn [negb].
  2:{ eexists _, _; split; [done|]; split; [done|]. intros _ (c' & f' & Hc & Hf & Hd & Hl). cbn in Hc, Hf. simplify_eq; congruence. }
  rewrite <- (Hraw raw) in * by (by exists c, frame). unfold sbind at 1.
  destruct (context (try_from u32_max idx) _) as [key|] eqn:Ek.
  2:{ eexists _, _; split; [done|]; split; [done|]. intros _ _ Hu.
      by rewrite (proj2 (try_from_Some u32_max idx idx)) in Ek. }
  apply context_ok, try_from_Some in Ek as [-> _]. rewrite fragments_by_frame_pairs.
  destruct (write_pairs_ok sha1 link_resolves m raws dir fs0 Hpaths idx (pairs_of m idx) P W s no_writes [] [] Hinv)
    as (s1 & r1 & H1 & Hok1 & Hg1).
  { split; [apply pairs_of_NoDup|]. intros k j Hin. split; [by apply Hfresh|]. by apply elem_of_pairs_of. }
  unfold sbind at 1. rewrite H1. destruct r1 as [w1|].
  2:{ eexists _, _; split; [done|]; split; [done|]. intros Hg _ _. by apply Hg1 in Hg. }
  destruct (Hok1 w1 eq_refl) as (Wh & B & Hinv1). unfold sbind at 1.
  destruct (flush link_resolves dir w1 s1) as [s2 r2] eqn:E2. destruct r2 as [w2|].
  2:{ eexists _, _; split; [done|]; split; [done|]. intros Hg _ _.
      destruct (flush_total sha1 link_resolves m raws dir fs0 Hpaths _ _ _ _ _ _ Hg Hinv1) as (? & ? & H). congruence. }
  eexists _, _. split; [done|]. split; [|done]. intros n st [= <- <-].
  apply (flush_ok sha1 link_resolves m raws dir fs0 Hpaths _ _ _ _ _ _ _ _ Hinv1) in E2. split.
  { unfold nget in Ef. apply lookup_lt_Some in Ef. unfold nlen. lia. }
  exists (Wh ++ B). destruct E2 as [G1 G2 G3 G4 G5 G6]. split; [|done]. constructor; cbn; try done; by rewrite !app_nil_r in *.
Qed.

Lemma done_pairs_cons idx idxs : done_pairs (idx :: idxs) = list_to_set (pairs_of m idx) ∪ done_pairs idxs.
Proof. unfold done_pairs. cbn. apply list_to_set_app_L. Qed.
Lemma elem_of_done_pairs idxs k j :
  (k, j) ∈ done_pairs idxs <-> exists e f, nget (files m) k = Some e /\ nget (fragments e) j = Some f /\ frame_index f ∈ idxs.
Proof.
  unfold done_pairs. rewrite elem_of_list_to_set, list_elem_of_join. setoid_rewrite elem_of_lmap. split.
  - intros (l & Hin & idx & -> & Hidx). apply elem_of_pairs_of in Hin as (e & f & He & Hf & <-). eauto.
  - intros (e & f & He & Hf & Hidx). eexists. split; [|exists (frame_index f); split; [done|done]].
    apply elem_of_pairs_of. eauto.
Qed.

Lemma write_frames_length jobs s :
  length (write_frames decompress sha1 link_resolves m (Some dir) jobs s).2 = length jobs.
Proof.
  revert s. induction jobs as [|job jobs IH]; intros s; cbn [write_frames]; [done|].
  destruct (write_frame _ _ _ _ _ _ _) as [s1 r1]. specialize (IH s1).
  destruct (write_frames _ _ _ _ _ jobs s1) as [s2 rs]. cbn in *. by rewrite IH.
Qed.

(** The frames of [jobs], in any order, after those of [idxs]. *)
Lemma write_frames_ok jobs idxs W s :
  shared_inv (done_pairs idxs) W s -> NoDup (map fst jobs) -> (forall i, i ∈ map fst jobs -> i ∉ idxs) ->
  (forall job raw, job ∈ jobs -> decodes job raw -> raws job.1 = raw) ->
  let '(s', results) := write_frames decompress sha1 link_resolves m (Some dir) jobs s in
  (Forall (fun r => is_ok r = true) results ->
   exists W' idxs', shared_inv (done_pairs idxs') (W ++ W') s' /\ (forall i, i ∈ idxs' <-> i ∈ map fst jobs \/ i ∈ idxs) /\
     Forall (fun job => (job.1 < nlen (frames m))%N) jobs /\
     forall n st, (foldl gather (n, st, None) results).1.1 = (n + nlen W')%N /\ (foldl gather (n, st, None) results).2 = None) /\
  (good sha1 m raws dir fs0 -> Forall (fun job => decodes job (raws job.1) /\ (job.1 <= u32_max)%N) jobs ->
   Forall (fun r => is_ok r = true) results).
Proof.
  revert idxs W s. induction jobs as [|job jobs IH]; intros idxs W s Hinv Hnd Hnew Hraw; cbn [write_frames].
  { split; [|done]. intros _. exists [], idxs. rewrite app_nil_r. split_and!; [done|set_solver|constructor|].
    intros n st. cbn. split; [unfold nlen; cbn; lia|done]. }
  cbn in Hnd. apply NoDup_cons in Hnd as [Hj Hnd].
  destruct (write_frame_ok (done_pairs idxs) W s job Hinv) as (s1 & r1 & H1 & Hok1 & Hg1).
  { intros raw. apply Hraw. set_solver. }
  { intros [k j] (e & f & He & Hf & Hidx)%elem_of_pairs_of (e' & f' & He' & Hf' & Hin)%elem_of_done_pairs.
    rewrite He in He'. injection He' as <-. rewrite Hf in Hf'. injection Hf' as <-. rewrite Hidx in Hin.
    apply (Hnew job.1); [set_solver|done]. }
  rewrite H1. destruct (write_frames _ _ _ _ _ jobs s1) as [s2 results] eqn:E2.
  destruct r1 as [[n1 st1]|err].
  2:{ split; [by intros [? _]%Forall_cons|]. intros Hg [[Hd Hu] _]%Forall_cons. by apply (Hg1 Hg Hd) in Hu. }
  destruct (Hok1 n1 st1 eq_refl) as (Hlt & W1 & Hinv1 & ->). rewrite <- done_pairs_cons in Hinv1.
  specialize (IH (job.1 :: idxs) (W ++ W1) s1 Hinv1 Hnd). rewrite E2 in IH. destruct IH as [IHok IHgood].
  { intros i Hi. rewrite not_elem_of_cons. split; [by intros ->|]. apply Hnew. cbn. set_solver. }
  { intros job' raw Hin. apply Hraw. set_solver. }
  split.
  - intros [_ Hall]%Forall_cons. destruct (IHok Hall) as (W2 & idxs' & Hinv2 & Hin & Hjobs & Hfold).
    exists (W1 ++ W2), idxs'. rewrite app_assoc. split_and!; [done| |by constructor|].
    + intros i. rewrite Hin. cbn. set_solver.
    + intros n st. cbn [foldl gather]. destruct (Hfold (n + nlen W1)%N (st ++ st1)) as [-> ->]. rewrite nlen_app. split; [lia|done].
  - intros Hg [_ Hjobs]%Forall_cons. constructor; [done|]. by apply IHgood.
Qed.
End frames.
