(* ===== verification/ExtractThms.v ===== *)
(** What extraction guarantees: whatever the chunks hold and in whatever order the
    frames come, a successful extraction left every file of the table with its
    mode and a content that has its git object id; and when the chunks hold what
    the table says, it succeeds. *)

From S2P Require Import Prelude Validation Paths Outputs Manifest WorktreeWriter Extract ExtractInv.

(** ** Small lemmas *)
Lemma gather_error results acc :
  (foldl gather acc results).2 = None -> acc.2 = None /\ Forall (fun r => is_ok r = true) results.
Proof.
  revert acc. induction results as [|r results IH]; intros [[n st] err] H; cbn in *; [by split|].
  apply IH in H as [H Hall]. destruct r as [[k s]|e]; cbn in H; [|done]. split; [done|]. by constructor.
Qed.

(** As many distinct numbers below [n] as there are: all of them. *)
Lemma all_below (n : N) (l : list N) : NoDup l -> (forall k, k ∈ l -> k < n)%N -> nlen l = n -> forall k, (k < n)%N -> k ∈ l.
Proof.
  intros Hnd Hlt Hlen k Hk.
  assert (Hsub : l ⊆+ map N.of_nat (seq 0 (N.to_nat n))).
  { apply NoDup_submseteq; [done|]. intros i Hi. apply elem_of_lmap. exists (N.to_nat i).
    split; [lia|]. apply elem_of_seq. specialize (Hlt i Hi). lia. }
  apply submseteq_length_Permutation in Hsub; [|rewrite length_map, length_seq; unfold nlen in Hlen; lia].
  rewrite Hsub. apply elem_of_lmap. exists (N.to_nat k). split; [lia|]. apply elem_of_seq. lia.
Qed.

Section extract.
Context (decompress : bytes -> N -> Result bytes) (sha1 : bytes -> string)
  (link_resolves : FsTree -> list string -> bytes -> bool).
Context (m : MetadataChunk) (dir : list string).

(** The raw frames the jobs give. *)
Definition raws_of (jobs : list Job) (i : N) : bytes :=
  default [] (res ← (list_to_map jobs : gmap N (Result bytes)) !! i; c ← ok res; frame ← nget (frames m) i;
              ok (decompress_frame_recorded decompress c frame)).
Lemma raws_of_decodes jobs job raw :
  NoDup (map fst jobs) -> job ∈ jobs -> decodes decompress m job raw -> raws_of jobs job.1 = raw.
Proof.
  intros Hnd Hin (c & frame & Hc & Hf & Hd & _). unfold raws_of.
  rewrite (elem_of_list_to_map_1 jobs job.1 job.2); [|done|by destruct job].
  rewrite Hc. cbn. rewrite Hf. cbn. by rewrite Hd.
Qed.

Lemma start_inv raws fs :
  shared_inv sha1 m raws dir fs ∅ [] {| s_fs := fs; s_pending := initial_pending m |}.
Proof.
  constructor; cbn; [| |done|done|apply initial_pending_ok|by intros k j []%not_elem_of_empty].
  - constructor; cbn; [constructor| |set_solver]. intros k. split; [set_solver|].
    intros (e & _ & Hne & Hc). unfold complete in Hc. rewrite missing_empty in Hc.
    apply (f_equal nlen) in Hc. rewrite nlen_enumerate in Hc. unfold nlen in Hc. destruct (fragments e); [done|cbn in Hc; lia].
  - split; [apply same_but_refl|constructor].
Qed.

(** Frames that all succeed and write as many files as the table has, write every
    file. *)
Lemma all_written raws fs0 P W s :
  shared_inv sha1 m raws dir fs0 P W s -> nlen W = nlen (files m) ->
  Forall (fun e => s_fs s !! file_target dir e = Some (node_of (fe_mode e) (content_of raws e)) /\
    blob_id sha1 (content_of raws e) = blob_sha1 e) (files m).
Proof.
  intros [H1 [Hs Hf] _ _ _ _] Hn. rewrite app_nil_r in *. destruct H1 as [Hnd Hc He].
  apply Forall_lookup_2. intros i e Hi.
  assert (Hlt : forall k, k ∈ map fst W -> (k < nlen (files m))%N).
  { intros k ([k' w] & -> & Hin)%elem_of_lmap. destruct (He k' w Hin) as [Hk _]. unfold nget in Hk.
    apply lookup_lt_Some in Hk. unfold nlen. cbn. lia. }
  assert (Hin : N.of_nat i ∈ map fst W).
  { apply (all_below (nlen (files m)) _ Hnd Hlt); [by rewrite nlen_map|]. apply lookup_lt_Some in Hi. unfold nlen. lia. }
  apply elem_of_lmap in Hin as ([k w] & Hk & Hin). cbn in Hk. subst k. destruct (He _ _ Hin) as (Hw & Hb & Hid).
  unfold nget in Hw. rewrite Nat2N.id, Hi in Hw. injection Hw as ->. split; [|done].
  rewrite Forall_forall in Hf. specialize (Hf _ Hin). cbn in Hf. unfold write_target, write_node in Hf. by rewrite Hb in Hf.
Qed.

(** C29: integrity, whatever the frames held and in whatever order they came: when the
    extraction of a table whose files' paths lead to distinct places succeeds, each
    frame handed out at most once, every file of the table is in the tree with its
    mode (a symbolic link for a link entry) and a content whose git object id is the
    entry's, and the count is exact. Two entries [d/b] and [d//b], which
    [validate_geometry] takes for two paths, are one place ([same_place_overwritten]). *)
Theorem extract_integrity jobs fs fs' stats :
  extract_frames decompress sha1 link_resolves m (Some dir) jobs fs = (fs', Ok stats) ->
  NoDup (map fst jobs) -> length jobs <= length (frames m) ->
  NoDup (map (fun e => path_names (fe_path e)) (files m)) ->
  Forall (fun e => exists content,
    fs' !! target_path dir (fe_path e) = Some (node_of (fe_mode e) content) /\
    blob_id sha1 content = blob_sha1 e) (files m) /\
  es_files stats = nlen (files m).
Proof.
  intros H Hnd Hlen Hpaths. unfold extract_frames in H. destruct (collect _ (files m)); [|done].
  destruct (prepare_worktree_dirs dir m fs) as [fs1 [[]|e]]; [|done].
  destruct (write_frames _ _ _ _ _ _ _) as [s results] eqn:E.
  assert (Hres : length results = length jobs) by (pose proof (write_frames_length decompress sha1 link_resolves m dir jobs
    {| s_fs := fs1; s_pending := initial_pending m |}) as Hl; by rewrite E in Hl).
  rewrite take_ge in H by lia. destruct (foldl gather _ results) as [[written st] error] eqn:Eg.
  injection H as <- H. apply rbind_ok in H as (total & _ & H).
  case_bool_decide; [done|]. destruct error as [err|]; [done|].
  destruct (N.eqb_spec written (nlen (files m))) as [Hw|]; [|done]. cbn [negb] in H. injection H as <-.
  assert (Ht : NoDup (map (file_target dir) (files m))).
  { assert (Heq : map (file_target dir) (files m) = app dir <$> map (fun e => path_names (fe_path e)) (files m)) by (symmetry; apply map_map).
    rewrite Heq. by apply NoDup_fmap_2; [intros ???; by eapply app_inv_head|]. }
  pose proof (write_frames_ok decompress sha1 link_resolves m (raws_of jobs) dir fs1 Ht jobs [] [] _ (start_inv _ _) Hnd) as Hf.
  rewrite E in Hf. destruct Hf as [Hf _]; [set_solver|intros; by apply raws_of_decodes|].
  destruct (gather_error results (0%N, [], None)) as [_ Hall]; [by rewrite Eg|].
  destruct (Hf Hall) as (W & idxs & Hinv & _ & _ & Hfold). destruct (Hfold 0%N []) as [Hn _]. rewrite Eg in Hn. cbn in Hn.
  cbn in Hinv. split; [|done].
  pose proof (all_written _ _ _ _ _ Hinv ltac:(lia)) as Hfiles. eapply Forall_impl; [exact Hfiles|]. cbn. intros e [He1 He2]. eauto.
Qed.

(** ** A sound archive is extracted *)

(** Files are leaves: no file's path leads through another file or a gitlink's
    directory, as in every git tree. *)
Definition files_are_leaves : Prop :=
  forall e q, e ∈ files m -> q ∈ map fe_path (files m) ++ gitlinks m ->
    path_names (fe_path e) `prefix_of` path_names q -> fe_path e = q.
(** A clone's new directory: empty. *)
Definition fresh_dir (fs : FsTree) : Prop :=
  fs !! dir = Some Dir /\ forall ns, ns <> [] -> fs !! (dir ++ ns) = None.

Lemma elem_of_dedup_paths l p : p ∈ dedup_paths l -> p ∈ l.
Proof.
  induction l as [|q l IH]; cbn; [done|]. destruct (existsb _ l); [set_solver|].
  intros [->|H]%elem_of_cons; set_solver.
Qed.
Lemma dedup_paths_names l p : p ∈ l -> exists q, q ∈ dedup_paths l /\ path_names q = path_names p.
Proof.
  revert p. induction l as [|r l IH]; [set_solver|]. cbn. intros p [->|Hp]%elem_of_cons; destruct (existsb _ l) eqn:E.
  - apply existsb_exists in E as (q & Hq%list_elem_of_In & Hb%bool_decide_eq_true).
    destruct (IH q Hq) as (q' & Hq' & Hn). exists q'. split; [done|congruence].
  - exists r. split; [set_solver|done].
  - by apply IH.
  - destruct (IH p Hp) as (q & Hq & Hn). exists q. split; [set_solver|done].
Qed.

Lemma parent_names p : validate_relative_path p = Ok tt ->
  (parent_path p = "" <-> removelast (path_names p) = []) /\
  (removelast (path_names p) <> [] ->
   validate_relative_path (parent_path p) = Ok tt /\ path_names (parent_path p) = removelast (path_names p)).
Proof.
  intros Hv. destruct (names_good p Hv) as (Hne & Hg & _).
  assert (Hg' : Forall good_name (removelast (path_names p))).
  { apply list.Forall_forall. intros n Hn. rewrite Forall_forall in Hg. apply Hg.
    destruct (path_names p) as [|x l _] using rev_ind; [done|]. rewrite removelast_last in Hn. set_solver. }
  unfold parent_path. fold (path_names p). split; [split|].
  - intros E. destruct (removelast (path_names p)) as [|n l] eqn:El; [done|]. exfalso.
    apply Forall_cons in Hg' as [Hn _]. pose proof (gn_nonempty _ Hn).
    destruct l; cbn [join_with] in E; [congruence|]. by destruct n.
  - by intros ->.
  - intros Hne'. by apply join_names.
Qed.

(** The directories made leave every file's place free, in a directory. *)
Lemma prepare_total fs :
  geometry_ok m -> files_are_leaves -> fresh_dir fs ->
  exists fs', prepare_worktree_dirs dir m fs = (fs', Ok tt) /\
    Forall (fun e => fs' !! file_target dir e = None /\ fs' !! removelast (file_target dir e) = Some Dir) (files m) /\
    Forall (fun g => fs' !! (dir ++ path_names g) = Some Dir) (gitlinks m) /\
    (forall p, (forall ns, ns <> [] -> p <> dir ++ ns) -> fs' !! p = fs !! p).
Proof.
  intros Hgeo Hleaf [Hdir Hnew].
  assert (Hvf : forall e, e ∈ files m -> validate_relative_path (fe_path e) = Ok tt).
  { intros e He. pose proof (geo_files _ Hgeo) as Hf. rewrite Forall_forall in Hf. apply (fo_path _ _ (Hf e He)). }
  assert (Hvg : forall g, g ∈ gitlinks m -> validate_relative_path g = Ok tt).
  { intros g Hg. pose proof (geo_gitlinks _ Hgeo) as Hf. rewrite Forall_forall in Hf. apply (Hf g Hg). }
  assert (Hdirs : forall d, d ∈ worktree_dirs m -> validate_relative_path d = Ok tt /\
    ((exists e, e ∈ files m /\ path_names d = removelast (path_names (fe_path e))) \/ d ∈ gitlinks m)).
  { intros d [[(e & -> & He)%elem_of_lmap Hne]%elem_of_lfilter|Hd]%elem_of_app; [|by auto].
    destruct (parent_names _ (Hvf e He)) as [H1 H2]. apply negb_true_iff, bool_decide_eq_false in Hne.
    destruct H2 as [H2 H3]; [by intros E; apply Hne, H1|]. split; [done|]. left. by exists e. }
  unfold prepare_worktree_dirs, sbind, lift.
  rewrite (collect_total _ (fun _ => tt)).
  2:{ apply list.Forall_forall. intros p [(e & -> & He)%elem_of_lmap|Hg]%elem_of_app; auto. }
  set (dirs := sort_by path_le (dedup_paths (worktree_dirs m))).
  assert (Hin : forall d, d ∈ dirs -> d ∈ worktree_dirs m).
  { intros d Hd. apply elem_of_dedup_paths. by apply elem_of_sort_by in Hd. }
  assert (Hsame : forall d, d ∈ worktree_dirs m -> exists q, q ∈ dirs /\ path_names q = path_names d).
  { intros d (q & Hq & Hn)%dedup_paths_names. exists q. split; [by apply elem_of_sort_by|done]. }
  destruct (create_all_total dir dirs fs) as (fs' & H1 & Hd' & Hk & Hs & Hn).
  { split; [done|]. intros ns x Hx. destruct (decide (ns = [])) as [->|Hne]; [rewrite app_nil_r in Hx; congruence|].
    by rewrite Hnew in Hx. }
  { apply list.Forall_forall. intros d Hd. by apply Hdirs, Hin. }
  exists fs'. split_and!; [done| | |].
  - apply list.Forall_forall. intros e He. destruct (names_good _ (Hvf e He)) as (Hne & _ & _).
    unfold file_target, target_path. fold (path_names (fe_path e)). split.
    + destruct (fs' !! (dir ++ path_names (fe_path e))) as [x|] eqn:E; [exfalso|done].
      destruct (Hn (dir ++ path_names (fe_path e))) as (d & k & Hd & Hkl & Heq); [by rewrite E, Hnew|].
      apply app_inv_head in Heq. destruct (Hdirs d (Hin d Hd)) as [Hvd [(e' & He' & Hnames)|Hg]].
      * assert (Hpre : path_names (fe_path e) `prefix_of` path_names (fe_path e')).
        { rewrite Heq, Hnames, removelast_firstn_len, take_take. apply prefix_take. }
        apply Hleaf in Hpre as Hp; [|done|apply elem_of_app; left; apply elem_of_lmap; eauto].
        apply (f_equal length) in Heq. rewrite Hnames, Hp, length_take, removelast_firstn_len, length_take in Heq.
        destruct (path_names (fe_path e')) eqn:En; [by rewrite Hp in Hne; rewrite En in Hne|cbn in Heq; lia].
      * assert (Hpre : path_names (fe_path e) `prefix_of` path_names d) by (rewrite Heq; apply prefix_take).
        apply Hleaf in Hpre as Hp; [|done|apply elem_of_app; by right].
        pose proof (geo_paths _ Hgeo) as Hnd. apply NoDup_app in Hnd as (_ & Hnd & _). apply (Hnd d); [|done].
        rewrite <- Hp. apply elem_of_lmap. eauto.
    + rewrite removelast_app by done. destruct (decide (removelast (path_names (fe_path e)) = [])) as [E|E].
      { rewrite E, app_nil_r. by apply Hs. }
      destruct (parent_names _ (Hvf e He)) as [Hempty Hpar]. destruct (Hpar E) as [Hvp Hnp].
      destruct (Hsame (parent_path (fe_path e))) as (q & Hq & Hnames).
      { apply elem_of_app. left. apply elem_of_lfilter. split; [apply elem_of_lmap; eauto|].
        apply negb_true_iff, bool_decide_eq_false. intros E'. by apply E, Hempty. }
      specialize (Hk q (length (path_names q)) Hq ltac:(lia)). by rewrite firstn_all, Hnames, Hnp in Hk.
  - apply list.Forall_forall. intros g Hg. destruct (Hsame g) as (q & Hq & Hnames); [apply elem_of_app; auto|].
    specialize (Hk q (length (path_names q)) Hq ltac:(lia)). by rewrite firstn_all, Hnames in Hk.
  - intros p Hp. destruct (decide (fs' !! p = fs !! p)) as [|Hne]; [done|exfalso].
    destruct (Hn p Hne) as (d & k & Hd & Hkl & ->). apply (Hp (take k (path_names d))); [|done].
    intros E. apply (f_equal length) in E. rewrite length_take in E. cbn in E. lia.
Qed.

(** When every fragment's frame has come, every file is written. *)
Lemma files_counted raws fs0 idxs W s :
  shared_inv sha1 m raws dir fs0 (done_pairs m idxs) W s ->
  (forall e f, e ∈ files m -> f ∈ fragments e -> frame_index f ∈ idxs) ->
  (forall e, e ∈ files m -> fragments e <> []) -> nlen W = nlen (files m).
Proof.
  intros [Hw _ _ _ _ _] Hidx Hne. rewrite app_nil_r in Hw. destruct Hw as [Hnd Hc _].
  assert (Hperm : map fst W ≡ₚ map N.of_nat (seq 0 (length (files m)))).
  { apply NoDup_Permutation; [done|apply NoDup_fmap_2; [by intros ?? ?%Nat2N.inj|apply NoDup_seq]|].
    intros k. rewrite Hc, elem_of_lmap. unfold nget. split.
    - intros (e & Hk & _). exists (N.to_nat k). split; [lia|]. apply elem_of_seq. apply lookup_lt_Some in Hk. lia.
    - intros (i & -> & Hi%elem_of_seq). rewrite Nat2N.id. destruct (lookup_lt_is_Some_2 (files m) i ltac:(lia)) as [e He].
      pose proof (list_elem_of_lookup_2 _ _ _ He) as Hin. exists e. split_and!; [done|by apply Hne|].
      apply complete_all. intros j f Hf. apply elem_of_done_pairs. exists e, f. unfold nget. rewrite Nat2N.id.
      split_and!; [done|done|]. apply (Hidx e f Hin). unfold nget in Hf. by eapply list_elem_of_lookup_2. }
  apply Permutation_length in Hperm. rewrite !length_map, length_seq in Hperm. unfold nlen. lia.
Qed.

Lemma leaves_distinct : geometry_ok m -> files_are_leaves -> NoDup (map (file_target dir) (files m)).
Proof.
  intros Hgeo Hleaf. pose proof (geo_paths _ Hgeo) as Hnd. apply NoDup_app in Hnd as (Hnd & _ & _).
  change (map (file_target dir) (files m)) with (file_target dir <$> files m).
  apply NoDup_fmap_2_strong; [|by eapply NoDup_fmap_1].
  intros e e' He He' Heq%app_inv_head. eapply (NoDup_map_inj fe_path (files m)); [done|done|done|].
  apply Hleaf; [done|apply elem_of_app; left; apply elem_of_lmap; eauto|].
  unfold path_names. by rewrite Heq.
Qed.

Lemma gather_ok results n st : Forall (fun r => is_ok r = true) results -> (foldl gather (n, st, None) results).2 = None.
Proof.
  intros Hall. revert n st. induction Hall as [|r results Hr _ IH]; intros n st; cbn; [done|].
  destruct r as [[k s]|e]; [apply IH|done].
Qed.

Lemma extract_sound raws jobs fs :
  geometry_ok m -> files_are_leaves -> fresh_dir fs ->
  (frames m = [] -> files m = []) -> (nlen (frames m) <= u32_max)%N -> is_ok (raw_total m) = true ->
  NoDup (map fst jobs) -> length jobs = length (frames m) ->
  Forall (fun job => decodes decompress m job (raws job.1)) jobs ->
  Forall (fun e => blob_id sha1 (content_of raws e) = blob_sha1 e) (files m) ->
  exists fs' stats, extract_frames decompress sha1 link_resolves m (Some dir) jobs fs = (fs', Ok stats) /\
    es_files stats = nlen (files m) /\
    Forall (fun e => fs' !! target_path dir (fe_path e) = Some (node_of (fe_mode e) (content_of raws e))) (files m) /\
    Forall (fun g => fs' !! (dir ++ path_names g) = Some Dir) (gitlinks m) /\
    (forall p, (forall ns, ns <> [] -> p <> dir ++ ns) -> fs' !! p = fs !! p).
Proof.
  intros Hgeo Hleaf Hfresh Hempty Hmax Hraw Hnd Hlen Hjobs Hblobs.
  unfold Job in *. pose proof (leaves_distinct Hgeo Hleaf) as Ht. destruct (prepare_total fs Hgeo Hleaf Hfresh) as (fs1 & Hprep & Hnew & Hlinks & Hout).
  assert (Hfiles : forall e, e ∈ files m -> file_ok (frames m) e).
  { pose proof (geo_files _ Hgeo) as Hf. by rewrite Forall_forall in Hf. }
  assert (Hidx : forall i, (i < nlen (frames m))%N -> i ∈ map fst jobs).
  { apply all_below; [done| |unfold nlen; rewrite length_map; lia]. intros i (job & -> & Hin)%elem_of_lmap.
    rewrite Forall_forall in Hjobs. destruct (Hjobs job Hin) as (c & frame & _ & Hf & _).
    unfold nget in Hf. apply lookup_lt_Some in Hf. unfold nlen. lia. }
  assert (Hgood : good sha1 m raws dir fs1).
  { constructor; [|done|done|].
    - apply list.Forall_forall. intros e He. split; apply (Hfiles e He).
    - apply list.Forall_forall. intros e He. eapply Forall_impl; [apply (fo_fragments _ _ (Hfiles e He))|].
      intros f (frame & Hf & Hb & Hu). assert (Hlt : (frame_index f < nlen (frames m))%N).
      { unfold nget in Hf. apply lookup_lt_Some in Hf. unfold nlen. lia. }
      apply Hidx, elem_of_lmap in Hlt as (job & Hj & Hin). rewrite Forall_forall in Hjobs.
      destruct (Hjobs job Hin) as (c & frame' & _ & Hf' & _ & Hl). rewrite <- Hj in *. rewrite Hf in Hf'. injection Hf' as <-.
      split; [lia|]. unfold usize_max, u64_max, u32_max in *. lia. }
  unfold extract_frames. rewrite (collect_total _ (fun _ => tt)).
  2:{ apply list.Forall_forall. intros e He. by rewrite (fo_blob _ _ (Hfiles e He)). }
  rewrite Hprep.
  pose proof (write_frames_ok decompress sha1 link_resolves m raws dir fs1 Ht jobs [] [] _ (start_inv _ _) Hnd) as Hw.
  pose proof (write_frames_length decompress sha1 link_resolves m dir jobs {| s_fs := fs1; s_pending := initial_pending m |}) as Hl.
  unfold Job in *.
  destruct (write_frames _ _ _ _ _ _ _) as [s results] eqn:E. cbn in Hl. destruct Hw as [Hok Hall]; [set_solver| |].
  { intros job raw Hin (c & f & H1 & H2 & H3 & _). rewrite Forall_forall in Hjobs.
    destruct (Hjobs job Hin) as (c' & f' & H1' & H2' & H3' & _). congruence. }
  destruct Hok as (W & idxs & Hinv & Hidxs & _ & Hfold).
  { apply Hall; [done|]. apply list.Forall_forall. intros job Hin. rewrite Forall_forall in Hjobs. split; [by apply Hjobs|].
    destruct (Hjobs job Hin) as (c & frame & _ & Hf & _). unfold nget in Hf. apply lookup_lt_Some in Hf. unfold nlen in Hmax. lia. }
  cbn in Hinv. assert (Hn : nlen W = nlen (files m)).
  { apply (files_counted _ _ _ _ _ Hinv).
    2:{ intros e He Hno. apply (fo_present _ _ (Hfiles e He)); [|done]. intros Hfr. rewrite Hempty in He by done. set_solver. }
    intros e f He Hf. rewrite Hidxs. left. apply Hidx. 
    pose proof (fo_fragments _ _ (Hfiles e He)) as Hfs. rewrite Forall_forall in Hfs.
    destruct (Hfs f Hf) as (frame & Hfr & _). unfold nget in Hfr. apply lookup_lt_Some in Hfr. unfold nlen. lia. }
  pose proof (all_written _ _ _ _ _ Hinv Hn) as Hwritten. destruct (Hfold 0%N []) as [Hn0 He0].
  destruct (foldl gather _ (take _ results)) as [[written st] error] eqn:Eg. rewrite take_ge in Eg by lia.
  rewrite Eg in Hn0, He0. cbn in He0.
  assert (Hw0 : written = nlen W) by exact Hn0. clear Hn0. subst error written.
  apply is_ok_true in Hraw as [total Hraw]. eexists _, _. rewrite Hraw. cbn [rbind].
  rewrite bool_decide_eq_false_2 by lia. rewrite (proj2 (N.eqb_eq _ _) Hn). cbn [negb].
  destruct Hinv as [Hwk [Hsame _] _ _ _ _]. rewrite app_nil_r in *.
  assert (Htargets : forall p, p ∈ targets dir W -> fs1 !! p = None /\ exists ns, ns <> [] /\ p = dir ++ ns).
  { intros p ([k w] & -> & Hin)%elem_of_lmap. destruct (wk_entry _ _ _ _ _ Hwk _ _ Hin) as [Hk _].
    unfold nget in Hk. apply list_elem_of_lookup_2 in Hk. cbn. rewrite Forall_forall in Hnew. split; [by apply Hnew|].
    exists (path_names (fe_path (ow_entry w))). split; [|done]. apply names_good, (fo_path _ _ (Hfiles _ Hk)). }
  split_and!; [done|done| | |].
  - eapply Forall_impl; [exact Hwritten|]. by intros e [He _].
  - apply list.Forall_forall. intros g Hg. rewrite Forall_forall in Hlinks. cbn.
    rewrite Hsame; [by apply Hlinks|]. intros [Hno _]%Htargets. by rewrite Hlinks in Hno.
  - intros p Hp. cbn. rewrite Hsame; [by apply Hout|]. intros (_ & ns & Hne & ->)%Htargets. by apply (Hp ns).
Qed.

(** C30: a sound archive is extracted in any order: when the frames decompress to
    [raws], every file's content has its object id, and the target is a new empty
    directory, then whatever the order in which the threads take the frames, the
    extraction succeeds, every file of the table is in the tree with its mode and
    exactly its bytes, every submodule is a directory, and nothing outside the
    target changed. *)
Theorem extract_any_order raws jobs fs :
  geometry_ok m -> files_are_leaves -> fresh_dir fs ->
  (frames m = [] -> files m = []) -> (nlen (frames m) <= u32_max)%N -> is_ok (raw_total m) = true ->
  NoDup (map fst jobs) -> length jobs = length (frames m) ->
  Forall (fun job => decodes decompress m job (raws job.1)) jobs ->
  Forall (fun e => blob_id sha1 (content_of raws e) = blob_sha1 e) (files m) ->
  exists fs' stats, extract_frames decompress sha1 link_resolves m (Some dir) jobs fs = (fs', Ok stats) /\
    es_files stats = nlen (files m) /\
    Forall (fun e => fs' !! target_path dir (fe_path e) = Some (node_of (fe_mode e) (content_of raws e))) (files m) /\
    Forall (fun g => fs' !! (dir ++ path_names g) = Some Dir) (gitlinks m) /\
    (forall p, (forall ns, ns <> [] -> p <> dir ++ ns) -> fs' !! p = fs !! p).
Proof. apply extract_sound. Qed.
End extract.

(** ** The theorems at an example

    Two frames of four and three bytes; [a] is in the first one, [d/b] in both,
    [sub] is a submodule. The frames come in reverse. *)
Module ExtractExample.
Definition oid : string := "aaaaaaaaaaaaaaaaaaaa".
Definition sha1 (_ : bytes) : string := oid.
Definition decompress (c : bytes) (_ : N) : Result bytes := Ok c.
Definition links (_ : FsTree) (_ : list string) (_ : bytes) : bool := false.
Definition fragment i off len : Fragment := {| frame_index := i; frame_offset := off; fg_raw_len := len |}.
Definition table : MetadataChunk := {|
  frames := [{| chunk_index := 0; chunk_offset := 0; compressed_len := 4; fi_raw_len := 4 |};
             {| chunk_index := 0; chunk_offset := 4; compressed_len := 3; fi_raw_len := 3 |}];
  files := [{| fe_path := "a"; fe_mode := 33188; blob_sha1 := oid; fragments := [fragment 0 0 3] |};
            {| fe_path := "d/b"; fe_mode := 33261; blob_sha1 := oid; fragments := [fragment 0 3 1; fragment 1 0 3] |}];
  gitlinks := ["sub"] |}.
Definition raws (i : N) : bytes := if (i =? 0)%N then [Byte.x61; Byte.x62; Byte.x63; Byte.x64] else [Byte.x65; Byte.x66; Byte.x67].
Definition jobs : list Job := [(1%N, Ok (raws 1)); (0%N, Ok (raws 0))].
Definition target : list string := ["t"%string].
Definition tree : FsTree := {[ target := Dir ]}.
Definition run := extract_frames decompress sha1 links table (Some target) jobs tree.
Definition result : FsTree := run.1.
Definition run_stats : ExtractStats := {| es_files := 2; es_raw_bytes := 7; es_stats := ["a"; "d/b"]%string |}.

Lemma table_ok : geometry_ok table.
Proof. apply (validate_geometry_ok table); [repeat constructor; by vm_compute|by vm_compute]. Qed.
Lemma run_ok : run = (result, Ok run_stats).
Proof. unfold result. by vm_compute. Qed.
End ExtractExample.

(** Two entries of one place: the table is valid, the extraction succeeds and counts
    two files, and only the content written last is there. *)
Module SamePlace.
Import ExtractExample.
Definition id_a : string := "aaaaaaaaaaaaaaaaaaaa".
Definition id_b : string := "bbbbbbbbbbbbbbbbbbbb".
Definition sha1 (b : bytes) : string := if bool_decide (last b = Some Byte.x63) then id_a else id_b.
Definition table : MetadataChunk := {|
  frames := [{| chunk_index := 0; chunk_offset := 0; compressed_len := 4; fi_raw_len := 4 |}];
  files := [{| fe_path := "d/b"; fe_mode := 33188; blob_sha1 := id_a; fragments := [fragment 0 0 3] |};
            {| fe_path := "d//b"; fe_mode := 33188; blob_sha1 := id_b; fragments := [fragment 0 3 1] |}];
  gitlinks := [] |}.
Lemma same_place_overwritten :
  validate_geometry table = Ok tt /\
  exists fs' stats, extract_frames decompress sha1 links table (Some target) [(0%N, Ok (raws 0))] tree = (fs', Ok stats) /\
    es_files stats = 2%N /\ fs' !! ["t"; "d"; "b"]%string = Some (File 420 [Byte.x64]).
Proof.
  split; [by vm_compute|]. eexists _, _. split; [vm_compute; reflexivity|]. split; by vm_compute.
Qed.
End SamePlace.

Lemma extract_integrity_witness :
  exists content,
    ExtractExample.result !! ["t"; "d"; "b"]%string = Some (File 493 content) /\
    blob_id ExtractExample.sha1 content = ExtractExample.oid.
Proof.
  pose proof (extract_integrity ExtractExample.decompress ExtractExample.sha1 ExtractExample.links ExtractExample.table
    ExtractExample.target ExtractExample.jobs ExtractExample.tree _ _ ExtractExample.run_ok) as H.
  destruct H as [H _].
  - apply NoDup_ListNoDup. repeat constructor; cbn; intuition discriminate.
  - cbn. lia.
  - apply NoDup_ListNoDup. repeat constructor; cbn; intuition discriminate.
  - apply Forall_cons in H as [_ [(content & H & Hid) _]%Forall_cons]. exists content. split; [exact H|exact Hid].
Defined.

Lemma extract_any_order_witness :
  exists fs' stats, ExtractExample.run = (fs', Ok stats) /\
    fs' !! ["t"; "d"; "b"]%string = Some (File 493 [Byte.x64; Byte.x65; Byte.x66; Byte.x67]) /\
    fs' !! ["t"; "sub"]%string = Some Dir.
Proof.
  destruct (extract_any_order ExtractExample.decompress ExtractExample.sha1 ExtractExample.links ExtractExample.table
    ExtractExample.target ExtractExample.raws ExtractExample.jobs ExtractExample.tree)
    as (fs' & stats & H & _ & Hf & Hg & _).
  - exact ExtractExample.table_ok.
  - intros e q He Hq. cbn in He, Hq. repeat (apply elem_of_cons in He as [->|He]); try by apply elem_of_nil in He.
    all: repeat (apply elem_of_cons in Hq as [->|Hq]); try by apply elem_of_nil in Hq.
    all: intros [k Hk]; vm_compute in Hk; try discriminate Hk; reflexivity.
  - split; [by vm_compute|]. intros ns Hns. unfold ExtractExample.tree. rewrite lookup_singleton_ne; [done|].
    intros E. destruct ns; [done|]. by apply (f_equal length) in E.
  - done.
  - by vm_compute.
  - by vm_compute.
  - apply NoDup_ListNoDup. repeat constructor; cbn; intuition discriminate.
  - done.
  - repeat constructor; eexists _, _; (split_and!; [reflexivity..|]); reflexivity.
  - repeat constructor.
  - exists fs', stats. split; [exact H|]. apply Forall_cons in Hf as [_ [Hf _]%Forall_cons]. apply Forall_cons in Hg as [Hg _].
    split; [exact Hf|exact Hg].
Defined.
