(* ===== verification/ExtractChunks.v ===== *)
(** The range requests of [rust/src/extract.rs]: grouping a table's frames into
    requests, and the frames each response is sliced into. *)

From S2P Require Import Prelude Validation Paths Outputs Manifest Archive ArchivePlan ArchiveBundle WorktreeWriter Extract ExtractInv.

Definition frame_bytes_of (l : list FrameInfo) : N := nsum (map compressed_len l).

(** What one range request covers: a run of frames of one archive chunk, its bytes
    from the first frame's start to the last one's end, and at most [chunk_size]
    bytes unless only its last frame has any. *)
Record request_ok (frames : list FrameInfo) (chunk_size : N) (c : Chunk) : Prop := {
  rq_some : (start_frame c < end_frame c <= nlen frames)%N;
  rq_chunk : Forall (fun f => chunk_index f = ck_chunk_index c) (slice frames (start_frame c) (end_frame c));
  rq_bytes : byte_end c = (byte_start c + frame_bytes_of (slice frames (start_frame c) (end_frame c)))%N;
  rq_inside : Forall (fun f => byte_start c <= chunk_offset f /\ chunk_offset f + compressed_len f <= byte_end c)%N
    (slice frames (start_frame c) (end_frame c));
  rq_size : (byte_end c - byte_start c <= chunk_size)%N \/
    Forall (fun f => compressed_len f = 0%N) (removelast (slice frames (start_frame c) (end_frame c)));
  rq_last : exists f, f ∈ slice frames (start_frame c) (end_frame c) /\ byte_end c = (chunk_offset f + compressed_len f)%N;
}.

Lemma checked_add_ok max a b : (a + b <= max)%N -> checked_add max a b = Some (a + b)%N.
Proof. intros. by apply checked_add_Some. Qed.

Section requests.
Context (chunk_size : N).

(** The requests closed so far cover [closed]; the frames [open] are the next. *)
Record grouping_ok (closed open : list FrameInfo) (g : Grouping) : Prop := {
  gr_chunks : Forall (request_ok (closed ++ open) chunk_size) (g_chunks g);
  gr_tiles : tiles 0 (map (fun c => (start_frame c, end_frame c)) (g_chunks g)) (nlen closed);
  gr_start : g_start g = nlen closed;
  gr_len : g_current_len g = frame_bytes_of open;
  gr_index : Forall (fun f => chunk_index f = g_chunk_index g) open;
  gr_bytes : chunk_bytes (g_chunk_index g) (closed ++ open) = (g_byte_start g + g_current_len g)%N;
  gr_inside : Forall (fun f => g_byte_start g <= chunk_offset f /\
    chunk_offset f + compressed_len f <= g_byte_start g + g_current_len g)%N open;
  gr_size : (g_current_len g <= chunk_size)%N \/ Forall (fun f => compressed_len f = 0%N) (removelast open);
  gr_max : (g_byte_start g + g_current_len g <= u64_max)%N;
  gr_last : open <> [] -> exists f, f ∈ open /\ (g_byte_start g + g_current_len g = chunk_offset f + compressed_len f)%N;
}.

Lemma slice_tail {A} (l k : list A) : slice (l ++ k) (nlen l) (nlen (l ++ k)) = k.
Proof.
  rewrite slice_app_r by lia. rewrite N.sub_diag. replace (nlen (l ++ k) - nlen l)%N with (nlen k) by (rewrite nlen_app; lia).
  apply slice_all.
Qed.

Lemma request_ok_more frames more c : request_ok frames chunk_size c -> request_ok (frames ++ more) chunk_size c.
Proof.
  intros [H1 H2 H3 H4 H5 H10]. assert (Hs : slice (frames ++ more) (start_frame c) (end_frame c) = slice frames (start_frame c) (end_frame c)).
  { apply slice_app_l. lia. }
  constructor; rewrite ?Hs; try done. rewrite nlen_app. lia.
Qed.

(** Closing the open group. *)
Lemma close_group_ok closed open g :
  open <> [] -> grouping_ok closed open g ->
  exists chunks, close_group g (nlen (closed ++ open)) = Ok chunks /\
    Forall (request_ok (closed ++ open) chunk_size) chunks /\
    tiles 0 (map (fun c => (start_frame c, end_frame c)) chunks) (nlen (closed ++ open)).
Proof.
  intros Hne [H1 H2 H3 H4 H5 H6 H7 H8 H9 H10]. unfold close_group.
  rewrite checked_add_ok by done. cbn [context rbind]. eexists. split; [done|].
  assert (Hlt : (nlen closed < nlen (closed ++ open))%N) by (rewrite nlen_app; destruct open; [done|rewrite nlen_cons; lia]).
  split.
  - apply Forall_app. split; [done|]. constructor; [|constructor].
    constructor; cbn [start_frame end_frame byte_start byte_end ck_chunk_index]; rewrite ?H3, ?slice_tail;
      [lia|done|by rewrite H4|done| |by apply H10].
    destruct H8; [left; lia|by right].
  - rewrite map_app. apply tiles_app. exists (nlen closed). split; [done|]. cbn. rewrite H3. constructor; [lia|constructor].
Qed.

Lemma frame_bytes_snoc l f : frame_bytes_of (l ++ [f]) = (frame_bytes_of l + compressed_len f)%N.
Proof. unfold frame_bytes_of. rewrite map_app, nsum_app. cbn. lia. Qed.

(** A frame joins the open group. *)
Lemma join_group closed open g f :
  grouping_ok closed open g -> chunk_index f = g_chunk_index g -> chunk_offset f = (g_byte_start g + g_current_len g)%N ->
  (chunk_offset f + compressed_len f <= u64_max)%N ->
  (g_current_len g = 0%N \/ (g_current_len g + compressed_len f <= chunk_size)%N) ->
  grouping_ok closed (open ++ [f])
    {| g_chunks := g_chunks g; g_start := g_start g; g_byte_start := g_byte_start g;
       g_current_len := g_current_len g + compressed_len f; g_chunk_index := g_chunk_index g |}.
Proof.
  intros [H1 H2 H3 H4 H5 H6 H7 H8 H9 H10] Hi Ho Hmax Hsize. constructor; cbn.
  - rewrite app_assoc. eapply Forall_impl; [exact H1|]. intros c. apply request_ok_more.
  - done.
  - done.
  - by rewrite frame_bytes_snoc, H4.
  - apply Forall_app. by repeat constructor.
  - rewrite app_assoc, chunk_bytes_snoc, H6, Hi, N.eqb_refl. lia.
  - apply Forall_app. split; [eapply Forall_impl; [exact H7|]; cbn; intros; lia|]. constructor; [lia|constructor].
  - rewrite removelast_last. destruct Hsize as [Hz|Hs]; [right|by left]. rewrite H4 in Hz. clear -Hz.
    unfold frame_bytes_of, nsum in Hz. induction open as [|x open IH]; cbn in Hz; [constructor|]. constructor; [lia|apply IH; lia].
  - lia.
  - intros _. exists f. split; [set_solver|lia].
Qed.

(** One turn of the loop. *)
Lemma group_frame_ok closed open g f :
  open <> [] -> grouping_ok closed open g -> frames_tile ((closed ++ open) ++ [f]) ->
  exists closed' open' g', group_frame chunk_size g (nlen (closed ++ open), f) = Ok g' /\
    closed' ++ open' = (closed ++ open) ++ [f] /\ open' <> [] /\ grouping_ok closed' open' g'.
Proof.
  intros Hne Hg (Ht & Hoff & Hmax & _)%frames_tile_snoc. unfold group_frame. pose proof Hg as [H1 H2 H3 H4 H5 H6 H7 H8 H9 H10].
  set (split := if negb _ then Ok true else _).
  assert (Hsplit : exists b, split = Ok b /\ (b = false -> chunk_index f = g_chunk_index g /\
    (g_current_len g = 0%N \/ (g_current_len g + compressed_len f <= chunk_size)%N))).
  { subst split. destruct (N.eqb_spec (chunk_index f) (g_chunk_index g)) as [Hi|]; cbn [negb]; [|by eexists].
    destruct (N.ltb_spec 0 (g_current_len g)); [|eexists; split; [done|]; intros _; split; [done|left; lia]].
    rewrite Hi, H6 in Hoff. rewrite checked_add_ok by lia. cbn.
    eexists. split; [done|]. intros Hlt%N.ltb_ge. split; [done|by right]. }
  destruct Hsplit as (b & -> & Hb). cbn [rbind]. destruct b.
  - destruct (close_group_ok closed open g Hne Hg) as (chunks & -> & Hreq & Htiles). cbn [rbind g_current_len].
    rewrite checked_add_ok by lia. cbn [context rbind].
    exists (closed ++ open), [f]. eexists. split; [done|]. split; [done|]. split; [done|].
    apply (join_group (closed ++ open) [] {| g_chunks := chunks; g_start := nlen (closed ++ open);
      g_byte_start := chunk_offset f; g_current_len := 0; g_chunk_index := chunk_index f |}); cbn.
    + constructor; cbn; rewrite ?app_nil_r; try done; [lia|left; lia|lia].
    + done.
    + lia.
    + done.
    + by left.
  - cbn [rbind]. destruct (Hb eq_refl) as [Hi Hsize]. rewrite Hi, H6 in Hoff.
    rewrite checked_add_ok by lia. cbn [context rbind].
    exists closed, (open ++ [f]). eexists. split; [done|]. split; [by rewrite app_assoc|]. split; [by destruct open|].
    by apply join_group.
Qed.

Lemma frames_tile_prefix l k : frames_tile (l ++ k) -> frames_tile l.
Proof. intros H l1 f l2 ->. apply (H l1 f (l2 ++ k)). by rewrite <- app_assoc. Qed.

Lemma group_frames_ok rest closed open g :
  open <> [] -> grouping_ok closed open g -> frames_tile ((closed ++ open) ++ rest) ->
  exists closed' open' g', try_fold (group_frame chunk_size) g (enumerate_from (nlen (closed ++ open)) rest) = Ok g' /\
    closed' ++ open' = (closed ++ open) ++ rest /\ open' <> [] /\ grouping_ok closed' open' g'.
Proof.
  revert closed open g. induction rest as [|f rest IH]; intros closed open g Hne Hg Ht.
  { exists closed, open, g. by rewrite app_nil_r. }
  cbn [enumerate_from try_fold]. destruct (group_frame_ok closed open g f Hne Hg) as (closed1 & open1 & g1 & H1 & Heq & Hne1 & Hg1).
  { apply (frames_tile_prefix _ rest). by rewrite <- app_assoc. }
  rewrite H1. cbn [rbind]. destruct (IH closed1 open1 g1 Hne1 Hg1) as (closed2 & open2 & g2 & H2 & Heq2 & Hrest).
  { rewrite Heq, <- app_assoc. done. }
  replace (nlen (closed ++ open) + 1)%N with (nlen (closed1 ++ open1)) by (rewrite Heq, nlen_app, nlen_cons, nlen_nil; lia).
  exists closed2, open2, g2. split; [done|]. rewrite Heq2, Heq, <- app_assoc. done.
Qed.

(** The requests of a table cover its frames, in order, each as [request_ok] says. *)
Lemma compute_chunks_ok frames :
  frames_tile frames ->
  exists chunks, compute_chunks frames chunk_size = Ok chunks /\ Forall (request_ok frames chunk_size) chunks /\
    tiles 0 (map (fun c => (start_frame c, end_frame c)) chunks) (nlen frames).
Proof.
  intros Ht. destruct frames as [|f rest]; [exists []; split_and!; [done|constructor|constructor]|].
  unfold compute_chunks, enumerate. cbn [enumerate_from try_fold].
  destruct (Ht [] f rest eq_refl) as (Hoff & Hmax & Hidx). cbn in Hoff, Hidx.
  set (g0 := {| g_chunks := []; g_start := 0; g_byte_start := 0; g_current_len := 0; g_chunk_index := chunk_index f |}).
  assert (Hg0 : grouping_ok [] [] g0) by (constructor; cbn; try done; [constructor|left; lia]).
  pose proof (join_group [] [] g0 f Hg0 eq_refl Hoff Hmax ltac:(by left)) as Hg1.
  assert (H1 : group_frame chunk_size g0 (0%N, f) = Ok
    {| g_chunks := g_chunks g0; g_start := g_start g0; g_byte_start := g_byte_start g0;
       g_current_len := g_current_len g0 + compressed_len f; g_chunk_index := g_chunk_index g0 |}).
  { unfold group_frame. cbn [g0 g_chunk_index g_current_len]. rewrite N.eqb_refl. cbn [negb rbind N.ltb N.compare].
    rewrite checked_add_ok by (cbn; rewrite Hoff in Hmax; cbn in Hmax; lia). done. }
  rewrite H1. cbn [rbind]. destruct (group_frames_ok rest [] [f] _ ltac:(done) Hg1 Ht) as (closed & open & g & H2 & Heq & Hne & Hg).
  change (nlen ([] ++ [f])) with 1%N in H2. change (0 + 1)%N with 1%N. rewrite H2. cbn [rbind].
  change (([] ++ [f]) ++ rest) with (f :: rest) in Heq. rewrite <- Heq. by apply close_group_ok.
Qed.
End requests.

(** ** The frames of a response *)

Definition between_ {A} (a b : N) (x : N * A) : bool := (a <=? x.1)%N && (x.1 <? b)%N.

Lemma enumerate_from_ge {A} i (l : list A) x : x ∈ enumerate_from i l -> (i <= x.1)%N.
Proof.
  revert i; induction l as [|y l IH]; intros i; cbn; [set_solver|]. intros [->|H%IH]%elem_of_cons; cbn; lia.
Qed.
Lemma filter_below {A} i (l : list A) a b : (b <= i)%N -> List.filter (between_ a b) (enumerate_from i l) = [].
Proof.
  revert i. induction l as [|x l IH]; intros i Hb; cbn; [done|]. unfold between_ at 1. cbn.
  rewrite (proj2 (N.ltb_ge i b)), andb_false_r by lia. apply IH. lia.
Qed.
Lemma filter_join {A} i (l : list A) a b c : (a <= b)%N -> (b <= c)%N ->
  List.filter (between_ a b) (enumerate_from i l) ++ List.filter (between_ b c) (enumerate_from i l)
  = List.filter (between_ a c) (enumerate_from i l).
Proof.
  intros Hab Hbc. revert i. induction l as [|x l IH]; intros i; cbn; [done|].
  destruct (between_ a b (i, x)) eqn:E1, (between_ b c (i, x)) eqn:E2, (between_ a c (i, x)) eqn:E3;
    unfold between_ in E1, E2, E3; cbn in E1, E2, E3; breflect;
    try (exfalso; destruct_or?; breflect; lia).
  - cbn. by rewrite IH.
  - rewrite filter_below by lia. cbn. f_equal. specialize (IH (i + 1)%N).
    rewrite filter_below in IH by lia. by rewrite <- IH.
  - apply IH.
Qed.
Lemma filter_all {A} (l : list A) : List.filter (between_ 0 (nlen l)) (enumerate l) = enumerate l.
Proof.
  apply List.forallb_filter_id, forallb_forall. intros [i x] Hx%list_elem_of_In%elem_of_enumerate.
  unfold nget in Hx. apply lookup_lt_Some in Hx. unfold between_, nlen. cbn. apply andb_true_iff.
  rewrite N.leb_le, N.ltb_lt. lia.
Qed.
Lemma filter_tiles {A} (l : list A) bs a b :
  tiles a bs b -> mjoin (map (fun x => List.filter (between_ x.1 x.2) (enumerate l)) bs) = List.filter (between_ a b) (enumerate l).
Proof.
  induction 1 as [a|a m b bs Hm Ht IH]; cbn.
  - induction (enumerate l) as [|x t IH]; cbn; [done|]. unfold between_ at 1.
    rewrite (proj2 (andb_false_iff _ _)); [done|]. rewrite N.leb_gt, N.ltb_ge. lia.
  - change (List.filter (between_ a m) (enumerate l) ++ mjoin (map (fun x => List.filter (between_ x.1 x.2) (enumerate l)) bs) = List.filter (between_ a b) (enumerate l)).
    rewrite IH. apply filter_join; [done|]. by eapply tiles_le.
Qed.

Lemma elem_of_slice {A} (l : list A) a b i x : nget l i = Some x -> (a <= i < b)%N -> x ∈ slice l a b.
Proof.
  intros Hx Hi. apply list_elem_of_lookup. exists (N.to_nat (i - a)). unfold slice.
  rewrite lookup_take_lt by lia. rewrite lookup_drop. unfold nget in Hx. by replace (N.to_nat a + N.to_nat (i - a)) with (N.to_nat i) by lia.
Qed.

(** One response, sliced into its frames. *)
Lemma chunk_jobs_ok m archive xs chunk_size chunks idx c data :
  Forall2 (located archive) (frames m) xs -> request_ok (frames m) chunk_size c -> chunks !! idx = Some c ->
  nget archive (ck_chunk_index c) = Some data -> (nlen data <= usize_max)%N ->
  chunk_jobs m chunks (idx, Ok (slice data (byte_start c) (byte_end c)))
  = map (fun x => (x.1, Ok (default [] (fst <$> nget xs x.1))))
      (List.filter (between_ (start_frame c) (end_frame c)) (enumerate (frames m))).
Proof.
  intros Hloc [_ Hidx _ Hin _ _] Hc Hdata Husize. unfold chunk_jobs. rewrite Hc.
  rewrite (filter_ext (fun '(i, _) => _) (between_ (start_frame c) (end_frame c))) by by intros [].
  apply map_ext_in. intros [i f] [Hi Hb]%list_elem_of_In%elem_of_lfilter. apply elem_of_enumerate in Hi.
  unfold between_ in Hb. cbn in Hb. breflect.
  pose proof (elem_of_slice _ (start_frame c) (end_frame c) _ _ Hi ltac:(lia)) as Hs.
  rewrite Forall_forall in Hidx, Hin. specialize (Hidx f Hs). destruct (Hin f Hs) as [Hge Hle].
  unfold nget in Hi. destruct (Forall2_lookup_l _ _ _ _ _ Hloc Hi) as (x & Hx & Hlen & _ & chunk & Hchunk & Hrange).
  rewrite Hidx, Hdata in Hchunk. injection Hchunk as <-. apply get_range_Some in Hrange as (_ & Hend & Heq).
  cbn [fst]. unfold nget. rewrite Hx. cbn. f_equal. unfold slice_archive_frame.
  rewrite (proj2 (checked_sub_Some _ _ (chunk_offset f - byte_start c)%N)) by (split; [done|lia]). cbn [context rbind].
  rewrite checked_add_ok by lia. cbn [context rbind]. apply context_ok, get_range_Some. rewrite Heq.
  assert (Hdl : (chunk_offset f + compressed_len f <= nlen (slice data (byte_start c) (byte_end c)) + byte_start c)%N).
  { unfold slice, nlen in *. rewrite length_take, length_drop. lia. }
  split_and!; [lia|lia|]. rewrite slice_slice by lia. f_equal; lia.
Qed.

Lemma chunks_by_position_lookup chunks i c : nget chunks i = Some c -> chunks_by_position chunks !! i = Some c.
Proof.
  intros Hc. unfold chunks_by_position. apply elem_of_list_to_map_1; [apply enumerate_fst_NoDup|].
  by apply elem_of_enumerate.
Qed.

(** The frames an archive of [xs] (each its compressed bytes and its place in the
    stream) gives, whatever the size of the requests. *)
Definition frame_jobs (xs : list (bytes * (N * N))) : list Job := map (fun x => (x.1, Ok x.2.1)) (enumerate xs).

Lemma fetcher_jobs_ok m archive xs chunk_size fetch :
  frames_tile (frames m) -> Forall2 (located archive) (frames m) xs ->
  Forall (fun data => nlen data <= usize_max)%N archive ->
  (forall c data, nget archive (ck_chunk_index c) = Some data -> (byte_end c <= nlen data)%N ->
     fetch c = Ok (slice data (byte_start c) (byte_end c))) ->
  fetcher_jobs m chunk_size fetch = Ok (frame_jobs xs).
Proof.
  intros Ht Hloc Hus Hfetch. unfold fetcher_jobs. destruct (compute_chunks_ok chunk_size (frames m) Ht) as (chunks & -> & Hreq & Htiles).
  cbn [rbind]. f_equal.
  assert (Hjobs : map (chunk_jobs m (chunks_by_position chunks)) (map (fun x => (x.1, fetch x.2)) (enumerate chunks))
    = map (fun c => map (fun x => (x.1, Ok (default [] (fst <$> nget xs x.1))))
                        (List.filter (between_ (start_frame c) (end_frame c)) (enumerate (frames m)))) (map snd (enumerate chunks))).
  { rewrite !map_map. apply map_ext_in. intros [i c] Hic%list_elem_of_In%elem_of_enumerate. cbn [fst snd].
    rewrite Forall_forall in Hreq. pose proof Hic as Hin. unfold nget in Hin. apply list_elem_of_lookup_2, Hreq in Hin as Hr.
    destruct (rq_last _ _ _ Hr) as (f & Hf & Hend). pose proof (rq_chunk _ _ _ Hr) as Hidx. rewrite Forall_forall in Hidx.
    assert (Hfin : f ∈ frames m). { unfold slice in Hf. by eapply subseteq_take, subseteq_drop in Hf. }
    apply (Forall2_in_l _ _ _ _ Hloc) in Hfin as (x & _ & Hlen & _ & data & Hdata & Hrange).
    apply get_range_Some in Hrange as (_ & Hle & _). rewrite (Hidx f Hf) in Hdata.
    rewrite (Hfetch c data Hdata) by lia. eapply chunk_jobs_ok; [done|done|by apply chunks_by_position_lookup|done|].
    rewrite Forall_forall in Hus. apply Hus. unfold nget in Hdata. by eapply list_elem_of_lookup_2. }
  rewrite Hjobs. unfold enumerate at 2. change (map snd (enumerate_from 0 chunks)) with ((enumerate_from 0 chunks).*2).
  rewrite enumerate_from_fmap_snd.
  set (g := fun x : N * FrameInfo => (x.1, Ok (default [] (fst <$> nget xs x.1)))).
  assert (Hmap : mjoin (map (fun c => map g (List.filter (between_ (start_frame c) (end_frame c)) (enumerate (frames m)))) chunks)
    = map g (mjoin (map (fun x => List.filter (between_ x.1 x.2) (enumerate (frames m))) (map (fun c => (start_frame c, end_frame c)) chunks)))).
  { clear. induction chunks as [|c chunks IH]; [done|]. cbn [map mjoin list_join]. cbn. rewrite map_app. by f_equal. }
  etrans; [exact Hmap|]. rewrite (filter_tiles _ _ _ _ Htiles), filter_all. unfold g, frame_jobs, enumerate.
  assert (Hgen : forall i k xs' l, Forall2 (located archive) l xs' -> xs = k ++ xs' -> i = nlen k ->
    map (fun x : N * FrameInfo => (x.1, Ok (default [] (fst <$> nget xs x.1)))) (enumerate_from i l)
    = map (fun x => (x.1, Ok x.2.1)) (enumerate_from i xs')).
  { clear. intros i k xs' l Hl. revert i k. induction Hl as [|f x l xs' _ _ IH]; intros i k Hxs ->; [done|].
    cbn [enumerate_from map]. f_equal; [|apply (IH _ (k ++ [x])); [by rewrite <- app_assoc|rewrite nlen_app, nlen_cons, nlen_nil; lia]].
    cbn. do 2 f_equal. rewrite Hxs. unfold nget, nlen. rewrite Nat2N.id, lookup_app_r, Nat.sub_diag by lia. done. }
  by apply (Hgen 0%N []).
Qed.

(** C31: the range requests of a table cover its frames in order, whatever the size
    asked for: each request is a run of frames of one archive chunk, from the
    first one's start to the last one's end, at most the size asked for unless only
    its last frame has bytes; and the responses are sliced into exactly the frames
    the builder put there. *)
Theorem range_requests_spec m archive xs chunk_size fetch :
  frames_tile (frames m) -> Forall2 (located archive) (frames m) xs ->
  Forall (fun data => nlen data <= usize_max)%N archive ->
  (forall c data, nget archive (ck_chunk_index c) = Some data -> (byte_end c <= nlen data)%N ->
     fetch c = Ok (slice data (byte_start c) (byte_end c))) ->
  (exists chunks, compute_chunks (frames m) chunk_size = Ok chunks /\
     Forall (request_ok (frames m) chunk_size) chunks /\
     tiles 0 (map (fun c => (start_frame c, end_frame c)) chunks) (nlen (frames m))) /\
  fetcher_jobs m chunk_size fetch = Ok (frame_jobs xs).
Proof. intros. split; [by apply compute_chunks_ok|by eapply fetcher_jobs_ok]. Qed.

(** Two archive chunks, of two frames and of one; requests of at most six bytes. *)
Lemma range_requests_spec_witness :
  let frame c o n := {| chunk_index := c; chunk_offset := o; compressed_len := n; fi_raw_len := 4 |} in
  let m := {| frames := [frame 0 0 4; frame 0 4 3; frame 1 0 2]%N; files := []; gitlinks := [] |} in
  let chunk0 := repeat Byte.x61 7 in let chunk1 := repeat Byte.x62 2 in
  let fetch c := Ok (slice (if (ck_chunk_index c =? 0)%N then chunk0 else chunk1) (byte_start c) (byte_end c)) in
  let xs := [(repeat Byte.x61 4, (0, 4)); (repeat Byte.x61 3, (4, 8)); (repeat Byte.x62 2, (8, 12))]%N in
  fetcher_jobs m 6 fetch = Ok (frame_jobs xs) /\ length (default [] (ok (compute_chunks (frames m) 6))) = 3.
Proof.
  intros frame m chunk0 chunk1 fetch xs. split; [|by vm_compute].
  apply (range_requests_spec m [chunk0; chunk1] xs 6 fetch).
  - assert (Hg : geometry_ok m); [|apply Hg]. apply validate_geometry_ok; [repeat constructor; by vm_compute|by vm_compute].
  - repeat constructor; eexists; split; reflexivity.
  - repeat constructor; by vm_compute.
  - intros c data Hd _. unfold fetch. unfold nget in Hd. destruct (N.eqb_spec (ck_chunk_index c) 0) as [E|E].
    + rewrite E in Hd. by injection Hd as <-.
    + destruct (N.to_nat (ck_chunk_index c)) as [|[|k]] eqn:Ek; [lia|by injection Hd as <-|done].
Defined.
