(* ===== verification/Roundtrip.v ===== *)
(** From a git tree to an archive and back: [rust/src/archive.rs]'s builder composed
    with [rust/src/extract.rs]'s extractor. *)

From S2P Require Import Prelude Validation Paths Outputs Manifest Archive ArchivePlan ArchiveBundle WorktreeWriter Extract ExtractInv ExtractThms ExtractChunks.

(** ** Lengths *)
Lemma checked_total_ok e :
  (nsum (map fg_raw_len (fragments e)) <= u64_max)%N -> checked_total_len e = Ok (nsum (map fg_raw_len (fragments e))).
Proof.
  unfold checked_total_len. set (step := fun (total : N) (fragment : Fragment) => _).
  assert (Hgen : forall l acc, (acc + nsum (map fg_raw_len l) <= u64_max)%N ->
    try_fold step acc l = Ok (acc + nsum (map fg_raw_len l))%N).
  { induction l as [|f l IH]; intros acc H; cbn in *; [by rewrite N.add_0_r|]. unfold nsum in *. cbn in H.
    unfold step at 1. rewrite checked_add_ok by lia. cbn. rewrite IH by lia. f_equal. cbn. lia. }
  intros H. by rewrite Hgen.
Qed.
Lemma raw_total_ok m :
  (nsum (map (fun e => nsum (map fg_raw_len (fragments e))) (files m)) <= u64_max)%N -> is_ok (raw_total m) = true.
Proof.
  unfold raw_total. set (step := fun (total : N) (entry : FileEntry) => _).
  assert (Hgen : forall l acc, (acc + nsum (map (fun e => nsum (map fg_raw_len (fragments e))) l) <= u64_max)%N ->
    is_ok (try_fold step acc l) = true).
  { induction l as [|e l IH]; intros acc H; cbn in *; [done|]. unfold step at 1. unfold nsum in *. cbn in H.
    rewrite checked_total_ok by (unfold nsum; lia). cbn. rewrite checked_add_ok by (unfold nsum; lia). cbn.
    apply IH. unfold nsum. lia. }
  intros H. apply Hgen. lia.
Qed.

Section roundtrip.
Context (zstd_encode : bytes -> Result bytes) (decompress : bytes -> N -> Result bytes) (sha1 : bytes -> string)
  (link_resolves : FsTree -> list string -> bytes -> bool).
(** zstd gives back what it compressed, into a buffer of its size. *)
Context (Hzstd : forall raw c, zstd_encode raw = Ok c -> decompress c (nlen raw) = Ok raw).

Lemma decompress_frame_ok raw c frame :
  compress_frame zstd_encode raw = Ok c -> compressed_len frame = nlen c -> fi_raw_len frame = nlen raw ->
  decompress_frame_recorded decompress c frame = Ok raw.
Proof.
  unfold compress_frame, decompress_frame_recorded. intros H -> ->. destruct raw as [|b raw]; [by injection H as <-|].
  rewrite (proj2 (N.eqb_neq (nlen (b :: raw)) 0)), andb_false_r by (rewrite nlen_cons; lia). by apply Hzstd.
Qed.

(** The tree of a commit: what the mirror's walk gives. *)
Record git_tree (ly : Layout) (stream : bytes) : Prop := {
  gt_paths : Forall (fun b => validate_relative_path (b_path b) = Ok tt /\ b_mode b ∈ ALLOWED_MODES) (ly_blobs ly);
  gt_links : Forall (fun l => validate_relative_path l = Ok tt) (ly_gitlinks ly);
  gt_distinct : NoDup (map b_path (ly_blobs ly) ++ ly_gitlinks ly);
  gt_leaves : forall b q, b ∈ ly_blobs ly -> q ∈ map b_path (ly_blobs ly) ++ ly_gitlinks ly ->
    path_names (b_path b) `prefix_of` path_names q -> b_path b = q;
  gt_ids : Forall (fun x => b_oid x.1 = blob_id sha1 (slice stream x.2.1 (x.2.1 + x.2.2)) /\ str_len (b_oid x.1) = 20%N)
    (placed_blobs ly);
}.

Section build.
Context (ly : Layout) (stream : bytes) (bounds : list (N * N)) (compressed : list bytes).
Definition frame_raw (i : N) : bytes := match nget bounds i with Some (lo, hi) => slice stream lo hi | None => [] end.
Context (Htiles : tiles 0 bounds (nlen stream)).
Context (Hcompressed : Forall2 (fun b c => compress_frame zstd_encode (slice stream b.1 b.2) = Ok c) bounds compressed).

Lemma bound_in k lo hi : nget bounds k = Some (lo, hi) -> (lo <= hi)%N /\ (hi <= nlen stream)%N.
Proof. intros H. destruct (tiles_lookup _ _ _ _ _ _ Htiles H) as (_ & ? & ? & _). done. Qed.

(** Every frame of the table decompresses to its part of the stream. *)
Lemma jobs_decode m archive job :
  Forall2 (located archive) (frames m) (zip compressed bounds) -> job ∈ frame_jobs (zip compressed bounds) ->
  decodes decompress m job (frame_raw job.1).
Proof.
  intros Hloc ([i [c [lo hi]]] & -> & Hin%elem_of_enumerate)%elem_of_lmap. cbn.
  destruct (Forall2_lookup_r _ _ _ _ _ Hloc Hin) as (frame & Hf & Hc & Hr & _). cbn in Hc, Hr.
  unfold nget in Hin. apply lookup_zip_Some in Hin as [Hci Hbi].
  destruct (Forall2_lookup_l _ _ _ _ _ Hcompressed Hbi) as (c' & Hc' & Hcomp). rewrite Hci in Hc'. injection Hc' as <-.
  destruct (bound_in i lo hi Hbi). exists c, frame. unfold frame_raw, nget. rewrite Hbi.
  assert (Hlen : nlen (slice stream lo hi) = (hi - lo)%N) by (by apply slice_length).
  split_and!; [done|done| |by rewrite Hlen]. apply decompress_frame_ok; [done|done|by rewrite Hlen].
Qed.

Lemma content_fragments l :
  Forall (fragment_fits bounds) l ->
  mjoin (map slice_bytes (map (slice_of frame_raw) l)) = mjoin (fragment_bytes stream bounds <$> l) /\
  nlen (mjoin (fragment_bytes stream bounds <$> l)) = nsum (map fg_raw_len l).
Proof.
  induction 1 as [|f l (lo & hi & Hb & Hfit) _ [IH1 IH2]]; [done|].
  assert (Hf : slice_bytes (slice_of frame_raw f) = fragment_bytes stream bounds f).
  { unfold slice_bytes, slice_of, fragment_bytes, frame_raw. cbn. by rewrite Hb. }
  cbn [map fmap list_fmap]. rewrite !mjoin_cons, Hf, IH1. split; [done|]. rewrite nlen_app, IH2.
  unfold nsum. cbn [foldr]. f_equal. unfold fragment_bytes. rewrite Hb. destruct (bound_in _ _ _ Hb).
  rewrite slice_length; [lia|lia|]. rewrite slice_length by lia. lia.
Qed.

(** The lengths the builder has checked: they fit their fields and the memory. *)
Record widths_ok : Prop := {
  wd_count : (nlen bounds <= u32_max)%N;
  wd_raw : Forall (fun b => b.2 - b.1 <= u32_max)%N bounds;
  wd_compressed : Forall (fun c => nlen c <= u32_max)%N compressed;
  wd_total : (nlen (mjoin compressed) <= u64_max)%N;
  wd_stream : (nlen stream <= u64_max)%N;
}.

Lemma zip_facts : widths_ok ->
  map fst (zip compressed bounds) = compressed /\ Forall frame_widths (zip compressed bounds) /\
  (nlen (zip compressed bounds) <= u32_max)%N /\ nlen (zip compressed bounds) = nlen bounds.
Proof.
  intros [H1 H2 H3 H4 _]. pose proof (Forall2_length _ _ _ Hcompressed) as Hl.
  assert (Hz : length (zip compressed bounds) = length bounds) by (rewrite length_zip_with; lia).
  split_and!; [apply fst_zip; lia| |unfold nlen in *; lia|unfold nlen in *; lia].
  apply list.Forall_forall. intros [c b] Hin. apply list_elem_of_lookup in Hin as [i [Hc Hb]%lookup_zip_Some].
  rewrite Forall_forall in H2. rewrite Forall_forall in H3. split; cbn; [apply H3|apply H2]; by eapply list_elem_of_lookup_2.
Qed.

Lemma group_le groups : mjoin groups = zip compressed bounds -> widths_ok ->
  Forall (fun g => nlen (content g) <= u64_max)%N groups.
Proof.
  intros Hg Hw. destruct (zip_facts Hw) as (Hz & _). apply list.Forall_forall. intros g Hin.
  assert (Hle : (nlen (content g) <= nlen (content (mjoin groups)))%N).
  { clear -Hin. induction groups as [|g' groups IH]; [set_solver|]. rewrite mjoin_cons, content_app, nlen_app.
    apply elem_of_cons in Hin as [->|Hin]; [lia|specialize (IH Hin); lia]. }
  rewrite Hg in Hle. unfold content at 2 in Hle. rewrite Hz in Hle. destruct Hw. lia.
Qed.

Lemma table_geometry infos archive fs :
  frames_tile infos -> Forall2 (located archive) infos (zip compressed bounds) -> widths_ok -> git_tree ly stream ->
  map fst (placed_blobs ly) = ly_blobs ly ->
  Forall2 (fun x f => fe_path f = b_path x.1 /\ fe_mode f = b_mode x.1 /\ blob_sha1 f = b_oid x.1 /\
    Forall (fragment_fits bounds) (fragments f) /\ content_of frame_raw f = slice stream x.2.1 (x.2.1 + x.2.2))
    (placed_blobs ly) fs ->
  Forall (fun f => fragments f <> []) fs ->
  geometry_ok {| frames := infos; files := fs; gitlinks := ly_gitlinks ly |}.
Proof.
  intros Htile Hloc Hw [G1 G2 G3 G4 G5] Hblobs Hfs Hne. constructor; cbn [frames files gitlinks].
  - apply list.Forall_forall. intros f Hf. destruct (Forall2_in_r _ _ _ _ Hfs Hf) as (x & Hx & Hp & Hm & Ho & Hfit & _).
    rewrite Forall_forall in G1. rewrite Forall_forall in G5. rewrite Forall_forall in Hne. destruct (G5 x Hx) as [_ Hlen].
    destruct (G1 x.1) as [Hv Hmode]; [rewrite <- Hblobs; apply elem_of_lmap; eauto|].
    constructor; rewrite ?Hp, ?Hm, ?Ho; try done; [|auto|].
    + intros E. rewrite E in Hv. done.
    + eapply Forall_impl; [exact Hfit|]. intros fr (lo & hi & Hb & Hle).
      assert (Hz : exists c, zip compressed bounds !! N.to_nat (frame_index fr) = Some (c, (lo, hi))).
      { destruct (Forall2_lookup_l _ _ _ _ _ Hcompressed Hb) as (c & Hc & _). exists c. by apply lookup_zip_Some. }
      destruct Hz as [c Hz]. destruct (Forall2_lookup_r _ _ _ _ _ Hloc Hz) as (info & Hi & _ & Hr & _). cbn in Hr.
      exists info. rewrite Hr. pose proof (wd_raw Hw) as Hwr. rewrite Forall_forall in Hwr.
      specialize (Hwr (lo, hi) (list_elem_of_lookup_2 _ _ _ Hb)). cbn in Hwr. split_and!; [done|done|lia].
  - eapply Forall_impl; [exact G2|]. intros l Hl. split; [|done]. intros ->. done.
  - assert (Hpaths : map fe_path fs = map b_path (ly_blobs ly)); [|by rewrite Hpaths].
    rewrite <- Hblobs, map_map. clear -Hfs. induction Hfs as [|x f pl fs (Hp & _) _ IH]; cbn; [done|]. by rewrite Hp, IH.
  - done.
Qed.

(** The archive the builder makes of a tree. *)
Lemma build_chunks_ok target blobs links sizes :
  Layout_new blobs links sizes = Ok ly -> length blobs = length sizes -> nlen stream = ly_total ly -> blobs <> [] ->
  bounds <> [] -> widths_ok -> git_tree ly stream ->
  exists m chunks, build_chunks target ly compressed bounds = Ok (m, chunks) /\
    geometry_ok m /\ Forall2 (located chunks) (frames m) (zip compressed bounds) /\
    Forall (fun data => nlen data <= usize_max)%N chunks /\ gitlinks m = ly_gitlinks ly /\
    Forall2 (fun x f => fe_path f = b_path x.1 /\ fe_mode f = b_mode x.1 /\ blob_sha1 f = b_oid x.1 /\
      Forall (fragment_fits bounds) (fragments f) /\ content_of frame_raw f = slice stream x.2.1 (x.2.1 + x.2.2))
      (placed_blobs ly) (files m) /\
    map fst (placed_blobs ly) = ly_blobs ly /\
    (nsum (map (fun e => nsum (map fg_raw_len (fragments e))) (files m)) <= u64_max)%N.
Proof.
  intros Hly Hlen Htot Hne Hbne Hw Hgt. destruct (zip_facts Hw) as (Hz & Hfw & Hzn & Hzl).
  pose proof Htiles as Htl. rewrite Htot in Htl.
  destruct (files_table_ok ly blobs links sizes bounds stream Hly Hlen Htot Htl Hbne)
    as (table & Ht & Hlinks & Hfiles & Hblobs & Hstream); [apply Hw|apply Hw|].
  assert (Hlyb : ly_blobs ly = blobs /\ ly_gitlinks ly = links).
  { unfold Layout_new in Hly. apply rbind_ok in Hly as ([? ?] & _ & Hly). by injection Hly as <-. }
  destruct Hlyb as [Hlyb Hlyl].
  destruct (assemble_chunks_ok target compressed bounds Hfw Hzn) as (groups & Ha & Hgroups & Hck).
  { unfold content. rewrite Hz. apply Hw. }
  pose proof (group_le groups Hgroups Hw) as Hgl.
  pose proof (placed_all_located groups) as Hloc. rewrite Hgroups in Hloc.
  set (infos := placed_all (map (map as_built) groups)) in *.
  assert (Htile : frames_tile infos).
  { apply placed_all_tile. apply Forall_fmap. eapply Forall_impl; [apply Forall_and; split; [exact Hck|exact Hgl]|].
    cbn. intros g [[Hg _] Hl]. split; [by destruct g|]. by rewrite content_bytes. }
  assert (Hfacts : Forall2 (fun x f => fe_path f = b_path x.1 /\ fe_mode f = b_mode x.1 /\ blob_sha1 f = b_oid x.1 /\
      Forall (fragment_fits bounds) (fragments f) /\ content_of frame_raw f = slice stream x.2.1 (x.2.1 + x.2.2))
      (placed_blobs ly) (files table)).
  { eapply Forall2_impl; [exact Hfiles|]. intros x f (H1 & H2 & H3 & _ & H5 & H6). split_and!; try done.
    unfold content_of. destruct (content_fragments _ H5) as [-> _]. done. }
  exists {| frames := infos; files := files table; gitlinks := ly_gitlinks ly |}, (map content groups).
  split_and!; cbn [frames files gitlinks]; try done.
  - unfold build_chunks. rewrite Ha, Hlyb. destruct blobs as [|b blobs]; [done|]. rewrite Ht. done.
  - eapply table_geometry; try done; [by rewrite Hblobs, Hlyb|]. apply list.Forall_forall. intros f Hf.
    destruct (Forall2_in_r _ _ _ _ Hfiles Hf) as (x & _ & _ & _ & _ & Hf' & _). done.
  - apply Forall_fmap. eapply Forall_impl; [exact Hgl|]. cbn. done.
  - by rewrite Hlyb.
  - assert (Hsum : forall pl fs, Forall2 (fun x f => fe_path f = b_path x.1 /\ fe_mode f = b_mode x.1 /\ blob_sha1 f = b_oid x.1 /\
      Forall (fragment_fits bounds) (fragments f) /\ content_of frame_raw f = slice stream x.2.1 (x.2.1 + x.2.2)) pl fs ->
      nsum (map (fun e => nsum (map fg_raw_len (fragments e))) fs)
      = nlen (mjoin (map (fun x : Blob * (N * N) => slice stream x.2.1 (x.2.1 + x.2.2)) pl))).
    { induction 1 as [|x f pl fs (_ & _ & _ & Hfit & Hc) _ IH]; [done|]. cbn [map]. rewrite mjoin_cons, nlen_app, <- IH, <- Hc.
      unfold nsum at 1. cbn [foldr]. unfold content_of. destruct (content_fragments _ Hfit) as [-> ->]. done. }
    rewrite (Hsum _ _ Hfacts), Hstream. apply Hw.
Qed.

(** A clone's working tree is the commit's: the archive built of a git tree,
    whatever the chunk size, fetched in range requests of any size, with its frames
    taken in any order, is extracted without an error into a new directory where
    every file has exactly its blob's bytes and its mode; nothing outside the
    directory changes. *)
Lemma archive_roundtrip target chunk_size blobs links sizes dir fs :
  Layout_new blobs links sizes = Ok ly -> length blobs = length sizes -> nlen stream = ly_total ly -> blobs <> [] ->
  bounds <> [] -> widths_ok -> git_tree ly stream -> fresh_dir dir fs ->
  exists m chunks, build_chunks target ly compressed bounds = Ok (m, chunks) /\
    forall fetch,
      (forall c data, nget chunks (ck_chunk_index c) = Some data -> (byte_end c <= nlen data)%N ->
         fetch c = Ok (slice data (byte_start c) (byte_end c))) ->
      exists jobs, fetcher_jobs m chunk_size fetch = Ok jobs /\
        forall order, order ≡ₚ jobs ->
          exists fs' stats, extract_frames decompress sha1 link_resolves m (Some dir) order fs = (fs', Ok stats) /\
            Forall (fun x => fs' !! target_path dir (b_path x.1)
                = Some (node_of (b_mode x.1) (slice stream x.2.1 (x.2.1 + x.2.2)))) (placed_blobs ly) /\
            map fst (placed_blobs ly) = ly_blobs ly /\
            (forall p, (forall ns, ns <> [] -> p <> dir ++ ns) -> fs' !! p = fs !! p).
Proof.
  intros Hly Hlen Htot Hne Hbne Hw Hgt Hfresh.
  destruct (build_chunks_ok target blobs links sizes Hly Hlen Htot Hne Hbne Hw Hgt)
    as (m & chunks & Hb & Hgeo & Hloc & Hus & Hlinks & Hfiles & Hblobs & Hsum).
  exists m, chunks. split; [done|]. intros fetch Hfetch. exists (frame_jobs (zip compressed bounds)).
  split; [by apply (fetcher_jobs_ok m chunks); [apply Hgeo|..]|]. intros order Horder.
  destruct (zip_facts Hw) as (_ & _ & Hzn & Hzl). pose proof (Forall2_length _ _ _ Hloc) as Hfl.
  assert (Hfst : map fst (frame_jobs (zip compressed bounds)) = map fst (enumerate (zip compressed bounds))) by apply map_map.
  destruct (extract_sound decompress sha1 link_resolves m dir frame_raw order fs) as (fs' & stats & H & _ & Hf & _ & Hout); try done.
  - intros e q He Hq. destruct (Forall2_in_r _ _ _ _ Hfiles He) as (x & Hx & Hp & _).
    assert (Hpaths : map fe_path (files m) = map b_path (ly_blobs ly)).
    { rewrite <- Hblobs, map_map. clear -Hfiles. induction Hfiles as [|x f pl l (Hp & _) _ IH]; cbn; [done|]. by rewrite Hp, IH. }
    rewrite Hp. apply (gt_leaves _ _ Hgt); [rewrite <- Hblobs; apply elem_of_lmap; eauto|by rewrite Hpaths, Hlinks in Hq].
  - intros Hno. rewrite Hno in Hfl. cbn in Hfl. unfold nlen in Hzl. destruct bounds; [done|cbn in Hzl; lia].
  - unfold nlen in *. lia.
  - by apply raw_total_ok.
  - change (NoDup (fst <$> order)). rewrite Horder. change (NoDup (map fst (frame_jobs (zip compressed bounds)))).
    rewrite Hfst. apply enumerate_fst_NoDup.
  - rewrite Horder. unfold frame_jobs. rewrite length_map. pose proof (nlen_enumerate (zip compressed bounds)) as Hn.
    unfold nlen in Hn. lia.
  - apply list.Forall_forall. intros job Hin. rewrite Horder in Hin. by apply (jobs_decode m chunks).
  - apply list.Forall_forall. intros e He. destruct (Forall2_in_r _ _ _ _ Hfiles He) as (x & Hx & _ & _ & Ho & _ & Hc).
    rewrite Hc, Ho. pose proof (gt_ids _ _ Hgt) as Hids. rewrite Forall_forall in Hids. symmetry. by apply Hids.
  - exists fs', stats. split; [done|]. split; [|done]. apply list.Forall_forall. intros x Hx.
    destruct (Forall2_in_l _ _ _ _ Hfiles Hx) as (f & Hfin & Hp & Hm & _ & _ & Hc). rewrite Forall_forall in Hf.
    specialize (Hf f Hfin). by rewrite Hp, Hm, Hc in Hf.
Qed.
End build.
End roundtrip.

(** ** The round trip at an example

    Two files of three and four bytes over two frames, and a submodule. *)
Module RoundtripExample.
Definition oid : string := "aaaaaaaaaaaaaaaaaaaa".
Definition sha1 (_ : bytes) : string := oid.
Definition encode (raw : bytes) : Result bytes := Ok (Byte.x01 :: raw).
Definition decode (c : bytes) (_ : N) : Result bytes := match c with _ :: raw => Ok raw | [] => Err "empty" end.
Definition blobs : list Blob := [("a", oid, 33188); ("d/b", oid, 33261)]%N%string.
Definition layout : Layout :=
  {| ly_blobs := blobs; ly_gitlinks := ["sub"%string]; ly_sizes := [3; 4]%N; ly_starts := [0; 3]%N; ly_total := 7 |}.
Definition stream : bytes := [Byte.x61; Byte.x62; Byte.x63; Byte.x64; Byte.x65; Byte.x66; Byte.x67].
Definition bounds : list (N * N) := [(0, 4); (4, 7)]%N.
Definition compressed : list bytes :=
  [[Byte.x01; Byte.x61; Byte.x62; Byte.x63; Byte.x64]; [Byte.x01; Byte.x65; Byte.x66; Byte.x67]].
Definition target : list string := ["t"%string].
Definition tree : FsTree := {[ target := Dir ]}.
Definition links (_ : FsTree) (_ : list string) (_ : bytes) : bool := false.

Lemma tree_ok : git_tree sha1 layout stream.
Proof.
  constructor.
  - repeat constructor; by vm_compute.
  - by repeat constructor.
  - apply NoDup_ListNoDup. repeat constructor; cbn; intuition discriminate.
  - intros e q He Hq. cbn in He, Hq. repeat (apply elem_of_cons in He as [->|He]); try by apply elem_of_nil in He.
    all: repeat (apply elem_of_cons in Hq as [->|Hq]); try by apply elem_of_nil in Hq.
    all: intros [k Hk]; vm_compute in Hk; try discriminate Hk; reflexivity.
  - by repeat constructor.
Qed.
Lemma tree_fresh : fresh_dir target tree.
Proof.
  split; [by vm_compute|]. intros ns Hns. unfold tree. rewrite lookup_singleton_ne; [done|].
  intros E. destruct ns; [done|]. by apply (f_equal length) in E.
Qed.
End RoundtripExample.

Lemma archive_roundtrip_witness :
  exists m chunks jobs fs' stats,
    build_chunks 5 RoundtripExample.layout RoundtripExample.compressed RoundtripExample.bounds = Ok (m, chunks) /\
    fetcher_jobs m 4 (fun c => Ok (slice (default [] (nget chunks (ck_chunk_index c))) (byte_start c) (byte_end c))) = Ok jobs /\
    extract_frames RoundtripExample.decode RoundtripExample.sha1 RoundtripExample.links m (Some RoundtripExample.target)
      (rev jobs) RoundtripExample.tree = (fs', Ok stats) /\
    fs' !! ["t"; "d"; "b"]%string = Some (File 493 [Byte.x64; Byte.x65; Byte.x66; Byte.x67]).
Proof.
  destruct (archive_roundtrip RoundtripExample.encode RoundtripExample.decode RoundtripExample.sha1 RoundtripExample.links
    ltac:(intros raw c H; injection H as <-; reflexivity)
    RoundtripExample.layout RoundtripExample.stream RoundtripExample.bounds RoundtripExample.compressed
    ltac:(repeat constructor; by vm_compute) ltac:(repeat constructor)
    5 4 RoundtripExample.blobs ["sub"%string] [3; 4]%N RoundtripExample.target RoundtripExample.tree)
    as (m & chunks & Hb & Hf); try done.
  - constructor; [by vm_compute|repeat constructor; by vm_compute|repeat constructor; by vm_compute|by vm_compute|by vm_compute].
  - apply RoundtripExample.tree_ok.
  - apply RoundtripExample.tree_fresh.
  - destruct (Hf (fun c => Ok (slice (default [] (nget chunks (ck_chunk_index c))) (byte_start c) (byte_end c))))
      as (jobs & Hj & Hx); [intros c data Hd _; by rewrite Hd|].
    destruct (Hx (rev jobs) ltac:(symmetry; apply Permutation_rev)) as (fs' & stats & Hr & Hfiles & _ & _).
    exists m, chunks, jobs, fs', stats. split; [exact Hb|]. split; [exact Hj|]. split; [exact Hr|].
    apply Forall_cons in Hfiles as [_ [H _]%Forall_cons]. exact H.
Defined.
