(* ===== verification/ArchiveHistory.v ===== *)
(** Every archive a server builds ([rust/src/archive.rs]), in any number of builds
    on builds, is downloaded and extracted ([rust/src/extract.rs]) into the tree of
    its commit. *)

From S2P Require Import Prelude Validation Paths Outputs Manifest Archive ArchivePlan ArchiveBundle ArchiveBuild ArchiveExact ArchiveTail WorktreeWriter Extract ExtractInv ExtractThms ExtractChunks Roundtrip.

Section history.
Context (cas_hash : bytes -> string) (decompress : bytes -> N -> Result bytes).
(** The bytes of each blob of the repository. *)
Context (content : string -> bytes).

(** ** The archives of a server

    [built ordered records a]: [a] was built of the commit whose listing is
    [records]; [ordered] when its table is as a cold or an incremental build made it,
    its files in the order of its stream. A table stored as a delta is read back with
    its files in another order ([delta_roundtrip] in [Manifest.v]); an incremental build
    needs the order of the stream again, as [BaseIndex::new] takes it for granted
    ([applied_delta_breaks_plan] in [ArchivePlan.v]), and a tail does not. The
    compression level, the cutter and what range reads answer may be other ones each
    time. *)
Definition in_order (a : ArchiveBase) : Prop :=
  forall groups, archive_exact cas_hash decompress content a groups -> stream_ordered content (ab_metadata a) groups.
Inductive built : bool -> list TreeRecord -> ArchiveBase -> Prop :=
  | built_cold zstd_encode find_blob blob_size cdc cdc_min local_range storage records target out written :
      tools_ok decompress content find_blob blob_size cdc zstd_encode ->
      build_into_cas cas_hash zstd_encode local_range find_blob blob_size cdc cdc_min storage records None target = Ok (out, written) ->
      (nlen (archive_frames out) < u32_max)%N -> built true records (output_archive out)
  | built_incremental zstd_encode find_blob blob_size cdc cdc_min local_range storage ordered old base records target out written :
      built ordered old base -> (ordered = false -> in_order base) -> tools_ok decompress content find_blob blob_size cdc zstd_encode ->
      build_into_cas cas_hash zstd_encode local_range find_blob blob_size cdc cdc_min storage records (Some base) target = Ok (out, written) ->
      (nlen (archive_frames out) < u32_max)%N -> built true records (output_archive out)
  | built_tail zstd_encode find_blob blob_size cdc local_range ordered old base records target out written :
      built ordered old base -> tools_ok decompress content find_blob blob_size cdc zstd_encode ->
      build_tail_into_cas cas_hash zstd_encode local_range find_blob blob_size cdc records base target = Ok (out, written) ->
      (nlen (archive_frames out) < u32_max)%N -> built false records (output_archive out)
  | built_reloaded ordered records a m :
      built ordered records a -> frames m = frames (ab_metadata a) -> gitlinks m = gitlinks (ab_metadata a) ->
      files m ≡ₚ files (ab_metadata a) ->
      built false records {| ab_frames := ab_frames a; ab_metadata := m; ab_bundles := ab_bundles a |}.

Context (Hhash : forall x y s t, cas_hash x +:+ s = cas_hash y +:+ t -> x = y).
#[local] Notation archive_exact := (archive_exact cas_hash decompress content).

Definition entry_blob (f : FileEntry) : Blob := (fe_path f, blob_sha1 f, fe_mode f).
Record built_ok (ordered : bool) (records : list TreeRecord) (a : ArchiveBase) (groups : list (list (bytes * bytes))) : Prop := {
  bo_exact : archive_exact a groups;
  bo_files : map entry_blob (files (ab_metadata a)) ≡ₚ (collect_blobs records).1;
  bo_links : gitlinks (ab_metadata a) = (collect_blobs records).2;
  bo_order : ordered = true -> stream_ordered content (ab_metadata a) groups;
  bo_count : (nlen (ab_frames a) < u32_max)%N;
}.

Lemma built_exact ordered records a : built ordered records a -> exists groups, built_ok ordered records a groups.
Proof.
  induction 1 as [zstd find size cdc cmin lr st records target out written Htools H Hmax
    |zstd find size cdc cmin lr st ordered old base records target out written _ (gb & Hb) Hord Htools H Hmax
    |zstd find size cdc lr ordered old base records target out written _ (gb & Hb) Htools H Hmax
    |ordered records a m _ (g & Ha) Hf Hg Hp].
  - assert (Hs : base_sound cas_hash decompress content None) by exact I.
    destruct (build_into_cas_exact cas_hash decompress content Hhash _ _ _ _ _ Htools _ _ _ _ _ _ _ Hs H) as (groups & He & [Ht Hl] & Ho); [lia|].
    exists groups. constructor; try done. by rewrite <- Ht.
  - assert (Hs : base_sound cas_hash decompress content (Some base)) by (exists gb; split; [apply Hb|]; destruct ordered; [by apply (bo_order _ _ _ _ Hb)|by apply Hord, Hb]).
    destruct (build_into_cas_exact cas_hash decompress content Hhash _ _ _ _ _ Htools _ _ _ _ _ _ _ Hs H) as (groups & He & [Ht Hl] & Ho); [lia|].
    exists groups. constructor; try done. by rewrite <- Ht.
  - destruct (build_tail_exact cas_hash decompress content Hhash _ _ _ _ Htools _ _ _ _ _ _ _ (bo_exact _ _ _ _ Hb) (bo_count _ _ _ _ Hb) H Hmax)
      as (groups & He & Ht & Hl).
    exists groups. constructor; try done. by rewrite <- Ht.
  - exists g. destruct Ha as [[Hx Hfiles] Hfs Hl _ Hn]. constructor; cbn; try done.
    + split; cbn; [by rewrite Hf|]. by rewrite Hp.
    + by rewrite (Permutation_map entry_blob Hp).
    + by rewrite Hg.
Qed.

(** ** What a client makes of one *)
Context (sha1 : bytes -> string) (link_resolves : FsTree -> list string -> bytes -> bool).

(** The tree of a commit: paths a worktree can have, and blobs named by content. *)
Record commit_tree (blobs : list Blob) (links : list string) : Prop := {
  ct_paths : Forall (fun b => validate_relative_path (b_path b) = Ok tt /\ b_mode b ∈ ALLOWED_MODES) blobs;
  ct_links : Forall (fun l => validate_relative_path l = Ok tt) links;
  ct_distinct : NoDup (map b_path blobs ++ links);
  ct_leaves : forall b q, b ∈ blobs -> q ∈ map b_path blobs ++ links -> path_names (b_path b) `prefix_of` path_names q -> b_path b = q;
  ct_ids : Forall (fun b => b_oid b = blob_id sha1 (content (b_oid b)) /\ str_len (b_oid b) = 20%N) blobs;
  ct_size : (nsum (map (fun b => nlen (content (b_oid b))) blobs) <= u64_max)%N;
}.
#[export] Instance commit_tree_perm : Proper (Permutation ==> eq ==> impl) commit_tree.
Proof.
  intros blobs blobs' Hp links ? <- [H1 H2 H3 H4 H5 H6].
  assert (Hb : map b_path blobs' ≡ₚ map b_path blobs) by (by rewrite (Permutation_map b_path Hp)).
  constructor; [by rewrite <- Hp|done|by rewrite Hb| |by rewrite <- Hp|].
  - intros b q. rewrite <- Hp. apply H4.
  - etransitivity; [|exact H6]. apply N.eq_le_incl. clear -Hp. induction Hp; cbn; unfold nsum in *; cbn; lia.
Qed.

Section client.
Context (a : ArchiveBase) (groups : list (list (bytes * bytes))) (Hex : archive_exact a groups)
  (Hmax : (nlen (ab_frames a) < u32_max)%N).
#[local] Notation m := (ab_metadata a).
#[local] Notation raws := (map fst (mjoin groups)).
#[local] Notation chunks := (map (fun g => mjoin (map snd g)) groups).
Definition raw_of (i : N) : bytes := default [] (nget (map fst (mjoin groups)) i).
Definition jobs_of : list (bytes * (N * N)) := map framed (mjoin groups).

Lemma exact_located : Forall2 (located chunks) (frames m) jobs_of.
Proof.
  destruct Hex as [[_ -> _ _ _] _]. pose proof (placed_all_located (map (map framed) groups)) as H.
  assert (E1 : map (map as_built) (map (map framed) groups) = map (map as_placed) groups).
  { rewrite map_map. apply map_ext. intros g. by rewrite map_map. }
  assert (E2 : map ArchiveBundle.content (map (map framed) groups) = chunks).
  { rewrite map_map. apply map_ext. intros g. unfold ArchiveBundle.content. by rewrite map_map. }
  assert (E3 : mjoin (map (map framed) groups) = jobs_of).
  { unfold jobs_of. clear. induction groups as [|g gs IH]; [done|]. cbn [map]. by rewrite !mjoin_cons, map_app, IH. }
  by rewrite E1, E2, E3 in H.
Qed.
Lemma exact_tile : frames_tile (frames m).
Proof.
  destruct Hex as [[_ -> _ Hg _] _]. apply placed_all_tile. apply Forall_fmap. eapply Forall_impl; [exact Hg|]. intros g [Hne Hl].
  split; [by destruct g|]. etransitivity; [|exact Hl]. apply N.eq_le_incl. clear. unfold group_bytes, nsum.
  induction g as [|x g IH]; [done|]. cbn [map foldr]. rewrite IH, mjoin_cons, nlen_app. done.
Qed.
Lemma frames_count : length (frames m) = length (mjoin groups) /\ (nlen (frames m) <= u32_max)%N.
Proof.
  destruct (bundles_exact_length _ _ _ _ _ _ (proj1 Hex)) as (_ & H1 & H2 & _). split; [done|]. unfold nlen in *. lia.
Qed.

Lemma jobs_decode_exact job : job ∈ frame_jobs jobs_of -> decodes decompress m job (raw_of job.1).
Proof.
  intros ([i [c b]] & -> & Hin%elem_of_enumerate)%elem_of_lmap. cbn. destruct (Forall2_lookup_r _ _ _ _ _ exact_located Hin) as (frame & Hf & Hc & Hr & _).
  cbn in Hc, Hr. unfold nget in Hin. change ((framed <$> mjoin groups) !! N.to_nat i = Some (c, b)) in Hin. rewrite list_lookup_fmap in Hin.
  destruct (mjoin groups !! N.to_nat i) as [x|] eqn:Ex; [|done]. injection Hin as <- <-. cbn in Hr. rewrite N.sub_0_r in Hr.
  destruct Hex as [[Hfr _ _ _ _] _]. destruct (Forall2_lookup_l _ _ _ _ _ Hfr Ex) as (af & _ & _ & _ & _ & _ & Hd).
  assert (Hraw : raw_of i = x.1) by (unfold raw_of, nget; by rewrite (list_lookup_fmap fst), Ex).
  exists x.2, frame. rewrite Hraw. split_and!; [done|done| |done]. unfold decompress_frame_recorded, decodes_to in *. rewrite Hc, Hr.
  destruct x.1 as [|y raw]; [by rewrite Hd|].
  rewrite (proj2 (N.eqb_neq (nlen (y :: raw)) 0)), andb_false_r by (rewrite nlen_cons; lia). done.
Qed.

Lemma file_content f : f ∈ files m -> content_of raw_of f = content (blob_sha1 f) /\ nsum (map fg_raw_len (fragments f)) = nlen (content (blob_sha1 f)).
Proof.
  intros Hf. destruct Hex as [_ Hfiles]. rewrite Forall_forall in Hfiles. destruct (Hfiles f Hf) as (_ & Hin & <-).
  rewrite (pieces_length _ _ Hin). split; [|done]. unfold content_of. f_equal. rewrite map_map. apply map_ext_in. intros fr Hfr%list_elem_of_In.
  rewrite Forall_forall in Hin. destruct (Hin fr Hfr) as (raw & Hr & _). unfold slice_bytes, slice_of, piece, raw_of. cbn. by rewrite Hr.
Qed.

Lemma exact_geometry : commit_tree (map entry_blob (files m)) (gitlinks m) -> geometry_ok m.
Proof.
  intros [C1 C2 C3 _ C5 _]. destruct Hex as [[_ Hi _ _ Hw] Hfiles]. rewrite Forall_forall in C1; rewrite Forall_forall in C5; rewrite Forall_forall in Hfiles. constructor.
  - apply list.Forall_forall. intros f Hf. assert (Hb : entry_blob f ∈ map entry_blob (files m)) by (apply elem_of_lmap; eauto).
    destruct (C1 _ Hb) as [Hv Hm]. destruct (C5 _ Hb) as [_ Hl]. destruct (Hfiles f Hf) as (Hne & Hin & _).
    constructor; [done|intros E; cbn in Hv; by rewrite E in Hv|done|done|done|].
    eapply Forall_impl; [exact Hin|]. intros fr (raw & Hr & Hle). unfold nget in Hr. rewrite (list_lookup_fmap fst) in Hr.
    destruct (mjoin groups !! N.to_nat (frame_index fr)) as [x|] eqn:Ex; [|done]. injection Hr as <-.
    assert (Hj : jobs_of !! N.to_nat (frame_index fr) = Some (framed x)) by (unfold jobs_of; by rewrite (list_lookup_fmap framed), Ex).
    destruct (Forall2_lookup_r _ _ _ _ _ exact_located Hj) as (info & Hinfo & _ & Hrl & _). cbn in Hrl. rewrite N.sub_0_r in Hrl.
    exists info. rewrite Hrl. rewrite Forall_forall in Hw. destruct (Hw x (list_elem_of_lookup_2 _ _ _ Ex)). split_and!; [done|done|lia].
  - eapply Forall_impl; [exact C2|]. intros l Hl. split; [|done]. intros ->. done.
  - rewrite map_map in C3. exact C3.
  - apply exact_tile.
Qed.
End client.

(** C32: whatever archive a server has built, cold, incremental on another or as a
    tail on another, however many builds deep and with tables read back from deltas in
    between, as long as every incremental build had a base whose table lists its files
    in the order of its stream (a cold or an incremental build's own table does): a
    client that fetches ranges of its bundles, of any size, and takes the frames in
    any order extracts without an error the tree of the archive's commit, every file
    with exactly its blob's bytes and its mode, and nothing outside the directory
    changes. *)
Theorem built_archive_extracts ordered records a chunk_size dir fs fetch :
  built ordered records a -> commit_tree (collect_blobs records).1 (collect_blobs records).2 -> fresh_dir dir fs ->
  (forall c hash data, nget (ab_bundles a) (ck_chunk_index c) = Some hash -> cas_hash data = hash -> (byte_end c <= nlen data)%N ->
     fetch c = Ok (slice data (byte_start c) (byte_end c))) ->
  exists jobs, fetcher_jobs (ab_metadata a) chunk_size fetch = Ok jobs /\
    forall order, order ≡ₚ jobs ->
      exists fs' stats, extract_frames decompress sha1 link_resolves (ab_metadata a) (Some dir) order fs = (fs', Ok stats) /\
        (forall b, b ∈ (collect_blobs records).1 ->
           fs' !! target_path dir (b_path b) = Some (node_of (b_mode b) (content (b_oid b)))) /\
        (forall p, (forall ns, ns <> [] -> p <> dir ++ ns) -> fs' !! p = fs !! p).
Proof.
  intros (groups & [Hex Hfiles Hlinks _ Hmax])%built_exact Htree Hfresh Hfetch. rewrite <- Hlinks in Htree. rewrite <- Hfiles in Htree.
  exists (frame_jobs (jobs_of groups)). pose proof (exact_located _ _ Hex) as Hloc. pose proof (frames_count _ _ Hex Hmax) as [Hlen Hcount].
  split; [|intros order Horder].
  { apply (fetcher_jobs_ok _ (map (fun g => mjoin (map snd g)) groups)); [by eapply exact_tile|done| |].
    - apply Forall_fmap. eapply Forall_impl; [exact (ax_groups _ _ _ _ _ _ (proj1 Hex))|]. by intros g [_ ?].
    - intros c data Hc. apply (Hfetch c (cas_hash data) data); [|done]. rewrite (ax_bundles _ _ _ _ _ _ (proj1 Hex)). unfold nget in *.
      rewrite (list_lookup_fmap (fun g => mjoin (map snd g))) in Hc. rewrite (list_lookup_fmap (bundle_hash cas_hash)).
      destruct (groups !! _); [|done]. by injection Hc as <-. }
  assert (Hjl : length (frame_jobs (jobs_of groups)) = length (frames (ab_metadata a))).
  { unfold frame_jobs. rewrite length_map. pose proof (nlen_enumerate (jobs_of groups)) as Hn. unfold nlen, jobs_of in *. rewrite length_map in Hn. lia. }
  destruct (extract_sound decompress sha1 link_resolves (ab_metadata a) dir (raw_of groups) order fs) as (fs' & stats & H & _ & Hf & _ & Hout); try done.
  - by apply (exact_geometry _ _ Hex).
  - intros e q He Hq. pose proof (ct_leaves _ _ Htree (entry_blob e) q) as Hleaf. rewrite map_map in Hleaf. apply Hleaf; [|exact Hq].
    apply elem_of_lmap. eauto.
  - intros Hno. destruct (files (ab_metadata a)) as [|f l] eqn:Ef; [done|]. destruct Hex as [_ Hfs]. rewrite Ef in Hfs.
    apply Forall_cons in Hfs as [(Hne & Hin & _) _]. destruct (fragments f) as [|fr frs]; [done|]. apply Forall_cons in Hin as [(raw & Hr & _) _].
    unfold nget in Hr. apply lookup_lt_Some in Hr. rewrite length_map, <- Hlen, Hno in Hr. cbn in Hr. lia.
  - apply raw_total_ok. etransitivity; [|exact (ct_size _ _ Htree)]. apply N.eq_le_incl. f_equal. rewrite map_map. apply map_ext_in.
    intros e He%list_elem_of_In. by apply (file_content _ _ Hex).
  - change (NoDup (fst <$> order)). rewrite Horder. change (NoDup (map fst (frame_jobs (jobs_of groups)))).
    unfold frame_jobs. rewrite map_map. apply enumerate_fst_NoDup.
  - by rewrite Horder.
  - apply list.Forall_forall. intros job Hin. rewrite Horder in Hin. by apply (jobs_decode_exact _ _ Hex).
  - apply list.Forall_forall. intros e He. destruct (file_content _ _ Hex e He) as [-> _]. pose proof (ct_ids _ _ Htree) as Hids.
    rewrite Forall_forall in Hids. symmetry. apply (Hids (entry_blob e)). apply elem_of_lmap. eauto.
  - exists fs', stats. split_and!; [done| |done]. intros b Hb. rewrite <- Hfiles in Hb. apply elem_of_lmap in Hb as (e & -> & He).
    rewrite Forall_forall in Hf. specialize (Hf e He). destruct (file_content _ _ Hex e He) as [Hc _]. by rewrite Hc in Hf.
Qed.
End history.

(** ** An example: a cold build, an incremental one and a tail *)
Module HistoryExample.
(** A hash of which none starts another, blob ids of a blob's last byte, frames of
    two bytes, and compression that adds a byte. *)
Fixpoint hash (data : bytes) : string :=
  match data with [] => "0" | b :: data => String "1" (String (ascii_of_byte b) (hash data)) end.
Definition id (c : ascii) : string := String c "aaaaaaaaaaaaaaaaaaa".
Definition sha1 (data : bytes) : string := id (ascii_of_byte (List.last data Byte.x00)).
Definition content (oid : string) : bytes :=
  match oid with
  | String "A" _ => [Byte.x41; Byte.x41]
  | String "B" _ => [Byte.x42; Byte.x42; Byte.x42; Byte.x42]
  | String "C" _ => [Byte.x43; Byte.x43]
  | String "D" _ => [Byte.x44; Byte.x44]
  | _ => [Byte.x45; Byte.x45; Byte.x45]
  end.
Definition find_blob (oid : string) : Result bytes := Ok (content oid).
Definition blob_size (oid : string) : Result N := Ok (nlen (content oid)).
Fixpoint cdc_from (offset : N) (data : bytes) : list (N * N) :=
  match data with
  | [] => []
  | [_] => [(offset, 1%N)]
  | _ :: _ :: rest => (offset, 2%N) :: cdc_from (offset + 2) rest
  end.
Definition cdc : bytes -> list (N * N) := cdc_from 0.
Definition encode (raw : bytes) : Result bytes := Ok (Byte.x01 :: raw).
Definition decode (c : bytes) (_ : N) : Result bytes := match c with _ :: raw => Ok raw | [] => Err "empty" end.
Definition links (_ : FsTree) (_ : list string) (_ : bytes) : bool := false.
Definition no_range (_ : string) (_ _ : N) : Result bytes := Err "absent".

Definition record (path : string) (c : ascii) : TreeRecord := {| tr_path := path; tr_mode := 33188; tr_oid := id c |}.
Definition first : list TreeRecord := [record "a" "A"; record "b" "B"; record "c" "C"].
Definition second : list TreeRecord := [record "a" "D"; record "b" "B"; record "c" "C"].
Definition third : list TreeRecord := [record "a" "D"; record "c" "C"; record "e" "E"].

Definition nothing : ArchiveBuildOutput * list (string * bytes) :=
  ({| download_bundle_hashes := []; new_bundle_hashes := []; ao_metadata := {| frames := []; files := []; gitlinks := [] |};
      archive_frames := []; ao_reuse := Bundler_reuse false false 0 Bundler_new |}, []).
Definition get (r : Result (ArchiveBuildOutput * list (string * bytes))) : ArchiveBuildOutput * list (string * bytes) :=
  match r with Ok x => x | Err _ => nothing end.
Definition build_on (base : option ArchiveBase) (records : list TreeRecord) : Result (ArchiveBuildOutput * list (string * bytes)) :=
  build_into_cas hash encode no_range find_blob blob_size cdc 1 None records base 8.
Definition cold : ArchiveBuildOutput * list (string * bytes) := get (build_on None first).
(** The local copies of the cold build's bundles. *)
Definition ranges (bundle : string) (offset len : N) : Result bytes :=
  match List.find (fun x => bool_decide (x.1 = bundle)) cold.2 with
  | Some (_, data) => Ok (slice data offset (offset + len))
  | None => Err "absent"
  end.
Definition incremental_result : Result (ArchiveBuildOutput * list (string * bytes)) :=
  build_into_cas hash encode ranges find_blob blob_size cdc 1 None second (Some (output_archive cold.1)) 8.
Definition incremental : ArchiveBuildOutput * list (string * bytes) := get incremental_result.
Definition tail_result : Result (ArchiveBuildOutput * list (string * bytes)) :=
  build_tail_into_cas hash encode no_range find_blob blob_size cdc third (output_archive incremental.1) 8.
Definition tail : ArchiveBuildOutput * list (string * bytes) := get tail_result.

(** The bundle of a hash. *)
Fixpoint unhash (s : string) : bytes :=
  match s with String "1" (String b s) => byte_of_ascii b :: unhash s | _ => [] end.
Definition fetch (c : Chunk) : Result bytes :=
  let? h := context (nget (download_bundle_hashes tail.1) (ck_chunk_index c)) "no such bundle" in
  Ok (slice (unhash h) (byte_start c) (byte_end c)).
Definition target : list string := ["t"%string].
Definition tree : FsTree := {[ target := Dir ]}.

Lemma hash_prefix x y s t : hash x +:+ s = hash y +:+ t -> x = y.
Proof.
  revert y. induction x as [|b x IH]; intros [|c y] H; try done. cbn in H. injection H as Hb H.
  apply IH in H as ->. f_equal. rewrite <- (byte_of_ascii_of_byte b), <- (byte_of_ascii_of_byte c). by rewrite Hb.
Qed.
Lemma unhash_hash x : unhash (hash x) = x.
Proof. induction x as [|b x IH]; [done|]. cbn [hash unhash]. by rewrite IH, byte_of_ascii_of_byte. Qed.
Lemma cdc_tiles offset data : tiles offset (map (fun '(o, len) => (o, o + len)%N) (cdc_from offset data)) (offset + nlen data).
Proof.
  revert offset data. fix IH 2. intros offset [|x [|y data]]; cbn [cdc_from map].
  - rewrite N.add_0_r. constructor.
  - constructor; [lia|constructor].
  - constructor; [lia|]. replace (offset + nlen (x :: y :: data))%N with (offset + 2 + nlen data)%N by (rewrite !nlen_cons; lia). apply IH.
Qed.
Lemma tools : tools_ok decode content find_blob blob_size cdc encode.
Proof.
  constructor; [by intros oid data [= <-]|by intros oid n [= <-]| |by intros raw c [= <-]].
  intros data. unfold cut_bounds, cdc. exact (cdc_tiles 0 data).
Qed.
Lemma tail_built : built hash decode content false third (output_archive tail.1).
Proof.
  refine (built_tail hash decode content encode find_blob blob_size cdc no_range true second (output_archive incremental.1) third 8 tail.1 tail.2
    _ tools _ _); [|by vm_compute|by vm_compute].
  refine (built_incremental hash decode content encode find_blob blob_size cdc 1 ranges None true first (output_archive cold.1) second 8
    incremental.1 incremental.2 _ ltac:(done) tools _ _); [|by vm_compute|by vm_compute].
  refine (built_cold hash decode content encode find_blob blob_size cdc 1 no_range None first 8 cold.1 cold.2 tools _ _); by vm_compute.
Qed.
Lemma third_tree : commit_tree content sha1 (collect_blobs third).1 (collect_blobs third).2.
Proof.
  constructor.
  - repeat constructor; by vm_compute.
  - by constructor.
  - apply NoDup_ListNoDup. repeat constructor; cbn; intuition discriminate.
  - intros e q He Hq. cbn in He, Hq. repeat (apply elem_of_cons in He as [->|He]); try by apply elem_of_nil in He.
    all: repeat (apply elem_of_cons in Hq as [->|Hq]); try by apply elem_of_nil in Hq.
    all: intros [k Hk]; vm_compute in Hk; try discriminate Hk; reflexivity.
  - repeat constructor; by vm_compute.
  - by vm_compute.
Qed.
Lemma tree_new : fresh_dir target tree.
Proof.
  split; [by vm_compute|]. intros ns Hns. unfold tree. rewrite lookup_singleton_ne; [done|].
  intros E. destruct ns; [done|]. by apply (f_equal length) in E.
Qed.
End HistoryExample.

Lemma built_archive_extracts_witness :
  exists jobs fs' stats,
    fetcher_jobs (ao_metadata HistoryExample.tail.1) 4 HistoryExample.fetch = Ok jobs /\
    extract_frames HistoryExample.decode HistoryExample.sha1 HistoryExample.links (ao_metadata HistoryExample.tail.1)
      (Some HistoryExample.target) (rev jobs) HistoryExample.tree = (fs', Ok stats) /\
    fs' !! ["t"; "e"]%string = Some (File 420 [Byte.x45; Byte.x45; Byte.x45]).
Proof.
  destruct (built_archive_extracts HistoryExample.hash HistoryExample.decode HistoryExample.content HistoryExample.hash_prefix
    HistoryExample.sha1 HistoryExample.links false HistoryExample.third (output_archive HistoryExample.tail.1) 4 HistoryExample.target
    HistoryExample.tree HistoryExample.fetch HistoryExample.tail_built HistoryExample.third_tree HistoryExample.tree_new)
    as (jobs & Hj & Hx).
  - intros c h data Hh <- _. unfold HistoryExample.fetch. cbn [output_archive ab_bundles] in Hh. rewrite Hh. cbn [context rbind].
    by rewrite HistoryExample.unhash_hash.
  - destruct (Hx (rev jobs) ltac:(symmetry; apply Permutation_rev)) as (fs' & stats & Hr & Hf & _).
    exists jobs, fs', stats. split; [exact Hj|]. split; [exact Hr|].
    apply (Hf ("e", HistoryExample.id "E", 33188%N)%string). cbn. right; right; left.
Defined.
